(* ===== verification/_CoqProject ===== *)
-Q . S2P
Prelude.v
Doubles.v
NumberUtils.v
WorkerInfo.v
Messages.v
Sockets.v
Settings.v
Uuid.v
DoubleOrder.v
Pagmo.v
Island.v
PopulationTools.v
WorkerLogic.v
Worker.v
WorkPlan.v
Solver.v
Codec.v
WorkScenario.v
Controller.v
ControllerSpec.v
ControllerLiveness.v
Grants.v
System.v
SystemSpec.v
SystemTheorems.v
SystemTyping.v
SystemLiveness.v
Deployment.v
Sha256Spec.v
Sha256.v
Sha256Block.v
Sha256Stream.v
LruCache.v
HashCache.v
LibLoader.v
UdpRegistry.v
UdpVersions.v
UdpTheorems.v
UdpScenario.v
SystemScenario.v
DeploymentScenario.v
UdpWrapper.v
UdpTransfer.v
Scenario.v
Csv.v
Numerals.v
FmtInt.v
FmtSpecs.v
FmtParse.v
FmtUnicode.v
FmtWrite.v
FmtUtf8.v
FmtDragonbox.v
FmtShortest.v
FmtBigint.v
FmtFloat.v
FmtReadBack.v
FmtFormat.v
FmtCheck.v
FmtPlain.v
ResultsHtml.v
PathNormalizer.v
BenchmarkStats.v
BenchmarkReport.v
MainArgs.v
Benchmarks.v
BenchmarkSolver.v
Logging.v
LogPattern.v
LogFormat.v
LogOutput.v
LogCalls.v
Process.v
Tasks.v
Main.v
ControllerProcess.v
Problems.v
MainScenario.v
UnitTests.v
PopulationTests.v
