(* ===== verification/Prelude.v ===== *)
(** * Distributed Pagmo metasolver: verification library

    The program (C++ under src/src/) solves optimisation problems with Pagmo on
    several computers. A _controller_ process builds an archipelago of
    _distributed islands_ from a _work plan_, hands their evolutions to _worker_
    processes over ZeroMQ sockets, keeps statistics of the workers, and gives
    problem libraries to workers that miss them. This library models its C++
    code and proves what makes it correct.

    ** Conventions

    This file has what all others share: [outcome] (a C++ expression returns,
    throws, or leaves the defined behaviour of the program), the monad [M S] of
    stateful code whose state survives a throw, [for_each], [try_catch],
    [zoom] (a method of a component in a field), weakest preconditions [wp],
    fixed-width integers ([w8], [w32], [w64]), bytes and strings, and the
    tactics [run_simpl] and [m_eval]. Doubles.v and DoubleOrder.v are binary64
    arithmetic (SpecFloat) and what is needed of its order and its range.

    A definition has the name of the function it models; a record is a class
    with its data members; a class of parameters ([Class]) is code that is not
    in the repository, its [...Laws] are the documented behaviour relied on,
    and every such class has a concrete instance in the files of witnesses.
    Every witness evaluates the model on concrete data.

    ** The components

    - _Statistics_ (WorkerInfo.v: worker_info_repository.cpp): each method is an
      atomic step; the monitor behind [wait_until_worker_count] is a step
      relation with explicit notifications.
    - _Messages, sockets, settings_ (Messages.v, Codec.v, Sockets.v, Settings.v):
      MsgType.h, the containers and their archives, the framing of every
      socket class, and the settings files.
    - _Controller_ (Controller.v, ControllerSpec.v, ControllerLiveness.v):
      both message handlers of distributed_controller.cpp with the allocation
      of workers to islands, and the server loop. ControllerSpec.v has the
      invariant and the refinement of an abstract job store.
    - _Islands_ (Island.v: distributed_island.cpp), _workers_ (WorkerLogic.v,
      Worker.v: distributed_worker.cpp; the client thread and the worker thread
      interleave event by event), _selection of individuals_
      (PopulationTools.v).
    - _Solver_ (WorkPlan.v, Solver.v: distributed_solver.cpp): the plan over
      statistics that change while it is made, [evolve], hints, and the waits
      for workers and for completion.
    - _The whole system_ (Grants.v, System.v, SystemSpec.v, SystemTheorems.v,
      SystemTyping.v, SystemLiveness.v): islands, the controller and workers
      as processes joined by queues; workers come, die and come back at any
      time. One step runs the component's own code. Deployment.v puts the
      solver's [evolve] into such a running system: the statistics it plans
      with are the controller's, and its islands are the system's.
    - _Libraries_ (LibLoader.v, LruCache.v, HashCache.v, UdpRegistry.v,
      UdpVersions.v, UdpTheorems.v, UdpWrapper.v, UdpTransfer.v; discovery/ and
      dynamic/): dlopen and the file system as state, the caches, the versions
      of a library, and problems whose code is in a library. Problems.v has the
      two example libraries of run_example/problems.
    - _SHA-256_ (Sha256.v, Sha256Block.v, Sha256Stream.v against Sha256Spec.v),
      _UUIDs_ (Uuid.v), _number utilities_ (NumberUtils.v).
    - _Benchmarks_ (Csv.v, Numerals.v, PathNormalizer.v, ResultsHtml.v,
      BenchmarkStats.v, BenchmarkReport.v, Benchmarks.v, BenchmarkSolver.v):
      the suites, their statistics, and the CSV and HTML reports.
    - _Processes_ (MainArgs.v, Logging.v, Process.v, Tasks.v, Main.v,
      ControllerProcess.v: run_example/, logging_utils.h): the command line and
      its help, the loggers in spdlog's registry, the objects a process
      constructs and destroys with the loggers they ask for, both controller
      tasks, exit statuses, identities. ControllerProcess.v runs the tasks with
      the real solver.
    - _Format strings_ (FmtInt.v, FmtSpecs.v, FmtParse.v, FmtUnicode.v,
      FmtUtf8.v, FmtWrite.v, FmtFormat.v, FmtCheck.v, FmtPlain.v: base.h,
      format.h and format-inl.h of the fmt in utils/include/spdlog): decimal
      digits, specifications and their parser, Unicode, the writers of integers,
      characters and text, the formatter and the checker the compiler runs, and
      the format strings of the program's log calls.
    - _Doubles as text_ (FmtDragonbox.v, FmtBigint.v, FmtFloat.v: the same
      headers): the shortest decimal of a double with its table of powers of
      ten, big integers and the digits to a given precision, and the writer in
      all notations. FmtShortest.v and FmtReadBack.v have the proofs: the
      decimal's distance from the double, and the text read back.
    - _Logs_ (LogPattern.v, LogFormat.v, LogOutput.v, LogCalls.v: the part of
      spdlog behind utils/logger_init.cpp): the pattern formatter with its
      padding and caches, the sinks on C's buffered files, a reader of the log
      file, and log calls with their arguments.
    - _Tests_ (UnitTests.v, PopulationTests.v: src/tests/): the repository's
      test cases as programs over the model, which pass.
    - _Witnesses_: Scenario.v, WorkScenario.v, SystemScenario.v, UdpScenario.v,
      DeploymentScenario.v, MainScenario.v, and the ends of the other files.

    ** Interfaces

    [LibraryStore] (Controller.v) is what the controller needs of the registry:
    the registry implements it in SystemScenario.v. [MetaSolver] (Benchmarks.v)
    is what a benchmark needs of the solver: [distributed_solver] implements it
    in BenchmarkSolver.v. [RunningSolver] (Tasks.v) is what a controller task
    needs of it: [distributed_solver] implements it in ControllerProcess.v.
    [PlanEnvironment] (WorkPlan.v) is what the solver sees of statistics that
    the controller's thread changes, of the settings that hold them and of the
    steps that disturb an access without a lock: a running system implements it
    in Deployment.v. [Zmq] (Process.v) is ZeroMQ's sockets as a process opens
    them; [LogSystem] and [Stdio] are the system's clock conversions and C's
    files, as a log sees them; [GlobalLocale] groups digits. A [handler]
    (FmtFormat.v) is what the parser of format strings calls: the formatter and
    the checker are two, and [handler_ok] and [handlers_track] (FmtCheck.v) are
    what the parser's theorems need of them. [Pagmo], [PagmoIsland], [PagmoArchipelago], [PagmoEvolve], [PagmoSort], [PagmoMetrics],
    [BenchmarkSuite], [PagmoSchwefel] are Pagmo; [UdpCode], [UdpClasses] the
    code in the libraries; [Archive] is Boost's serialization; [StdSort] is
    std::sort.

    ** What the theorems show

    - Jobs: in every run of the system each island's jobs are answered, in
      order, by results computed from exactly those jobs, and no process
      throws or crashes but a worker whose computation does, which ends that
      worker alone, and an island whose algorithm cannot be sent. The controller
      refines a job store and, as long as no busy worker joins again, loses no
      job and answers none twice; when every worker has died, one fresh worker
      that can compute the unanswered jobs is enough for all islands to be
      answered. Every message on every link has a type and a payload its
      receiver accepts.
    - Work: the plan's sizes, algorithms and preferred workers, and when there is
      no plan: the settings file cannot be written, or the controller's thread
      changes the statistics during the accesses that take no lock; [evolve]
      starts exactly the plan; a completed evolution answers with the best individual;
      an evolution in the running system ends with every island answered;
      workers answer with populations of the right size and problem.
    - Libraries: registry and caches agree with the files in every run of
      threads in which the computations of hashes, which take no lock, do not
      overlap with another use of their cache; the version asked for is the
      version mapped when its file has the hash asked for (downloads are not
      checked); a problem arrives with the sender's version.
    - Data: SHA-256 against FIPS 180-4, the LRU cache against a recency list,
      CSV to HTML against a table, the command line against a list of options,
      sockets and settings as round trips, a log file read back as the messages
      that were logged when its device takes every byte and the error handler's
      reports when it does not, fmt's digit tables against division and its UTF-8 decoder
      against the encoding.
    - Format strings: formatting anything but doubles always returns or throws
      a format error; what the compiler's check accepts is formatted, but for
      errors that depend on values; a log call with plain fields puts its
      arguments, doubles included, into the line. A double without
      specifications always has a text, at most 24 characters for a finite one,
      and that text is read as a number within half a unit in the last place.
      fmt's big integers compute sums, products, powers of ten and quotients, and
      the digits they give of a double are its value correctly rounded.
    - Processes: a controller with the default task that ends with status 0 has
      evolved its problem twice and awaited both evolutions; a logger is asked for once per name; the repository's tests pass.
    - Errors: what stops the server thread, ends a worker's process, loses a
      job, keeps a bad hint or a failed load, crashes a process that fails
      after its start or that disables its loggers: each is a theorem about the
      code as it is.

    ** Bounds and fuel

    Loops over data are structural recursions on it. The loops of
    [_generate_work_plan], [_split_population_for_islands] and
    [benchmark_compare_runner] recurse on the number of iterations the code
    computes first. The number of digits of an integer is bounded by its binary
    logarithm ([digits_fuel]), the number of directories above a path by its
    length. [run_server] and the worker's client loop are runs over a list of
    the events that arrive. A wait for workers looks at the repository at
    [patience] moments and is [blocked] when these end; [connect_wait_ends] says
    that enough of them give the first moment with enough workers. Counters and sizes are reduced modulo 2^64 where the
    code's are; theorems about sizes assume populations below 2^59. A log
    pattern is compiled with its length as fuel, a format string, its
    specifications and a text of code points are gone through with theirs: every
    round consumes a character. Digits in bases 2, 8 and 16 have 64 rounds
    ([bits_fuel]), a round for each group of digits at most one per digit. That
    the fuel is enough is part of [format_total], which excludes every crash.
    Pairs of zeros are removed from a decimal in at most 64 rounds
    ([pairs_fuel]): [double_text_accurate] excludes crashes too. A digit of a
    big quotient takes at most ten subtractions ([digit_fuel]), the shortest
    digits of a number at most 800 ([dragon_fuel]).

    ** Not modelled

    ZeroMQ's own connection handling (its effect on messages is the queues of
    System.v) and socket options. The lines the components log are not
    recorded, only the loggers they need; what becomes of any sequence of
    messages is in LogOutput.v and LogCalls.v. Of the vendored spdlog and fmt,
    what the program does not reach (asynchronous loggers, the other sinks, the
    backtracer; fmt's dates, ranges, colours, printf, wide characters, named
    arguments, user-defined types, float and long double) is left out; memory
    does not run out. The unit test that
    measures the time [wait_until_worker_count] waits, and the build files. File systems and
    dlopen follow POSIX; Windows branches are not modelled. Errors of
    std::filesystem other than denied files are not modelled, nor is
    [create_directories] of an empty path. *)
From Stdlib Require Export ZArith Lia.
From stdpp Require Export base tactics option list gmap strings sorting numbers.

#[global] Open Scope Z_scope.

(** ** Outcomes of C++ code

    A C++ expression returns, throws an exception that a handler may catch, or
    leaves the program in a state no handler sees any more (undefined
    behaviour, or [std::terminate]). *)
Inductive exn :=
  | runtime_error (what : string)
  | out_of_range (what : string)
  | invalid_argument (what : string)
  | ios_failure (what : string)
  | archive_exception (what : string)
  | spdlog_ex (what : string)
  | std_exception. (* a copy of the base class alone *)

Inductive fault :=
  | undefined_behaviour (what : string)
  | terminate (what : string)
  | blocked (what : string). (* the thread still waits when the model stops looking *)

Inductive outcome (A : Type) :=
  | Ret (a : A)
  | Throw (e : exn)
  | Crash (f : fault).
Arguments Ret {A} a.
Arguments Throw {A} e.
Arguments Crash {A} f.

#[export] Instance exn_eq_dec : EqDecision exn.
Proof. solve_decision. Defined.
#[export] Instance fault_eq_dec : EqDecision fault.
Proof. solve_decision. Defined.
#[export] Instance outcome_eq_dec {A} `{EqDecision A} : EqDecision (outcome A).
Proof. solve_decision. Defined.

#[export] Instance outcome_ret : MRet outcome := λ A a, Ret a.
#[export] Instance outcome_bind : MBind outcome := λ A B k o,
  match o with
  | Ret a => k a
  | Throw e => Throw e
  | Crash f => Crash f
  end.

#[export] Instance outcome_fmap : FMap outcome := λ A B f o,
  match o with
  | Ret a => Ret (f a)
  | Throw e => Throw e
  | Crash f => Crash f
  end.

(** ** Stateful code that may throw

    The state survives a throw: what a handler changed before the exception
    stays changed. *)
Definition M (S A : Type) : Type := S → outcome A * S.

#[export] Instance M_ret {S} : MRet (M S) := λ A a s, (Ret a, s).
#[export] Instance M_bind {S} : MBind (M S) := λ A B k m s,
  match m s with
  | (Ret a, s') => k a s'
  | (Throw e, s') => (Throw e, s')
  | (Crash f, s') => (Crash f, s')
  end.

Definition get_state {S} : M S S := λ s, (Ret s, s).
Definition put_state {S} (s : S) : M S unit := λ _, (Ret tt, s).
Definition modify {S} (f : S → S) : M S unit := λ s, (Ret tt, f s).
Definition throw {S A} (e : exn) : M S A := λ s, (Throw e, s).
Definition crash {S A} (f : fault) : M S A := λ s, (Crash f, s).
Definition lift {S A} (o : outcome A) : M S A := λ s, (o, s).

(** [try_catch m h]: the handler sees the state the throw left behind. *)
Definition try_catch {S A} (m : M S A) (h : exn → M S A) : M S A := λ s,
  match m s with
  | (Throw e, s') => h e s'
  | r => r
  end.

(** Run a method of a component held in a field of a larger object. *)
Definition zoom {S T A} (get : S → T) (put : T → S → S) (m : M T A) : M S A :=
  λ s, let '(o, t) := m (get s) in (o, put t s).

(** [for (x : l) body x] *)
Fixpoint for_each {S A} (l : list A) (body : A → M S unit) : M S unit :=
  match l with
  | [] => mret tt
  | x :: l => body x ≫= λ _, for_each l body
  end.

(** Running a computation written with the monad's notations. *)
Lemma bind_run {S A B} (m : M S A) (k : A → M S B) s :
  (m ≫= k) s =
  match m s with
  | (Ret a, s') => k a s'
  | (Throw e, s') => (Throw e, s')
  | (Crash f, s') => (Crash f, s')
  end.
Proof. done. Qed.

Lemma ret_run {S A} (a : A) (s : S) : (mret a : M S A) s = (Ret a, s).
Proof. done. Qed.

Lemma bind_ret_inv {S A B} (m : M S A) (k : A → M S B) s b s'' :
  (m ≫= k) s = (Ret b, s'') →
  ∃ a s', m s = (Ret a, s') ∧ k a s' = (Ret b, s'').
Proof.
  rewrite bind_run. destruct (m s) as [[a|e|f] s'] eqn:E; intros H; simplify_eq. eauto.
Qed.

Lemma for_each_app {S A} (l1 l2 : list A) (body : A → M S unit) s :
  for_each (l1 ++ l2) body s = (for_each l1 body ≫= λ _, for_each l2 body) s.
Proof.
  revert s. induction l1 as [|x l1 IH]; intros s; [done|].
  cbn. rewrite !bind_run. destruct (body x s) as [[[]|e|f] s']; [apply IH|done|done].
Qed.

(** [run_simpl] evaluates the monadic skeleton of a definition. *)
Ltac run_simpl :=
  repeat progress (rewrite ?bind_run; cbn [get_state put_state modify throw crash lift zoom mret M_ret fst snd]).

(** [m_eval] also evaluates state accesses in the middle of a computation. *)
Ltac m_eval :=
  unfold get_state, put_state, modify, throw, crash, lift, zoom, mret, M_ret;
  repeat progress (rewrite ?bind_run; cbn beta iota delta [fst snd]).

(** ** Weakest preconditions

    [wp m Q E s]: from [s], [m] does not crash; it returns with [Q] or throws
    with [E]. *)
Definition wp {S A} (m : M S A) (Q : A → S → Prop) (E : exn → S → Prop) (s : S) : Prop :=
  match m s with
  | (Ret a, s') => Q a s'
  | (Throw e, s') => E e s'
  | (Crash _, _) => False
  end.

#[global] Arguments wp : simpl never.

Lemma wp_bind {S A B} (m : M S A) (k : A → M S B) Q E s :
  wp m (λ a, wp (k a) Q E) E s → wp (m ≫= k) Q E s.
Proof. unfold wp. rewrite bind_run. by destruct (m s) as [[a|e|f] s']. Qed.

Lemma wp_mono {S A} (m : M S A) (Q Q' : A → S → Prop) (E E' : exn → S → Prop) s :
  wp m Q E s → (∀ a s', Q a s' → Q' a s') → (∀ e s', E e s' → E' e s') → wp m Q' E' s.
Proof. unfold wp. destruct (m s) as [[a|e|f] s']; eauto. Qed.

Lemma wp_ret {S A} (a : A) (Q : A → S → Prop) E s : Q a s → wp (mret a) Q E s.
Proof. done. Qed.

Lemma wp_get {S} (Q : S → S → Prop) E s : Q s s → wp get_state Q E s.
Proof. done. Qed.

Lemma wp_put {S} (t : S) (Q : unit → S → Prop) E s : Q tt t → wp (put_state t) Q E s.
Proof. done. Qed.

Lemma wp_modify {S} (f : S → S) (Q : unit → S → Prop) E s : Q tt (f s) → wp (modify f) Q E s.
Proof. done. Qed.

Lemma wp_throw {S A} e (Q : A → S → Prop) (E : exn → S → Prop) s : E e s → wp (throw e) Q E s.
Proof. done. Qed.

Lemma wp_zoom {S T A} (get : S → T) (put : T → S → S) (m : M T A) Q E s :
  wp m (λ a t, Q a (put t s)) (λ e t, E e (put t s)) (get s) → wp (zoom get put m) Q E s.
Proof. unfold wp, zoom. by destruct (m (get s)) as [[a|e|f] t]. Qed.

Lemma wp_run {S A} (m : M S A) Q E s a s' : wp m Q E s → m s = (Ret a, s') → Q a s'.
Proof. unfold wp. intros H Hm. by rewrite Hm in H. Qed.

(** ** Fixed-width unsigned integers: values of [Z] reduced modulo [2^w] *)
Definition w8 (x : Z) : Z := x mod 2 ^ 8.
Definition w32 (x : Z) : Z := x mod 2 ^ 32.
Definition w64 (x : Z) : Z := x mod 2 ^ 64.

Create HintDb dist discriminated.

Lemma w32_range x : 0 ≤ w32 x < 2 ^ 32.
Proof. apply Z.mod_pos_bound. lia. Qed.

Lemma w64_range x : 0 ≤ w64 x < 2 ^ 64.
Proof. apply Z.mod_pos_bound. lia. Qed.

Lemma w64_small x : 0 ≤ x < 2 ^ 64 → w64 x = x.
Proof. apply Z.mod_small. Qed.

Lemma w32_small x : 0 ≤ x < 2 ^ 32 → w32 x = x.
Proof. apply Z.mod_small. Qed.

Lemma w64_add_l a b : w64 (w64 a + b) = w64 (a + b).
Proof. unfold w64. apply Zplus_mod_idemp_l. Qed.

Lemma w64_add_r a b : w64 (a + w64 b) = w64 (a + b).
Proof. unfold w64. apply Zplus_mod_idemp_r. Qed.

Lemma w64_idem a : w64 (w64 a) = w64 a.
Proof. unfold w64. apply Zmod_mod. Qed.

Lemma w32_add_l a b : w32 (w32 a + b) = w32 (a + b).
Proof. unfold w32. apply Zplus_mod_idemp_l. Qed.

Lemma w32_add_r a b : w32 (a + w32 b) = w32 (a + b).
Proof. unfold w32. apply Zplus_mod_idemp_r. Qed.

Lemma w32_idem a : w32 (w32 a) = w32 a.
Proof. unfold w32. apply Zmod_mod. Qed.

#[export] Hint Resolve w32_range w64_range : dist.
Create Rewrite HintDb w64_norm.
Create Rewrite HintDb w32_norm.
#[export] Hint Rewrite w64_add_l w64_add_r w64_idem : w64_norm.
#[export] Hint Rewrite w32_add_l w32_add_r w32_idem : w32_norm.

(** ** Bytes: [std::byte], [unsigned char] *)
Abbreviation byte := Corelib.Init.Byte.byte.
Abbreviation bytes := (list Corelib.Init.Byte.byte).

#[export] Instance byte_eq_dec : EqDecision byte := Stdlib.Strings.Byte.byte_eq_dec.

Definition byte_val (b : byte) : Z := Z.of_N (Stdlib.Strings.Byte.to_N b).

Lemma byte_val_range b : 0 ≤ byte_val b < 256.
Proof.
  unfold byte_val. pose proof (Stdlib.Strings.Byte.to_N_bounded b). lia.
Qed.
#[export] Hint Resolve byte_val_range : dist.

Definition byte_of_Z (z : Z) : byte :=
  match Stdlib.Strings.Byte.of_N (Z.to_N (z mod 256)) with
  | Some b => b
  | None => Corelib.Init.Byte.x00
  end.

Lemma byte_val_of_Z z : byte_val (byte_of_Z z) = z mod 256.
Proof.
  unfold byte_of_Z, byte_val. pose proof (Z.mod_pos_bound z 256 ltac:(lia)) as Hz.
  destruct (Stdlib.Strings.Byte.of_N (Z.to_N (z mod 256))) as [b|] eqn:E.
  - apply Stdlib.Strings.Byte.to_of_N in E. rewrite E. lia.
  - apply Stdlib.Strings.Byte.of_N_None_iff in E. lia.
Qed.

(** ** Lists *)

Lemma list_filter_iff_in {A} (P Q : A → Prop) `{∀ x, Decision (P x)} `{∀ x, Decision (Q x)}
    (l : list A) :
  (∀ x, x ∈ l → P x ↔ Q x) → filter P l = filter Q l.
Proof.
  induction l as [|x l IH]; intros Hl; [done|]. rewrite !filter_cons.
  pose proof (Hl x ltac:(left)). rewrite IH by (intros y Hy; apply Hl; by right).
  repeat case_decide; tauto.
Qed.

Lemma list_filter_all {A} (P : A → Prop) `{∀ x, Decision (P x)} (l : list A) :
  (∀ x, x ∈ l → P x) → filter P l = l.
Proof.
  induction l as [|x l IH]; intros Hl; [done|]. rewrite filter_cons_True by (apply Hl; left).
  f_equal. apply IH. intros y Hy. apply Hl. by right.
Qed.

Lemma list_filter_fmap {A B} (f : A → B) (P : B → Prop) `{∀ y, Decision (P y)} (l : list A) :
  filter P (f <$> l) = f <$> filter (λ x, P (f x)) l.
Proof.
  induction l as [|x l IH]; [done|]. rewrite fmap_cons, !filter_cons.
  case_decide; by rewrite ?fmap_cons, IH.
Qed.

(** ** Strings *)

Lemma append_cons c (s t : string) : String c s +:+ t = String c (s +:+ t).
Proof. done. Qed.

Lemma append_nil (t : string) : "" +:+ t = t.
Proof. done. Qed.

Lemma append_assoc (s t u : string) : s +:+ (t +:+ u) = (s +:+ t) +:+ u.
Proof. induction s as [|c s IH]; [done|]. by rewrite !append_cons, IH. Qed.

Lemma append_nil_r (s : string) : s +:+ "" = s.
Proof. induction s as [|c s IH]; [done|]. by rewrite append_cons, IH. Qed.

Lemma length_append (s t : string) :
  String.length (s +:+ t) = (String.length s + String.length t)%nat.
Proof. induction s as [|c s IH]; [done|]. rewrite append_cons. cbn [String.length]. by rewrite IH. Qed.

Lemma append_cancel_r (a b e : string) : a +:+ e = b +:+ e → a = b.
Proof.
  revert b. induction a as [|c a IH]; intros [|d b] H; [done|..].
  - exfalso. apply (f_equal String.length) in H. rewrite !length_append in H. cbn in H. lia.
  - exfalso. apply (f_equal String.length) in H. rewrite !length_append in H. cbn in H. lia.
  - rewrite !append_cons in H. injection H as -> H. by rewrite (IH _ H).
Qed.
