(* ===== verification/Doubles.v ===== *)
(** * IEEE 754 binary64 arithmetic, as the program's [double]

    The C++ [double] of the program is binary64 with rounding to nearest even:
    the executable specification [SpecFloat] of the Standard Library at
    precision 53 and exponent bound 1024. The lemmas here are the sign facts the
    load balancer relies on: quotients, sums and products of non-negative
    doubles are non-negative, and no non-negative quotient is a NaN. *)
From S2P Require Import Prelude.
From Stdlib Require Export SpecFloat.

Abbreviation double := spec_float.

Definition double_zero : double := S754_zero false.
Definition double_add (x y : double) : double := SFadd 53 1024 x y.
Definition double_sub (x y : double) : double := SFsub 53 1024 x y.
Definition double_mul (x y : double) : double := SFmul 53 1024 x y.
Definition double_div (x y : double) : double := SFdiv 53 1024 x y.
Definition double_ltb (x y : double) : bool := SFltb x y.
Definition double_leb (x y : double) : bool := SFleb x y.

(** [static_cast<double>] of an unsigned integer: nearest representable value. *)
Definition double_of_Z (z : Z) : double := binary_normalize 53 1024 z 0 false.

(** [static_cast<size_t>] of a double: truncation; undefined for NaN, infinities
    and values outside [0, 2^64). *)
Definition size_t_of_double (x : double) : outcome Z :=
  let ub := Crash (undefined_behaviour "double out of range of size_t") in
  match x with
  | S754_zero _ => Ret 0
  | S754_finite s m e =>
      let t := Z.shiftl (Zpos m) e in
      if s then (if t =? 0 then Ret 0 else ub)
      else if t <? 2 ^ 64 then Ret t else ub
  | _ => ub
  end.

Definition double_nonneg (x : double) : Prop :=
  match x with
  | S754_zero _ | S754_infinity false | S754_finite false _ _ => True
  | _ => False
  end.

Definition double_pos (x : double) : Prop :=
  match x with
  | S754_infinity false | S754_finite false _ _ => True
  | _ => False
  end.

#[export] Instance double_nonneg_dec x : Decision (double_nonneg x).
Proof. destruct x as [|[]| |[]]; cbn; apply _. Defined.

Section shift.
Lemma shr_1_nonneg mrs : 0 ≤ shr_m mrs → 0 ≤ shr_m (shr_1 mrs).
Proof. destruct mrs as [[|[]|[]] r s]; cbn; lia. Qed.

Lemma iter_pos_inv {A} (P : A → Prop) (f : A → A) n x :
  (∀ y, P y → P (f y)) → P x → P (iter_pos f n x).
Proof. intros Hf. revert x. induction n; cbn; auto. Qed.

Lemma shr_record_m m l : shr_m (shr_record_of_loc m l) = m.
Proof. by destruct l as [|[]]. Qed.

Lemma shr_fexp_nonneg p q m e l : 0 ≤ m → 0 ≤ shr_m (fst (shr_fexp p q m e l)).
Proof.
  intros Hm. unfold shr_fexp, shr. destruct (fexp p q (Zdigits2 m + e) - e); cbn.
  1, 3: by rewrite shr_record_m.
  apply (iter_pos_inv (λ r, 0 ≤ shr_m r)); [apply shr_1_nonneg|by rewrite shr_record_m].
Qed.
End shift.

Lemma round_nearest_even_nonneg m l : 0 ≤ m → 0 ≤ round_nearest_even m l.
Proof. destruct l as [|[]]; cbn; try case_match; lia. Qed.

Lemma binary_round_aux_nonneg p q m e l :
  0 ≤ m → double_nonneg (binary_round_aux p q false m e l).
Proof.
  intros Hm. unfold binary_round_aux.
  destruct (shr_fexp p q m e l) as [mrs' e'] eqn:E1.
  destruct (shr_fexp p q _ e' loc_Exact) as [mrs'' e''] eqn:E2.
  assert (0 ≤ shr_m mrs').
  { pose proof (shr_fexp_nonneg p q m e l Hm) as H. by rewrite E1 in H. }
  assert (0 ≤ shr_m mrs'').
  { pose proof (shr_fexp_nonneg p q
      (round_nearest_even (shr_m mrs') (loc_of_shr_record mrs')) e' loc_Exact) as H'.
    rewrite E2 in H'. apply H'. by apply round_nearest_even_nonneg. }
  destruct (shr_m mrs''); cbn; [done| |lia]. by case_match.
Qed.

Lemma binary_normalize_nonneg p q m e :
  0 ≤ m → double_nonneg (binary_normalize p q m e false).
Proof.
  intros Hm. destruct m as [|m|m]; [done| |lia]. cbn. unfold binary_round.
  destruct (shl_align _ _ _). by apply binary_round_aux_nonneg.
Qed.

Lemma double_of_Z_nonneg z : 0 ≤ z → double_nonneg (double_of_Z z).
Proof. apply binary_normalize_nonneg. Qed.

Lemma div_core_nonneg p q m1 e1 m2 e2 :
  0 ≤ m1 → 0 < m2 → 0 ≤ (SFdiv_core_binary p q m1 e1 m2 e2).1.1.
Proof.
  intros H1 H2. unfold SFdiv_core_binary.
  match goal with |- context [Z.div_eucl ?a m2] => set (m' := a) end.
  assert (0 ≤ m') as Hm'.
  { subst m'. case_match; [done|by apply Z.shiftl_nonneg|done]. }
  destruct (Z.div_eucl m' m2) as [a b] eqn:E. cbn.
  change (0 ≤ a). pose proof (Z.div_pos m' m2 Hm' H2) as H. unfold Z.div in H.
  by rewrite E in H.
Qed.

(** A non-negative double divided by a positive finite one is non-negative. *)
Lemma double_div_nonneg x m e :
  double_nonneg x → double_nonneg (double_div x (S754_finite false m e)).
Proof.
  destruct x as [s|[]| |[] mx ex]; cbn; try done.
  intros _. destruct (SFdiv_core_binary _ _ _ _ _ _) as [[mz ez] lz] eqn:E.
  apply binary_round_aux_nonneg.
  pose proof (div_core_nonneg 53 1024 (Zpos mx) ex (Zpos m) e) as H.
  rewrite E in H. cbn in H. lia.
Qed.

Lemma double_mul_nonneg m e x :
  double_nonneg x → double_nonneg (double_mul x (S754_finite false m e)).
Proof.
  destruct x as [s|[]| |[] mx ex]; cbn; try done.
  intros _. by apply binary_round_aux_nonneg.
Qed.

Lemma double_add_nonneg x y :
  double_nonneg x → double_nonneg y → double_nonneg (double_add x y).
Proof.
  destruct x as [[]|[]| |[] mx ex], y as [[]|[]| |[] my ey]; cbn; try done.
  intros _ _. apply (binary_normalize_nonneg 53 1024). lia.
Qed.

(** *** Integers far below the exponent bound stay finite and non-zero *)

Lemma digits2_pos_log2 p : Zpos (digits2_pos p) = Z.log2 (Zpos p) + 1.
Proof.
  induction p as [p IH|p IH|]; cbn [digits2_pos]; [| |done].
  - rewrite Pos2Z.inj_succ, IH, (Pos2Z.inj_xI p), Z.log2_succ_double by lia. lia.
  - rewrite Pos2Z.inj_succ, IH, (Pos2Z.inj_xO p), Z.log2_double by lia. lia.
Qed.

Lemma Zdigits2_bounds m : 0 < m → 2 ^ (Zdigits2 m - 1) ≤ m < 2 ^ Zdigits2 m ∧ 0 < Zdigits2 m.
Proof.
  intros Hm. destruct m as [|p|p]; try lia. cbn [Zdigits2].
  rewrite digits2_pos_log2. pose proof (Z.log2_nonneg (Zpos p)).
  replace (Z.log2 (Zpos p) + 1 - 1) with (Z.log2 (Zpos p)) by lia.
  pose proof (Z.log2_spec (Zpos p) ltac:(lia)) as Hl. rewrite <- Z.add_1_r in Hl. lia.
Qed.

Lemma shr_1_div2 r : 0 ≤ shr_m r → shr_m (shr_1 r) = shr_m r / 2.
Proof.
  destruct r as [[|[p|p|]|p] r s]; cbn; intros ?; try lia; try done.
  - apply (Z.div_unique_pos _ 2 (Zpos p) 1); lia.
  - apply (Z.div_unique_pos _ 2 (Zpos p) 0); lia.
Qed.

Lemma iter_shr_div n r : 0 ≤ shr_m r → shr_m (iter_pos shr_1 n r) = shr_m r / 2 ^ Zpos n.
Proof.
  revert r. induction n as [n IH|n IH|]; cbn [iter_pos]; intros r Hr.
  - assert (0 ≤ shr_m (shr_1 r)) by (by apply shr_1_nonneg).
    rewrite !IH, shr_1_div2; try done.
    2: { apply (iter_pos_inv (λ r, 0 ≤ shr_m r)); [apply shr_1_nonneg|done]. }
    rewrite !Z.div_div by lia. f_equal.
    replace (Zpos n~1) with (Zpos n + Zpos n + 1) by lia.
    rewrite !Z.pow_add_r by lia. ring.
  - rewrite !IH; try done.
    2: { apply (iter_pos_inv (λ r, 0 ≤ shr_m r)); [apply shr_1_nonneg|done]. }
    rewrite Z.div_div by lia. f_equal.
    replace (Zpos n~0) with (Zpos n + Zpos n) by lia.
    rewrite !Z.pow_add_r by lia. ring.
  - by apply shr_1_div2.
Qed.

(** One rounding shift of a positive mantissa: it stays positive, the exponent
    does not go below the old one, and the scaled magnitude does not grow. *)
Lemma shr_fexp_pos m e r e' :
  0 < m → -1074 ≤ e → shr_fexp 53 1024 m e loc_Exact = (r, e') →
  0 < shr_m r ∧ e ≤ e' ∧ Zdigits2 (shr_m r) + e' ≤ Zdigits2 m + e ∧ (e < e' → e' ≤ Zdigits2 m + e - 53).
Proof.
  intros Hm He H. unfold shr_fexp, fexp, emin in H.
  pose proof (Zdigits2_bounds m Hm) as [Hb Hd].
  destruct (Z.max _ _ - e) as [|n|n] eqn:En; cbn in H; simplify_eq; cbn; try lia.
  rewrite iter_shr_div by (cbn; lia). cbn [shr_m].
  assert (e < e + Zpos n) by lia.
  assert (Zpos n = Zdigits2 m - 53) as Hn by lia.
  assert (2 ^ 52 ≤ m / 2 ^ Zpos n).
  { apply Z.div_le_lower_bound; [lia|].
    rewrite <- Z.pow_add_r by lia. replace (Zpos n + 52) with (Zdigits2 m - 1) by lia. lia. }
  assert (m / 2 ^ Zpos n < 2 ^ 53).
  { apply Z.div_lt_upper_bound; [lia|].
    rewrite <- Z.pow_add_r by lia. replace (Zpos n + 53) with (Zdigits2 m) by lia. lia. }
  pose proof (Zdigits2_bounds (m / 2 ^ Zpos n) ltac:(lia)) as [Hb' Hd'].
  assert (Zdigits2 (m / 2 ^ Zpos n) ≤ 53).
  { destruct (decide (Zdigits2 (m / 2 ^ Zpos n) ≤ 53)); [done|].
    assert (2 ^ 53 ≤ 2 ^ (Zdigits2 (m / 2 ^ Zpos n) - 1)) by (apply Z.pow_le_mono_r; lia).
    lia. }
  split_and!; lia.
Qed.

Lemma Zdigits2_succ m : 0 < m → Zdigits2 (m + 1) ≤ Zdigits2 m + 1.
Proof.
  intros Hm. pose proof (Zdigits2_bounds m Hm) as [Hb Hd].
  pose proof (Zdigits2_bounds (m + 1) ltac:(lia)) as [Hb' Hd'].
  destruct (decide (Zdigits2 (m + 1) ≤ Zdigits2 m + 1)); [done|].
  assert (2 ^ (Zdigits2 m + 1) ≤ 2 ^ (Zdigits2 (m + 1) - 1)) by (apply Z.pow_le_mono_r; lia).
  rewrite Z.pow_add_r in H by lia. lia.
Qed.

Lemma binary_round_aux_finite m e :
  0 < m → -1074 ≤ e ≤ 960 → Zdigits2 m + e ≤ 1000 →
  ∃ m' e', binary_round_aux 53 1024 false m e loc_Exact = S754_finite false m' e'.
Proof.
  intros Hm He Hde. unfold binary_round_aux.
  destruct (shr_fexp 53 1024 m e loc_Exact) as [r e1] eqn:E1.
  destruct (shr_fexp_pos m e r e1 Hm ltac:(lia) E1) as (Hr & He1 & Hd1 & Hlt1).
  set (q := round_nearest_even (shr_m r) (loc_of_shr_record r)).
  assert (q = shr_m r ∨ q = shr_m r + 1) as Hq.
  { subst q. destruct (loc_of_shr_record r) as [|[]]; cbn; try case_match; lia. }
  pose proof (Zdigits2_succ _ Hr).
  assert (0 < q ∧ Zdigits2 q ≤ Zdigits2 (shr_m r) + 1) as [Hq0 Hqd]
    by (destruct Hq as [-> | ->]; lia).
  destruct (shr_fexp 53 1024 q e1 loc_Exact) as [r2 e2] eqn:E2.
  destruct (shr_fexp_pos q e1 r2 e2 Hq0 ltac:(lia) E2) as (Hr2 & He2 & Hd2 & Hlt2).
  pose proof (Zdigits2_bounds _ Hr2) as [_ ?].
  destruct (shr_m r2) as [|m2|m2] eqn:Em2; try lia.
  destruct (e2 <=? 1024 - 53) eqn:Ele; [by eauto|]. apply Z.leb_gt in Ele.
  destruct (decide (e1 < e2)), (decide (e < e1)); lia.
Qed.

Lemma double_of_Z_finite z :
  0 < z < 2 ^ 64 → ∃ m e, double_of_Z z = S754_finite false m e.
Proof.
  intros Hz. destruct z as [|p|p]; try lia.
  unfold double_of_Z. cbn [binary_normalize]. unfold binary_round.
  destruct (Zdigits2_bounds (Zpos p) ltac:(lia)) as [Hb Hd].
  assert (Zdigits2 (Zpos p) ≤ 64) as Hd64.
  { destruct (decide (Zdigits2 (Zpos p) ≤ 64)); [done|].
    assert (2 ^ 64 ≤ 2 ^ (Zdigits2 (Zpos p) - 1)) by (apply Z.pow_le_mono_r; lia). lia. }
  cbn [Zdigits2] in *.
  unfold shl_align, fexp, emin.
  destruct (Z.max _ _ - 0) as [|d|d] eqn:Ed.
  1, 2: apply binary_round_aux_finite; cbn [Zdigits2]; lia.
  apply binary_round_aux_finite; [lia|lia|].
  assert (Zpos (Pos.iter xO p d) = Zpos p * 2 ^ Zpos d) as Hs.
  { clear. induction d as [|d IH] using Pos.peano_ind; [change (Pos.iter xO p 1) with (xO p); lia|].
    rewrite Pos.iter_succ, Pos2Z.inj_xO, IH, Pos2Z.inj_succ, Z.pow_succ_r by lia. ring. }
  rewrite Hs.
  destruct (Zdigits2_bounds (Zpos p * 2 ^ Zpos d) ltac:(lia)) as [Hb' _].
  destruct (decide (Zdigits2 (Zpos p * 2 ^ Zpos d) ≤ Zpos (digits2_pos p) + Zpos d)); [lia|].
  assert (2 ^ (Zpos (digits2_pos p) + Zpos d) ≤ 2 ^ (Zdigits2 (Zpos p * 2 ^ Zpos d) - 1))
    as H by (apply Z.pow_le_mono_r; lia).
  rewrite Z.pow_add_r in H by lia.
  assert (Zpos p * 2 ^ Zpos d < 2 ^ Zpos (digits2_pos p) * 2 ^ Zpos d); [|lia].
  apply Z.mul_lt_mono_pos_r; lia.
Qed.

(** [0 <= x], in the order the code compares with. *)
Lemma double_leb_zero x : double_nonneg x → double_leb double_zero x = true.
Proof. by destruct x as [|[]| |[]]. Qed.

Lemma double_leb_refl x : double_nonneg x → double_leb x x = true.
Proof.
  destruct x as [[]|[]| |[]]; cbn; try done. intros _.
  unfold double_leb, SFleb, SFcompare. rewrite Z.compare_refl.
  change (Pos.compare_cont Eq m m) with (Pos.compare m m). by rewrite Pos.compare_refl.
Qed.
