(* ===== verification/NumberUtils.v ===== *)
(** * utils/include/number_utils.h

    [safe_divide] and [ceil_to_multiple], the two arithmetic helpers of the
    load balancer. *)
From S2P Require Import Prelude Doubles.

(** [safe_divide(a, b, fallback)]: both operands [uint64_t]. *)
Definition safe_divide (a b : Z) (fallback : double) : double :=
  if 0 <? b then double_div (double_of_Z a) (double_of_Z b) else fallback.

(** [ceil_to_multiple(input, multiple)]: both [uint64_t]; the remainder by zero
    is undefined behaviour, the sum wraps. *)
Definition ceil_to_multiple (input multiple : Z) : outcome Z :=
  if multiple =? 0 then Crash (undefined_behaviour "input % 0")
  else
    let rem := input mod multiple in
    if rem =? 0 then Ret input else Ret (w64 (input + w64 (multiple - rem))).

(** The least multiple of [m] that is at least [x]. *)
Definition least_multiple (x m : Z) : Z := m * ((x + m - 1) / m).

Lemma safe_divide_nonneg a b fb :
  0 ≤ a → 0 ≤ b < 2 ^ 64 → double_nonneg fb → double_nonneg (safe_divide a b fb).
Proof.
  intros Ha Hb Hfb. unfold safe_divide. destruct (0 <? b) eqn:E; [|done].
  apply Z.ltb_lt in E. destruct (double_of_Z_finite b) as (m & e & ->); [lia|].
  apply double_div_nonneg. by apply double_of_Z_nonneg.
Qed.

Lemma least_multiple_spec x m :
  0 < m → (m | least_multiple x m) ∧ x ≤ least_multiple x m < x + m.
Proof.
  intros Hm. unfold least_multiple. split; [apply Z.divide_factor_l|].
  pose proof (Z.div_mod (x + m - 1) m ltac:(lia)).
  pose proof (Z.mod_pos_bound (x + m - 1) m Hm). lia.
Qed.

Lemma multiple_unique x m y z :
  0 < m → (m | y) → (m | z) → x ≤ y < x + m → x ≤ z < x + m → y = z.
Proof. intros Hm [a ->] [b ->] Ha Hb. assert (a = b); [nia|congruence]. Qed.

Lemma ceil_to_multiple_w64 x m :
  0 ≤ x < 2 ^ 64 → 0 < m < 2 ^ 64 →
  ceil_to_multiple x m = Ret (w64 (least_multiple x m)).
Proof.
  intros Hx Hm. destruct (least_multiple_spec x m) as [Hdiv Hle]; [lia|].
  unfold ceil_to_multiple. destruct (m =? 0) eqn:E; [lia|].
  pose proof (Z.mod_pos_bound x m ltac:(lia)) as Hmod.
  pose proof (Z.div_mod x m ltac:(lia)) as Hdm.
  destruct (x mod m =? 0) eqn:Er.
  - apply Z.eqb_eq in Er. f_equal. rewrite <- (w64_small x) at 1 by done. f_equal.
    apply (multiple_unique x m); [lia|exists (x / m); lia|done|lia|done].
  - apply Z.eqb_neq in Er. do 2 f_equal. rewrite (w64_small (m - _)) by lia.
    apply (multiple_unique x m); [lia|exists (x / m + 1); lia|done|lia|done].
Qed.

(** ceil_to_multiple is the least multiple not below its input, modulo 2^64, for every 64-bit input and non-zero multiple. *)
Theorem ceil_to_multiple_wraps x m :
  0 ≤ x < 2 ^ 64 → 0 < m < 2 ^ 64 →
  ceil_to_multiple x m = Ret (w64 (least_multiple x m)).
Proof. apply ceil_to_multiple_w64. Qed.

(** Away from the top of the range the result is the least multiple. *)
Lemma ceil_to_multiple_least x m :
  0 ≤ x → 0 < m → x + m ≤ 2 ^ 64 →
  ceil_to_multiple x m = Ret (least_multiple x m).
Proof.
  intros Hx Hm Hb. destruct (least_multiple_spec x m) as [_ Hle]; [lia|].
  destruct (decide (m = 2 ^ 64)) as [->|].
  - assert (x = 0) as -> by lia. vm_compute. done.
  - rewrite ceil_to_multiple_w64 by lia. by rewrite w64_small by lia.
Qed.
