(* ===== verification/WorkerInfo.v ===== *)
(** * logic/worker_info_repository.{h,cpp}

    The controller's statistics store: which workers are connected, and what
    each known worker has processed, in total and per algorithm. Counters are
    [uint64_t] and wrap; time points are the clock's count of nanoseconds
    ([int64_t]); [duration_cast<milliseconds>] truncates towards zero. Every
    method holds [_mtx] for its whole body, so a method is one atomic step; the
    condition variable of [wait_until_worker_count] is modelled in the section
    [Monitor]. *)
From S2P Require Import Prelude.

Record work_stats := { workTime : Z; processedPopulation : Z }.

Record worker_info := {
  totalStats : work_stats;
  statsByAlgorithm : gmap string work_stats;
  lastWorkStartTime : Z
}.

Record worker_info_repository := {
  _connectedWorkers : gset string;
  _workerRecords : gmap string worker_info
}.

#[export] Instance work_stats_eq_dec : EqDecision work_stats.
Proof. solve_decision. Defined.
#[export] Instance worker_info_eq_dec : EqDecision worker_info.
Proof. solve_decision. Defined.
#[export] Instance worker_info_repository_eq_dec : EqDecision worker_info_repository.
Proof. solve_decision. Defined.

(** Default member initialisers: [work_stats{}], [worker_info{}] and the
    repository's default constructor. *)
Definition work_stats_init : work_stats := {| workTime := 0; processedPopulation := 0 |}.
Definition worker_info_init : worker_info :=
  {| totalStats := work_stats_init; statsByAlgorithm := ∅; lastWorkStartTime := 0 |}.
Definition repository_init : worker_info_repository :=
  {| _connectedWorkers := ∅; _workerRecords := ∅ |}.

Definition worker_joined (workerID : string) (info : worker_info) :
    M worker_info_repository unit :=
  modify (λ r, {|
    _workerRecords :=
      if decide (is_Some (r.(_workerRecords) !! workerID)) then r.(_workerRecords)
      else <[workerID := info]> r.(_workerRecords);
    _connectedWorkers := {[workerID]} ∪ r.(_connectedWorkers)
  |}).

Definition worker_left (workerID : string) : M worker_info_repository unit :=
  modify (λ r, {|
    _workerRecords := r.(_workerRecords);
    _connectedWorkers := r.(_connectedWorkers) ∖ {[workerID]}
  |}).

Definition set_record (workerID : string) (i : worker_info) (r : worker_info_repository) :=
  {| _connectedWorkers := r.(_connectedWorkers);
     _workerRecords := <[workerID := i]> r.(_workerRecords) |}.

(** [now] is what [high_resolution_clock::now()] returns in the body. *)
Definition worker_started_work (now : Z) (workerID : string) :
    M worker_info_repository unit := λ r,
  match r.(_workerRecords) !! workerID with
  | None => (Throw (runtime_error ("Cannot perform worker_started_work(), worker " +:+
               workerID +:+ " is not in _workerRecords.")), r)
  | Some i =>
      (Ret tt, set_record workerID
        {| totalStats := i.(totalStats); statsByAlgorithm := i.(statsByAlgorithm);
           lastWorkStartTime := now |} r)
  end.

(** [stats += (workTime, processedPopulation)]; the [int64_t] duration is
    converted to [uint64_t] by the compound assignment. *)
Definition add_stats (s : work_stats) (time pop : Z) : work_stats :=
  {| workTime := w64 (s.(workTime) + w64 time);
     processedPopulation := w64 (s.(processedPopulation) + pop) |}.

Definition duration_ms (startTime endTime : Z) : Z := Z.quot (endTime - startTime) 1000000.

(** [statsByAlgorithm[a]]: default-inserts. *)
Definition stats_at (m : gmap string work_stats) (a : string) : work_stats :=
  default work_stats_init (m !! a).

Definition worker_finished_work (now : Z) (workerID : string) (processed : Z)
    (algoName : string) : M worker_info_repository unit := λ r,
  match r.(_workerRecords) !! workerID with
  | None => (Throw (runtime_error ("Cannot perform worker_finished_work(), worker " +:+
               workerID +:+ " is not in _workerRecords.")), r)
  | Some wInfo =>
      let time := duration_ms wInfo.(lastWorkStartTime) now in
      (Ret tt, set_record workerID
        {| totalStats := add_stats wInfo.(totalStats) time processed;
           statsByAlgorithm :=
             <[algoName := add_stats (stats_at wInfo.(statsByAlgorithm) algoName) time processed]>
               wInfo.(statsByAlgorithm);
           lastWorkStartTime := wInfo.(lastWorkStartTime) |} r)
  end.

Definition get_worker_info (workerID : string) (r : worker_info_repository) : option worker_info :=
  r.(_workerRecords) !! workerID.

Definition get_connected_workers (r : worker_info_repository) : gset string :=
  r.(_connectedWorkers).

Definition get_worker_count (r : worker_info_repository) : nat := size r.(_connectedWorkers).

(** ** Boost serialization: the fields [serialize] archives

    [lastWorkStartTime] and [_connectedWorkers] are not archived. *)
Definition worker_info_archived (i : worker_info) : work_stats * gmap string work_stats :=
  (i.(totalStats), i.(statsByAlgorithm)).

Definition repository_archived (r : worker_info_repository) :
    gmap string (work_stats * gmap string work_stats) :=
  worker_info_archived <$> r.(_workerRecords).

Definition worker_info_restored (v : work_stats * gmap string work_stats) : worker_info :=
  {| totalStats := v.1; statsByAlgorithm := v.2; lastWorkStartTime := 0 |}.

Definition repository_restored (v : gmap string (work_stats * gmap string work_stats)) :
    worker_info_repository :=
  {| _connectedWorkers := ∅; _workerRecords := worker_info_restored <$> v |}.

(** ** Well-formedness *)

Definition stats_in_range (s : work_stats) : Prop :=
  0 ≤ s.(workTime) < 2 ^ 64 ∧ 0 ≤ s.(processedPopulation) < 2 ^ 64.

(** Sum of a counter over all algorithms. *)
Definition sum_by_algorithm (f : work_stats → Z) (m : gmap string work_stats) : Z :=
  map_fold (λ _ s acc, f s + acc) 0 m.

(** The totals of a record are the sums over its algorithms (modulo [2^64]),
    and every counter is a [uint64_t]. *)
Definition info_wf (i : worker_info) : Prop :=
  stats_in_range i.(totalStats) ∧
  map_Forall (λ _ s, stats_in_range s) i.(statsByAlgorithm) ∧
  i.(totalStats).(workTime) = w64 (sum_by_algorithm workTime i.(statsByAlgorithm)) ∧
  i.(totalStats).(processedPopulation) =
    w64 (sum_by_algorithm processedPopulation i.(statsByAlgorithm)).

Definition repository_wf (r : worker_info_repository) : Prop :=
  (∀ w, w ∈ r.(_connectedWorkers) → is_Some (r.(_workerRecords) !! w)) ∧
  map_Forall (λ _ i, info_wf i) r.(_workerRecords).

(** The operations of the repository as data, and the run of a sequence. *)
Inductive repo_op :=
  | Joined (w : string)
  | Left (w : string)
  | Started (now : Z) (w : string)
  | Finished (now : Z) (w : string) (pop : Z) (algo : string).

Definition repo_exec (o : repo_op) : M worker_info_repository unit :=
  match o with
  | Joined w => worker_joined w worker_info_init
  | Left w => worker_left w
  | Started now w => worker_started_work now w
  | Finished now w pop algo => worker_finished_work now w pop algo
  end.

(** Individuals worker [w] has reported in a sequence of operations. *)
Definition reported (w : string) (ops : list repo_op) : Z :=
  foldr (λ o acc, match o with
                  | Finished _ w' pop _ => if decide (w = w') then pop + acc else acc
                  | _ => acc
                  end) 0 ops.

(** ** Lemmas *)

Lemma add_stats_in_range s t p : stats_in_range (add_stats s t p).
Proof. split; apply w64_range. Qed.
#[export] Hint Resolve add_stats_in_range : dist.

Lemma stats_init_in_range : stats_in_range work_stats_init.
Proof. by split. Qed.
#[export] Hint Resolve stats_init_in_range : dist.

Lemma sum_by_algorithm_empty f : sum_by_algorithm f ∅ = 0.
Proof. done. Qed.

Lemma sum_by_algorithm_insert f m a s :
  f work_stats_init = 0 →
  sum_by_algorithm f (<[a := s]> m) = sum_by_algorithm f m + f s - f (stats_at m a).
Proof.
  intros H0. unfold sum_by_algorithm, stats_at.
  assert (Hfresh : ∀ (m' : gmap string work_stats) s', m' !! a = None →
    map_fold (λ _ s acc, f s + acc) 0 (<[a := s']> m') =
    f s' + map_fold (λ _ s acc, f s + acc) 0 m').
  { intros m' s' Ha. rewrite (map_fold_insert_L (λ _ s acc, f s + acc)); [done|intros; lia|done]. }
  destruct (m !! a) as [s0|] eqn:E; cbn.
  - rewrite <- (insert_delete_id m a s0 E) at 2.
    rewrite <- (insert_delete_eq m a s).
    rewrite !Hfresh by apply lookup_delete_eq. lia.
  - rewrite Hfresh by done. lia.
Qed.

Lemma worker_info_init_wf : info_wf worker_info_init.
Proof. split_and!; [done..|apply map_Forall_empty|done|done]. Qed.

Lemma finished_info_wf i a t p :
  info_wf i →
  info_wf {| totalStats := add_stats (totalStats i) t p;
             statsByAlgorithm := <[a := add_stats (stats_at (statsByAlgorithm i) a) t p]>
                                   (statsByAlgorithm i);
             lastWorkStartTime := lastWorkStartTime i |}.
Proof.
  intros (Ht & Ha & Hw & Hp).
  split_and!; cbn [totalStats statsByAlgorithm]; [auto with dist| | |].
  { by apply map_Forall_insert_2; [apply add_stats_in_range|]. }
  all: rewrite sum_by_algorithm_insert by done; unfold add_stats; cbn [workTime processedPopulation].
  all: rewrite ?Hw, ?Hp; autorewrite with w64_norm.
  all: match goal with |- w64 ?l = w64 (?b + w64 (?c + ?d) - ?c) =>
    replace (b + w64 (c + d) - c) with (w64 (c + d) + (b - c)) by lia end.
  all: autorewrite with w64_norm; f_equal; lia.
Qed.

Lemma lookup_set_record w i r w' :
  (set_record w i r).(_workerRecords) !! w' =
  if decide (w = w') then Some i else r.(_workerRecords) !! w'.
Proof. apply lookup_insert. Qed.

Lemma set_record_wf w i r :
  repository_wf r → info_wf i → repository_wf (set_record w i r).
Proof.
  intros [Hc Hi] Hwf. split; cbn.
  - intros w' Hw'. rewrite lookup_insert. case_decide; eauto.
  - by apply map_Forall_insert_2.
Qed.

Lemma joined_records w i r :
  ((worker_joined w i r).2).(_workerRecords) !! w = Some (default i (r.(_workerRecords) !! w)).
Proof.
  cbn. case_decide as H; [by destruct H as [? ->]|].
  rewrite lookup_insert_eq. by apply eq_None_not_Some in H as ->.
Qed.

Lemma joined_records_ne w i r w' :
  w ≠ w' → ((worker_joined w i r).2).(_workerRecords) !! w' = r.(_workerRecords) !! w'.
Proof. intros Hne. cbn. case_decide; [done|]. by rewrite lookup_insert_ne. Qed.

Lemma repo_exec_wf o r : repository_wf r → repository_wf (repo_exec o r).2.
Proof.
  intros Hwf. pose proof Hwf as [Hc Hi].
  destruct o as [w|w|now w|now w pop a]; cbn [repo_exec].
  - split.
    + intros w' Hw'. destruct (decide (w' = w)) as [Heq|Hne]; [by rewrite Heq, joined_records|].
      rewrite joined_records_ne by done. apply Hc. cbn in Hw'. set_solver.
    + intros w' i. destruct (decide (w' = w)) as [Heq|Hne].
      * rewrite Heq, joined_records. intros [= <-].
        destruct (_workerRecords r !! w) eqn:E; cbn; [by eapply Hi|apply worker_info_init_wf].
      * rewrite joined_records_ne by done. apply Hi.
  - split; cbn; [|done]. intros w' Hw'. apply Hc. set_solver.
  - unfold worker_started_work. destruct (_workerRecords r !! w) as [i|] eqn:E; [|done].
    apply set_record_wf; [done|]. apply (Hi w i E).
  - unfold worker_finished_work. destruct (_workerRecords r !! w) as [i|] eqn:E; [|done].
    apply set_record_wf; [done|]. apply finished_info_wf. by apply (Hi w i E).
Qed.

Definition repo_run (ops : list repo_op) (r : worker_info_repository) : worker_info_repository :=
  foldl (λ r o, (repo_exec o r).2) r ops.

Lemma repository_init_wf : repository_wf repository_init.
Proof. split; [set_solver|apply map_Forall_empty]. Qed.

Lemma repo_run_wf ops r : repository_wf r → repository_wf (repo_run ops r).
Proof. revert r. induction ops as [|o ops IH]; intros r Hr; [done|]. by apply IH, repo_exec_wf. Qed.

(** C16. In every reachable repository connected workers have records, counters
    are 64-bit, and each record's totals are the sums over its algorithms. *)
Theorem repository_wf_reachable (ops : list repo_op) :
  repository_wf (repo_run ops repository_init).
Proof. apply repo_run_wf, repository_init_wf. Qed.

Lemma repo_exec_total o r w i :
  r.(_workerRecords) !! w = Some i → repository_wf r →
  ∃ i', ((repo_exec o r).2).(_workerRecords) !! w = Some i' ∧
    i'.(totalStats).(processedPopulation) =
      w64 (i.(totalStats).(processedPopulation) + reported w [o]).
Proof.
  intros Hw [_ Hi].
  assert (Hsame : processedPopulation (totalStats i) = w64 (processedPopulation (totalStats i) + 0)).
  { destruct (Hi w i Hw) as ([_ ?] & _). rewrite Z.add_0_r. symmetry. by apply w64_small. }
  destruct o as [w'|w'|now w'|now w' pop a]; cbn [repo_exec reported foldr].
  - exists i. split; [|done]. destruct (decide (w' = w)) as [->|].
    + by rewrite joined_records, Hw.
    + by rewrite joined_records_ne.
  - by exists i.
  - unfold worker_started_work. destruct (_workerRecords r !! w') as [i'|] eqn:E; [|by exists i].
    cbn [snd]. rewrite lookup_set_record. case_decide; simplify_eq; by eexists.
  - unfold worker_finished_work. destruct (_workerRecords r !! w') as [i'|] eqn:E; cbn [snd].
    + rewrite lookup_set_record. destruct (decide (w' = w)) as [->|]; simplify_eq.
      * rewrite decide_True by done. eexists. split; [done|]. cbn. by rewrite Z.add_0_r.
      * rewrite decide_False by done. by exists i.
    + rewrite decide_False by congruence. by exists i.
Qed.

(** A worker's total is what it has ever reported, whatever joins, departures
    and restarts of work happen in between. *)
Theorem repository_total_is_reported (ops : list repo_op) r w i :
  r.(_workerRecords) !! w = Some i → repository_wf r →
  ∃ i', (repo_run ops r).(_workerRecords) !! w = Some i' ∧
    i'.(totalStats).(processedPopulation) =
      w64 (i.(totalStats).(processedPopulation) + reported w ops).
Proof.
  revert r i. induction ops as [|o ops IH]; intros r i Hw Hwf; cbn.
  - exists i. split; [done|]. destruct Hwf as [_ Hi]. destruct (Hi w i Hw) as ([_ ?] & _).
    rewrite Z.add_0_r. symmetry. by apply w64_small.
  - destruct (repo_exec_total o r w i Hw Hwf) as (i1 & Hw1 & Ht1).
    destruct (IH _ i1 Hw1 (repo_exec_wf o r Hwf)) as (i2 & Hw2 & Ht2).
    exists i2. split; [done|]. rewrite Ht2, Ht1. autorewrite with w64_norm. f_equal.
    unfold reported. destruct o; cbn [foldr]; try lia. case_decide; lia.
Qed.

(** ** Persistence *)

Lemma restored_archived_records r w :
  (repository_restored (repository_archived r)).(_workerRecords) !! w =
  (λ i, {| totalStats := totalStats i; statsByAlgorithm := statsByAlgorithm i;
           lastWorkStartTime := 0 |}) <$> r.(_workerRecords) !! w.
Proof.
  cbn. unfold repository_archived. rewrite !lookup_fmap. by destruct (_workerRecords r !! w).
Qed.

Lemma restored_archived_wf r :
  repository_wf r → repository_wf (repository_restored (repository_archived r)).
Proof.
  intros [_ Hi]. split; [cbn; set_solver|].
  intros w i. rewrite restored_archived_records, fmap_Some. intros (i0 & Hi0 & ->).
  apply (Hi w i0 Hi0).
Qed.

(** ** [wait_until_worker_count] as a monitor

    [_cv.wait(lock, pred)] evaluates [pred] under the lock; a thread whose
    predicate is false sleeps until a notification (or spuriously) and then
    evaluates it again. [worker_joined] and [worker_left] release the lock
    before they call [notify_all]: [notifying] counts the threads between
    those two points. *)
Section Monitor.
Record monitor := {
  repo : worker_info_repository;
  waiting : gmap nat (nat * bool); (* thread |-> (target, awake) *)
  notifying : nat
}.

Definition with_waiting (m : monitor) (ws : gmap nat (nat * bool)) : monitor :=
  {| repo := m.(repo); waiting := ws; notifying := m.(notifying) |}.

Inductive monitor_step (m : monitor) : monitor → Prop :=
  | step_call tid target :
      m.(waiting) !! tid = None →
      monitor_step m (with_waiting m (<[tid := (target, true)]> m.(waiting)))
  | step_return tid target :
      m.(waiting) !! tid = Some (target, true) →
      (target ≤ get_worker_count m.(repo))%nat →
      monitor_step m (with_waiting m (delete tid m.(waiting)))
  | step_block tid target :
      m.(waiting) !! tid = Some (target, true) →
      ¬ (target ≤ get_worker_count m.(repo))%nat →
      monitor_step m (with_waiting m (<[tid := (target, false)]> m.(waiting)))
  | step_spurious tid target :
      m.(waiting) !! tid = Some (target, false) →
      monitor_step m (with_waiting m (<[tid := (target, true)]> m.(waiting)))
  | step_join w info :
      monitor_step m {| repo := (worker_joined w info m.(repo)).2;
                        waiting := m.(waiting); notifying := S m.(notifying) |}
  | step_leave w :
      monitor_step m {| repo := (worker_left w m.(repo)).2;
                        waiting := m.(waiting); notifying := S m.(notifying) |}
  | step_work o :
      (match o with Started _ _ | Finished _ _ _ _ => True | _ => False end) →
      monitor_step m {| repo := (repo_exec o m.(repo)).2;
                        waiting := m.(waiting); notifying := m.(notifying) |}
  | step_notify n :
      m.(notifying) = S n →
      monitor_step m {| repo := m.(repo);
                        waiting := (λ t, (t.1, true)) <$> m.(waiting); notifying := n |}.

(** Whoever sleeps while nobody is about to notify has an unmet target. *)
Definition monitor_inv (m : monitor) : Prop :=
  ∀ tid target, m.(waiting) !! tid = Some (target, false) → m.(notifying) = 0%nat →
    (get_worker_count m.(repo) < target)%nat.

Lemma work_keeps_connected o r :
  (match o with Started _ _ | Finished _ _ _ _ => True | _ => False end) →
  ((repo_exec o r).2).(_connectedWorkers) = r.(_connectedWorkers).
Proof.
  destruct o; try done; intros _; cbn; unfold worker_started_work, worker_finished_work;
    by destruct (_workerRecords r !! _).
Qed.

Lemma monitor_step_inv m m' : monitor_inv m → monitor_step m m' → monitor_inv m'.
Proof.
  intros Hinv [ | | | | | |o Ho|n Hn]; intros tid' target' Hw Hnot; cbn in *;
    try discriminate.
  - rewrite lookup_insert in Hw. case_decide; simplify_eq. eauto.
  - rewrite lookup_delete_Some in Hw. destruct Hw. eauto.
  - rewrite lookup_insert in Hw. case_decide; simplify_eq; [lia|eauto].
  - rewrite lookup_insert in Hw. case_decide; simplify_eq. eauto.
  - unfold get_worker_count. rewrite work_keeps_connected by done. by eapply Hinv.
  - rewrite lookup_fmap in Hw. by destruct (waiting m !! tid') as [[]|]; simplify_eq.
Qed.

(** C17. No wake-up is lost: in every reachable state, a sleeping
    [wait_until_worker_count(target)] whose target is met is about to be
    notified. *)
Theorem no_lost_wakeup r m tid target :
  rtc monitor_step {| repo := r; waiting := ∅; notifying := 0 |} m →
  m.(waiting) !! tid = Some (target, false) →
  (target ≤ get_worker_count m.(repo))%nat →
  (0 < m.(notifying))%nat.
Proof.
  intros Hr Hw Hc.
  assert (Hinv : monitor_inv m).
  { eapply (rtc_ind_l (λ m, monitor_inv m → monitor_inv _)); [..|exact Hr|]; [done| |].
    - intros ? ? Hs _ IH Hi. apply IH. by eapply monitor_step_inv.
    - by intros tid' t' Hw'. }
  destruct (decide (m.(notifying) = 0%nat)) as [Hz|]; [|lia].
  pose proof (Hinv tid target Hw Hz). lia.
Qed.
End Monitor.

(** ** Witnesses *)

Definition sample_ops : list repo_op :=
  [Started 1000000 "w"; Finished 6000000 "w" 50 "DE"; Left "w"; Joined "w";
   Finished 9000000 "w" 25 "PSO"]%string.

Lemma repository_total_is_reported_witness :
  ∃ i, (repo_run sample_ops (repo_run [Joined "w"%string] repository_init)).(_workerRecords)
         !! "w"%string = Some i ∧
       i.(totalStats).(processedPopulation) = 75.
Proof.
  destruct (repository_total_is_reported sample_ops
    (repo_run [Joined "w"%string] repository_init) "w" worker_info_init)
    as (i & Hi & Ht); [by vm_compute|apply repo_run_wf, repository_init_wf|].
  exists i. split; [exact Hi|]. rewrite Ht. by vm_compute.
Defined.

Lemma no_lost_wakeup_witness :
  (0 < 1)%nat ∧
  (0 < notifying {| repo := (worker_joined "w" worker_info_init repository_init).2;
                    waiting := {[7%nat := (1%nat, false)]}; notifying := 1 |})%nat.
Proof.
  split; [lia|].
  apply (no_lost_wakeup repository_init _ 7 1); [|by vm_compute|by vm_compute; lia].
  eapply rtc_l; [eapply (step_call _ 7 1); by vm_compute|].
  eapply rtc_l; [eapply (step_block _ 7 1); [by vm_compute|by vm_compute; lia]|].
  eapply rtc_l; [eapply (step_join _ "w" worker_info_init)|].
  match goal with |- rtc _ ?a ?b => assert (a = b) as -> end; [|constructor].
  unfold with_waiting; cbn. f_equal.
Defined.
