(* ===== verification/Messages.v ===== *)
(** * messages/include/MsgType.h, sockets/include/vector_(de)serialize.h,
      utils/include/vector_(i)streambuf.h

    The message types and payload objects of the controller-worker protocol,
    and their translation to bytes. The Boost text archive itself is
    third-party code: it appears as the class [Archive], an encoder that issues
    writes on a stream buffer and a decoder that may fail; [ArchiveLaws] states
    what its documentation promises (an archive starts with a header, and
    reading it back gives the object that was written). *)
From S2P Require Import Prelude.

(** [static_cast<MsgType>(int)] keeps any [int]: a code outside the enumerators
    is a value without a name. *)
Inductive MsgType :=
  | WORKER_JOIN
  | WORKER_LEAVE
  | ALLOCATE_WORK
  | WORK_RESULTS
  | GET_DLL
  | DLL_BINARY
  | UNNAMED (code : Z).

#[export] Instance MsgType_eq_dec : EqDecision MsgType.
Proof. solve_decision. Defined.

Definition MsgType_to_int (t : MsgType) : Z :=
  match t with
  | WORKER_JOIN => 0
  | WORKER_LEAVE => 1
  | ALLOCATE_WORK => 2
  | WORK_RESULTS => 3
  | GET_DLL => 4
  | DLL_BINARY => 5
  | UNNAMED code => code
  end.

Definition MsgType_of_int (z : Z) : MsgType :=
  match z with
  | 0 => WORKER_JOIN
  | 1 => WORKER_LEAVE
  | 2 => ALLOCATE_WORK
  | 3 => WORK_RESULTS
  | 4 => GET_DLL
  | 5 => DLL_BINARY
  | _ => UNNAMED z
  end.

(** An enumerator, or a code that really has no enumerator. *)
Definition MsgType_valid (t : MsgType) : Prop :=
  match t with
  | UNNAMED c => c < 0 ∨ 5 < c
  | _ => True
  end.

Lemma MsgType_of_to_int t : MsgType_valid t → MsgType_of_int (MsgType_to_int t) = t.
Proof.
  destruct t as [| | | | | |c]; try done. cbn. intros Hc.
  destruct c as [|p|p]; try lia; [|done].
  destruct p as [[p|p|]|[p|p|]|]; try lia; try done; destruct p; try lia; done.
Qed.

Lemma MsgType_to_of_int z : MsgType_to_int (MsgType_of_int z) = z.
Proof.
  destruct z as [|p|p]; try done.
  destruct p as [[p|p|]|[p|p|]|]; try done; by destruct p.
Qed.

Lemma MsgType_of_int_valid z : MsgType_valid (MsgType_of_int z).
Proof.
  destruct z as [|p|p]; cbn; try lia.
  destruct p as [[p|p|]|[p|p|]|]; cbn; try lia; try done; destruct p; cbn; lia.
Qed.

(** ** Payload objects *)

(** [work_container]: [pagmo::algorithm] and [pagmo::population] are the types of
    the Pagmo library. *)
Record work_container {algorithm population : Type} := mk_work_container {
  algo : algorithm;
  pop : population;
  preferredWorkerId : string;
  cycleCount : Z
}.
Arguments work_container : clear implicits.
Arguments mk_work_container {_ _} _ _ _ _.

(** The constructor's default arguments: [preferredWorker = ""], [cycleCount = 1]. *)
Definition work_container_of {A P} (a : A) (p : P) : work_container A P :=
  mk_work_container a p "" 1.

Record get_dll_request := mk_get_dll_request { request_dll_name : string }.

Record dll_binary_container := mk_dll_binary_container {
  dll_name : string;
  dll_file : option bytes
}.

(** ** Stream buffers *)

(** What the archive does to its [std::ostream]: one character through
    [overflow] ([None] is [EOF]), or a block through [xsputn]. *)
Inductive stream_write :=
  | Overflow (ch : option byte)
  | Xsputn (s : bytes).

(** [vector_streambuf]: the state is the referenced vector [vec_]. *)
Definition vector_streambuf_write (vec_ : bytes) (w : stream_write) : bytes :=
  match w with
  | Overflow (Some ch) => vec_ ++ [ch]
  | Overflow None => vec_
  | Xsputn s => vec_ ++ s
  end.

Definition written_bytes (w : stream_write) : bytes :=
  match w with
  | Overflow (Some ch) => [ch]
  | Overflow None => []
  | Xsputn s => s
  end.

(** [vector_istreambuf]: the get area is the whole vector; reading [n] bytes
    past its end yields what is left ([underflow] is not overridden). *)
Record vector_istreambuf := { eback : bytes; gpos : nat }.

Definition vector_istreambuf_of (vec : bytes) : vector_istreambuf :=
  {| eback := vec; gpos := 0 |}.

Definition xsgetn (n : nat) (b : vector_istreambuf) : bytes * vector_istreambuf :=
  let got := take n (drop b.(gpos) b.(eback)) in
  (got, {| eback := b.(eback); gpos := (b.(gpos) + length got)%nat |}).

(** What is left to read. *)
Definition istream_contents (b : vector_istreambuf) : bytes := drop b.(gpos) b.(eback).

(** ** The archive (third-party) *)

Class Archive (A : Type) := {
  archive_writes : A → list stream_write;
  archive_read : bytes → option A
}.

Definition archive_text {A} `{Archive A} (a : A) : bytes :=
  concat (written_bytes <$> archive_writes a).

Class ArchiveLaws (A : Type) `{Archive A} := {
  archive_header : ∀ a : A, archive_text a ≠ [];
  archive_roundtrip : ∀ a : A, archive_read (archive_text a) = Some a
}.

(** ** [vector_serialize] and [vector_deserialize] *)

Definition vector_serialize {A} `{Archive A} (payload : A) : bytes :=
  foldl vector_streambuf_write [] (archive_writes payload).

Definition vector_deserialize {A} `{Archive A} (binary : bytes) : outcome A :=
  match binary with
  | [] => Throw (runtime_error "Error: Attempted to deserialize an empty buffer")
  | _ =>
      match archive_read (istream_contents (vector_istreambuf_of binary)) with
      | Some obj => Ret obj
      | None => Throw (archive_exception "input stream error")
      end
  end.

Lemma vector_streambuf_appends ws vec :
  foldl vector_streambuf_write vec ws = vec ++ concat (written_bytes <$> ws).
Proof.
  revert vec. induction ws as [|w ws IH]; intros vec; cbn; [by rewrite app_nil_r|].
  rewrite IH. destruct w as [[ch|]|s]; cbn; by rewrite <- ?app_assoc.
Qed.

Lemma vector_serialize_text {A} `{Archive A} (a : A) : vector_serialize a = archive_text a.
Proof. apply vector_streambuf_appends. Qed.

Lemma deserialize_serialize {A} `{ArchiveLaws A} (a : A) :
  vector_deserialize (vector_serialize a) = Ret a.
Proof.
  rewrite vector_serialize_text. unfold vector_deserialize.
  pose proof (archive_header a). destruct (archive_text a) as [|b t] eqn:E; [done|].
  change (istream_contents (vector_istreambuf_of (b :: t))) with (b :: t).
  by rewrite <- E, archive_roundtrip.
Qed.

Lemma deserialize_empty {A} `{Archive A} :
  vector_deserialize (A := A) [] =
  Throw (runtime_error "Error: Attempted to deserialize an empty buffer").
Proof. done. Qed.

(** Reading an input buffer in pieces yields its contents in order. *)
Lemma xsgetn_contents n b :
  (xsgetn n b).1 ++ istream_contents (xsgetn n b).2 = istream_contents b.
Proof.
  unfold xsgetn, istream_contents; cbn [fst snd eback gpos].
  rewrite <- drop_drop. set (l := drop (gpos b) (eback b)).
  rewrite length_take. destruct (decide (n ≤ length l)%nat).
  - rewrite Nat.min_l by lia. apply take_drop.
  - rewrite Nat.min_r, take_ge, drop_ge by lia. apply app_nil_r.
Qed.
