(* ===== verification/Sockets.v ===== *)
(** * sockets/: router, dealer and pair sockets over ZeroMQ frames

    A socket's incoming stream is the list of frames ZeroMQ will hand to
    [recv], in order ([_socket.recv] takes the next frame, whatever message it
    belongs to, and blocks when there is none). The routing that ZeroMQ
    documents is written out where it matters: a ROUTER prepends the sender's
    routing id to what it receives and consumes the first frame of what it
    sends; hello and disconnect messages are single frames. *)
From S2P Require Import Prelude Messages.

Abbreviation frame := bytes.

(** What one call of [receive] does with the frames available. *)
Inductive received (A : Type) :=
  | Received (a : A) (rest : list frame)
  | Blocked
  | BadFrame (f : fault).
Arguments Received {A} a rest.
Arguments Blocked {A}.
Arguments BadFrame {A} f.

(** ** [int] in host byte order (little endian, 32 bits) *)

Definition int_bytes (z : Z) : frame :=
  [byte_of_Z z; byte_of_Z (z / 2 ^ 8); byte_of_Z (z / 2 ^ 16); byte_of_Z (z / 2 ^ 24)].

(** [std::memcpy(&type, typeMsg.data(), sizeof(type))]: reads four bytes, past the
    end of a shorter frame. *)
Definition memcpy_int (f : frame) : option Z :=
  match f with
  | b0 :: b1 :: b2 :: b3 :: _ =>
      let u := byte_val b0 + 2 ^ 8 * byte_val b1 + 2 ^ 16 * byte_val b2 + 2 ^ 24 * byte_val b3 in
      Some (if u <? 2 ^ 31 then u else u - 2 ^ 32)
  | _ => None
  end.

Definition int_range (z : Z) : Prop := - 2 ^ 31 ≤ z < 2 ^ 31.

Definition memcpy_fault : fault := undefined_behaviour "memcpy past the end of a frame".

(** ** Client sockets: dealer and pair *)

Definition dealer_socket_send (type : MsgType) (serialized : bytes) : list frame :=
  [int_bytes (MsgType_to_int type); serialized].

Definition pair_socket_send (type : MsgType) (serialized : bytes) : list frame :=
  [int_bytes (MsgType_to_int type); serialized].

Definition dealer_socket_receive (q : list frame) : received (MsgType * bytes) :=
  match q with
  | typeMsg :: payloadMsg :: rest =>
      match memcpy_int typeMsg with
      | Some type => Received (MsgType_of_int type, payloadMsg) rest
      | None => BadFrame memcpy_fault
      end
  | _ => Blocked
  end.

Definition pair_socket_receive (q : list frame) : received (MsgType * bytes) :=
  match q with
  | typeMsg :: payloadMsg :: rest =>
      match memcpy_int typeMsg with
      | Some type => Received (MsgType_of_int type, payloadMsg) rest
      | None => BadFrame memcpy_fault
      end
  | _ => Blocked
  end.

(** [client_socket::send(type)] and [send<Serializable>(type, payload)]. *)
Definition client_socket_send (type : MsgType) : list frame := dealer_socket_send type [].
Definition client_socket_send_object {A} `{Archive A} (type : MsgType) (payload : A) : list frame :=
  dealer_socket_send type (vector_serialize payload).

(** ** Server socket: router *)

Definition identity_frame (id : string) : frame := String.list_byte_of_string id.
Definition identity_to_string (f : frame) : string := String.string_of_list_byte f.

Definition router_socket_send (receiverId : string) (type : MsgType) (serialized : bytes) :
    list frame :=
  [identity_frame receiverId; int_bytes (MsgType_to_int type); serialized].

Definition router_socket_receive (q : list frame) : received (string * MsgType * bytes) :=
  match q with
  | identity :: typeMsg :: rest =>
      match memcpy_int typeMsg with
      | None => BadFrame memcpy_fault
      | Some type =>
          let msgType := MsgType_of_int type in
          if decide (msgType ≠ WORKER_JOIN ∧ msgType ≠ WORKER_LEAVE) then
            match rest with
            | payloadMsg :: rest => Received (identity_to_string identity, msgType, payloadMsg) rest
            | [] => Blocked
            end
          else Received (identity_to_string identity, msgType, []) rest
      end
  | _ => Blocked
  end.

(** ** ZeroMQ's part *)

(** What a ROUTER receives when the peer with routing id [id] sends a message. *)
Definition zmq_router_incoming (id : string) (message : list frame) : list frame :=
  identity_frame id :: message.

(** What the peer receives when a ROUTER sends: the first frame selects the peer. *)
Definition zmq_router_outgoing (message : list frame) : option (frame * list frame) :=
  match message with
  | identity :: parts => Some (identity, parts)
  | [] => None
  end.

(** [hello_msg] of a worker and [disconnect_msg] of the controller: one frame. *)
Definition hello_message : list frame := [int_bytes (MsgType_to_int WORKER_JOIN)].
Definition disconnect_message : list frame := [int_bytes (MsgType_to_int WORKER_LEAVE)].

(** What arrives at the controller's workers socket: events of the peers. *)
Inductive peer_event :=
  | Connected (id : string)
  | Disconnected (id : string)
  | Sent (id : string) (type : MsgType) (payload : bytes).

Definition peer_event_frames (e : peer_event) : list frame :=
  match e with
  | Connected id => zmq_router_incoming id hello_message
  | Disconnected id => zmq_router_incoming id disconnect_message
  | Sent id type payload => zmq_router_incoming id (dealer_socket_send type payload)
  end.

Definition peer_event_message (e : peer_event) : string * MsgType * bytes :=
  match e with
  | Connected id => (id, WORKER_JOIN, [])
  | Disconnected id => (id, WORKER_LEAVE, [])
  | Sent id type payload => (id, type, payload)
  end.

(** The messages a peer sends through [dealer_socket::send] are not the two
    single-frame types, and their code fits an [int]. *)
Definition peer_event_ok (e : peer_event) : Prop :=
  match e with
  | Sent _ type _ => type ≠ WORKER_JOIN ∧ type ≠ WORKER_LEAVE ∧ MsgType_valid type ∧
                     int_range (MsgType_to_int type)
  | _ => True
  end.

(** The loop of receives over a stream of frames, [n] calls. *)
Fixpoint router_receive_n (n : nat) (q : list frame) :
    list (string * MsgType * bytes) * list frame :=
  match n with
  | O => ([], q)
  | S n =>
      match router_socket_receive q with
      | Received m rest => let '(ms, q') := router_receive_n n rest in (m :: ms, q')
      | _ => ([], q)
      end
  end.

(** ** Lemmas *)

Lemma bytes4_mod z :
  z mod 256 + 2 ^ 8 * (z / 2 ^ 8 mod 256) + 2 ^ 16 * (z / 2 ^ 16 mod 256) +
  2 ^ 24 * (z / 2 ^ 24 mod 256) = z mod 2 ^ 32.
Proof.
  change (2 ^ 8) with 256. change (2 ^ 16) with 65536. change (2 ^ 24) with 16777216.
  change (2 ^ 32) with 4294967296. Z.div_mod_to_equations. lia.
Qed.

Lemma memcpy_int_bytes z : int_range z → memcpy_int (int_bytes z) = Some z.
Proof.
  unfold int_range. intros Hz. unfold memcpy_int, int_bytes.
  rewrite !byte_val_of_Z, bytes4_mod. f_equal.
  pose proof (Z.mod_pos_bound z (2 ^ 32) ltac:(lia)).
  destruct (decide (0 ≤ z)).
  - rewrite Z.mod_small by lia. destruct (z <? 2 ^ 31) eqn:E; lia.
  - assert (z mod 2 ^ 32 = z + 2 ^ 32) as ->.
    { symmetry. apply (Z.mod_unique_pos z (2 ^ 32) (-1)); lia. }
    destruct (z + 2 ^ 32 <? 2 ^ 31) eqn:E; lia.
Qed.

Lemma named_in_range t : (∀ c, t ≠ UNNAMED c) → int_range (MsgType_to_int t).
Proof. destruct t; intros Ht; try (unfold int_range; cbn; lia). by destruct (Ht code). Qed.

Lemma identity_roundtrip id : identity_to_string (identity_frame id) = id.
Proof. apply String.string_of_list_byte_of_string. Qed.

Lemma router_receive_event e rest :
  peer_event_ok e →
  router_socket_receive (peer_event_frames e ++ rest) = Received (peer_event_message e) rest.
Proof.
  destruct e as [id|id|id t p]; cbn [peer_event_frames peer_event_ok app]; intros Hok.
  1, 2: unfold router_socket_receive, zmq_router_incoming, hello_message, disconnect_message;
    cbn [app]; rewrite memcpy_int_bytes by (unfold int_range; cbn; lia);
    rewrite MsgType_of_to_int by done; rewrite decide_False by naive_solver;
    cbn; by rewrite identity_roundtrip.
  destruct Hok as (Hj & Hl & Hv & Hr).
  unfold router_socket_receive, zmq_router_incoming, dealer_socket_send. cbn [app].
  rewrite memcpy_int_bytes, MsgType_of_to_int by done.
  rewrite decide_True by done. cbn. by rewrite identity_roundtrip.
Qed.

(** C26. Frames never desynchronise: whatever sequence of joins, departures and
    messages the peers produce, the receive loop returns exactly that sequence,
    though the two kinds of messages have a different number of frames. *)
Theorem router_stream_roundtrip es :
  Forall peer_event_ok es →
  router_receive_n (length es) (concat (peer_event_frames <$> es)) =
  (peer_event_message <$> es, []).
Proof.
  induction 1 as [|e es He Hes IH]; [done|].
  cbn [length router_receive_n fmap list_fmap concat].
  rewrite router_receive_event by done. cbn. by rewrite IH.
Qed.

(** The controller's replies reach the addressed peer as they were sent. *)
Theorem router_to_dealer_roundtrip receiverId type payload rest :
  MsgType_valid type → int_range (MsgType_to_int type) →
  ∃ parts, zmq_router_outgoing (router_socket_send receiverId type payload) =
             Some (identity_frame receiverId, parts) ∧
           dealer_socket_receive (parts ++ rest) = Received (type, payload) rest.
Proof.
  intros Hv Hr. eexists. split; [done|]. cbn [app]. unfold dealer_socket_receive.
  by rewrite memcpy_int_bytes, MsgType_of_to_int.
Qed.

Theorem pair_roundtrip type payload rest :
  MsgType_valid type → int_range (MsgType_to_int type) →
  pair_socket_receive (pair_socket_send type payload ++ rest) = Received (type, payload) rest.
Proof.
  intros Hv Hr. unfold pair_socket_receive, pair_socket_send. cbn [app].
  by rewrite memcpy_int_bytes, MsgType_of_to_int.
Qed.
