(* ===== verification/Settings.v ===== *)
(** * logic/include/settings.h, worker_settings, controller_settings

    [settings<SettingsStruct>] keeps a structure in memory and its XML archive
    in a file. The file at [_settingsPath] is the component's only external
    state: [disk] says what it contains and whether it can be opened. What the
    structure's [serialize] function archives is the class [Serialized]; the
    XML archive of that view is third-party ([Archive]). *)
From S2P Require Import Prelude WorkerInfo Messages.

Record disk := { file : option bytes; readable : bool; writable : bool }.

(** [Initializable SettingsStruct] with its [serialize] function: [archived]
    lists the fields it visits, [restored] is a default-constructed object with
    these fields loaded. *)
Class Serialized (S V : Type) := {
  struct_init : S; (* SettingsStruct _settings{} *)
  initialize : S → S;
  archived : S → V;
  restored : V → S
}.

Record settings (S : Type) := { _settings : S; _autoSave : bool }.
Arguments _settings {S} _.
Arguments _autoSave {S} _.
Arguments Build_settings {S} _ _.

Section Settings.
Context {S V : Type} `{AV : Archive V} {SS : Serialized S V}.

Definition settings_text (s : S) : bytes := archive_text (archived s).

(** [_save_to_file]: the stream's failure state after opening is turned into
    an exception by [file.exceptions]. *)
Definition _save_to_file : M (settings S * disk) unit := λ '(s, d),
  if d.(writable) then
    (Ret tt, (s, {| file := Some (settings_text s.(_settings));
                    readable := d.(readable); writable := d.(writable) |}))
  else (Throw (ios_failure "basic_ios::clear"), (s, d)).

Definition save : M (settings S * disk) unit := _save_to_file.

(** [operator()] followed by the use of the reference it returns: [m] is what
    the caller does to the structure. *)
Definition settings_call {A} (m : M S A) : M (settings S * disk) A :=
  sd ← get_state;
  _ ← (if sd.1.(_autoSave) then _save_to_file else mret tt);
  zoom (λ sd : settings S * disk, sd.1.(_settings))
       (λ s sd, (Build_settings s sd.1.(_autoSave), sd.2)) m.

(** The constructor: [_initialize_settings]. *)
Definition settings_construct (autoSave : bool) : M disk (settings S) := λ d,
  match d.(file) with
  | Some text =>
      if d.(readable) then
        match archive_read text with
        | Some v => (Ret (Build_settings (restored v) autoSave), d)
        | None => (Throw (archive_exception "input stream error"), d)
        end
      else (Throw (runtime_error "Failed to open settings file: "), d)
  | None => (Ret (Build_settings (initialize struct_init) autoSave), d)
  end.

Context {HL : ArchiveLaws V}.

(** Saving, then constructing from the same file (a restart), restores the
    archived view of the structure. *)
Lemma save_construct s d s' d' b :
  save (s, d) = (Ret tt, (s', d')) → d'.(readable) = true →
  settings_construct b d' = (Ret (Build_settings (restored (archived s.(_settings))) b), d').
Proof.
  unfold save, _save_to_file. destruct (writable d) eqn:Hw; intros ? Hr; simplify_eq.
  unfold settings_construct; cbn in *. rewrite Hr. unfold settings_text.
  by rewrite archive_roundtrip.
Qed.

Lemma settings_call_run {A} (m : M S A) s d o s' d' :
  s.(_autoSave) = true → d.(writable) = true →
  settings_call m (s, d) = (o, (s', d')) →
  (o, s'.(_settings)) = m s.(_settings) ∧
  d'.(file) = Some (settings_text s.(_settings)) ∧
  s'.(_autoSave) = true ∧ d'.(writable) = true ∧ d'.(readable) = d.(readable).
Proof.
  intros Ha Hw. unfold settings_call. run_simpl. rewrite Ha. unfold _save_to_file.
  rewrite Hw. run_simpl. unfold zoom. cbn [fst snd _settings].
  destruct (m (_settings s)) as [o' t] eqn:E. intros Heq. simplify_eq. by rewrite Ha.
Qed.

(** With [_autoSave], the file holds the structure as it was before the
    caller's change: each call saves the previous version. *)
Theorem settings_call_saves_previous {A} (m : M S A) s d o s' d' :
  s.(_autoSave) = true → d.(writable) = true →
  settings_call m (s, d) = (o, (s', d')) →
  (o, s'.(_settings)) = m s.(_settings) ∧
  d'.(file) = Some (settings_text s.(_settings)) ∧
  s'.(_autoSave) = true ∧ d'.(writable) = true ∧ d'.(readable) = d.(readable).
Proof. apply settings_call_run. Qed.

(** A settings file that cannot be written makes every access throw, before
    the caller's change. *)
Lemma settings_call_unwritable {A} (m : M S A) s d :
  s.(_autoSave) = true → d.(writable) = false →
  settings_call m (s, d) = (Throw (ios_failure "basic_ios::clear"), (s, d)).
Proof.
  intros Ha Hw. unfold settings_call. run_simpl. rewrite Ha. unfold _save_to_file.
  by rewrite Hw.
Qed.
End Settings.

(** ** [worker_settings] *)

Record worker_settings := { workerId : string }.

(** [uuid] is the text of the freshly generated UUID. *)
#[export] Instance worker_settings_serialized (uuid : string) : Serialized worker_settings string := {|
  struct_init := {| workerId := "" |};
  initialize := λ _, {| workerId := "worker_" +:+ uuid |};
  archived := workerId;
  restored := λ v, {| workerId := v |}
|}.

(** ** [controller_settings] *)

Record controller_settings := { workerInfo : worker_info_repository }.

#[export] Instance controller_settings_serialized :
    Serialized controller_settings (gmap string (work_stats * gmap string work_stats)) := {|
  struct_init := {| workerInfo := repository_init |};
  initialize := λ s, s;
  archived := λ s, repository_archived s.(workerInfo);
  restored := λ v, {| workerInfo := repository_restored v |}
|}.

(** [_settings().workerInfo]: the reference that the controller hands out. *)
Definition settings_repository `{Archive (gmap string (work_stats * gmap string work_stats))} :
    M (settings controller_settings * disk) worker_info_repository :=
  settings_call (λ s : controller_settings, (Ret s.(workerInfo), s)).

Lemma settings_repository_run `{Archive (gmap string (work_stats * gmap string work_stats))} s d :
  (settings_repository (s, d)).1 =
    if s.(_autoSave) && negb d.(writable) then Throw (ios_failure "basic_ios::clear")
    else Ret s.(_settings).(workerInfo).
Proof.
  unfold settings_repository, settings_call. run_simpl. destruct (_autoSave s); [|done].
  unfold _save_to_file. by destruct (writable d).
Qed.

(** ** A worker keeps its identity across restarts *)

Section WorkerIdentity.
Context `{AV : Archive string} {HL : ArchiveLaws string}.

(** The worker constructor's use of its settings:
    [_settings(path)] then [_workerId = _settings().workerId]. *)
Definition worker_identity (uuid : string) : M disk string := λ d,
  match settings_construct (SS := worker_settings_serialized uuid) true d with
  | (Ret s, d) =>
      let '(o, (_, d)) :=
        settings_call (SS := worker_settings_serialized uuid)
          (λ w : worker_settings, (Ret w.(workerId), w)) (s, d) in
      (o, d)
  | (Throw e, d) => (Throw e, d)
  | (Crash f, d) => (Crash f, d)
  end.

Lemma worker_identity_run uuid d :
  d.(readable) = true → d.(writable) = true →
  (∀ t, d.(file) = Some t → is_Some (archive_read (A := string) t)) →
  ∃ id, worker_identity uuid d =
    (Ret id, {| file := Some (archive_text id); readable := true; writable := true |}) ∧
    id = match d.(file) ≫= archive_read (A := string) with
         | Some v => v
         | None => "worker_" +:+ uuid
         end.
Proof.
  intros Hr Hw Hf. unfold worker_identity, settings_construct, settings_call.
  destruct d as [[t|] r w]; cbn in *; subst; cbn.
  - destruct (Hf t eq_refl) as [v Hv]. rewrite Hv. by eexists.
  - by eexists.
Qed.

(** The identifier chosen at the first start is the one of every later start,
    whatever UUIDs are drawn then. *)
Theorem worker_identity_stable uuid1 uuid2 d id1 d1 :
  d.(readable) = true → d.(writable) = true →
  (∀ t, d.(file) = Some t → is_Some (archive_read (A := string) t)) →
  worker_identity uuid1 d = (Ret id1, d1) →
  worker_identity uuid2 d1 = (Ret id1, d1).
Proof.
  intros Hr Hw Hf H1. destruct (worker_identity_run uuid1 d Hr Hw Hf) as (id & Hid & _).
  rewrite H1 in Hid. simplify_eq.
  unfold worker_identity, settings_construct, settings_call. cbn.
  by rewrite archive_roundtrip.
Qed.
End WorkerIdentity.
