(* ===== verification/Uuid.v ===== *)
(** * utils/include/UUID.h: version 4 identifiers

    [New] stores sixteen draws of [uniform_int_distribution<int>{0, 256}], each
    cut to a byte, and sets the version and variant bits; [String] is
    [snprintf] of the sixteen bytes as two lower-case hexadecimal digits each. *)
From Stdlib Require Import Ascii.
From S2P Require Import Prelude.

Definition uuid_bytes : nat := 16.

(** [uuid._data[index] = f(uuid._data[index])] *)
Definition set_bits (index : nat) (mask bits : Z) (data : bytes) : bytes :=
  alter (λ b, byte_of_Z (Z.lor (Z.land (byte_val b) mask) bits)) index data.

(** [dist] is the sequence of values of [dist(engine)]. *)
Definition uuid_New (dist : nat → Z) : bytes :=
  let data := (λ index, byte_of_Z (dist index)) <$> seq 0 uuid_bytes in
  let data := set_bits 6 15 64 data in (* Version 4 *)
  set_bits 8 63 128 data. (* Variant is 10 *)

(** [%02x] of an [unsigned char]. *)
Definition hex_digit (d : Z) : ascii :=
  ascii_of_nat (Z.to_nat (if d <? 10 then 48 + d else 87 + d)).

Definition format_02x (b : byte) : string :=
  String (hex_digit (byte_val b / 16)) (String (hex_digit (byte_val b mod 16)) "").

Definition format_run (bs : bytes) : string := foldr (λ b s, format_02x b +:+ s) ""%string bs.

Definition uuid_String (data : bytes) : string :=
  format_run (take 4 data) +:+ "-" +:+ format_run (take 2 (drop 4 data)) +:+ "-" +:+
  format_run (take 2 (drop 6 data)) +:+ "-" +:+ format_run (take 2 (drop 8 data)) +:+ "-" +:+
  format_run (take 6 (drop 10 data)).

(** ** The format *)

(** [xxxxxxxx-xxxx-4xxx-Nxxx-xxxxxxxxxxxx], [N] one of 8, 9, a, b, and every [x]
    a lower-case hexadecimal digit. *)
Definition is_hex (c : ascii) : bool :=
  let n := Z.of_nat (nat_of_ascii c) in
  (48 <=? n) && (n <=? 57) || (97 <=? n) && (n <=? 102).

Definition v4_char (i : nat) (c : ascii) : bool :=
  match i with
  | 8 | 13 | 18 | 23 => bool_decide (c = "-"%char)
  | 14 => bool_decide (c = "4"%char)
  | 19 => bool_decide (c ∈ ["8"; "9"; "a"; "b"]%char)
  | _ => is_hex c
  end%nat.

Fixpoint v4_from (i : nat) (s : string) : bool :=
  match s with
  | EmptyString => bool_decide (i = 36%nat)
  | String c s => v4_char i c && v4_from (S i) s
  end.

Definition is_v4 (s : string) : bool := v4_from 0 s.

Lemma hex_digit_is_hex d : 0 ≤ d < 16 → is_hex (hex_digit d) = true.
Proof.
  intros Hd. assert (d ∈ seqZ 0 16) as Hin by (apply elem_of_seqZ; lia).
  assert (Forall (λ d, is_hex (hex_digit d) = true) (seqZ 0 16)) as Hall.
  { vm_compute. repeat constructor. }
  rewrite list.Forall_forall in Hall. by apply Hall.
Qed.

Lemma hex_digit_high b : is_hex (hex_digit (byte_val b / 16)) = true.
Proof. apply hex_digit_is_hex. pose proof (byte_val_range b). Z.div_mod_to_equations. lia. Qed.

Lemma hex_digit_low b : is_hex (hex_digit (byte_val b mod 16)) = true.
Proof. apply hex_digit_is_hex. apply Z.mod_pos_bound. lia. Qed.

Lemma version_digit b :
  hex_digit (byte_val (byte_of_Z (Z.lor (Z.land (byte_val b) 15) 64)) / 16) = "4"%char.
Proof. by destruct b. Qed.

Lemma variant_digit b :
  bool_decide (hex_digit (byte_val (byte_of_Z (Z.lor (Z.land (byte_val b) 63) 128)) / 16)
    ∈ ["8"; "9"; "a"; "b"]%char) = true.
Proof. destruct b; vm_compute; reflexivity. Qed.

(** Whatever is drawn, the identifier has the form of a version 4 UUID. *)
Theorem uuid_is_version_4 (dist : nat → Z) : is_v4 (uuid_String (uuid_New dist)) = true.
Proof.
  unfold is_v4, uuid_New. cbn [seq uuid_bytes fmap list_fmap].
  generalize (byte_of_Z (dist 0%nat)) (byte_of_Z (dist 1%nat)) (byte_of_Z (dist 2%nat))
    (byte_of_Z (dist 3%nat)) (byte_of_Z (dist 4%nat)) (byte_of_Z (dist 5%nat))
    (byte_of_Z (dist 6%nat)) (byte_of_Z (dist 7%nat)) (byte_of_Z (dist 8%nat))
    (byte_of_Z (dist 9%nat)) (byte_of_Z (dist 10%nat)) (byte_of_Z (dist 11%nat))
    (byte_of_Z (dist 12%nat)) (byte_of_Z (dist 13%nat)) (byte_of_Z (dist 14%nat))
    (byte_of_Z (dist 15%nat)).
  intros b0 b1 b2 b3 b4 b5 b6 b7 b8 b9 b10 b11 b12 b13 b14 b15.
  unfold set_bits, uuid_String.
  cbn [alter list_alter take drop format_run foldr].
  unfold format_02x. repeat (rewrite append_cons || rewrite append_nil).
  cbn [v4_from v4_char]. rewrite version_digit, variant_digit, !hex_digit_high, !hex_digit_low. done.
Qed.
