(* ===== verification/DoubleOrder.v ===== *)
(** * The order of doubles, and [std::sort]

    On numbers that are not NaN, [<] of binary64 is a strict weak order (the
    two zeros are equivalent). [std::sort] is specified, not defined: its
    result is a sorted permutation when the comparison is a strict weak order
    on the elements, in an unspecified order of equivalent elements.

    At the end: the magnitude of doubles. [below k x]: [x] is a non-negative
    finite double less than [2^k]. [above k x]: [x] is at least [2^(k-1)],
    possibly infinite. Every rounding loses at most a factor of two upwards and
    nothing downwards, which is enough to show that the load balancer's shares
    of the population fit in a [size_t]. *)
From S2P Require Import Prelude Doubles.

Definition is_nan (x : double) : bool :=
  match x with S754_nan => true | _ => false end.

(** A key in lexicographic order. *)
Definition double_key (x : double) : Z * Z * Z :=
  match x with
  | S754_infinity false => (2, 0, 0)
  | S754_infinity true => (-2, 0, 0)
  | S754_zero _ | S754_nan => (0, 0, 0)
  | S754_finite false m e => (1, e, Zpos m)
  | S754_finite true m e => (-1, - e, - Zpos m)
  end.

Definition key_lt (k1 k2 : Z * Z * Z) : Prop :=
  let '(a, b, c) := k1 in let '(a', b', c') := k2 in
  a < a' ∨ a = a' ∧ (b < b' ∨ b = b' ∧ c < c').

Lemma double_ltb_key x y :
  is_nan x = false → is_nan y = false →
  double_ltb x y = true ↔ key_lt (double_key x) (double_key y).
Proof.
  intros Hx Hy. unfold double_ltb, SFltb.
  destruct x as [[]|[]| |[] m1 e1], y as [[]|[]| |[] m2 e2]; try done;
    cbn [SFcompare double_key key_lt]; try (split; intros; (reflexivity || discriminate || (exfalso; lia) || lia)).
  all: destruct (e1 ?= e2) eqn:E;
    [apply Z.compare_eq in E|change (e1 < e2) in E|apply Z.compare_gt_iff in E; change (e2 < e1) in E];
    try (split; intros; (reflexivity || discriminate || (exfalso; lia) || lia)).
  all: change (PosDef.Pos.compare_cont Eq m1 m2) with (m1 ?= m2)%positive; destruct (m1 ?= m2)%positive eqn:F;
    [apply Pos.compare_eq in F|change (m1 < m2)%positive in F|apply Pos.compare_gt_iff in F; change (m2 < m1)%positive in F];
    cbn [CompOpp]; split; intros; (reflexivity || discriminate || (exfalso; lia) || lia).
Qed.

(** [a < b] is a strict weak order on the elements of a list. *)
Record strict_weak {A} (lt : A → A → bool) (l : list A) : Prop := {
  sw_irrefl : ∀ a, a ∈ l → lt a a = false;
  sw_trans : ∀ a b c, a ∈ l → b ∈ l → c ∈ l → lt a b = true → lt b c = true → lt a c = true;
  sw_incomparable : ∀ a b c, a ∈ l → b ∈ l → c ∈ l →
    lt a b = false → lt b c = false → lt a c = false
}.

Lemma double_ltb_false x y :
  is_nan x = false → is_nan y = false →
  double_ltb x y = false ↔ ¬ key_lt (double_key x) (double_key y).
Proof.
  intros Hx Hy. rewrite <- double_ltb_key by done. by destruct (double_ltb x y).
Qed.

(** Comparing by a key that is never NaN. *)
Lemma double_ltb_strict_weak {A} (f : A → double) l :
  (∀ a, a ∈ l → is_nan (f a) = false) → strict_weak (λ a b, double_ltb (f a) (f b)) l.
Proof.
  intros Hn. split.
  - intros a Ha. apply double_ltb_false; [by apply Hn..|].
    destruct (double_key (f a)) as [[? ?] ?]. cbn. lia.
  - intros a b c Ha Hb Hc. rewrite !double_ltb_key by by apply Hn.
    destruct (double_key (f a)) as [[? ?] ?], (double_key (f b)) as [[? ?] ?],
      (double_key (f c)) as [[? ?] ?]. cbn. lia.
  - intros a b c Ha Hb Hc. rewrite !double_ltb_false by by apply Hn.
    destruct (double_key (f a)) as [[? ?] ?], (double_key (f b)) as [[? ?] ?],
      (double_key (f c)) as [[? ?] ?]. cbn. lia.
Qed.

(** ** [std::sort] *)

Class StdSort := {
  std_sort : ∀ {A}, (A → A → bool) → list A → list A;
  std_sort_permutation : ∀ A (lt : A → A → bool) l,
    strict_weak lt l → std_sort lt l ≡ₚ l;
  std_sort_sorted : ∀ A (lt : A → A → bool) l,
    strict_weak lt l → ∀ i j a b, (i < j)%nat →
      std_sort lt l !! i = Some a → std_sort lt l !! j = Some b → lt b a = false
}.

(** Insertion sort is one. *)
Fixpoint insert_sorted {A} (lt : A → A → bool) (x : A) (l : list A) : list A :=
  match l with
  | [] => [x]
  | y :: l' => if lt y x then y :: insert_sorted lt x l' else x :: l
  end.

Definition insertion_sort {A} (lt : A → A → bool) (l : list A) : list A :=
  foldr (insert_sorted lt) [] l.

Lemma insert_sorted_permutation {A} (lt : A → A → bool) x l : insert_sorted lt x l ≡ₚ x :: l.
Proof.
  induction l as [|y l IH]; [done|]. cbn. destruct (lt y x); [|done].
  rewrite IH. apply perm_swap.
Qed.

Lemma insertion_sort_permutation {A} (lt : A → A → bool) l : insertion_sort lt l ≡ₚ l.
Proof. induction l as [|x l IH]; [done|]. cbn. by rewrite insert_sorted_permutation, IH. Qed.

(** No later element is below an earlier one. *)
Definition ascending {A} (lt : A → A → bool) (l : list A) : Prop :=
  ∀ i j a b, (i < j)%nat → l !! i = Some a → l !! j = Some b → lt b a = false.

Lemma ascending_cons {A} (lt : A → A → bool) x l :
  ascending lt (x :: l) ↔ (∀ b, b ∈ l → lt b x = false) ∧ ascending lt l.
Proof.
  split.
  - intros H. split.
    + intros b [j Hj]%list_elem_of_lookup. by apply (H 0%nat (S j)); [lia|..].
    + intros i j a b Hij Ha Hb. by apply (H (S i) (S j)); [lia|..].
  - intros [Hx Hl] [|i] [|j] a b Hij Ha Hb; cbn in *; [lia| |lia|].
    + simplify_eq. apply Hx. by eapply list_elem_of_lookup_2.
    + apply (Hl i j); [lia|done|done].
Qed.

Lemma insert_sorted_ascending {A} (lt : A → A → bool) x l (D : list A) :
  strict_weak lt D → x ∈ D → (∀ y, y ∈ l → y ∈ D) →
  ascending lt l → ascending lt (insert_sorted lt x l).
Proof.
  intros Hsw Hx. induction l as [|y l IH]; intros HD Hl; cbn.
  { apply ascending_cons. split; [by intros b ?%elem_of_nil|done]. }
  apply ascending_cons in Hl as [Hy Hl]. destruct (lt y x) eqn:E.
  - apply ascending_cons. split.
    + intros b. rewrite insert_sorted_permutation. intros [->|Hb]%elem_of_cons; [|by apply Hy].
      destruct (lt x y) eqn:F; [|done].
      pose proof (sw_trans _ _ Hsw y x y) as Ht. rewrite (sw_irrefl _ _ Hsw y) in Ht; [|apply HD; left].
      by rewrite Ht; [done|apply HD; left|done|apply HD; left|..].
    + apply IH; [|done]. intros z Hz. apply HD. by right.
  - apply ascending_cons. split; [|by apply ascending_cons].
    intros b [->|Hb]%elem_of_cons; [done|].
    apply (sw_incomparable _ _ Hsw b y x); [apply HD; by right|apply HD; left|done|by apply Hy|done].
Qed.

Lemma insertion_sort_ascending {A} (lt : A → A → bool) l :
  strict_weak lt l → ascending lt (insertion_sort lt l).
Proof.
  intros Hsw. assert (∀ m, (∀ y, y ∈ m → y ∈ l) → ascending lt (insertion_sort lt m)) as H.
  { induction m as [|x m IH]; intros Hm; [by intros i j a b _ ?|].
    change (insertion_sort lt (x :: m)) with (insert_sorted lt x (insertion_sort lt m)).
    apply (insert_sorted_ascending _ _ _ l); [done|apply Hm; left| |].
    - intros y. rewrite insertion_sort_permutation. intros Hy. apply Hm. by right.
    - apply IH. intros y Hy. apply Hm. by right. }
  by apply H.
Qed.

#[export] Instance InsertionSort : StdSort.
Proof.
  refine {| std_sort := @insertion_sort |}.
  - intros A lt l _. apply insertion_sort_permutation.
  - intros A lt l Hsw. by apply insertion_sort_ascending.
Defined.

(** ** Magnitudes *)

Definition below (k : Z) (x : double) : Prop :=
  match x with
  | S754_zero false => True
  | S754_finite false m e => Zdigits2 (Zpos m) + e ≤ k ∧ -1074 ≤ e
  | _ => False
  end.

Definition above (k : Z) (x : double) : Prop :=
  match x with
  | S754_infinity false => True
  | S754_finite false m e => k ≤ Zdigits2 (Zpos m) + e ∧ -1074 ≤ e
  | _ => False
  end.

Lemma below_le j k x : j ≤ k → below j x → below k x.
Proof. destruct x as [[]|[]| |[]]; cbn; lia. Qed.

Lemma below_nonneg k x : below k x → double_nonneg x.
Proof. by destruct x as [[]|[]| |[]]. Qed.

(** ** Digits *)

Lemma Zdigits2_log2 m : 0 < m → Zdigits2 m = Z.log2 m + 1.
Proof. destruct m as [|p|p]; try lia. intros _. apply digits2_pos_log2. Qed.

Lemma Zdigits2_nonneg m : 0 ≤ Zdigits2 m.
Proof. destruct m; cbn; lia. Qed.

Lemma Zdigits2_le m n : 0 ≤ m ≤ n → Zdigits2 m ≤ Zdigits2 n.
Proof.
  intros Hm. destruct (decide (m = 0)) as [->|]; [apply (Zdigits2_nonneg n)|].
  rewrite !Zdigits2_log2 by lia. pose proof (Z.log2_le_mono m n ltac:(lia)). lia.
Qed.

Lemma Zdigits2_shift_right m n :
  0 ≤ m → 0 ≤ n → Zdigits2 (m / 2 ^ n) = Z.max (Zdigits2 m - n) 0.
Proof.
  intros Hm Hn. destruct (decide (m = 0)) as [->|].
  { rewrite Z.div_0_l by (pose proof (Z.pow_pos_nonneg 2 n); lia). cbn. lia. }
  destruct (decide (m / 2 ^ n = 0)) as [E|E].
  - rewrite E. cbn [Zdigits2]. apply Z.div_small_iff in E; [|pose proof (Z.pow_pos_nonneg 2 n); lia].
    rewrite Zdigits2_log2 by lia. assert (Z.log2 m < n) by (apply Z.log2_lt_pow2; lia). lia.
  - assert (0 ≤ m / 2 ^ n) by (apply Z.div_pos; [done|]; pose proof (Z.pow_pos_nonneg 2 n); lia).
    rewrite !Zdigits2_log2 by lia. rewrite <- Z.shiftr_div_pow2 in * by done.
    rewrite Z.log2_shiftr by lia.
    assert (n ≤ Z.log2 m); [|lia]. destruct (decide (n ≤ Z.log2 m)); [done|].
    rewrite Z.shiftr_eq_0 in E by lia. done.
Qed.

Lemma Zdigits2_shift_left m n : 0 < m → 0 ≤ n → Zdigits2 (m * 2 ^ n) = Zdigits2 m + n.
Proof.
  intros Hm Hn. pose proof (Z.pow_pos_nonneg 2 n).
  rewrite !Zdigits2_log2 by nia. rewrite Z.log2_mul_pow2 by lia. lia.
Qed.

Lemma iter_xO p d : Zpos (Pos.iter xO p d) = Zpos p * 2 ^ Zpos d.
Proof.
  induction d as [|d IH] using Pos.peano_ind; [change (Pos.iter xO p 1) with (xO p); lia|].
  rewrite Pos.iter_succ, Pos2Z.inj_xO, IH, Pos2Z.inj_succ, Z.pow_succ_r by lia. ring.
Qed.

(** ** Rounding *)

Lemma shr_fexp_digits m e l r e' :
  0 ≤ m → shr_fexp 53 1024 m e l = (r, e') →
  0 ≤ shr_m r ∧ e ≤ e' ∧ -1074 ≤ e' ∧ e' ≤ Z.max e (Z.max (Zdigits2 m + e - 53) (-1074)) ∧
  Zdigits2 (shr_m r) + e' ≤ Z.max (Zdigits2 m + e) e' ∧
  (0 < m → -1074 ≤ e → 0 < shr_m r ∧ Zdigits2 m + e ≤ Zdigits2 (shr_m r) + e').
Proof.
  intros Hm H. unfold shr_fexp, fexp, emin in H.
  pose proof (Zdigits2_nonneg m) as Hd.
  destruct (Z.max _ _ - e) as [|n|n] eqn:En; cbn in H; simplify_eq.
  1, 3: rewrite shr_record_m; split_and!; lia.
  rewrite iter_shr_div by (by rewrite shr_record_m). rewrite shr_record_m.
  rewrite Zdigits2_shift_right by lia.
  assert (0 ≤ m / 2 ^ Zpos n) by (apply Z.div_pos; lia).
  split_and!; try lia. intros Hm0 He.
  assert (0 < Zdigits2 (m / 2 ^ Zpos n)) as Hp by (rewrite Zdigits2_shift_right by lia; lia).
  split; [|lia]. destruct (m / 2 ^ Zpos n); cbn in *; lia.
Qed.

Lemma round_nearest_even_range m l : round_nearest_even m l = m ∨ round_nearest_even m l = m + 1.
Proof. destruct l as [|[]]; cbn; try case_match; lia. Qed.

Lemma Zdigits2_round m l :
  0 ≤ m → Zdigits2 m ≤ Zdigits2 (round_nearest_even m l) ≤ Zdigits2 m + 1.
Proof.
  intros Hm. destruct (round_nearest_even_range m l) as [->| ->]; [lia|].
  split; [apply Zdigits2_le; lia|].
  destruct (decide (m = 0)) as [->|]; [done|]. apply Zdigits2_succ. lia.
Qed.

Lemma round_aux_below m e l k :
  0 ≤ m → Zdigits2 m + e ≤ k → e ≤ k → 0 ≤ k ≤ 900 →
  below (k + 1) (binary_round_aux 53 1024 false m e l).
Proof.
  intros Hm Hd He Hk. unfold binary_round_aux.
  destruct (shr_fexp 53 1024 m e l) as [r e1] eqn:E1.
  apply shr_fexp_digits in E1 as (Hr & He1 & Hl1 & Hu1 & Hd1 & _); [|done].
  set (q := round_nearest_even (shr_m r) (loc_of_shr_record r)).
  assert (0 ≤ q) as Hq by (by apply round_nearest_even_nonneg).
  pose proof (Zdigits2_round (shr_m r) (loc_of_shr_record r) Hr) as Hqd. fold q in Hqd.
  destruct (shr_fexp 53 1024 q e1 loc_Exact) as [r2 e2] eqn:E2.
  apply shr_fexp_digits in E2 as (Hr2 & He2 & Hl2 & Hu2 & Hd2 & _); [|done].
  destruct (shr_m r2) as [|m2|m2] eqn:Em2; [done| |lia].
  rewrite (proj2 (Z.leb_le e2 _)) by lia. unfold below. lia.
Qed.

Lemma round_aux_above m e l k :
  0 < m → -1074 ≤ e → k ≤ Zdigits2 m + e →
  above k (binary_round_aux 53 1024 false m e l).
Proof.
  intros Hm He Hk. unfold binary_round_aux.
  destruct (shr_fexp 53 1024 m e l) as [r e1] eqn:E1.
  apply shr_fexp_digits in E1 as (_ & _ & Hl1 & _ & _ & H1); [|lia]. destruct (H1 Hm He) as [Hr Hd1].
  set (q := round_nearest_even (shr_m r) (loc_of_shr_record r)).
  assert (0 < q) as Hq.
  { destruct (round_nearest_even_range (shr_m r) (loc_of_shr_record r)) as [E|E]; fold q in E; lia. }
  pose proof (Zdigits2_round (shr_m r) (loc_of_shr_record r) ltac:(lia)) as Hqd. fold q in Hqd.
  destruct (shr_fexp 53 1024 q e1 loc_Exact) as [r2 e2] eqn:E2.
  apply shr_fexp_digits in E2 as (_ & _ & Hl2 & _ & _ & H2); [|lia]. destruct (H2 Hq Hl1) as [Hr2 Hd2].
  destruct (shr_m r2) as [|m2|m2] eqn:Em2; [lia| |lia].
  destruct (e2 <=? _); cbn [above]; lia.
Qed.

(** Normalising a positive integer multiple of [2^e]. *)
Lemma shl_align_digits m e f :
  let '(m', e') := shl_align m e f in
  Zdigits2 (Zpos m') + e' = Zdigits2 (Zpos m) + e ∧ e' = Z.min e f.
Proof.
  unfold shl_align. destruct (f - e) as [|d|d] eqn:E; [lia|lia|].
  rewrite iter_xO, Zdigits2_shift_left by lia. lia.
Qed.

Lemma binary_round_below m e k :
  Zdigits2 (Zpos m) + e ≤ k → 0 ≤ k ≤ 900 → below (k + 1) (binary_round 53 1024 false m e).
Proof.
  intros Hd Hk. unfold binary_round.
  pose proof (shl_align_digits m e (fexp 53 1024 (Zpos (digits2_pos m) + e))) as Hs.
  destruct (shl_align _ _ _) as [m' e']. destruct Hs as [Hs He].
  pose proof (Zdigits2_nonneg (Zpos m)). apply round_aux_below; [lia|lia|lia|lia].
Qed.

Lemma binary_round_above m e k :
  -1074 ≤ e → k ≤ Zdigits2 (Zpos m) + e → above k (binary_round 53 1024 false m e).
Proof.
  intros He Hd. unfold binary_round.
  pose proof (shl_align_digits m e (fexp 53 1024 (Zpos (digits2_pos m) + e))) as Hs.
  destruct (shl_align _ _ _) as [m' e']. destruct Hs as [Hs He'].
  unfold fexp, emin in He'. apply round_aux_above; [lia|lia|lia].
Qed.

(** ** The operations *)

Lemma double_of_Z_below z k : 0 ≤ z < 2 ^ k → 0 ≤ k ≤ 900 → below (k + 1) (double_of_Z z).
Proof.
  intros Hz Hk. unfold double_of_Z. destruct z as [|p|p]; [done| |lia].
  apply binary_round_below; [|done]. rewrite Zdigits2_log2 by lia.
  assert (Z.log2 (Zpos p) < k) by (apply Z.log2_lt_pow2; lia). lia.
Qed.

Lemma double_of_Z_above z : 0 < z → above 1 (double_of_Z z).
Proof.
  intros Hz. unfold double_of_Z. destruct z as [|p|p]; [lia| |lia].
  apply binary_round_above; [lia|]. rewrite Zdigits2_log2 by lia.
  pose proof (Z.log2_nonneg (Zpos p)). lia.
Qed.

(** A non-negative double with an exponent in range. *)
Definition proper (x : double) : Prop :=
  match x with
  | S754_zero false | S754_infinity false => True
  | S754_finite false _ e => -1074 ≤ e
  | _ => False
  end.

Lemma proper_zero_or_above x : proper x → x = S754_zero false ∨ ∃ k, above k x.
Proof.
  destruct x as [[]|[]| |[] m e]; try done; [by left|right; by exists 0|].
  intros He. right. by exists (Zdigits2 (Zpos m) + e).
Qed.

Lemma above_proper k x : above k x → proper x.
Proof. destruct x as [[]|[]| |[]]; cbn; tauto. Qed.

Lemma below_proper k x : below k x → proper x.
Proof. destruct x as [[]|[]| |[]]; cbn; tauto. Qed.

Lemma above_add_finite k mx ex my ey :
  -1074 ≤ ex → -1074 ≤ ey → k ≤ Zdigits2 (Zpos mx) + ex ∨ k ≤ Zdigits2 (Zpos my) + ey →
  above k (double_add (S754_finite false mx ex) (S754_finite false my ey)).
Proof.
  intros Hex Hey Hk. unfold double_add, SFadd. cbn [cond_Zopp].
  pose proof (shl_align_digits mx ex (ex `min` ey)) as Hx.
  pose proof (shl_align_digits my ey (ex `min` ey)) as Hy.
  destruct (shl_align mx ex _) as [mx' ex'], (shl_align my ey _) as [my' ey']. cbn [fst].
  destruct Hx as [Hx Hxe], Hy as [Hy Hye].
  change (Zpos mx' + Zpos my') with (Zpos (mx' + my')).
  pose proof (Zdigits2_le (Zpos mx') (Zpos (mx' + my')) ltac:(lia)).
  pose proof (Zdigits2_le (Zpos my') (Zpos (mx' + my')) ltac:(lia)).
  change (above k (binary_round 53 1024 false (mx' + my') (ex `min` ey))).
  apply binary_round_above; lia.
Qed.

(** A sum is no smaller than its terms. *)
Lemma double_add_above k x y :
  proper x → proper y → above k x ∨ above k y → above k (double_add x y).
Proof.
  destruct x as [[]|[]| |[] mx ex], y as [[]|[]| |[] my ey]; try done; cbn; try tauto.
  intros Hx Hy [Hk|Hk]; apply above_add_finite; tauto.
Qed.

Lemma double_add_proper x y : proper x → proper y → proper (double_add x y).
Proof.
  intros Hx Hy. destruct (proper_zero_or_above x Hx) as [->|[k Hk]].
  - by destruct y as [[]|[]| |[]].
  - eapply above_proper, double_add_above; [done|done|by left].
Qed.

Lemma double_sum_proper (xs : list double) acc :
  proper acc → Forall proper xs → proper (foldl double_add acc xs).
Proof.
  intros Ha Hx. revert acc Ha. induction Hx as [|x xs Hx Hxs IH]; intros acc Ha; [done|].
  cbn. by apply IH, double_add_proper.
Qed.

Lemma double_sum_above k x (xs : list double) acc :
  proper acc → Forall proper xs → above k acc ∨ (x ∈ xs ∧ above k x) →
  above k (foldl double_add acc xs).
Proof.
  intros Ha Hx. revert acc Ha.
  induction Hx as [|y xs Hy Hxs IH]; intros acc Ha [Hk|[Hin Hk]]; cbn; [done| | |].
  - by apply elem_of_nil in Hin.
  - apply IH; [by apply double_add_proper|]. left. apply double_add_above; auto.
  - apply IH; [by apply double_add_proper|]. apply elem_of_cons in Hin as [->|Hin]; [|by right].
    left. apply double_add_above; auto.
Qed.

(** Quotients. *)
Lemma div_core_digits m1 e1 m2 e2 j :
  Zdigits2 (Zpos m1) + e1 - (Zdigits2 (Zpos m2) + e2) ≤ j → 0 ≤ j →
  let '(q, e', _) := SFdiv_core_binary 53 1024 (Zpos m1) e1 (Zpos m2) e2 in
  0 ≤ q ∧ Zdigits2 q + e' ≤ j + 1 ∧ e' ≤ j + 1.
Proof.
  intros Hj Hj0. unfold SFdiv_core_binary.
  set (e' := Z.min (fexp 53 1024 (Zdigits2 (Zpos m1) + e1 - (Zdigits2 (Zpos m2) + e2))) (e1 - e2)).
  assert (e' ≤ j + 1 ∧ e' ≤ e1 - e2) as [He' Hs].
  { unfold e', fexp, emin. lia. }
  change (let '(q, e', _) :=
    let '(q, r) := Z.div_eucl
      match e1 - e2 - e' with
      | 0 => Zpos m1 | Zpos _ => Z.shiftl (Zpos m1) (e1 - e2 - e') | Zneg _ => 0 end (Zpos m2) in
    (q, e', new_location (Zpos m2) r) in 0 ≤ q ∧ Zdigits2 q + e' ≤ j + 1 ∧ e' ≤ j + 1).
  assert (∃ m', match e1 - e2 - e' with
                | 0 => Zpos m1 | Zpos _ => Z.shiftl (Zpos m1) (e1 - e2 - e') | Zneg _ => 0 end = m' ∧
                m' = Zpos m1 * 2 ^ (e1 - e2 - e')) as (m' & -> & Hm').
  { destruct (e1 - e2 - e') as [|s|s] eqn:Es; eexists; (split; [reflexivity|]);
      [lia|by rewrite Z.shiftl_mul_pow2|lia]. }
  destruct (Z.div_eucl m' (Zpos m2)) as [q r] eqn:Eq.
  assert (q = m' / Zpos m2) as -> by (unfold Z.div; by rewrite Eq). clear Eq.
  set (s := e1 - e2 - e') in *. assert (0 ≤ s) by lia.
  assert (0 < m') by (rewrite Hm'; pose proof (Z.pow_pos_nonneg 2 s); nia).
  assert (0 ≤ m' / Zpos m2) as H1 by (apply Z.div_pos; lia).
  split_and!; [done| |done].
  assert (m' / Zpos m2 ≤ m' / 2 ^ (Zdigits2 (Zpos m2) - 1)) as Hle.
  { pose proof (Zdigits2_bounds (Zpos m2) ltac:(lia)). apply Z.div_le_compat_l; [lia|].
    split; [|lia]. apply Z.pow_pos_nonneg; lia. }
  pose proof (Zdigits2_bounds (Zpos m2) ltac:(lia)) as [_ Hd2].
  pose proof (Zdigits2_le _ _ (conj H1 Hle)) as Hd12.
  rewrite Zdigits2_shift_right in Hd12 by lia. rewrite Hm', Zdigits2_shift_left in Hd12 by lia.
  rewrite <- Hm' in Hd12. subst s. clearbody e'. lia.
Qed.

Lemma double_div_below x y i k j :
  below i x → above k y → i - k ≤ j → 0 ≤ j ≤ 800 → below (j + 2) (double_div x y).
Proof.
  destruct x as [[]|[]| |[] mx ex], y as [[]|[]| |[] my ey]; try done.
  intros [Hx Hex] [Hy Hey] Hj Hj0. unfold double_div, SFdiv. cbn [xorb].
  pose proof (div_core_digits mx ex my ey j ltac:(lia) ltac:(lia)) as Hc.
  destruct (SFdiv_core_binary _ _ _ _ _ _) as [[q e'] l]. destruct Hc as (? & ? & ?).
  replace (j + 2) with (j + 1 + 1) by lia. apply round_aux_below; lia.
Qed.

(** Products. *)
Lemma double_mul_below x y j k :
  below j x → below k y → 0 ≤ j + k ≤ 900 → below (j + k + 1) (double_mul x y).
Proof.
  destruct x as [[]|[]| |[] mx ex], y as [[]|[]| |[] my ey]; try done.
  intros [Hx Hex] [Hy Hey] Hjk. unfold double_mul, SFmul. cbn [xorb].
  assert (Zdigits2 (Zpos (mx * my)) ≤ Zdigits2 (Zpos mx) + Zdigits2 (Zpos my)) as Hd.
  { rewrite !Zdigits2_log2, Pos2Z.inj_mul by lia.
    pose proof (Z.log2_mul_above (Zpos mx) (Zpos my)). lia. }
  assert (1 ≤ Zdigits2 (Zpos mx) ∧ 1 ≤ Zdigits2 (Zpos my)) as [??].
  { rewrite !Zdigits2_log2 by lia. pose proof (Z.log2_nonneg (Zpos mx)).
    pose proof (Z.log2_nonneg (Zpos my)). lia. }
  apply round_aux_below; lia.
Qed.

(** Truncation to [size_t]. *)
Lemma size_t_of_double_below x k :
  0 ≤ k ≤ 64 → below k x → ∃ z, size_t_of_double x = Ret z ∧ 0 ≤ z < 2 ^ k.
Proof.
  intros Hk. destruct x as [[]|[]| |[] m e]; try done; intros H.
  { exists 0. split; [done|]. pose proof (Z.pow_pos_nonneg 2 k). lia. }
  destruct H as [Hd He]. cbn [size_t_of_double].
  assert (0 ≤ Z.shiftl (Zpos m) e < 2 ^ k) as Hb.
  { split; [by apply Z.shiftl_nonneg|].
    destruct (decide (0 ≤ e)).
    - rewrite Z.shiftl_mul_pow2 by done. pose proof (Zdigits2_bounds (Zpos m) ltac:(lia)) as [[_ Hm] _].
      apply Z.lt_le_trans with (2 ^ Zdigits2 (Zpos m) * 2 ^ e).
      + apply Z.mul_lt_mono_pos_r; [by apply Z.pow_pos_nonneg|done].
      + rewrite <- Z.pow_add_r by (try done; apply Zdigits2_nonneg). apply Z.pow_le_mono_r; lia.
    - replace e with (- (- e)) by lia. rewrite Z.shiftl_opp_r, Z.shiftr_div_pow2 by lia.
      assert (0 ≤ Zpos m / 2 ^ (- e)) by (apply Z.div_pos; [lia|apply Z.pow_pos_nonneg; lia]).
      destruct (decide (Zpos m / 2 ^ (- e) = 0)) as [->|]; [apply Z.pow_pos_nonneg; lia|].
      pose proof (Zdigits2_bounds (Zpos m / 2 ^ (- e)) ltac:(lia)) as [[_ Hm] _].
      eapply Z.lt_le_trans; [exact Hm|]. rewrite Zdigits2_shift_right by lia.
      apply Z.pow_le_mono_r; lia. }
  assert (2 ^ k ≤ 2 ^ 64) by (apply Z.pow_le_mono_r; lia).
  rewrite (proj2 (Z.ltb_lt _ _)) by lia. by eexists.
Qed.
