(* ===== verification/Pagmo.v ===== *)
(** * The Pagmo library, as the program sees it

    [pagmo::algorithm], [pagmo::problem] and [pagmo::population] are
    third-party classes: the class [Pagmo] lists the operations of theirs that
    the program calls, and [PagmoLaws] what their documentation says about a
    population (a vector of decision vectors with one fitness vector each,
    [set_x] replacing one individual and its fitness). [ToyPagmo] is a small
    concrete instance for the witnesses. *)
From S2P Require Import Prelude Doubles.

Abbreviation vector_double := (list double).

Class Pagmo := {
  algorithm : Type;
  problem : Type;
  population : Type;
  algorithm_get_name : algorithm → string;
  get_nobj : problem → Z;
  get_nc : problem → Z;
  get_nec : problem → Z;
  fitness : problem → vector_double → vector_double;
  (** The check of [set_x] that a decision vector has the problem's dimension. *)
  compatible : problem → vector_double → bool;
  get_problem : population → problem;
  get_seed : population → Z;
  get_x : population → list vector_double;
  get_f : population → list vector_double;
  (** [pagmo::population{prob, pop_size, seed}]: random individuals. *)
  population_new : problem → Z → Z → population;
  set_x : nat → vector_double → population → outcome population
}.

Definition population_size `{Pagmo} (p : population) : Z := Z.of_nat (length (get_x p)).

Class PagmoLaws `{PG : Pagmo} := {
  fitness_per_individual : ∀ p, length (get_f p) = length (get_x p);
  population_new_size : ∀ prob n s, 0 ≤ n → population_size (population_new prob n s) = n;
  population_new_problem : ∀ prob n s, get_problem (population_new prob n s) = prob;
  population_new_seed : ∀ prob n s, get_seed (population_new prob n s) = s;
  individuals_compatible : ∀ p x, x ∈ get_x p → compatible (get_problem p) x = true;
  set_x_in_range : ∀ i x p, (i < length (get_x p))%nat → compatible (get_problem p) x = true →
    ∃ p', set_x i x p = Ret p' ∧
      get_x p' = <[i := x]> (get_x p) ∧
      get_f p' = <[i := fitness (get_problem p) x]> (get_f p) ∧
      get_problem p' = get_problem p ∧ get_seed p' = get_seed p;
  set_x_incompatible : ∀ i x p, (i < length (get_x p))%nat → compatible (get_problem p) x = false →
    ∃ msg, set_x i x p = Throw (invalid_argument msg);
  set_x_out_of_range : ∀ i x p, (length (get_x p) ≤ i)%nat →
    ∃ msg, set_x i x p = Throw (invalid_argument msg)
}.

(** Decision vectors of the problem's dimension. *)
Definition all_compatible `{Pagmo} (prob : problem) (xs : list vector_double) : Prop :=
  Forall (λ x, compatible prob x = true) xs.

Lemma all_compatible_lookup `{Pagmo} prob xs i x :
  all_compatible prob xs → xs !! i = Some x → compatible prob x = true.
Proof. intros Hc Hi. by apply (Forall_lookup_1 _ _ _ _ Hc Hi). Qed.

(** ** A concrete instance *)

Record toy_population := {
  toy_problem : nat;
  toy_seed : Z;
  toy_x : list vector_double
}.

Definition toy_fitness (prob : nat) (x : vector_double) : vector_double := x.

(** Decision vectors have one component. *)
Definition toy_compatible (x : vector_double) : bool := match x with [_] => true | _ => false end.
Definition toy_vector (x : vector_double) : vector_double := if toy_compatible x then x else [double_zero].

(** Problem [n] has [n] objectives and no constraints; fitness is the identity. *)
#[export] Instance ToyPagmo : Pagmo := {|
  algorithm := string;
  problem := nat;
  population := toy_population;
  algorithm_get_name := λ a, a;
  get_nobj := Z.of_nat;
  get_nc := λ _, 0;
  get_nec := λ _, 0;
  fitness := toy_fitness;
  compatible := λ _, toy_compatible;
  get_problem := toy_problem;
  get_seed := toy_seed;
  get_x := λ p, toy_vector <$> toy_x p;
  get_f := λ p, toy_fitness (toy_problem p) <$> (toy_vector <$> toy_x p);
  population_new := λ prob n s,
    {| toy_problem := prob; toy_seed := s; toy_x := replicate (Z.to_nat n) [double_zero] |};
  set_x := λ i x p,
    if decide (i < length (toy_x p))%nat then
      if negb (toy_compatible x) then Throw (invalid_argument "decision vector of the wrong dimension")
      else Ret {| toy_problem := toy_problem p; toy_seed := toy_seed p; toy_x := <[i := x]> (toy_x p) |}
    else Throw (invalid_argument "cannot access individual at that position")
|}.

#[export] Instance ToyPagmoLaws : PagmoLaws.
Proof.
  split.
  - intros p. cbn. rewrite length_fmap. done.
  - intros prob n s Hn. unfold population_size. cbn. rewrite length_fmap, length_replicate. lia.
  - done.
  - done.
  - intros p x Hx. cbn in *. apply list_elem_of_fmap in Hx as (y & -> & _). unfold toy_vector.
    by destruct y as [|? [|]].
  - intros i x p Hi Hx. cbn in *. rewrite length_fmap in Hi.
    destruct (decide (i < length (toy_x p))%nat); [|done]. rewrite Hx. cbn [negb].
    eexists. split; [done|]. cbn. rewrite list_fmap_insert. unfold toy_vector at 1. rewrite Hx.
    split_and!; try done. rewrite list_fmap_insert. unfold toy_vector at 1. rewrite Hx. done.
  - intros i x p Hi Hx. cbn in *. rewrite length_fmap in Hi.
    destruct (decide (i < length (toy_x p))%nat); [|done]. rewrite Hx. by eexists.
  - intros i x p Hi. cbn in *. rewrite length_fmap in Hi.
    destruct (decide (i < length (toy_x p))%nat); [lia|]. by eexists.
Qed.

(** ** Sorting and evolution (third-party) *)

Class PagmoSort `{PG : Pagmo} := {
  get_c_tol : problem → vector_double;
  sort_population_con : list vector_double → Z → vector_double → outcome (list nat);
  sort_population_mo : list vector_double → outcome (list nat)
}.

(** Both sorts return the indices of the individuals, each once. *)
Class PagmoSortLaws `{PS : PagmoSort} := {
  sort_con_permutation : ∀ f nec tol idx,
    sort_population_con f nec tol = Ret idx → idx ≡ₚ seq 0 (length f);
  sort_mo_permutation : ∀ f idx,
    sort_population_mo f = Ret idx → idx ≡ₚ seq 0 (length f)
}.

(** [pagmo::algorithm::evolve], and an archipelago of thread islands with one
    algorithm: [push_back] for each population, [evolve], [wait_check]. *)
Class PagmoEvolve `{PG : Pagmo} := {
  algorithm_evolve : algorithm → population → outcome population;
  archipelago_evolve : algorithm → list population → Z → outcome (list (algorithm * population))
}.

(** Islands keep their number, sizes and problems. *)
Class PagmoEvolveLaws `{PE : PagmoEvolve} := {
  algorithm_evolve_size : ∀ a p p', algorithm_evolve a p = Ret p' →
    population_size p' = population_size p ∧ get_problem p' = get_problem p;
  archipelago_evolve_sizes : ∀ a ps n isls, archipelago_evolve a ps n = Ret isls →
    population_size <$> isls.*2 = population_size <$> ps ∧ get_problem <$> isls.*2 = get_problem <$> ps
}.

#[export] Instance ToyPagmoSort : PagmoSort := {|
  get_c_tol := λ _, [];
  sort_population_con := λ f _ _, Ret (seq 0 (length f));
  sort_population_mo := λ f, Ret (seq 0 (length f))
|}.

#[export] Instance ToyPagmoSortLaws : PagmoSortLaws.
Proof. split; cbn; intros; by simplify_eq. Qed.

#[export] Instance ToyPagmoEvolve : PagmoEvolve := {|
  algorithm_evolve := λ _ p, Ret p;
  archipelago_evolve := λ a ps _, Ret ((λ p, (a, p)) <$> ps)
|}.

#[export] Instance ToyPagmoEvolveLaws : PagmoEvolveLaws.
Proof.
  split; cbn; intros; simplify_eq; [done|].
  by rewrite <- !list_fmap_compose; split; apply list_fmap_ext.
Qed.
