(* ===== verification/Island.v ===== *)
(** * logic/distributed_island.{h,cpp}: a user-defined island

    The solver's side of one job: [run_evolve] sends the island's algorithm and
    population to the controller and waits for the evolved ones. Its state is
    the Pagmo island it is given and its dealer socket, with the frames sent
    and the frames that will arrive. *)
From S2P Require Import Prelude Messages Sockets Pagmo Uuid.

Record distributed_island := {
  _islandId : string;
  _preferredWorkerId : string;
  _cycleCount : Z
}.

Definition set_preferred_worker (w : string) (i : distributed_island) : distributed_island :=
  {| _islandId := i.(_islandId); _preferredWorkerId := w; _cycleCount := i.(_cycleCount) |}.
Definition set_cycle_count (n : Z) (i : distributed_island) : distributed_island :=
  {| _islandId := i.(_islandId); _preferredWorkerId := i.(_preferredWorkerId); _cycleCount := n |}.
Definition clear_preferred_worker (i : distributed_island) : distributed_island :=
  {| _islandId := i.(_islandId); _preferredWorkerId := ""; _cycleCount := i.(_cycleCount) |}.
Definition clear_cycle_count (i : distributed_island) : distributed_island :=
  {| _islandId := i.(_islandId); _preferredWorkerId := i.(_preferredWorkerId); _cycleCount := 1 |}.

(** The constructors; [dist] are the draws of [UUID::New()]. *)
Definition distributed_island_default (dist : nat → Z) : distributed_island :=
  {| _islandId := "island_" +:+ uuid_String (uuid_New dist); _preferredWorkerId := ""; _cycleCount := 1 |}.
Definition distributed_island_new (dist : nat → Z) (preferred_worker_id : string) (cycle_count : Z) :
    distributed_island :=
  {| _islandId := "island_" +:+ uuid_String (uuid_New dist);
     _preferredWorkerId := preferred_worker_id; _cycleCount := cycle_count |}.

Definition distributed_island_get_name (i : distributed_island) : string := "Distributed island".
Definition distributed_island_get_extra_info (i : distributed_island) : string :=
  "ID: " +:+ i.(_islandId).

(** ** What the island uses of Pagmo

    [pagmo::island] holds an algorithm and a population behind getters and
    setters; [thread_safety] is ordered none < basic < constant. *)
Class PagmoIsland `{PG : Pagmo} := {
  island : Type;
  get_algorithm : island → algorithm;
  get_population : island → population;
  set_algorithm : algorithm → island → island;
  set_population : population → island → island;
  algorithm_thread_safety : algorithm → Z;
  problem_thread_safety : problem → Z;
  problem_get_name : problem → string
}.

Definition thread_safety_basic : Z := 1.

Class PagmoIslandLaws `{PI : PagmoIsland} := {
  get_set_algorithm : ∀ a isl, get_algorithm (set_algorithm a isl) = a;
  get_set_population : ∀ p isl, get_population (set_population p isl) = p;
  get_population_set_algorithm : ∀ a isl, get_population (set_algorithm a isl) = get_population isl;
  get_algorithm_set_population : ∀ p isl, get_algorithm (set_population p isl) = get_algorithm isl
}.

Section Island.
Context {PG : Pagmo} {PI : PagmoIsland}.
Context {AW : Archive (work_container algorithm population)}.

Record island_thread := {
  isl : island;
  routing_id : option string;
  endpoints : list string;
  sent_frames : list frame;
  arriving : list frame
}.

Definition with_island (i : island) (s : island_thread) : island_thread :=
  {| isl := i; routing_id := s.(routing_id); endpoints := s.(endpoints);
     sent_frames := s.(sent_frames); arriving := s.(arriving) |}.

Definition socket_set_routing_id (id : string) : M island_thread unit :=
  modify (λ s, {| isl := s.(isl); routing_id := Some id; endpoints := s.(endpoints);
                  sent_frames := s.(sent_frames); arriving := s.(arriving) |}).
Definition socket_connect (address : string) : M island_thread unit :=
  modify (λ s, {| isl := s.(isl); routing_id := s.(routing_id);
                  endpoints := s.(endpoints) ++ [address];
                  sent_frames := s.(sent_frames); arriving := s.(arriving) |}).
Definition socket_send (frames : list frame) : M island_thread unit :=
  modify (λ s, {| isl := s.(isl); routing_id := s.(routing_id); endpoints := s.(endpoints);
                  sent_frames := s.(sent_frames) ++ frames; arriving := s.(arriving) |}).

(** [receive()]: [None] when the call blocks for ever on what arrives. *)
Definition socket_receive : M island_thread (option (MsgType * bytes)) := λ s,
  match dealer_socket_receive s.(arriving) with
  | Received m rest =>
      (Ret (Some m), {| isl := s.(isl); routing_id := s.(routing_id); endpoints := s.(endpoints);
                        sent_frames := s.(sent_frames); arriving := rest |})
  | Blocked => (Ret None, s)
  | BadFrame f => (Crash f, s)
  end.

Definition _load_pagmo_pop_and_algo (i : island) : outcome (algorithm * population) :=
  let algo := get_algorithm i in
  let pop := get_population i in
  if algorithm_thread_safety algo <? thread_safety_basic then
    Throw (invalid_argument
      ("the 'distributed_island' UDI requires an algorithm providing at least the 'basic' " +:+
       "thread safety guarantee, but an algorithm of type '" +:+ algorithm_get_name algo +:+
       "' does not"))
  else if problem_thread_safety (get_problem pop) <? thread_safety_basic then
    Throw (invalid_argument
      ("the 'distributed_island' UDI requires a problem providing at least the 'basic' " +:+
       "thread safety guarantee, but a problem of type '" +:+ problem_get_name (get_problem pop) +:+
       "' does not"))
  else Ret (algo, pop).

(** [std::to_string(int)] is a parameter only of the message's text. *)
Context (int_to_string : Z → string).

(** The part of the lambda [impl] after the request: [false] while it waits. *)
Definition await_results : M island_thread bool :=
  m ← socket_receive;
  match m with
  | None => mret false
  | Some (type, binary) =>
      if decide (type ≠ WORK_RESULTS) then
        throw (runtime_error
          ("Distributed island expected WORK_RESULTS from Controller, got enum value: " +:+
           int_to_string (MsgType_to_int type)))
      else
        work_results ← lift (vector_deserialize (A := work_container algorithm population) binary);
        _ ← modify (λ s, with_island (set_population work_results.(pop) s.(isl)) s);
        _ ← modify (λ s, with_island (set_algorithm work_results.(algo) s.(isl)) s);
        mret true
  end.

(** The lambda [impl]. *)
Definition impl (u : distributed_island) : M island_thread bool :=
  s ← get_state;
  '(initial_algo, initial_pop) ← lift (_load_pagmo_pop_and_algo s.(isl));
  _ ← socket_set_routing_id u.(_islandId);
  _ ← socket_connect "ipc://distributed_controller_islands_socket";
  _ ← socket_send (client_socket_send_object ALLOCATE_WORK
        (mk_work_container initial_algo initial_pop u.(_preferredWorkerId) u.(_cycleCount)));
  await_results.

(** [e.what()] *)
Definition exn_what (e : exn) : string :=
  match e with
  | runtime_error w | out_of_range w | invalid_argument w | ios_failure w | archive_exception w | spdlog_ex w => w
  | std_exception => "std::exception"
  end.

(** [run_evolve]: [impl] on a thread of its own, joined; whatever it throws is
    thrown again as a [std::runtime_error]. *)
Definition run_evolve (u : distributed_island) : M island_thread bool :=
  try_catch (impl u) (λ e,
    throw (runtime_error
      ("Aborting distributed island, the thread has thrown an exception: " +:+ exn_what e))).

(** ** Properties *)

Context {PIL : PagmoIslandLaws} {AL : ArchiveLaws (work_container algorithm population)}.

Definition thread_safe (i : island) : Prop :=
  thread_safety_basic ≤ algorithm_thread_safety (get_algorithm i) ∧
  thread_safety_basic ≤ problem_thread_safety (get_problem (get_population i)).

Lemma load_thread_safe i :
  thread_safe i → _load_pagmo_pop_and_algo i = Ret (get_algorithm i, get_population i).
Proof.
  intros [Ha Hp]. unfold _load_pagmo_pop_and_algo.
  rewrite (proj2 (Z.ltb_ge _ _)) by done. by rewrite (proj2 (Z.ltb_ge _ _)) by done.
Qed.

Lemma load_not_thread_safe i :
  ¬ thread_safe i → ∃ what, _load_pagmo_pop_and_algo i = Throw (invalid_argument what).
Proof.
  intros Hn. unfold _load_pagmo_pop_and_algo.
  destruct (_ <? _) eqn:E1; [by eexists|]. apply Z.ltb_ge in E1.
  destruct (_ <? _) eqn:E2; [by eexists|]. apply Z.ltb_ge in E2. by destruct Hn.
Qed.

(** The one message an island sends: its algorithm, its population, the worker
    it prefers and the number of cycles, recoverable by the controller. *)
Definition request_frames (u : distributed_island) (i : island) : list frame :=
  client_socket_send_object ALLOCATE_WORK
    (mk_work_container (get_algorithm i) (get_population i) u.(_preferredWorkerId) u.(_cycleCount)).

(** The state after the request is sent. *)
Definition requested (u : distributed_island) (s : island_thread) : island_thread :=
  {| isl := s.(isl); routing_id := Some u.(_islandId);
     endpoints := s.(endpoints) ++ ["ipc://distributed_controller_islands_socket"%string];
     sent_frames := s.(sent_frames) ++ request_frames u s.(isl); arriving := s.(arriving) |}.

Lemma impl_requests u s :
  thread_safe s.(isl) → impl u s = await_results (requested u s).
Proof.
  intros Hs. unfold impl. run_simpl. rewrite load_thread_safe by done. run_simpl. done.
Qed.

(** C12. A reply with results: the island's population and algorithm become those of
    the reply, and exactly the request was sent. *)
Theorem run_evolve_result u s wc rest :
  thread_safe s.(isl) →
  s.(arriving) = dealer_socket_send WORK_RESULTS (vector_serialize wc) ++ rest →
  ∃ s', run_evolve u s = (Ret true, s') ∧
    get_population s'.(isl) = wc.(pop) ∧ get_algorithm s'.(isl) = wc.(algo) ∧
    s'.(sent_frames) = s.(sent_frames) ++ request_frames u s.(isl) ∧ s'.(arriving) = rest.
Proof.
  intros Hs Harr. unfold run_evolve, try_catch. rewrite impl_requests by done.
  unfold await_results. rewrite bind_run. unfold socket_receive. cbn [requested arriving].
  rewrite Harr. change (dealer_socket_receive _)
    with (Received (WORK_RESULTS, vector_serialize wc) rest).
  cbn beta iota. destruct (decide (WORK_RESULTS ≠ WORK_RESULTS)) as [|_]; [done|].
  rewrite deserialize_serialize. run_simpl.
  eexists. split; [done|]. cbn. by rewrite get_population_set_algorithm, get_set_population, get_set_algorithm.
Qed.

(** No usable result arrives: nothing arrives, or a message of another type, or
    a payload that is no container. *)
Definition no_result (q : list frame) : Prop :=
  match dealer_socket_receive q with
  | Received (WORK_RESULTS, binary) _ =>
      ∃ e, vector_deserialize (A := work_container algorithm population) binary = Throw e
  | Received _ _ | Blocked => True
  | BadFrame _ => False
  end.

Definition rethrown (what : string) : exn :=
  runtime_error ("Aborting distributed island, the thread has thrown an exception: " +:+ what).

Lemma run_evolve_unsafe u s :
  ¬ thread_safe s.(isl) → ∃ what, run_evolve u s = (Throw (rethrown what), s).
Proof.
  intros Hn. destruct (load_not_thread_safe _ Hn) as [what E].
  exists what. unfold run_evolve, try_catch, impl. run_simpl. rewrite E. run_simpl. done.
Qed.

(** Otherwise the island is unchanged: it waits for a reply that does not come,
    or [run_evolve] throws a [runtime_error] that carries the cause; when the
    algorithm or the problem is not thread safe, nothing is sent. *)
Theorem run_evolve_no_result u s :
  ¬ thread_safe s.(isl) ∨ no_result s.(arriving) →
  ∃ s', s'.(isl) = s.(isl) ∧
    (thread_safe s.(isl) ∨ s'.(sent_frames) = s.(sent_frames)) ∧
    (run_evolve u s = (Ret false, s') ∧ dealer_socket_receive s.(arriving) = Blocked ∨
     ∃ what, run_evolve u s = (Throw (rethrown what), s')).
Proof.
  intros Hor. assert (Decision (thread_safe s.(isl))) as Hdec by (unfold thread_safe; apply _).
  destruct Hdec as [Hs|Hn].
  2: { destruct (run_evolve_unsafe u s Hn) as [what E]. exists s. eauto 7. }
  destruct Hor as [|Hr]; [done|]. unfold run_evolve, try_catch. rewrite impl_requests by done.
  unfold await_results. rewrite bind_run. unfold socket_receive. cbn [requested arriving].
  unfold no_result in Hr. destruct (dealer_socket_receive _) as [[type binary] rest| |f]; [| |done].
  2: { eexists. split; [|split; [by left|left; split; [reflexivity|done]]]. done. }
  destruct (decide (type ≠ WORK_RESULTS)) as [Hne|He].
  - run_simpl. eexists. split; [|split; [by left|right; eexists; reflexivity]]. done.
  - assert (type = WORK_RESULTS) as -> by (by destruct (decide (type = WORK_RESULTS))).
    destruct Hr as [e He']. rewrite He'. run_simpl.
    eexists. split; [|split; [by left|right; eexists; reflexivity]]. done.
Qed.
End Island.
