(* ===== verification/PopulationTools.v ===== *)
(** * logic/include/population_tools.h: merging and selecting individuals *)
From Stdlib Require Import Ascii.
From S2P Require Import Prelude Doubles DoubleOrder Pagmo.

(** [idx.resize(n)] on a vector of indices: new elements are 0. *)
Definition resize (n : nat) (idx : list nat) : list nat :=
  take n idx ++ replicate (n - length idx) 0%nat.

(** [v[i]] on a vector. *)
Definition index {A} (l : list A) (i : nat) : outcome A :=
  match l !! i with
  | Some x => Ret x
  | None => Crash (undefined_behaviour "vector index out of range")
  end.

(** [v.at(i)] *)
Definition at_ {A} (l : list A) (i : nat) : outcome A :=
  match l !! i with
  | Some x => Ret x
  | None => Throw (out_of_range "vector::_M_range_check")
  end.

Definition dquote : string := String (ascii_of_nat 34) "".

Section PopulationTools.
Context {PG : Pagmo} {PS : PagmoSort} {SS : StdSort}.

(** [merge_populations(archi)]: an archipelago is its islands' populations. *)
Definition merge_populations (archi : list population) : list vector_double * list vector_double :=
  foldl (λ acc isl, (acc.1 ++ get_x isl, acc.2 ++ get_f isl)) ([], []) archi.

(** [fitness[a][0]]; 0 stands for the access out of bounds, see below. *)
Definition first_fitness (fitness : list vector_double) (a : nat) : double :=
  nth 0 (nth a fitness []) double_zero.

Definition select_best_N_so (prob : problem) (fitness : list vector_double) (N : nat) :
    outcome (list nat) :=
  if get_nc prob =? 0 then
    if forallb (λ f, negb (bool_decide (f = []))) fitness || (length fitness <=? 1)%nat then
      let idx := seq 0 (length fitness) in
      let idx := std_sort (λ a b, double_ltb (first_fitness fitness a) (first_fitness fitness b)) idx in
      Ret (resize N idx)
    else Crash (undefined_behaviour "fitness[a][0] of an empty vector")
  else
    idx ← sort_population_con fitness (get_nec prob) (get_c_tol prob);
    Ret (resize N idx).

(** [newPop.set_x(i, allPopulations[idx])] for each [i], from [i]. *)
Fixpoint fill_population (i : nat) (idxs : list nat) (allPopulations : list vector_double)
    (p : population) : outcome population :=
  match idxs with
  | [] => Ret p
  | idx :: idxs =>
      x ← index allPopulations idx;
      p ← set_x i x p;
      fill_population (S i) idxs allPopulations p
  end.

(** [random] is what [pagmo::random_device::next()] returns. *)
Definition build_new_population (prob : problem) (allPopulations : list vector_double)
    (selectedIndexes : list nat) (seed : option Z) (random : Z) : outcome population :=
  let newPop := population_new prob (Z.of_nat (length selectedIndexes)) (default random seed) in
  fill_population 0 selectedIndexes allPopulations newPop.

Definition get_best_N_individuals_indexes (prob : problem) (allFitness : list vector_double)
    (N : nat) : outcome (list nat) :=
  if 1 <? get_nobj prob then
    sortedIndexes ← sort_population_mo allFitness;
    Ret (take (Nat.min N (length sortedIndexes)) sortedIndexes)
  else select_best_N_so prob allFitness N.

Definition select_best_N_into_new_population (prob : problem)
    (allPopulations allFitness : list vector_double) (N : nat) (seed : option Z) (random : Z) :
    outcome population :=
  bestIndividualIndexes ← get_best_N_individuals_indexes prob allFitness N;
  build_new_population prob allPopulations bestIndividualIndexes seed random.

Definition select_best_N_individuals (prob : problem)
    (allPopulations allFitness : list vector_double) (N : nat) : outcome (list vector_double) :=
  bestIndividualIndexes ← get_best_N_individuals_indexes prob allFitness N;
  mapM (index allPopulations) bestIndividualIndexes.

Definition select_best_individual (prob : problem)
    (allPopulations allFitness : list vector_double) : outcome vector_double :=
  best ← select_best_N_individuals prob allPopulations allFitness 1;
  at_ best 0.

(** ** Printing: [to_string] is [std::to_string(double)] *)

Context (to_string : double → string).

Definition drop_last (s : string) : string := String.substring 0 (String.length s - 1) s.

Definition double_vector_to_str (vec : vector_double) : outcome string :=
  let out := foldl (λ out n, out +:+ (to_string n +:+ ", ")) "[" vec in
  let out := drop_last out in
  if String.eqb out "" then Crash (undefined_behaviour "back() of an empty string")
  else Ret (drop_last out +:+ "]").

Fixpoint csv_elements (vec : vector_double) : string :=
  match vec with
  | [] => ""
  | [n] => to_string n
  | n :: vec => to_string n +:+ ";" +:+ csv_elements vec
  end.

Definition double_vector_to_csv (vec : vector_double) : string :=
  dquote +:+ csv_elements vec +:+ dquote.

(** ** Lemmas *)

Context {PL : PagmoLaws} {PSL : PagmoSortLaws}.

Lemma merge_populations_concat archi :
  merge_populations archi = (concat (get_x <$> archi), concat (get_f <$> archi)).
Proof.
  unfold merge_populations.
  assert (∀ a b, foldl (λ acc isl, (acc.1 ++ get_x isl, acc.2 ++ get_f isl)) (a, b) archi =
    (a ++ concat (get_x <$> archi), b ++ concat (get_f <$> archi))) as H; [|by rewrite H].
  induction archi as [|p archi IH]; intros a b; cbn; [by rewrite !app_nil_r|].
  by rewrite IH, <- !app_assoc.
Qed.

(** The merged vectors are parallel: one fitness vector per individual. *)
Lemma merge_populations_parallel archi :
  length (merge_populations archi).2 = length (merge_populations archi).1.
Proof.
  rewrite merge_populations_concat. cbn. induction archi as [|p archi IH]; [done|].
  cbn. rewrite !length_app, IH, fitness_per_individual. done.
Qed.

Lemma resize_short n idx : (n ≤ length idx)%nat → resize n idx = take n idx.
Proof.
  intros H. unfold resize. replace (n - length idx)%nat with 0%nat by lia. apply app_nil_r.
Qed.

Lemma index_lookup {A} (l : list A) i x : l !! i = Some x → index l i = Ret x.
Proof. unfold index. by intros ->. Qed.

Lemma fill_population_run idxs xs all p done_ rest :
  all_compatible (get_problem p) all →
  get_x p = done_ ++ rest → length rest = length idxs →
  mapM (λ i, all !! i) idxs = Some xs →
  ∃ p', fill_population (length done_) idxs all p = Ret p' ∧ get_x p' = done_ ++ xs ∧
    get_problem p' = get_problem p ∧ get_seed p' = get_seed p.
Proof.
  revert xs p done_ rest. induction idxs as [|i idxs IH]; intros xs p dn rest Hc Hx Hlen Hm.
  - destruct rest; [|done]. injection Hm as <-. exists p. by rewrite Hx.
  - destruct rest as [|r rest]; [done|]. cbn in Hm.
    destruct (all !! i) as [x|] eqn:Ei; [|done]. cbn in Hm.
    destruct (mapM _ idxs) as [xs'|] eqn:Em; [|done]. injection Hm as <-.
    cbn [fill_population]. rewrite (index_lookup _ _ _ Ei). cbn [mbind outcome_bind].
    destruct (set_x_in_range (length dn) x p) as (p1 & -> & Hx1 & _ & Hp1 & Hs1).
    { rewrite Hx, length_app. cbn. lia. }
    { by eapply all_compatible_lookup. }
    cbn [mbind outcome_bind]. rewrite Hx, insert_app_r_alt, Nat.sub_diag in Hx1 by lia.
    destruct (IH xs' p1 (dn ++ [x]) rest) as (p' & E & Hx' & Hp' & Hs').
    { by rewrite Hp1. }
    { by rewrite Hx1, <- app_assoc. }
    { cbn in Hlen. lia. }
    { done. }
    rewrite length_app in E. cbn in E. rewrite Nat.add_1_r in E.
    exists p'. rewrite E, Hx', <- app_assoc. split_and!; [done|done|congruence|congruence].
Qed.

(** [build_new_population] holds exactly the selected individuals, in order. *)
Lemma build_new_population_run prob all idxs xs seed random :
  all_compatible prob all → mapM (λ i, all !! i) idxs = Some xs →
  ∃ p, build_new_population prob all idxs seed random = Ret p ∧ get_x p = xs ∧
    get_problem p = prob ∧ get_seed p = default random seed.
Proof.
  intros Hc Hm. unfold build_new_population.
  set (p0 := population_new prob (Z.of_nat (length idxs)) (default random seed)).
  pose proof (population_new_size prob (Z.of_nat (length idxs)) (default random seed) ltac:(lia)) as Hs.
  unfold population_size in Hs. fold p0 in Hs.
  destruct (fill_population_run idxs xs all p0 [] (get_x p0)) as (p & E & Hx & Hp & Hsd);
    [by unfold p0; rewrite population_new_problem|done|lia|done|].
  exists p. split_and!; [exact E|exact Hx| |].
  - rewrite Hp. apply population_new_problem.
  - rewrite Hsd. apply population_new_seed.
Qed.

Lemma mapM_lookup_total {A} (l : list A) idxs :
  Forall (λ i, i < length l)%nat idxs → ∃ xs, mapM (λ i, l !! i) idxs = Some xs ∧
    length xs = length idxs ∧ (∀ x, x ∈ xs ↔ ∃ i, i ∈ idxs ∧ l !! i = Some x).
Proof.
  induction 1 as [|i idxs Hi _ (xs & E & Hl & Hin)]; [by exists []; split_and!; set_solver|].
  destruct (lookup_lt_is_Some_2 l i Hi) as [x Hx]. exists (x :: xs). cbn. rewrite Hx, E.
  split_and!; [done|cbn; lia|]. intros y. rewrite elem_of_cons, Hin. split.
  - intros [->|(j & Hj & Hy)]; [exists i; by split; [left|]|exists j; by split; [right|]].
  - intros (j & [->|Hj]%elem_of_cons & Hy); [left; congruence|right; eauto].
Qed.

(** ** What is selected *)

(** Every individual has a first fitness value, a number. *)
Definition valid_fitness (fitness : list vector_double) : Prop :=
  Forall (λ f, f ≠ [] ∧ is_nan (nth 0 f double_zero) = false) fitness.

(** [a] is no worse than [b]. *)
Definition no_worse (fitness : list vector_double) (a b : nat) : Prop :=
  double_ltb (first_fitness fitness b) (first_fitness fitness a) = false.

(** The best [n] of the individuals [0 .. length fitness - 1]. *)
Definition best_indices (fitness : list vector_double) (n : nat) (idx : list nat) : Prop :=
  length idx = n ∧ NoDup idx ∧ Forall (λ i, i < length fitness)%nat idx ∧
  ∀ a b, a ∈ idx → (b < length fitness)%nat → b ∉ idx → no_worse fitness a b.

Lemma first_fitness_number fitness a :
  valid_fitness fitness → a ∈ seq 0 (length fitness) → is_nan (first_fitness fitness a) = false.
Proof.
  intros Hv Ha. apply elem_of_seq in Ha as [_ Ha]. unfold first_fitness.
  destruct (lookup_lt_is_Some_2 fitness a ltac:(lia)) as [f Hf].
  rewrite (nth_lookup_Some _ _ _ _ Hf). by apply (Forall_lookup_1 _ _ _ _ Hv Hf).
Qed.

Lemma sorted_prefix_best fitness idx n :
  idx ≡ₚ seq 0 (length fitness) → (n ≤ length fitness)%nat →
  ascending (λ a b, double_ltb (first_fitness fitness a) (first_fitness fitness b)) idx →
  best_indices fitness n (take n idx).
Proof.
  intros Hp Hn Hs. assert (length idx = length fitness) as Hl.
  { rewrite Hp. apply length_seq. }
  assert (NoDup idx) as Hnd by (rewrite Hp; apply NoDup_seq).
  split_and!.
  - rewrite length_take. lia.
  - eapply sublist_NoDup; [exact Hnd|]. apply sublist_take.
  - apply list.Forall_forall. intros i Hi. apply elem_of_take in Hi as (j & Hj & _).
    apply list_elem_of_lookup_2 in Hj. rewrite Hp in Hj. apply elem_of_seq in Hj. lia.
  - intros a b Ha Hb Hnb. apply elem_of_take in Ha as (i & Hi & Hin).
    assert (b ∈ idx) as [j Hj]%list_elem_of_lookup.
    { rewrite Hp. apply elem_of_seq. lia. }
    apply (Hs i j a b); [|done|done]. destruct (decide (j < n)%nat); [|lia].
    destruct Hnb. apply elem_of_take. eauto.
Qed.

Lemma valid_nonempty fitness :
  valid_fitness fitness → forallb (λ f, negb (bool_decide (f = []))) fitness = true.
Proof.
  intros Hv. apply forallb_forall. intros f Hf. apply list_elem_of_In in Hf.
  apply list_elem_of_lookup in Hf as [i Hi]. pose proof (Forall_lookup_1 _ _ _ _ Hv Hi) as [Hne _].
  by rewrite bool_decide_eq_false_2.
Qed.

Lemma so_sort prob fitness N :
  get_nc prob = 0 → valid_fitness fitness →
  ∃ idx, idx ≡ₚ seq 0 (length fitness) ∧
    ascending (λ a b, double_ltb (first_fitness fitness a) (first_fitness fitness b)) idx ∧
    select_best_N_so prob fitness N = Ret (resize N idx).
Proof.
  intros Hnc Hv. unfold select_best_N_so. rewrite Hnc, valid_nonempty by done. cbn [Z.eqb orb].
  assert (strict_weak (λ a b, double_ltb (first_fitness fitness a) (first_fitness fitness b))
            (seq 0 (length fitness))) as Hsw.
  { apply double_ltb_strict_weak. intros a. by apply first_fitness_number. }
  eexists. split_and!; [by apply std_sort_permutation| |reflexivity].
  intros i j a b. by apply std_sort_sorted.
Qed.

(** The individuals an unconstrained single-objective selection returns. *)
Lemma select_best_N_so_best prob fitness N :
  get_nc prob = 0 → valid_fitness fitness → (N ≤ length fitness)%nat →
  ∃ idx, select_best_N_so prob fitness N = Ret idx ∧ best_indices fitness N idx.
Proof.
  intros Hnc Hv HN. destruct (so_sort prob fitness N Hnc Hv) as (idx & Hp & Hs & E).
  exists (take N idx). rewrite E, resize_short by (rewrite Hp, length_seq; lia).
  split; [done|]. by apply sorted_prefix_best.
Qed.

(** More individuals requested than there are: the rest is individual 0 again,
    whatever its rank. *)
Theorem select_best_N_so_pads prob fitness N :
  get_nc prob = 0 → valid_fitness fitness → (length fitness < N)%nat →
  ∃ idx, select_best_N_so prob fitness N =
           Ret (idx ++ replicate (N - length fitness) 0%nat) ∧
         idx ≡ₚ seq 0 (length fitness).
Proof.
  intros Hnc Hv HN. destruct (so_sort prob fitness N Hnc Hv) as (idx & Hp & Hs & E).
  exists idx. rewrite E. split; [|done]. unfold resize.
  assert (length idx = length fitness) as Hl by (rewrite Hp; apply length_seq).
  by rewrite take_ge, Hl by lia.
Qed.

Lemma all_indices_lookup {A} (l : list A) idx n :
  Forall (λ i, i < n)%nat idx → length l = n → Forall (λ i, i < length l)%nat idx.
Proof. by intros H ->. Qed.

(** C25. Selecting into a new population, for an unconstrained single-objective
    problem: its individuals are the best [N] ones, each taken once, best
    first; nothing of the random initial population is left. *)
Theorem selection_is_best prob allPopulations allFitness N seed random :
  get_nobj prob = 1 → get_nc prob = 0 → valid_fitness allFitness → all_compatible prob allPopulations →
  length allPopulations = length allFitness → (N ≤ length allFitness)%nat →
  ∃ p idx,
    select_best_N_into_new_population prob allPopulations allFitness N seed random = Ret p ∧
    best_indices allFitness N idx ∧
    mapM (λ i, allPopulations !! i) idx = Some (get_x p) ∧
    get_problem p = prob ∧ get_seed p = default random seed.
Proof.
  intros Hobj Hnc Hv Hc Hlen HN. unfold select_best_N_into_new_population, get_best_N_individuals_indexes.
  rewrite Hobj. cbn [Z.ltb].
  destruct (select_best_N_so_best prob allFitness N Hnc Hv HN) as (idx & E & Hbest).
  change (1 <? 1) with false. cbv iota. rewrite E. cbn [mbind outcome_bind].
  destruct (mapM_lookup_total allPopulations idx) as (xs & Em & _).
  { eapply all_indices_lookup; [apply Hbest|done]. }
  destruct (build_new_population_run prob allPopulations idx xs seed random Hc Em) as (p & Ep & Hx & Hp & Hs).
  exists p, idx. split_and!; [done|done|by rewrite Hx|done|done].
Qed.

(** The library's sorts return on this problem and fitness. *)
Record sorts_return (prob : problem) (allFitness : list vector_double) : Prop := {
  so_valid : get_nobj prob = 1 → get_nc prob = 0 → valid_fitness allFitness;
  mo_sorts : 1 < get_nobj prob → ∃ idx, sort_population_mo allFitness = Ret idx;
  con_sorts : get_nobj prob = 1 → get_nc prob ≠ 0 →
    ∃ idx, sort_population_con allFitness (get_nec prob) (get_c_tol prob) = Ret idx
}.

(** [N] different indices of individuals. *)
Definition distinct_indices (n N : nat) (idx : list nat) : Prop :=
  length idx = N ∧ NoDup idx ∧ Forall (λ i, i < n)%nat idx.

Lemma permutation_length n (s : list nat) : s ≡ₚ seq 0 n → length s = n.
Proof. intros Hs. rewrite Hs. apply length_seq. Qed.

Lemma take_distinct n N s :
  s ≡ₚ seq 0 n → (N ≤ n)%nat → distinct_indices n N (take N s).
Proof.
  intros Hs HN. pose proof (permutation_length n s Hs). split_and!.
  - rewrite length_take. lia.
  - eapply sublist_NoDup; [|apply sublist_take]. rewrite Hs. apply NoDup_seq.
  - apply list.Forall_forall. intros i Hi. apply elem_of_take in Hi as (j & Hj & _).
    apply list_elem_of_lookup_2 in Hj. rewrite Hs in Hj. apply elem_of_seq in Hj. lia.
Qed.

Lemma best_indexes_distinct prob allFitness N :
  sorts_return prob allFitness → 1 ≤ get_nobj prob → (N ≤ length allFitness)%nat →
  ∃ idx, get_best_N_individuals_indexes prob allFitness N = Ret idx ∧
    distinct_indices (length allFitness) N idx.
Proof.
  intros Hs Hobj HN. unfold get_best_N_individuals_indexes. destruct (1 <? get_nobj prob) eqn:Eo.
  - apply Z.ltb_lt in Eo. destruct (mo_sorts _ _ Hs Eo) as [s Es]. rewrite Es.
    cbn [mbind outcome_bind]. pose proof (sort_mo_permutation _ _ Es) as Hp.
    eexists. split; [reflexivity|]. rewrite (permutation_length _ _ Hp), Nat.min_l by lia.
    by apply take_distinct.
  - apply Z.ltb_ge in Eo. destruct (decide (get_nc prob = 0)) as [Hnc|Hnc].
    + destruct (select_best_N_so_best prob allFitness N Hnc) as (idx & E & ? & ? & ? & _);
        [apply Hs; lia|done|]. exists idx. by split_and!.
    + destruct (con_sorts _ _ Hs ltac:(lia) Hnc) as [s Es]. unfold select_best_N_so.
      rewrite (proj2 (Z.eqb_neq _ _) Hnc), Es. cbn [mbind outcome_bind].
      pose proof (sort_con_permutation _ _ _ _ Es) as Hp. exists (resize N s). split; [done|].
      rewrite resize_short by (rewrite (permutation_length _ _ Hp); lia). by apply take_distinct.
Qed.

Lemma best_selection prob allPopulations allFitness N seed random :
  sorts_return prob allFitness → 1 ≤ get_nobj prob → all_compatible prob allPopulations →
  length allPopulations = length allFitness → (N ≤ length allFitness)%nat →
  ∃ p idx,
    select_best_N_into_new_population prob allPopulations allFitness N seed random = Ret p ∧
    distinct_indices (length allFitness) N idx ∧
    mapM (λ i, allPopulations !! i) idx = Some (get_x p) ∧
    population_size p = Z.of_nat N ∧ get_problem p = prob.
Proof.
  intros Hs Hobj Hc Hlen HN.
  destruct (best_indexes_distinct prob allFitness N Hs Hobj HN) as (idx & E & Hd).
  pose proof Hd as (Hl & Hnd & Hin).
  unfold select_best_N_into_new_population. rewrite E. cbn [mbind outcome_bind].
  destruct (mapM_lookup_total allPopulations idx) as (xs & Em & Hxs & _).
  { by eapply all_indices_lookup. }
  destruct (build_new_population_run prob allPopulations idx xs seed random Hc Em) as (p & Ep & Hx & Hp & _).
  exists p, idx. split_and!; [done|done|by rewrite Hx| |done].
  unfold population_size. rewrite Hx. lia.
Qed.

(** For any problem: the new population consists of [N] different individuals
    of the old ones (given at least [N]), whenever the library's sort returns. *)
Theorem selection_of_existing prob allPopulations allFitness N seed random :
  sorts_return prob allFitness → 1 ≤ get_nobj prob → all_compatible prob allPopulations →
  length allPopulations = length allFitness → (N ≤ length allFitness)%nat →
  ∃ p idx,
    select_best_N_into_new_population prob allPopulations allFitness N seed random = Ret p ∧
    distinct_indices (length allFitness) N idx ∧
    mapM (λ i, allPopulations !! i) idx = Some (get_x p) ∧
    population_size p = Z.of_nat N ∧ get_problem p = prob.
Proof. apply best_selection. Qed.
End PopulationTools.
