(* ===== verification/WorkerLogic.v ===== *)
(** * logic/distributed_worker.cpp: the work of the worker thread

    Splitting a population among the islands of a local archipelago, evolving
    it, and selecting the best individuals for the answer. *)
From S2P Require Import Prelude Doubles DoubleOrder Messages Pagmo PopulationTools.

Section WorkerLogic.
Context {PG : Pagmo} {PS : PagmoSort} {SS : StdSort} {PE : PagmoEvolve}.

(** [_compute_optimal_island_count]: 0 means that the count is not known. *)
Definition _compute_optimal_island_count (hardware_concurrency : Z) : Z :=
  if hardware_concurrency =? 0 then 8 else hardware_concurrency.

(** ** [_split_population_for_islands] *)

(** The size each island gets before the rest is distributed. *)
Definition base_size (minIslandPopSize totalPopSize islandCount : Z) : Z :=
  let baseSize := Z.max minIslandPopSize (totalPopSize / islandCount) in
  let baseSize := baseSize - baseSize mod 4 in
  if baseSize =? 0 then 4 else baseSize.

(** The inner loop from [j]: individuals are copied until the island is full or
    the population is exhausted. [n] iterations are left. *)
Fixpoint copy_individuals (n j : nat) (xs : list vector_double) (mainPopIndex : nat)
    (islandPop : population) : outcome (population * nat) :=
  match n with
  | O => Ret (islandPop, mainPopIndex)
  | S n =>
      if decide (length xs ≤ mainPopIndex)%nat then Ret (islandPop, mainPopIndex)
      else
        x ← index xs mainPopIndex;
        islandPop ← set_x j x islandPop;
        copy_individuals n (S j) xs (S mainPopIndex) islandPop
  end.

(** The outer loop from [i]; [n] islands are left. *)
Fixpoint split_loop (n : nat) (i : Z) (pop : population) (baseSize remainingPop : Z)
    (mainPopIndex : nat) : outcome (list population) :=
  match n with
  | O => Ret []
  | S n =>
      let '(currentSize, remainingPop) :=
        if 4 <=? remainingPop then (baseSize + 4, remainingPop - 4) else (baseSize, remainingPop) in
      let islandPop := population_new (get_problem pop) currentSize (w32 (get_seed pop + i)) in
      '(islandPop, mainPopIndex) ←
        copy_individuals (Z.to_nat currentSize) 0 (get_x pop) mainPopIndex islandPop;
      islandPops ← split_loop n (i + 1) pop baseSize remainingPop mainPopIndex;
      Ret (islandPop :: islandPops)
  end.

Definition _split_population_for_islands (minIslandPopSize : Z) (pop : population)
    (islandCount : Z) : outcome (list population) :=
  let totalPopSize := population_size pop in
  if islandCount =? 0 then
    Throw (runtime_error "_split_population_for_islands - Cannot split among 0 islands")
  else
    let baseSize := base_size minIslandPopSize totalPopSize islandCount in
    let assignedPop := w64 (baseSize * islandCount) in
    let remainingPop := if assignedPop <? totalPopSize then totalPopSize - assignedPop else 0 in
    split_loop (Z.to_nat islandCount) 0 pop baseSize remainingPop 0.

(** ** The two workers: what they send back as [WORK_RESULTS] *)

Definition _single_threaded_worker (algo : algorithm) (pop : population) :
    outcome (work_container algorithm population) :=
  new_pop ← algorithm_evolve algo pop;
  Ret (work_container_of algo new_pop).

Definition _archipelago_based_worker (hardware_concurrency minIslandPopSize random : Z)
    (algo : algorithm) (pop : population) (archiCycleCount : Z) :
    outcome (work_container algorithm population) :=
  let islandCount := _compute_optimal_island_count hardware_concurrency in
  islandPops ← _split_population_for_islands minIslandPopSize pop islandCount;
  archi ← archipelago_evolve algo islandPops archiCycleCount;
  let '(allPopulations, allFitnesses) := merge_populations archi.*2 in
  firstIsl ← index archi 0;
  let firstIslPop := firstIsl.2 in
  newPop ← select_best_N_into_new_population (get_problem firstIslPop) allPopulations allFitnesses
             (Z.to_nat (population_size pop)) (Some (get_seed firstIslPop)) random;
  Ret (work_container_of firstIsl.1 newPop).

(** ** Specification of the split *)

(** Sizes of the islands. *)
Fixpoint island_sizes (n : nat) (baseSize remainingPop : Z) : list nat :=
  match n with
  | O => []
  | S n => if 4 <=? remainingPop then Z.to_nat (baseSize + 4) :: island_sizes n baseSize (remainingPop - 4)
           else Z.to_nat baseSize :: island_sizes n baseSize remainingPop
  end.

(** Cut a list into pieces of the given sizes. *)
Fixpoint chunks {A} (sizes : list nat) (xs : list A) : list (list A) :=
  match sizes with
  | [] => []
  | n :: sizes => take n xs :: chunks sizes (drop n xs)
  end.

(** An island of [size] individuals that starts with [chunk]. *)
Definition island_of (prob : problem) (size : nat) (chunk : list vector_double) (isl : population) : Prop :=
  chunk `prefix_of` get_x isl ∧ length (get_x isl) = size ∧ get_problem isl = prob.

(** ** Lemmas *)

Context {PL : PagmoLaws}.

Lemma sum_list_cons n l : sum_list (n :: l) = (n + sum_list l)%nat.
Proof. done. Qed.

Lemma concat_chunks {A} sizes (xs : list A) : concat (chunks sizes xs) = take (sum_list sizes) xs.
Proof.
  revert xs. induction sizes as [|n sizes IH]; intros xs; [by rewrite take_0|].
  cbn [chunks concat]. by rewrite sum_list_cons, IH, take_take_drop.
Qed.

Lemma length_island_sizes n b r : length (island_sizes n b r) = n.
Proof.
  revert r. induction n as [|n IH]; intros r; [done|]. cbn.
  destruct (4 <=? r); cbn; by rewrite IH.
Qed.

Lemma individuals_all_compatible p : all_compatible (get_problem p) (get_x p).
Proof. apply list.Forall_forall. intros x. apply individuals_compatible. Qed.

Lemma merged_compatible prob archi :
  Forall (λ isl, get_problem isl = prob) archi → all_compatible prob (merge_populations archi).1.
Proof.
  intros Hp. rewrite merge_populations_concat. cbn [fst]. apply Forall_concat, Forall_fmap.
  revert Hp. apply Forall_impl. intros p <-. apply individuals_all_compatible.
Qed.

(** The copying loop writes the next individuals into the island. *)
Lemma copy_individuals_run n xs m p dn rest :
  all_compatible (get_problem p) xs →
  get_x p = dn ++ rest → length rest = n → (m ≤ length xs)%nat →
  ∃ p', copy_individuals n (length dn) xs m p = Ret (p', Nat.min (m + n) (length xs)) ∧
    (dn ++ take n (drop m xs)) `prefix_of` get_x p' ∧ length (get_x p') = length (get_x p) ∧
    get_problem p' = get_problem p.
Proof.
  revert m p dn rest. induction n as [|n IH]; intros m p dn rest Hc Hx Hl Hm.
  { exists p. cbn. rewrite Nat.min_l by lia. rewrite Nat.add_0_r, app_nil_r.
    split_and!; [done|rewrite Hx; by apply prefix_app_r|done|done]. }
  cbn [copy_individuals]. case_decide as Hd.
  - exists p. rewrite Nat.min_r, drop_ge by lia. rewrite take_nil, app_nil_r.
    split_and!; [do 2 f_equal; lia|rewrite Hx; by apply prefix_app_r|done|done].
  - destruct rest as [|r rest]; [done|].
    destruct (lookup_lt_is_Some_2 xs m) as [x Hxm]; [lia|].
    rewrite (index_lookup _ _ _ Hxm). cbn [mbind outcome_bind].
    destruct (set_x_in_range (length dn) x p) as (p1 & -> & Hx1 & _ & Hp1 & _).
    { rewrite Hx, length_app. cbn. lia. }
    { by eapply all_compatible_lookup. }
    cbn [mbind outcome_bind]. rewrite Hx, insert_app_r_alt, Nat.sub_diag in Hx1 by lia.
    destruct (IH (S m) p1 (dn ++ [x]) rest) as (p' & E & Hpre & Hl' & Hp');
      [by rewrite Hp1|by rewrite Hx1, <- app_assoc|cbn in Hl; lia|lia|].
    rewrite length_app in E. cbn in E. rewrite Nat.add_1_r in E. rewrite E.
    exists p'. split_and!; [by replace (m + S n)%nat with (S m + n)%nat by lia| | |congruence].
    + rewrite (drop_S _ _ _ Hxm). cbn [take]. by rewrite <- app_assoc in Hpre.
    + rewrite Hl', Hx1, Hx, !length_app. done.
Qed.

Lemma island_run prob size seed xs m :
  all_compatible prob xs →
  0 ≤ size → (m ≤ length xs)%nat →
  ∃ p', copy_individuals (Z.to_nat size) 0 xs m (population_new prob size seed) =
          Ret (p', Nat.min (m + Z.to_nat size) (length xs)) ∧
    island_of prob (Z.to_nat size) (take (Z.to_nat size) (drop m xs)) p'.
Proof.
  intros Hc Hs Hm. pose proof (population_new_size prob size seed Hs) as Hsz.
  unfold population_size in Hsz.
  destruct (copy_individuals_run (Z.to_nat size) xs m (population_new prob size seed) []
    (get_x (population_new prob size seed))) as (p' & E & Hpre & Hl & Hp);
    [by rewrite population_new_problem|done|lia|done|].
  exists p'. split; [exact E|]. split_and!; [exact Hpre|lia|].
  rewrite Hp. apply population_new_problem.
Qed.

Lemma drop_min {A} k (l : list A) : drop (Nat.min k (length l)) l = drop k l.
Proof.
  destruct (decide (k ≤ length l)%nat); [by rewrite Nat.min_l by lia|].
  by rewrite Nat.min_r, !drop_ge by lia.
Qed.

Lemma split_loop_run n i pop b r m :
  0 ≤ b → (m ≤ length (get_x pop))%nat →
  ∃ isls, split_loop n i pop b r m = Ret isls ∧
    Forall2 (λ sc isl, island_of (get_problem pop) sc.1 sc.2 isl)
      (zip (island_sizes n b r) (chunks (island_sizes n b r) (drop m (get_x pop)))) isls.
Proof.
  intros Hb. revert i r m. induction n as [|n IH]; intros i r m Hm; [by exists []|].
  cbn [split_loop island_sizes].
  assert (∀ size r',  0 ≤ size → ∃ isls,
    ('(islandPop, mainPopIndex) ←
       copy_individuals (Z.to_nat size) 0 (get_x pop) m
         (population_new (get_problem pop) size (w32 (get_seed pop + i)));
     islandPops ← split_loop n (i + 1) pop b r' mainPopIndex;
     Ret (islandPop :: islandPops)) = Ret isls ∧
    Forall2 (λ sc isl, island_of (get_problem pop) sc.1 sc.2 isl)
      (zip (Z.to_nat size :: island_sizes n b r')
         (chunks (Z.to_nat size :: island_sizes n b r') (drop m (get_x pop)))) isls) as Hstep.
  { intros size r' Hs.
    destruct (island_run (get_problem pop) size (w32 (get_seed pop + i)) (get_x pop) m (individuals_all_compatible pop) Hs Hm)
      as (p' & -> & Hisl). cbn [mbind outcome_bind].
    destruct (IH (i + 1) r' (Nat.min (m + Z.to_nat size) (length (get_x pop)))) as (isls & -> & Hf); [lia|].
    exists (p' :: isls). split; [done|]. rewrite drop_min in Hf. cbn [chunks zip].
    rewrite drop_drop. by constructor. }
  destruct (4 <=? r); apply Hstep; lia.
Qed.

Lemma island_sizes_distribute n b r :
  0 ≤ b → 0 ≤ r → Z.of_nat (sum_list (island_sizes n b r)) = b * Z.of_nat n + 4 * Z.min (Z.of_nat n) (r / 4).
Proof.
  intros Hb. revert r. induction n as [|n IH]; intros r Hr; [cbn; Z.div_mod_to_equations; lia|].
  cbn [island_sizes]. destruct (4 <=? r) eqn:E;
    rewrite sum_list_cons, Nat2Z.inj_add, Z2Nat.id, IH by lia.
  - apply Z.leb_le in E. assert (r / 4 = (r - 4) / 4 + 1) as ->; [|lia].
    Z.div_mod_to_equations. lia.
  - apply Z.leb_gt in E. rewrite (Z.div_small r) by lia. lia.
Qed.

Lemma island_sizes_each n b r s :
  0 ≤ b → s ∈ island_sizes n b r → Z.of_nat s = b ∨ Z.of_nat s = b + 4.
Proof.
  intros Hb. revert r. induction n as [|n IH]; intros r; [by intros ?%elem_of_nil|].
  cbn. destruct (4 <=? r); intros [->|H]%elem_of_cons; (lia || by eapply IH).
Qed.

(** ** Bounds of the base size *)

Lemma base_size_bounds mn T n :
  0 ≤ mn → 0 ≤ T → 0 < n →
  let b := base_size mn T n in
  4 ≤ b ∧ b mod 4 = 0 ∧ mn - 3 ≤ b ∧ T / n - 3 ≤ b ∧ (b ≤ Z.max mn (T / n) ∨ b = 4).
Proof.
  intros Hmn HT Hn b. subst b. unfold base_size.
  pose proof (Z.div_pos T n HT Hn). set (q := T / n) in *. clearbody q.
  set (x := Z.max mn q). assert (0 ≤ x ∧ mn ≤ x ∧ q ≤ x) as (Hx & Hx1 & Hx2) by lia.
  destruct (x - x mod 4 =? 0) eqn:E.
  - apply Z.eqb_eq in E. Z.div_mod_to_equations. lia.
  - apply Z.eqb_neq in E. Z.div_mod_to_equations. lia.
Qed.

Lemma base_size_fits mn T n :
  0 ≤ mn → 0 ≤ T → 0 < n → mn * n < 2 ^ 64 → T < 2 ^ 64 → 4 * n < 2 ^ 64 →
  0 ≤ base_size mn T n * n < 2 ^ 64.
Proof.
  intros Hmn HT Hn H1 H2 H3. destruct (base_size_bounds mn T n Hmn HT Hn) as (Hb & _ & _ & _ & Hub).
  split; [nia|]. pose proof (Z.mul_div_le T n Hn). destruct Hub as [Hub| ->]; [|lia].
  destruct (Z.max_spec mn (T / n)) as [[_ E]|[_ E]]; rewrite E in Hub; nia.
Qed.

(** What is left after the base sizes always fits into the extra fours. *)
Lemma rest_fits mn T n :
  0 ≤ mn → 0 ≤ T → 0 < n →
  base_size mn T n * n < T → (T - base_size mn T n * n) / 4 ≤ n.
Proof.
  intros Hmn HT Hn Hlt. destruct (base_size_bounds mn T n Hmn HT Hn) as (_ & _ & _ & Hq & _).
  set (b := base_size mn T n) in *. clearbody b.
  pose proof (Z.div_mod T n ltac:(lia)). pose proof (Z.mod_pos_bound T n Hn).
  assert (T - b * n < 4 * n) by nia. Z.div_mod_to_equations. lia.
Qed.

(** Number of the population's individuals that are given to some island. *)
Definition individuals_kept (mn T n : Z) : Z :=
  if base_size mn T n * n <? T then T - T mod 4 else T.

Lemma sizes_total mn T n :
  0 ≤ mn → 0 ≤ T → 0 < n →
  let b := base_size mn T n in
  let r := if b * n <? T then T - b * n else 0 in
  Z.min T (Z.of_nat (sum_list (island_sizes (Z.to_nat n) b r))) = individuals_kept mn T n.
Proof.
  intros Hmn HT Hn b r. destruct (base_size_bounds mn T n Hmn HT Hn) as (Hb & Hb4 & _ & _ & _).
  unfold individuals_kept. fold b in Hb, Hb4 |- *. subst r.
  destruct (b * n <? T) eqn:E; [apply Z.ltb_lt in E|apply Z.ltb_ge in E];
    rewrite island_sizes_distribute, Z2Nat.id by lia.
  - pose proof (rest_fits mn T n Hmn HT Hn) as Hf. fold b in Hf. specialize (Hf E).
    rewrite (Z.min_r n) by done.
    assert (∃ k, b = 4 * k) as [k Hk] by (exists (b / 4); Z.div_mod_to_equations; lia).
    assert (T mod 4 = (T - b * n) mod 4) as ->.
    { rewrite Hk. replace (T - 4 * k * n) with (T + (- k * n) * 4) by lia. by rewrite Z_mod_plus_full. }
    pose proof (Z.div_mod (T - b * n) 4 ltac:(lia)). pose proof (Z.mod_pos_bound (T - b * n) 4 ltac:(lia)).
    lia.
  - change (0 / 4) with 0. lia.
Qed.

Lemma length_chunks {A} sizes (xs : list A) : length (chunks sizes xs) = length sizes.
Proof. revert xs. induction sizes as [|s sizes IH]; intros xs; cbn; [done|]. by rewrite IH. Qed.

(** The configurations for which no 64-bit product of the split wraps. *)
Record split_config (mn T n : Z) : Prop := {
  split_min : 0 ≤ mn;
  split_islands : 0 < n;
  split_min_fits : mn * n < 2 ^ 64;
  split_islands_fit : 4 * n < 2 ^ 64;
  split_size_fits : T < 2 ^ 64
}.

Definition rest_size (mn T n : Z) : Z :=
  if base_size mn T n * n <? T then T - base_size mn T n * n else 0.

(** The split gives every island its chunk of the population. *)
Lemma split_run mn pop n :
  split_config mn (population_size pop) n →
  let sizes := island_sizes (Z.to_nat n) (base_size mn (population_size pop) n)
                 (rest_size mn (population_size pop) n) in
  ∃ isls, _split_population_for_islands mn pop n = Ret isls ∧
    Forall2 (λ sc isl, island_of (get_problem pop) sc.1 sc.2 isl)
      (zip sizes (chunks sizes (get_x pop))) isls.
Proof.
  intros [Hmn Hn H1 H4 HT] sizes. set (T := population_size pop) in *.
  assert (0 ≤ T) as HT0 by (unfold T, population_size; lia).
  destruct (base_size_bounds mn T n Hmn HT0 Hn) as (Hb & _).
  pose proof (base_size_fits mn T n Hmn HT0 Hn H1 HT H4) as Hfit.
  unfold _split_population_for_islands. fold T.
  rewrite (proj2 (Z.eqb_neq n 0)) by lia. cbn zeta. rewrite (w64_small (_ * _)) by done.
  destruct (split_loop_run (Z.to_nat n) 0 pop (base_size mn T n) (rest_size mn T n) 0)
    as (isls & E & Hf); [lia|lia|]. by exists isls.
Qed.

Lemma split_lengths sizes cs prob (isls : list population) :
  length cs = length sizes →
  Forall2 (λ sc isl, island_of prob sc.1 sc.2 isl) (zip sizes cs) isls →
  (length ∘ get_x) <$> isls = sizes.
Proof.
  intros Hl Hf. rewrite <- (fst_zip sizes cs) by lia. symmetry.
  induction Hf as [|[s c] isl l l' (_ & H & _) Hf IH]; [done|]. cbn in *. by rewrite IH, H.
Qed.

(** C23. The split: as many islands as asked for, each with a multiple of four (at
    least four) individuals, the population's individuals placed in order at
    the islands' beginnings; only when the base sizes add up to less than the
    population, its last [size mod 4] individuals are left out. *)
Theorem split_population_correct mn pop n :
  split_config mn (population_size pop) n →
  ∃ isls cs,
    _split_population_for_islands mn pop n = Ret isls ∧
    Z.of_nat (length isls) = n ∧
    Forall2 (λ c isl, c `prefix_of` get_x isl ∧ get_problem isl = get_problem pop) cs isls ∧
    Forall (λ isl, 4 ≤ population_size isl ∧ population_size isl mod 4 = 0 ∧
                   mn - 3 ≤ population_size isl) isls ∧
    concat cs = take (Z.to_nat (individuals_kept mn (population_size pop) n)) (get_x pop).
Proof.
  intros Hc. destruct (split_run mn pop n Hc) as (isls & E & Hf). destruct Hc as [Hmn Hn _ _ _].
  set (T := population_size pop) in *.
  assert (0 ≤ T) as HT0 by (unfold T, population_size; lia).
  destruct (base_size_bounds mn T n Hmn HT0 Hn) as (Hb & Hb4 & Hbm & _ & _).
  pose proof (sizes_total mn T n Hmn HT0 Hn) as Htot. cbn zeta in Htot.
  fold (rest_size mn T n) in Htot. set (sizes := island_sizes _ _ _) in *.
  pose proof (length_chunks sizes (get_x pop)) as Hlc.
  pose proof (split_lengths _ _ _ _ Hlc Hf) as Hsz.
  exists isls, (chunks sizes (get_x pop)). split_and!; [exact E| | | |].
  - apply (f_equal length) in Hsz. rewrite length_fmap in Hsz. rewrite Hsz.
    unfold sizes. rewrite length_island_sizes. lia.
  - rewrite <- (snd_zip sizes (chunks sizes (get_x pop))) by lia. apply Forall2_fmap_l.
    revert Hf. apply Forall2_impl. intros [s c] isl (? & ? & ?). done.
  - apply list.Forall_forall. intros isl Hi.
    assert (length (get_x isl) ∈ sizes) as Hs by (rewrite <- Hsz; by apply (list_elem_of_fmap_2 (length ∘ get_x))).
    apply island_sizes_each in Hs; [|lia]. unfold population_size.
    destruct Hs as [->| ->]; (split_and!; [lia| |lia]); [done|].
    rewrite <- Zplus_mod_idemp_l, Hb4. done.
  - rewrite concat_chunks, <- Htot. fold sizes. unfold T, population_size.
    destruct (decide (sum_list sizes ≤ length (get_x pop))%nat).
    + by rewrite Z.min_r, Nat2Z.id by lia.
    + by rewrite Z.min_l, Nat2Z.id, !take_ge by lia.
Qed.

Context {PSL : PagmoSortLaws} {PEL : PagmoEvolveLaws}.

Lemma merged_length (archi : list population) :
  length (merge_populations archi).1 = sum_list ((length ∘ get_x) <$> archi).
Proof.
  rewrite merge_populations_concat. cbn [fst]. induction archi as [|p archi IH]; [done|].
  cbn [fmap list_fmap concat]. by rewrite length_app, IH, sum_list_cons.
Qed.

Lemma sizes_lengths (ps qs : list population) :
  population_size <$> ps = population_size <$> qs → (length ∘ get_x) <$> ps = (length ∘ get_x) <$> qs.
Proof.
  revert qs. induction ps as [|p ps IH]; intros [|q qs] H; try done.
  cbn in *. injection H as H1 H2. unfold population_size in H1. f_equal; [lia|by apply IH].
Qed.

(** The islands together have room for the population. *)
Lemma islands_cover mn pop n isls :
  split_config mn (population_size pop) n → population_size pop mod 4 = 0 →
  _split_population_for_islands mn pop n = Ret isls →
  isls ≠ [] ∧ Forall (λ isl, get_problem isl = get_problem pop) isls ∧
  (length (get_x pop) ≤ sum_list ((length ∘ get_x) <$> isls))%nat.
Proof.
  intros Hc H4 E. destruct (split_run mn pop n Hc) as (isls' & E' & Hf).
  rewrite E in E'. injection E' as <-. destruct Hc as [Hmn Hn _ _ _].
  pose proof (split_lengths _ _ _ _ (length_chunks _ _) Hf) as Hsz. split_and!.
  - intros ->. symmetry in Hsz. apply (f_equal length) in Hsz. rewrite length_island_sizes in Hsz. cbn in Hsz. lia.
  - apply list.Forall_forall. intros isl [i Hi]%list_elem_of_lookup.
    by destruct (Forall2_lookup_r _ _ _ _ _ Hf Hi) as ([s c] & _ & _ & _ & Hp).
  - rewrite Hsz. pose proof (sizes_total mn (population_size pop) n Hmn ltac:(unfold population_size; lia) Hn) as Ht.
    cbn zeta in Ht. fold (rest_size mn (population_size pop) n) in Ht.
    assert (individuals_kept mn (population_size pop) n = population_size pop) as Hk.
    { unfold individuals_kept. rewrite H4. destruct (_ <? _); lia. }
    rewrite Hk in Ht. unfold population_size in Ht at 1 4. lia.
Qed.

(** C24. The archipelago worker's answer: a population as large as the one it was
    given (whose size is a multiple of four, as the solver's are), for the same
    problem, made of different individuals of the evolved islands, with the
    algorithm of the first island. *)
Theorem archipelago_worker_answer hc mn random algo pop cycles isls archi :
  split_config mn (population_size pop) (_compute_optimal_island_count hc) →
  population_size pop mod 4 = 0 → 1 ≤ get_nobj (get_problem pop) →
  _split_population_for_islands mn pop (_compute_optimal_island_count hc) = Ret isls →
  archipelago_evolve algo isls cycles = Ret archi →
  sorts_return (get_problem pop) (merge_populations archi.*2).2 →
  ∃ wc idx,
    _archipelago_based_worker hc mn random algo pop cycles = Ret wc ∧
    population_size (Messages.pop wc) = population_size pop ∧
    get_problem (Messages.pop wc) = get_problem pop ∧
    Some (Messages.algo wc) = fst <$> head archi ∧
    NoDup idx ∧
    mapM (λ i, (merge_populations archi.*2).1 !! i) idx = Some (get_x (Messages.pop wc)).
Proof.
  intros Hc H4 Hobj Es Ea Hs. destruct (islands_cover mn pop _ isls Hc H4 Es) as (Hne & Hp & Hcov).
  destruct (archipelago_evolve_sizes _ _ _ _ Ea) as [Hsz Hpr].
  apply sizes_lengths in Hsz. rewrite <- Hsz, <- merged_length in Hcov.
  destruct archi as [|[a p] archi].
  { destruct isls; [done|]. by apply (f_equal length) in Hpr. }
  assert (get_problem p = get_problem pop) as Hpp.
  { destruct isls as [|q isls]; [done|]. inversion_clear Hp. cbn in Hpr. injection Hpr as -> _. done. }
  assert (Forall (λ isl, get_problem isl = get_problem pop) ((a, p) :: archi).*2) as Hall.
  { by apply (Forall_fmap (get_problem) (λ q, q = get_problem pop)); rewrite Hpr; apply Forall_fmap. }
  apply merged_compatible in Hall.
  unfold _archipelago_based_worker. rewrite Es. cbn [mbind outcome_bind]. rewrite Ea.
  cbn [mbind outcome_bind]. pose proof (merge_populations_parallel ((a, p) :: archi).*2) as Hpar.
  destruct (merge_populations ((a, p) :: archi).*2) as [allP allF]. cbn [fst snd] in *.
  cbn [index lookup list_lookup mbind outcome_bind fst snd]. rewrite Hpp.
  destruct (best_selection (get_problem pop) allP allF (Z.to_nat (population_size pop))
    (Some (get_seed p)) random Hs Hobj Hall) as (p' & idx & Esel & (_ & Hnd & _) & Hm & Hsize & Hprob).
  { done. }
  { unfold population_size. lia. }
  rewrite Esel. cbn [mbind outcome_bind]. eexists _, idx. split_and!; [reflexivity| | | | |]; cbn.
  - rewrite Hsize. unfold population_size. lia.
  - done.
  - done.
  - done.
  - done.
Qed.
End WorkerLogic.

(** ** Witnesses: a split among the islands of a two-core machine *)

Definition problem_with (objectives : nat) : problem (Pagmo := ToyPagmo) := objectives.
Definition toy_algorithm : algorithm (Pagmo := ToyPagmo) := "alg"%string.

(** Eight individuals with fitness 3, 1, 4, 1, 5, 9, 2, 6. *)
Definition toy_fitnesses : list vector_double := (λ z, [double_of_Z z]) <$> [3; 1; 4; 1; 5; 9; 2; 6].
Definition toy_pop : population (Pagmo := ToyPagmo) :=
  {| toy_problem := 1%nat; toy_seed := 7; toy_x := toy_fitnesses |}.

Lemma toy_fitnesses_valid : valid_fitness toy_fitnesses.
Proof. repeat constructor; done. Qed.

Lemma selection_is_best_witness :
  ∃ p idx,
    select_best_N_into_new_population (problem_with 1) toy_fitnesses toy_fitnesses 3 None 5 = Ret p ∧
    best_indices toy_fitnesses 3 idx ∧
    mapM (λ i, toy_fitnesses !! i) idx = Some (get_x p) ∧
    get_problem p = problem_with 1 ∧ get_seed p = default 5 None.
Proof.
  apply (selection_is_best (problem_with 1)); [done|done|apply toy_fitnesses_valid|repeat constructor|done|cbn; lia].
Defined.

Lemma select_best_N_so_pads_witness :
  ∃ idx, select_best_N_so (problem_with 1) toy_fitnesses 10 =
           Ret (idx ++ replicate (10 - length toy_fitnesses) 0%nat) ∧
         idx ≡ₚ seq 0 (length toy_fitnesses).
Proof. apply select_best_N_so_pads; [done|apply toy_fitnesses_valid|cbn; lia]. Defined.

Lemma selection_of_existing_witness :
  ∃ p idx,
    select_best_N_into_new_population (problem_with 2) toy_fitnesses toy_fitnesses 3 None 5 = Ret p ∧
    distinct_indices (length toy_fitnesses) 3 idx ∧
    mapM (λ i, toy_fitnesses !! i) idx = Some (get_x p) ∧
    population_size p = Z.of_nat 3 ∧ get_problem p = problem_with 2.
Proof.
  apply (selection_of_existing (problem_with 2)); [|done|repeat constructor|done|cbn; lia].
  split; [done|by eexists|done].
Defined.

Lemma toy_config : split_config 4 (population_size toy_pop) 2.
Proof. by split. Qed.

Lemma split_population_correct_witness :
  ∃ isls cs,
    _split_population_for_islands 4 toy_pop 2 = Ret isls ∧
    Z.of_nat (length isls) = 2 ∧
    Forall2 (λ c isl, c `prefix_of` get_x isl ∧ get_problem isl = get_problem toy_pop) cs isls ∧
    Forall (λ isl, 4 ≤ population_size isl ∧ population_size isl mod 4 = 0 ∧
                   4 - 3 ≤ population_size isl) isls ∧
    concat cs = take (Z.to_nat (individuals_kept 4 (population_size toy_pop) 2)) (get_x toy_pop).
Proof. apply split_population_correct. apply toy_config. Defined.

(** The two islands evolve to the populations they started with. *)
Definition toy_islands : list (population (Pagmo := ToyPagmo)) :=
  match _split_population_for_islands 4 toy_pop 2 with Ret isls => isls | _ => [] end.
Definition toy_archi : list (algorithm * population) := (λ p, (toy_algorithm, p)) <$> toy_islands.

Lemma archipelago_worker_answer_witness :
  ∃ wc idx,
    _archipelago_based_worker 2 4 5 toy_algorithm toy_pop 3 = Ret wc ∧
    population_size (Messages.pop wc) = population_size toy_pop ∧
    get_problem (Messages.pop wc) = get_problem toy_pop ∧
    Some (Messages.algo wc) = fst <$> head toy_archi ∧
    NoDup idx ∧
    mapM (λ i, (merge_populations (PG := ToyPagmo) toy_archi.*2).1 !! i) idx = Some (get_x (Messages.pop wc)).
Proof.
  apply (archipelago_worker_answer 2 4 5 toy_algorithm toy_pop 3 toy_islands toy_archi).
  - apply toy_config.
  - done.
  - done.
  - vm_compute. reflexivity.
  - reflexivity.
  - split; [|done|done]. intros _ _. repeat constructor; done.
Defined.
