(* ===== verification/Worker.v ===== *)
(** * logic/distributed_worker.{h,cpp}: the worker's threads

    The client thread runs the poller loop over two sockets; the worker thread
    computes one job at a time and may ask for a library while it reads the job
    (through [udp_registry], which calls [get_dll_from_controller]). A step of
    the model is one message handled by the client thread or one communication
    of the worker thread; the two interleave in any order. *)
From S2P Require Import Prelude Messages Sockets Settings Pagmo DoubleOrder PopulationTools WorkerLogic.

Inductive worker_mode := SINGLE_THREADED | ARCHIPELAGO_BASED.

#[export] Instance worker_mode_eq_dec : EqDecision worker_mode.
Proof. solve_decision. Defined.

(** [_workerThread]: not joinable; reading or computing a job; inside
    [get_dll_from_controller]; past its last message. *)
Inductive thread_state :=
  | NotJoinable
  | Computing (workData : bytes)
  | AwaitingDll (lib_name : string) (workData : bytes)
  | Finished (workData : bytes).

#[export] Instance thread_state_eq_dec : EqDecision thread_state.
Proof. solve_decision. Defined.

Abbreviation message := (MsgType * bytes)%type.

Record distributed_worker := {
  _workerId : string;
  _workerMode : worker_mode;
  _minIslandPopSize : Z;
  _workerThread : thread_state;
  thread_inbox : list message;    (* to the thread socket, from the worker thread *)
  dll_inbox : list message;       (* to [worker_dll_handler] *)
  to_controller : list message    (* sent through the worker socket *)
}.

Definition set_thread (t : thread_state) (w : distributed_worker) : distributed_worker :=
  {| _workerId := w.(_workerId); _workerMode := w.(_workerMode);
     _minIslandPopSize := w.(_minIslandPopSize); _workerThread := t;
     thread_inbox := w.(thread_inbox); dll_inbox := w.(dll_inbox); to_controller := w.(to_controller) |}.
Definition set_thread_inbox (q : list message) (w : distributed_worker) : distributed_worker :=
  {| _workerId := w.(_workerId); _workerMode := w.(_workerMode);
     _minIslandPopSize := w.(_minIslandPopSize); _workerThread := w.(_workerThread);
     thread_inbox := q; dll_inbox := w.(dll_inbox); to_controller := w.(to_controller) |}.
Definition set_dll_inbox (q : list message) (w : distributed_worker) : distributed_worker :=
  {| _workerId := w.(_workerId); _workerMode := w.(_workerMode);
     _minIslandPopSize := w.(_minIslandPopSize); _workerThread := w.(_workerThread);
     thread_inbox := w.(thread_inbox); dll_inbox := q; to_controller := w.(to_controller) |}.
Definition send_controller (m : message) (w : distributed_worker) : distributed_worker :=
  {| _workerId := w.(_workerId); _workerMode := w.(_workerMode);
     _minIslandPopSize := w.(_minIslandPopSize); _workerThread := w.(_workerThread);
     thread_inbox := w.(thread_inbox); dll_inbox := w.(dll_inbox);
     to_controller := w.(to_controller) ++ [m] |}.

Section Worker.
Context {PG : Pagmo} {PS : PagmoSort} {SS : StdSort} {PE : PagmoEvolve}.
Context {AW : Archive (work_container algorithm population)}
        {AQ : Archive get_dll_request} {AD : Archive dll_binary_container} {AI : Archive string}.

(** The constructor: the identity comes from the settings file. *)
Definition distributed_worker_new (uuid : string) (mode : worker_mode) (minIslandPopSize : Z) :
    M disk distributed_worker :=
  workerId ← worker_identity uuid;
  mret {| _workerId := workerId; _workerMode := mode; _minIslandPopSize := minIslandPopSize;
          _workerThread := NotJoinable; thread_inbox := []; dll_inbox := []; to_controller := [] |}.
(** [std::thread::hardware_concurrency()] and [pagmo::random_device::next()]. *)
Context (hardware_concurrency : Z) (random : Z).

(** ** The worker thread *)

(** The body of the lambda in [_start_worker_thread]: what it sends at its end.
    An exception, from the deserialization (outside the [try]) or from the work
    (thrown again by the [catch]), leaves the thread. *)
Definition worker_thread_body (mode : worker_mode) (minIslandPopSize : Z) (workData : bytes) :
    outcome bytes :=
  wct ← vector_deserialize (A := work_container algorithm population) workData;
  results ← (match mode with
             | ARCHIPELAGO_BASED =>
                 _archipelago_based_worker hardware_concurrency minIslandPopSize random
                   wct.(algo) wct.(pop) wct.(cycleCount)
             | SINGLE_THREADED => _single_threaded_worker wct.(algo) wct.(pop)
             end : outcome (work_container algorithm population));
  Ret (vector_serialize results).

(** Assigning to a joinable [std::thread] calls [std::terminate]. *)
Definition _start_worker_thread (workData : bytes) : M distributed_worker unit :=
  w ← get_state;
  if decide (w.(_workerThread) = NotJoinable) then modify (set_thread (Computing workData))
  else crash (terminate "std::thread assigned while joinable").

(** [join()] returns when the thread has ended; the object is not joinable
    afterwards, and joining such an object throws [std::system_error]. *)
Definition join_worker_thread : M distributed_worker unit :=
  w ← get_state;
  match w.(_workerThread) with
  | NotJoinable => throw (runtime_error "Invalid argument")
  | _ => modify (set_thread NotJoinable)
  end.

(** ** The client thread *)

Definition _handle_Worker_Socket_Msg (m : message) : M distributed_worker unit :=
  let '(type, binary) := m in
  match type with
  | ALLOCATE_WORK => _start_worker_thread binary
  | DLL_BINARY =>
      (* a router drops what is sent to an identity that is not connected *)
      modify (λ w, match w.(_workerThread) with
                   | AwaitingDll _ _ => set_dll_inbox (w.(dll_inbox) ++ [(DLL_BINARY, binary)]) w
                   | _ => w
                   end)
  | _ => mret tt (* logs a warning *)
  end.

Definition _handle_Thread_Socket_Msg (m : message) : M distributed_worker unit :=
  let '(type, binary) := m in
  match type with
  | WORK_RESULTS =>
      _ ← join_worker_thread;
      modify (send_controller (WORK_RESULTS, binary))
  | GET_DLL => modify (send_controller (GET_DLL, binary))
  | _ => mret tt (* logs a warning *)
  end.

(** ** [get_dll_from_controller], as a program over its own socket *)

(** The loop: [None] while it blocks. [fuel] bounds the receives. *)
Fixpoint await_dll (fuel : nat) (q : list message) : option (outcome (option bytes) * list message) :=
  match fuel, q with
  | S fuel, (type, binary) :: q =>
      if decide (type ≠ DLL_BINARY) then await_dll fuel q
      else Some (dbc ← vector_deserialize (A := dll_binary_container) binary; Ret dbc.(dll_file), q)
  | _, _ => None
  end.

Definition get_dll_from_controller (lib_name : string) (q : list message) :
    message * option (outcome (option bytes) * list message) :=
  ((GET_DLL, vector_serialize (mk_get_dll_request lib_name)), await_dll (length q) q).

(** ** Steps *)

Inductive worker_event :=
  | WorkerSocket (m : message)          (* the client thread handles a message of the controller *)
  | ThreadSocket                        (* the client thread handles the next message of the thread *)
  | ThreadAsksDll (lib_name : string)   (* the thread sends GET_DLL *)
  | ThreadReceives                      (* the thread receives a message in [get_dll_from_controller] *)
  | ThreadEnds.                         (* the thread sends its results *)

(** Whether the event can happen. *)
Definition enabled (e : worker_event) (w : distributed_worker) : bool :=
  match e, w.(_workerThread) with
  | WorkerSocket _, _ => true
  | ThreadSocket, t =>
      match w.(thread_inbox), t with
      | [], _ => false
      | (WORK_RESULTS, _) :: _, (Computing _ | AwaitingDll _ _) => false (* [join] blocks *)
      | _, _ => true
      end
  | ThreadAsksDll _, Computing _ | ThreadEnds, Computing _ => true
  | ThreadReceives, AwaitingDll _ _ => negb (bool_decide (w.(dll_inbox) = []))
  | _, _ => false
  end.

Definition worker_exec (e : worker_event) : M distributed_worker unit :=
  w ← get_state;
  match e, w.(_workerThread) with
  | WorkerSocket m, _ => _handle_Worker_Socket_Msg m
  | ThreadSocket, _ =>
      match w.(thread_inbox) with
      | m :: q => _ ← modify (set_thread_inbox q); _handle_Thread_Socket_Msg m
      | [] => mret tt
      end
  | ThreadAsksDll lib_name, Computing workData =>
      let request := (get_dll_from_controller lib_name []).1 in
      _ ← modify (set_thread_inbox (w.(thread_inbox) ++ [request]));
      modify (set_thread (AwaitingDll lib_name workData))
  | ThreadReceives, AwaitingDll lib_name workData =>
      match await_dll 1 w.(dll_inbox) with
      | None => modify (set_dll_inbox (tail w.(dll_inbox)))
      | Some (Ret file, _) =>
          _ ← modify (set_dll_inbox []);
          modify (set_thread (Computing workData))
      | Some (_, _) => crash (terminate "exception in the worker thread")
      end
  | ThreadEnds, Computing workData =>
      match worker_thread_body w.(_workerMode) w.(_minIslandPopSize) workData with
      | Ret results =>
          _ ← modify (set_thread_inbox (w.(thread_inbox) ++ [(WORK_RESULTS, results)]));
          modify (set_thread (Finished workData))
      | Throw _ => crash (terminate "exception in the worker thread")
      | Crash f => crash f
      end
  | _, _ => mret tt
  end.

(** [run_client]: the poller loop; an exception ends the client thread. *)
Inductive client :=
  | Polling (w : distributed_worker)
  | ClientEnded (w : distributed_worker)
  | ProcessEnded.

Fixpoint run_client (es : list worker_event) (w : distributed_worker) : client :=
  match es with
  | [] => Polling w
  | e :: es =>
      match worker_exec e w with
      | (Ret _, w') => run_client es w'
      | (Throw _, w') => ClientEnded w'
      | (Crash _, _) => ProcessEnded
      end
  end.

(** ** The protocol *)

(** The controller allocates work only to a worker whose last results it has
    seen, and its DLL_BINARY messages are well-formed. *)
Definition from_controller_ok (w : distributed_worker) (m : message) : Prop :=
  match m with
  | (ALLOCATE_WORK, data) =>
      w.(_workerThread) = NotJoinable ∧
      ∃ results, worker_thread_body w.(_workerMode) w.(_minIslandPopSize) data = Ret results
  | (DLL_BINARY, data) =>
      ∃ dbc, vector_deserialize (A := dll_binary_container) data = Ret dbc
  | _ => True
  end.

Definition worker_event_ok (e : worker_event) (w : distributed_worker) : Prop :=
  enabled e w = true ∧
  match e with WorkerSocket m => from_controller_ok w m | _ => True end.

(** Runs of the protocol; the last state. *)
Inductive worker_run : distributed_worker → list worker_event → distributed_worker → Prop :=
  | worker_run_nil w : worker_run w [] w
  | worker_run_cons w e w1 es w2 :
      worker_event_ok e w → worker_exec e w = (Ret tt, w1) → worker_run w1 es w2 →
      worker_run w (e :: es) w2.

(** The jobs the controller has sent, oldest first. *)
Definition jobs (es : list worker_event) : list bytes :=
  omap (λ e, match e with WorkerSocket (ALLOCATE_WORK, data) => Some data | _ => None end) es.

(** The results the worker has sent. *)
Definition results (w : distributed_worker) : list bytes :=
  omap (λ m, match m with (WORK_RESULTS, b) => Some b | _ => None end) w.(to_controller).

Definition answer (w : distributed_worker) (data : bytes) : outcome bytes :=
  worker_thread_body w.(_workerMode) w.(_minIslandPopSize) data.

Definition current_job (w : distributed_worker) : list bytes :=
  match w.(_workerThread) with
  | NotJoinable => []
  | Computing d | AwaitingDll _ d | Finished d => [d]
  end.

(** ** Lemmas *)

Definition is_results (m : message) : option bytes :=
  match m with (WORK_RESULTS, b) => Some b | _ => None end.

(** Answers given or on their way to the client thread. *)
Definition answers (w : distributed_worker) : list bytes :=
  results w ++ omap is_results w.(thread_inbox).

(** What the worker thread may still have to do. *)
Definition unanswered (w : distributed_worker) : list bytes :=
  match w.(_workerThread) with
  | Computing d | AwaitingDll _ d => [d]
  | _ => []
  end.

Definition good_binary (m : message) : Prop :=
  m.1 = DLL_BINARY ∧ ∃ dbc, vector_deserialize (A := dll_binary_container) m.2 = Ret dbc.

(** [js] are the jobs so far. *)
Record worker_inv (js : list bytes) (w : distributed_worker) : Prop := {
  winv_jobs : ∃ done, js = done ++ unanswered w ∧ Forall2 (λ d r, answer w d = Ret r) done (answers w);
  winv_thread_inbox : Forall (λ m, m.1 = GET_DLL ∨ m.1 = WORK_RESULTS) w.(thread_inbox);
  winv_pending : match w.(_workerThread) with
    | Finished _ => ∃ q r, w.(thread_inbox) = q ++ [(WORK_RESULTS, r)] ∧ omap is_results q = []
    | _ => omap is_results w.(thread_inbox) = []
    end;
  winv_dll_inbox : Forall good_binary w.(dll_inbox)
}.

(** The computation of the current job returns. *)
Definition computes (w : distributed_worker) : Prop := Forall (λ d, ∃ r, answer w d = Ret r) (unanswered w).

Record worker_ready (js : list bytes) (w : distributed_worker) : Prop := {
  ready_inv :> worker_inv js w;
  ready_computes : computes w
}.

(** A message of the controller that the client thread can take, whatever
    becomes of the job. *)
Definition delivery_ok (w : distributed_worker) (m : message) : Prop :=
  match m with
  | (ALLOCATE_WORK, _) => w.(_workerThread) = NotJoinable
  | (DLL_BINARY, data) => ∃ dbc, vector_deserialize (A := dll_binary_container) data = Ret dbc
  | _ => True
  end.

Definition event_possible (e : worker_event) (w : distributed_worker) : Prop :=
  enabled e w = true ∧
  match e with WorkerSocket m => delivery_ok w m | _ => True end.

Lemma event_ok_possible e w : worker_event_ok e w → event_possible e w.
Proof. intros [He Hm]. split; [done|]. destruct e as [[[] b]| | | |]; try done. by destruct Hm. Qed.

Lemma results_send m w :
  results (send_controller m w) = results w ++ match is_results m with Some b => [b] | None => [] end.
Proof. unfold results. cbn. rewrite omap_app. cbn. by destruct m as [[] b]. Qed.

Lemma answer_config w w' :
  w'.(_workerMode) = w.(_workerMode) → w'.(_minIslandPopSize) = w.(_minIslandPopSize) →
  ∀ d, answer w' d = answer w d.
Proof. intros Hm Hs d. unfold answer. by rewrite Hm, Hs. Qed.

Definition jobs_of_event (e : worker_event) : list bytes :=
  match e with WorkerSocket (ALLOCATE_WORK, data) => [data] | _ => [] end.

(** The step's result, given that the configuration stays. *)
Definition step_ok (js : list bytes) (e : worker_event) (w : distributed_worker) : Prop :=
  ∃ w', worker_exec e w = (Ret tt, w') ∧ worker_inv (js ++ jobs_of_event e) w' ∧
    w'.(_workerMode) = w.(_workerMode) ∧ w'.(_minIslandPopSize) = w.(_minIslandPopSize) ∧
    results w `prefix_of` results w'.

Lemma exec_worker_socket m w : worker_exec (WorkerSocket m) w = _handle_Worker_Socket_Msg m w.
Proof. done. Qed.

Lemma worker_socket_step js m w :
  worker_inv js w → delivery_ok w m → step_ok js (WorkerSocket m) w.
Proof.
  intros [(dn & Hj & Hf) Hi Hp Hd] Hok. destruct m as [[] b]; cbn in Hok.
  1, 2, 4, 5, 7: exists w; cbn; rewrite app_nil_r; split_and!; [done|split; [by exists dn|done..]|done..].
  - exists (set_thread (Computing b) w). rename Hok into Ht.
    unfold unanswered in *. rewrite Ht in *. rewrite app_nil_r in Hj. subst js.
    split_and!; [|split|done|done|done].
    + rewrite exec_worker_socket. cbn. unfold _start_worker_thread. run_simpl. by rewrite Ht.
    + exists dn. split; [done|exact Hf].
    + done.
    + exact Hp.
    + done.
  - destruct (_workerThread w) as [|d|n d|d] eqn:Ht.
    1, 2, 4: exists w; rewrite exec_worker_socket; cbn [jobs_of_event]; rewrite app_nil_r; split_and!;
      [cbn; unfold modify; by rewrite Ht|split; [by exists dn|done|by rewrite Ht|done]|done..].
    exists (set_dll_inbox (w.(dll_inbox) ++ [(DLL_BINARY, b)]) w).
    rewrite exec_worker_socket. cbn [jobs_of_event]. rewrite app_nil_r.
    split_and!; [cbn; unfold modify; by rewrite Ht|split|done|done|done].
    + exists dn. split; [done|exact Hf].
    + done.
    + cbn. by rewrite Ht.
    + cbn. apply Forall_app. split; [done|]. by repeat constructor.
Qed.

Lemma thread_socket_step js w :
  worker_inv js w → enabled ThreadSocket w = true → step_ok js ThreadSocket w.
Proof.
  intros [(dn & Hj & Hf) Hi Hp Hd] He. unfold step_ok. cbn [jobs_of_event]. rewrite app_nil_r.
  cbn in He. destruct (thread_inbox w) as [|[t b] q] eqn:Eq; [done|].
  inversion_clear Hi as [|? ? Ht Hi']. cbn [fst] in Ht.
  assert (worker_exec ThreadSocket w = _handle_Thread_Socket_Msg (t, b) (set_thread_inbox q w)) as ->.
  { unfold worker_exec. run_simpl. cbn. by rewrite Eq. }
  destruct Ht as [->| ->]; cbn [_handle_Thread_Socket_Msg].
  - eexists. split; [done|]. split_and!; [|done|done|rewrite results_send; by apply prefix_app_r]. split.
    + exists dn. split; [done|]. unfold answers in *. rewrite results_send, app_nil_r. cbn. by rewrite Eq in Hf.
    + done.
    + cbn. destruct (_workerThread w); try exact Hp. destruct Hp as ([|m q'] & r & Hq & Hn); [done|].
      injection Hq as <- ->. by exists q', r.
    + done.
  - destruct (_workerThread w) as [|d|n d|d] eqn:Et; [|done|done|].
    { by cbn in Hp. }
    destruct Hp as ([|m q'] & r & Hq & Hn); [|injection Hq as <- ->; done].
    injection Hq as -> ->. unfold join_worker_thread. run_simpl. cbn [set_thread_inbox _workerThread].
    rewrite Et. run_simpl. eexists. split; [done|]. split_and!; [|done|done|rewrite results_send; by apply prefix_app_r]. split.
    + exists dn. unfold unanswered in *. rewrite Et in Hj. split; [exact Hj|].
      unfold answers in *. rewrite results_send. cbn. rewrite Eq in Hf. cbn in Hf. by rewrite app_nil_r.
    + done.
    + done.
    + done.
Qed.

Lemma omap_results_app (q : list message) m :
  omap is_results (q ++ [m]) = omap is_results q ++ match is_results m with Some b => [b] | None => [] end.
Proof. rewrite omap_app. cbn. by destruct (is_results m). Qed.

Lemma thread_step js e w :
  worker_inv js w → enabled e w = true → (∀ m, e ≠ WorkerSocket m) → e ≠ ThreadSocket →
  (e = ThreadEnds → computes w) → step_ok js e w.
Proof.
  intros [(dn & Hj & Hf) Hi Hp Hd] He Hm Hs Hc. unfold step_ok, computes in *.
  destruct e as [m| |n| |]; [by destruct (Hm m)|done| | |]; cbn [jobs_of_event]; rewrite app_nil_r; cbn in He;
    unfold worker_exec; run_simpl; destruct (_workerThread w) as [|d|n' d|d] eqn:Et; try done;
    unfold unanswered, answers in *; rewrite Et in *.
  - run_simpl. eexists. split; [done|]. split_and!; [|done|done|done]. split; cbn.
    + exists dn. split; [done|]. unfold answers. cbn. rewrite omap_results_app. cbn. rewrite app_nil_r. done.
    + apply Forall_app. split; [done|]. repeat constructor.
    + rewrite omap_results_app, Hp. done.
    + done.
  - destruct (dll_inbox w) as [|[t b] q] eqn:Eq; [done|].
    inversion_clear Hd as [|? ? (Ht & dbc & Hb) Hd']. cbn [fst snd] in Ht, Hb. subst t.
    cbn [await_dll]. destruct (decide (DLL_BINARY ≠ DLL_BINARY)) as [|_]; [done|].
    rewrite Hb. cbn [mbind outcome_bind]. run_simpl.
    eexists. split; [done|]. split_and!; [|done|done|done]. split; cbn; [|done|done|done].
    exists dn. split; [done|exact Hf].
  - specialize (Hc eq_refl). inversion_clear Hc as [|? ? [r Hr] _]. unfold answer in Hr. rewrite Hr. run_simpl.
    eexists. split; [done|]. split_and!; [|done|done|done]. split; cbn.
    + exists (dn ++ [d]). split; [by rewrite app_nil_r|]. unfold answers. cbn. rewrite omap_results_app. cbn.
      rewrite app_assoc. apply Forall2_app; [exact Hf|]. by repeat constructor.
    + apply Forall_app. split; [done|]. constructor; [by right|constructor].
    + by exists w.(thread_inbox), r.
    + done.
Qed.

(** Every possible event returns, but the end of a computation that does not. *)
Lemma worker_step js e w :
  worker_inv js w → event_possible e w → (e = ThreadEnds → computes w) → step_ok js e w.
Proof.
  intros Hinv [He Hok] Hc. destruct e; try (apply thread_step; done).
  - by apply worker_socket_step.
  - by apply thread_socket_step.
Qed.

(** A computation that throws or crashes ends the process. *)
Lemma computation_ends d w :
  w.(_workerThread) = Computing d → (∀ r, answer w d ≠ Ret r) → ∃ f, worker_exec ThreadEnds w = (Crash f, w).
Proof.
  intros Ht Hr. unfold worker_exec. rewrite bind_run. cbn [get_state]. rewrite Ht. unfold answer in Hr.
  destruct (worker_thread_body _ _ _) as [r|e|f]; [by destruct (Hr r)|by eexists..].
Qed.

Lemma step_computes e w w' :
  worker_event_ok e w → computes w → worker_exec e w = (Ret tt, w') → computes w'.
Proof.
  intros [He Hm] Hc. unfold worker_exec. rewrite bind_run. cbn [get_state]. destruct e as [[t b]| |n| |]; cbn in He.
  - cbn beta iota. destruct t; cbn [_handle_Worker_Socket_Msg]; try (by intros [= <-]).
    + destruct Hm as [Ht Hr]. unfold _start_worker_thread. rewrite bind_run. cbn [get_state].
      rewrite decide_True by done. intros [= <-]. by constructor.
    + destruct (_workerThread w) eqn:Et; intros [= <-]; rewrite Et; done.
  - destruct (thread_inbox w) as [|[t b] q]; [by intros [= <-]|]. rewrite bind_run. cbn [modify].
    destruct t; cbn [_handle_Thread_Socket_Msg]; try (by intros [= <-]).
    rewrite bind_run. unfold join_worker_thread. rewrite bind_run. cbn [get_state _workerThread set_thread_inbox].
    destruct (_workerThread w); [done|..]; intros [= <-]; constructor.
  - destruct (_workerThread w) eqn:Et; try done. intros [= <-]. unfold computes, unanswered in *. by rewrite Et in Hc.
  - destruct (_workerThread w) eqn:Et; try done. unfold computes, unanswered in *. rewrite Et in Hc.
    destruct (await_dll _ _) as [[[file|e|c] q]|]; try done; intros [= <-]; [done|]. cbn. by rewrite Et.
  - destruct (_workerThread w) eqn:Et; try done.
    destruct (worker_thread_body _ _ _) as [r|e|c]; try done. intros [= <-]. constructor.
Qed.

Lemma ready_step js e w :
  worker_ready js w → worker_event_ok e w →
  ∃ w', worker_exec e w = (Ret tt, w') ∧ worker_ready (js ++ jobs_of_event e) w' ∧
    w'.(_workerMode) = w.(_workerMode) ∧ w'.(_minIslandPopSize) = w.(_minIslandPopSize).
Proof.
  intros [Hinv Hc] Hok. destruct (worker_step js e w Hinv (event_ok_possible _ _ Hok) (λ _, Hc))
    as (w' & He & Hinv' & Hm & Hs & _).
  exists w'. split; [done|]. split; [|done]. split; [done|]. by eapply step_computes.
Qed.

(** ** Runs *)

(** A worker that has just started, or is between two jobs with nothing in
    flight. *)
Definition rested (w : distributed_worker) : Prop :=
  w.(_workerThread) = NotJoinable ∧ w.(thread_inbox) = [] ∧ w.(dll_inbox) = [] ∧ results w = [].

Lemma rested_inv w : rested w → worker_inv [] w.
Proof.
  intros (Ht & Hi & Hd & Hr). split.
  - exists []. unfold unanswered, answers. by rewrite Ht, Hi, Hr.
  - by rewrite Hi.
  - by rewrite Ht, Hi.
  - by rewrite Hd.
Qed.

Lemma rested_ready w : rested w → worker_ready [] w.
Proof.
  intros H. split; [by apply rested_inv|]. destruct H as (Ht & _). unfold computes, unanswered. rewrite Ht. constructor.
Qed.

Lemma jobs_cons e es : jobs (e :: es) = jobs_of_event e ++ jobs es.
Proof. by destruct e as [[[] ?]| | | |]. Qed.

Lemma worker_run_inv js w es w' :
  worker_ready js w → worker_run w es w' →
  worker_ready (js ++ jobs es) w' ∧ w'.(_workerMode) = w.(_workerMode) ∧
  w'.(_minIslandPopSize) = w.(_minIslandPopSize).
Proof.
  intros Hinv Hrun. revert js Hinv. induction Hrun as [w|w e w1 es w2 Hok He Hrun IH]; intros js Hinv.
  { rewrite app_nil_r. done. }
  destruct (ready_step js e w Hinv Hok) as (w1' & He' & Hinv' & Hm & Hs).
  rewrite He in He'. injection He' as <-. rewrite jobs_cons, app_assoc.
  destruct (IH _ Hinv') as (? & ? & ?). split_and!; [done|congruence|congruence].
Qed.

Lemma results_of_finished js w :
  worker_inv js w → ∃ pending, answers w = results w ++ pending ∧
    (length pending + length (unanswered w) = length (current_job w))%nat.
Proof.
  intros [_ _ Hp _]. exists (omap is_results w.(thread_inbox)). split; [done|].
  unfold unanswered, current_job. destruct (_workerThread w) as [|d|n d|d]; try (by rewrite Hp).
  destruct Hp as (q & r & -> & Hq). rewrite omap_results_app, Hq. done.
Qed.

(** C8. Whatever the interleaving of the threads and the messages of the
    controller, the worker sends back exactly the answers to the jobs it was
    given, in order; the answer that may be missing is that of the job the
    worker thread holds. And no event of the protocol ends the client thread or
    the process. *)
Theorem worker_answers_jobs w0 es w :
  rested w0 → worker_run w0 es w →
  Forall2 (λ d r, answer w0 d = Ret r) (take (length (results w)) (jobs es)) (results w) ∧
  length (jobs es) = (length (results w) + length (current_job w))%nat ∧
  ∀ e, worker_event_ok e w → ∃ w', worker_exec e w = (Ret tt, w').
Proof.
  intros H0 Hrun. destruct (worker_run_inv [] w0 es w (rested_ready w0 H0) Hrun) as (Hinv & Hm & Hs).
  cbn [app] in Hinv. destruct (results_of_finished _ _ Hinv) as (pending & Ha & Hl).
  assert (∀ e, worker_event_ok e w → ∃ w', worker_exec e w = (Ret tt, w')) as Hsafe.
  { intros e Hok. destruct (ready_step _ e w Hinv Hok) as (w' & He & _). by exists w'. }
  destruct Hinv as [[(dn & Hj & Hf) _ _ _] _]. rewrite Ha in Hf. pose proof Hf as Hlen. apply Forall2_length in Hlen.
  rewrite length_app in Hlen. split.
  - apply Forall2_app_inv_r in Hf as (d1 & d2 & Hf1 & _ & ->).
    pose proof Hf1 as Hl1. apply Forall2_length in Hl1.
    rewrite Hj, <- app_assoc, take_app_length' by done.
    revert Hf1. apply Forall2_impl. intros d r. by rewrite (answer_config w0 w).
  - split; [|done]. rewrite Hj, length_app. lia.
Qed.

(** ** Finishing the current job *)

Lemma worker_run_app w es1 w1 es2 w2 :
  worker_run w es1 w1 → worker_run w1 es2 w2 → worker_run w (es1 ++ es2) w2.
Proof. induction 1 as [|w e w' es w'' Hok He Hrun IH]; intros H; [done|]. econstructor; [done|done|by apply IH]. Qed.

Lemma worker_run_step js w e :
  worker_ready js w → worker_event_ok e w →
  ∃ w', worker_run w [e] w' ∧ worker_exec e w = (Ret tt, w') ∧ worker_ready (js ++ jobs_of_event e) w'.
Proof.
  intros Hinv Hok. destruct (ready_step js e w Hinv Hok) as (w' & He & Hinv' & _).
  exists w'. split_and!; [|done|done]. econstructor; [done|done|constructor].
Qed.

(** From [Finished], the client thread empties the inbox and joins. *)
Lemma drain_inbox js q r d w :
  worker_ready js w → w.(_workerThread) = Finished d →
  w.(thread_inbox) = q ++ [(WORK_RESULTS, r)] → omap is_results q = [] →
  ∃ es w', worker_run w es w' ∧ jobs es = [] ∧ w'.(_workerThread) = NotJoinable ∧ worker_ready js w'.
Proof.
  revert w. induction q as [|[t b] q IH]; intros w Hinv Ht Hq Hn.
  - destruct (worker_run_step js w ThreadSocket Hinv) as (w1 & Hr & He & Hinv1).
    { split; [|done]. cbn. by rewrite Hq, Ht. }
    cbn [jobs_of_event] in Hinv1. rewrite app_nil_r in Hinv1. exists [ThreadSocket], w1.
    split_and!; [done|done| |done]. unfold worker_exec in He. run_simpl. rewrite bind_run in He. cbn in He.
    rewrite Hq in He. cbn in He. rewrite bind_run in He. cbn in He. rewrite bind_run in He.
    unfold join_worker_thread in He. rewrite bind_run in He. cbn in He. rewrite Ht in He. by injection He as <-.
  - assert (t = GET_DLL) as ->.
    { pose proof (winv_thread_inbox _ _ Hinv) as Hi. rewrite Hq in Hi.
      inversion_clear Hi as [|? ? [Hg|Hg] _]; [done|]. cbn in Hg. by subst t. }
    destruct (worker_run_step js w ThreadSocket Hinv) as (w1 & Hr & He & Hinv1).
    { split; [|done]. cbn. by rewrite Hq, Ht. }
    cbn [jobs_of_event] in Hinv1. rewrite app_nil_r in Hinv1.
    unfold worker_exec in He. rewrite bind_run in He. cbn in He. rewrite Hq in He. cbn in He.
    rewrite bind_run in He. cbn in He. injection He as Hw1.
    destruct (IH w1) as (es & w' & Hr' & Hj & Ht' & Hinv'); [done|by subst w1|by subst w1|done|].
    exists ([ThreadSocket] ++ es), w'. split_and!; [by eapply worker_run_app|done|done|done].
Qed.

Lemma finish_computing js d w :
  worker_ready js w → w.(_workerThread) = Computing d →
  ∃ es w', worker_run w es w' ∧ jobs es = [] ∧ w'.(_workerThread) = NotJoinable ∧ worker_ready js w'.
Proof.
  intros Hinv Ht.
  destruct (worker_run_step js w ThreadEnds Hinv) as (w1 & Hr & He & Hinv1).
  { split; [|done]. cbn. by rewrite Ht. }
  cbn [jobs_of_event] in Hinv1. rewrite app_nil_r in Hinv1.
  assert (_workerThread w1 = Finished d) as Ht1.
  { unfold worker_exec in He. rewrite bind_run in He. cbn in He. rewrite Ht in He.
    destruct (worker_thread_body _ _ _); try done. by injection He as <-. }
  pose proof (winv_pending _ _ Hinv1) as Hp. rewrite Ht1 in Hp. destruct Hp as (q & r & Hq & Hn).
  destruct (drain_inbox js q r d w1 Hinv1 Ht1 Hq Hn) as (es & w' & Hr' & Hj & Ht' & Hinv').
  exists ([ThreadEnds] ++ es), w'. split_and!; [by eapply worker_run_app|done|done|done].
Qed.

(** A library that was asked for arrives. *)
Lemma receive_dll js n d w :
  worker_ready js w → w.(_workerThread) = AwaitingDll n d → w.(dll_inbox) ≠ [] →
  ∃ w', worker_run w [ThreadReceives] w' ∧ w'.(_workerThread) = Computing d ∧ worker_ready js w'.
Proof.
  intros Hinv Ht Hne.
  destruct (worker_run_step js w ThreadReceives Hinv) as (w1 & Hr & He & Hinv1).
  { split; [|done]. cbn. rewrite Ht. by destruct (dll_inbox w). }
  cbn [jobs_of_event] in Hinv1. rewrite app_nil_r in Hinv1. exists w1. split_and!; [done| |done].
  pose proof (winv_dll_inbox _ _ Hinv) as Hd. destruct (dll_inbox w) as [|[t b] q] eqn:Eq; [done|].
  inversion_clear Hd as [|? ? (Hb & dbc & Hdb) _]. cbn in Hb, Hdb. subst t.
  unfold worker_exec in He. rewrite bind_run in He. cbn in He. rewrite Ht, Eq in He. cbn [await_dll] in He.
  destruct (decide (DLL_BINARY ≠ DLL_BINARY)) as [|_]; [done|]. rewrite Hdb in He. by injection He as <-.
Qed.

Context {ADL : ArchiveLaws dll_binary_container}.

(** The controller's reply to GET_DLL, forwarded. *)
Lemma forward_dll js n d w :
  worker_ready js w → w.(_workerThread) = AwaitingDll n d →
  ∃ es w', worker_run w es w' ∧ jobs es = [] ∧ w'.(_workerThread) = Computing d ∧ worker_ready js w'.
Proof.
  intros Hinv Ht.
  set (m := (DLL_BINARY, vector_serialize (mk_dll_binary_container n None))).
  destruct (worker_run_step js w (WorkerSocket m) Hinv) as (w1 & Hr & He & Hinv1).
  { split; [done|]. eexists. apply deserialize_serialize. }
  cbn [jobs_of_event m] in Hinv1. rewrite app_nil_r in Hinv1.
  rewrite exec_worker_socket in He. cbn in He. unfold modify in He. rewrite Ht in He. injection He as Hw1.
  destruct (receive_dll js n d w1) as (w2 & Hr2 & Ht2 & Hinv2); [done|by subst w1| |].
  { subst w1. cbn. by destruct (dll_inbox w). }
  exists ([WorkerSocket m] ++ [ThreadReceives]), w2. split_and!; [by eapply worker_run_app|done|done|done].
Qed.

(** From every reachable state the worker can finish: without another job, only
    with replies to its library requests, it comes to rest having answered every
    job. *)
Theorem worker_can_finish w0 es w :
  rested w0 → worker_run w0 es w →
  ∃ es' w', worker_run w es' w' ∧ jobs es' = [] ∧ w'.(_workerThread) = NotJoinable ∧
    Forall2 (λ d r, answer w0 d = Ret r) (jobs es) (results w').
Proof.
  intros H0 Hrun. destruct (worker_run_inv [] w0 es w (rested_ready w0 H0) Hrun) as (Hinv & Hm & Hs).
  cbn [app] in Hinv.
  assert (∃ es' w', worker_run w es' w' ∧ jobs es' = [] ∧ w'.(_workerThread) = NotJoinable ∧
    worker_ready (jobs es) w') as (es' & w' & Hr & Hj & Ht & Hinv').
  { destruct (_workerThread w) as [|d|n d|d] eqn:Ht.
    - exists [], w. split_and!; [constructor|done|done|done].
    - by eapply finish_computing.
    - destruct (forward_dll _ n d w Hinv Ht) as (es1 & w1 & Hr1 & Hj1 & Ht1 & Hinv1).
      destruct (finish_computing _ d w1 Hinv1 Ht1) as (es2 & w2 & Hr2 & Hj2 & Ht2 & Hinv2).
      exists (es1 ++ es2), w2. split_and!; [by eapply worker_run_app| |done|done].
      unfold jobs in *. by rewrite omap_app, Hj1, Hj2.
    - pose proof (winv_pending _ _ Hinv) as Hp. rewrite Ht in Hp. destruct Hp as (q & r & Hq & Hn).
      by eapply drain_inbox. }
  exists es', w'. split_and!; [done|done|done|].
  destruct (results_of_finished _ _ Hinv') as (pending & Ha & Hl). unfold current_job in Hl. rewrite Ht in Hl.
  destruct pending; [|cbn in Hl; lia]. rewrite app_nil_r in Ha.
  destruct Hinv' as [[(dn & Hdn & Hf) _ _ _] _]. unfold unanswered in Hdn. rewrite Ht, app_nil_r in Hdn.
  rewrite Hdn, <- Ha. destruct (worker_run_inv _ w es' w' Hinv Hr) as (_ & Hm' & Hs').
  revert Hf. apply Forall2_impl. intros d r. rewrite (answer_config w0 w'); [done|congruence|congruence].
Qed.

(** ** Errors *)

(** A second job while one is running, and a job whose computation throws, end
    the whole process. *)
Theorem worker_process_ends w :
  (w.(_workerThread) ≠ NotJoinable → ∀ data es, run_client (WorkerSocket (ALLOCATE_WORK, data) :: es) w = ProcessEnded) ∧
  (∀ data e, w.(_workerThread) = Computing data → answer w data = Throw e →
     ∀ es, run_client (ThreadEnds :: es) w = ProcessEnded).
Proof.
  split.
  - intros Ht data es. cbn [run_client]. rewrite exec_worker_socket. cbn. unfold _start_worker_thread. run_simpl.
    by destruct (decide (_workerThread w = NotJoinable)).
  - intros data e Ht Ha es. cbn [run_client]. unfold worker_exec. run_simpl. rewrite Ht.
    unfold answer in Ha. by rewrite Ha.
Qed.

(** [get_dll_from_controller] asks once and returns the file of the first
    DLL_BINARY message, whatever other messages come before it; without one it
    blocks. *)
Lemma await_dll_skips pre q :
  Forall (λ m, m.1 ≠ DLL_BINARY) pre → await_dll (length (pre ++ q)) (pre ++ q) = await_dll (length q) q.
Proof.
  induction 1 as [|[t b] pre Ht _ IH]; [done|]. cbn [app length await_dll].
  by destruct (decide (t ≠ DLL_BINARY)).
Qed.

(** get_dll_from_controller asks once and returns the file of the first DLL_BINARY message, skipping every other message, and blocks when there is none. *)
Theorem get_dll_first_binary lib_name pre q :
  Forall (λ m, m.1 ≠ DLL_BINARY) pre →
  (get_dll_from_controller lib_name pre).2 = None ∧
  ∀ dbc, get_dll_from_controller lib_name (pre ++ (DLL_BINARY, vector_serialize dbc) :: q) =
    ((GET_DLL, vector_serialize (mk_get_dll_request lib_name)), Some (Ret dbc.(dll_file), q)).
Proof.
  intros Hp. unfold get_dll_from_controller. split.
  - rewrite <- (app_nil_r pre). rewrite await_dll_skips by done. done.
  - intros dbc. rewrite await_dll_skips by done. cbn [length await_dll].
    destruct (decide (DLL_BINARY ≠ DLL_BINARY)) as [|_]; [done|]. by rewrite deserialize_serialize.
Qed.
End Worker.
