(* ===== verification/WorkPlan.v ===== *)
(** * logic/distributed_solver.cpp, [_generate_work_plan]

    How the solver divides a population among islands: in equal parts, or by
    the measured performance of the connected workers.

    The controller's thread changes the repository while the plan is made, so
    every access of the plan reads the repository of its own moment:
    [settings_at t] are the controller's settings, which hold it, and their file
    at the [t]-th access. The controller hands out a reference to the repository
    and saves its settings when it does; that save, and the copy the plan makes
    of the set of connected workers, read the repository without its mutex:
    [undisturbed t] says that the controller's thread does not change it
    meanwhile. [iteration_order t] is the order in which a range-for over the
    unordered set [connectedWorkers] visits it at that moment. *)
From S2P Require Import Prelude Doubles DoubleOrder NumberUtils WorkerInfo Messages Settings Pagmo.

Inductive load_balancing_strategy := ALL_ISLANDS_EQUAL | BY_PERFORMANCE.

#[export] Instance load_balancing_strategy_eq_dec : EqDecision load_balancing_strategy.
Proof. solve_decision. Defined.

Abbreviation archived_statistics := (gmap string (work_stats * gmap string work_stats)).

Class PlanEnvironment := {
  plan_archive :: Archive archived_statistics;
  settings_at : nat → settings controller_settings * disk;
  undisturbed : nat → bool;
  iteration_order : nat → gset string → list string
}.

Definition repo_at `{PlanEnvironment} (t : nat) : worker_info_repository :=
  (settings_at t).1.(_settings).(workerInfo).

Definition repository_race : fault := undefined_behaviour "data race on the worker repository".

(** [_controller.get_worker_info_repository()] at a moment, with what the caller
    does to the repository without its mutex. *)
Definition controller_repository `{PlanEnvironment} (t : nat) : outcome worker_info_repository :=
  if undisturbed t then (settings_repository (settings_at t)).1 else Crash repository_race.

(** The settings file can be written, if it has to be. *)
Definition saves_settings `{PlanEnvironment} (t : nat) : bool :=
  negb ((settings_at t).1.(_autoSave) && negb (settings_at t).2.(writable)).

Definition accessible `{PlanEnvironment} (t : nat) : Prop := undisturbed t = true ∧ saves_settings t = true.

Lemma controller_repository_run `{PlanEnvironment} t :
  controller_repository t =
    if undisturbed t then
      if saves_settings t then Ret (repo_at t) else Throw (ios_failure "basic_ios::clear")
    else Crash repository_race.
Proof.
  unfold controller_repository, saves_settings, repo_at. destruct (undisturbed t); [|done].
  destruct (settings_at t) as [s d]. rewrite settings_repository_run. cbn. by destruct (_ && _).
Qed.

Lemma controller_repository_ret `{PlanEnvironment} t : accessible t → controller_repository t = Ret (repo_at t).
Proof. intros [Hu Hs]. by rewrite controller_repository_run, Hu, Hs. Qed.

Lemma controller_repository_inv `{PlanEnvironment} t r :
  controller_repository t = Ret r → accessible t ∧ r = repo_at t.
Proof.
  rewrite controller_repository_run. unfold accessible. destruct (undisturbed t), (saves_settings t); naive_solver.
Qed.

(** The repository between two accesses is changed by operations of the
    controller only; an iteration visits every element once. *)
Class PlanEnvironmentLaws `{PlanEnvironment} := {
  repo_history : ∀ t, ∃ ops, repo_at (S t) = repo_run ops (repo_at t);
  repo_start_wf : repository_wf (repo_at 0);
  iteration_order_elements : ∀ t s, iteration_order t s ≡ₚ elements s
}.

Section WorkPlan.
Context {PG : Pagmo} {PE : PlanEnvironment}.

(** One element of the plan: population size, cycle count, preferred worker,
    algorithm. *)
Abbreviation plan_entry := (Z * Z * string * algorithm)%type.

(** What the function's loops share: the number of repository accesses so far,
    the round-robin pointer and the workers not chosen yet. *)
Record plan_state := {
  access : nat;
  algorithmPtr : nat;
  connectedWorkers : gset string
}.

Definition read_repo : M plan_state worker_info_repository := λ s,
  (Ret (repo_at s.(access)),
   {| access := S s.(access); algorithmPtr := s.(algorithmPtr);
      connectedWorkers := s.(connectedWorkers) |}).

(** The helper lambda: [algorithms.end()] is the length. *)
Definition getAlgorithm (algorithms : list algorithm) : M plan_state algorithm := λ s,
  let ptr := if decide (s.(algorithmPtr) = length algorithms) then 0%nat else s.(algorithmPtr) in
  match algorithms !! ptr with
  | Some alg =>
      (Ret alg, {| access := s.(access); algorithmPtr := S ptr;
                   connectedWorkers := s.(connectedWorkers) |})
  | None => (Crash (undefined_behaviour "end iterator dereferenced"), s)
  end.

(** ** OPTION 1 *)
Fixpoint equal_islands (n : nat) (islandPop : Z) (algorithms : list algorithm) :
    M plan_state (list plan_entry) :=
  match n with
  | O => mret []
  | S n =>
      alg ← getAlgorithm algorithms;
      output ← equal_islands n islandPop algorithms;
      mret ((islandPop, 1, ""%string, alg) :: output)
  end.

(** ** OPTION 2 *)
Record best_so_far := {
  bestTotalAvg : double;
  bestTotalWorkerId : string;
  bestAlgoAvg : double;
  bestAlgoWorkerId : string
}.

Definition no_best : best_so_far :=
  {| bestTotalAvg := double_zero; bestTotalWorkerId := "";
     bestAlgoAvg := double_zero; bestAlgoWorkerId := "" |}.

Definition total_avg (wInfo : worker_info) : double :=
  safe_divide wInfo.(totalStats).(processedPopulation) wInfo.(totalStats).(workTime) double_zero.

Definition algo_avg (wInfo : worker_info) (algoName : string) : double :=
  match wInfo.(statsByAlgorithm) !! algoName with
  | Some algoStats => safe_divide algoStats.(processedPopulation) algoStats.(workTime) double_zero
  | None => double_zero
  end.

(** One pass of the loop over [connectedWorkers]. *)
Definition consider (algoName workerId : string) (wInfo : worker_info) (b : best_so_far) : best_so_far :=
  let wTotalAvg := total_avg wInfo in
  let wAlgoAvg := algo_avg wInfo algoName in
  let total := double_leb b.(bestTotalAvg) wTotalAvg in
  let algo := double_leb b.(bestAlgoAvg) wAlgoAvg in
  {| bestTotalAvg := if total then wTotalAvg else b.(bestTotalAvg);
     bestTotalWorkerId := if total then workerId else b.(bestTotalWorkerId);
     bestAlgoAvg := if algo then wAlgoAvg else b.(bestAlgoAvg);
     bestAlgoWorkerId := if algo then workerId else b.(bestAlgoWorkerId) |}.

Fixpoint find_best (algoName : string) (workers : list string) (b : best_so_far) :
    M plan_state best_so_far :=
  match workers with
  | [] => mret b
  | workerId :: workers =>
      repo ← read_repo;
      match get_worker_info workerId repo with
      | None => crash (undefined_behaviour "operator-> of an empty optional")
      | Some wInfo => find_best algoName workers (consider algoName workerId wInfo b)
      end
  end.

Definition prefer_total (b : best_so_far) : bool :=
  double_ltb (double_mul (double_of_Z 2) b.(bestAlgoAvg)) b.(bestTotalAvg).

Definition chosen_worker (b : best_so_far) : string :=
  if prefer_total b then b.(bestTotalWorkerId) else b.(bestAlgoWorkerId).

Definition chosen_avg (b : best_so_far) : double :=
  if prefer_total b then b.(bestTotalAvg) else b.(bestAlgoAvg).

Definition erase_worker (w : string) : M plan_state unit :=
  modify (λ s, {| access := s.(access); algorithmPtr := s.(algorithmPtr);
                  connectedWorkers := s.(connectedWorkers) ∖ {[w]} |}).

(** Step 1: [workersPreprocessed]. *)
Fixpoint assign_workers (n : nat) (algorithms : list algorithm) :
    M plan_state (list (string * algorithm * double)) :=
  match n with
  | O => mret []
  | S n =>
      currentAlgorithm ← getAlgorithm algorithms;
      s ← get_state;
      b ← find_best (algorithm_get_name currentAlgorithm)
            (iteration_order s.(access) s.(connectedWorkers)) no_best;
      _ ← erase_worker (chosen_worker b);
      workersPreprocessed ← assign_workers n algorithms;
      mret ((chosen_worker b, currentAlgorithm, chosen_avg b) :: workersPreprocessed)
  end.

(** Steps 2 and 3. *)
Definition total_performance (ws : list (string * algorithm * double)) : double :=
  foldl double_add double_zero (snd <$> ws).

Definition worker_share (totalPerformance perfMetric : double) (count : Z) : double :=
  if double_ltb double_zero totalPerformance then double_div perfMetric totalPerformance
  else double_div (double_of_Z 1) (double_of_Z count).

Definition island_size (minIslandPopSize populationSize : Z) (share : double) : outcome Z :=
  workerPopSize ← size_t_of_double (double_mul (double_of_Z populationSize) share);
  ceil_to_multiple (Z.max minIslandPopSize workerPopSize) 4.

Fixpoint divide_population (ws : list (string * algorithm * double)) (totalPerformance : double)
    (count minIslandPopSize populationSize : Z) : outcome (list plan_entry) :=
  match ws with
  | [] => Ret []
  | (workerId, algorithm, perfMetric) :: ws =>
      size ← island_size minIslandPopSize populationSize
               (worker_share totalPerformance perfMetric count);
      output ← divide_population ws totalPerformance count minIslandPopSize populationSize;
      Ret ((size, 1, workerId, algorithm) :: output)
  end.

(** ** The function *)
Definition _generate_work_plan (strategy : load_balancing_strategy)
    (islandCount populationSize : Z) (algorithms : list algorithm) (minIslandPopSize : Z) :
    outcome (list plan_entry) :=
  repo ← controller_repository 0;
  let connected := get_connected_workers repo in
  let workerCount := Z.of_nat (size connected) in
  let start := {| access := 1; algorithmPtr := 0; connectedWorkers := connected |} in
  if (workerCount <? islandCount) || bool_decide (strategy = ALL_ISLANDS_EQUAL) then
    if islandCount =? 0 then Crash (undefined_behaviour "division by zero")
    else
      islandPop ← ceil_to_multiple (Z.max minIslandPopSize (populationSize / islandCount)) 4;
      (equal_islands (Z.to_nat islandCount) islandPop algorithms start).1
  else
    workersPreprocessed ← (assign_workers (Z.to_nat islandCount) algorithms start).1;
    divide_population workersPreprocessed (total_performance workersPreprocessed)
      (Z.of_nat (length workersPreprocessed)) minIslandPopSize populationSize.

(** ** Lemmas: the repository over time *)

Context {PL : PlanEnvironmentLaws}.

Lemma repo_at_wf t : repository_wf (repo_at t).
Proof.
  induction t as [|t IH]; [apply repo_start_wf|].
  destruct (repo_history t) as [ops ->]. by apply repo_run_wf.
Qed.

Lemma repo_run_keeps_record ops r w :
  repository_wf r → is_Some (r.(_workerRecords) !! w) → is_Some ((repo_run ops r).(_workerRecords) !! w).
Proof.
  revert r. induction ops as [|o ops IH]; intros r Hr [i Hi]; [by exists i|].
  destruct (repo_exec_total o r w i Hi Hr) as (i' & Hi' & _).
  apply IH; [by apply repo_exec_wf|by exists i'].
Qed.

(** A worker that was connected once has a well-formed record from then on. *)
Lemma record_at t w :
  w ∈ get_connected_workers (repo_at 0) →
  ∃ i, get_worker_info w (repo_at t) = Some i ∧ info_wf i.
Proof.
  intros Hw. assert (is_Some ((repo_at t).(_workerRecords) !! w)) as [i Hi].
  { induction t as [|t IH]; [by apply (proj1 repo_start_wf)|].
    destruct (repo_history t) as [ops ->]. apply repo_run_keeps_record; [apply repo_at_wf|done]. }
  exists i. split; [exact Hi|]. apply (proj2 (repo_at_wf t) w i Hi).
Qed.

(** ** Lemmas: performance metrics *)

Lemma safe_divide_below s : stats_in_range s →
  below 66 (safe_divide s.(processedPopulation) s.(workTime) double_zero).
Proof.
  intros [Ht Hp]. unfold safe_divide. destruct (0 <? workTime s) eqn:E; [|done].
  apply Z.ltb_lt in E.
  apply (double_div_below _ _ 65 1 64); [|by apply double_of_Z_above|lia|lia].
  apply (double_of_Z_below _ 64); lia.
Qed.

Lemma total_avg_below i : info_wf i → below 66 (total_avg i).
Proof. intros (H & _). by apply safe_divide_below. Qed.

Lemma algo_avg_below i a : info_wf i → below 66 (algo_avg i a).
Proof.
  intros (_ & H & _). unfold algo_avg. destruct (statsByAlgorithm i !! a) as [s|] eqn:E; [|done].
  apply safe_divide_below. by apply (H a s).
Qed.

(** ** Lemmas: choosing the worker *)

(** Having seen the workers [seen]. *)
Record best_inv (seen : list string) (b : best_so_far) : Prop := {
  inv_total_metric : below 66 b.(bestTotalAvg);
  inv_algo_metric : below 66 b.(bestAlgoAvg);
  inv_start : seen = [] → b = no_best;
  inv_total_seen : seen ≠ [] → b.(bestTotalWorkerId) ∈ seen;
  inv_algo_seen : seen ≠ [] → b.(bestAlgoWorkerId) ∈ seen
}.

Lemma no_best_inv : best_inv [] no_best.
Proof. by split. Qed.

Lemma consider_inv algoName seen b w i :
  info_wf i → best_inv seen b → best_inv (w :: seen) (consider algoName w i b).
Proof.
  intros Hi [Ht Ha Hs Hts Has].
  pose proof (total_avg_below i Hi) as Htb. pose proof (algo_avg_below i algoName Hi) as Hab.
  split; cbn.
  - by destruct (double_leb _ _).
  - by destruct (double_leb _ _).
  - done.
  - intros _. destruct (double_leb _ _) eqn:E; [by left|]. right. apply Hts. intros Hn.
    rewrite (Hs Hn) in E. cbn in E. by rewrite double_leb_zero in E by (by eapply below_nonneg).
  - intros _. destruct (double_leb _ _) eqn:E; [by left|]. right. apply Has. intros Hn.
    rewrite (Hs Hn) in E. cbn in E. by rewrite double_leb_zero in E by (by eapply below_nonneg).
Qed.

Definition advance (n : nat) (s : plan_state) : plan_state :=
  {| access := (n + s.(access))%nat; algorithmPtr := s.(algorithmPtr);
     connectedWorkers := s.(connectedWorkers) |}.

Lemma find_best_run algoName workers seen b s :
  Forall (λ w, w ∈ get_connected_workers (repo_at 0)) workers → best_inv seen b →
  ∃ b', find_best algoName workers b s = (Ret b', advance (length workers) s) ∧
    best_inv (rev workers ++ seen) b'.
Proof.
  intros Hw. revert seen b s. induction Hw as [|w workers Hw _ IH]; intros seen b s Hb.
  { exists b. by destruct s. }
  cbn [find_best]. rewrite bind_run. cbn [read_repo].
  destruct (record_at s.(access) w Hw) as (i & -> & Hi).
  destruct (IH (w :: seen) (consider algoName w i b)
    {| access := S s.(access); algorithmPtr := s.(algorithmPtr); connectedWorkers := s.(connectedWorkers) |})
    as (b' & E & Hb'); [by apply consider_inv|].
  exists b'. cbn [rev]. rewrite E, <- app_assoc. split; [|done]. unfold advance. cbn. do 2 f_equal. lia.
Qed.

Lemma chosen_worker_seen seen b : best_inv seen b → seen ≠ [] → chosen_worker b ∈ seen.
Proof.
  intros Hb Hs. unfold chosen_worker. destruct (prefer_total b); by apply Hb.
Qed.

Lemma chosen_avg_below seen b : best_inv seen b → below 66 (chosen_avg b).
Proof. intros Hb. unfold chosen_avg. destruct (prefer_total b); by apply Hb. Qed.

(** ** Lemmas: the round robin *)

(** After [k] calls of the lambda. *)
Definition ptr_inv (len k : nat) (s : plan_state) : Prop :=
  (s.(algorithmPtr) ≤ len)%nat ∧ (s.(algorithmPtr) mod len = k mod len)%nat.

Lemma getAlgorithm_run algorithms k s :
  algorithms ≠ [] → ptr_inv (length algorithms) k s →
  ∃ alg ptr, getAlgorithm algorithms s =
      (Ret alg, {| access := s.(access); algorithmPtr := ptr; connectedWorkers := s.(connectedWorkers) |}) ∧
    algorithms !! (k mod length algorithms)%nat = Some alg ∧
    (ptr ≤ length algorithms)%nat ∧ (ptr mod length algorithms = S k mod length algorithms)%nat.
Proof.
  intros Hne [Hle Hmod]. assert (length algorithms ≠ 0%nat) as Hlen by (by destruct algorithms).
  unfold getAlgorithm. set (ptr := if decide _ then _ else _).
  assert (ptr < length algorithms ∧ ptr = k mod length algorithms)%nat as [Hlt Hk].
  { unfold ptr. destruct (decide _) as [E|E].
    - rewrite E, Nat.Div0.mod_same in Hmod. lia.
    - split; [lia|]. rewrite <- Hmod. symmetry. apply Nat.mod_small. lia. }
  destruct (lookup_lt_is_Some_2 algorithms ptr Hlt) as [alg Halg]. rewrite Halg.
  exists alg, (S ptr). split_and!; [done|by rewrite <- Hk|lia|].
  rewrite Hk. rewrite <- (Nat.add_1_r (k mod _)), <- (Nat.add_1_r k).
  apply Nat.Div0.add_mod_idemp_l.
Qed.

(** [algs] are the algorithms of the calls number [k], [k+1], ... *)
Definition round_robin (algorithms : list algorithm) (k : nat) (algs : list algorithm) : Prop :=
  ∀ i alg, algs !! i = Some alg → algorithms !! ((k + i) mod length algorithms)%nat = Some alg.

Lemma round_robin_cons algorithms k alg algs :
  algorithms !! (k mod length algorithms)%nat = Some alg →
  round_robin algorithms (S k) algs → round_robin algorithms k (alg :: algs).
Proof.
  intros H Hr [|i] a Ha; cbn in Ha; [by rewrite Nat.add_0_r; simplify_eq|].
  replace (k + S i)%nat with (S k + i)%nat by lia. by apply Hr.
Qed.

Definition entry_size (e : plan_entry) : Z := e.1.1.1.
Definition entry_cycles (e : plan_entry) : Z := e.1.1.2.
Definition entry_worker (e : plan_entry) : string := e.1.2.
Definition entry_algorithm (e : plan_entry) : algorithm := e.2.

Lemma equal_islands_run n islandPop algorithms k s :
  algorithms ≠ [] → ptr_inv (length algorithms) k s →
  ∃ out, (equal_islands n islandPop algorithms s).1 = Ret out ∧ length out = n ∧
    Forall (λ e, entry_size e = islandPop ∧ entry_cycles e = 1 ∧ entry_worker e = ""%string) out ∧
    round_robin algorithms k (entry_algorithm <$> out).
Proof.
  intros Hne. revert k s. induction n as [|n IH]; intros k s Hp.
  { exists []. by split_and!; try constructor. }
  cbn [equal_islands].
  destruct (getAlgorithm_run algorithms k s Hne Hp) as (alg & ptr & E & Halg & Hle & Hmod).
  rewrite bind_run, E.
  set (s' := {| access := _; algorithmPtr := _; connectedWorkers := _ |}).
  destruct (IH (S k) s' (conj Hle Hmod)) as (out & Eo & Hlen & Hall & Hrr).
  exists ((islandPop, 1, ""%string, alg) :: out). rewrite bind_run.
  destruct (equal_islands n islandPop algorithms s') as [o s'']. cbn in Eo. rewrite Eo.
  split_and!; [done|cbn; lia|by constructor|by apply round_robin_cons].
Qed.

Abbreviation preprocessed := (string * algorithm * double)%type.

(** Step 1 gives each island a worker of its own. *)
Lemma assign_workers_run n algorithms k s :
  algorithms ≠ [] → ptr_inv (length algorithms) k s →
  s.(connectedWorkers) ⊆ get_connected_workers (repo_at 0) → (n ≤ size s.(connectedWorkers))%nat →
  ∃ ws : list preprocessed, (assign_workers n algorithms s).1 = Ret ws ∧ length ws = n ∧
    NoDup (fst ∘ fst <$> ws) ∧ Forall (λ w, w.1.1 ∈ s.(connectedWorkers) ∧ below 66 w.2) ws ∧
    round_robin algorithms k (snd ∘ fst <$> ws).
Proof.
  intros Hne. revert k s. induction n as [|n IH]; intros k s Hp Hsub Hn.
  { exists []. by split_and!; try constructor. }
  cbn [assign_workers].
  destruct (getAlgorithm_run algorithms k s Hne Hp) as (alg & ptr & E & Halg & Hle & Hmod).
  rewrite bind_run, E. rewrite bind_run. cbn [get_state access connectedWorkers].
  set (order := iteration_order (access s) (connectedWorkers s)).
  assert (∀ w, w ∈ order ↔ w ∈ connectedWorkers s) as Horder.
  { intros w. unfold order. rewrite iteration_order_elements. apply elem_of_elements. }
  destruct (find_best_run (algorithm_get_name alg) order [] no_best
    {| access := access s; algorithmPtr := ptr; connectedWorkers := connectedWorkers s |})
    as (b & Eb & Hb); [|apply no_best_inv|].
  { apply list.Forall_forall. intros w Hw. apply Hsub. by apply Horder. }
  rewrite bind_run, Eb. rewrite app_nil_r in Hb.
  assert (chosen_worker b ∈ connectedWorkers s) as Hc.
  { apply Horder. rewrite <- elem_of_reverse. unfold reverse. rewrite <- List.rev_alt. eapply chosen_worker_seen; [done|].
    intros Hnil. apply (f_equal length) in Hnil. rewrite length_rev in Hnil. unfold order in Hnil.
    rewrite iteration_order_elements in Hnil. cbn in Hnil. unfold size, set_size in Hn. cbn in Hn. lia. }
  rewrite bind_run. cbn [erase_worker modify advance access algorithmPtr connectedWorkers].
  set (s' := {| access := _; algorithmPtr := _; connectedWorkers := connectedWorkers s ∖ _ |}).
  destruct (IH (S k) s') as (ws & Ews & Hlen & Hnd & Hall & Hrr).
  { done. }
  { unfold s'. cbn. set_solver. }
  { unfold s'. cbn. rewrite size_difference, size_singleton by set_solver. lia. }
  exists ((chosen_worker b, alg, chosen_avg b) :: ws). rewrite bind_run.
  destruct (assign_workers n algorithms s') as [o s'']. cbn in Ews. rewrite Ews. split_and!.
  - done.
  - cbn. lia.
  - rewrite fmap_cons. apply list.NoDup_cons. split; [|done]. cbn. intros (w & Hw & Hin)%list_elem_of_fmap.
    rewrite list.Forall_forall in Hall. destruct (Hall w Hin) as [Hin' _]. unfold s' in Hin'. cbn in *.
    rewrite <- Hw in Hin'. set_solver.
  - constructor; [split; [exact Hc|exact (chosen_avg_below _ _ Hb)]|].
    revert Hall. apply Forall_impl. intros w [Hw ?]. split; [|done]. by apply elem_of_difference in Hw as [? _].
  - by apply round_robin_cons.
Qed.

(** Shares are less than 4, whatever the rounding. *)
Lemma worker_share_below (ws : list preprocessed) w :
  Forall (λ w, below 66 w.2) ws → w ∈ ws →
  below 2 (worker_share (total_performance ws) w.2 (Z.of_nat (length ws))).
Proof.
  intros Hall Hin. unfold worker_share.
  assert (Forall proper (snd <$> ws)) as Hp.
  { apply Forall_fmap. revert Hall. apply Forall_impl. intros x. apply below_proper. }
  pose proof (double_sum_proper (snd <$> ws) double_zero I Hp) as Ht. fold (total_performance ws) in Ht.
  destruct (double_ltb double_zero (total_performance ws)) eqn:E.
  - assert (below 66 w.2) as Hw by (rewrite list.Forall_forall in Hall; by apply (Hall w)).
    destruct (proper_zero_or_above w.2 (below_proper _ _ Hw)) as [Hz|[k Hk]].
    + rewrite Hz. destruct (total_performance ws) as [[]|[]| |[]]; done.
    + destruct w as [[w a] x]. cbn [snd] in *. destruct x as [[]|[]| |[] m e]; try done.
      assert (above (Zdigits2 (Zpos m) + e) (S754_finite false m e)) as Hk' by (cbn in Hw |- *; lia).
      apply (double_div_below _ _ (Zdigits2 (Zpos m) + e) (Zdigits2 (Zpos m) + e) 0);
        [cbn in Hw |- *; lia| |lia|lia].
      apply (double_sum_above _ (S754_finite false m e)); [done|done|right; split; [|done]].
      change (S754_finite false m e) with ((w, a, S754_finite false m e).2).
      by apply list_elem_of_fmap_2.
  - apply (double_div_below _ _ 1 1 0); [|apply double_of_Z_above|lia|lia].
    + change (double_of_Z 1) with (S754_finite false 4503599627370496 (-52)). cbn. lia.
    + destruct ws; [by apply elem_of_nil in Hin|]. cbn. lia.
Qed.

Lemma island_size_run mn total share :
  0 ≤ mn ≤ 2 ^ 64 - 4 → 0 ≤ total < 2 ^ 59 → below 2 share →
  ∃ size, island_size mn total share = Ret size ∧ mn ≤ size < 2 ^ 64 ∧ size mod 4 = 0.
Proof.
  intros Hmn Ht Hs. unfold island_size.
  destruct (size_t_of_double_below (double_mul (double_of_Z total) share) 63) as (z & -> & Hz); [lia| |].
  { apply (double_mul_below _ _ 60 2); [by apply (double_of_Z_below _ 59)|done|lia]. }
  cbn [mbind outcome_bind]. exists (least_multiple (Z.max mn z) 4).
  rewrite ceil_to_multiple_least by lia.
  destruct (least_multiple_spec (Z.max mn z) 4) as [[q Hq] Hle]; [lia|].
  split_and!; [done|lia| |rewrite Hq; apply Z.mod_mul; lia].
  Z.div_mod_to_equations. lia.
Qed.

Lemma divide_population_run (ws : list preprocessed) tot count mn total :
  0 ≤ mn ≤ 2 ^ 64 - 4 → 0 ≤ total < 2 ^ 59 →
  Forall (λ w, below 2 (worker_share tot w.2 count)) ws →
  ∃ out, divide_population ws tot count mn total = Ret out ∧
    Forall2 (λ w e, entry_worker e = w.1.1 ∧ entry_algorithm e = w.1.2 ∧ entry_cycles e = 1 ∧
      mn ≤ entry_size e < 2 ^ 64 ∧ entry_size e mod 4 = 0) ws out.
Proof.
  intros Hmn Ht. induction 1 as [|[[w a] x] ws Hx _ (out & E & Hf)]; [by exists []|].
  cbn [divide_population]. cbn [snd] in Hx.
  destruct (island_size_run mn total _ Hmn Ht Hx) as (size & -> & Hs). cbn [mbind outcome_bind].
  rewrite E. cbn [mbind outcome_bind]. eexists. split; [reflexivity|]. by constructor.
Qed.

(** ** The plan *)

(** Parameters for which no 64-bit computation of the plan wraps. *)
Record plan_config (islandCount populationSize : Z) (algorithms : list algorithm)
    (minIslandPopSize : Z) : Prop := {
  plan_algorithms : algorithms ≠ [];
  plan_islands : 0 < islandCount;
  plan_population : 0 ≤ populationSize < 2 ^ 59;
  plan_minimum : 0 ≤ minIslandPopSize ≤ 2 ^ 64 - 4
}.

(** A worker is preferred only when there are enough of them. *)
Definition by_performance (strategy : load_balancing_strategy) (islandCount : Z) : bool :=
  negb ((Z.of_nat (size (get_connected_workers (repo_at 0))) <? islandCount) ||
        bool_decide (strategy = ALL_ISLANDS_EQUAL)).

Definition workers_ok (preferred : bool) (plan : list plan_entry) : Prop :=
  if preferred then
    NoDup (entry_worker <$> plan) ∧
    Forall (λ e, entry_worker e ∈ get_connected_workers (repo_at 0)) plan
  else
    Forall (λ e, entry_worker e = ""%string) plan ∧
    ∀ e e', e ∈ plan → e' ∈ plan → entry_size e = entry_size e'.

Lemma equal_plan strategy islandCount populationSize algorithms minIslandPopSize :
  accessible 0 → plan_config islandCount populationSize algorithms minIslandPopSize →
  by_performance strategy islandCount = false →
  ∃ plan, _generate_work_plan strategy islandCount populationSize algorithms minIslandPopSize = Ret plan ∧
    Z.of_nat (length plan) = islandCount ∧
    Forall (λ e, minIslandPopSize ≤ entry_size e < 2 ^ 64 ∧ entry_size e mod 4 = 0 ∧ entry_cycles e = 1) plan ∧
    round_robin algorithms 0 (entry_algorithm <$> plan) ∧ workers_ok false plan.
Proof.
  intros Hacc [Hne Hi Hpop Hmn] Hb. unfold by_performance in Hb. apply negb_false_iff in Hb.
  unfold _generate_work_plan. rewrite (controller_repository_ret 0 Hacc). cbn [mbind outcome_bind]. rewrite Hb, (proj2 (Z.eqb_neq islandCount 0)) by lia.
  pose proof (Z.div_pos populationSize islandCount ltac:(lia) Hi).
  pose proof (Z.div_le_upper_bound populationSize islandCount populationSize Hi ltac:(nia)).
  set (q := populationSize / islandCount) in *. clearbody q.
  rewrite ceil_to_multiple_least by lia. cbn [mbind outcome_bind].
  destruct (least_multiple_spec (Z.max minIslandPopSize q) 4) as [[m Hm] Hle]; [lia|].
  set (start := {| access := 1; algorithmPtr := 0; connectedWorkers := _ |}).
  destruct (equal_islands_run (Z.to_nat islandCount) (least_multiple (Z.max minIslandPopSize q) 4)
    algorithms 0 start Hne) as (out & E & Hlen & Hall & Hrr); [by split; cbn; [lia|]|].
  exists out. split_and!; [exact E|lia| |done|].
  - revert Hall. apply Forall_impl. intros e (-> & -> & _). rewrite Hm.
    split_and!; [lia|lia|apply Z.mod_mul; lia|done].
  - rewrite list.Forall_forall in Hall. split.
    + apply list.Forall_forall. intros e He. apply (Hall e He).
    + intros e e' He He'. destruct (Hall e He) as [-> _], (Hall e' He') as [-> _]. done.
Qed.

Lemma performance_plan strategy islandCount populationSize algorithms minIslandPopSize :
  accessible 0 → plan_config islandCount populationSize algorithms minIslandPopSize →
  by_performance strategy islandCount = true →
  ∃ plan, _generate_work_plan strategy islandCount populationSize algorithms minIslandPopSize = Ret plan ∧
    Z.of_nat (length plan) = islandCount ∧
    Forall (λ e, minIslandPopSize ≤ entry_size e < 2 ^ 64 ∧ entry_size e mod 4 = 0 ∧ entry_cycles e = 1) plan ∧
    round_robin algorithms 0 (entry_algorithm <$> plan) ∧ workers_ok true plan.
Proof.
  intros Hacc [Hne Hi Hpop Hmn] Hb. unfold by_performance in Hb. apply negb_true_iff in Hb.
  unfold _generate_work_plan. rewrite (controller_repository_ret 0 Hacc). cbn [mbind outcome_bind]. rewrite Hb. apply orb_false_iff in Hb as [Hb _]. apply Z.ltb_ge in Hb.
  set (start := {| access := 1; algorithmPtr := 0; connectedWorkers := _ |}).
  destruct (assign_workers_run (Z.to_nat islandCount) algorithms 0 start Hne)
    as (ws & E & Hlen & Hnd & Hall & Hrr); [by split; cbn; [lia|]|done|unfold start; cbn; lia|].
  rewrite E. cbn [mbind outcome_bind].
  assert (Forall (λ w, below 2 (worker_share (total_performance ws) w.2 (Z.of_nat (length ws)))) ws) as Hsh.
  { apply list.Forall_forall. intros w Hw. apply worker_share_below; [|done].
    revert Hall. apply Forall_impl. by intros ? [_ ?]. }
  destruct (divide_population_run ws _ _ _ _ Hmn Hpop Hsh) as (out & Eo & Hf).
  assert (entry_worker <$> out = fst ∘ fst <$> ws ∧ entry_algorithm <$> out = snd ∘ fst <$> ws) as [Hw Ha].
  { clear -Hf. induction Hf as [|w e ws out (Hw & Ha & _) _ [IHw IHa]]; [done|].
    by rewrite !fmap_cons, IHw, IHa, Hw, Ha. }
  exists out. split_and!; [exact Eo| | |by rewrite Ha|split; [by rewrite Hw|]].
  - apply Forall2_length in Hf. lia.
  - apply list.Forall_forall. intros e [i He]%list_elem_of_lookup.
    by destruct (Forall2_lookup_r _ _ _ _ _ Hf He) as (w & _ & _ & _ & ? & ? & ?).
  - assert (Forall (λ n, n ∈ get_connected_workers (repo_at 0)) (entry_worker <$> out)) as Hin.
    { rewrite Hw. apply Forall_fmap. revert Hall. apply Forall_impl. by intros ? [? _]. }
    by apply Forall_fmap in Hin.
Qed.

(** C9. The plan of any strategy, for any behaviour of the workers meanwhile, with
    at least one algorithm and one island and sizes that do not wrap: if the
    repository can be accessed (its settings file can be written, or need not
    be, and the controller's thread does not change the repository while the
    solver reads it without its mutex) the plan is made (no exception, no
    undefined conversion), it has one entry per island, every island gets at
    least the minimal size, rounded up to a multiple of four, and one cycle,
    and the algorithms are taken in turn. When there are at least as many
    connected workers as islands and performance counts, each island prefers a
    connected worker of its own; otherwise none prefers any and all islands are
    equal. If the settings file cannot be written the plan throws, and if the
    controller's thread changes the repository meanwhile it is a data race. *)
Theorem work_plan_correct strategy islandCount populationSize algorithms minIslandPopSize :
  plan_config islandCount populationSize algorithms minIslandPopSize →
  let result := _generate_work_plan strategy islandCount populationSize algorithms minIslandPopSize in
  (accessible 0 → ∃ plan, result = Ret plan ∧
    Z.of_nat (length plan) = islandCount ∧
    Forall (λ e, minIslandPopSize ≤ entry_size e < 2 ^ 64 ∧ entry_size e mod 4 = 0 ∧ entry_cycles e = 1) plan ∧
    round_robin algorithms 0 (entry_algorithm <$> plan) ∧
    workers_ok (by_performance strategy islandCount) plan) ∧
  (undisturbed 0 = true → saves_settings 0 = false → result = Throw (ios_failure "basic_ios::clear")) ∧
  (undisturbed 0 = false → result = Crash repository_race).
Proof.
  intros Hc result. subst result. split_and!.
  - intros Ha. destruct (by_performance strategy islandCount) eqn:E.
    + by apply performance_plan.
    + by apply equal_plan.
  - intros Hu Hs. unfold _generate_work_plan. by rewrite controller_repository_run, Hu, Hs.
  - intros Hu. unfold _generate_work_plan. by rewrite controller_repository_run, Hu.
Qed.

(** Without algorithms the chooser dereferences the end iterator; no islands
    under the equal strategy divide by zero. *)
Theorem work_plan_undefined strategy islandCount populationSize algorithms minIslandPopSize :
  accessible 0 →
  0 < islandCount ∧ algorithms = [] ∨ islandCount = 0 ∧ strategy = ALL_ISLANDS_EQUAL →
  ∃ what, _generate_work_plan strategy islandCount populationSize algorithms minIslandPopSize =
    Crash (undefined_behaviour what).
Proof.
  intros Ha [[Hi ->]|[-> ->]]; unfold _generate_work_plan; rewrite (controller_repository_ret 0 Ha);
    cbn [mbind outcome_bind]; cycle 1.
  { rewrite orb_true_r. by eexists. }
  assert (∃ n, Z.to_nat islandCount = S n) as [n Hn] by (exists (pred (Z.to_nat islandCount)); lia).
  rewrite Hn, (proj2 (Z.eqb_neq islandCount 0)) by lia. destruct (_ || _); [|by eexists].
  unfold ceil_to_multiple. cbn [Z.eqb]. destruct (_ =? 0); by eexists.
Qed.

(** ** The choice *)

(** [a] is no better than [b]. *)
Definition no_better (a b : double) : Prop := double_ltb b a = false.

Lemma double_leb_ltb x y : is_nan x = false → is_nan y = false → double_leb x y = negb (double_ltb y x).
Proof.
  intros Hx Hy. unfold double_leb, double_ltb, SFleb, SFltb.
  destruct x as [[]|[]| |[] m e], y as [[]|[]| |[] m' e']; try done; cbn [SFcompare].
  all: rewrite (Z.compare_antisym e e'); destruct (e ?= e'); cbn [CompOpp]; try done.
  all: change (PosDef.Pos.compare_cont Eq m m') with (m ?= m')%positive;
       change (PosDef.Pos.compare_cont Eq m' m) with (m' ?= m)%positive;
       rewrite (Pos.compare_antisym m' m); by destruct (m' ?= m)%positive.
Qed.

Lemma below_number k x : below k x → is_nan x = false.
Proof. by destruct x as [[]|[]| |[]]. Qed.

Lemma no_better_refl x : is_nan x = false → no_better x x.
Proof. intros H. apply (sw_irrefl _ _ (double_ltb_strict_weak id [x] ltac:(set_solver))). set_solver. Qed.

Lemma double_ltb_asym x y :
  is_nan x = false → is_nan y = false → double_ltb x y = true → no_better x y.
Proof.
  intros Hx Hy H. unfold no_better. destruct (double_ltb y x) eqn:E; [|done].
  assert (∀ a, a ∈ [x; y] → is_nan (id a) = false) as Hn by set_solver.
  pose proof (double_ltb_strict_weak id _ Hn) as Hsw.
  pose proof (sw_trans _ _ Hsw x y x ltac:(set_solver) ltac:(set_solver) ltac:(set_solver) H E) as Hxx.
  pose proof (sw_irrefl _ _ Hsw x ltac:(set_solver)) as Hr. cbn in *. congruence.
Qed.

Lemma no_better_trans x y z :
  is_nan x = false → is_nan y = false → is_nan z = false →
  no_better x y → no_better y z → no_better x z.
Proof.
  intros Hx Hy Hz H1 H2.
  assert (∀ a, a ∈ [x; y; z] → is_nan (id a) = false) as Hn by set_solver.
  apply (sw_incomparable _ _ (double_ltb_strict_weak id _ Hn) z y x); by set_solver.
Qed.

(** The best of the workers [seen], whose metrics are [total] and [algo]. *)
Record best_of (total algo : string → double) (seen : list string) (b : best_so_far) : Prop := {
  bo_totals : Forall (λ w, no_better (total w) b.(bestTotalAvg)) seen;
  bo_algos : Forall (λ w, no_better (algo w) b.(bestAlgoAvg)) seen;
  bo_total_by : seen ≠ [] → b.(bestTotalAvg) = total b.(bestTotalWorkerId);
  bo_algo_by : seen ≠ [] → b.(bestAlgoAvg) = algo b.(bestAlgoWorkerId)
}.

(** One metric: keeping the larger one. *)
Lemma keep_better (m : string → double) seen x id w :
  is_nan x = false → (∀ v, v ∈ w :: seen → is_nan (m v) = false) →
  Forall (λ v, no_better (m v) x) seen →
  (seen = [] → no_better x (m w)) → (seen ≠ [] → x = m id) →
  let up := double_leb x (m w) in
  let x' := if up then m w else x in
  is_nan x' = false ∧ Forall (λ v, no_better (m v) x') (w :: seen) ∧ x' = m (if up then w else id).
Proof.
  intros Hx Hm Hall Hnil Hid up x'. subst up x'. assert (is_nan (m w) = false) as Hw by (apply Hm; left).
  rewrite double_leb_ltb by done. destruct (double_ltb (m w) x) eqn:E; cbn [negb].
  - assert (seen ≠ []) as Hne by (intros Hn; specialize (Hnil Hn); unfold no_better in Hnil; congruence).
    split_and!; [done| |by apply Hid]. constructor; [|done].
    by apply double_ltb_asym.
  - split_and!; [done| |done]. constructor; [by apply no_better_refl|].
    apply list.Forall_forall. intros v Hv. rewrite list.Forall_forall in Hall.
    apply (no_better_trans _ x); [apply Hm; by right|done|done|by apply Hall|done].
Qed.

Lemma consider_best algoName (info : string → worker_info) seen b w :
  (∀ v, info_wf (info v)) → best_inv seen b →
  best_of (λ v, total_avg (info v)) (λ v, algo_avg (info v) algoName) seen b →
  best_of (λ v, total_avg (info v)) (λ v, algo_avg (info v) algoName) (w :: seen)
    (consider algoName w (info w) b).
Proof.
  intros Hi [Ht Ha Hs _ _] [H1 H2 H3 H4].
  assert (∀ x, below 66 x → no_better double_zero x) as Hz.
  { intros [[]|[]| |[]]; try done. }
  destruct (keep_better (λ v, total_avg (info v)) seen b.(bestTotalAvg) b.(bestTotalWorkerId) w)
    as (_ & Ht1 & Ht2); [by eapply below_number| | |intros Hn; rewrite (Hs Hn)|done|].
  { intros v _. by eapply below_number, total_avg_below. }
  { done. }
  { by apply Hz, total_avg_below. }
  destruct (keep_better (λ v, algo_avg (info v) algoName) seen b.(bestAlgoAvg) b.(bestAlgoWorkerId) w)
    as (_ & Ha1 & Ha2); [by eapply below_number| | |intros Hn; rewrite (Hs Hn)|done|].
  { intros v _. by eapply below_number, algo_avg_below. }
  { done. }
  { by apply Hz, algo_avg_below. }
  by split.
Qed.

(** While the statistics do not change, the loop over the connected workers
    finds a worker of the highest total throughput and one of the highest
    throughput with the algorithm. *)
Lemma find_best_best algoName info workers seen b s :
  (∀ v, info_wf (info v)) →
  (∀ t w, w ∈ workers → get_worker_info w (repo_at t) = Some (info w)) →
  best_inv seen b → best_of (λ v, total_avg (info v)) (λ v, algo_avg (info v) algoName) seen b →
  ∃ b' s', find_best algoName workers b s = (Ret b', s') ∧
    best_inv (rev workers ++ seen) b' ∧
    best_of (λ v, total_avg (info v)) (λ v, algo_avg (info v) algoName) (rev workers ++ seen) b'.
Proof.
  intros Hi. revert seen b s. induction workers as [|w workers IH]; intros seen b s Hw Hb Ho.
  { by exists b, s. }
  cbn [find_best]. rewrite bind_run. cbn [read_repo]. rewrite (Hw _ w) by left.
  cbn [rev]. rewrite <- app_assoc. apply IH.
  - intros t v Hv. apply Hw. by right.
  - by apply consider_inv.
  - by apply consider_best.
Qed.

(** The worker that is chosen: the one with the best throughput for the
    algorithm, unless some worker's total throughput is more than twice that. *)
Theorem chosen_worker_is_best algoName info workers s :
  (∀ v, info_wf (info v)) →
  (∀ t w, w ∈ workers → get_worker_info w (repo_at t) = Some (info w)) → workers ≠ [] →
  ∃ b s', find_best algoName workers no_best s = (Ret b, s') ∧
    chosen_worker b ∈ workers ∧
    chosen_avg b = (if prefer_total b then total_avg (info (chosen_worker b))
                    else algo_avg (info (chosen_worker b)) algoName) ∧
    ∀ w, w ∈ workers →
      no_better (total_avg (info w)) b.(bestTotalAvg) ∧ no_better (algo_avg (info w) algoName) b.(bestAlgoAvg).
Proof.
  intros Hi Hw Hne.
  destruct (find_best_best algoName info workers [] no_best s Hi Hw) as (b & s' & E & Hb & [H1 H2 H3 H4]);
    [apply no_best_inv|by split|]. rewrite app_nil_r in *.
  assert (∀ w, w ∈ rev workers ↔ w ∈ workers) as Hrev.
  { intros w. rewrite !list_elem_of_In. symmetry. apply in_rev. }
  assert (rev workers ≠ []) as Hne'.
  { intros Hn. apply (f_equal length) in Hn. rewrite length_rev in Hn. by destruct workers. }
  exists b, s'. split_and!; [done|apply Hrev; by eapply chosen_worker_seen| |].
  - unfold chosen_avg, chosen_worker. destruct (prefer_total b); [by apply H3|by apply H4].
  - intros w Hin. apply Hrev in Hin. rewrite list.Forall_forall in H1, H2. split; [by apply H1|by apply H2].
Qed.

End WorkPlan.

(** ** Witnesses: two workers, one of them three times as fast *)

Definition plan_ops : list repo_op :=
  [Joined "slow"; Joined "fast"; Started 0 "slow"; Started 0 "fast";
   Finished 4000000000 "slow" 100 "alg"; Finished 4000000000 "fast" 300 "alg"].

(** An archive that is never read. *)
Definition write_only : Archive archived_statistics := {| archive_writes := λ _, []; archive_read := λ _, None |}.

Definition plan_settings : settings controller_settings * disk :=
  (Build_settings {| workerInfo := repo_run plan_ops repository_init |} true,
   {| file := None; readable := true; writable := true |}).

#[export] Instance plan_environment : PlanEnvironment := {|
  plan_archive := write_only;
  settings_at := λ _, plan_settings;
  undisturbed := λ _, true;
  iteration_order := λ _ s, elements s
|}.

#[export] Instance plan_environment_laws : PlanEnvironmentLaws.
Proof.
  split.
  - intros t. by exists [].
  - apply repo_run_wf, repository_init_wf.
  - done.
Qed.

Definition plan_algorithm : algorithm (Pagmo := ToyPagmo) := "alg"%string.

Lemma plan_config_witness : plan_config 2 1000 [plan_algorithm] 80.
Proof. by split. Qed.

Lemma work_plan_correct_witness :
  ∃ plan, _generate_work_plan BY_PERFORMANCE 2 1000 [plan_algorithm] 80 = Ret plan ∧
    Z.of_nat (length plan) = 2 ∧
    Forall (λ e, 80 ≤ entry_size e < 2 ^ 64 ∧ entry_size e mod 4 = 0 ∧ entry_cycles e = 1) plan ∧
    round_robin [plan_algorithm] 0 (entry_algorithm <$> plan) ∧
    workers_ok (by_performance BY_PERFORMANCE 2) plan.
Proof. apply (work_plan_correct BY_PERFORMANCE 2 1000 [plan_algorithm] 80 plan_config_witness). by split. Defined.

(** The plan itself: 750 and 250 individuals, rounded up. *)
Example performance_plan_value :
  _generate_work_plan BY_PERFORMANCE 2 1000 [plan_algorithm] 80 =
    Ret [(752, 1, "fast"%string, plan_algorithm); (252, 1, "slow"%string, plan_algorithm)].
Proof. vm_compute. reflexivity. Qed.

Lemma work_plan_undefined_witness :
  ∃ what, _generate_work_plan BY_PERFORMANCE 2 1000 ([] : list (algorithm (Pagmo := ToyPagmo))) 80 =
    Crash (undefined_behaviour what).
Proof. apply work_plan_undefined; [by split|by left]. Defined.

Definition plan_info (w : string) : worker_info :=
  default worker_info_init ((repo_run plan_ops repository_init).(_workerRecords) !! w).

Lemma plan_info_wf w : info_wf (plan_info w).
Proof.
  unfold plan_info. destruct (_ !! w) as [i|] eqn:E; [|apply worker_info_init_wf].
  apply (proj2 (repo_run_wf plan_ops _ repository_init_wf) w i E).
Qed.

Definition plan_start : plan_state :=
  {| access := 0; algorithmPtr := 0; connectedWorkers := ∅ |}.

Lemma chosen_worker_is_best_witness :
  ∃ b s', find_best "alg" ["slow"%string; "fast"%string] no_best plan_start = (Ret b, s') ∧
    chosen_worker b ∈ ["slow"%string; "fast"%string] ∧
    chosen_avg b = (if prefer_total b then total_avg (plan_info (chosen_worker b))
                    else algo_avg (plan_info (chosen_worker b)) "alg") ∧
    ∀ w, w ∈ ["slow"%string; "fast"%string] →
      no_better (total_avg (plan_info w)) b.(bestTotalAvg) ∧
      no_better (algo_avg (plan_info w) "alg") b.(bestAlgoAvg).
Proof.
  apply chosen_worker_is_best; [apply plan_info_wf| |done].
  intros t w [->|[->|[]%elem_of_nil]%elem_of_cons]%elem_of_cons; vm_compute; reflexivity.
Defined.
