(* ===== verification/Solver.v ===== *)
(** * logic/distributed_solver.{h,cpp}: the solver

    [evolve] turns a work plan into an archipelago of distributed islands and
    starts it; [wait_until_completion] waits for it and picks the best
    individual. [pagmo::archipelago] is third-party code that runs its islands
    on threads of its own: the class [PagmoArchipelago] lists the operations
    the solver calls on it. *)
From S2P Require Import Prelude Doubles DoubleOrder WorkerInfo Pagmo Uuid Island PopulationTools WorkPlan.

Inductive evolve_status := idle | busy | idle_error | busy_error.

#[export] Instance evolve_status_eq_dec : EqDecision evolve_status.
Proof. solve_decision. Defined.

Class PagmoArchipelago `{PI : PagmoIsland} := {
  (** [pagmo::island{udi, algo, prob, size}], with the seed it draws, and the UDI
      an island was made from. *)
  island_new : distributed_island → algorithm → problem → Z → Z → island;
  island_udi : island → distributed_island;
  archipelago : Type;
  archipelago_new : archipelago;
  push_back : island → archipelago → archipelago;
  islands_of : archipelago → list island;
  archipelago_start : Z → archipelago → archipelago;
  archipelago_status : archipelago → evolve_status;
  wait_check : M archipelago unit
}.

Class PagmoArchipelagoLaws `{PA : PagmoArchipelago} := {
  island_new_algorithm : ∀ u a p n s, get_algorithm (island_new u a p n s) = a;
  island_new_population : ∀ u a p n s, get_population (island_new u a p n s) = population_new p n s;
  island_new_udi : ∀ u a p n s, island_udi (island_new u a p n s) = u;
  island_udi_set_population : ∀ p i, island_udi (set_population p i) = island_udi i;
  islands_of_new : islands_of archipelago_new = [];
  islands_of_push_back : ∀ i a, islands_of (push_back i a) = islands_of a ++ [i];
  (** The islands change while they evolve; their number does not. *)
  wait_check_size : ∀ a o a', wait_check a = (o, a') → length (islands_of a') = length (islands_of a);
  wait_check_problems : ∀ a o a', wait_check a = (o, a') →
    get_problem ∘ get_population <$> islands_of a' = get_problem ∘ get_population <$> islands_of a;
  start_problems : ∀ n a,
    get_problem ∘ get_population <$> islands_of (archipelago_start n a) =
    get_problem ∘ get_population <$> islands_of a;
  wait_check_no_crash : ∀ a f a', wait_check a ≠ (Crash f, a')
}.

Section Solver.
Context {PG : Pagmo} {PS : PagmoSort} {SS : StdSort} {PI : PagmoIsland} {PA : PagmoArchipelago}.
Context {PE : PlanEnvironment}.

Record distributed_solver := {
  _loadBalancingStrategy : load_balancing_strategy;
  _expectedWorkerCount : Z;
  _archipelago : archipelago;
  _initialHints : list vector_double
}.

Definition with_archipelago (a : archipelago) (s : distributed_solver) : distributed_solver :=
  {| _loadBalancingStrategy := s.(_loadBalancingStrategy);
     _expectedWorkerCount := s.(_expectedWorkerCount);
     _archipelago := a; _initialHints := s.(_initialHints) |}.
Definition with_hints (h : list vector_double) (s : distributed_solver) : distributed_solver :=
  {| _loadBalancingStrategy := s.(_loadBalancingStrategy);
     _expectedWorkerCount := s.(_expectedWorkerCount);
     _archipelago := s.(_archipelago); _initialHints := h |}.

(** The constructor; the controller's server is started by it. *)
Definition distributed_solver_new (expectedWorkerCount : Z)
    (loadBalancingStrategy : load_balancing_strategy) : distributed_solver :=
  {| _loadBalancingStrategy := loadBalancingStrategy;
     _expectedWorkerCount := expectedWorkerCount;
     _archipelago := archipelago_new; _initialHints := [] |}.

(** ** [_set_island_hints] *)

(** The loop from [i]; [n] iterations are left. *)
Fixpoint set_hints (n i : nat) (hints : list vector_double) (p : population) : outcome population :=
  match n with
  | O => Ret p
  | S n =>
      x ← at_ hints i;
      p ← set_x i x p;
      set_hints n (S i) hints p
  end.

Definition _set_island_hints (hints : list vector_double) (i : island) : outcome island :=
  if bool_decide (hints = []) then Ret i
  else
    let p := get_population i in
    p ← set_hints (Nat.min (length hints) (Z.to_nat (population_size p))) 0 hints p;
    Ret (set_population p i).

(** ** [evolve] *)

(** The plan is made after [get_worker_count()], the first access. *)
Definition later : PlanEnvironment := {|
  plan_archive := plan_archive;
  settings_at := λ t, settings_at (S t);
  undisturbed := λ t, undisturbed (S t);
  iteration_order := λ t, iteration_order (S t)
|}.

(** [draws i] and [seeds i]: the random values of the [i]-th island's UUID and
    of its population. *)
Fixpoint build_islands (n i : nat) (workPlan : list (Z * Z * string * algorithm)) (problem : problem)
    (draws : nat → nat → Z) (seeds : nat → Z) : M distributed_solver unit :=
  match n with
  | O => mret tt
  | S n =>
      '(islandPopSize, islandCycleCount, preferredWorker, algorithm) ← lift (at_ workPlan i);
      let dist_island := distributed_island_new (draws i) preferredWorker islandCycleCount in
      let isl := island_new dist_island algorithm problem islandPopSize (seeds i) in
      s ← get_state;
      isl ← lift (_set_island_hints s.(_initialHints) isl);
      _ ← modify (λ s, with_archipelago (push_back isl s.(_archipelago)) s);
      build_islands n (S i) workPlan problem draws seeds
  end.

Definition island_count (repo : worker_info_repository) (s : distributed_solver) : Z :=
  Z.max (Z.of_nat (get_worker_count repo)) s.(_expectedWorkerCount).

Definition evolve (problem : problem) (algorithms : list algorithm)
    (populationSize cycleCount minIslandPopSize : Z) (draws : nat → nat → Z) (seeds : nat → Z) :
    M distributed_solver unit :=
  s ← get_state;
  if bool_decide (archipelago_status s.(_archipelago) = busy) ||
     bool_decide (archipelago_status s.(_archipelago) = busy_error) then
    throw (runtime_error "Cannot start a new evolution while the previous one is still running.")
  else
    _ ← modify (with_archipelago archipelago_new);
    repo ← lift (controller_repository 0);
    let optimalIslandCount := island_count repo s in
    workPlan ← lift (_generate_work_plan (PE := later) s.(_loadBalancingStrategy) optimalIslandCount
                       populationSize algorithms minIslandPopSize);
    _ ← build_islands (Z.to_nat optimalIslandCount) 0 workPlan problem draws seeds;
    _ ← modify (λ s, with_archipelago (archipelago_start cycleCount s.(_archipelago)) s);
    modify (with_hints []).

Definition set_initial_hints (hints : list vector_double) : M distributed_solver unit :=
  modify (with_hints hints).

(** ** Results *)

Definition get_best_N_individuals (N : nat) (s : distributed_solver) : outcome (list vector_double) :=
  match islands_of s.(_archipelago) with
  | [] => Ret []
  | first :: _ =>
      let '(allPopulations, allFitnesses) :=
        merge_populations (get_population <$> islands_of s.(_archipelago)) in
      select_best_N_individuals (get_problem (get_population first)) allPopulations allFitnesses N
  end.

Definition get_best_individual (s : distributed_solver) : outcome vector_double :=
  best ← get_best_N_individuals 1 s;
  if bool_decide (best = []) then Ret [] else at_ best 0.

Definition wait_until_completion : M distributed_solver vector_double :=
  s ← get_state;
  if bool_decide (archipelago_status s.(_archipelago) = idle) ||
     bool_decide (archipelago_status s.(_archipelago) = idle_error) then
    throw (runtime_error "Cannot wait until completion, no evolution is running at the moment.")
  else
    _ ← zoom _archipelago with_archipelago wait_check;
    s ← get_state;
    lift (get_best_individual s).

Definition get_status (s : distributed_solver) : evolve_status :=
  archipelago_status s.(_archipelago).

Definition get_current_worker_count (t : nat) : outcome nat :=
  repo ← controller_repository t;
  Ret (get_worker_count repo).

(** [wait_until_worker_count]: at the moments from [t] on the predicate is
    evaluated under the mutex; [patience] of them are looked at. The result is
    the moment at which the wait ended. *)
Fixpoint repository_wait (patience t : nat) (target : Z) : outcome nat :=
  match patience with
  | O => Crash (blocked "wait_until_worker_count")
  | S patience =>
      if target <=? Z.of_nat (get_worker_count (repo_at t)) then Ret t
      else repository_wait patience (S t) target
  end.

Definition wait_until_workers_connect (patience : nat) (workerCount : Z) : outcome nat :=
  _ ← controller_repository 0;
  repository_wait patience 1 workerCount.

Definition wait_until_expected_connect (patience : nat) (s : distributed_solver) : outcome nat :=
  wait_until_workers_connect patience s.(_expectedWorkerCount).

Definition get_expected_worker_count (s : distributed_solver) : Z := s.(_expectedWorkerCount).

(** ** Lemmas *)

Context {PL : PagmoLaws} {PIL : PagmoIslandLaws} {PAL : PagmoArchipelagoLaws} {PEL : PlanEnvironmentLaws}.

#[local] Instance later_laws : @PlanEnvironmentLaws later.
Proof.
  split; cbn.
  - intros t. apply (repo_history (S t)).
  - apply (repo_at_wf 1).
  - intros t. apply iteration_order_elements.
Qed.

(** The islands of the next evolution. *)
Definition optimal_island_count (s : distributed_solver) : Z := island_count (repo_at 0) s.

(** Both accesses of [evolve] to the controller's repository succeed: the one
    for the number of workers and the plan's. *)
Definition evolve_accesses : Prop := accessible 0 ∧ @accessible later 0.

Lemma at_lookup {A} (l : list A) i x : l !! i = Some x → at_ l i = Ret x.
Proof. unfold at_. by intros ->. Qed.

(** The hints replace the first individuals, in order. *)
Lemma set_hints_run n i hints p :
  all_compatible (get_problem p) hints → (i + n ≤ length hints)%nat → (i + n ≤ length (get_x p))%nat →
  take i (get_x p) = take i hints →
  ∃ p', set_hints n i hints p = Ret p' ∧ get_problem p' = get_problem p ∧
    length (get_x p') = length (get_x p) ∧ take (i + n) (get_x p') = take (i + n) hints ∧
    drop (i + n) (get_x p') = drop (i + n) (get_x p).
Proof.
  revert i p. induction n as [|n IH]; intros i p Hc Hh Hp Ht.
  { exists p. rewrite Nat.add_0_r. done. }
  cbn [set_hints]. destruct (lookup_lt_is_Some_2 hints i) as [x Hx]; [lia|].
  rewrite (at_lookup _ _ _ Hx). cbn [mbind outcome_bind].
  destruct (set_x_in_range i x p) as (p1 & -> & Hx1 & _ & Hp1 & _);
    [lia|by eapply all_compatible_lookup|]. cbn [mbind outcome_bind].
  destruct (IH (S i) p1) as (p' & E & Hpr & Hl & Ht' & Hd).
  - by rewrite Hp1.
  - lia.
  - rewrite Hx1, length_insert. lia.
  - rewrite Hx1, (take_S_r _ _ x), (take_S_r _ _ x), take_insert_ge, Ht; [done|done..|].
    rewrite list_lookup_insert_eq by lia. done.
  - exists p'. rewrite Hx1, length_insert in Hl. rewrite Hx1 in Hd.
    replace (i + S n)%nat with (S i + n)%nat by lia.
    rewrite drop_insert_lt in Hd by lia. split_and!; [done|congruence|done|done|done].
Qed.

(** The individuals an island starts with. *)
Definition starts_with_hints (hints : list vector_double) (p : population) : Prop :=
  let k := Nat.min (length hints) (length (get_x p)) in take k (get_x p) = take k hints.

Lemma set_island_hints_run hints i :
  all_compatible (get_problem (get_population i)) hints →
  ∃ i', _set_island_hints hints i = Ret i' ∧ get_algorithm i' = get_algorithm i ∧
    island_udi i' = island_udi i ∧
    get_problem (get_population i') = get_problem (get_population i) ∧
    population_size (get_population i') = population_size (get_population i) ∧
    starts_with_hints hints (get_population i').
Proof.
  intros Hc. unfold _set_island_hints. destruct (bool_decide_reflect (hints = [])) as [->|Hne].
  { exists i. split_and!; done. }
  set (n := Nat.min _ _).
  assert (n ≤ length hints ∧ n ≤ length (get_x (get_population i)))%nat as [H1 H2].
  { unfold n, population_size. lia. }
  destruct (set_hints_run n 0 hints (get_population i)) as (p' & -> & Hp & Hl & Ht & Hd);
    [done|lia|lia|by rewrite !take_0|].
  cbn [mbind outcome_bind]. exists (set_population p' i).
  rewrite get_set_population, get_algorithm_set_population, island_udi_set_population.
  split_and!; [done|done|done|done|unfold population_size; lia|].
  unfold starts_with_hints. rewrite Hl.
  replace (Nat.min (length hints) (length (get_x (get_population i)))) with n; [done|].
  unfold n, population_size. lia.
Qed.

(** What [evolve] makes of an entry of the plan. *)
Definition island_for (problem : problem) (hints : list vector_double)
    (e : Z * Z * string * algorithm) (i : island) : Prop :=
  get_algorithm i = entry_algorithm e ∧
  (island_udi i).(_preferredWorkerId) = entry_worker e ∧
  (island_udi i).(_cycleCount) = entry_cycles e ∧
  get_problem (get_population i) = problem ∧
  population_size (get_population i) = entry_size e ∧
  starts_with_hints hints (get_population i).

Lemma build_islands_run n i workPlan problem draws seeds s :
  all_compatible problem s.(_initialHints) → Forall (λ e, 0 ≤ entry_size e) workPlan →
  (i + n)%nat = length workPlan →
  ∃ isls a, build_islands n i workPlan problem draws seeds s = (Ret tt, with_archipelago a s) ∧
    islands_of a = islands_of s.(_archipelago) ++ isls ∧
    Forall2 (island_for problem s.(_initialHints)) (drop i workPlan) isls.
Proof.
  intros Hc Hsz. revert i s Hc. induction n as [|n IH]; intros i s Hc Hi.
  { exists [], s.(_archipelago). rewrite app_nil_r, drop_ge by lia. split_and!; [by destruct s|done|constructor]. }
  cbn [build_islands]. destruct (lookup_lt_is_Some_2 workPlan i) as [e He]; [lia|].
  rewrite bind_run. cbn [lift]. rewrite (at_lookup _ _ _ He).
  pose proof (Forall_lookup_1 _ _ _ _ Hsz He) as Hse.
  destruct e as [[[size cycles] w] a] eqn:Ee. rewrite bind_run. cbn [get_state].
  set (isl := island_new (distributed_island_new (draws i) w cycles) a problem size (seeds i)).
  assert (get_problem (get_population isl) = problem) as Hp.
  { unfold isl. rewrite island_new_population. apply population_new_problem. }
  destruct (set_island_hints_run s.(_initialHints) isl) as (isl' & E & Ha & Hu & Hp' & Hs' & Hh).
  { by rewrite Hp. }
  rewrite bind_run. cbn [lift]. rewrite E. rewrite bind_run. cbn [modify].
  destruct (IH (S i) (with_archipelago (push_back isl' s.(_archipelago)) s)) as (isls & ar & Er & Hisl & Hf);
    [done|lia|]. rewrite Er. exists (isl' :: isls), ar. split_and!; [done| |].
  - rewrite Hisl. cbn [_archipelago with_archipelago]. rewrite islands_of_push_back, <- app_assoc. done.
  - rewrite (drop_S _ _ _ He). constructor; [|done]. split_and!.
    + rewrite Ha. unfold isl. by rewrite island_new_algorithm.
    + rewrite Hu. unfold isl. by rewrite island_new_udi.
    + rewrite Hu. unfold isl. by rewrite island_new_udi.
    + by rewrite Hp', Hp.
    + rewrite Hs'. unfold isl. rewrite island_new_population. by apply population_new_size.
    + done.
Qed.

(** ** The properties of the solver *)

Definition running (s : distributed_solver) : Prop :=
  archipelago_status s.(_archipelago) = busy ∨ archipelago_status s.(_archipelago) = busy_error.

Lemma not_running_tests s :
  ¬ running s → bool_decide (archipelago_status s.(_archipelago) = busy) ||
     bool_decide (archipelago_status s.(_archipelago) = busy_error) = false.
Proof.
  intros Hn. apply orb_false_iff. split; apply bool_decide_eq_false_2; intros E; apply Hn; [by left|by right].
Qed.

Lemma plan_for strategy islandCount populationSize algorithms minIslandPopSize :
  evolve_accesses → plan_config islandCount populationSize algorithms minIslandPopSize →
  ∃ plan, _generate_work_plan (PE := later) strategy islandCount populationSize algorithms minIslandPopSize
      = Ret plan ∧ Z.of_nat (length plan) = islandCount ∧
    Forall (λ e, minIslandPopSize ≤ entry_size e < 2 ^ 64 ∧ entry_size e mod 4 = 0 ∧ entry_cycles e = 1) plan ∧
    round_robin algorithms 0 (entry_algorithm <$> plan).
Proof.
  intros [_ Ha] Hc. destruct (by_performance (PE := later) strategy islandCount) eqn:E.
  - destruct (performance_plan (PE := later) _ _ _ _ _ Ha Hc E) as (plan & ? & ? & ? & ? & _). by exists plan.
  - destruct (equal_plan (PE := later) _ _ _ _ _ Ha Hc E) as (plan & ? & ? & ? & ? & _). by exists plan.
Qed.

Lemma evolve_run problem algorithms populationSize cycleCount minIslandPopSize draws seeds s :
  evolve_accesses → ¬ running s →
  plan_config (optimal_island_count s) populationSize algorithms minIslandPopSize →
  all_compatible problem s.(_initialHints) →
  ∃ s' a plan,
    evolve problem algorithms populationSize cycleCount minIslandPopSize draws seeds s = (Ret tt, s') ∧
    s'.(_archipelago) = archipelago_start cycleCount a ∧ s'.(_initialHints) = [] ∧
    _generate_work_plan (PE := later) s.(_loadBalancingStrategy) (optimal_island_count s) populationSize
      algorithms minIslandPopSize = Ret plan ∧
    round_robin algorithms 0 (entry_algorithm <$> plan) ∧
    Z.of_nat (length (islands_of a)) = optimal_island_count s ∧
    Forall2 (island_for problem s.(_initialHints)) plan (islands_of a).
Proof.
  intros Ha Hn Hc Hh. destruct (plan_for s.(_loadBalancingStrategy) _ _ _ _ Ha Hc) as (plan & Ep & Hl & Hsz & Hrr).
  unfold evolve. rewrite bind_run. cbn [get_state]. rewrite not_running_tests by done.
  rewrite bind_run. cbn [modify]. rewrite bind_run. cbn [lift]. rewrite (controller_repository_ret 0 (proj1 Ha)).
  fold (optimal_island_count s). rewrite bind_run. cbn [lift]. rewrite Ep.
  destruct (build_islands_run (Z.to_nat (optimal_island_count s)) 0 plan problem draws seeds
    (with_archipelago archipelago_new s)) as (isls & a & Eb & Hisl & Hf); [done| |lia|].
  { revert Hsz. apply Forall_impl. destruct Hc. lia. }
  rewrite bind_run, Eb. rewrite bind_run. cbn [modify]. rewrite drop_0 in Hf.
  cbn [_archipelago with_archipelago _initialHints] in Hisl, Hf. rewrite islands_of_new in Hisl.
  eexists _, a, plan. split_and!; [reflexivity|done|done|done|done| |by rewrite Hisl].
  rewrite Hisl. cbn. apply Forall2_length in Hf. lia.
Qed.

(** An evolution that was started had its accesses. *)
Lemma evolve_accessed problem algorithms populationSize cycleCount minIslandPopSize draws seeds s s' :
  evolve problem algorithms populationSize cycleCount minIslandPopSize draws seeds s = (Ret tt, s') →
  evolve_accesses.
Proof.
  unfold evolve. rewrite bind_run. cbn [get_state]. destruct (_ || _); [done|].
  rewrite bind_run. cbn [modify]. rewrite bind_run. cbn [lift].
  destruct (controller_repository 0) as [r| |] eqn:E0; [|done..]. rewrite bind_run. cbn [lift].
  destruct (_generate_work_plan _ _ _ _ _) as [plan| |] eqn:Ep; [|done..]. intros _. split.
  - by apply (controller_repository_inv 0 r).
  - unfold _generate_work_plan in Ep.
    destruct (@controller_repository later 0) as [r1| |] eqn:E1; [|done..].
    by apply (@controller_repository_inv later 0 r1).
Qed.

(** C10. [evolve] on a solver that is not running, when the controller's
    repository can be accessed (the settings file can be written and the
    controller's thread does not change the repository during the unlocked
    reads), with at least one algorithm, sizes that do not wrap and hints that
    fit the problem: it starts an archipelago of as
    many islands as workers are connected or expected, whichever is more; every
    island follows its entry of the work plan, has the problem and starts with
    the hints; the hints are used once. *)
Theorem evolve_starts_plan problem algorithms populationSize cycleCount minIslandPopSize draws seeds s :
  evolve_accesses → ¬ running s →
  plan_config (optimal_island_count s) populationSize algorithms minIslandPopSize →
  all_compatible problem s.(_initialHints) →
  ∃ s' a plan,
    evolve problem algorithms populationSize cycleCount minIslandPopSize draws seeds s = (Ret tt, s') ∧
    s'.(_archipelago) = archipelago_start cycleCount a ∧ s'.(_initialHints) = [] ∧
    _generate_work_plan (PE := later) s.(_loadBalancingStrategy) (optimal_island_count s) populationSize
      algorithms minIslandPopSize = Ret plan ∧
    Z.of_nat (length (islands_of a)) = optimal_island_count s ∧
    Forall2 (island_for problem s.(_initialHints)) plan (islands_of a).
Proof.
  intros Ha Hn Hc Hh. destruct (evolve_run problem algorithms populationSize cycleCount minIslandPopSize draws seeds
    s Ha Hn Hc Hh) as (s' & a & plan & ? & ? & ? & ? & _ & ? & ?). by exists s', a, plan.
Qed.

(** While an evolution is running, a second one is refused and nothing changes;
    with none running (finished ones included), waiting is refused. *)
Theorem solver_guards problem algorithms populationSize cycleCount minIslandPopSize draws seeds s :
  (running s → ∃ what,
    evolve problem algorithms populationSize cycleCount minIslandPopSize draws seeds s =
      (Throw (runtime_error what), s)) ∧
  (¬ running s → ∃ what, wait_until_completion s = (Throw (runtime_error what), s)).
Proof.
  split.
  - intros [E|E]; unfold evolve; rewrite bind_run; cbn [get_state]; rewrite E; by eexists.
  - intros Hn. unfold wait_until_completion. rewrite bind_run. cbn [get_state].
    destruct (archipelago_status s.(_archipelago)) eqn:E; try by eexists.
    + destruct Hn. by left.
    + destruct Hn. by right.
Qed.

(** A hint of the wrong dimension: [evolve] throws, and since the hints are
    cleared only at its end, every later [evolve] throws as well until new hints
    are set. *)
Theorem bad_hint_sticks problem algorithms populationSize cycleCount minIslandPopSize draws seeds s h hints :
  evolve_accesses → ¬ running s →
  plan_config (optimal_island_count s) populationSize algorithms minIslandPopSize → 0 < minIslandPopSize →
  s.(_initialHints) = h :: hints → compatible problem h = false →
  ∃ s' what,
    evolve problem algorithms populationSize cycleCount minIslandPopSize draws seeds s =
      (Throw (invalid_argument what), s') ∧
    s'.(_initialHints) = h :: hints ∧ s'.(_archipelago) = archipelago_new ∧
    optimal_island_count s' = optimal_island_count s.
Proof.
  intros Ha Hn Hc Hmin Hs Hh. destruct (plan_for s.(_loadBalancingStrategy) _ _ _ _ Ha Hc) as (plan & Ep & Hl & Hsz & _).
  destruct Hc as [_ Hpos _ _].
  unfold evolve. rewrite bind_run. cbn [get_state]. rewrite not_running_tests by done.
  rewrite bind_run. cbn [modify]. rewrite bind_run. cbn [lift]. rewrite (controller_repository_ret 0 (proj1 Ha)).
  fold (optimal_island_count s). rewrite bind_run. cbn [lift]. rewrite Ep. rewrite bind_run.
  destruct (Z.to_nat (optimal_island_count s)) as [|n] eqn:En; [lia|].
  destruct plan as [|[[[size cycles] w] a] plan]; [cbn in Hl; lia|].
  inversion_clear Hsz as [|? ? [Hsize _] _]. unfold entry_size in Hsize. cbn [fst] in Hsize.
  cbn [build_islands]. rewrite bind_run. cbn [lift at_ lookup list_lookup].
  rewrite bind_run. cbn [get_state]. rewrite bind_run. cbn [lift _initialHints with_archipelago].
  rewrite Hs. unfold _set_island_hints. rewrite bool_decide_eq_false_2 by done.
  set (p := get_population _).
  assert (get_problem p = problem ∧ population_size p = size) as [Hp Hps].
  { unfold p. rewrite island_new_population, population_new_problem. split; [done|]. apply population_new_size. clear -Hsize Hmin. lia. }
  rewrite Hps. destruct (Nat.min (length (h :: hints)) (Z.to_nat size)) as [|k] eqn:Ek; [exfalso; cbn [length] in Ek; lia|].
  cbn [set_hints at_ lookup list_lookup mbind outcome_bind].
  destruct (set_x_incompatible 0 h p) as [what E]; [unfold population_size in Hps; lia|by rewrite Hp|].
  rewrite E. cbn [mbind outcome_bind]. by eexists _, what.
Qed.

(** The best individual of an unconstrained single-objective problem's islands. *)
Lemma best_individual_run s first rest :
  islands_of s.(_archipelago) = first :: rest →
  get_nobj (get_problem (get_population first)) = 1 → get_nc (get_problem (get_population first)) = 0 →
  let merged := merge_populations (get_population <$> islands_of s.(_archipelago)) in
  valid_fitness merged.2 → merged.1 ≠ [] →
  ∃ x i, get_best_individual s = Ret x ∧ merged.1 !! i = Some x ∧
    ∀ j, (j < length merged.2)%nat → no_worse merged.2 i j.
Proof.
  intros Hisl Hobj Hnc merged Hv Hne.
  unfold get_best_individual, get_best_N_individuals.
  rewrite Hisl. cbv iota. rewrite <- Hisl. fold merged.
  pose proof (merge_populations_parallel (get_population <$> islands_of s.(_archipelago))) as Hpar. fold merged in Hpar.
  destruct merged as [allP allF]. cbn [fst snd] in *.
  assert (0 < length allP)%nat as Hpos by (destruct allP; [done|cbn; lia]).
  unfold select_best_N_individuals, get_best_N_individuals_indexes. rewrite Hobj.
  change (1 <? 1) with false. cbv iota.
  destruct (select_best_N_so_best _ allF 1 Hnc Hv) as (idx & -> & Hl & Hnd & Hin & Hbest); [lia|].
  cbn [mbind outcome_bind]. destruct idx as [|i [|]]; [done| |done].
  inversion_clear Hin as [|? ? Hi _]. destruct (lookup_lt_is_Some_2 allP i) as [x Hx]; [lia|].
  cbn [mapM]. rewrite (index_lookup _ _ _ Hx). cbn.
  exists x, i. split_and!; [done|done|]. intros j Hj.
  destruct (decide (j = i)) as [->|Hji].
  - unfold no_worse. apply (sw_irrefl (λ a b, double_ltb (first_fitness allF a) (first_fitness allF b))
      (seq 0 (length allF))); [|apply elem_of_seq; lia].
    apply double_ltb_strict_weak. intros b. by apply first_fitness_number.
  - apply Hbest; [by left|done|]. by intros [->|[]%elem_of_nil]%elem_of_cons.
Qed.

(** The wait for the workers ends at the first moment at which enough are
    connected, if there is one. *)
Lemma repository_wait_ret patience t target u :
  repository_wait patience t target = Ret u ↔
  (t ≤ u < t + patience)%nat ∧ target ≤ Z.of_nat (get_worker_count (repo_at u)) ∧
  ∀ v, (t ≤ v < u)%nat → Z.of_nat (get_worker_count (repo_at v)) < target.
Proof.
  revert t. induction patience as [|n IH]; intros t; cbn [repository_wait]; [split; [done|lia]|].
  destruct (Z.leb_spec target (Z.of_nat (get_worker_count (repo_at t)))) as [Hle|Hlt].
  - split; [intros [= <-]; split_and!; [lia..|done|intros v ?; lia]|].
    intros (? & _ & Hv). destruct (decide (u = t)) as [->|Hne]; [done|]. specialize (Hv t). lia.
  - rewrite IH. split; intros (? & Hu & Hv).
    + split_and!; [lia..|done|]. intros v Hvu. destruct (decide (v = t)) as [->|]; [lia|]. apply Hv. lia.
    + destruct (decide (u = t)) as [->|]; [lia|]. split_and!; [lia..|done|]. intros v ?. apply Hv. lia.
Qed.

Theorem connect_wait_ends target u :
  accessible 0 → (0 < u)%nat → target ≤ Z.of_nat (get_worker_count (repo_at u)) →
  (∀ v, (0 < v < u)%nat → Z.of_nat (get_worker_count (repo_at v)) < target) →
  ∀ patience, (u ≤ patience)%nat → wait_until_workers_connect patience target = Ret u.
Proof.
  intros Ha Hu Ht Hv patience Hp. unfold wait_until_workers_connect. rewrite controller_repository_ret by done.
  cbn [mbind outcome_bind]. apply repository_wait_ret. split_and!; [lia..|done|]. intros v ?. apply Hv. lia.
Qed.

(** A completed wait answers with the best individual. *)
Lemma wait_run s a' x :
  running s → wait_check s.(_archipelago) = (Ret tt, a') →
  get_best_individual (with_archipelago a' s) = Ret x →
  wait_until_completion s = (Ret x, with_archipelago a' s).
Proof.
  intros Hrun Hw Hx. unfold wait_until_completion. rewrite bind_run. cbn [get_state].
  assert (bool_decide (archipelago_status s.(_archipelago) = idle) ||
    bool_decide (archipelago_status s.(_archipelago) = idle_error) = false) as ->.
  { by destruct Hrun as [-> | ->]. }
  rewrite bind_run. unfold zoom. rewrite Hw. rewrite bind_run. cbn [get_state]. unfold lift. by rewrite Hx.
Qed.

(** The individual [wait_until_completion] returns, for an unconstrained
    single-objective problem: one of the finished islands' individuals, of the
    best fitness there is. *)
Theorem completion_returns_best s a' first rest :
  running s → wait_check s.(_archipelago) = (Ret tt, a') → islands_of a' = first :: rest →
  get_nobj (get_problem (get_population first)) = 1 → get_nc (get_problem (get_population first)) = 0 →
  let merged := merge_populations (get_population <$> islands_of a') in
  valid_fitness merged.2 → merged.1 ≠ [] →
  ∃ x i, wait_until_completion s = (Ret x, with_archipelago a' s) ∧
    merged.1 !! i = Some x ∧
    ∀ j, (j < length merged.2)%nat → no_worse merged.2 i j.
Proof.
  intros Hrun Hw Hisl Hobj Hnc merged Hv Hne.
  destruct (best_individual_run (with_archipelago a' s) first rest) as (x & i & E & Hx & Hbest); [done..|].
  exists x, i. split; [|by split]. by apply wait_run.
Qed.
End Solver.
