(* ===== verification/Codec.v ===== *)
(** * A concrete archive

    The properties hold for every archive format that satisfies [ArchiveLaws];
    this file gives one format for any countable type (a header byte, then the
    bits of the object's code, least significant first), so that they can be
    applied to concrete objects. *)
From Stdlib Require Import Strings.Byte.
From S2P Require Import Prelude Doubles WorkerInfo Messages Pagmo.

Fixpoint bits_of_pos (p : positive) : bytes :=
  match p with
  | xI p => x01 :: bits_of_pos p
  | xO p => x00 :: bits_of_pos p
  | xH => []
  end.

Fixpoint pos_of_bits (b : bytes) : option positive :=
  match b with
  | [] => Some xH
  | x01 :: b => xI <$> pos_of_bits b
  | x00 :: b => xO <$> pos_of_bits b
  | _ => None
  end.

Lemma pos_of_bits_of_pos p : pos_of_bits (bits_of_pos p) = Some p.
Proof. induction p as [p IH|p IH|]; cbn; by rewrite ?IH. Qed.

Definition header : byte := x2a.

Definition CountableArchive {A} `{Countable A} : Archive A := {|
  archive_writes a := [Overflow (Some header); Xsputn (bits_of_pos (encode a))];
  archive_read b :=
    match b with
    | h :: b => if decide (h = header) then pos_of_bits b ≫= decode else None
    | [] => None
    end
|}.

Lemma CountableArchive_laws {A} `{Countable A} : @ArchiveLaws A CountableArchive.
Proof.
  split.
  - by intros a.
  - intros a. unfold archive_text. cbn. rewrite app_nil_r, pos_of_bits_of_pos. cbn.
    apply decode_encode.
Qed.

(** ** Countability of the payload objects *)

#[export] Instance double_eq_dec : EqDecision double.
Proof. solve_decision. Defined.

#[export] Instance double_countable : Countable double.
Proof.
  refine (inj_countable'
    (λ x : double, match x with
      | S754_zero s => inl (inl s)
      | S754_infinity s => inl (inr s)
      | S754_nan => inr (inl tt)
      | S754_finite s m e => inr (inr (s, m, e))
      end)
    (λ c, match c with
      | inl (inl s) => S754_zero s
      | inl (inr s) => S754_infinity s
      | inr (inl _) => S754_nan
      | inr (inr (s, m, e)) => S754_finite s m e
      end) _).
  by intros [].
Defined.

#[export] Instance toy_population_eq_dec : EqDecision toy_population.
Proof. solve_decision. Defined.

#[export] Instance toy_population_countable : Countable toy_population.
Proof.
  refine (inj_countable' (λ p, (toy_problem p, toy_seed p, toy_x p))
    (λ '(a, b, c), {| toy_problem := a; toy_seed := b; toy_x := c |}) _).
  by intros [].
Defined.

#[export] Instance work_container_eq_dec {A P} `{EqDecision A, EqDecision P} :
  EqDecision (work_container A P).
Proof. solve_decision. Defined.

#[export] Instance work_container_countable {A P} `{Countable A, Countable P} :
  Countable (work_container A P).
Proof.
  refine (inj_countable' (λ w, (w.(algo), w.(pop), w.(preferredWorkerId), w.(cycleCount)))
    (λ '(a, p, i, n), mk_work_container a p i n) _).
  by intros [].
Defined.

#[export] Instance get_dll_request_eq_dec : EqDecision get_dll_request.
Proof. solve_decision. Defined.

#[export] Instance get_dll_request_countable : Countable get_dll_request.
Proof. refine (inj_countable' request_dll_name mk_get_dll_request _). by intros []. Defined.

#[export] Instance byte_countable : Countable byte.
Proof.
  refine (inj_countable Stdlib.Strings.Byte.to_N Stdlib.Strings.Byte.of_N _).
  apply Stdlib.Strings.Byte.of_to_N.
Defined.

#[export] Instance dll_binary_container_eq_dec : EqDecision dll_binary_container.
Proof. solve_decision. Defined.

#[export] Instance dll_binary_container_countable : Countable dll_binary_container.
Proof.
  refine (inj_countable' (λ c, (c.(dll_name), c.(dll_file)))
    (λ '(n, f), mk_dll_binary_container n f) _).
  by intros [].
Defined.

#[export] Instance work_stats_countable : Countable work_stats.
Proof.
  refine (inj_countable' (λ s, (s.(workTime), s.(processedPopulation)))
    (λ '(t, p), {| workTime := t; processedPopulation := p |}) _).
  by intros [].
Defined.

(** The archives of the toy world. *)
Definition toy_container_archive : Archive (work_container string toy_population) :=
  CountableArchive.
Definition request_archive : Archive get_dll_request := CountableArchive.
Definition binary_archive : Archive dll_binary_container := CountableArchive.
Definition string_archive : Archive string := CountableArchive.
Definition stats_archive : Archive (gmap string (work_stats * gmap string work_stats)) :=
  CountableArchive.
