(* ===== verification/WorkScenario.v ===== *)
(** * Witnesses for the solver, the islands and the worker

    Toy islands and archipelagos over the toy Pagmo; a solver that starts two
    islands, an island that gets its answer, a worker that loads a library in
    the middle of a job. *)
From S2P Require Import Prelude Doubles DoubleOrder WorkerInfo Messages Sockets Settings Uuid Pagmo Codec.
From S2P Require Import Island PopulationTools WorkerLogic Worker WorkPlan Solver.

#[local] Existing Instance toy_container_archive.
#[local] Existing Instance request_archive.
#[local] Existing Instance binary_archive.
#[local] Existing Instance string_archive.

#[local] Instance toy_container_laws : ArchiveLaws (work_container algorithm population) :=
  CountableArchive_laws.
#[local] Instance toy_binary_laws : ArchiveLaws dll_binary_container := CountableArchive_laws.

(** ** Islands *)

Record toy_island := {
  ti_udi : distributed_island;
  ti_algorithm : string;
  ti_population : toy_population
}.

#[export] Instance ToyIsland : PagmoIsland := {|
  island := toy_island;
  get_algorithm := ti_algorithm : toy_island → algorithm;
  get_population := ti_population : toy_island → population;
  set_algorithm a i := {| ti_udi := ti_udi i; ti_algorithm := a; ti_population := ti_population i |};
  set_population p i := {| ti_udi := ti_udi i; ti_algorithm := ti_algorithm i; ti_population := p |};
  algorithm_thread_safety := λ a : string, if String.eqb a "unsafe" then 0 else 1;
  problem_thread_safety := λ _, 1;
  problem_get_name := λ _, "toy"%string
|}.

#[export] Instance ToyIslandLaws : PagmoIslandLaws.
Proof. by split. Qed.

Record toy_archipelago := { ta_islands : list toy_island; ta_status : evolve_status }.

#[export] Instance ToyArchipelago : PagmoArchipelago := {|
  island_new := λ u (a : algorithm) (p : problem) n s,
    ({| ti_udi := u; ti_algorithm := a; ti_population := population_new p n s |} : island);
  island_udi := ti_udi : island → distributed_island;
  archipelago := toy_archipelago;
  archipelago_new := {| ta_islands := []; ta_status := idle |};
  push_back := λ (i : island) a, {| ta_islands := ta_islands a ++ [i : toy_island]; ta_status := ta_status a |};
  islands_of := ta_islands : toy_archipelago → list island;
  archipelago_start := λ _ a, {| ta_islands := ta_islands a; ta_status := busy |};
  archipelago_status := ta_status;
  wait_check := λ a, (Ret tt, {| ta_islands := ta_islands a; ta_status := idle |})
|}.

#[export] Instance ToyArchipelagoLaws : PagmoArchipelagoLaws.
Proof. split; try done; intros a; intros; cbn in *; by simplify_eq. Qed.

(** ** An island *)

Definition draws (i j : nat) : Z := Z.of_nat (i + j).

Definition toy_problem_1 : problem (Pagmo := ToyPagmo) := 1%nat.
Definition sample_island (a : string) : island (PagmoIsland := ToyIsland) :=
  island_new (distributed_island_new (draws 1) "w1" 1) (a : algorithm) toy_problem_1 4 7.

Definition evolved : work_container algorithm population :=
  work_container_of ("alg"%string : algorithm) (population_new toy_problem_1 4 9).

Definition thread_with (a : string) (q : list frame) : island_thread :=
  {| isl := sample_island a; routing_id := None; endpoints := []; sent_frames := []; arriving := q |}.

Lemma run_evolve_result_witness :
  ∃ s', run_evolve (λ _, ""%string) (distributed_island_new (draws 1) "w1" 1)
      (thread_with "alg" (dealer_socket_send WORK_RESULTS (vector_serialize evolved) ++ [])) = (Ret true, s') ∧
    get_population s'.(isl) = evolved.(pop) ∧ get_algorithm s'.(isl) = evolved.(algo) ∧
    s'.(sent_frames) = [] ++ request_frames (distributed_island_new (draws 1) "w1" 1) (sample_island "alg") ∧
    s'.(arriving) = [].
Proof.
  apply (run_evolve_result (λ _, ""%string) (distributed_island_new (draws 1) "w1" 1)
    (thread_with "alg" (dealer_socket_send WORK_RESULTS (vector_serialize evolved) ++ [])) evolved []).
  - split; vm_compute; intros H; discriminate H.
  - reflexivity.
Defined.

Lemma run_evolve_no_result_witness :
  ∃ s', s'.(isl) = sample_island "alg" ∧
    (thread_safe (sample_island "alg") ∨ s'.(sent_frames) = []) ∧
    (run_evolve (λ _, ""%string) (distributed_island_new (draws 1) "w1" 1)
       (thread_with "alg" (dealer_socket_send GET_DLL [])) = (Ret false, s') ∧
     dealer_socket_receive (thread_with "alg" (dealer_socket_send GET_DLL [])).(arriving) = Blocked ∨
     ∃ what, run_evolve (λ _, ""%string) (distributed_island_new (draws 1) "w1" 1)
       (thread_with "alg" (dealer_socket_send GET_DLL [])) = (Throw (rethrown what), s')).
Proof.
  apply (run_evolve_no_result (λ _, ""%string) (distributed_island_new (draws 1) "w1" 1)
    (thread_with "alg" (dealer_socket_send GET_DLL []))).
  right. done.
Defined.

(** ** A solver *)

Definition hints : list vector_double := [[double_of_Z 5]].

Definition idle_solver (h : list vector_double) : distributed_solver :=
  {| _loadBalancingStrategy := BY_PERFORMANCE; _expectedWorkerCount := 1;
     _archipelago := archipelago_new; _initialHints := h |}.

Lemma idle_solver_idle h : ¬ running (idle_solver h).
Proof. intros [H|H]; vm_compute in H; discriminate. Qed.

Lemma plan_environment_accesses : evolve_accesses.
Proof. split; by split. Qed.

Lemma idle_solver_config h :
  plan_config (optimal_island_count (idle_solver h)) 1000 [plan_algorithm] 80.
Proof. by split. Qed.

Lemma evolve_starts_plan_witness :
  ∃ s' a plan,
    evolve toy_problem_1 [plan_algorithm] 1000 3 80 draws (λ _, 7) (idle_solver hints) = (Ret tt, s') ∧
    s'.(_archipelago) = archipelago_start 3 a ∧ s'.(_initialHints) = [] ∧
    _generate_work_plan (PE := later) BY_PERFORMANCE (optimal_island_count (idle_solver hints)) 1000
      [plan_algorithm] 80 = Ret plan ∧
    Z.of_nat (length (islands_of a)) = optimal_island_count (idle_solver hints) ∧
    Forall2 (island_for toy_problem_1 hints) plan (islands_of a).
Proof.
  apply (evolve_starts_plan toy_problem_1 [plan_algorithm] 1000 3 80 draws (λ _, 7) (idle_solver hints)).
  - apply plan_environment_accesses.
  - apply idle_solver_idle.
  - apply idle_solver_config.
  - repeat constructor.
Defined.

Lemma bad_hint_sticks_witness :
  ∃ s' what,
    evolve toy_problem_1 [plan_algorithm] 1000 3 80 draws (λ _, 7) (idle_solver [[]]) =
      (Throw (invalid_argument what), s') ∧
    s'.(_initialHints) = [[]] ∧ s'.(_archipelago) = archipelago_new ∧
    optimal_island_count s' = optimal_island_count (idle_solver [[]]).
Proof.
  apply (bad_hint_sticks toy_problem_1 [plan_algorithm] 1000 3 80 draws (λ _, 7) (idle_solver [[]]) []).
  - apply plan_environment_accesses.
  - apply idle_solver_idle.
  - apply idle_solver_config.
  - lia.
  - done.
  - done.
Defined.

Definition running_solver : distributed_solver :=
  (evolve toy_problem_1 [plan_algorithm] 1000 3 80 draws (λ _, 7) (idle_solver hints)).2.

Definition finished_islands : list (island (PagmoIsland := ToyIsland)) :=
  islands_of running_solver.(_archipelago).

Definition finished_archipelago : archipelago (PagmoArchipelago := ToyArchipelago) :=
  {| ta_islands := finished_islands; ta_status := idle |}.

Lemma solver_guards_witness :
  ∃ what, evolve toy_problem_1 [plan_algorithm] 1000 3 80 draws (λ _, 7) running_solver =
    (Throw (runtime_error what), running_solver).
Proof.
  apply (solver_guards toy_problem_1 [plan_algorithm] 1000 3 80 draws (λ _, 7) running_solver).
  left. vm_compute. reflexivity.
Defined.

Lemma completion_returns_best_witness :
  ∃ first rest, finished_islands = first :: rest ∧
  ∃ x i, wait_until_completion running_solver =
      (Ret x, with_archipelago finished_archipelago running_solver) ∧
    (merge_populations (get_population <$> finished_islands)).1 !! i = Some x ∧
    ∀ j, (j < length (merge_populations (get_population <$> finished_islands)).2)%nat →
      no_worse (merge_populations (get_population <$> finished_islands)).2 i j.
Proof.
  destruct finished_islands as [|first rest] eqn:E; [vm_compute in E; discriminate|].
  exists first, rest. split; [done|]. rewrite <- E.
  apply (completion_returns_best running_solver finished_archipelago first rest).
  - left. vm_compute. reflexivity.
  - reflexivity.
  - exact E.
  - vm_compute in E. injection E as <- _. reflexivity.
  - reflexivity.
  - vm_compute. repeat constructor; done.
  - vm_compute. done.
Defined.

(** ** A worker *)

Definition job : bytes := vector_serialize evolved.

Definition resting_worker : distributed_worker :=
  {| Worker._workerId := "worker_1"; _workerMode := SINGLE_THREADED; _minIslandPopSize := 80;
     _workerThread := NotJoinable; thread_inbox := []; dll_inbox := []; to_controller := [] |}.

Definition step_worker (e : worker_event) (w : distributed_worker) : distributed_worker :=
  (worker_exec 4 0 e w).2.

Definition job_events : list worker_event :=
  [WorkerSocket (ALLOCATE_WORK, job); ThreadAsksDll "p"; ThreadSocket;
   WorkerSocket (DLL_BINARY, vector_serialize (mk_dll_binary_container "p" None)); ThreadReceives].

Definition worker_after (es : list worker_event) : distributed_worker :=
  foldl (λ w e, step_worker e w) resting_worker es.

Lemma resting : rested resting_worker.
Proof. by split_and!. Qed.

Lemma job_answer : ∃ r, answer 4 0 resting_worker job = Ret r.
Proof. unfold answer, worker_thread_body, job. rewrite deserialize_serialize. by eexists. Qed.

Lemma worker_run_exec w e es w' :
  worker_event_ok 4 0 e w → (worker_exec 4 0 e w).1 = Ret tt → worker_run 4 0 (step_worker e w) es w' →
  worker_run 4 0 w (e :: es) w'.
Proof.
  intros Hok He Hr. econstructor; [exact Hok| |exact Hr]. unfold step_worker. rewrite <- He.
  by destruct (worker_exec 4 0 e w).
Qed.

Lemma job_run : worker_run 4 0 resting_worker job_events (worker_after job_events).
Proof.
  unfold job_events. apply worker_run_exec; [split; [done|]; split; [done|apply job_answer]|reflexivity|].
  apply worker_run_exec; [done|reflexivity|].
  apply worker_run_exec; [done|reflexivity|].
  apply worker_run_exec; [split; [done|]; eexists; apply deserialize_serialize|reflexivity|].
  apply worker_run_exec; [done|vm_compute; reflexivity|]. constructor.
Qed.

Lemma worker_answers_jobs_witness :
  Forall2 (λ d r, answer 4 0 resting_worker d = Ret r)
    (take (length (results (worker_after job_events))) (jobs job_events)) (results (worker_after job_events)) ∧
  length (jobs job_events) =
    (length (results (worker_after job_events)) + length (current_job (worker_after job_events)))%nat ∧
  ∀ e, worker_event_ok 4 0 e (worker_after job_events) →
    ∃ w', worker_exec 4 0 e (worker_after job_events) = (Ret tt, w').
Proof. apply worker_answers_jobs; [apply resting|apply job_run]. Defined.

Lemma worker_can_finish_witness :
  ∃ es' w', worker_run 4 0 (worker_after job_events) es' w' ∧ jobs es' = [] ∧
    w'.(_workerThread) = NotJoinable ∧
    Forall2 (λ d r, answer 4 0 resting_worker d = Ret r) (jobs job_events) (results w').
Proof. apply worker_can_finish; [apply toy_binary_laws|apply resting|apply job_run]. Defined.

Lemma worker_process_ends_witness :
  run_client 4 0 [WorkerSocket (ALLOCATE_WORK, job)] (worker_after job_events) = ProcessEnded.
Proof. apply worker_process_ends. vm_compute. discriminate. Defined.

Lemma get_dll_first_binary_witness :
  get_dll_from_controller "p" ([(WORKER_JOIN, [])] ++
      (DLL_BINARY, vector_serialize (mk_dll_binary_container "p" (Some [Corelib.Init.Byte.x00]))) :: []) =
    ((GET_DLL, vector_serialize (mk_get_dll_request "p")), Some (Ret (Some [Corelib.Init.Byte.x00]), [])).
Proof.
  apply (get_dll_first_binary "p" [(WORKER_JOIN, [])] []). by repeat constructor.
Defined.
