(* ===== verification/Controller.v ===== *)
(** * logic/distributed_controller.{h,cpp}

    The controller: a single-threaded event loop over two ROUTER sockets. Its
    state is the pool of free workers, the islands waiting for a worker, the map
    of running allocations and the statistics kept in the settings. A handler
    below is the whole C++ handler for one message, in the monad [M]: its state
    changes survive a throw. [_outbox] records what is sent, oldest first.

    [*begin()] of an unordered container is some element of it: handlers take
    the elements these iterators denote as [picks], and the theorems hold for
    every choice. *)
From S2P Require Import Prelude WorkerInfo Messages Settings Pagmo.

(** ** What the controller asks of [udp_registry]: [get_lib_as_file] *)
Class LibraryStore (R : Type) := {
  lib_as_file : string → M R (option bytes)
}.

Record work_allocation_record := { islandId : string; workData : bytes }.

Inductive sent :=
  | ToWorker (id : string) (type : MsgType) (payload : bytes)
  | ToIsland (id : string) (type : MsgType) (payload : bytes).

Record picks := { pick_worker : string; pick_island : string }.

#[export] Instance work_allocation_record_eq_dec : EqDecision work_allocation_record.
Proof. solve_decision. Defined.
#[export] Instance sent_eq_dec : EqDecision sent.
Proof. solve_decision. Defined.

(** [*s.begin()] and [m.begin()]. *)
Definition set_begin (pick : string) (s : gset string) : option string :=
  if decide (pick ∈ s) then Some pick else head (elements s).

Definition map_begin {A} (pick : string) (m : gmap string A) : option (string * A) :=
  match m !! pick with
  | Some v => Some (pick, v)
  | None => head (map_to_list m)
  end.

(** [m.emplace(k, v)]: no effect when [k] is present. *)
Definition emplace {A} (k : string) (v : A) (m : gmap string A) : gmap string A :=
  match m !! k with
  | Some _ => m
  | None => <[k := v]> m
  end.

Record distributed_controller {R : Type} := {
  _islandsWaitingForAlloc : gmap string bytes;
  _freeWorkersPool : gset string;
  _workAllocationMap : gmap string work_allocation_record;
  _ctl_settings : settings controller_settings * disk;
  _registry : R;
  _outbox : list sent
}.
Arguments distributed_controller : clear implicits.

Section Handlers.
Context {PG : Pagmo} {R : Type} {LS : LibraryStore R}.
Context {AW : Archive (work_container algorithm population)}
        {AQ : Archive get_dll_request} {AD : Archive dll_binary_container}
        {AS : Archive (gmap string (work_stats * gmap string work_stats))}.

Abbreviation controller := (distributed_controller R).
Abbreviation container := (work_container algorithm population).

(** ** Field updates *)

Definition set_waiting (m : gmap string bytes) (c : controller) : controller :=
  {| _islandsWaitingForAlloc := m; _freeWorkersPool := c.(_freeWorkersPool);
     _workAllocationMap := c.(_workAllocationMap); _ctl_settings := c.(_ctl_settings);
     _registry := c.(_registry); _outbox := c.(_outbox) |}.
Definition set_free (s : gset string) (c : controller) : controller :=
  {| _islandsWaitingForAlloc := c.(_islandsWaitingForAlloc); _freeWorkersPool := s;
     _workAllocationMap := c.(_workAllocationMap); _ctl_settings := c.(_ctl_settings);
     _registry := c.(_registry); _outbox := c.(_outbox) |}.
Definition set_alloc (m : gmap string work_allocation_record) (c : controller) : controller :=
  {| _islandsWaitingForAlloc := c.(_islandsWaitingForAlloc);
     _freeWorkersPool := c.(_freeWorkersPool); _workAllocationMap := m;
     _ctl_settings := c.(_ctl_settings); _registry := c.(_registry); _outbox := c.(_outbox) |}.
Definition set_settings (s : settings controller_settings * disk) (c : controller) : controller :=
  {| _islandsWaitingForAlloc := c.(_islandsWaitingForAlloc);
     _freeWorkersPool := c.(_freeWorkersPool); _workAllocationMap := c.(_workAllocationMap);
     _ctl_settings := s; _registry := c.(_registry); _outbox := c.(_outbox) |}.
Definition set_registry (r : R) (c : controller) : controller :=
  {| _islandsWaitingForAlloc := c.(_islandsWaitingForAlloc);
     _freeWorkersPool := c.(_freeWorkersPool); _workAllocationMap := c.(_workAllocationMap);
     _ctl_settings := c.(_ctl_settings); _registry := r; _outbox := c.(_outbox) |}.
Definition send (m : sent) (c : controller) : controller :=
  {| _islandsWaitingForAlloc := c.(_islandsWaitingForAlloc);
     _freeWorkersPool := c.(_freeWorkersPool); _workAllocationMap := c.(_workAllocationMap);
     _ctl_settings := c.(_ctl_settings); _registry := c.(_registry);
     _outbox := c.(_outbox) ++ [m] |}.

Definition worker_repo (c : controller) : worker_info_repository :=
  (c.(_ctl_settings).1).(_settings).(workerInfo).

(** [get_worker_info_repository]: what the reference it returns refers to. *)
Definition get_worker_info_repository : M controller worker_info_repository :=
  zoom (λ c : controller, c.(_ctl_settings)) set_settings settings_repository.

(** [_settings().workerInfo.m(...)]: the settings operator saves first. *)
Definition repo_call {A} (m : M worker_info_repository A) : M controller A :=
  zoom (λ c : controller, c.(_ctl_settings)) set_settings
    (settings_call (zoom workerInfo (λ r _, {| workerInfo := r |}) m)).

Definition registry_call {A} (m : M R A) : M controller A :=
  zoom (λ c : controller, c.(_registry)) set_registry m.

(** ** Controller data logic *)

Definition _allocate_worker_to_island (now : Z) (p : picks) (island : string) (data : bytes) :
    M controller unit :=
  serializedData ← lift (vector_deserialize (A := container) data);
  let preferredWorker := serializedData.(preferredWorkerId) in
  c ← get_state;
  match set_begin p.(pick_worker) c.(_freeWorkersPool) with
  | None => crash (undefined_behaviour "*begin() of an empty _freeWorkersPool")
  | Some first =>
      let workerId :=
        if decide (preferredWorker ∈ c.(_freeWorkersPool)) then preferredWorker else first in
      _ ← modify (λ c, set_free (c.(_freeWorkersPool) ∖ {[workerId]}) c);
      _ ← modify (λ c, set_alloc (emplace workerId {| islandId := island; workData := data |}
                                          c.(_workAllocationMap)) c);
      _ ← repo_call (worker_started_work now workerId);
      modify (send (ToWorker workerId ALLOCATE_WORK data))
  end.

Definition _allocate_island_work (now : Z) (p : picks) (island : string) (data : bytes) :
    M controller unit :=
  c ← get_state;
  if decide (c.(_freeWorkersPool) = ∅) then
    modify (λ c, set_waiting (emplace island data c.(_islandsWaitingForAlloc)) c)
  else _allocate_worker_to_island now p island data.

Definition _pop_waiting_island (p : picks) : M controller (string * bytes) :=
  c ← get_state;
  match map_begin p.(pick_island) c.(_islandsWaitingForAlloc) with
  | None => crash (undefined_behaviour "begin() of an empty _islandsWaitingForAlloc")
  | Some (island, data) =>
      _ ← modify (λ c, set_waiting (delete island c.(_islandsWaitingForAlloc)) c);
      mret (island, data)
  end.

Definition _add_free_worker (now : Z) (p : picks) (workerId : string) : M controller unit :=
  _ ← modify (λ c, set_free ({[workerId]} ∪ c.(_freeWorkersPool)) c);
  c ← get_state;
  if decide (c.(_islandsWaitingForAlloc) = ∅) then mret tt
  else
    '(island, data) ← _pop_waiting_island p;
    _allocate_worker_to_island now p island data.

(** ** Handling of socket messages *)

Definition handle_worker_join (now : Z) (p : picks) (workerId : string) : M controller unit :=
  c ← get_state;
  if decide (workerId ∈ c.(_freeWorkersPool)) then mret tt
  else
    _ ← repo_call (worker_joined workerId worker_info_init);
    _add_free_worker now p workerId.

Definition handle_worker_leave (now : Z) (p : picks) (workerId : string) : M controller unit :=
  _ ← modify (λ c, set_free (c.(_freeWorkersPool) ∖ {[workerId]}) c);
  _ ← repo_call (worker_left workerId);
  c ← get_state;
  match c.(_workAllocationMap) !! workerId with
  | None => mret tt
  | Some record =>
      _ ← modify (λ c, set_alloc (delete workerId c.(_workAllocationMap)) c);
      _allocate_island_work now p record.(islandId) record.(workData)
  end.

Definition handle_work_results (now : Z) (p : picks) (workerId : string) (binary : bytes) :
    M controller unit :=
  workResults ← lift (vector_deserialize (A := container) binary);
  _ ← repo_call (worker_finished_work now workerId (population_size workResults.(pop))
                   (algorithm_get_name workResults.(algo)));
  c ← get_state;
  match c.(_workAllocationMap) !! workerId with
  | None => throw (out_of_range "unordered_map::at")
  | Some record =>
      _ ← modify (send (ToIsland record.(islandId) WORK_RESULTS binary));
      _ ← modify (λ c, set_alloc (delete workerId c.(_workAllocationMap)) c);
      _add_free_worker now p workerId
  end.

Definition handle_get_dll (workerId : string) (binary : bytes) : M controller unit :=
  dll_request ← lift (vector_deserialize (A := get_dll_request) binary);
  file ← registry_call (lib_as_file dll_request.(request_dll_name));
  modify (send (ToWorker workerId DLL_BINARY
    (vector_serialize (mk_dll_binary_container dll_request.(request_dll_name) file)))).

Definition _handle_Workers_Socket_Msg (now : Z) (p : picks) (m : string * MsgType * bytes) :
    M controller unit :=
  let '(workerId, type, binary) := m in
  match type with
  | WORKER_JOIN => handle_worker_join now p workerId
  | WORKER_LEAVE => handle_worker_leave now p workerId
  | WORK_RESULTS => handle_work_results now p workerId binary
  | GET_DLL => handle_get_dll workerId binary
  | _ => mret tt (* logs a warning *)
  end.

Definition _handle_Islands_Socket_Msg (now : Z) (p : picks) (m : string * MsgType * bytes) :
    M controller unit :=
  let '(island, type, binary) := m in
  match type with
  | ALLOCATE_WORK => _allocate_island_work now p island binary
  | _ => mret tt (* logs a warning *)
  end.

(** ** The server thread *)

(** One event of the poller: a message on one of the two sockets, with the
    clock and the iterators' elements while it is handled. *)
Inductive event :=
  | WorkersSocket (now : Z) (p : picks) (m : string * MsgType * bytes)
  | IslandsSocket (now : Z) (p : picks) (m : string * MsgType * bytes).

Definition handle_event (e : event) : M controller unit :=
  match e with
  | WorkersSocket now p m => _handle_Workers_Socket_Msg now p m
  | IslandsSocket now p m => _handle_Islands_Socket_Msg now p m
  end.

(** [run_server]: the poller loop; any exception ends the thread silently. *)
Inductive server :=
  | Serving (c : controller)
  | Stopped (c : controller) (unhandled : list event)
  | Crashed.

Fixpoint run_server (es : list event) (c : controller) : server :=
  match es with
  | [] => Serving c
  | e :: es =>
      match handle_event e c with
      | (Ret _, c') => run_server es c'
      | (Throw _, c') => Stopped c' es
      | (Crash _, _) => Crashed
      end
  end.

(** The constructor: empty containers, settings from the file. *)
Definition distributed_controller_new (r : R) (d : disk) : outcome controller :=
  match settings_construct true d with
  | (Ret s, d) =>
      Ret {| _islandsWaitingForAlloc := ∅; _freeWorkersPool := ∅; _workAllocationMap := ∅;
             _ctl_settings := (s, d); _registry := r; _outbox := [] |}
  | (Throw e, _) => Throw e
  | (Crash f, _) => Crash f
  end.
End Handlers.
