(* ===== verification/ControllerSpec.v ===== *)
(** * The controller's contract

    [ctl_inv] is the invariant of the controller's data; [event_ok] the protocol
    its peers follow; [pending] the abstract view: the jobs (island, work data)
    the controller is responsible for. Under the protocol no handler throws,
    every handler preserves the invariant, and on the abstract view a handler
    is one of three steps: submit a job, complete a job, or nothing. *)
From S2P Require Import Prelude WorkerInfo Messages Settings Pagmo Controller.

Section Spec.
Context {PG : Pagmo} {R : Type} {LS : LibraryStore R}.
Context {AW : Archive (work_container algorithm population)}
        {AQ : Archive get_dll_request} {AD : Archive dll_binary_container}
        {AS : Archive (gmap string (work_stats * gmap string work_stats))}.

Abbreviation controller := (distributed_controller R).
Abbreviation container := (work_container algorithm population).

Definition is_container (b : bytes) : Prop :=
  ∃ wc : container, vector_deserialize b = Ret wc.

Definition settings_ok (c : controller) : Prop :=
  (c.(_ctl_settings).1).(_autoSave) = true ∧ (c.(_ctl_settings).2).(writable) = true.

(** The job of island [i] with data [d] is waiting, or some worker runs it. *)
Definition pending (c : controller) (i : string) (d : bytes) : Prop :=
  c.(_islandsWaitingForAlloc) !! i = Some d ∨
  ∃ w, c.(_workAllocationMap) !! w = Some {| islandId := i; workData := d |}.

(** The results sent to islands, oldest first. *)
Definition sent_result (m : sent) : option (string * bytes) :=
  match m with
  | ToIsland i WORK_RESULTS b => Some (i, b)
  | _ => None
  end.
Definition results_sent (c : controller) : list (string * bytes) := omap sent_result c.(_outbox).

(** The invariant apart from [inv_eager]. *)
Record ctl_inv0 (c : controller) : Prop := {
  inv_free_alloc : ∀ w, w ∈ c.(_freeWorkersPool) → c.(_workAllocationMap) !! w = None;
  inv_connected : ∀ w, w ∈ (worker_repo c).(_connectedWorkers) ↔
    w ∈ c.(_freeWorkersPool) ∨ is_Some (c.(_workAllocationMap) !! w);
  inv_repo : repository_wf (worker_repo c);
  inv_waiting_data : ∀ i d, c.(_islandsWaitingForAlloc) !! i = Some d → is_container d;
  inv_alloc_data : ∀ w r, c.(_workAllocationMap) !! w = Some r → is_container r.(workData);
  inv_once : ∀ w w' r r', c.(_workAllocationMap) !! w = Some r →
    c.(_workAllocationMap) !! w' = Some r' → r.(islandId) = r'.(islandId) → w = w';
  inv_not_both : ∀ w r, c.(_workAllocationMap) !! w = Some r →
    c.(_islandsWaitingForAlloc) !! r.(islandId) = None;
  inv_settings : settings_ok c
}.

(** No island waits while a worker is free. *)
Definition eager (c : controller) : Prop :=
  c.(_islandsWaitingForAlloc) = ∅ ∨ c.(_freeWorkersPool) = ∅.

Definition ctl_inv (c : controller) : Prop := ctl_inv0 c ∧ eager c.

(** The protocol of the peers. *)
Definition event_ok (c : controller) (e : event) : Prop :=
  match e with
  | WorkersSocket _ _ (w, WORKER_JOIN, _) => c.(_workAllocationMap) !! w = None
  | WorkersSocket _ _ (w, WORK_RESULTS, b) =>
      is_Some (c.(_workAllocationMap) !! w) ∧ is_container b
  | WorkersSocket _ _ (w, GET_DLL, b) =>
      ∃ q f r, vector_deserialize b = Ret q ∧
        lib_as_file q.(request_dll_name) c.(_registry) = (Ret f, r)
  | IslandsSocket _ _ (i, ALLOCATE_WORK, b) => is_container b ∧ ∀ d, ¬ pending c i d
  | _ => True
  end.

(** The abstract step of an event, on the set of pending jobs. *)
Definition jobs_after (c : controller) (e : event) (i : string) (d : bytes) : Prop :=
  match e with
  | IslandsSocket _ _ (i0, ALLOCATE_WORK, d0) => pending c i d ∨ (i = i0 ∧ d = d0)
  | WorkersSocket _ _ (w, WORK_RESULTS, _) =>
      pending c i d ∧ ∀ r, c.(_workAllocationMap) !! w = Some r → i ≠ r.(islandId)
  | _ => pending c i d
  end.

Definition results_after (c : controller) (e : event) : list (string * bytes) :=
  match e with
  | WorkersSocket _ _ (w, WORK_RESULTS, b) =>
      match c.(_workAllocationMap) !! w with
      | Some r => results_sent c ++ [(r.(islandId), b)]
      | None => results_sent c
      end
  | _ => results_sent c
  end.

Definition connected_after (c : controller) (e : event) : gset string :=
  match e with
  | WorkersSocket _ _ (w, WORKER_JOIN, _) => {[w]} ∪ (worker_repo c).(_connectedWorkers)
  | WorkersSocket _ _ (w, WORKER_LEAVE, _) => (worker_repo c).(_connectedWorkers) ∖ {[w]}
  | _ => (worker_repo c).(_connectedWorkers)
  end.

(** ** Lemmas on the operations *)

Lemma set_begin_elem pick s w : set_begin pick s = Some w → w ∈ s.
Proof.
  unfold set_begin. case_decide; intros H1; simplify_eq; [done|].
  apply elem_of_elements. by apply head_Some_elem_of.
Qed.

Lemma set_begin_nonempty pick s : s ≠ ∅ → is_Some (set_begin pick s).
Proof.
  intros Hs. unfold set_begin. case_decide; [by eexists|].
  destruct (elements s) as [|x l] eqn:E; [|by eexists].
  by apply elements_empty_inv, leibniz_equiv in E.
Qed.

Lemma map_begin_lookup {A} pick (m : gmap string A) k v :
  map_begin pick m = Some (k, v) → m !! k = Some v.
Proof.
  unfold map_begin. destruct (m !! pick) eqn:E; intros; simplify_eq; [done|].
  apply elem_of_map_to_list. by apply head_Some_elem_of.
Qed.

Lemma map_begin_nonempty {A} pick (m : gmap string A) : m ≠ ∅ → is_Some (map_begin pick m).
Proof.
  intros Hm. unfold map_begin. destruct (m !! pick); [by eexists|].
  destruct (map_to_list m) as [|x l] eqn:E; [|by eexists].
  by apply map_to_list_empty_iff in E.
Qed.

Lemma repo_call_run {A} (m : M worker_info_repository A) c :
  settings_ok c →
  ∃ s, repo_call m c = ((m (worker_repo c)).1, set_settings s c) ∧
    s.1.(_settings).(workerInfo) = (m (worker_repo c)).2 ∧
    s.1.(_autoSave) = true ∧ s.2.(writable) = true ∧
    s.2.(file) = Some (settings_text c.(_ctl_settings).1.(_settings)).
Proof.
  intros [Ha Hw]. unfold repo_call, zoom at 1.
  destruct (_ctl_settings c) as [s d] eqn:Ecs. cbn in Ha, Hw.
  destruct (settings_call _ (s, d)) as [o [s' d']] eqn:E.
  apply settings_call_run in E as (Hm & Hf & Ha' & Hw' & _); [|done..].
  unfold zoom in Hm. unfold worker_repo. rewrite Ecs. cbn [fst] in *.
  destruct (m (workerInfo (_settings s))) as [o' r] eqn:Em. injection Hm as -> Hst.
  exists (s', d'). cbn. split_and!; try done. by rewrite Hst.
Qed.

Lemma allocate_run now p island data (wc : container) c :
  settings_ok c → vector_deserialize data = Ret wc → c.(_freeWorkersPool) ≠ ∅ →
  (∀ w, w ∈ c.(_freeWorkersPool) → is_Some ((worker_repo c).(_workerRecords) !! w)) →
  ∃ w s, w ∈ c.(_freeWorkersPool) ∧
    (wc.(preferredWorkerId) ∈ c.(_freeWorkersPool) → w = wc.(preferredWorkerId)) ∧
    _allocate_worker_to_island now p island data c =
      (Ret tt,
       send (ToWorker w ALLOCATE_WORK data)
         (set_settings s
           (set_alloc (emplace w {| islandId := island; workData := data |}
                               c.(_workAllocationMap))
             (set_free (c.(_freeWorkersPool) ∖ {[w]}) c)))) ∧
    s.1.(_settings).(workerInfo) = (worker_started_work now w (worker_repo c)).2 ∧
    s.1.(_autoSave) = true ∧ s.2.(writable) = true.
Proof.
  intros Hs Hd Hf Hk. destruct (set_begin_nonempty (pick_worker p) _ Hf) as [w0 Hw0].
  set (w := if decide (preferredWorkerId wc ∈ _freeWorkersPool c)
            then preferredWorkerId wc else w0).
  assert (Hw : w ∈ _freeWorkersPool c).
  { subst w. case_decide; [done|]. by eapply set_begin_elem. }
  set (c1 := set_alloc (emplace w {| islandId := island; workData := data |}
               (_workAllocationMap c)) (set_free (_freeWorkersPool c ∖ {[w]}) c)).
  destruct (repo_call_run (worker_started_work now w) c1) as (s & Hrun & Hrepo & Ha & Hwr & _);
    [done|].
  exists w, s. split; [done|]. split; [subst w; by intros; case_decide|].
  unfold _allocate_worker_to_island. run_simpl. rewrite Hd. run_simpl. rewrite Hw0.
  fold w. run_simpl. cbn [_workAllocationMap set_free]. fold c1. rewrite Hrun.
  unfold worker_started_work in *. change (worker_repo c1) with (worker_repo c) in *.
  destruct (Hk w Hw) as [i Hi]. rewrite Hi in *. by split_and!.
Qed.

(** ** Preservation of the invariant *)

Lemma started_connected now w r :
  ((worker_started_work now w r).2).(_connectedWorkers) = r.(_connectedWorkers).
Proof. unfold worker_started_work. by destruct (_workerRecords r !! w). Qed.

Lemma started_wf now w r : repository_wf r → repository_wf (worker_started_work now w r).2.
Proof. apply (repo_exec_wf (Started now w)). Qed.

(** Handing job [(island, data)] to a free worker. *)
Lemma allocate_inv now p island data c :
  ctl_inv0 c → c.(_freeWorkersPool) ≠ ∅ → is_container data → (∀ d, ¬ pending c island d) →
  ∃ w c', _allocate_worker_to_island now p island data c = (Ret tt, c') ∧
    w ∈ c.(_freeWorkersPool) ∧ ctl_inv0 c' ∧
    c'.(_islandsWaitingForAlloc) = c.(_islandsWaitingForAlloc) ∧
    c'.(_freeWorkersPool) = c.(_freeWorkersPool) ∖ {[w]} ∧
    c'.(_workAllocationMap) =
      <[w := {| islandId := island; workData := data |}]> c.(_workAllocationMap) ∧
    c'.(_outbox) = c.(_outbox) ++ [ToWorker w ALLOCATE_WORK data] ∧
    (worker_repo c').(_connectedWorkers) = (worker_repo c).(_connectedWorkers).
Proof.
  intros Hinv Hf [wc Hd] Hnp. pose proof Hinv as [Hfa Hcon Hrep Hwd Had Honce Hnb Hset].
  destruct (allocate_run now p island data wc c) as (w & s & Hw & _ & Hrun & Hrepo & Ha & Hwr);
    [done..| |].
  { intros w Hw. apply Hrep. apply Hcon. by left. }
  assert (Hwn : _workAllocationMap c !! w = None) by auto.
  exists w. eexists. split; [exact Hrun|]. split; [done|].
  assert (Hem : emplace w {| islandId := island; workData := data |} (_workAllocationMap c) =
    <[w := {| islandId := island; workData := data |}]> (_workAllocationMap c))
    by (unfold emplace; by rewrite Hwn).
  rewrite Hem. split; [|split_and!; try done; unfold worker_repo at 1; cbn;
    by rewrite Hrepo, started_connected].
  split; cbn; unfold worker_repo; cbn; rewrite ?Hrepo.
  - intros w' Hw'. rewrite lookup_insert_ne by set_solver. apply Hfa. set_solver.
  - intros w'. rewrite started_connected, Hcon.
    destruct (decide (w' = w)) as [->|Hne].
    + rewrite lookup_insert_eq. naive_solver.
    + rewrite lookup_insert_ne by done. set_solver.
  - by apply started_wf.
  - done.
  - intros w' r'. rewrite lookup_insert. case_decide; intros; simplify_eq; [by exists wc|eauto].
  - intros w1 w2 r1 r2. rewrite !lookup_insert.
    assert (Hisl : ∀ w' r', _workAllocationMap c !! w' = Some r' → islandId r' ≠ island).
    { intros w' [i' d'] Hr' Hi. cbn in Hi. subst i'. apply (Hnp d'). right. by exists w'. }
    repeat case_decide; intros; simplify_eq; cbn in *; [done|..|by eapply Honce];
      exfalso; by eapply Hisl.
  - intros w' r'. rewrite lookup_insert. case_decide; intros; simplify_eq; cbn; [|eauto].
    apply eq_None_not_Some. intros [d' Hd']. apply (Hnp d'). by left.
  - by split.
Qed.

Lemma pending_alloc_insert c c' w island data i d :
  c'.(_islandsWaitingForAlloc) = c.(_islandsWaitingForAlloc) →
  c'.(_workAllocationMap) =
    <[w := {| islandId := island; workData := data |}]> c.(_workAllocationMap) →
  c.(_workAllocationMap) !! w = None →
  pending c' i d ↔ pending c i d ∨ (i = island ∧ d = data).
Proof.
  intros Hw Ha Hn. unfold pending. rewrite Hw, Ha. split.
  - intros [?|[w' Hw']]; [by left; left|]. rewrite lookup_insert in Hw'.
    case_decide; simplify_eq; [by right|]. left; right; eauto.
  - intros [[?|[w' Hw']]|[-> ->]]; [by left| |].
    + right. exists w'. rewrite lookup_insert_ne; [done|congruence].
    + right. exists w. apply lookup_insert_eq.
Qed.

Lemma results_sent_send m c :
  results_sent (send m c) = results_sent c ++ omap sent_result [m].
Proof. apply omap_app. Qed.

(** [_allocate_island_work], for a job the controller does not hold yet. *)
Lemma allocate_island_inv now p island data c :
  ctl_inv c → is_container data → (∀ d, ¬ pending c island d) →
  ∃ c', _allocate_island_work now p island data c = (Ret tt, c') ∧ ctl_inv c' ∧
    (∀ i d, pending c' i d ↔ pending c i d ∨ (i = island ∧ d = data)) ∧
    results_sent c' = results_sent c ∧
    (worker_repo c').(_connectedWorkers) = (worker_repo c).(_connectedWorkers).
Proof.
  intros [Hinv Heager] Hd Hnp. unfold _allocate_island_work. run_simpl. case_decide as Hf.
  - eexists. split; [done|].
    assert (Hw : _islandsWaitingForAlloc c !! island = None).
    { apply eq_None_not_Some. intros [d' Hd']. apply (Hnp d'). by left. }
    unfold emplace. rewrite Hw. split; [split|split]; [|by right| |done].
    + destruct Hinv as [Hfa Hcon Hrep Hwd Had Honce Hnb Hset].
      split; cbn; try done.
      * intros i d. rewrite lookup_insert. case_decide; intros; simplify_eq; eauto.
      * intros w r Hr. rewrite lookup_insert_ne; [by eapply Hnb|]. intros ->.
        destruct r as [i' d']. apply (Hnp d'). right. by exists w.
    + intros i d. unfold pending; cbn. rewrite lookup_insert.
      case_decide; [subst; rewrite Hw|]; naive_solver.
  - destruct (allocate_inv now p island data c) as (w & c' & Hrun & Hw & Hinv' & Hwt & Hfr & Hal & Ho & Hc);
      [done..|].
    exists c'. split; [done|]. split; [split; [done|]|split; [|split; [|done]]].
    + destruct Heager as [Hw0|]; [left; by rewrite Hwt|done].
    + intros i d. eapply pending_alloc_insert; [done..|]. by eapply inv_free_alloc.
    + unfold results_sent. rewrite Ho, omap_app. cbn. by rewrite app_nil_r.
Qed.

(** [_add_free_worker], once [w] in the pool is consistent with the rest. *)
Lemma add_free_worker_inv now p w c :
  ctl_inv0 (set_free ({[w]} ∪ c.(_freeWorkersPool)) c) → eager c →
  ∃ c', _add_free_worker now p w c = (Ret tt, c') ∧ ctl_inv c' ∧
    (∀ i d, pending c' i d ↔ pending c i d) ∧ results_sent c' = results_sent c ∧
    (worker_repo c').(_connectedWorkers) = (worker_repo c).(_connectedWorkers).
Proof.
  intros Hinv Heager. unfold _add_free_worker. run_simpl.
  set (c1 := set_free _ c) in *. case_decide as Hwt.
  - exists c1. split; [done|]. split; [|done]. split; [done|]. by left.
  - unfold _pop_waiting_island. run_simpl.
    destruct (map_begin_nonempty (pick_island p) _ Hwt) as [[i0 d0] Hb]. rewrite Hb.
    apply map_begin_lookup in Hb. run_simpl.
    set (c2 := set_waiting (delete i0 _) c1).
    assert (Hinv2 : ctl_inv0 c2).
    { destruct Hinv as [Hfa Hcon Hrep Hwd Had Honce Hnb Hset]. split; cbn; try done.
      - intros i d. rewrite lookup_delete_Some. intros [_ ?]. eauto.
      - intros w' r Hr. rewrite lookup_delete. case_decide; [done|]. eauto. }
    assert (Hnp : ∀ d, ¬ pending c2 i0 d).
    { intros d [Hd|[w' Hw']]; cbn in *; [by rewrite lookup_delete_eq in Hd|].
      pose proof (inv_not_both _ Hinv w' _ Hw') as Hn. cbn in *. by rewrite Hn in Hb. }
    destruct (allocate_inv now p i0 d0 c2) as (w' & c' & Hrun & Hw & Hinv' & Hwt' & Hfr & Hal & Ho & Hc);
      [done|cbn; set_solver|by eapply (inv_waiting_data _ Hinv)|done|].
    exists c'. split; [done|]. split; [split; [done|]|split; [|split; [|done]]].
    + right. destruct Heager as [?|Hf]; [done|]. rewrite Hfr. cbn in *.
      rewrite Hf in *. set_solver.
    + intros i d. rewrite (pending_alloc_insert c2 c' w' i0 d0) by
        (done || by eapply (inv_free_alloc _ Hinv2)).
      unfold pending. cbn. destruct (decide (i = i0)) as [->|Hne].
      * rewrite lookup_delete_eq. cbn in Hb. rewrite Hb. naive_solver.
      * rewrite lookup_delete_ne by done. naive_solver.
    + unfold results_sent. rewrite Ho, omap_app. cbn. by rewrite app_nil_r.
Qed.
(** ** The handlers *)

(** What every handler guarantees on the abstract view. *)
Definition step_result (c : controller) (e : event) (r : outcome unit * controller) : Prop :=
  ∃ c', r = (Ret tt, c') ∧ ctl_inv c' ∧
    (∀ i d, pending c' i d ↔ jobs_after c e i d) ∧
    results_sent c' = results_after c e ∧
    (worker_repo c').(_connectedWorkers) = connected_after c e.

Lemma join_inv now p w b c :
  ctl_inv c → c.(_workAllocationMap) !! w = None →
  step_result c (WorkersSocket now p (w, WORKER_JOIN, b)) (handle_worker_join now p w c).
Proof.
  intros [Hinv Heager] Hn. unfold handle_worker_join. run_simpl. case_decide as Hin.
  { exists c. split_and!; try done. cbn.
    pose proof (proj2 (inv_connected c Hinv w) (or_introl Hin)). set_solver. }
  destruct (repo_call_run (worker_joined w worker_info_init) c) as (s & Hrun & Hrepo & Ha & Hw & _);
    [by apply Hinv|].
  run_simpl. rewrite Hrun. cbn [worker_joined modify fst].
  destruct (add_free_worker_inv now p w (set_settings s c)) as (c' & Hr & Hi & Hp & Hres & Hc);
    [|done|].
  2: { exists c'. rewrite Hc. unfold worker_repo at 1. cbn. by rewrite Hrepo. }
  destruct Hinv as [Hfa Hcon Hrep Hwd Had Honce Hnb Hset].
  split; cbn; try done; unfold worker_repo; cbn; rewrite ?Hrepo.
  - intros w' Hw'. destruct (decide (w' = w)) as [->|]; [done|]. apply Hfa. set_solver.
  - intros w'. cbn. rewrite elem_of_union, elem_of_singleton, Hcon. set_solver.
  - by apply (repo_exec_wf (Joined w)).
Qed.

Lemma left_wf w r : repository_wf r → repository_wf (worker_left w r).2.
Proof. apply (repo_exec_wf (Left w)). Qed.

Lemma leave_inv now p w b c :
  ctl_inv c →
  step_result c (WorkersSocket now p (w, WORKER_LEAVE, b)) (handle_worker_leave now p w c).
Proof.
  intros [Hinv Heager]. unfold handle_worker_leave. run_simpl.
  set (c1 := set_free _ c).
  destruct (repo_call_run (worker_left w) c1) as (s & Hrun & Hrepo & Ha & Hw & _);
    [by apply Hinv|].
  run_simpl. rewrite Hrun. cbn [worker_left modify fst]. run_simpl.
  pose proof Hinv as [Hfa Hcon Hrep Hwd Had Honce Hnb Hset].
  cbn [_workAllocationMap set_settings c1 set_free].
  destruct (_workAllocationMap c !! w) as [[i0 d0]|] eqn:Hal.
  - run_simpl. cbn [islandId workData]. set (c2 := set_alloc _ _).
    destruct (allocate_island_inv now p i0 d0 c2) as (c' & Hr & Hinv' & Hp & Hres & Hc).
    + split; [|unfold eager in *; cbn; set_solver].
      split; cbn; try done; unfold worker_repo; cbn; rewrite ?Hrepo.
      * intros w' Hw'. rewrite lookup_delete. case_decide; [done|]. apply Hfa. set_solver.
      * intros w'. cbn. change (worker_repo c1) with (worker_repo c).
        rewrite elem_of_difference, elem_of_singleton, Hcon.
        destruct (decide (w' = w)) as [->|Hne].
        -- rewrite lookup_delete_eq. split; [naive_solver|].
           intros [Hx|[? ?]]; [set_solver|done].
        -- rewrite lookup_delete_ne by done. set_solver.
      * by apply left_wf.
      * intros w' r. rewrite lookup_delete_Some. intros [_ ?]. eauto.
      * intros w1 w2 r1 r2. rewrite !lookup_delete_Some. intros [_ ?] [_ ?]. eauto.
      * intros w' r. rewrite lookup_delete_Some. intros [_ ?]. eauto.
    + by apply (Had w _ Hal).
    + intros d [Hd|[w' Hw']]; cbn in *.
      * pose proof (Hnb w _ Hal) as Hn. cbn in Hn. by rewrite Hn in Hd.
      * rewrite lookup_delete_Some in Hw'. destruct Hw' as [Hne Hw'].
        by apply Hne, (Honce w w' _ _ Hal Hw').
    + exists c'. split; [done|]. split; [done|]. split; [|split; [done|]].
      2: { rewrite Hc. unfold worker_repo at 1. cbn. by rewrite Hrepo. }
      intros i d. cbn [jobs_after]. rewrite Hp. unfold pending. cbn.
      split; [intros [[?|[w' Hw']]|[-> ->]]|intros [?|[w' Hw']]].
      * by left.
      * right. exists w'. rewrite lookup_delete_Some in Hw'. naive_solver.
      * right. by exists w.
      * by left; left.
      * destruct (decide (w' = w)) as [->|]; [right; naive_solver|].
        left; right. exists w'. by rewrite lookup_delete_ne.
  - eexists. split; [done|]. split; [split|split; [|split]].
    + split; cbn; try done; unfold worker_repo; cbn; rewrite ?Hrepo.
      * intros w' Hw'. apply Hfa. set_solver.
      * intros w'. cbn. change (worker_repo c1) with (worker_repo c).
        rewrite elem_of_difference, elem_of_singleton, Hcon.
        destruct (decide (w' = w)) as [->|Hne]; [|set_solver].
        rewrite Hal. split; [naive_solver|]. intros [Hx|[? ?]]; [set_solver|done].
      * by apply left_wf.
    + unfold eager in *; cbn; set_solver.
    + done.
    + done.
    + unfold worker_repo at 1. cbn. by rewrite Hrepo.
Qed.
Lemma finished_connected now w n a r :
  ((worker_finished_work now w n a r).2).(_connectedWorkers) = r.(_connectedWorkers).
Proof. unfold worker_finished_work. by destruct (_workerRecords r !! w). Qed.

Lemma finished_wf now w n a r :
  repository_wf r → repository_wf (worker_finished_work now w n a r).2.
Proof. apply (repo_exec_wf (Finished now w n a)). Qed.

Lemma results_inv now p w b c :
  ctl_inv c → is_Some (c.(_workAllocationMap) !! w) → is_container b →
  step_result c (WorkersSocket now p (w, WORK_RESULTS, b)) (handle_work_results now p w b c).
Proof.
  intros [Hinv Heager] [[i0 d0] Hal] [wc Hwc]. unfold handle_work_results. run_simpl.
  rewrite Hwc. run_simpl.
  set (m := worker_finished_work now w _ _).
  destruct (repo_call_run m c) as (s & Hrun & Hrepo & Ha & Hw & _); [by apply Hinv|].
  pose proof Hinv as [Hfa Hcon Hrep Hwd Had Honce Hnb Hset].
  assert (Hrec : is_Some ((worker_repo c).(_workerRecords) !! w)).
  { apply Hrep, Hcon. right. by eexists. }
  assert (Hret : (m (worker_repo c)).1 = Ret tt).
  { subst m. unfold worker_finished_work. destruct Hrec as [i ->]. done. }
  rewrite Hrun, Hret. run_simpl. cbn [_workAllocationMap set_settings]. rewrite Hal.
  run_simpl. cbn [islandId]. set (c1 := set_alloc _ _).
  assert (Hwt : _islandsWaitingForAlloc c !! i0 = None) by apply (Hnb w _ Hal).
  destruct (add_free_worker_inv now p w c1) as (c' & Hr & Hinv' & Hp & Hres & Hc).
  - split; cbn; try done; unfold worker_repo; cbn; rewrite ?Hrepo.
    + intros w' Hw'. rewrite lookup_delete. case_decide; [done|]. apply Hfa. set_solver.
    + intros w'. subst m. rewrite finished_connected, Hcon.
      destruct (decide (w' = w)) as [->|Hne].
      * rewrite lookup_delete_eq, Hal. split; [set_solver|by eauto].
      * rewrite lookup_delete_ne by done. set_solver.
    + by apply finished_wf.
    + intros w' r. rewrite lookup_delete_Some. intros [_ ?]. eauto.
    + intros w1 w2 r1 r2. rewrite !lookup_delete_Some. intros [_ ?] [_ ?]. eauto.
    + intros w' r. rewrite lookup_delete_Some. intros [_ ?]. eauto.
  - done.
  - exists c'. split; [done|]. split; [done|]. split; [|split].
    + intros i d. cbn [jobs_after]. rewrite Hp, Hal. unfold pending. cbn. split.
      * intros [Hi|[w' Hw']].
        -- split; [by left|]. intros r [= <-] ->. cbn in Hi. by rewrite Hwt in Hi.
        -- rewrite lookup_delete_Some in Hw'. destruct Hw' as [Hne Hw'].
           split; [by right; exists w'|]. intros r [= <-] ->.
           by apply Hne, (Honce w w' _ _ Hal Hw').
      * intros [[?|[w' Hw']] Hi]; [by left|]. right. exists w'.
        rewrite lookup_delete_ne; [done|]. intros <-.
        rewrite Hal in Hw'. simplify_eq. by apply (Hi _ eq_refl).
    + rewrite Hres. cbn [results_after]. rewrite Hal. unfold results_sent at 1. cbn.
      by rewrite omap_app.
    + rewrite Hc. unfold worker_repo at 1. cbn. rewrite Hrepo. subst m.
      by rewrite finished_connected.
Qed.

Lemma get_dll_inv now p w b c q f r :
  ctl_inv c → vector_deserialize b = Ret q →
  lib_as_file q.(request_dll_name) c.(_registry) = (Ret f, r) →
  step_result c (WorkersSocket now p (w, GET_DLL, b)) (handle_get_dll w b c).
Proof.
  intros [[Hfa Hcon Hrep Hwd Had Honce Hnb Hset] Heager] Hq Hl.
  unfold handle_get_dll. run_simpl. rewrite Hq. run_simpl.
  unfold registry_call, zoom. rewrite Hl. run_simpl.
  eexists. split; [done|]. split; [by split|]. split; [done|]. split; [|done].
  unfold results_sent. cbn. rewrite omap_app. cbn. by rewrite app_nil_r.
Qed.

(** ** Refinement of the abstract job store by every handler *)

Lemma handler_step (c : controller) (e : event) :
  ctl_inv c → event_ok c e → step_result c e (handle_event e c).
Proof.
  intros Hinv Hok. destruct e as [now p [[w t] b]|now p [[i t] b]]; cbn [handle_event].
  - destruct t; cbn [_handle_Workers_Socket_Msg event_ok] in *.
    + by apply join_inv.
    + by apply leave_inv.
    + by exists c.
    + destruct Hok. by apply results_inv.
    + destruct Hok as (q & f & r & Hq & Hl). by eapply get_dll_inv.
    + by exists c.
    + by exists c.
  - destruct t; cbn [_handle_Islands_Socket_Msg event_ok] in *; try by exists c.
    destruct Hok. by apply allocate_island_inv.
Qed.

(** C3. Every controller handler, on a message that follows the protocol, returns normally, preserves the controller's invariant, and is exactly one step of the abstract job store: submit a job, complete a job with its result sent to its island, or nothing. *)
Theorem controller_handler_refines (c : controller) (e : event) :
  ctl_inv c → event_ok c e → step_result c e (handle_event e c).
Proof. apply handler_step. Qed.

(** ** Runs *)

(** A sequence of messages, each of which follows the protocol in the state
    that the handlers of the earlier ones left, however these ended. *)
Inductive run : controller → list event → controller → Prop :=
  | run_nil c : run c [] c
  | run_cons c e es c2 :
      event_ok c e → run (handle_event e c).2 es c2 → run c (e :: es) c2.

Lemma run_cons_inv c e es c2 :
  run c (e :: es) c2 → ctl_inv c →
  ∃ c1, event_ok c e ∧ handle_event e c = (Ret tt, c1) ∧ ctl_inv c1 ∧ run c1 es c2.
Proof.
  intros Hrun Hinv. inversion Hrun as [|c' e' es' c2' Hok Htl]; subst.
  destruct (handler_step c e Hinv Hok) as (c1 & He & Hinv1 & _). rewrite He in Htl. eauto.
Qed.

(** An initial state: what the constructor builds from a readable file. *)
Definition initial (c : controller) : Prop :=
  c.(_islandsWaitingForAlloc) = ∅ ∧ c.(_freeWorkersPool) = ∅ ∧
  c.(_workAllocationMap) = ∅ ∧ c.(_outbox) = [] ∧
  (worker_repo c).(_connectedWorkers) = ∅ ∧ repository_wf (worker_repo c) ∧ settings_ok c.

Lemma initial_inv c : initial c → ctl_inv c.
Proof.
  intros (Hw & Hf & Ha & _ & Hc & Hr & Hs). split; [|by left].
  split; rewrite ?Hw, ?Hf, ?Ha, ?Hc; try done; try set_solver.
  intros w. rewrite lookup_empty. split; [set_solver|].
  intros [?|[? ?]]; [set_solver|done].
Qed.

Lemma run_inv c es c' : run c es c' → ctl_inv c → ctl_inv c'.
Proof.
  induction 1 as [|c e es c2 Hok Hrun IH]; intros Hinv; [done|]. apply IH.
  destruct (handler_step c e Hinv Hok) as (c1 & -> & Hinv' & _). done.
Qed.

(** Jobs submitted by island [i] in a run, and results delivered to it. *)
Definition submission (i : string) (e : event) : bool :=
  match e with
  | IslandsSocket _ _ (i', ALLOCATE_WORK, _) => bool_decide (i = i')
  | _ => false
  end.
Definition submitted (i : string) (es : list event) : nat :=
  length (filter (λ e, submission i e = true) es).
Definition delivered (i : string) (c : controller) : nat :=
  length (filter (λ r : string * bytes, r.1 = i) (results_sent c)).

Lemma pending_dec c i : {∃ d, pending c i d} + {∀ d, ¬ pending c i d}.
Proof.
  destruct (_islandsWaitingForAlloc c !! i) as [d|] eqn:Hw.
  { left. exists d. by left. }
  destruct (decide (map_Exists (λ _ r, islandId r = i) (_workAllocationMap c))) as [He|He].
  - left. destruct He as (w & [i' d] & Hr & Hi). cbn in Hi. subst i'. exists d. right. by exists w.
  - right. intros d [?|[w Hr]]; [congruence|]. apply He.
    by exists w, {| islandId := i; workData := d |}.
Defined.

(** Number of jobs of island [i] the controller holds. *)
Definition held (i : string) (c : controller) : nat := if pending_dec c i then 1 else 0.

Lemma held_one i d c : pending c i d → held i c = 1%nat.
Proof. intros Hd. unfold held. destruct (pending_dec c i) as [?|Hn]; [done|]. by destruct (Hn d). Qed.

Lemma held_zero i c : (∀ d, ¬ pending c i d) → held i c = 0%nat.
Proof. intros Hn. unfold held. destruct (pending_dec c i) as [[d ?]|?]; [by destruct (Hn d)|done]. Qed.

Lemma held_ext i c c' : (∀ d, pending c' i d ↔ pending c i d) → held i c' = held i c.
Proof.
  intros He. destruct (pending_dec c i) as [[d Hd]|Hn].
  - by rewrite !(held_one i d) by (rewrite ?He; done).
  - rewrite !held_zero; [done|done|]. intros d. by rewrite He.
Qed.

Lemma event_balance c e c1 i :
  ctl_inv c → event_ok c e → handle_event e c = (Ret tt, c1) →
  (submitted i [e] + held i c + delivered i c = delivered i c1 + held i c1)%nat.
Proof.
  intros Hinv Hok He.
  destruct (handler_step c e Hinv Hok) as (c' & He' & Hinv' & Hj & Hres & _).
  rewrite He in He'. injection He' as <-. unfold delivered. rewrite Hres.
  assert (Hsame : submitted i [e] = 0%nat → (∀ d, jobs_after c e i d ↔ pending c i d) →
    results_after c e = results_sent c →
    (submitted i [e] + held i c + length (filter (λ r : string * bytes, r.1 = i) (results_sent c)) =
     length (filter (λ r : string * bytes, r.1 = i) (results_after c e)) + held i c1)%nat).
  { intros -> Hja ->. rewrite (held_ext i c c1); [lia|]. intros d. by rewrite Hj, Hja. }
  destruct e as [now p [[w t] b]|now p [[i0 t] b]]; destruct t; try by apply Hsame.
  - destruct Hok as [[[i0 d0] Hal] _]. cbn [results_after]. rewrite Hal.
    cbn [islandId]. rewrite list.filter_app, length_app, filter_cons, filter_nil. cbn [fst].
    change (submitted i _) with 0%nat.
    assert (Hjr : ∀ d, pending c1 i d ↔ pending c i d ∧ i ≠ i0).
    { intros d. rewrite Hj. cbn. rewrite Hal. naive_solver. }
    case_decide as Hi; cbn.
    + subst i0. rewrite (held_one i d0 c) by (right; by exists w).
      rewrite (held_zero i c1); [lia|]. intros d. rewrite Hjr. naive_solver.
    + rewrite (held_ext i c c1); [lia|]. intros d. rewrite Hjr. naive_solver.
  - destruct Hok as [_ Hnp]. cbn [results_after]. unfold submitted. cbn [submission].
    rewrite filter_cons, filter_nil. cbn [submission].
    destruct (decide (i = i0)) as [->|Hne].
    + rewrite decide_True by by apply bool_decide_eq_true. cbn.
      rewrite (held_zero i0 c) by done. rewrite (held_one i0 b c1); [lia|].
      rewrite Hj. cbn. by right.
    + rewrite decide_False by by rewrite bool_decide_eq_true. cbn.
      rewrite (held_ext i c c1); [lia|]. intros d. rewrite Hj. cbn. naive_solver.
Qed.

Lemma submitted_cons i e es : submitted i (e :: es) = (submitted i [e] + submitted i es)%nat.
Proof. unfold submitted. rewrite !filter_cons, filter_nil. by case_decide. Qed.

Lemma run_balance c es c' i :
  run c es c' → ctl_inv c →
  (submitted i es + held i c + delivered i c = delivered i c' + held i c')%nat.
Proof.
  induction 1 as [c|c e es c2 Hok Hrun IH]; intros Hinv; [cbn; lia|].
  destruct (handler_step c e Hinv Hok) as (c1 & He & Hinv' & _). rewrite He in IH, Hrun. cbn [snd] in IH, Hrun.
  rewrite submitted_cons. pose proof (event_balance c e c1 i Hinv Hok He).
  specialize (IH Hinv'). lia.
Qed.

(** *** Exactly-once delivery *)

(** C5. In every run of the protocol from an initial state, the jobs an island
    submitted are the results delivered to it plus the (at most one) job still
    held: no job is lost or answered twice, whatever workers join and leave,
    as long as a worker joins only while it has no allocation (the handler
    overwrites an allocation otherwise: [busy_join_loses_job]) and sends
    results only while it has one. *)
Theorem results_exactly_once (c0 c : controller) (es : list event) (i : string) :
  initial c0 → run c0 es c →
  submitted i es = (delivered i c + held i c)%nat ∧ (held i c ≤ 1)%nat.
Proof.
  intros Hi Hrun. pose proof (run_balance c0 es c i Hrun (initial_inv c0 Hi)) as Hb.
  destruct Hi as (Hw & _ & Ha & Ho & _).
  assert (delivered i c0 = 0%nat) by (unfold delivered, results_sent; by rewrite Ho).
  assert (held i c0 = 0%nat).
  { apply held_zero. intros d [Hd|[w Hd]]; [rewrite Hw in Hd|rewrite Ha in Hd]; by rewrite lookup_empty in Hd. }
  split; [lia|]. unfold held. destruct (pending_dec c i); lia.
Qed.

(** *** Reachable states: every connected worker is either free or running a
    known job, and no island waits while a worker is free. *)

(** C6. In every reachable state each connected worker is exactly one of free or running a recorded job, no island waits while a worker is free, and the statistics are well-formed. *)
Theorem controller_invariant (c0 c : controller) (es : list event) :
  initial c0 → run c0 es c →
  (∀ w, w ∈ (worker_repo c).(_connectedWorkers) ↔
    w ∈ c.(_freeWorkersPool) ∨ is_Some (c.(_workAllocationMap) !! w)) ∧
  (∀ w, ¬ (w ∈ c.(_freeWorkersPool) ∧ is_Some (c.(_workAllocationMap) !! w))) ∧
  (c.(_islandsWaitingForAlloc) = ∅ ∨ c.(_freeWorkersPool) = ∅) ∧
  repository_wf (worker_repo c).
Proof.
  intros Hi Hrun. destruct (run_inv c0 es c Hrun (initial_inv c0 Hi)) as [Hinv He].
  split; [apply (inv_connected c Hinv)|]. split; [|split; [done|apply Hinv]].
  intros w [Hf [r Hr]]. by rewrite (inv_free_alloc c Hinv w Hf) in Hr.
Qed.

Lemma run_serving (c c' : controller) es : run c es c' → ctl_inv c → run_server es c = Serving c'.
Proof.
  induction 1 as [|c e es c2 Hok Hrun IH]; intros Hinv; [done|]. cbn.
  destruct (handler_step c e Hinv Hok) as (c1 & He & Hinv' & _). rewrite He in IH |- *. by apply IH.
Qed.

(** C14. From an initial state the server thread handles every sequence of
    messages that follow the protocol to its end: no handler throws, which
    would end the thread, or is undefined. The protocol asks of each message,
    in the state the earlier ones left: a worker joins while it has no
    allocation and sends results while it has one, an island submits while it
    has no pending job, jobs and results are readable containers, and a
    library is asked for by a readable request that the registry can answer. *)
Theorem server_keeps_serving (c0 c : controller) (es : list event) :
  initial c0 → run c0 es c → run_server es c0 = Serving c.
Proof. intros Hi Hrun. apply run_serving; [done|by apply initial_inv]. Qed.

(** ** Progress *)

Lemma finish_one c :
  ctl_inv c → (∃ i d, pending c i d) → (∃ w, w ∈ (worker_repo c).(_connectedWorkers)) →
  ∃ w r, c.(_workAllocationMap) !! w = Some r.
Proof.
  intros [Hinv Heager] (i & d & Hp) [w Hw]. destruct Hp as [Hwt|[w' ?]]; [|by eauto].
  apply (inv_connected c Hinv) in Hw as [Hf|[r Hr]]; [|by eauto].
  destruct Heager as [He|He]; [by rewrite He, lookup_empty in Hwt|set_solver].
Qed.
End Spec.
