(* ===== verification/ControllerLiveness.v ===== *)
(** * Progress of the controller, and what breaks its protocol

    The first part shows that work drains: as long as one worker is connected,
    every result reduces the number of pending jobs by one, some worker is
    always running a job, and finitely many results empty the controller. The
    second part proves what two messages outside the protocol of [event_ok] do:
    a result that arrives after its worker was declared gone, and a join of a
    worker that is still running a job. *)
From S2P Require Import Prelude WorkerInfo Messages Settings Pagmo Controller ControllerSpec.

Section Progress.
Context {PG : Pagmo} {R : Type} {LS : LibraryStore R}.
Context {AW : Archive (work_container algorithm population)}
        {AQ : Archive get_dll_request} {AD : Archive dll_binary_container}
        {AS : Archive (gmap string (work_stats * gmap string work_stats))}.

Abbreviation controller := (distributed_controller R).

(** The islands with a pending job. *)
Definition pending_islands (c : controller) : gset string :=
  dom c.(_islandsWaitingForAlloc) ∪
  list_to_set ((λ wr : string * work_allocation_record, wr.2.(islandId)) <$>
               map_to_list c.(_workAllocationMap)).

Lemma elem_of_pending_islands (c : controller) i : i ∈ pending_islands c ↔ ∃ d, pending c i d.
Proof.
  unfold pending_islands, pending. rewrite elem_of_union, elem_of_dom, elem_of_list_to_set,
    list_elem_of_fmap. split.
  - intros [[d Hd]|([w [i' d]] & -> & Hw)]; [by exists d; left|].
    apply elem_of_map_to_list in Hw. exists d. right. by exists w.
  - intros [d [Hd|[w Hw]]]; [left; by exists d|right].
    exists (w, {| islandId := i; workData := d |}). by rewrite elem_of_map_to_list.
Qed.

Definition is_result (e : event) : Prop :=
  match e with
  | WorkersSocket _ _ (_, WORK_RESULTS, _) => True
  | _ => False
  end.

(** One result: exactly one job fewer, same workers. *)
Lemma result_step now p w b (c : controller) :
  ctl_inv c → event_ok c (WorkersSocket now p (w, WORK_RESULTS, b)) →
  ∃ c', handle_event (WorkersSocket now p (w, WORK_RESULTS, b)) c = (Ret tt, c') ∧
    ctl_inv c' ∧ (worker_repo c').(_connectedWorkers) = (worker_repo c).(_connectedWorkers) ∧
    size (pending_islands c) = S (size (pending_islands c')).
Proof.
  intros Hinv Hok. pose proof Hok as [[[i0 d0] Hal] _].
  destruct (handler_step c _ Hinv Hok) as (c' & Hrun & Hinv' & Hj & _ & Hc).
  exists c'. split; [done|]. split; [done|]. split; [done|].
  assert (Hin : i0 ∈ pending_islands c).
  { apply elem_of_pending_islands. exists d0. right. by exists w. }
  assert (pending_islands c' = pending_islands c ∖ {[i0]}) as ->.
  { apply set_eq. intros i. rewrite elem_of_difference, elem_of_singleton,
      !elem_of_pending_islands. setoid_rewrite Hj. cbn [jobs_after]. rewrite Hal.
    cbn. naive_solver. }
  rewrite size_difference by set_solver. rewrite size_singleton.
  assert (size (pending_islands c) ≠ 0%nat); [|lia].
  intros Hz. apply size_empty_inv in Hz. set_solver.
Qed.

Lemma some_worker_runs (c : controller) :
  ctl_inv c → (∃ i d, pending c i d) → (∃ w, w ∈ (worker_repo c).(_connectedWorkers)) →
  ∃ w r, c.(_workAllocationMap) !! w = Some r.
Proof. apply finish_one. Qed.

(** *** All work completes *)

(** From every state satisfying the invariant with a connected worker, as many results as there are pending jobs empty the controller. *)
Theorem work_drains (c : controller) :
  ctl_inv c → (∃ w, w ∈ (worker_repo c).(_connectedWorkers)) →
  ∃ es c', run c es c' ∧ Forall is_result es ∧
    length es = size (pending_islands c) ∧ (∀ i d, ¬ pending c' i d).
Proof.
  remember (size (pending_islands c)) as n eqn:Hn. revert c Hn.
  induction n as [|n IH]; intros c Hn Hinv Hcon.
  - exists [], c. split; [constructor|]. split; [done|]. split; [done|].
    intros i d Hp. symmetry in Hn. apply size_empty_inv in Hn.
    assert (i ∈ pending_islands c) by (apply elem_of_pending_islands; by exists d).
    set_solver.
  - destruct (size_pos_elem_of (pending_islands c)) as [i Hi]; [lia|].
    apply elem_of_pending_islands in Hi as [d Hd].
    destruct (some_worker_runs c Hinv) as (w & r & Hr); [by eauto|done|].
    set (p := {| pick_worker := ""; pick_island := "" |}).
    destruct (result_step 0 p w r.(workData) c Hinv) as (c1 & Hrun & Hinv1 & Hc1 & Hsz).
    { split; [by eexists|]. by eapply inv_alloc_data; [apply Hinv|]. }
    destruct (IH c1) as (es & c' & Hes & Hall & Hlen & Hnp); [lia|done|by rewrite Hc1|].
    exists (WorkersSocket 0 p (w, WORK_RESULTS, r.(workData)) :: es), c'.
    split; [|split; [by constructor|split; [cbn; lia|done]]].
    constructor; [|by rewrite Hrun]. split; [by eexists|]. by eapply inv_alloc_data; [apply Hinv|].
Qed.

(** ** Outside the protocol *)

(** C15. A result from a worker without an allocation: the handler throws from
    [_workAllocationMap.at] after the statistics were updated, and
    [run_server]'s [catch (...)] ends the server thread: the pending jobs stay
    pending and every later message goes unhandled. *)
Theorem late_result_stops_server (c : controller) now p w b es :
  ctl_inv c → is_container b → c.(_workAllocationMap) !! w = None →
  is_Some ((worker_repo c).(_workerRecords) !! w) →
  ∃ c', run_server (WorkersSocket now p (w, WORK_RESULTS, b) :: es) c = Stopped c' es ∧
    (∀ i d, pending c' i d ↔ pending c i d) ∧ results_sent c' = results_sent c.
Proof.
  intros [Hinv _] [wc Hwc] Hal [i Hi]. cbn [run_server handle_event _handle_Workers_Socket_Msg].
  unfold handle_work_results. run_simpl. rewrite Hwc. run_simpl.
  set (m := worker_finished_work now w _ _).
  destruct (repo_call_run m c) as (s & Hrun & _); [by apply Hinv|].
  assert (Hret : (m (worker_repo c)).1 = Ret tt).
  { subst m. unfold worker_finished_work. by rewrite Hi. }
  rewrite Hrun, Hret. run_simpl. cbn [_workAllocationMap set_settings]. rewrite Hal.
  by eexists.
Qed.

(** A join from a worker that still runs a job ([handle_worker_join] only
    looks at the free pool): the worker is then free and busy at once, and the
    next job it is given is recorded nowhere ([emplace] keeps the old
    record), although every handler returns normally. *)
Theorem busy_join_loses_job (c : controller) n1 n2 p1 p2 w b r island data :
  ctl_inv c → c.(_workAllocationMap) !! w = Some r →
  c.(_islandsWaitingForAlloc) = ∅ → c.(_freeWorkersPool) = ∅ →
  is_container data → (∀ d, ¬ pending c island d) →
  ∃ c', run_server [WorkersSocket n1 p1 (w, WORKER_JOIN, b);
                    IslandsSocket n2 p2 (island, ALLOCATE_WORK, data)] c = Serving c' ∧
    ToWorker w ALLOCATE_WORK data ∈ c'.(_outbox) ∧ (∀ d, ¬ pending c' island d).
Proof.
  intros [Hinv _] Hr Hwt Hf [wc Hwc] Hnp.
  cbn [run_server handle_event _handle_Workers_Socket_Msg _handle_Islands_Socket_Msg].
  unfold handle_worker_join, _add_free_worker. run_simpl.
  rewrite decide_False by (rewrite Hf; set_solver).
  destruct (repo_call_run (worker_joined w worker_info_init) c)
    as (s & Hrun & Hrepo & Ha & Hw & _); [by apply Hinv|].
  run_simpl. rewrite Hrun. cbn [worker_joined modify fst]. run_simpl.
  cbn [_islandsWaitingForAlloc set_settings set_free]. rewrite decide_True by done.
  cbn [mret M_ret]. set (c1 := set_free _ _).
  assert (Hf1 : _freeWorkersPool c1 = {[w]}) by (cbn; rewrite Hf; set_solver).
  destruct (allocate_run n2 p2 island data wc c1) as (w' & s' & Hw' & _ & Hrun' & _).
  { by split. }
  { done. }
  { rewrite Hf1. set_solver. }
  { intros w'. rewrite Hf1, elem_of_singleton. intros ->. unfold worker_repo. cbn.
    rewrite Hrepo, joined_records. by eexists. }
  rewrite Hf1, elem_of_singleton in Hw'. subst w'.
  unfold _allocate_island_work. run_simpl.
  rewrite decide_False by (rewrite Hf1; set_solver). rewrite Hrun'.
  eexists. split; [done|]. split; [cbn; set_solver|].
  intros d [Hd|[w' Hw']]; cbn in *; [by rewrite Hwt, lookup_empty in Hd|].
  unfold emplace in Hw'. rewrite Hr in Hw'. apply (Hnp d). right. by exists w'.
Qed.
End Progress.
