(* ===== verification/Grants.v ===== *)
(** * What one controller handler sends

    [granted]: besides the reply of the message it handles, a handler gives at
    most one job to at most one worker, one that had none, and the ALLOCATE_WORK
    message it sends is the job it records. *)
From S2P Require Import Prelude WorkerInfo Messages Settings Pagmo Controller ControllerSpec.

Section Grants.
Context {PG : Pagmo} {R : Type} {LS : LibraryStore R}.
Context {AW : Archive (work_container algorithm population)}
        {AQ : Archive get_dll_request} {AD : Archive dll_binary_container}
        {AS : Archive (gmap string (work_stats * gmap string work_stats))}.

Abbreviation controller := (distributed_controller R).
Abbreviation container := (work_container algorithm population).
Abbreviation allocations := (gmap string work_allocation_record).

(** From allocations [m] and messages [o] to those of [c], with registry [g]. *)
Definition granted (m : allocations) (o : list sent) (g : R) (c : controller) : Prop :=
  c.(_registry) = g ∧ (
  (c.(_workAllocationMap) = m ∧ c.(_outbox) = o) ∨
  (∃ w r, m !! w = None ∧ c.(_workAllocationMap) = <[w := r]> m ∧
     c.(_outbox) = o ++ [ToWorker w ALLOCATE_WORK r.(workData)])).

(** No free worker has a job. *)
Definition free_idle (c : controller) : Prop :=
  ∀ w, w ∈ c.(_freeWorkersPool) → c.(_workAllocationMap) !! w = None.

(** [_settings()...] changes nothing but the settings. *)
Lemma repo_call_frame {A} (m : M worker_info_repository A) (c c' : controller) o :
  repo_call m c = (o, c') → ∃ s, c' = set_settings s c.
Proof. unfold repo_call, zoom. destruct (settings_call _ _) as [o' s]. intros [= _ <-]. by exists s. Qed.

Lemma allocate_grants now p i d (c c' : controller) :
  free_idle c → _allocate_worker_to_island now p i d c = (Ret tt, c') →
  granted c.(_workAllocationMap) c.(_outbox) c.(_registry) c'.
Proof.
  intros Hfree. unfold _allocate_worker_to_island. intros H.
  apply bind_ret_inv in H as (wc & c1 & Hwc & H). injection Hwc as _ <-.
  rewrite bind_run in H. cbn [get_state] in H. destruct (set_begin _ _) as [first|] eqn:Eb; [|done].
  set (w := if decide _ then _ else first) in H.
  assert (w ∈ c.(_freeWorkersPool)) as Hw.
  { subst w. case_decide; [done|]. by eapply set_begin_elem. }
  rewrite bind_run in H. cbn [modify] in H. rewrite bind_run in H. cbn [modify] in H.
  apply bind_ret_inv in H as (u & c2 & Hrepo & H). apply repo_call_frame in Hrepo as [s ->].
  injection H as <-. split; [done|]. right. exists w, {| islandId := i; workData := d |}. cbn.
  pose proof (Hfree w Hw) as Hn. split; [done|]. unfold emplace. by rewrite Hn.
Qed.

Lemma allocate_island_grants now p i d (c c' : controller) :
  free_idle c → _allocate_island_work now p i d c = (Ret tt, c') →
  granted c.(_workAllocationMap) c.(_outbox) c.(_registry) c'.
Proof.
  intros Hfree. unfold _allocate_island_work. rewrite bind_run. cbn [get_state]. case_decide as Hd.
  - intros [= <-]. by split; [|left].
  - by apply allocate_grants.
Qed.

Lemma add_free_worker_grants now p w (c c' : controller) :
  free_idle c → c.(_workAllocationMap) !! w = None → _add_free_worker now p w c = (Ret tt, c') →
  granted c.(_workAllocationMap) c.(_outbox) c.(_registry) c'.
Proof.
  intros Hfree Hw. unfold _add_free_worker. rewrite bind_run. cbn [modify]. rewrite bind_run.
  cbn [get_state]. case_decide as Hd; [intros [= <-]; by split; [|left]|]. intros H.
  apply bind_ret_inv in H as ([i d] & c1 & Hpop & H). unfold _pop_waiting_island in Hpop.
  rewrite bind_run in Hpop. cbn [get_state] in Hpop. destruct (map_begin _ _) as [[i0 d0]|]; [|done].
  rewrite bind_run in Hpop. cbn in Hpop. injection Hpop as -> -> <-.
  eapply allocate_grants in H; [exact H|]. intros w' Hw'. cbn in *.
  apply elem_of_union in Hw' as [->%elem_of_singleton|?]; [done|by apply Hfree].
Qed.

(** The allocations without the worker whose job ends with the event. *)
Definition released (e : event) (m : allocations) : allocations :=
  match e with
  | WorkersSocket _ _ (w, (WORKER_LEAVE | WORK_RESULTS), _) => delete w m
  | _ => m
  end.

(** The reply of a handler to its message. *)
Definition replies (e : event) (c : controller) (ms : list sent) : Prop :=
  match e with
  | WorkersSocket _ _ (w, WORK_RESULTS, b) =>
      ∃ r, c.(_workAllocationMap) !! w = Some r ∧ ms = [ToIsland r.(islandId) WORK_RESULTS b]
  | WorkersSocket _ _ (w, GET_DLL, _) =>
      ∃ dbc : dll_binary_container, ms = [ToWorker w DLL_BINARY (vector_serialize dbc)]
  | _ => ms = []
  end.

Lemma join_grants now p w b (c c' : controller) :
  free_idle c → c.(_workAllocationMap) !! w = None → handle_worker_join now p w c = (Ret tt, c') →
  granted (released (WorkersSocket now p (w, WORKER_JOIN, b)) c.(_workAllocationMap)) c.(_outbox) c.(_registry) c'.
Proof.
  intros Hfree Hw. unfold handle_worker_join. rewrite bind_run. cbn [get_state]. case_decide as Hd.
  - intros [= <-]. by split; [|left].
  - intros H. apply bind_ret_inv in H as (u & c1 & Hrepo & H). apply repo_call_frame in Hrepo as [s ->].
    by apply add_free_worker_grants in H.
Qed.

Lemma leave_grants now p w b (c c' : controller) :
  free_idle c → handle_worker_leave now p w c = (Ret tt, c') →
  granted (released (WorkersSocket now p (w, WORKER_LEAVE, b)) c.(_workAllocationMap)) c.(_outbox) c.(_registry) c'.
Proof.
  intros Hfree. unfold handle_worker_leave. rewrite bind_run. cbn [modify]. intros H.
  apply bind_ret_inv in H as (u & c1 & Hrepo & H). apply repo_call_frame in Hrepo as [s ->].
  rewrite bind_run in H. cbn [get_state] in H. cbn [_workAllocationMap set_settings set_free] in H.
  cbn [released]. destruct (_workAllocationMap c !! w) as [r|] eqn:Er.
  - rewrite bind_run in H. cbn [modify] in H. eapply allocate_island_grants in H; [exact H|].
    intros w' Hw'. cbn in *. rewrite lookup_delete. case_decide; [done|]. apply Hfree. set_solver.
  - injection H as <-. split; [done|]. left. cbn. by rewrite delete_id.
Qed.

Lemma results_grants now p w b (c c' : controller) :
  free_idle c → handle_work_results now p w b c = (Ret tt, c') →
  ∃ r, c.(_workAllocationMap) !! w = Some r ∧
    granted (released (WorkersSocket now p (w, WORK_RESULTS, b)) c.(_workAllocationMap))
      (c.(_outbox) ++ [ToIsland r.(islandId) WORK_RESULTS b]) c.(_registry) c'.
Proof.
  intros Hfree. unfold handle_work_results. intros H.
  apply bind_ret_inv in H as (wc & c1 & Hwc & H). injection Hwc as _ <-.
  apply bind_ret_inv in H as (u & c1 & Hrepo & H). apply repo_call_frame in Hrepo as [s ->].
  rewrite bind_run in H. cbn [get_state] in H. cbn [_workAllocationMap set_settings] in H.
  destruct (_workAllocationMap c !! w) as [r|] eqn:Er; [|done]. exists r. split; [done|].
  rewrite bind_run in H. cbn [modify] in H. rewrite bind_run in H. cbn [modify] in H.
  eapply add_free_worker_grants in H; [exact H| |cbn; apply lookup_delete_eq].
  intros w' Hw'. cbn in *. rewrite lookup_delete. case_decide; [done|]. by apply Hfree.
Qed.

(** The registry is only used to look libraries up. *)
Definition registry_after (e : event) (c : controller) (g : R) : Prop :=
  match e with
  | WorkersSocket _ _ (w, GET_DLL, _) => ∃ n f, lib_as_file n c.(_registry) = (Ret f, g)
  | _ => g = c.(_registry)
  end.

Lemma granted_same m o (c : controller) : c.(_workAllocationMap) = m → c.(_outbox) = o →
  granted m (o ++ []) c.(_registry) c.
Proof. intros <- <-. split; [done|left]. by rewrite app_nil_r. Qed.

(** What the handler of an event that follows the protocol sends. *)
Lemma handler_grants (c c' : controller) (e : event) :
  ctl_inv c → event_ok c e → handle_event e c = (Ret tt, c') →
  ∃ ms g, replies e c ms ∧ registry_after e c g ∧
    granted (released e c.(_workAllocationMap)) (c.(_outbox) ++ ms) g c'.
Proof.
  intros [Hinv _] Hok He. assert (free_idle c) as Hfree by (intros w; apply (inv_free_alloc _ Hinv)).
  destruct e as [now p [[w t] b]|now p [[i t] b]]; cbn [handle_event] in He.
  - destruct t; cbn [_handle_Workers_Socket_Msg event_ok] in *.
    1, 2, 3, 6, 7: exists [], c.(_registry); split; [done|]; split; [done|].
    3, 4, 5: injection He as <-; by apply granted_same.
    + rewrite app_nil_r. by eapply join_grants.
    + rewrite app_nil_r. by eapply leave_grants.
    + apply results_grants in He as (r & Hr & Hg); [|done]. eexists _, c.(_registry).
      split; [by exists r|]. split; [done|exact Hg].
    + destruct Hok as (q & f & r & Hq & Hl). unfold handle_get_dll in He. rewrite bind_run in He.
      unfold lift in He. rewrite Hq in He. rewrite bind_run in He. unfold registry_call, zoom in He.
      rewrite Hl in He. injection He as <-. eexists _, r. split; [by eexists|]. split; [by eexists _, f|].
      by split; [|left].
  - exists [], c.(_registry). split; [by destruct t|]. split; [done|].
    destruct t; cbn [_handle_Islands_Socket_Msg] in He; try (injection He as <-; by apply granted_same).
    rewrite app_nil_r. by eapply allocate_island_grants.
Qed.
End Grants.
