(* ===== verification/System.v ===== *)
(** * The whole system: islands, the controller and workers over their sockets

    The components of Controller, Worker and Island run as processes that
    exchange messages. A peer's connection to one of the controller's ROUTER
    sockets is a pair of queues: messages keep their order within a connection,
    and the controller takes the next message of any connection. A worker's
    connection begins with its hello message (WORKER_JOIN); when its process
    dies, what it sent last may be lost, what is sent to it is dropped, and the
    disconnect message (WORKER_LEAVE) comes after everything else. A worker
    with the same identity can connect again once that message was handled. A
    computation that throws or crashes ends its worker's process. An
    island is evolved again only after [run_evolve] returned (that its socket
    connects again to the same endpoint has no effect: libzmq ignores it).

    [sys_step] executes one step of one process, with the code of the
    component models. *)
From S2P Require Import Prelude WorkerInfo Messages Sockets Settings Pagmo DoubleOrder.
From S2P Require Import PopulationTools WorkerLogic Worker Controller Uuid Island.

Section System.
Context {PG : Pagmo} {PS : PagmoSort} {SS : StdSort} {PE : PagmoEvolve}.
Context {PI : PagmoIsland}.
Context {R : Type} {LS : LibraryStore R}.
Context {AW : Archive (work_container algorithm population)}
        {AQ : Archive get_dll_request} {AD : Archive dll_binary_container} {AI : Archive string}
        {AS : Archive (gmap string (work_stats * gmap string work_stats))}.
Context (hardware_concurrency random : Z) (int_to_string : Z → string).

Abbreviation container := (work_container algorithm population).

(** A worker process and its connection to the controller. *)
Record link := {
  proc : distributed_worker;
  alive : bool;
  hello : bool;          (* WORKER_JOIN is still to be handled *)
  up : list message;     (* to the controller, after the hello message *)
  down : list message    (* to the worker *)
}.

(** An island, its connection, and the history of its jobs. *)
Record island_link := {
  udi : distributed_island;
  host : island;
  submitted : list bytes;
  answered : list bytes;
  island_up : list bytes;       (* ALLOCATE_WORK messages *)
  island_down : list message
}.

Record system := {
  ctl : distributed_controller R;
  workers : gmap string link;
  islands : gmap string island_link
}.

Definition set_ctl (c : distributed_controller R) (s : system) : system :=
  {| ctl := c; workers := s.(workers); islands := s.(islands) |}.
Definition set_workers (ws : gmap string link) (s : system) : system :=
  {| ctl := s.(ctl); workers := ws; islands := s.(islands) |}.
Definition set_islands (ks : gmap string island_link) (s : system) : system :=
  {| ctl := s.(ctl); workers := s.(workers); islands := ks |}.

(** ** Delivery of what the controller sends *)

Definition link_deliver (m : message) (l : link) : link :=
  {| proc := l.(proc); alive := l.(alive); hello := l.(hello); up := l.(up);
     down := if l.(alive) then l.(down) ++ [m] else l.(down) |}.

Definition island_deliver (m : message) (k : island_link) : island_link :=
  {| udi := k.(udi); host := k.(host); submitted := k.(submitted); answered := k.(answered);
     island_up := k.(island_up); island_down := k.(island_down) ++ [m] |}.

(** A ROUTER drops what is addressed to no connection. *)
Definition deliver (m : sent) (s : system) : system :=
  match m with
  | ToWorker w type b => set_workers (alter (link_deliver (type, b)) w s.(workers)) s
  | ToIsland i type b => set_islands (alter (island_deliver (type, b)) i s.(islands)) s
  end.

Definition deliver_all (ms : list sent) (s : system) : system := foldl (λ s m, deliver m s) s ms.

(** The controller handles one event; then what it sent is delivered. *)
Definition serve (e : event) (s : system) : outcome unit * system :=
  let '(o, c') := handle_event e s.(ctl) in
  (o, deliver_all (drop (length s.(ctl).(_outbox)) c'.(_outbox)) (set_ctl c' s)).

(** ** Steps *)

Inductive label :=
  | WorkerJoins (w : string) (p : distributed_worker)  (* the process starts and connects *)
  | WorkerDies (w : string) (kept : nat)               (* [kept] of its messages had arrived *)
  | WorkerReads (w : string)                           (* its client thread, worker socket *)
  | WorkerSteps (w : string) (e : worker_event)        (* any other event of the worker *)
  | IslandStarts (u : distributed_island) (isl : island)
  | IslandSubmits (i : string)                         (* [run_evolve] sends its request *)
  | IslandReads (i : string)                           (* [run_evolve] receives *)
  | ServesWorker (now : Z) (p : picks) (w : string)
  | ServesIsland (now : Z) (p : picks) (i : string).

Definition new_link (p : distributed_worker) : link :=
  {| proc := p; alive := true; hello := true; up := []; down := [] |}.

Definition dead_link (kept : nat) (l : link) : link :=
  {| proc := l.(proc); alive := false; hello := l.(hello); up := take kept l.(up); down := [] |}.

(** A worker event of a live process: what it sends goes to the controller. A
    crash ends the process, and the system goes on without it (that its last
    messages are lost as well is [WorkerDies] instead). *)
Definition step_worker_process (w : string) (l : link) (e : worker_event) (s : system) :
    outcome unit * system :=
  match worker_exec hardware_concurrency random e l.(proc) with
  | (Crash f, _) => (Crash f, set_workers (<[w := dead_link (length l.(up)) l]> s.(workers)) s)
  | (o, p') =>
      (o, set_workers (<[w :=
            {| proc := p'; alive := true; hello := l.(hello);
               up := l.(up) ++ drop (length l.(proc).(to_controller)) p'.(to_controller);
               down := l.(down) |}]> s.(workers)) s)
  end.

Definition with_down (q : list message) (l : link) : link :=
  {| proc := l.(proc); alive := l.(alive); hello := l.(hello); up := l.(up); down := q |}.
Definition with_up (q : list message) (l : link) : link :=
  {| proc := l.(proc); alive := l.(alive); hello := l.(hello); up := q; down := l.(down) |}.
Definition joined (l : link) : link :=
  {| proc := l.(proc); alive := l.(alive); hello := false; up := l.(up); down := l.(down) |}.

(** The next message of a worker's connection, with the connection after it. *)
Definition next_of_worker (w : string) (l : link) :
    option ((string * MsgType * bytes) * option link) :=
  if l.(hello) then Some ((w, WORKER_JOIN, []), Some (joined l))
  else match l.(up) with
  | (type, b) :: q => Some ((w, type, b), Some (with_up q l))
  | [] => if l.(alive) then None else Some ((w, WORKER_LEAVE, []), None)
  end.

(** [run_evolve], up to its request. *)
Definition request (k : island_link) : outcome bytes :=
  match _load_pagmo_pop_and_algo k.(host) with
  | Ret (a, p) =>
      Ret (vector_serialize
        (mk_work_container a p k.(udi).(_preferredWorkerId) k.(udi).(_cycleCount)))
  | Throw e => Throw (rethrown (exn_what e))
  | Crash f => Crash f
  end.

Definition new_island (u : distributed_island) (i : island) : island_link :=
  {| udi := u; host := i; submitted := []; answered := []; island_up := []; island_down := [] |}.
Definition submits (d : bytes) (k : island_link) : island_link :=
  {| udi := k.(udi); host := k.(host); submitted := k.(submitted) ++ [d]; answered := k.(answered);
     island_up := k.(island_up) ++ [d]; island_down := k.(island_down) |}.
Definition with_island_up (q : list bytes) (k : island_link) : island_link :=
  {| udi := k.(udi); host := k.(host); submitted := k.(submitted); answered := k.(answered);
     island_up := q; island_down := k.(island_down) |}.

(** The island's thread when it receives. *)
Definition waiting_thread (m : message) (k : island_link) : island_thread :=
  {| isl := k.(host); routing_id := Some k.(udi).(_islandId); endpoints := []; sent_frames := [];
     arriving := dealer_socket_send m.1 m.2 |}.

(** [run_evolve], from the next message on. *)
Definition receive_results (m : message) (k : island_link) : outcome island_link :=
  match await_results int_to_string (waiting_thread m k) with
  | (Ret _, t) =>
      Ret {| udi := k.(udi); host := t.(isl); submitted := k.(submitted);
             answered := k.(answered) ++ [m.2]; island_up := k.(island_up);
             island_down := tail k.(island_down) |}
  | (Throw e, _) => Throw (rethrown (exn_what e))
  | (Crash f, _) => Crash f
  end.

(** [None]: the step is not possible. *)
Definition sys_step (a : label) (s : system) : option (outcome unit * system) :=
  match a with
  | WorkerJoins w p =>
      match s.(workers) !! w with
      | Some _ => None
      | None => Some (Ret tt, set_workers (<[w := new_link p]> s.(workers)) s)
      end
  | WorkerDies w kept =>
      l ← s.(workers) !! w;
      if l.(alive) then Some (Ret tt, set_workers (<[w := dead_link kept l]> s.(workers)) s)
      else None
  | WorkerReads w =>
      l ← s.(workers) !! w;
      match l.(alive), l.(down) with
      | true, m :: q => Some (step_worker_process w (with_down q l) (WorkerSocket m) s)
      | _, _ => None
      end
  | WorkerSteps w e =>
      l ← s.(workers) !! w;
      match l.(alive), e with
      | false, _ | _, WorkerSocket _ => None
      | true, _ => if enabled e l.(proc) then Some (step_worker_process w l e s) else None
      end
  | IslandStarts u isl =>
      match s.(islands) !! u.(_islandId) with
      | Some _ => None
      | None => Some (Ret tt, set_islands (<[u.(_islandId) := new_island u isl]> s.(islands)) s)
      end
  | IslandSubmits i =>
      k ← s.(islands) !! i;
      if decide (length k.(submitted) = length k.(answered)) then
        Some (match request k with
              | Ret d => (Ret tt, set_islands (<[i := submits d k]> s.(islands)) s)
              | Throw e => (Throw e, s)
              | Crash f => (Crash f, s)
              end)
      else None
  | IslandReads i =>
      k ← s.(islands) !! i;
      match k.(island_down) with
      | m :: _ =>
          Some (match receive_results m k with
                | Ret k' => (Ret tt, set_islands (<[i := k']> s.(islands)) s)
                | Throw e => (Throw e, s)
                | Crash f => (Crash f, s)
                end)
      | [] => None
      end
  | ServesWorker now p w =>
      l ← s.(workers) !! w;
      '(m, l') ← next_of_worker w l;
      Some (serve (WorkersSocket now p m)
        (set_workers (match l' with
                      | Some l' => <[w := l']> s.(workers)
                      | None => delete w s.(workers)
                      end) s))
  | ServesIsland now p i =>
      k ← s.(islands) !! i;
      match k.(island_up) with
      | d :: q =>
          Some (serve (IslandsSocket now p (i, ALLOCATE_WORK, d))
            (set_islands (<[i := with_island_up q k]> s.(islands)) s))
      | [] => None
      end
  end.

(** A run, all of whose steps return. *)
Fixpoint sys_exec (ls : list label) (s : system) : option system :=
  match ls with
  | [] => Some s
  | a :: ls =>
      match sys_step a s with
      | Some (Ret _, s') => sys_exec ls s'
      | _ => None
      end
  end.
End System.
