(* ===== verification/SystemSpec.v ===== *)
(** * The system's contract

    [links_ok] relates what the controller records about each worker to that
    worker's process and connection: a worker without an allocation has nothing
    unanswered, and a worker with one has exactly that job, as a message on its
    way, in its thread, or as a result on its way back. [islands_ok] relates the
    controller's pending jobs to the islands in the same way. Together with the
    controller's invariant they are preserved by every step of every process. *)
From S2P Require Import Prelude WorkerInfo Messages Sockets Settings Pagmo DoubleOrder.
From S2P Require Import PopulationTools WorkerLogic Worker Controller ControllerSpec Grants.
From S2P Require Import Uuid Island System.

(** The library store answers, and keeps answering. *)
Class LibraryStoreLaws (R : Type) {LS : LibraryStore R} := {
  store_ok : R → Prop;
  store_answers : ∀ n g, store_ok g → ∃ f g', lib_as_file n g = (Ret f, g');
  store_stays : ∀ n g f g', store_ok g → lib_as_file n g = (Ret f, g') → store_ok g'
}.

Section SystemSpec.
Context {PG : Pagmo} {PS : PagmoSort} {SS : StdSort} {PE : PagmoEvolve}.
Context {PI : PagmoIsland} {PIL : PagmoIslandLaws}.
Context {R : Type} {LS : LibraryStore R} {LL : LibraryStoreLaws R}.
Context {AW : Archive (work_container algorithm population)}
        {AQ : Archive get_dll_request} {AD : Archive dll_binary_container} {AI : Archive string}
        {AS : Archive (gmap string (work_stats * gmap string work_stats))}.
Context {AWL : ArchiveLaws (work_container algorithm population)}
        {AQL : ArchiveLaws get_dll_request} {ADL : ArchiveLaws dll_binary_container}.
Context (hardware_concurrency random : Z).
(** The configurations the system's workers have. *)
Context (config_ok : worker_mode → Z → Prop).

Abbreviation container := (work_container algorithm population).
Abbreviation allocations := (gmap string work_allocation_record).
Abbreviation exec := (worker_exec hardware_concurrency random).
Abbreviation body := (worker_thread_body hardware_concurrency random).

(** A result some worker of the system may compute from a job. *)
Definition answers_job (d r : bytes) : Prop := ∃ mode size, config_ok mode size ∧ body mode size d = Ret r.

(** ** What a worker sends *)

Definition up_ok (m : message) : Prop :=
  match m with
  | (WORK_RESULTS, _) => True
  | (GET_DLL, b) => ∃ q, vector_deserialize (A := get_dll_request) b = Ret q
  | _ => False
  end.

Ltac quiet := match goal with Hq : ∀ w1, _ |- _ => eapply Hq; [| |reflexivity]; try done end.

Lemma exec_sends e w w' :
  exec e w = (Ret tt, w') → Forall up_ok w.(thread_inbox) →
  ∃ new, w'.(to_controller) = w.(to_controller) ++ new ∧ Forall up_ok new ∧
    Forall up_ok w'.(thread_inbox) ∧ results w' = results w ++ omap is_results new.
Proof.
  intros He Hin.
  assert (∀ w1, w1.(to_controller) = w.(to_controller) → Forall up_ok w1.(thread_inbox) → w' = w1 →
    ∃ new, w'.(to_controller) = w.(to_controller) ++ new ∧ Forall up_ok new ∧
      Forall up_ok w'.(thread_inbox) ∧ results w' = results w ++ omap is_results new) as Hquiet.
  { intros w1 Hw1 Hi ->. exists []. rewrite app_nil_r. split_and!; [done|constructor|done|].
    unfold results. by rewrite Hw1, app_nil_r. }
  unfold worker_exec in He. rewrite bind_run in He. cbn [get_state] in He. destruct e as [[t b]| |n| |].
  - cbn beta iota in He.
    destruct t; cbn [_handle_Worker_Socket_Msg] in He; try (injection He as <-; by apply (Hquiet w)).
    + unfold _start_worker_thread in He. rewrite bind_run in He. cbn [get_state] in He. case_decide; [|done].
      injection He as <-. quiet.
    + injection He as <-. quiet; by destruct (_workerThread w).
  - destruct (thread_inbox w) as [|[t b] q] eqn:Eq; [injection He as <-; quiet; by rewrite Eq|].
    inversion_clear Hin as [|? ? Hm Hq]. rewrite bind_run in He. cbn [modify] in He.
    destruct t; cbn in Hm; try done; cbn [_handle_Thread_Socket_Msg] in He.
    + rewrite bind_run in He. unfold join_worker_thread in He. rewrite bind_run in He. cbn [get_state] in He.
      cbn [_workerThread set_thread_inbox] in He.
      destruct (_workerThread w); try done; injection He as <-;
        exists [(WORK_RESULTS, b)]; rewrite results_send; split_and!; try done; by repeat constructor.
    + injection He as <-. exists [(GET_DLL, b)]. rewrite results_send. split_and!; try done. by repeat constructor.
  - destruct (_workerThread w); cbn in He; injection He as <-; quiet.
    cbn. apply Forall_app. split; [done|]. constructor; [|constructor].
    eexists. apply deserialize_serialize.
  - destruct (_workerThread w); try (injection He as <-; quiet).
    destruct (await_dll _ _) as [[[f|e|c] q]|]; try done; injection He as <-; quiet.
  - destruct (_workerThread w); try (injection He as <-; quiet).
    destruct (worker_thread_body _ _ _ _ _) as [r|e|c]; try done. injection He as <-. quiet.
    cbn. apply Forall_app. split; [done|]. by repeat constructor.
Qed.

(** A job's results are a container. *)
Lemma answer_container d r : answers_job d r → is_container r.
Proof.
  intros (mode & size & _ & Hb). unfold worker_thread_body in Hb.
  destruct (vector_deserialize d) as [wc|e|f]; [|done..]. cbn in Hb.
  destruct mode; cbn in Hb; destruct (_ : outcome container) as [res|e|f]; try done; injection Hb as <-;
    exists res; apply deserialize_serialize.
Qed.
(** ** Workers *)

Definition allocs (q : list message) : list bytes :=
  omap (λ m, match m with (ALLOCATE_WORK, d) => Some d | _ => None end) q.

Definition down_ok (m : message) : Prop :=
  match m with
  | (ALLOCATE_WORK, _) => True
  | (DLL_BINARY, b) => ∃ dbc, vector_deserialize (A := dll_binary_container) b = Ret dbc
  | _ => False
  end.

(** [js]: the jobs given to the worker since it connected; [rs]: the results its
    process has sent; [n]: how many of them the controller has handled. *)
Record worker_ok (m : allocations) (w : string) (l : link) (js : list bytes) (n : nat) (rs : list bytes) :
    Prop := {
  wk_jobs : match m !! w with
    | Some r => ∃ js0, js = js0 ++ [r.(workData)] ∧ length js0 = n
    | None => length js = n
    end;
  wk_handled : (n ≤ length rs)%nat;
  wk_answers : Forall2 answers_job (take (length rs) js) rs;
  wk_containers : Forall is_container js;
  wk_config : config_ok l.(proc).(_workerMode) l.(proc).(_minIslandPopSize);
  wk_up_ok : Forall up_ok l.(up);
  wk_up : omap is_results l.(up) `prefix_of` drop n rs;
  wk_hello : l.(hello) = true → m !! w = None;
  wk_alive : l.(alive) = true →
    rs = results l.(proc) ∧ omap is_results l.(up) = drop n rs ∧
    Forall down_ok l.(down) ∧ Forall up_ok l.(proc).(thread_inbox) ∧
    ∃ given, worker_inv hardware_concurrency random given l.(proc) ∧ js = given ++ allocs l.(down)
}.

Definition links_ok (m : allocations) (ws : gmap string link) : Prop :=
  ∀ w l, ws !! w = Some l → ∃ js n rs, worker_ok m w l js n rs.

Lemma jobs_bound m w l js n rs : worker_ok m w l js n rs → (length js ≤ S n)%nat.
Proof.
  intros [Hj _ _ _ _ _ _ _ _]. destruct (m !! w); [|lia]. destruct Hj as (js0 & -> & <-).
  rewrite length_app. cbn. lia.
Qed.

(** A job that arrives finds the worker thread at rest. *)
Lemma alloc_finds_rest m w l js n rs d q :
  worker_ok m w l js n rs → l.(alive) = true → l.(down) = (ALLOCATE_WORK, d) :: q →
  l.(proc).(_workerThread) = NotJoinable.
Proof.
  intros Hok Ha Hd. pose proof (jobs_bound _ _ _ _ _ _ Hok) as Hb.
  destruct Hok as [_ Hn _ _ _ _ _ _ Hal].
  destruct (Hal Ha) as (-> & _ & _ & _ & given & Hinv & ->). rewrite Hd in *. cbn [allocs omap] in *.
  destruct Hinv as [(dn & Hdn & Hf) _ Hp _]. apply Forall2_length in Hf.
  unfold answers in Hf. rewrite length_app in Hf. rewrite Hdn, !length_app in Hb.
  change (allocs ((ALLOCATE_WORK, d) :: q)) with (d :: allocs q) in Hb. cbn [length] in Hb.
  destruct (_workerThread l.(proc)) as [|d'|x d'|d'] eqn:Et; [done|..];
    unfold unanswered in Hb; rewrite Et in Hb; cbn [length] in Hb; try lia.
  destruct Hp as (q' & r & Hq & _). rewrite Hq, omap_results_app, length_app in Hf. cbn in Hf. lia.
Qed.

(** A job under way is the one the controller has recorded for the worker. *)
Lemma computing_job m w l js n rs d :
  worker_ok m w l js n rs → l.(alive) = true → unanswered l.(proc) = [d] →
  ∃ r, m !! w = Some r ∧ r.(workData) = d.
Proof.
  intros Hok Ha Hu. pose proof (jobs_bound _ _ _ _ _ _ Hok) as Hb.
  destruct Hok as [Hj Hn _ _ _ _ _ _ Hal].
  destruct (Hal Ha) as (-> & _ & _ & _ & given & [(dn & Hdn & Hf) _ _ _] & ->). rewrite Hu in Hdn. subst given.
  apply Forall2_length in Hf. unfold answers in Hf. rewrite length_app in Hf. rewrite !length_app in Hb. cbn in Hb.
  assert (allocs l.(down) = []) as Hd by (apply nil_length_inv; lia). rewrite Hd, app_nil_r in Hj.
  destruct (m !! w) as [r|]; [|rewrite length_app in Hj; cbn in Hj; lia].
  destruct Hj as (js0 & Hj & _). apply app_inj_tail in Hj as [_ Hj]. exists r. by split.
Qed.

(** A step of a worker process, from the connection [l] whose process is about
    to execute [e]; [before] is the connection before [e]'s message was taken. *)
Lemma worker_event_step m w l js n rs e given :
  worker_ok m w l js n rs → l.(alive) = true →
  event_possible e l.(proc) → (e = ThreadEnds → computes hardware_concurrency random l.(proc)) →
  worker_inv hardware_concurrency random given l.(proc) →
  ∃ p' new, exec e l.(proc) = (Ret tt, p') ∧ p'.(to_controller) = l.(proc).(to_controller) ++ new ∧
    worker_inv hardware_concurrency random (given ++ jobs_of_event e) p' ∧
    results p' = rs ++ omap is_results new ∧ Forall up_ok new ∧ Forall up_ok p'.(thread_inbox) ∧
    config_ok p'.(_workerMode) p'.(_minIslandPopSize).
Proof.
  intros [_ _ _ _ Hcf _ _ _ Hal] Ha He Hcp Hinv. destruct (Hal Ha) as (-> & _ & _ & Hin & _).
  destruct (worker_step _ _ given e _ Hinv He Hcp) as (p' & Hex & Hinv' & Hm & Hs & _).
  destruct (exec_sends _ _ _ Hex Hin) as (new & Htc & Hnew & Hin' & Hres).
  exists p', new. split_and!; try done. by rewrite Hm, Hs.
Qed.

(** The results of a process answer its jobs. *)
Lemma results_answer given p js :
  worker_inv hardware_concurrency random given p → config_ok p.(_workerMode) p.(_minIslandPopSize) →
  given `prefix_of` js → Forall2 answers_job (take (length (results p)) js) (results p).
Proof.
  intros [(dn & -> & Hf) _ _ _] Hcf [rest ->]. unfold answers in Hf.
  apply Forall2_app_inv_r in Hf as (d1 & d2 & Hf1 & _ & ->). pose proof Hf1 as Hl. apply Forall2_length in Hl.
  rewrite <- !app_assoc, take_app_length' by done.
  revert Hf1. apply Forall2_impl. intros d r Hr. by eexists _, _.
Qed.

Definition after_event (l : link) (p' : distributed_worker) (q : list message) : link :=
  {| proc := p'; alive := true; hello := l.(hello);
     up := l.(up) ++ drop (length l.(proc).(to_controller)) p'.(to_controller); down := q |}.

Lemma worker_event_link m w l js n rs e q :
  worker_ok m w l js n rs → l.(alive) = true →
  event_possible e l.(proc) → (e = ThreadEnds → computes hardware_concurrency random l.(proc)) →
  Forall down_ok q → allocs l.(down) = jobs_of_event e ++ allocs q →
  ∃ p', exec e l.(proc) = (Ret tt, p') ∧ worker_ok m w (after_event l p' q) js n (results p').
Proof.
  intros Hok Ha He Hcp Hq Hallocs. pose proof Hok as [Hj Hn Hans Hc Hcf Hup Hpre Hh Hal].
  destruct (Hal Ha) as (Hrs & Hdrop & Hdn & Hin & given & Hinv & Hjs).
  destruct (worker_event_step m w l js n rs e given Hok Ha He Hcp Hinv)
    as (p' & new & Hex & Htc & Hinv' & Hres & Hnew & Hin' & Hcf').
  exists p'. split; [done|]. rewrite Hallocs in Hjs.
  assert (drop n (results p') = omap is_results l.(up) ++ omap is_results new) as Hdrop'.
  { rewrite Hres, drop_app_le by done. by rewrite Hdrop. }
  split; cbn [after_event proc alive hello up down]; rewrite ?Htc, ?drop_app_length, ?omap_app.
  - done.
  - rewrite Hres, length_app. lia.
  - eapply results_answer; [done|done|]. rewrite Hjs, app_assoc. by apply prefix_app_r.
  - done.
  - done.
  - by apply Forall_app.
  - by rewrite Hdrop'.
  - done.
  - intros _. split_and!; [done|by rewrite Hdrop'|done|done|]. eexists. split; [done|].
    by rewrite Hjs, app_assoc.
Qed.
(** ** Connections, as the controller's records change *)

Lemma worker_ok_ext m m' w l js n rs : m !! w = m' !! w → worker_ok m w l js n rs → worker_ok m' w l js n rs.
Proof. intros E []. split; try done; by rewrite <- E. Qed.

(** Only worker [w]'s connection and record change. *)
Lemma links_change m m' ws ws' w :
  links_ok m ws → (∀ w', w' ≠ w → m !! w' = m' !! w') → (∀ w', w' ≠ w → ws' !! w' = ws !! w') →
  (∀ l, ws' !! w = Some l → ∃ js n rs, worker_ok m' w l js n rs) → links_ok m' ws'.
Proof.
  intros Hl Hm Hws Hw w' l Hl'. destruct (decide (w' = w)) as [->|Hne]; [by apply Hw|].
  rewrite Hws in Hl' by done. destruct (Hl w' l Hl') as (js & n & rs & Hok). exists js, n, rs.
  eapply worker_ok_ext; [by apply Hm|done].
Qed.

(** A job given to a worker that has none. *)
Lemma links_grant m ws w r :
  links_ok m ws → m !! w = None → (∀ l, ws !! w = Some l → l.(hello) = false) → is_container r.(workData) →
  links_ok (<[w := r]> m) (alter (link_deliver (ALLOCATE_WORK, r.(workData))) w ws).
Proof.
  intros Hl Hm Hh Hc. eapply (links_change m _ ws _ w); [done|..].
  - intros w' Hne. by rewrite lookup_insert_ne.
  - intros w' Hne. by rewrite lookup_alter_ne.
  - intros l' Hl'. rewrite lookup_alter_eq in Hl'. destruct (ws !! w) as [l|] eqn:E; [|done].
    injection Hl' as <-. destruct (Hl w l E) as (js & n & rs & [Hj Hn Ha Hcm Hcf Hu Hp _ Hal]).
    rewrite Hm in Hj. exists (js ++ [r.(workData)]), n, rs. specialize (Hh l eq_refl).
    split; cbn [link_deliver proc alive hello up down]; try done.
    + rewrite lookup_insert_eq. by exists js.
    + pose proof Ha as Hlen. apply Forall2_length in Hlen. rewrite length_take in Hlen.
      rewrite take_app_le by lia. done.
    + apply Forall_app. split; [done|]. by repeat constructor.
    + by rewrite Hh.
    + intros Halive. rewrite Halive. destruct (Hal Halive) as (? & ? & Hd & ? & given & Hinv & ->).
      split_and!; [done|done| |done|].
      * apply Forall_app. split; [done|]. by repeat constructor.
      * exists given. split; [done|]. unfold allocs. rewrite omap_app. cbn. by rewrite app_assoc.
Qed.

(** A library file sent to a worker. *)
Lemma links_reply m ws w (dbc : dll_binary_container) :
  links_ok m ws → links_ok m (alter (link_deliver (DLL_BINARY, vector_serialize dbc)) w ws).
Proof.
  intros Hl. eapply (links_change m _ ws _ w); [done|done|..].
  - intros w' Hne. by rewrite lookup_alter_ne.
  - intros l' Hl'. rewrite lookup_alter_eq in Hl'. destruct (ws !! w) as [l|] eqn:E; [|done].
    injection Hl' as <-. destruct (Hl w l E) as (js & n & rs & [Hj Hn Ha Hcm Hcf Hu Hp Hh Hal]).
    exists js, n, rs. split; cbn [link_deliver proc alive hello up down]; try done.
    intros Halive. rewrite Halive. destruct (Hal Halive) as (? & ? & Hd & ? & given & Hinv & ->).
    split_and!; [done|done| |done|].
    + apply Forall_app. split; [done|]. constructor; [|constructor]. eexists. apply deserialize_serialize.
    + exists given. split; [done|]. unfold allocs. rewrite omap_app. cbn. by rewrite app_nil_r.
Qed.

Lemma links_leave m ws w : links_ok m ws → links_ok (delete w m) (delete w ws).
Proof.
  intros Hl. eapply (links_change m _ ws _ w); [done|..].
  - intros w' Hne. by rewrite lookup_delete_ne.
  - intros w' Hne. by rewrite lookup_delete_ne.
  - intros l. by rewrite lookup_delete_eq.
Qed.

(** Replacing one connection. *)
Lemma links_insert m ws w l :
  links_ok m ws → (∃ js n rs, worker_ok m w l js n rs) → links_ok m (<[w := l]> ws).
Proof.
  intros Hl Hw. eapply (links_change m _ ws _ w); [done|done|..].
  - intros w' Hne. by rewrite lookup_insert_ne.
  - intros l'. rewrite lookup_insert_eq. by intros [= <-].
Qed.

Lemma links_hello m ws w l : links_ok m ws → ws !! w = Some l → links_ok m (<[w := joined l]> ws).
Proof.
  intros Hl Hw. apply links_insert; [done|]. destruct (Hl w l Hw) as (js & n & rs & []).
  exists js, n, rs. by split.
Qed.

(** A request taken from a connection. *)
Lemma links_take m ws w l t b q :
  links_ok m ws → ws !! w = Some l → l.(up) = (t, b) :: q → t ≠ WORK_RESULTS →
  links_ok m (<[w := with_up q l]> ws).
Proof.
  intros Hl Hw Hq Ht. apply links_insert; [done|].
  destruct (Hl w l Hw) as (js & n & rs & [Hj Hn Ha Hcm Hcf Hu Hp Hh Hal]). rewrite Hq in Hu, Hp, Hal.
  inversion_clear Hu as [|? ? _ Hu']. cbn [omap list_omap is_results] in Hp, Hal.
  exists js, n, rs. split; cbn [with_up proc alive hello up down]; try done; by destruct t.
Qed.

(** A result taken from a connection: it answers the recorded job. *)
Lemma links_result m ws w l r q :
  links_ok m ws → ws !! w = Some l → l.(up) = (WORK_RESULTS, r) :: q →
  ∃ rec, m !! w = Some rec ∧ answers_job rec.(workData) r ∧
    links_ok (delete w m) (<[w := with_up q l]> ws).
Proof.
  intros Hl Hw Hq. destruct (Hl w l Hw) as (js & n & rs & [Hj Hn Ha Hcm Hcf Hu Hp Hh Hal]).
  rewrite Hq in Hu, Hp, Hal. cbn [omap list_omap is_results] in Hp, Hal. destruct Hp as [rest Hrest].
  assert (rs !! n = Some r) as Hrn.
  { rewrite <- (Nat.add_0_r n), <- lookup_drop. by rewrite Hrest. }
  assert (drop (S n) rs = omap is_results q ++ rest) as Hdrop.
  { rewrite <- Nat.add_1_r, <- drop_drop, Hrest. done. }
  pose proof (lookup_lt_Some _ _ _ Hrn) as Hlt.
  pose proof Ha as Hlen. apply Forall2_length in Hlen. rewrite length_take in Hlen.
  destruct (m !! w) as [rec|] eqn:Hm; [|lia]. destruct Hj as (js0 & -> & Hl0).
  exists rec. split; [done|]. split.
  - destruct (Forall2_lookup_r _ _ _ _ _ Ha Hrn) as (d & Hd & Hdr).
    rewrite lookup_take_lt in Hd by done. rewrite lookup_app_r in Hd by lia.
    rewrite Hl0, Nat.sub_diag in Hd. by injection Hd as <-.
  - eapply (links_change m _ ws _ w); [done|..].
    + intros w' Hne. by rewrite lookup_delete_ne.
    + intros w' Hne. by rewrite lookup_insert_ne.
    + intros l'. rewrite lookup_insert_eq. intros [= <-]. exists (js0 ++ [rec.(workData)]), (S n), rs.
      inversion_clear Hu as [|? ? _ Hu'].
      split; cbn [with_up proc alive hello up down]; try done.
      * rewrite lookup_delete_eq, length_app, Hl0. cbn. lia.
      * rewrite Hdrop. by apply prefix_app_r.
      * by rewrite lookup_delete_eq.
      * intros Halive. destruct (Hal Halive) as (? & Hd & ? & ? & ?). split_and!; try done.
        rewrite Hrest in Hd. rewrite Hdrop. by injection Hd.
Qed.
(** ** Islands *)

(** Where the job of a waiting island is: on its way, with the controller, or
    answered. *)
Definition in_flight (pend : bytes → Prop) (k : island_link) (d : bytes) : Prop :=
  (k.(island_up) = [d] ∧ k.(island_down) = [] ∧ ∀ d', ¬ pend d') ∨
  (k.(island_up) = [] ∧ k.(island_down) = [] ∧ ∀ d', pend d' ↔ d' = d) ∨
  (k.(island_up) = [] ∧ (∃ r, k.(island_down) = [(WORK_RESULTS, r)] ∧ answers_job d r) ∧ ∀ d', ¬ pend d').

(** The island holds what its last answer contained. *)
Definition holds_answer (k : island_link) : Prop :=
  match list.last k.(answered) with
  | Some b => ∃ wc : container, vector_deserialize b = Ret wc ∧
      get_population k.(host) = wc.(pop) ∧ get_algorithm k.(host) = wc.(algo)
  | None => True
  end.

Record island_ok (pend : bytes → Prop) (k : island_link) : Prop := {
  ik_answers : Forall2 answers_job (take (length k.(answered)) k.(submitted)) k.(answered);
  ik_holds : holds_answer k;
  ik_flow :
    (length k.(submitted) = length k.(answered) ∧ k.(island_up) = [] ∧ k.(island_down) = [] ∧
     ∀ d, ¬ pend d) ∨
    (∃ d, k.(submitted) = take (length k.(answered)) k.(submitted) ++ [d] ∧
      length k.(submitted) = S (length k.(answered)) ∧ is_container d ∧ in_flight pend k d)
}.

Definition islands_ok (pend : string → bytes → Prop) (ks : gmap string island_link) : Prop :=
  (∀ i k, ks !! i = Some k → island_ok (pend i) k) ∧ (∀ i d, pend i d → is_Some (ks !! i)).

Lemma island_ok_ext (pend pend' : bytes → Prop) k :
  (∀ d, pend' d ↔ pend d) → island_ok pend k → island_ok pend' k.
Proof.
  intros He [Ha Hh Hf]. split; [done|done|]. unfold in_flight in *. setoid_rewrite He. exact Hf.
Qed.

(** Only island [i]'s connection and job change. *)
Lemma islands_change (pend pend' : string → bytes → Prop) ks ks' i :
  islands_ok pend ks → (∀ j d, j ≠ i → pend' j d ↔ pend j d) → (∀ j, j ≠ i → ks' !! j = ks !! j) →
  is_Some (ks' !! i) → (∀ k, ks' !! i = Some k → island_ok (pend' i) k) → islands_ok pend' ks'.
Proof.
  intros [Hk Hp] He Hks Hs Hi. split.
  - intros j k Hj. destruct (decide (j = i)) as [->|Hne]; [by apply Hi|].
    rewrite Hks in Hj by done. apply (island_ok_ext (pend j)); [|by apply Hk]. intros d. by apply He.
  - intros j d Hd. destruct (decide (j = i)) as [->|Hne]; [done|]. rewrite Hks by done.
    apply (Hp j d). by apply He.
Qed.

Lemma islands_same (pend pend' : string → bytes → Prop) ks :
  (∀ j d, pend' j d ↔ pend j d) → islands_ok pend ks → islands_ok pend' ks.
Proof.
  intros He [Hk Hp]. split.
  - intros j k Hj. apply (island_ok_ext (pend j)); [by apply He|by apply Hk].
  - intros j d Hd. by apply (Hp j d), He.
Qed.

(** The island of a pending job waits for it. *)
Lemma pending_island (pend : string → bytes → Prop) ks i d :
  islands_ok pend ks → pend i d → ∃ k, ks !! i = Some k ∧ is_container d ∧
    k.(island_up) = [] ∧ k.(island_down) = [] ∧ ∀ d', pend i d' ↔ d' = d.
Proof.
  intros [Hk Hp] Hd. destruct (Hp i d Hd) as [k Hi]. exists k. split; [done|].
  destruct (Hk i k Hi) as [_ _ [(_ & _ & _ & Hn)|(d0 & _ & _ & Hct & Hf)]]; [by destruct (Hn d)|].
  destruct Hf as [(_ & _ & Hn)|[(Hu & Hdn & He)|(_ & _ & Hn)]]; [by destruct (Hn d)| |by destruct (Hn d)].
  assert (d = d0) as -> by by apply He. by split_and!.
Qed.

(** A result delivered to its island. *)
Lemma islands_result (pend pend' : string → bytes → Prop) ks i d r :
  islands_ok pend ks → pend i d → answers_job d r →
  (∀ j d', pend' j d' ↔ pend j d' ∧ j ≠ i) →
  islands_ok pend' (alter (island_deliver (WORK_RESULTS, r)) i ks).
Proof.
  intros Hks Hd Hr He. destruct (pending_island _ _ _ _ Hks Hd) as (k & Hi & Hct & Hu & Hdn & Hp).
  eapply (islands_change pend _ ks _ i); [done|..].
  - intros j d' Hne. rewrite He. naive_solver.
  - intros j Hne. by rewrite lookup_alter_ne.
  - rewrite lookup_alter_eq, Hi. by eexists.
  - intros k' Hk'. rewrite lookup_alter_eq, Hi in Hk'. injection Hk' as <-.
    destruct Hks as [Hks _]. destruct (Hks i k Hi) as [Ha Hh [(_ & _ & _ & Hn)|Hf]]; [by destruct (Hn d)|].
    split; [exact Ha|exact Hh|]. right. destruct Hf as (d0 & Hs & Hl & Hct0 & Hf).
    assert (d0 = d) as ->.
    { destruct Hf as [(_ & _ & Hn)|[(_ & _ & He0)|(_ & _ & Hn)]]; [by destruct (Hn d)| |by destruct (Hn d)].
      symmetry. by apply He0. }
    exists d. split_and!; try done. right; right. cbn. rewrite Hdn. split_and!; [done|by exists r|].
    intros d'. rewrite He. by intros [_ ?].
Qed.

(** A submission taken from its island's connection. *)
Lemma islands_submission (pend pend' : string → bytes → Prop) ks i k d q :
  islands_ok pend ks → ks !! i = Some k → k.(island_up) = d :: q →
  (∀ j d', pend' j d' ↔ pend j d' ∨ (j = i ∧ d' = d)) →
  is_container d ∧ (∀ d', ¬ pend i d') ∧ islands_ok pend' (<[i := with_island_up q k]> ks).
Proof.
  intros Hks Hi Hu He. destruct Hks as [Hk Hp].
  destruct (Hk i k Hi) as [Ha Hh [(_ & Hu' & _)|(d0 & Hs & Hl & Hct & Hf)]]; [congruence|].
  destruct Hf as [(Hu' & Hdn & Hn)|[(Hu' & _)|(Hu' & _)]]; [|congruence..].
  rewrite Hu in Hu'. injection Hu' as -> ->. split; [done|]. split; [done|].
  eapply (islands_change pend _ ks _ i); [done|..].
  - intros j d' Hne. rewrite He. naive_solver.
  - intros j Hne. by rewrite lookup_insert_ne.
  - rewrite lookup_insert_eq. by eexists.
  - intros k'. rewrite lookup_insert_eq. intros [= <-]. split; [exact Ha|exact Hh|]. right.
    exists d0. split_and!; try done. right; left. cbn. split_and!; [done|done|].
    intros d'. rewrite He. naive_solver.
Qed.
End SystemSpec.
