(* ===== verification/SystemTheorems.v ===== *)
(** * The system: every step preserves the contract

    [sys_ok] is the invariant of the whole system. In every run every island is
    answered, in order, with results of its own jobs, and no process throws or
    crashes but a worker whose computation does and an island whose algorithm
    or problem cannot be sent. *)
From S2P Require Import Prelude WorkerInfo Messages Sockets Settings Pagmo DoubleOrder.
From S2P Require Import PopulationTools WorkerLogic Worker Controller ControllerSpec Grants.
From S2P Require Import Uuid Island System SystemSpec.

Section SystemTheorems.
Context {PG : Pagmo} {PS : PagmoSort} {SS : StdSort} {PE : PagmoEvolve}.
Context {PI : PagmoIsland} {PIL : PagmoIslandLaws}.
Context {R : Type} {LS : LibraryStore R} {LL : LibraryStoreLaws R}.
Context {AW : Archive (work_container algorithm population)}
        {AQ : Archive get_dll_request} {AD : Archive dll_binary_container} {AI : Archive string}
        {AS : Archive (gmap string (work_stats * gmap string work_stats))}.
Context {AWL : ArchiveLaws (work_container algorithm population)}
        {AQL : ArchiveLaws get_dll_request} {ADL : ArchiveLaws dll_binary_container}.
Context (hardware_concurrency random : Z) (int_to_string : Z → string).
Context (config_ok : worker_mode → Z → Prop).

Abbreviation container := (work_container algorithm population).
Abbreviation answers_job := (answers_job hardware_concurrency random config_ok).
Abbreviation worker_ok := (worker_ok hardware_concurrency random config_ok).
Abbreviation links_ok := (links_ok hardware_concurrency random config_ok).
Abbreviation island_ok := (island_ok hardware_concurrency random config_ok).
Abbreviation islands_ok := (islands_ok hardware_concurrency random config_ok).
Abbreviation sys_step := (sys_step (R := R) hardware_concurrency random int_to_string).
Abbreviation sys_exec := (sys_exec (R := R) hardware_concurrency random int_to_string).
Abbreviation sys := (system (R := R)).

(** The connected workers, as the controller records them, are those whose
    hello message was handled. *)
Definition connections_ok (cs : gset string) (ws : gmap string link) : Prop :=
  ∀ w, w ∈ cs ↔ ∃ l, ws !! w = Some l ∧ l.(hello) = false.

Record sys_ok (s : sys) : Prop := {
  so_ctl : ctl_inv s.(ctl);
  so_store : store_ok s.(ctl).(_registry);
  so_links : links_ok s.(ctl).(_workAllocationMap) s.(workers);
  so_connected : connections_ok (worker_repo s.(ctl)).(_connectedWorkers) s.(workers);
  so_islands : islands_ok (pending s.(ctl)) s.(islands)
}.

Lemma connected_alter cs ws w m : connections_ok cs ws → connections_ok cs (alter (link_deliver m) w ws).
Proof.
  intros Hc w'. unfold connections_ok in Hc. rewrite Hc. destruct (decide (w' = w)) as [->|Hne].
  - rewrite lookup_alter_eq. destruct (ws !! w) as [l|]; cbn; naive_solver.
  - by rewrite lookup_alter_ne.
Qed.

(** ** The controller *)

(** Handling one event: the reply is delivered, then at most one job is. *)
Lemma serve_run (e : event) (s : sys) :
  ctl_inv s.(ctl) → event_ok s.(ctl) e →
  ∃ c' ms g, ctl_inv c' ∧ (∀ i d, pending c' i d ↔ jobs_after s.(ctl) e i d) ∧
    (worker_repo c').(_connectedWorkers) = connected_after s.(ctl) e ∧
    replies e s.(ctl) ms ∧ registry_after e s.(ctl) g ∧ c'.(_registry) = g ∧
    let m := released e s.(ctl).(_workAllocationMap) in
    let s1 := deliver_all ms (set_ctl c' s) in
    ((c'.(_workAllocationMap) = m ∧ serve e s = (Ret tt, s1)) ∨
     (∃ w r, m !! w = None ∧ c'.(_workAllocationMap) = <[w := r]> m ∧
        serve e s = (Ret tt, deliver (ToWorker w ALLOCATE_WORK r.(workData)) s1))).
Proof.
  intros Hinv Hok. destruct (handler_step _ _ Hinv Hok) as (c' & He & Hinv' & Hp & _ & Hcn).
  destruct (handler_grants _ _ _ Hinv Hok He) as (ms & g & Hm & Hg & Hreg & Hgr).
  exists c', ms, g. do 6 (split; [done|]). cbn zeta. unfold serve. rewrite He.
  destruct Hgr as [[Ha Ho]|(w & r & Hn & Ha & Ho)].
  - left. split; [done|]. by rewrite Ho, drop_app_length.
  - right. exists w, r. split; [done|]. split; [done|]. rewrite Ho, <- app_assoc, drop_app_length.
    unfold deliver_all. by rewrite foldl_app.
Qed.

(** The invariant after an event, from that of the parts before the job given
    in answer to it is delivered. *)
Lemma serve_ok (e : event) (s : sys) :
  ctl_inv s.(ctl) → event_ok s.(ctl) e → store_ok s.(ctl).(_registry) →
  (∀ c' ms, replies e s.(ctl) ms → (∀ i d, pending c' i d ↔ jobs_after s.(ctl) e i d) →
    let s1 := deliver_all ms (set_ctl c' s) in
    links_ok (released e s.(ctl).(_workAllocationMap)) s1.(workers) ∧
    connections_ok (connected_after s.(ctl) e) s1.(workers) ∧
    islands_ok (pending c') s1.(islands) ∧ s1.(ctl) = c') →
  ∃ s', serve e s = (Ret tt, s') ∧ sys_ok s'.
Proof.
  intros Hinv Hok Hst Hparts.
  destruct (serve_run e s Hinv Hok) as (c' & ms & g & Hinv' & Hp & Hcn & Hm & Hg & Hreg & Hs).
  destruct (Hparts c' ms Hm Hp) as (Hl & Hc & Hi & Hctl). cbn zeta in *.
  assert (store_ok c'.(_registry)) as Hst'.
  { rewrite Hreg. destruct e as [now p [[w []] b]|now p [[i []] b]]; cbn in Hg; subst; try done.
    destruct Hg as (n & f & Hg). by eapply store_stays. }
  destruct Hs as [[Ha Hs]|(w & r & Hn & Ha & Hs)]; (eexists; split; [exact Hs|]).
  - split; rewrite Hctl; [done|done|by rewrite Ha|by rewrite Hcn|done].
  - split; cbn [deliver set_workers ctl workers islands]; rewrite Hctl; [done|done| | |done].
    + rewrite Ha. apply links_grant; [done|done|..].
      * intros l Hlk. assert (w ∈ (worker_repo c').(_connectedWorkers)) as Hw.
        { apply (inv_connected _ (proj1 Hinv')). right. rewrite Ha, lookup_insert_eq. by eexists. }
        rewrite Hcn in Hw. apply Hc in Hw as (l' & Hl' & Hh). congruence.
      * assert (pending c' r.(islandId) r.(workData)) as Hpd.
        { right. exists w. rewrite Ha, lookup_insert_eq. by destruct r. }
        by destruct (pending_island _ _ _ _ _ _ _ Hi Hpd) as (k & _ & Hcomp & _).
    + rewrite Hcn. by apply connected_alter.
Qed.

Lemma serves_join now p w l (s : sys) :
  sys_ok s → s.(workers) !! w = Some l → l.(hello) = true →
  ∃ s', serve (WorkersSocket now p (w, WORKER_JOIN, [])) (set_workers (<[w := joined l]> s.(workers)) s) =
    (Ret tt, s') ∧ sys_ok s'.
Proof.
  intros [Hinv Hst Hl Hc Hi] Hw Hh.
  assert (s.(ctl).(_workAllocationMap) !! w = None) as Hn.
  { destruct (Hl w l Hw) as (js & n & rs & Hok). by apply (wk_hello _ _ _ _ _ _ _ _ _ Hok). }
  apply serve_ok; try done. intros c' ms -> Hp. cbn in *. split_and!; [by apply links_hello| | |done].
  - unfold connections_ok in *. intros w'. rewrite elem_of_union, elem_of_singleton, Hc. destruct (decide (w' = w)) as [->|Hne].
    + rewrite lookup_insert_eq. split; [intros _; by eexists|by left].
    + rewrite lookup_insert_ne by done. naive_solver.
  - by eapply islands_same.
Qed.

Lemma serves_leave now p w (s : sys) :
  sys_ok s →
  ∃ s', serve (WorkersSocket now p (w, WORKER_LEAVE, [])) (set_workers (delete w s.(workers)) s) =
    (Ret tt, s') ∧ sys_ok s'.
Proof.
  intros [Hinv Hst Hl Hc Hi]. apply serve_ok; try done. intros c' ms -> Hp. cbn in *.
  split_and!; [by apply links_leave| | |done].
  - unfold connections_ok in *. intros w'. rewrite elem_of_difference, elem_of_singleton, Hc. setoid_rewrite lookup_delete_Some.
    naive_solver.
  - by eapply islands_same.
Qed.

Lemma insert_connected cs ws w l l' :
  connections_ok cs ws → ws !! w = Some l → l'.(hello) = l.(hello) → connections_ok cs (<[w := l']> ws).
Proof.
  intros Hc Hw Hh w'. unfold connections_ok in Hc. rewrite Hc. destruct (decide (w' = w)) as [->|Hne].
  - rewrite lookup_insert_eq, Hw. split; intros (l0 & [= <-] & Hl0); eexists; (split; [done|congruence]).
  - by rewrite lookup_insert_ne.
Qed.

Lemma serves_get_dll now p w l b q (s : sys) :
  sys_ok s → s.(workers) !! w = Some l → l.(up) = (GET_DLL, b) :: q →
  ∃ s', serve (WorkersSocket now p (w, GET_DLL, b)) (set_workers (<[w := with_up q l]> s.(workers)) s) =
    (Ret tt, s') ∧ sys_ok s'.
Proof.
  intros [Hinv Hst Hl Hc Hi] Hw Hu. apply serve_ok; try done.
  - destruct (Hl w l Hw) as (js & n & rs & Hok). pose proof (wk_up_ok _ _ _ _ _ _ _ _ _ Hok) as Hup.
    rewrite Hu in Hup. inversion_clear Hup as [|? ? Hup1 _]. destruct Hup1 as [r Hr].
    destruct (store_answers r.(request_dll_name) _ Hst) as (f & g & Hf). by exists r, f, g.
  - intros c' ms (dbc & ->) Hp. cbn in *. split_and!.
    + apply links_reply. by eapply links_take.
    + by eapply connected_alter, insert_connected.
    + by eapply islands_same.
    + done.
Qed.

Lemma serves_results now p w l r q (s : sys) :
  sys_ok s → s.(workers) !! w = Some l → l.(up) = (WORK_RESULTS, r) :: q →
  ∃ s', serve (WorkersSocket now p (w, WORK_RESULTS, r)) (set_workers (<[w := with_up q l]> s.(workers)) s) =
    (Ret tt, s') ∧ sys_ok s'.
Proof.
  intros [Hinv Hst Hl Hc Hi] Hw Hu.
  destruct (links_result _ _ _ _ _ _ _ _ _ Hl Hw Hu) as (rec & Hm & Hans & Hl').
  assert (pending s.(ctl) rec.(islandId) rec.(workData)) as Hpd.
  { right. exists w. rewrite Hm. by destruct rec. }
  apply serve_ok; try done.
  - split; [by eexists|by eapply answer_container].
  - intros c' ms (rec' & Hm' & ->) Hp. cbn in *. simplify_eq. split; [done|]. split; [|split; [|done]].
    + by eapply insert_connected.
    + eapply islands_result; try done. intros j d. rewrite Hp, Hm. naive_solver.
Qed.

Lemma serves_island now p i k d q (s : sys) :
  sys_ok s → s.(islands) !! i = Some k → k.(island_up) = d :: q →
  ∃ s', serve (IslandsSocket now p (i, ALLOCATE_WORK, d)) (set_islands (<[i := with_island_up q k]> s.(islands)) s) =
    (Ret tt, s') ∧ sys_ok s'.
Proof.
  intros [Hinv Hst Hl Hc Hi] Hk Hu.
  pose (jobs' := λ j d', pending s.(ctl) j d' ∨ (j = i ∧ d' = d)).
  edestruct (islands_submission hardware_concurrency random) with (pend' := jobs')
    as (Hct & Hn & Hi'); [exact Hi|exact Hk|exact Hu|done|].
  apply serve_ok; try done. intros c' ms -> Hp. cbn in *. split_and!; [done|done| |done].
  eapply islands_same; [|exact Hi']. done.
Qed.
(** ** The other processes *)

(** What the environment may do: new workers are freshly started processes of
    an accepted configuration. *)
Definition label_ok (a : label) : Prop :=
  match a with
  | WorkerJoins w p =>
      rested p ∧ config_ok p.(_workerMode) p.(_minIslandPopSize) ∧ p.(to_controller) = []
  | _ => True
  end.

Lemma step_joins w p s o s' :
  sys_ok s → label_ok (WorkerJoins w p) → sys_step (WorkerJoins w p) s = Some (o, s') →
  o = Ret tt ∧ sys_ok s'.
Proof.
  intros [Hinv Hst Hl Hc Hi] (Hr & Hcf & Htc). cbn. destruct (workers s !! w) eqn:Hw; [done|].
  intros [= <- <-]. split; [done|]. split; try done; cbn.
  - apply links_insert; [done|]. exists [], 0%nat, [].
    assert (s.(ctl).(_workAllocationMap) !! w = None) as Hn.
    { apply eq_None_not_Some. intros Hs.
      assert (w ∈ (worker_repo s.(ctl)).(_connectedWorkers)) as Hcw.
      { apply (inv_connected _ (proj1 Hinv)). by right. }
      apply Hc in Hcw as (l & Hlw & _). congruence. }
    pose proof (rested_inv hardware_concurrency random p Hr) as Hp.
    destruct Hr as (Ht & Hin & Hdin & Hres). split; cbn; try done; [by rewrite Hn|].
    intros _. rewrite Hin, Hres. split_and!; try done. by exists [].
  - intros w'. destruct (decide (w' = w)) as [->|Hne].
    + rewrite lookup_insert_eq. unfold connections_ok in Hc. rewrite Hc, Hw. naive_solver.
    + rewrite lookup_insert_ne by done. apply Hc.
Qed.

Lemma step_dies w kept s o s' :
  sys_ok s → sys_step (WorkerDies w kept) s = Some (o, s') → o = Ret tt ∧ sys_ok s'.
Proof.
  intros [Hinv Hst Hl Hc Hi]. cbn. destruct (workers s !! w) as [l|] eqn:Hw; [|done]. cbn.
  destruct (alive l); [|done]. intros [= <- <-]. split; [done|]. split; try done; cbn.
  - apply links_insert; [done|]. destruct (Hl w l Hw) as (js & n & rs & [Hj Hn Ha Hcm Hcf Hu Hp Hh Hal]).
    exists js, n, rs. split; cbn; try done.
    + by apply Forall_take.
    + etrans; [|exact Hp]. rewrite <- (take_drop kept (up l)) at 2. rewrite omap_app. by apply prefix_app_r.
  - by eapply insert_connected.
Qed.

(** An event of a live worker process. *)
Lemma step_process w l e q s :
  sys_ok s → s.(workers) !! w = Some l → l.(alive) = true →
  event_possible e l.(proc) → (e = ThreadEnds → computes hardware_concurrency random l.(proc)) →
  Forall (down_ok) q → allocs l.(down) = jobs_of_event e ++ allocs q →
  ∃ s', step_worker_process hardware_concurrency random w (with_down q l) e s = (Ret tt, s') ∧ sys_ok s'.
Proof.
  intros [Hinv Hst Hl Hc Hi] Hw Ha He Hcp Hq Hal. destruct (Hl w l Hw) as (js & n & rs & Hok).
  destruct (worker_event_link _ _ _ _ _ _ _ _ _ e q Hok Ha He Hcp Hq Hal) as (p' & Hex & Hok').
  unfold step_worker_process. cbn [with_down proc]. rewrite Hex. eexists. split; [done|].
  split; try done; cbn.
  - apply links_insert; [done|]. by exists js, n, (results p').
  - by eapply insert_connected.
Qed.

Lemma step_reads w s o s' :
  sys_ok s → sys_step (WorkerReads w) s = Some (o, s') → o = Ret tt ∧ sys_ok s'.
Proof.
  intros Hs. cbn. destruct (workers s !! w) as [l|] eqn:Hw; [|done]. cbn.
  destruct (alive l) eqn:Ha; [|done]. destruct (down l) as [|m q] eqn:Hd; [done|].
  destruct (so_links _ Hs w l Hw) as (js & n & rs & Hok).
  destruct (wk_alive _ _ _ _ _ _ _ _ _ Hok Ha) as (_ & _ & Hdn & _).
  rewrite Hd in Hdn. inversion_clear Hdn as [|? ? Hm Hq].
  destruct (step_process w l (WorkerSocket m) q s) as (s1 & E & Hs1); try done.
  - split; [done|]. destruct m as [[] b]; cbn in Hm; try done.
    exact (alloc_finds_rest _ _ _ _ _ _ _ _ _ _ _ Hok Ha Hd).
  - rewrite Hd. by destruct m as [[] b].
  - intros H. rewrite E in H. by simplify_eq.
Qed.

(** Whether the computation of a worker thread returns. *)
Definition returns (p : distributed_worker) (d : bytes) : Prop := ∃ r, answer hardware_concurrency random p d = Ret r.

Lemma returns_dec p d : returns p d ∨ ∀ r, answer hardware_concurrency random p d ≠ Ret r.
Proof. unfold returns. destruct (answer _ _ p d) as [r|e|f]; [left; by exists r|right; by intros r..]. Qed.

Lemma returns_computes p d :
  p.(_workerThread) = Computing d → returns p d → computes hardware_concurrency random p.
Proof. intros Ht Hr. unfold computes, unanswered. rewrite Ht. by constructor. Qed.

(** A worker process whose computation ended in an exception or a crash: the
    process is dead, and nothing else has changed. *)
Definition worker_ends (a : label) (s s' : sys) : Prop :=
  ∃ w l d, a = WorkerSteps w ThreadEnds ∧ s.(workers) !! w = Some l ∧ l.(alive) = true ∧
    l.(proc).(_workerThread) = Computing d ∧ ¬ returns l.(proc) d ∧
    s' = set_workers (<[w := dead_link (length l.(up)) l]> s.(workers)) s.

(** An island whose algorithm or problem cannot be sent to another thread: its
    evolution throws, and nothing else has changed. *)
Definition island_refuses (a : label) (s s' : sys) (o : outcome unit) : Prop :=
  ∃ i k e, a = IslandSubmits i ∧ s.(islands) !! i = Some k ∧ request k = Throw e ∧ o = Throw e ∧ s' = s.

(** What comes of a step. *)
Definition outcome_ok (a : label) (s s' : sys) (o : outcome unit) : Prop :=
  o = Ret tt ∨ (∃ f, o = Crash f ∧ worker_ends a s s') ∨ island_refuses a s s' o.

(** The death of a computation is a death. *)
Lemma worker_ends_dies a s s' :
  worker_ends a s s' → ∃ w kept, sys_step (WorkerDies w kept) s = Some (Ret tt, s').
Proof.
  intros (w & l & d & _ & Hw & Ha & _ & _ & ->). exists w, (length l.(up)). cbn. rewrite Hw. cbn. by rewrite Ha.
Qed.

Lemma step_steps w e s o s' :
  sys_ok s → sys_step (WorkerSteps w e) s = Some (o, s') → outcome_ok (WorkerSteps w e) s s' o ∧ sys_ok s'.
Proof.
  intros Hs. cbn. destruct (workers s !! w) as [l|] eqn:Hw; [|done]. cbn.
  destruct (alive l) eqn:Ha; [|done]. intros H.
  assert (with_down (down l) l = l) as El by by destruct l.
  assert (e = ThreadEnds → enabled e l.(proc) = true → ∃ d, l.(proc).(_workerThread) = Computing d) as Hth.
  { intros ->. cbn. destruct (_workerThread _); naive_solver. }
  assert (∀ m, e ≠ WorkerSocket m) as Hm by (by intros m ->).
  assert (enabled e l.(proc) = true ∧ Some (step_worker_process hardware_concurrency random w l e s) = Some (o, s'))
    as [Hen H'] by (destruct e; [by destruct (Hm m)|..]; destruct (enabled _ _); done). clear H.
  assert (e = ThreadEnds ∨ e ≠ ThreadEnds) as [->|Hne] by (destruct e; auto).
  { destruct (Hth eq_refl Hen) as [d Hd]. destruct (returns_dec l.(proc) d) as [Hr|Hr].
    2: { destruct (computation_ends hardware_concurrency random d l.(proc) Hd Hr) as [f Ef].
         injection H' as H'. unfold step_worker_process in H'. rewrite Ef in H'. injection H' as <- <-.
         assert (worker_ends (WorkerSteps w ThreadEnds) s (set_workers (<[w := dead_link (length l.(up)) l]> s.(workers)) s)) as He.
         { exists w, l, d. split_and!; try done. intros [r Er]. by destruct (Hr r). }
         split; [right; left; by exists f|]. destruct (worker_ends_dies _ _ _ He) as (v & kept & Ed).
         by apply (step_dies _ _ _ _ _ Hs Ed). }
    destruct (step_process w l ThreadEnds (down l) s) as (s1 & E & Hs1); try done.
    - intros _. by eapply returns_computes.
    - destruct (so_links _ Hs w l Hw) as (js & n & rs & Hok).
      by destruct (wk_alive _ _ _ _ _ _ _ _ _ Hok Ha) as (_ & _ & Hdn & _).
    - injection H' as H'. rewrite El, H' in E. injection E as -> ->. split; [by left|done]. }
  destruct (step_process w l e (down l) s) as (s1 & E & Hs1); try done.
  - split; [done|]. destruct e; try done. by destruct (Hm m).
  - destruct (so_links _ Hs w l Hw) as (js & n & rs & Hok).
    by destruct (wk_alive _ _ _ _ _ _ _ _ _ Hok Ha) as (_ & _ & Hdn & _).
  - destruct e; try done. by destruct (Hm m).
  - injection H' as H'. rewrite El, H' in E. injection E as -> ->. split; [by left|done].
Qed.

Lemma step_serves_worker now p w s o s' :
  sys_ok s → sys_step (ServesWorker now p w) s = Some (o, s') → o = Ret tt ∧ sys_ok s'.
Proof.
  intros Hs. cbn. destruct (workers s !! w) as [l|] eqn:Hw; [|done]. cbn.
  unfold next_of_worker. destruct (hello l) eqn:Hh.
  { cbn. destruct (serves_join now p w l s Hs Hw Hh) as (s1 & E & Hs1). rewrite E. intros [= <- <-]. done. }
  destruct (so_links _ Hs w l Hw) as (js & n & rs & Hok). pose proof (wk_up_ok _ _ _ _ _ _ _ _ _ Hok) as Hu.
  destruct (up l) as [|[t b] q] eqn:Hup.
  - destruct (alive l); [done|]. cbn.
    destruct (serves_leave now p w s Hs) as (s1 & E & Hs1). rewrite E. by intros [= <- <-].
  - inversion_clear Hu as [|? ? Ht _]. cbn [mbind option_bind]. destruct t; try done.
    + destruct (serves_results now p w l b q s Hs Hw Hup) as (s1 & E & Hs1). rewrite E. by intros [= <- <-].
    + destruct (serves_get_dll now p w l b q s Hs Hw Hup) as (s1 & E & Hs1). rewrite E. by intros [= <- <-].
Qed.

Lemma step_serves_island now p i s o s' :
  sys_ok s → sys_step (ServesIsland now p i) s = Some (o, s') → o = Ret tt ∧ sys_ok s'.
Proof.
  intros Hs. cbn. destruct (islands s !! i) as [k|] eqn:Hk; [|done]. cbn.
  destruct (island_up k) as [|d q] eqn:Hu; [done|].
  destruct (serves_island now p i k d q s Hs Hk Hu) as (s1 & E & Hs1). rewrite E. by intros [= <- <-].
Qed.
Lemma step_starts u isl s o s' :
  sys_ok s → sys_step (IslandStarts u isl) s = Some (o, s') → o = Ret tt ∧ sys_ok s'.
Proof.
  intros [Hinv Hst Hl Hc Hi]. cbn. destruct (islands s !! _) eqn:Hk; [done|].
  intros [= <- <-]. split; [done|]. split; try done; cbn.
  eapply islands_change with (i := _islandId u); [exact Hi|done|..].
  - intros j Hne. by rewrite lookup_insert_ne.
  - rewrite lookup_insert_eq. by eexists.
  - intros k. rewrite lookup_insert_eq. intros [= <-]. split; [constructor|done|]. left. split_and!; try done.
    intros d Hd. destruct Hi as [_ Hp]. destruct (Hp _ _ Hd). congruence.
Qed.

Lemma step_submits i s o s' :
  sys_ok s → sys_step (IslandSubmits i) s = Some (o, s') → outcome_ok (IslandSubmits i) s s' o ∧ sys_ok s'.
Proof.
  intros Hs. pose proof Hs as [Hinv Hst Hl Hc Hi]. cbn. destruct (islands s !! i) as [k|] eqn:Hk; [|done]. cbn.
  case_decide as Hlen; [|done]. destruct (request k) as [d|e|f] eqn:Hd; [|intros [= <- <-]; split; [|done]|].
  2: { right; right. by exists i, k, e. }
  2: { unfold request, _load_pagmo_pop_and_algo in Hd. by repeat case_match. }
  intros [= <- <-]. split; [by left|]. split; try done; cbn.
  eapply islands_change with (i := i); [exact Hi|done|..].
  - intros j Hne. by rewrite lookup_insert_ne.
  - rewrite lookup_insert_eq. by eexists.
  - intros k'. rewrite lookup_insert_eq. intros [= <-]. destruct Hi as [Hi _].
    destruct (Hi i k Hk) as [Ha Hh [(_ & Hu & Hdn & Hn)|(d' & _ & Hl' & _)]]; [|lia].
    split; cbn; [|exact Hh|].
    + by rewrite take_app_le by lia.
    + right. exists d. unfold in_flight. cbn. rewrite <- Hlen, take_app_length, length_app, Hu, Hdn. cbn. split_and!; try done; [lia| |].
      * unfold request in Hd. destruct (_load_pagmo_pop_and_algo _) as [[a p]|e|f]; [|done..].
        injection Hd as <-. eexists. apply deserialize_serialize.
      * left. by split_and!.
Qed.

Lemma receive_answer d r k :
  answers_job d r →
  ∃ wc i, vector_deserialize r = Ret (wc : container) ∧
    receive_results int_to_string (WORK_RESULTS, r) k =
      Ret {| udi := k.(udi); host := i; submitted := k.(submitted); answered := k.(answered) ++ [r];
             island_up := k.(island_up); island_down := tail k.(island_down) |} ∧
    get_population i = wc.(pop) ∧ get_algorithm i = wc.(algo).
Proof.
  intros [wc Hwc]%answer_container.
  exists wc, (set_algorithm wc.(algo) (set_population wc.(pop) k.(host))). split; [done|]. split.
  - unfold receive_results, await_results. rewrite bind_run. unfold socket_receive.
    change (dealer_socket_receive _) with (Received (WORK_RESULTS, r) []). cbn beta iota.
    destruct (decide (WORK_RESULTS ≠ WORK_RESULTS)) as [|_]; [done|]. rewrite bind_run. unfold lift.
    rewrite Hwc. done.
  - by rewrite get_population_set_algorithm, get_set_population, get_set_algorithm.
Qed.

Lemma step_island_reads i s o s' :
  sys_ok s → sys_step (IslandReads i) s = Some (o, s') → o = Ret tt ∧ sys_ok s'.
Proof.
  intros [Hinv Hst Hl Hc Hi]. cbn. destruct (islands s !! i) as [k|] eqn:Hk; [|done]. cbn.
  destruct (island_down k) as [|m q] eqn:Hd; [done|]. pose proof Hi as [Hi0 _].
  destruct (Hi0 i k Hk) as [Ha Hh [(_ & _ & Hd' & _)|(d & Hs & Hlen & Hct & Hf)]]; [congruence|].
  destruct Hf as [(_ & Hd' & _)|[(_ & Hd' & _)|(Hu & (r & Hd' & Hr) & Hn)]]; [congruence..|].
  rewrite Hd in Hd'. injection Hd' as -> ->.
  destruct (receive_answer d r k Hr) as (wc & isl & Hwc & E & Hp & Hal). rewrite E. intros [= <- <-].
  split; [done|]. split; try done; cbn.
  eapply islands_change with (i := i); [exact Hi|done|..].
  - intros j Hne. by rewrite lookup_insert_ne.
  - rewrite lookup_insert_eq. by eexists.
  - intros k'. rewrite lookup_insert_eq. intros [= <-]. split; cbn.
    + rewrite length_app. cbn. rewrite Nat.add_1_r, <- Hlen, firstn_all, Hs.
      apply Forall2_app; [done|]. by repeat constructor.
    + unfold holds_answer. cbn. rewrite last_snoc. by exists wc.
    + left. rewrite length_app, Hd. cbn. split_and!; [lia|done|done|done].
Qed.

Lemma step_preserves a s o s' :
  sys_ok s → label_ok a → sys_step a s = Some (o, s') → outcome_ok a s s' o ∧ sys_ok s'.
Proof.
  intros Hs Hok He. unfold outcome_ok. destruct a.
  1: destruct (step_joins _ _ _ _ _ Hs Hok He); by auto.
  1: destruct (step_dies _ _ _ _ _ Hs He); by auto.
  1: destruct (step_reads _ _ _ _ Hs He); by auto.
  1: exact (step_steps _ _ _ _ _ Hs He).
  1: destruct (step_starts _ _ _ _ _ Hs He); by auto.
  1: exact (step_submits _ _ _ _ Hs He).
  1: destruct (step_island_reads _ _ _ _ Hs He); by auto.
  1: destruct (step_serves_worker _ _ _ _ _ _ Hs He); by auto.
  destruct (step_serves_island _ _ _ _ _ _ Hs He); by auto.
Qed.

(** ** Runs *)

(** Steps in any order, whatever comes of each. *)
Inductive sys_run : sys → list label → sys → Prop :=
  | sys_run_nil s : sys_run s [] s
  | sys_run_cons s a o s1 ls s2 :
      label_ok a → sys_step a s = Some (o, s1) → sys_run s1 ls s2 → sys_run s (a :: ls) s2.

Definition sys_initial (s : sys) : Prop :=
  initial s.(ctl) ∧ store_ok s.(ctl).(_registry) ∧ s.(workers) = ∅ ∧ s.(islands) = ∅.

Lemma sys_initial_ok s : sys_initial s → sys_ok s.
Proof.
  intros (Hc & Hst & Hw & Hi). pose proof Hc as (Hwt & _ & Hal & _ & Hcn & _). split.
  - by apply initial_inv.
  - done.
  - intros w l. by rewrite Hw, lookup_empty.
  - intros w. rewrite Hcn, Hw. setoid_rewrite lookup_empty. set_solver.
  - rewrite Hi. split; [by intros i k; rewrite lookup_empty|].
    intros i d [Hd|(w & Hd)]; [rewrite Hwt in Hd|rewrite Hal in Hd]; by rewrite lookup_empty in Hd.
Qed.

Lemma sys_run_ok s ls s' : sys_run s ls s' → sys_ok s → sys_ok s'.
Proof.
  induction 1 as [|s a o s1 ls s2 Hok He Hrun IH]; intros Hs; [done|]. apply IH.
  by destruct (step_preserves a s o s1 Hs Hok He).
Qed.

End SystemTheorems.
