(* ===== verification/SystemTyping.v ===== *)
(** * The types of the messages

    A message's payload is bytes; what the receiver deserializes it to depends
    on its type. [payload_ok] is the typing of the protocol, per direction, and
    every message of a running system is well typed ([messages_well_typed]). *)
From S2P Require Import Prelude WorkerInfo Messages Sockets Settings Pagmo DoubleOrder.
From S2P Require Import PopulationTools WorkerLogic Worker Controller ControllerSpec.
From S2P Require Import Uuid Island System SystemSpec SystemTheorems.

(** The connections of the system. *)
Inductive direction :=
  | worker_to_controller
  | controller_to_worker
  | island_to_controller
  | controller_to_island
  | thread_to_client     (* the PAIR socket inside a worker *)
  | client_to_thread.

Section SystemTyping.
Context {PG : Pagmo} {PS : PagmoSort} {SS : StdSort} {PE : PagmoEvolve}.
Context {PI : PagmoIsland} {PIL : PagmoIslandLaws}.
Context {R : Type} {LS : LibraryStore R} {LL : LibraryStoreLaws R}.
Context {AW : Archive (work_container algorithm population)}
        {AQ : Archive get_dll_request} {AD : Archive dll_binary_container} {AI : Archive string}
        {AS : Archive (gmap string (work_stats * gmap string work_stats))}.
Context {AWL : ArchiveLaws (work_container algorithm population)}
        {AQL : ArchiveLaws get_dll_request} {ADL : ArchiveLaws dll_binary_container}.
Context (hardware_concurrency random : Z) (int_to_string : Z → string).
Context (config_ok : worker_mode → Z → Prop).

Abbreviation container := (work_container algorithm population).
Abbreviation sys := (system (R := R)).
Abbreviation answers_job := (answers_job hardware_concurrency random config_ok).
Abbreviation worker_ok := (worker_ok hardware_concurrency random config_ok).
Abbreviation sys_ok := (sys_ok (R := R) hardware_concurrency random config_ok).
Abbreviation sys_run := (sys_run (R := R) hardware_concurrency random int_to_string config_ok).

Definition payload_ok (d : direction) (m : message) : Prop :=
  match d, m.1 with
  | (worker_to_controller | thread_to_client | controller_to_island), WORK_RESULTS => is_container m.2
  | (controller_to_worker | island_to_controller), ALLOCATE_WORK => is_container m.2
  | (worker_to_controller | thread_to_client), GET_DLL =>
      ∃ q, vector_deserialize (A := get_dll_request) m.2 = Ret q
  | (controller_to_worker | client_to_thread), DLL_BINARY =>
      ∃ f, vector_deserialize (A := dll_binary_container) m.2 = Ret f
  | _, _ => False
  end.

(** A worker's connection; the sockets of a process that died are gone. *)
Definition link_typed (l : link) : Prop :=
  Forall (payload_ok worker_to_controller) l.(up) ∧
  (l.(alive) = true →
    Forall (payload_ok controller_to_worker) l.(down) ∧
    Forall (payload_ok thread_to_client) l.(proc).(thread_inbox) ∧
    Forall (payload_ok client_to_thread) l.(proc).(dll_inbox)).

Definition island_typed (k : island_link) : Prop :=
  Forall (λ d, payload_ok island_to_controller (ALLOCATE_WORK, d)) k.(island_up) ∧
  Forall (payload_ok controller_to_island) k.(island_down).

(** The jobs the controller keeps. *)
Definition controller_typed (c : distributed_controller R) : Prop :=
  map_Forall (λ _ d, is_container d) c.(_islandsWaitingForAlloc) ∧
  map_Forall (λ _ r, is_container r.(workData)) c.(_workAllocationMap).

(** ** Lemmas *)

Lemma body_container mode mn d r :
  worker_thread_body hardware_concurrency random mode mn d = Ret r → is_container d ∧ is_container r.
Proof.
  intros Hb. unfold worker_thread_body in Hb. destruct (vector_deserialize d) as [wc|e|f] eqn:Ed; [|done..].
  cbn in Hb. split; [by exists wc|].
  assert (∃ o : outcome container, (res ← o; Ret (vector_serialize res)) = Ret r) as [[res|e|f] Ho];
    [destruct mode; eexists; exact Hb| |done..].
  injection Ho as <-. exists res. apply deserialize_serialize.
Qed.

Lemma results_container js rs : Forall2 answers_job js rs → Forall is_container rs.
Proof.
  intros Hf. apply (Forall2_Forall_r _ _ _ _ Hf), Forall_true.
  intros d r (mode & mn & _ & Hr). by destruct (body_container _ _ _ _ Hr).
Qed.

Lemma up_typed d q :
  d = worker_to_controller ∨ d = thread_to_client →
  Forall up_ok q → Forall is_container (omap is_results q) → Forall (payload_ok d) q.
Proof.
  intros Hd. induction 1 as [|[t b] q Hm _ IH]; [constructor|]. intros Hr.
  assert (Forall is_container (omap is_results q)) as Hq.
  { destruct t; [exact Hr|exact Hr|exact Hr|by inversion Hr|exact Hr..]. }
  constructor; [|by apply IH]. destruct t; try done; cbn in Hr, Hm |- *.
  - inversion_clear Hr. by destruct Hd as [->| ->].
  - by destruct Hd as [->| ->].
Qed.

Lemma down_typed q :
  Forall down_ok q → Forall is_container (allocs q) → Forall (payload_ok controller_to_worker) q.
Proof.
  induction 1 as [|[t b] q Hm _ IH]; [constructor|]. intros Hr.
  assert (Forall is_container (allocs q)) as Hq.
  { destruct t; [exact Hr|exact Hr|by inversion Hr|exact Hr..]. }
  constructor; [|by apply IH]. destruct t; try done. by inversion Hr.
Qed.

Lemma worker_link_typed m w l js n rs : worker_ok m w l js n rs → link_typed l.
Proof.
  intros [_ _ Hans Hjs _ Hup [rest Hpre] _ Hal]. apply results_container in Hans. split.
  - apply up_typed; [by left|done|]. apply (Forall_drop _ n) in Hans. rewrite Hpre in Hans.
    by apply Forall_app in Hans as [? _].
  - intros Ha. destruct (Hal Ha) as (_ & _ & Hd & Hin & given & [(dn & _ & Hf) _ _ Hdll] & Hjobs).
    split_and!.
    + apply down_typed; [done|]. rewrite Hjobs in Hjs. by apply Forall_app in Hjs as [_ ?].
    + apply up_typed; [by right|done|]. apply Forall2_app_inv_r in Hf as (d1 & d2 & _ & Hf & _).
      apply (Forall2_Forall_r _ _ _ _ Hf), Forall_true. intros d r Hr. by destruct (body_container _ _ _ _ Hr).
    + revert Hdll. apply Forall_impl. intros [t b] [Ht Hb]. cbn in Ht. by subst t.
Qed.

Lemma island_link_typed pend k : island_ok hardware_concurrency random config_ok pend k → island_typed k.
Proof.
  unfold island_typed. intros [_ _ [(_ & -> & -> & _)|(d & _ & _ & Hd & Hf)]]; [by split|].
  destruct Hf as [(-> & -> & _)|[(-> & -> & _)|(-> & (r & -> & mode & mn & _ & Hr) & _)]].
  - by repeat constructor.
  - by split.
  - split; [done|]. constructor; [|done]. by destruct (body_container _ _ _ _ Hr).
Qed.

(** C7. In every state the system reaches, every message on every connection has
    a type of the protocol for its direction and a payload that deserializes to
    what this type stands for: jobs and results to a [work_container], library
    requests and files to theirs, on the sockets to the controller, from it,
    and inside the workers; so do the jobs the controller keeps. The handlers'
    branches for other types are never taken. *)
Theorem messages_well_typed s0 ls s :
  sys_initial s0 → sys_run s0 ls s →
  map_Forall (λ _, link_typed) s.(workers) ∧ map_Forall (λ _, island_typed) s.(islands) ∧
  controller_typed s.(ctl).
Proof.
  intros H0 Hrun.
  destruct (sys_run_ok _ _ _ _ s0 ls s Hrun (sys_initial_ok _ _ int_to_string _ s0 H0)) as [[Hc _] _ Hl _ [Hi _]].
  split_and!.
  - intros w l Hw. destruct (Hl w l Hw) as (js & n & rs & Hok). by eapply worker_link_typed.
  - intros i k Hk. by eapply island_link_typed, Hi.
  - split; [intros i d; apply (inv_waiting_data _ Hc)|intros w r; apply (inv_alloc_data _ Hc)].
Qed.
End SystemTyping.
