(* ===== verification/SystemLiveness.v ===== *)
(** * Recovery of the whole system

    Whatever happened before and however many workers died: one fresh worker that
    can compute the unanswered jobs is enough for every island to get its
    answer. The proof is a measure on the
    system that some step of the controller, of the new worker or of an island
    reduces as long as an island waits. *)
From S2P Require Import Prelude WorkerInfo Messages Sockets Settings Pagmo DoubleOrder.
From S2P Require Import PopulationTools WorkerLogic Worker Controller ControllerSpec Grants.
From S2P Require Import Uuid Island System SystemSpec SystemTheorems.

(** ** Sums over maps *)

Definition weight {A} (f : A → nat) (m : gmap string A) : nat := map_fold (λ _ x n, (f x + n)%nat) 0%nat m.

Lemma weight_delete {A} (f : A → nat) m i x :
  m !! i = Some x → weight f m = (f x + weight f (delete i m))%nat.
Proof. intros Hi. unfold weight. rewrite (map_fold_delete_L _ _ i x m); [done|intros; lia|done]. Qed.

Lemma weight_insert {A} (f : A → nat) m i x y :
  m !! i = Some x → (weight f (<[i := y]> m) + f x = weight f m + f y)%nat.
Proof.
  intros Hi. rewrite (weight_delete f m i x Hi).
  rewrite (weight_delete f (<[i := y]> m) i y) by apply lookup_insert_eq.
  rewrite delete_insert_eq. lia.
Qed.

Lemma weight_alter {A} (f : A → nat) (g : A → A) m i k :
  (∀ x, m !! i = Some x → f (g x) ≤ f x + k)%nat → (weight f (alter g i m) ≤ weight f m + k)%nat.
Proof.
  intros Hg. destruct (m !! i) as [x|] eqn:Hi.
  - assert (alter g i m = <[i := g x]> m) as ->.
    { apply map_eq. intros j. destruct (decide (j = i)) as [->|Hne].
      - by rewrite lookup_alter_eq, lookup_insert_eq, Hi.
      - by rewrite lookup_alter_ne, lookup_insert_ne. }
    pose proof (weight_insert f m i x (g x) Hi). specialize (Hg x eq_refl). lia.
  - assert (alter g i m = m) as ->; [|lia].
    apply map_eq. intros j. destruct (decide (j = i)) as [->|Hne].
    + by rewrite lookup_alter_eq, Hi.
    + by rewrite lookup_alter_ne.
Qed.

Section Recovery.
Context {PG : Pagmo} {PS : PagmoSort} {SS : StdSort} {PE : PagmoEvolve}.
Context {PI : PagmoIsland} {PIL : PagmoIslandLaws}.
Context {R : Type} {LS : LibraryStore R} {LL : LibraryStoreLaws R}.
Context {AW : Archive (work_container algorithm population)}
        {AQ : Archive get_dll_request} {AD : Archive dll_binary_container} {AI : Archive string}
        {AS : Archive (gmap string (work_stats * gmap string work_stats))}.
Context {AWL : ArchiveLaws (work_container algorithm population)}
        {AQL : ArchiveLaws get_dll_request} {ADL : ArchiveLaws dll_binary_container}.
Context (hardware_concurrency random : Z) (int_to_string : Z → string).
Context (config_ok : worker_mode → Z → Prop).
(** The configuration of the fresh worker. *)
Context (fresh_mode : worker_mode) (fresh_size : Z).

Abbreviation sys_step := (sys_step (R := R) hardware_concurrency random int_to_string).
Abbreviation sys_ok := (sys_ok (R := R) hardware_concurrency random config_ok).
Abbreviation sys_run := (sys_run (R := R) hardware_concurrency random int_to_string config_ok).
Abbreviation label_ok := (label_ok config_ok).
Abbreviation worker_ok := (worker_ok hardware_concurrency random config_ok).
Abbreviation sys := (system (R := R)).

(** Steps that neither begin nor end a process and bring no new job. *)
Definition quiet (a : label) : Prop :=
  match a with
  | WorkerJoins _ _ | WorkerDies _ _ | IslandStarts _ _ | IslandSubmits _ => False
  | _ => True
  end.

(** A quiet step that is not the end of a computation returns. *)
Lemma step_ok a (s : sys) o s' :
  sys_ok s → quiet a → (∀ w, a ≠ WorkerSteps w ThreadEnds) → sys_step a s = Some (o, s') → o = Ret tt ∧ sys_ok s'.
Proof.
  intros Hs Hq Ha He. assert (label_ok a) as Hl by by destruct a.
  destruct (step_preserves hardware_concurrency random int_to_string config_ok _ _ _ _ Hs Hl He)
    as [[->|[(f & _ & w & l & d & -> & _)|(i & k & e & -> & _)]] Hs']; [done|by destruct (Ha w)|done].
Qed.

(** ** What the controller's handlers change *)

(** The next message of a worker's connection follows the protocol. *)
Lemma next_event_ok now p w l m l' (s : sys) :
  sys_ok s → s.(workers) !! w = Some l → next_of_worker w l = Some (m, l') →
  event_ok s.(ctl) (WorkersSocket now p m).
Proof.
  intros [Hinv Hst Hl Hc Hi] Hw. destruct (Hl w l Hw) as (js & n & rs & Hok).
  unfold next_of_worker. destruct (hello l) eqn:Hh.
  { intros [= <- <-]. by apply (wk_hello _ _ _ _ _ _ _ _ _ Hok). }
  pose proof (wk_up_ok _ _ _ _ _ _ _ _ _ Hok) as Hup. destruct (up l) as [|[t b] q] eqn:Hu.
  { destruct (alive l); [done|]. by intros [= <- <-]. }
  intros [= <- <-]. inversion_clear Hup as [|? ? Ht _]. destruct t; try done.
  - destruct (links_result _ _ _ _ _ _ _ _ _ Hl Hw Hu) as (rec & Hm & Hans & _).
    split; [by eexists|by eapply answer_container].
  - destruct Ht as [r Hr]. destruct (store_answers r.(request_dll_name) _ Hst) as (f & g & Hf). by exists r, f, g.
Qed.

Lemma deliver_all_ctl ms c (s : sys) :
  (deliver_all ms (set_ctl c s)).(workers) = (deliver_all ms s).(workers) ∧
  (deliver_all ms (set_ctl c s)).(islands) = (deliver_all ms s).(islands).
Proof.
  revert s. induction ms as [|m ms IH]; intros s; [done|].
  destruct m as [w t b|i t b].
  - apply (IH (deliver (ToWorker w t b) s)).
  - apply (IH (deliver (ToIsland i t b) s)).
Qed.

(** Besides the reply, at most one job is delivered. *)
Definition given (ws ws' : gmap string link) : Prop :=
  ws' = ws ∨ ∃ v d, ws' = alter (link_deliver (ALLOCATE_WORK, d)) v ws.

Lemma serve_changes (e : event) (s s' : sys) o :
  ctl_inv s.(ctl) → event_ok s.(ctl) e → serve e s = (o, s') →
  ∃ ms, replies e s.(ctl) ms ∧ given (deliver_all ms s).(workers) s'.(workers) ∧
    s'.(islands) = (deliver_all ms s).(islands).
Proof.
  intros Hinv Hok Hs. destruct (serve_run e s Hinv Hok) as (c' & ms & g & _ & _ & _ & Hm & _ & _ & Hr).
  exists ms. split; [done|]. destruct (deliver_all_ctl ms c' s) as [Ew Ei].
  destruct Hr as [[_ Hr]|(w & r & _ & _ & Hr)]; rewrite Hr in Hs; injection Hs as _ <-.
  - split; [by left|done].
  - cbn [deliver set_workers workers islands]. rewrite Ew, Ei. split; [by right; eexists _, _|done].
Qed.

(** ** The measure *)

Definition thread_weight (t : thread_state) : nat :=
  match t with Computing _ => 4 | Finished _ => 3 | _ => 0 end.

(** A message of a dead worker weighs more than the job its handling may free. *)
Definition link_weight (l : link) : nat :=
  ((if l.(hello) then 6 else 0) +
   (if l.(alive) then 5 * length l.(down) + thread_weight l.(proc).(_workerThread) + 2 * length l.(up)
    else 6 * length l.(up) + 6))%nat.

Definition island_weight (k : island_link) : nat :=
  if decide (length k.(submitted) = length k.(answered)) then 0
  else if bool_decide (k.(island_up) = []) then if bool_decide (k.(island_down) = []) then 10 else 1
  else 20.

Definition total (s : sys) : nat := (weight link_weight s.(workers) + weight island_weight s.(islands))%nat.

Lemma link_weight_given d l : (link_weight (link_deliver (ALLOCATE_WORK, d) l) ≤ link_weight l + 5)%nat.
Proof. unfold link_weight. cbn. destruct (alive l); rewrite ?length_app; cbn; lia. Qed.

Lemma given_weight ws ws' : given ws ws' → (weight link_weight ws' ≤ weight link_weight ws + 5)%nat.
Proof. intros [->|(v & d & ->)]; [lia|]. apply weight_alter. intros l _. apply link_weight_given. Qed.

(** ** One worker, all others dead *)

(** The fresh worker, which only ever gets jobs and sends results. *)
Definition tame (l : link) : Prop :=
  l.(alive) = true ∧ Forall (λ m, m.1 = ALLOCATE_WORK) l.(down) ∧ Forall (λ m, m.1 = WORK_RESULTS) l.(up) ∧
  match l.(proc).(_workerThread) with
  | Finished _ => ∃ r, l.(proc).(thread_inbox) = [(WORK_RESULTS, r)]
  | AwaitingDll _ _ => False
  | _ => l.(proc).(thread_inbox) = []
  end ∧
  l.(proc).(_workerMode) = fresh_mode ∧ l.(proc).(_minIslandPopSize) = fresh_size.

Definition crew (w : string) (ws : gmap string link) : Prop :=
  (∃ l, ws !! w = Some l ∧ tame l) ∧ ∀ v l, v ≠ w → ws !! v = Some l → l.(alive) = false.

Lemma crew_insert w ws v l l' :
  crew w ws → ws !! v = Some l → l'.(alive) = l.(alive) → (tame l → tame l') → crew w (<[v := l']> ws).
Proof.
  intros [(lw & Hw & Ht) Hd] Hv Ha Htm. split.
  - destruct (decide (v = w)) as [->|Hne].
    + exists l'. rewrite lookup_insert_eq. split; [done|]. apply Htm. by simplify_eq.
    + exists lw. by rewrite lookup_insert_ne.
  - intros u l0 Hu. destruct (decide (u = v)) as [->|Hne].
    + rewrite lookup_insert_eq. intros [= <-]. rewrite Ha. by eapply Hd.
    + rewrite lookup_insert_ne by done. by apply Hd.
Qed.

Lemma crew_delete w ws v l :
  crew w ws → ws !! v = Some l → l.(alive) = false → crew w (delete v ws).
Proof.
  intros [(lw & Hw & Ht) Hd] Hv Ha. assert (v ≠ w) by (intros ->; simplify_eq; by destruct Ht; congruence). split.
  - exists lw. by rewrite lookup_delete_ne.
  - intros u l0 Hu Hl. apply lookup_delete_Some in Hl as [_ Hl]. by eapply Hd.
Qed.

Lemma crew_alter w ws v g :
  crew w ws → (∀ l, (g l).(alive) = l.(alive)) → (v = w → ∀ l, tame l → tame (g l)) → crew w (alter g v ws).
Proof.
  intros Hc Ha Ht. destruct (ws !! v) as [l|] eqn:Hv.
  - assert (alter g v ws = <[v := g l]> ws) as ->.
    { apply map_eq. intros j. destruct (decide (j = v)) as [->|Hne].
      - by rewrite lookup_alter_eq, lookup_insert_eq, Hv.
      - by rewrite lookup_alter_ne, lookup_insert_ne. }
    apply (crew_insert w ws v l); [done|done|apply Ha|]. destruct (decide (v = w)) as [->|Hne]; [by apply Ht|].
    intros [Hal _]. destruct Hc as [_ Hd]. rewrite (Hd v l Hne Hv) in Hal. done.
  - assert (alter g v ws = ws) as ->; [|done].
    apply map_eq. intros j. destruct (decide (j = v)) as [->|Hne]; [by rewrite lookup_alter_eq, Hv|by rewrite lookup_alter_ne].
Qed.

Lemma tame_given d l : tame l → tame (link_deliver (ALLOCATE_WORK, d) l).
Proof.
  intros (Ha & Hd & Hu & Ht). split; [done|]. split; [|done]. cbn. rewrite Ha. apply Forall_app. by split; [|repeat constructor].
Qed.

Lemma crew_given w ws ws' : crew w ws → given ws ws' → crew w ws'.
Proof.
  intros Hc [->|(v & d & ->)]; [done|]. apply crew_alter; [done|done|]. intros _ l. apply tame_given.
Qed.

(** ** Steps towards the answers *)

(** Islands whose jobs stay, while answers may come. *)
Definition goes_on (ks ks' : gmap string island_link) : Prop :=
  submitted <$> ks' = submitted <$> ks ∧
  ∀ i k k', ks !! i = Some k → ks' !! i = Some k' → (length k.(answered) ≤ length k'.(answered))%nat.

Definition history (k : island_link) : list bytes * list bytes := (k.(submitted), k.(answered)).

Lemma goes_on_same ks ks' : history <$> ks' = history <$> ks → goes_on ks ks'.
Proof.
  intros E. split.
  - assert (∀ m : gmap string island_link, submitted <$> m = fst <$> (history <$> m)) as Hf.
    { intros m. rewrite <- map_fmap_compose. done. }
    by rewrite !Hf, E.
  - intros i k k' Hk Hk'. pose proof (f_equal (.!! i) E) as Ei. rewrite !lookup_fmap, Hk, Hk' in Ei.
    injection Ei as _ ->. done.
Qed.

(** The fresh worker can compute what is not answered. *)
Definition capable (s : sys) : Prop :=
  ∀ i k d, s.(islands) !! i = Some k → d ∈ drop (length k.(answered)) k.(submitted) →
    ∃ r, worker_thread_body hardware_concurrency random fresh_mode fresh_size d = Ret r.

Lemma capable_goes_on (s s' : sys) : goes_on s.(islands) s'.(islands) → capable s → capable s'.
Proof.
  intros [Hsub Hans] Hc i k' d Hk' Hd. pose proof (f_equal (.!! i) Hsub) as Ei.
  rewrite !lookup_fmap, Hk' in Ei. destruct (s.(islands) !! i) as [k|] eqn:Hk; [|done]. injection Ei as Ei.
  specialize (Hans i k k' Hk Hk'). apply (Hc i k d Hk). rewrite <- Ei.
  rewrite <- (take_drop (length k'.(answered) - length k.(answered)) (drop _ _)), drop_drop.
  apply elem_of_app. right. by replace (length k.(answered) + _)%nat with (length k'.(answered)) by lia.
Qed.

Record progress (w : string) (s s' : sys) : Prop := {
  pg_ok : sys_ok s';
  pg_crew : crew w s'.(workers);
  pg_total : (total s' < total s)%nat;
  pg_islands : goes_on s.(islands) s'.(islands)
}.

Definition no_pick : picks := {| pick_worker := ""; pick_island := "" |}.

(** Taking a message of a connection off. *)
Definition taken (v : string) (l' : option link) (ws : gmap string link) : gmap string link :=
  match l' with Some l' => <[v := l']> ws | None => delete v ws end.

Lemma next_taken w ws v l m l' :
  crew w ws → ws !! v = Some l → next_of_worker v l = Some (m, l') →
  crew w (taken v l' ws) ∧ m.1.1 = v ∧
  (weight link_weight (taken v l' ws) + (if bool_decide (m.1.2 = WORK_RESULTS) then 2 else 6)
    ≤ weight link_weight ws)%nat ∧
  (m.1.2 = GET_DLL → ∀ l0, taken v l' ws !! v = Some l0 → l0.(alive) = false).
Proof.
  intros Hc Hv Hn. assert (l.(alive) = false ∨ tame l) as Hl.
  { destruct Hc as [(lw & Hw & Ht) Hd]. destruct (decide (v = w)) as [->|Hne]; [right; by simplify_eq|left; by eapply Hd]. }
  unfold next_of_worker in Hn. destruct (hello l) eqn:Hh.
  { injection Hn as <- <-. cbn [taken fst snd]. rewrite bool_decide_eq_false_2 by done. split_and!; [|done| |done].
    - by apply (crew_insert w ws v l).
    - pose proof (weight_insert link_weight ws v l (joined l) Hv). unfold link_weight in *. cbn in *.
      rewrite Hh in *. destruct (alive l); lia. }
  destruct (up l) as [|[t b] q] eqn:Hu.
  { destruct (alive l) eqn:Ha; [done|]. injection Hn as <- <-. cbn [taken fst snd].
    rewrite bool_decide_eq_false_2 by done. split_and!; [|done| |done].
    - by apply (crew_delete w ws v l).
    - rewrite (weight_delete link_weight ws v l Hv). unfold link_weight. rewrite Hh, Ha. lia. }
  injection Hn as <- <-. cbn [taken fst snd].
  pose proof (weight_insert link_weight ws v l (with_up q l) Hv) as Hw. unfold link_weight in Hw at 2 4. cbn in Hw.
  rewrite Hh, Hu in Hw. split_and!; [|done| |].
  - apply (crew_insert w ws v l); [done|done|done|]. intros (Ha & Hd & Hup & Ht). rewrite Hu in Hup.
    inversion_clear Hup. by split.
  - case_bool_decide as Ht; [destruct (alive l); cbn in Hw; lia|].
    destruct Hl as [Ha|(_ & _ & Hup & _)]; [rewrite Ha in Hw; cbn in Hw; lia|].
    rewrite Hu in Hup. inversion_clear Hup. done.
  - intros -> l0. rewrite lookup_insert_eq. intros [= <-]. destruct Hl as [Ha|(_ & _ & Hup & _)]; [done|].
    rewrite Hu in Hup. inversion_clear Hup. done.
Qed.

Lemma history_alter (ks : gmap string island_link) i m :
  history <$> alter (island_deliver m) i ks = history <$> ks.
Proof.
  apply map_eq. intros j. rewrite !lookup_fmap. destruct (decide (j = i)) as [->|Hne].
  - rewrite lookup_alter_eq. by destruct (ks !! i).
  - by rewrite lookup_alter_ne.
Qed.

Lemma goes_on_insert (ks : gmap string island_link) i k k' :
  ks !! i = Some k → k'.(submitted) = k.(submitted) → (length k.(answered) ≤ length k'.(answered))%nat →
  goes_on ks (<[i := k']> ks).
Proof.
  intros Hi Hk Ha. split.
  - apply map_eq. intros j. rewrite !lookup_fmap. destruct (decide (j = i)) as [->|Hne].
    + rewrite lookup_insert_eq, Hi. cbn. by rewrite Hk.
    + by rewrite lookup_insert_ne.
  - intros j k1 k2 H1. destruct (decide (j = i)) as [->|Hne].
    + rewrite lookup_insert_eq. intros [= <-]. by simplify_eq.
    + rewrite lookup_insert_ne by done. intros H2. by simplify_eq.
Qed.

(** The answer of a pending job weighs less than the job. *)
Lemma answered_weight (s : sys) i d r :
  sys_ok s → pending s.(ctl) i d →
  (weight island_weight (alter (island_deliver (WORK_RESULTS, r)) i s.(islands)) + 9
    ≤ weight island_weight s.(islands))%nat.
Proof.
  intros [_ _ _ _ Hi] Hp.
  destruct (pending_island _ _ _ _ _ _ _ Hi Hp) as (k & Hk & _ & Hu & Hd & Hpd).
  destruct Hi as [Hi _]. destruct (Hi i k Hk) as [_ _ [(_ & _ & _ & Hn)|(d0 & _ & Hlen & _)]]; [by destruct (Hn d)|].
  assert (alter (island_deliver (WORK_RESULTS, r)) i s.(islands) =
    <[i := island_deliver (WORK_RESULTS, r) k]> s.(islands)) as ->.
  { apply map_eq. intros j. destruct (decide (j = i)) as [->|Hne].
    - by rewrite lookup_alter_eq, lookup_insert_eq, Hk.
    - by rewrite lookup_alter_ne, lookup_insert_ne. }
  pose proof (weight_insert island_weight s.(islands) i k (island_deliver (WORK_RESULTS, r) k) Hk) as Hw.
  unfold island_weight in Hw at 2 4. cbn in Hw. rewrite Hu, Hd in Hw.
  destruct (decide _) as [|_] in Hw; [lia|]. cbn in Hw. lia.
Qed.

(** The controller takes a worker's message. *)
Lemma serves_worker_progress w v l m l' (s : sys) :
  sys_ok s → crew w s.(workers) → s.(workers) !! v = Some l → next_of_worker v l = Some (m, l') →
  ∃ s', sys_step (ServesWorker 0 no_pick v) s = Some (Ret tt, s') ∧ progress w s s'.
Proof.
  intros Hs Hc Hv Hn. destruct (next_taken _ _ _ _ _ _ Hc Hv Hn) as (Hc1 & Hm1 & Hw1 & Hg).
  pose proof (next_event_ok 0 no_pick _ _ _ _ _ Hs Hv Hn) as Hev.
  set (s1 := set_workers (taken v l' s.(workers)) s).
  assert (sys_step (ServesWorker 0 no_pick v) s = Some (serve (WorkersSocket 0 no_pick m) s1)) as E.
  { unfold sys_step, System.sys_step. rewrite Hv. cbn [mbind option_bind]. rewrite Hn. by destruct l'. }
  destruct (serve (WorkersSocket 0 no_pick m) s1) as [o s'] eqn:Es. rewrite E.
  destruct (step_ok (ServesWorker 0 no_pick v) s o s' Hs I (λ _, ltac:(done)) E) as [-> Hs']. exists s'. split; [done|].
  destruct (serve_changes _ s1 _ _ (so_ctl _ _ _ _ Hs) Hev Es) as (ms & Hms & Hgv & Hi).
  destruct m as [[u t] b]. cbn [fst snd] in *. subst u.
  assert (∀ ws, (deliver_all ms s1).(workers) = ws → crew w ws →
    (weight link_weight ws ≤ weight link_weight (taken v l' s.(workers)))%nat →
    (weight island_weight s'.(islands) + (if bool_decide (t = WORK_RESULTS) then 9 else 0)
      ≤ weight island_weight s.(islands))%nat →
    history <$> s'.(islands) = history <$> s.(islands) → progress w s s') as Hconc.
  { intros ws Hws Hcw Hle Hik Hsub. rewrite Hws in Hgv. split; [done|by eapply crew_given| |by apply goes_on_same].
    apply given_weight in Hgv. unfold total. destruct (bool_decide _); lia. }
  destruct t; cbn [replies] in Hms.
  1, 2, 3, 6, 7: subst ms; apply (Hconc (taken v l' s.(workers))); [done|done|lia|rewrite Hi, bool_decide_eq_false_2 by done; cbn; lia|by rewrite Hi].
  - destruct Hms as (rec & Hrec & ->). apply (Hconc (taken v l' s.(workers))); [done|done|lia| |].
    + rewrite Hi, bool_decide_eq_true_2 by done. cbn. apply (answered_weight s rec.(islandId) rec.(workData)); [done|].
      right. exists v. cbn in Hrec. rewrite Hrec. by destruct rec.
    + rewrite Hi. apply history_alter.
  - destruct Hms as (dbc & ->).
    apply (Hconc (alter (link_deliver (DLL_BINARY, vector_serialize dbc)) v (taken v l' s.(workers)))); [done| | |rewrite Hi, bool_decide_eq_false_2 by done; cbn; lia|by rewrite Hi].
    + apply crew_alter; [done|done|]. intros -> l0 Hl0. exfalso.
      destruct Hc1 as [(lw & Hlw & Ha & _) _]. rewrite (Hg eq_refl lw Hlw) in Ha. done.
    + transitivity (weight link_weight (taken v l' s.(workers)) + 0)%nat; [|lia].
      apply weight_alter. intros l0 Hl0. unfold link_weight. cbn. rewrite (Hg eq_refl l0 Hl0). lia.
Qed.

(** The controller takes an island's request. *)
Lemma serves_island_progress w i k (s : sys) :
  sys_ok s → crew w s.(workers) → s.(islands) !! i = Some k → k.(island_up) ≠ [] →
  ∃ s', sys_step (ServesIsland 0 no_pick i) s = Some (Ret tt, s') ∧ progress w s s'.
Proof.
  intros Hs Hc Hk Hu. destruct (island_up k) as [|d q] eqn:Eu; [done|]. clear Hu.
  set (s1 := set_islands (<[i := with_island_up q k]> s.(islands)) s).
  assert (sys_step (ServesIsland 0 no_pick i) s = Some (serve (IslandsSocket 0 no_pick (i, ALLOCATE_WORK, d)) s1)) as E.
  { unfold sys_step, System.sys_step. rewrite Hk. cbn [mbind option_bind]. by rewrite Eu. }
  destruct (serve _ s1) as [o s'] eqn:Es. rewrite E.
  destruct (step_ok (ServesIsland 0 no_pick i) s o s' Hs I (λ _, ltac:(done)) E) as [-> Hs']. exists s'. split; [done|].
  pose proof (so_islands _ _ _ _ Hs) as Hi.
  edestruct (islands_submission hardware_concurrency random) with
    (pend' := λ j d', pending s.(ctl) j d' ∨ (j = i ∧ d' = d)) as (Hct & Hn & _); [exact Hi|exact Hk|exact Eu|done|].
  destruct (serve_changes (IslandsSocket 0 no_pick (i, ALLOCATE_WORK, d)) s1 _ _ (so_ctl _ _ _ _ Hs) (conj Hct Hn) Es)
    as (ms & -> & Hg & Hisl).
  cbn in Hg, Hisl. split; [done|by eapply crew_given| |].
  - apply given_weight in Hg. unfold total. rewrite Hisl.
    pose proof (weight_insert island_weight s.(islands) i k (with_island_up q k) Hk) as Hw.
    destruct Hi as [Hi0 _].
    destruct (Hi0 i k Hk) as [_ _ [(_ & Hu' & _)|(d0 & _ & Hlen & _ & Hf)]]; [congruence|].
    destruct Hf as [(Hu' & Hd & _)|[(Hu' & _)|(Hu' & _)]]; [|congruence..].
    rewrite Eu in Hu'. injection Hu' as -> ->.
    unfold island_weight in Hw at 2 4. cbn in Hw. rewrite Eu, Hd in Hw.
    destruct (decide _) as [|_] in Hw; [lia|]. cbn in Hw. lia.
  - rewrite Hisl. by apply (goes_on_insert _ _ k).
Qed.

(** An island takes its answer. *)
Lemma island_reads_progress w i k (s : sys) :
  sys_ok s → crew w s.(workers) → s.(islands) !! i = Some k → k.(island_down) ≠ [] →
  ∃ s', sys_step (IslandReads i) s = Some (Ret tt, s') ∧ progress w s s'.
Proof.
  intros Hs Hc Hk Hd. pose proof (so_islands _ _ _ _ Hs) as [Hi0 _].
  destruct (Hi0 i k Hk) as [_ _ [(_ & _ & Hd' & _)|(d & _ & Hlen & _ & Hf)]]; [congruence|].
  destruct Hf as [(_ & Hd' & _)|[(_ & Hd' & _)|(Hu & (r & Hd' & Hr) & _)]]; [congruence..|].
  edestruct (receive_answer hardware_concurrency random int_to_string) as (wc & isl & _ & E & _); [exact Hr|].
  assert (∃ s', sys_step (IslandReads i) s = Some (Ret tt, s') ∧ s'.(workers) = s.(workers) ∧
    ∃ k', s'.(islands) = <[i := k']> s.(islands) ∧ k'.(submitted) = k.(submitted) ∧
      length k'.(answered) = S (length k.(answered))) as (s' & Es & Ew & k' & Ei & Esub & Eans).
  { unfold sys_step, System.sys_step. rewrite Hk. cbn [mbind option_bind]. rewrite Hd', E.
    eexists. split; [done|]. split; [done|]. eexists. split; [done|]. split; [done|].
    cbn. rewrite length_app. cbn. lia. }
  exists s'. split; [done|]. destruct (step_ok (IslandReads i) s _ s' Hs I (λ _, ltac:(done)) Es) as [_ Hs'].
  split; [done|by rewrite Ew| |rewrite Ei; apply (goes_on_insert _ _ k); [done|done|lia]].
  unfold total. rewrite Ew, Ei. pose proof (weight_insert island_weight s.(islands) i k k' Hk) as Hw.
  unfold island_weight in Hw at 2 4. rewrite Esub, Eans, decide_False, decide_True, Hu, Hd' in Hw by lia.
  cbn in Hw. lia.
Qed.

(** ** The worker *)

(** What an event of the worker does to its connection. *)
Lemma process_progress w l a e q p' (s : sys) :
  sys_ok s → crew w s.(workers) → s.(workers) !! w = Some l → l.(alive) = true → label_ok a →
  worker_exec hardware_concurrency random e l.(proc) = (Ret tt, p') →
  sys_step a s = Some (step_worker_process hardware_concurrency random w (with_down q l) e s) →
  let l' := {| proc := p'; alive := true; hello := l.(hello);
               up := l.(up) ++ drop (length l.(proc).(to_controller)) p'.(to_controller); down := q |} in
  tame l' → (link_weight l' < link_weight l)%nat →
  ∃ s', sys_step a s = Some (Ret tt, s') ∧ progress w s s'.
Proof.
  intros Hs Hc Hw Ha Hl He Hstep l' Ht Hlt. rewrite Hstep. unfold step_worker_process in *.
  cbn [with_down proc hello up down] in *. rewrite He in Hstep |- *. eexists. split; [done|].
  destruct (step_preserves hardware_concurrency random int_to_string config_ok _ _ _ _ Hs Hl Hstep) as [_ Hs'].
  split; [done| | |by apply goes_on_same].
  - by apply (crew_insert w s.(workers) w l).
  - unfold total. cbn [set_workers workers islands].
    pose proof (weight_insert link_weight s.(workers) w l l' Hw). fold l'. lia.
Qed.

(** The fresh worker's current job is an island's unanswered one. *)
Lemma current_job_unanswered w l d (s : sys) :
  sys_ok s → s.(workers) !! w = Some l → l.(alive) = true → unanswered l.(proc) = [d] →
  ∃ i k, s.(islands) !! i = Some k ∧ d ∈ drop (length k.(answered)) k.(submitted).
Proof.
  intros [_ _ Hl _ Hi] Hw Ha Hu. destruct (Hl w l Hw) as (js & n & rs & Hok).
  destruct (computing_job _ _ _ _ _ _ _ _ _ _ Hok Ha Hu) as (r & Hm & Hr).
  assert (pending s.(ctl) r.(islandId) d) as Hp by (right; exists w; rewrite Hm; destruct r; cbn in *; congruence).
  destruct (pending_island _ _ _ _ _ _ _ Hi Hp) as (k & Hk & _ & _ & _ & Hpd). exists r.(islandId), k. split; [done|].
  destruct Hi as [Hi _]. destruct (Hi _ k Hk) as [_ _ [(_ & _ & _ & Hn)|(d0 & Hs & Hlen & _ & Hf)]]; [by destruct (Hn d)|].
  destruct Hf as [(_ & _ & Hn)|[(_ & _ & He)|(_ & _ & Hn)]]; [by destruct (Hn d)| |by destruct (Hn d)].
  assert (d = d0) as -> by by apply He. rewrite Hs, drop_app_length' by (rewrite length_take; lia). by left.
Qed.

Lemma thread_ends_progress w l d (s : sys) :
  sys_ok s → capable s → crew w s.(workers) → s.(workers) !! w = Some l → tame l →
  l.(proc).(_workerThread) = Computing d →
  ∃ s', sys_step (WorkerSteps w ThreadEnds) s = Some (Ret tt, s') ∧ progress w s s'.
Proof.
  intros Hs Hcap Hc Hw (Ha & Hd & Hu & Ht & Hcm & Hcs) Hth. rewrite Hth in Ht.
  assert (sys_step (WorkerSteps w ThreadEnds) s =
    Some (step_worker_process hardware_concurrency random w (with_down l.(down) l) ThreadEnds s)) as E.
  { unfold sys_step, System.sys_step. rewrite Hw. cbn [mbind option_bind enabled]. rewrite Ha, Hth.
    by destruct l. }
  destruct (current_job_unanswered w l d s Hs Hw Ha) as (i & k & Hk & Hin); [unfold unanswered; by rewrite Hth|].
  destruct (Hcap i k d Hk Hin) as [r Hr].
  eapply (process_progress w l (WorkerSteps w ThreadEnds) ThreadEnds l.(down)); [done..| |exact E| |].
  - unfold worker_exec. rewrite bind_run. cbn [get_state]. rewrite Hth, Hcm, Hcs, Hr. reflexivity.
  - cbn. rewrite drop_all, app_nil_r. split_and!; [done|done|done| |done|done]. exists r. by rewrite Ht.
  - unfold link_weight. cbn. rewrite drop_all, app_nil_r, Ha, Hth. cbn. lia.
Qed.

Lemma thread_joined_progress w l d (s : sys) :
  sys_ok s → crew w s.(workers) → s.(workers) !! w = Some l → tame l →
  l.(proc).(_workerThread) = Finished d →
  ∃ s', sys_step (WorkerSteps w ThreadSocket) s = Some (Ret tt, s') ∧ progress w s s'.
Proof.
  intros Hs Hc Hw (Ha & Hd & Hu & Ht & Hcf) Hth. rewrite Hth in Ht. destruct Ht as [r Hr].
  assert (sys_step (WorkerSteps w ThreadSocket) s =
    Some (step_worker_process hardware_concurrency random w (with_down l.(down) l) ThreadSocket s)) as E.
  { unfold sys_step, System.sys_step. rewrite Hw. cbn [mbind option_bind enabled]. rewrite Ha, Hth, Hr.
    by destruct l. }
  eapply (process_progress w l); [done..| |exact E| |].
  - unfold worker_exec. rewrite bind_run. cbn [get_state]. rewrite Hr. rewrite bind_run. cbn [modify].
    cbn [_handle_Thread_Socket_Msg]. rewrite bind_run. unfold join_worker_thread. rewrite bind_run.
    cbn [get_state _workerThread set_thread_inbox]. rewrite Hth. reflexivity.
  - cbn. rewrite drop_app_length. split; [done|]. split; [done|]. split; [|done].
    apply Forall_app. by split; [|repeat constructor].
  - unfold link_weight. cbn. rewrite drop_app_length, Ha, Hth, length_app. cbn. lia.
Qed.

Lemma job_read_progress w l (s : sys) :
  sys_ok s → crew w s.(workers) → s.(workers) !! w = Some l → tame l → l.(down) ≠ [] →
  ∃ s', sys_step (WorkerReads w) s = Some (Ret tt, s') ∧ progress w s s'.
Proof.
  intros Hs Hc Hw (Ha & Hd & Hu & Ht & Hcf) Hne. destruct (down l) as [|[t d] q] eqn:Ed; [done|].
  inversion_clear Hd as [|? ? Hd1 Hq]. cbn in Hd1. subst t.
  destruct (so_links _ _ _ _ Hs w l Hw) as (js & n & rs & Hok).
  pose proof (alloc_finds_rest _ _ _ _ _ _ _ _ _ _ _ Hok Ha Ed) as Hth. rewrite Hth in Ht.
  eapply (process_progress w l (WorkerReads w) (WorkerSocket (ALLOCATE_WORK, d)) q); [done..| | | |].
  - rewrite exec_worker_socket. cbn. unfold _start_worker_thread. rewrite bind_run. cbn [get_state].
    rewrite decide_True by done. reflexivity.
  - unfold sys_step, System.sys_step. rewrite Hw. cbn [mbind option_bind]. by rewrite Ha, Ed.
  - cbn. rewrite drop_all, app_nil_r. by split.
  - unfold link_weight. cbn. rewrite drop_all, app_nil_r, Ha, Hth, Ed. cbn. lia.
Qed.

(** ** Recovery *)

Definition all_answered (s : sys) : Prop :=
  ∀ i k, s.(islands) !! i = Some k → length k.(submitted) = length k.(answered).

(** With nothing on its way and the worker at rest, nothing is pending. *)
Lemma at_rest_answered w l (s : sys) :
  sys_ok s → (∀ v l, s.(workers) !! v = Some l → v = w) → s.(workers) !! w = Some l → tame l →
  l.(hello) = false → l.(up) = [] → l.(down) = [] → l.(proc).(_workerThread) = NotJoinable →
  map_Forall (λ _ k, k.(island_up) = [] ∧ k.(island_down) = []) s.(islands) → all_answered s.
Proof.
  intros Hs Hone Hw (Ha & _ & _ & Hti & _) Hh Hu Hd Ht Hisl i k Hk. rewrite Ht in Hti.
  destruct (Hisl i k Hk) as [Hiu Hid]. destruct Hs as [Hinv Hst Hl Hc [Hi _]].
  destruct (Hi i k Hk) as [_ _ [(He & _)|(d & _ & _ & _ & Hf)]]; [done|exfalso].
  destruct Hf as [(E & _)|[(_ & _ & Hp)|(_ & (r & E & _) & _)]]; [congruence| |congruence].
  destruct (finish_one s.(ctl) Hinv) as (v & rec & Hv).
  { exists i, d. by apply Hp. }
  { exists w. apply Hc. by exists l. }
  assert (v = w) as ->.
  { assert (v ∈ (worker_repo s.(ctl)).(_connectedWorkers)) as Hcv.
    { apply (inv_connected _ (proj1 Hinv)). right. by eexists. }
    apply Hc in Hcv as (lv & Hlv & _). by eapply Hone. }
  destruct (Hl w l Hw) as (js & n & rs & [Hj Hn _ _ _ _ _ _ Hal]). rewrite Hv in Hj.
  destruct Hj as (js0 & -> & Hl0). destruct (Hal Ha) as (-> & Hdr & _ & _ & gv & Hwi & Hjs).
  rewrite Hu in Hdr. rewrite Hd in Hjs. cbn [allocs omap list_omap] in Hjs. rewrite app_nil_r in Hjs.
  destruct Hwi as [(dn & Hdn & Hf) _ _ _]. unfold unanswered in Hdn. rewrite Ht, app_nil_r in Hdn.
  unfold answers in Hf. rewrite Hti, app_nil_r in Hf. apply Forall2_length in Hf.
  apply (f_equal length) in Hjs. rewrite Hdn, length_app in Hjs. cbn in Hjs.
  apply (f_equal length) in Hdr. rewrite length_drop in Hdr. cbn in Hdr. lia.
Qed.

Lemma recovery_step w (s : sys) :
  sys_ok s → capable s → crew w s.(workers) →
  all_answered s ∨ ∃ a s', quiet a ∧ sys_step a s = Some (Ret tt, s') ∧ progress w s s'.
Proof.
  intros Hs Hcap Hc.
  destruct (decide (map_Forall (λ _ k, k.(island_up) = []) s.(islands))) as [Hiu|Hiu].
  2: { apply map_not_Forall in Hiu as (i & k & Hk & Hu); [|intros; apply _]. right. eexists (ServesIsland _ _ _).
       destruct (serves_island_progress w i k s Hs Hc Hk Hu) as (s' & ? & ?). by exists s'. }
  destruct (decide (map_Forall (λ _ k, k.(island_down) = []) s.(islands))) as [Hid|Hid].
  2: { apply map_not_Forall in Hid as (i & k & Hk & Hd); [|intros; apply _]. right. eexists (IslandReads _).
       destruct (island_reads_progress w i k s Hs Hc Hk Hd) as (s' & ? & ?). by exists s'. }
  destruct (decide (map_Forall (λ v _, v = w) s.(workers))) as [Hone|Hone].
  2: { apply map_not_Forall in Hone as (v & l & Hv & Hne); [|intros; apply _].
       destruct Hc as [Hw Hd]. pose proof (Hd v l Hne Hv) as Ha.
       assert (∃ m l', next_of_worker v l = Some (m, l')) as (m & l' & Hn).
       { unfold next_of_worker. rewrite Ha. destruct (hello l); [by eexists _, _|].
         destruct (up l) as [|[t b] q]; by eexists _, _. }
       right. eexists (ServesWorker _ _ _).
       destruct (serves_worker_progress w v l m l' s) as (s' & ? & ?); [done|by split|done|done|].
       by exists s'. }
  pose proof Hc as [(l & Hw & Ht) _].
  destruct (hello l) eqn:Hh.
  { right. eexists (ServesWorker _ _ _).
    destruct (serves_worker_progress w w l ((w, WORKER_JOIN), []) (Some (joined l)) s) as (s' & ? & ?); [done..| |by exists s'].
    unfold next_of_worker. by rewrite Hh. }
  destruct (up l) as [|[t b] q] eqn:Hu.
  2: { right. eexists (ServesWorker _ _ _).
       destruct (serves_worker_progress w w l ((w, t), b) (Some (with_up q l)) s) as (s' & ? & ?); [done..| |by exists s'].
       unfold next_of_worker. by rewrite Hh, Hu. }
  destruct (_workerThread (proc l)) as [|d|n d|d] eqn:Hth.
  - destruct (decide (l.(down) = [])) as [Hd|Hd].
    + left. apply (at_rest_answered w l s Hs Hone Hw Ht Hh Hu Hd Hth). intros i k Hk. split; [by eapply Hiu|by eapply Hid].
    + right. eexists (WorkerReads _). destruct (job_read_progress w l s Hs Hc Hw Ht Hd) as (s' & ? & ?). by exists s'.
  - right. eexists (WorkerSteps _ _).
    destruct (thread_ends_progress w l d s Hs Hcap Hc Hw Ht Hth) as (s' & ? & ?). by exists s'.
  - destruct Ht as (_ & _ & _ & Ht & _). by rewrite Hth in Ht.
  - right. eexists (WorkerSteps _ _).
    destruct (thread_joined_progress w l d s Hs Hc Hw Ht Hth) as (s' & ? & ?). by exists s'.
Qed.

Lemma recovery w n (s : sys) :
  (total s ≤ n)%nat → sys_ok s → capable s → crew w s.(workers) →
  ∃ ls s', sys_run s ls s' ∧ Forall quiet ls ∧ all_answered s' ∧ submitted <$> s'.(islands) = submitted <$> s.(islands).
Proof.
  revert s. induction n as [|n IH]; intros s Hn Hs Hcap Hc;
    (destruct (recovery_step w s Hs Hcap Hc) as [Hd|(a & s1 & Hq & He & [Hs1 Hc1 Ht1 Hisl])];
     [exists [], s; split_and!; [constructor|constructor|done|done]|]); [lia|].
  destruct (IH s1) as (ls & s' & Hr & Hqs & Hall & Hsub'); [lia|done|by eapply capable_goes_on|done|].
  exists (a :: ls), s'. destruct Hisl as [Hsub _]. split_and!; [|by constructor|done|congruence].
  econstructor; [|done|done]. by destruct a.
Qed.

Lemma joining_ok w p (s : sys) :
  sys_ok s → label_ok (WorkerJoins w p) → s.(workers) !! w = None →
  sys_step (WorkerJoins w p) s = Some (Ret tt, set_workers (<[w := new_link p]> s.(workers)) s) ∧
  sys_ok (set_workers (<[w := new_link p]> s.(workers)) s).
Proof.
  intros Hs Hl Hw.
  assert (sys_step (WorkerJoins w p) s = Some (Ret tt, set_workers (<[w := new_link p]> s.(workers)) s)) as E.
  { unfold sys_step, System.sys_step. by rewrite Hw. }
  split; [exact E|]. by eapply step_preserves.
Qed.
End Recovery.

Section FreshWorker.
Context {PG : Pagmo} {PS : PagmoSort} {SS : StdSort} {PE : PagmoEvolve}.
Context {PI : PagmoIsland} {PIL : PagmoIslandLaws}.
Context {R : Type} {LS : LibraryStore R} {LL : LibraryStoreLaws R}.
Context {AW : Archive (work_container algorithm population)}
        {AQ : Archive get_dll_request} {AD : Archive dll_binary_container} {AI : Archive string}
        {AS : Archive (gmap string (work_stats * gmap string work_stats))}.
Context {AWL : ArchiveLaws (work_container algorithm population)}
        {AQL : ArchiveLaws get_dll_request} {ADL : ArchiveLaws dll_binary_container}.
Context (hardware_concurrency random : Z) (int_to_string : Z → string).
Context (config_ok : worker_mode → Z → Prop).

Abbreviation sys := (system (R := R)).
Abbreviation sys_run := (sys_run (R := R) hardware_concurrency random int_to_string config_ok).

End FreshWorker.
