(* ===== verification/Deployment.v ===== *)
(** * The solver in the running system

    The solver's thread makes its plan while the system runs: what it reads of
    the statistics are the statistics of the controller at that moment
    ([running_environment]). The islands it starts then are islands of the
    system: their jobs are computed by workers, cycle after cycle, and the
    individual the solver returns is the best of what the islands hold at the
    end. *)
From S2P Require Import Prelude Doubles DoubleOrder WorkerInfo Messages Sockets Settings Pagmo.
From S2P Require Import PopulationTools WorkerLogic Worker WorkPlan Solver Controller ControllerSpec Grants.
From S2P Require Import Uuid Island System SystemSpec SystemTheorems.

(** ** What handlers do to the statistics *)

Section Statistics.
Context {PG : Pagmo} {R : Type} {LS : LibraryStore R}.
Context {AW : Archive (work_container algorithm population)}
        {AQ : Archive get_dll_request} {AD : Archive dll_binary_container}
        {AS : Archive (gmap string (work_stats * gmap string work_stats))}.

Abbreviation controller := (distributed_controller R).

(** Only operations of the repository change it, returning or throwing. *)
Definition repo_steps {A} (m : M controller A) : Prop :=
  ∀ c o c', m c = (o, c') → ∃ ops, worker_repo c' = repo_run ops (worker_repo c).

Lemma repo_run_app ops1 ops2 r : repo_run (ops1 ++ ops2) r = repo_run ops2 (repo_run ops1 r).
Proof. unfold repo_run. by rewrite foldl_app. Qed.

Lemma repo_steps_bind {A B} (m : M controller A) (k : A → M controller B) :
  repo_steps m → (∀ a, repo_steps (k a)) → repo_steps (m ≫= k).
Proof.
  intros Hm Hk c o c'. rewrite bind_run. destruct (m c) as [[a|e|f] c1] eqn:E; intros H.
  - destruct (Hm _ _ _ E) as [ops1 E1], (Hk a _ _ _ H) as [ops2 E2].
    exists (ops1 ++ ops2). by rewrite repo_run_app, <- E1.
  - injection H as _ <-. by eapply Hm.
  - injection H as _ <-. by eapply Hm.
Qed.

Lemma repo_steps_same {A} (m : M controller A) :
  (∀ c o c', m c = (o, c') → worker_repo c' = worker_repo c) → repo_steps m.
Proof. intros Hm c o c' H. exists []. by eapply Hm. Qed.

Lemma repo_steps_ret {A} (a : A) : repo_steps (mret a).
Proof. apply repo_steps_same. by intros c o c' [= _ <-]. Qed.

Lemma repo_steps_get : repo_steps get_state.
Proof. apply repo_steps_same. by intros c o c' [= _ <-]. Qed.

Lemma repo_steps_lift {A} (x : outcome A) : repo_steps (lift x).
Proof. apply repo_steps_same. by intros c o c' [= _ <-]. Qed.

Lemma repo_steps_throw {A} e : repo_steps (throw e : M controller A).
Proof. apply repo_steps_same. by intros c o c' [= _ <-]. Qed.

Lemma repo_steps_crash {A} f : repo_steps (crash f : M controller A).
Proof. apply repo_steps_same. by intros c o c' [= _ <-]. Qed.

Lemma repo_steps_modify f : (∀ c, worker_repo (f c) = worker_repo c) → repo_steps (modify f).
Proof. intros Hf. apply repo_steps_same. intros c o c' [= _ <-]. apply Hf. Qed.

Lemma repo_steps_registry {A} (m : M R A) : repo_steps (registry_call m).
Proof.
  apply repo_steps_same. intros c o c'. unfold registry_call, zoom. destruct (m _). by intros [= _ <-].
Qed.

(** A call through the settings: it saves first, and may fail there. *)
Lemma repo_steps_call op : repo_steps (repo_call (repo_exec op)).
Proof.
  intros c o c'. unfold repo_call, zoom, settings_call. rewrite bind_run. cbn [get_state].
  destruct (_ctl_settings c) as [s d] eqn:Es. cbn [fst snd]. rewrite bind_run.
  assert (worker_repo c = s.(_settings).(workerInfo)) as Hr by (unfold worker_repo; by rewrite Es).
  destruct (_autoSave s); unfold _save_to_file.
  1: destruct (writable d); [|cbn; intros [= _ <-]; exists []; by rewrite Hr].
  all: unfold zoom; cbn; destruct (repo_exec op (workerInfo (_settings s))) as [o2 r] eqn:Er; intros [= _ <-]; exists [op];
    rewrite Hr; unfold worker_repo, repo_run; cbn; by rewrite Er.
Qed.

Create HintDb steps discriminated.
Hint Resolve repo_steps_ret repo_steps_get repo_steps_lift repo_steps_throw repo_steps_crash repo_steps_registry : steps.

Ltac repo_steps :=
  repeat first
    [ solve [auto with steps]
    | eapply (repo_steps_call (Joined _)) | eapply (repo_steps_call (Left _))
    | eapply (repo_steps_call (Started _ _)) | eapply (repo_steps_call (WorkerInfo.Finished _ _ _ _))
    | apply repo_steps_bind; [|intros ?]
    | apply repo_steps_modify; done
    | case_decide
    | case_match ].

Lemma allocate_worker_steps now p island data : repo_steps (_allocate_worker_to_island now p island data).
Proof. unfold _allocate_worker_to_island. repo_steps. Qed.

Lemma allocate_island_steps now p island data : repo_steps (_allocate_island_work now p island data).
Proof.
  unfold _allocate_island_work. apply repo_steps_bind; [repo_steps|intros c].
  case_decide; [repo_steps|apply allocate_worker_steps].
Qed.

Lemma add_free_steps now p w : repo_steps (_add_free_worker now p w).
Proof.
  unfold _add_free_worker, _pop_waiting_island. apply repo_steps_bind; [repo_steps|intros _].
  apply repo_steps_bind; [repo_steps|intros c]. case_decide; [repo_steps|].
  apply repo_steps_bind; [repo_steps|intros [i d]]. apply allocate_worker_steps.
Qed.

Lemma handle_event_steps e : repo_steps (handle_event (AQ := AQ) (AD := AD) e).
Proof.
  destruct e as [now p [[w t] b]|now p [[i t] b]]; cbn [handle_event].
  - destruct t; cbn [_handle_Workers_Socket_Msg]; try apply repo_steps_ret.
    + unfold handle_worker_join. apply repo_steps_bind; [repo_steps|intros c]. case_decide; [repo_steps|].
      apply repo_steps_bind; [repo_steps|intros _]. apply add_free_steps.
    + unfold handle_worker_leave. do 3 (apply repo_steps_bind; [repo_steps|intros ?]).
      case_match; [|repo_steps]. apply repo_steps_bind; [repo_steps|intros _]. apply allocate_island_steps.
    + unfold handle_work_results. do 3 (apply repo_steps_bind; [repo_steps|intros ?]).
      case_match; [|repo_steps]. do 2 (apply repo_steps_bind; [repo_steps|intros _]). apply add_free_steps.
    + unfold handle_get_dll. repo_steps.
  - destruct t; cbn [_handle_Islands_Socket_Msg]; try apply repo_steps_ret. apply allocate_island_steps.
Qed.
End Statistics.

(** ** Populations that go through a worker *)

Section Answers.
Context {PG : Pagmo} {PS : PagmoSort} {SS : StdSort} {PE : PagmoEvolve}.
Context {PL : PagmoLaws} {PSL : PagmoSortLaws} {PEL : PagmoEvolveLaws}.
Context {AW : Archive (work_container algorithm population)}
        {AWL : ArchiveLaws (work_container algorithm population)}.
Context (hardware_concurrency random : Z).

Lemma set_x_ret i x p p' :
  set_x i x p = Ret p' → length (get_x p') = length (get_x p) ∧ get_problem p' = get_problem p.
Proof.
  intros E. destruct (decide (i < length (get_x p))%nat) as [Hi|Hi].
  2: { destruct (set_x_out_of_range i x p) as [m E']; [lia|congruence]. }
  destruct (compatible (get_problem p) x) eqn:Hc.
  2: { destruct (set_x_incompatible i x p Hi Hc) as [m E']. congruence. }
  destruct (set_x_in_range i x p Hi Hc) as (q & E' & Hx & _ & Hp & _).
  rewrite E in E'. injection E' as <-. by rewrite Hx, length_insert.
Qed.

Lemma fill_population_ret i idxs all p p' :
  fill_population i idxs all p = Ret p' → length (get_x p') = length (get_x p) ∧ get_problem p' = get_problem p.
Proof.
  revert i p. induction idxs as [|idx idxs IH]; intros i p; [by intros [= <-]|]. cbn [fill_population].
  destruct (index all idx) as [x|e|f]; [|done..]. cbn [mbind outcome_bind].
  destruct (set_x i x p) as [q|e|f] eqn:E; [|done..]. cbn [mbind outcome_bind].
  intros [-> ->]%IH. by eapply set_x_ret.
Qed.

(** Enough candidates: as many are selected as asked for. *)
Lemma indexes_length prob fits N idx :
  get_best_N_individuals_indexes prob fits N = Ret idx → (N ≤ length fits)%nat → length idx = N.
Proof.
  unfold get_best_N_individuals_indexes. intros E HN. destruct (1 <? get_nobj prob).
  - destruct (sort_population_mo fits) as [s|e|f] eqn:Es; [|done..]. injection E as <-.
    apply sort_mo_permutation, permutation_length in Es. rewrite length_take. lia.
  - unfold select_best_N_so in E. assert (∀ s, length (resize N s) = N) as Hr.
    { intros s. unfold resize. rewrite length_app, length_take, length_replicate. lia. }
    destruct (get_nc prob =? 0).
    + destruct (_ || _); [|done]. injection E as <-. apply Hr.
    + destruct (sort_population_con _ _ _); [|done..]. injection E as <-. apply Hr.
Qed.

Lemma new_population_ret prob xs fits N seed r p :
  select_best_N_into_new_population prob xs fits N seed r = Ret p → (N ≤ length fits)%nat →
  population_size p = Z.of_nat N ∧ get_problem p = prob.
Proof.
  unfold select_best_N_into_new_population. intros E HN.
  destruct (get_best_N_individuals_indexes prob fits N) as [idx|e|f] eqn:Ei; [|done..].
  apply indexes_length in Ei; [|done]. unfold mbind, outcome_bind, build_new_population in E.
  apply fill_population_ret in E as [Hl Hp]. unfold population_size. rewrite Hl, Hp.
  rewrite population_new_problem. split; [|done].
  pose proof (population_new_size prob (Z.of_nat (length idx)) (default r seed)) as Hs.
  unfold population_size in Hs. rewrite Hs by lia. by rewrite Ei.
Qed.

(** The archipelago worker's answer, when there is one. *)
Lemma archipelago_answer_ret mn a p cycles wc :
  split_config mn (population_size p) (_compute_optimal_island_count hardware_concurrency) →
  population_size p mod 4 = 0 →
  _archipelago_based_worker hardware_concurrency mn random a p cycles = Ret wc →
  population_size (Messages.pop wc) = population_size p ∧ get_problem (Messages.pop wc) = get_problem p.
Proof.
  intros Hc H4. unfold _archipelago_based_worker.
  destruct (_split_population_for_islands _ _ _) as [isls|e|f] eqn:Es; [|done..]. cbn [mbind outcome_bind].
  destruct (archipelago_evolve a isls cycles) as [archi|e|f] eqn:Ea; [|done..]. cbn [mbind outcome_bind].
  destruct (islands_cover _ _ _ _ Hc H4 Es) as (Hne & Hp & Hcov).
  apply archipelago_evolve_sizes in Ea as [Hsz Hpr]. apply sizes_lengths in Hsz.
  rewrite <- Hsz, <- merged_length in Hcov.
  pose proof (merge_populations_parallel archi.*2) as Hpar.
  destruct (merge_populations archi.*2) as [xs fits]. cbn [fst snd] in *.
  destruct (index archi 0) as [[a1 p1]|e|f] eqn:Ei; [|done..]. cbn [mbind outcome_bind fst snd].
  destruct (select_best_N_into_new_population _ _ _ _ _ _) as [q|e|f] eqn:Eq; [|done..].
  intros [= <-]. cbn. apply new_population_ret in Eq as [Hs Hq]; [|unfold population_size; lia].
  split; [rewrite Hs; unfold population_size; lia|]. rewrite Hq.
  destruct archi as [|[a2 p2] archi]; [done|]. injection Ei as -> ->.
  destruct isls as [|p0 isls]; [done|]. inversion_clear Hp. cbn in Hpr. injection Hpr as -> _. done.
Qed.

(** What a worker computes from a job has the job's problem and size. *)
Lemma body_keeps mode mn d r (wc wc' : work_container algorithm population) :
  (mode = ARCHIPELAGO_BASED → split_config mn (population_size (Messages.pop wc))
     (_compute_optimal_island_count hardware_concurrency)) →
  population_size (Messages.pop wc) mod 4 = 0 →
  worker_thread_body hardware_concurrency random mode mn d = Ret r →
  vector_deserialize d = Ret wc → vector_deserialize r = Ret wc' →
  population_size (Messages.pop wc') = population_size (Messages.pop wc) ∧
  get_problem (Messages.pop wc') = get_problem (Messages.pop wc).
Proof.
  intros Hc H4 Hb Hd Hr. unfold worker_thread_body in Hb. rewrite Hd in Hb. cbn [mbind outcome_bind] in Hb.
  destruct mode.
  - unfold _single_threaded_worker in Hb. destruct (algorithm_evolve _ _) as [q|e|f] eqn:E; [|done..].
    cbn in Hb. injection Hb as <-. rewrite deserialize_serialize in Hr. injection Hr as <-. cbn.
    by apply algorithm_evolve_size in E.
  - destruct (_archipelago_based_worker _ _ _ _ _ _) as [res|e|f] eqn:E; [|done..]. cbn in Hb.
    injection Hb as <-. rewrite deserialize_serialize in Hr. injection Hr as <-.
    by apply archipelago_answer_ret in E; [|apply Hc|].
Qed.
End Answers.

(** ** The cycles of an island *)

Section Deployment.
Context {PG : Pagmo} {PS : PagmoSort} {SS : StdSort} {PE : PagmoEvolve}.
Context {PI : PagmoIsland} {PA : PagmoArchipelago}.
Context {PL : PagmoLaws} {PSL : PagmoSortLaws} {PEL : PagmoEvolveLaws}.
Context {PIL : PagmoIslandLaws} {PAL : PagmoArchipelagoLaws}.
Context {R : Type} {LS : LibraryStore R} {LL : LibraryStoreLaws R}.
Context {AW : Archive (work_container algorithm population)}
        {AQ : Archive get_dll_request} {AD : Archive dll_binary_container} {AI : Archive string}
        {AS : Archive (gmap string (work_stats * gmap string work_stats))}.
Context {AWL : ArchiveLaws (work_container algorithm population)}
        {AQL : ArchiveLaws get_dll_request} {ADL : ArchiveLaws dll_binary_container}.
Context (hardware_concurrency random : Z) (int_to_string : Z → string).
Context (config_ok : worker_mode → Z → Prop).

Abbreviation container := (work_container algorithm population).
Abbreviation answers_job := (answers_job hardware_concurrency random config_ok).
Abbreviation sys := (system (R := R)).
Abbreviation sys_step := (sys_step (R := R) hardware_concurrency random int_to_string).
Abbreviation sys_ok := (sys_ok (R := R) hardware_concurrency random config_ok).
Abbreviation sys_run := (sys_run (R := R) hardware_concurrency random int_to_string config_ok).
Abbreviation label_ok := (label_ok config_ok).

(** [evolved u h0 js rs h]: from [h0], the island with the UDI [u] submitted the
    jobs [js], each the request it makes of what it held then, and took the
    answers [rs], each computed from its job; it holds [h]. *)
Inductive evolved (u : distributed_island) (h0 : island) : list bytes → list bytes → island → Prop :=
  | evolved_none : evolved u h0 [] [] h0
  | evolved_cycle js rs h d r (wc : container) h' :
      evolved u h0 js rs h → request (new_island u h) = Ret d → answers_job d r →
      vector_deserialize r = Ret wc → get_population h' = wc.(pop) → get_algorithm h' = wc.(algo) →
      evolved u h0 (js ++ [d]) (rs ++ [r]) h'.

(** The archipelago workers of the system can split [n] individuals. *)
Definition fits (n : Z) : Prop :=
  n mod 4 = 0 ∧ ∀ mode mn, config_ok mode mn → mode = ARCHIPELAGO_BASED →
    split_config mn n (_compute_optimal_island_count hardware_concurrency).

Lemma request_container u h d :
  request (new_island u h) = Ret d →
  ∃ wc : container, vector_deserialize d = Ret wc ∧ wc.(pop) = get_population h.
Proof.
  unfold request. cbn. unfold _load_pagmo_pop_and_algo. destruct (_ <? _); [done|]. destruct (_ <? _); [done|].
  intros [= <-]. eexists. by rewrite deserialize_serialize.
Qed.

(** Evolving keeps the problem and the size of the population. *)
Lemma evolved_keeps u h0 js rs h :
  evolved u h0 js rs h → fits (population_size (get_population h0)) →
  get_problem (get_population h) = get_problem (get_population h0) ∧
  population_size (get_population h) = population_size (get_population h0).
Proof.
  induction 1 as [|js rs h d r wc h' _ IH Hd (mode & mn & Hcf & Hb) Hwc Hp _]; intros Hf; [done|].
  destruct (IH Hf) as [Hpr Hsz]. apply request_container in Hd as (wd & Hd & Hpd). destruct Hf as [H4 Hf].
  destruct (body_keeps hardware_concurrency random mode mn d r wd wc) as [Hs Hq]; try done.
  - rewrite Hpd, Hsz. intros Hm. by apply (Hf mode mn).
  - by rewrite Hpd, Hsz.
  - rewrite Hp, Hq, Hs, Hpd. done.
Qed.

(** An island of the system, started as [h0]. *)
Record chained (u : distributed_island) (h0 : island) (k : island_link) : Prop := {
  ch_udi : k.(udi) = u;
  ch_evolved : evolved u h0 (take (length k.(answered)) k.(submitted)) k.(answered) k.(host);
  ch_current : ∀ d, k.(submitted) = take (length k.(answered)) k.(submitted) ++ [d] → request k = Ret d
}.

(** What a delivery does not change. *)
Definition same_job (k k' : island_link) : Prop :=
  k'.(udi) = k.(udi) ∧ k'.(host) = k.(host) ∧ k'.(submitted) = k.(submitted) ∧ k'.(answered) = k.(answered).

Lemma chained_same u h0 k k' : same_job k k' → chained u h0 k → chained u h0 k'.
Proof.
  intros (Hu & Hh & Hs & Ha) [H1 H2 H3]. split; rewrite ?Hu, ?Hs, ?Ha, ?Hh; [done..|].
  intros d Hd. rewrite <- (H3 d Hd). unfold request. by rewrite Hu, Hh.
Qed.

(** Islands stay, with their jobs. *)
Definition keeps_islands (s s' : sys) : Prop :=
  ∀ i k, s.(islands) !! i = Some k → ∃ k', s'.(islands) !! i = Some k' ∧ same_job k k'.

#[local] Instance keeps_islands_preorder : PreOrder keeps_islands.
Proof.
  split.
  - intros s i k Hk. by exists k.
  - intros s1 s2 s3 H12 H23 i k Hk. destruct (H12 i k Hk) as (k2 & Hk2 & ? & ? & ? & ?).
    destruct (H23 i k2 Hk2) as (k3 & Hk3 & ? & ? & ? & ?). exists k3. split; [done|]. split_and!; congruence.
Qed.

Lemma deliver_keeps (m : sent) (s : sys) : keeps_islands s (deliver m s).
Proof.
  intros i k Hk. destruct m as [w t b|j t b]; cbn; [by exists k|].
  destruct (decide (i = j)) as [->|Hne].
  - rewrite lookup_alter_eq, Hk. by eexists.
  - rewrite lookup_alter_ne by done. by exists k.
Qed.

Lemma deliver_all_keeps ms (s : sys) : keeps_islands s (deliver_all ms s).
Proof.
  unfold deliver_all. revert s. induction ms as [|m ms IH]; intros s; [done|]. cbn [foldl].
  etrans; [apply deliver_keeps|apply IH].
Qed.

Lemma serve_keeps e (s : sys) : keeps_islands s (serve e s).2.
Proof.
  unfold serve. destruct (handle_event e s.(ctl)) as [o c']. cbn [snd].
  etrans; [|apply deliver_all_keeps]. intros i k Hk. by exists k.
Qed.

Lemma serve_statistics e (s : sys) : ∃ ops, worker_repo (serve e s).2.(ctl) = repo_run ops (worker_repo s.(ctl)).
Proof.
  unfold serve. destruct (handle_event e s.(ctl)) as [o c'] eqn:E.
  destruct (handle_event_steps e _ _ _ E) as [ops Hops]. exists ops. rewrite <- Hops. cbn [snd].
  assert (∀ ms (s1 : sys), (deliver_all ms s1).(ctl) = s1.(ctl)) as Hd.
  { unfold deliver_all. induction ms as [|m ms IH]; intros s1; [done|]. cbn [foldl]. rewrite IH. by destruct m. }
  by rewrite Hd.
Qed.

(** Every step changes the statistics by the repository's operations. *)
Lemma step_statistics a (s s' : sys) o :
  sys_step a s = Some (o, s') → ∃ ops, worker_repo s'.(ctl) = repo_run ops (worker_repo s.(ctl)).
Proof.
  intros E. assert (worker_repo s'.(ctl) = worker_repo s.(ctl) → ∃ ops, worker_repo s'.(ctl) = repo_run ops (worker_repo s.(ctl)))
    as Hsame by (intros ->; by exists []).
  destruct a as [w p|w n|w|w e|u h|i|i|now p w|now p i]; cbn in E.
  - destruct (workers s !! w); simplify_eq. by apply Hsame.
  - destruct (workers s !! w) as [l|]; [|done]. cbn in E. destruct (alive l); simplify_eq. by apply Hsame.
  - destruct (workers s !! w) as [l|]; [|done]. cbn in E. destruct (alive l); [|done].
    destruct (down l) as [|m q]; [done|]. unfold step_worker_process in E.
    destruct (worker_exec _ _ _ _) as [[] p]; simplify_eq; by apply Hsame.
  - destruct (workers s !! w) as [l|]; [|done]. cbn in E.
    destruct (alive l), e; try done; destruct (enabled _ _); try done; unfold step_worker_process in E;
      destruct (worker_exec _ _ _ _) as [[] p]; simplify_eq; by apply Hsame.
  - destruct (islands s !! _); simplify_eq. by apply Hsame.
  - destruct (islands s !! i) as [k|]; [|done]. cbn in E. case_decide; [|done].
    destruct (request k); simplify_eq; by apply Hsame.
  - destruct (islands s !! i) as [k|]; [|done]. cbn in E. destruct (island_down k) as [|m q]; [done|].
    destruct (receive_results _ _ _); simplify_eq; by apply Hsame.
  - destruct (workers s !! w) as [l|]; [|done]. cbn in E. destruct (next_of_worker w l) as [[m l']|]; [|done].
    cbn in E. injection E as E. match type of E with serve ?e ?s1 = _ => destruct (serve_statistics e s1) as [ops H] end.
    rewrite E in H. by exists ops.
  - destruct (islands s !! i) as [k|]; [|done]. cbn in E. destruct (island_up k) as [|d q]; [done|].
    injection E as E. match type of E with serve ?e ?s1 = _ => destruct (serve_statistics e s1) as [ops H] end.
    rewrite E in H. by exists ops.
Qed.

Lemma run_statistics (s s' : sys) ls :
  sys_run s ls s' → ∃ ops, worker_repo s'.(ctl) = repo_run ops (worker_repo s.(ctl)).
Proof.
  induction 1 as [s|s a o s1 ls s2 _ E _ [ops2 IH]]; [by exists []|].
  destruct (step_statistics _ _ _ _ E) as [ops1 H1]. exists (ops1 ++ ops2). by rewrite repo_run_app, <- H1.
Qed.

Lemma new_chained u h : chained u h (new_island u h).
Proof. split; cbn; [done|constructor|done]. Qed.

Lemma submits_chained u h0 k d :
  chained u h0 k → length k.(submitted) = length k.(answered) → request k = Ret d → chained u h0 (submits d k).
Proof.
  intros [Hu He _] Hl Hd. split; cbn; [done|by rewrite take_app_le by lia|].
  intros d'. rewrite take_app_le, firstn_all2 by lia. intros [= <-]%app_inv_head. done.
Qed.

(** [run_evolve] takes the answer to its job. *)
Lemma reads_chained (s : sys) o s' i k u h0 :
  sys_ok s → sys_step (IslandReads i) s = Some (o, s') → s.(islands) !! i = Some k → chained u h0 k →
  ∃ k', s'.(islands) = <[i := k']> s.(islands) ∧ chained u h0 k'.
Proof.
  intros Hs E Hk [Hu He Hcur]. cbn in E. rewrite Hk in E. cbn [mbind option_bind] in E.
  destruct (island_down k) as [|m q] eqn:Hd; [done|]. destruct (so_islands _ _ _ _ Hs) as [Hi _].
  destruct (Hi i k Hk) as [_ _ [(_ & _ & Hd' & _)|(d & Hsub & Hlen & _ & Hf)]]; [congruence|].
  destruct Hf as [(_ & Hd' & _)|[(_ & Hd' & _)|(_ & (r & Hd' & Hr) & _)]]; [congruence..|].
  rewrite Hd in Hd'. injection Hd' as -> ->.
  destruct (receive_answer hardware_concurrency random int_to_string config_ok d r k Hr) as (wc & h' & Hwc & E' & Hp & Ha).
  rewrite E' in E. injection E as _ <-. eexists. split; [reflexivity|].
  pose proof (Hcur d Hsub) as Hreq. split; cbn; [done| |].
  - rewrite length_app. cbn. rewrite Nat.add_1_r, <- Hlen, firstn_all, Hsub.
    eapply evolved_cycle; [done| |done|done|done|done]. rewrite <- Hreq. unfold request. cbn. by rewrite Hu.
  - intros d' Hd2. exfalso. apply (f_equal length) in Hd2.
    rewrite !length_app, length_take in Hd2. cbn in Hd2. lia.
Qed.

Lemma step_chained a o (s s' : sys) i k u h0 :
  sys_ok s → sys_step a s = Some (o, s') → s.(islands) !! i = Some k → chained u h0 k →
  ∃ k', s'.(islands) !! i = Some k' ∧ chained u h0 k'.
Proof.
  intros Hs E Hk Hc.
  assert (keeps_islands s s' → ∃ k', s'.(islands) !! i = Some k' ∧ chained u h0 k') as Hsame.
  { intros Hkp. destruct (Hkp i k Hk) as (k' & Hk' & Hj). exists k'. split; [done|by eapply chained_same]. }
  assert (s'.(islands) = s.(islands) → keeps_islands s s') as Heq by (intros He j l Hl; exists l; by rewrite He).
  destruct a as [w p|w n|w|w e|u1 h1|j|j|now p w|now p j].
  - cbn in E. destruct (workers s !! w); simplify_eq. by apply Hsame, Heq.
  - cbn in E. destruct (workers s !! w) as [l|]; [|done]. cbn in E. destruct (alive l); simplify_eq. by apply Hsame, Heq.
  - cbn in E. destruct (workers s !! w) as [l|]; [|done]. cbn in E. destruct (alive l); [|done].
    destruct (down l) as [|m q]; [done|]. unfold step_worker_process in E.
    destruct (worker_exec _ _ _ _) as [[] p]; simplify_eq; by apply Hsame, Heq.
  - cbn in E. destruct (workers s !! w) as [l|]; [|done]. cbn in E.
    destruct (alive l), e; try done; destruct (enabled _ _); try done; unfold step_worker_process in E;
      destruct (worker_exec _ _ _ _) as [[] p]; simplify_eq; by apply Hsame, Heq.
  - cbn in E. destruct (islands s !! _) eqn:Hn; [done|]. injection E as <- <-. exists k. split; [|done]. cbn.
    rewrite lookup_insert_ne; [done|congruence].
  - cbn in E. destruct (islands s !! j) as [l|] eqn:Hj; [|done]. cbn in E. case_decide as Hl; [|done].
    destruct (request l) as [d|e|f] eqn:Hd; simplify_eq; [|by exists k..]. cbn. destruct (decide (i = j)) as [->|Hne].
    + rewrite lookup_insert_eq. simplify_eq. eexists. split; [done|]. by apply submits_chained.
    + rewrite lookup_insert_ne by done. by exists k.
  - destruct (decide (i = j)) as [->|Hne].
    + destruct (reads_chained s _ s' j k u h0 Hs E Hk Hc) as (k' & -> & Hc'). exists k'. by rewrite lookup_insert_eq.
    + cbn in E. destruct (islands s !! j) as [l|] eqn:Hj; [|done]. cbn in E. destruct (island_down l); [done|].
      destruct (receive_results _ _ _); simplify_eq; [|by exists k..]. cbn. rewrite lookup_insert_ne by done. by exists k.
  - cbn in E. destruct (workers s !! w) as [l|]; [|done]. cbn in E. destruct (next_of_worker w l) as [[m l']|]; [|done].
    cbn in E. injection E as E. apply Hsame. match type of E with serve ?e ?s1 = _ => pose proof (serve_keeps e s1) as H end.
    rewrite E in H. cbn [snd] in H. etrans; [|exact H]. intros i1 k1 Hk1. by exists k1.
  - cbn in E. destruct (islands s !! j) as [l|] eqn:Hj; [|done]. cbn in E. destruct (island_up l) as [|d q]; [done|].
    injection E as E. apply Hsame. match type of E with serve ?e ?s1 = _ => pose proof (serve_keeps e s1) as H end.
    rewrite E in H. cbn [snd] in H. etrans; [|exact H]. intros i1 k1 Hk1. cbn. destruct (decide (i1 = j)) as [->|Hne].
    + rewrite lookup_insert_eq. simplify_eq. eexists. by split.
    + rewrite lookup_insert_ne by done. by exists k1.
Qed.

Lemma run_chained (s s' : sys) ls i k u h0 :
  sys_run s ls s' → sys_ok s → s.(islands) !! i = Some k → chained u h0 k →
  ∃ k', s'.(islands) !! i = Some k' ∧ chained u h0 k'.
Proof.
  intros Hr. revert k. induction Hr as [s|s a o s1 ls s2 Hok E _ IH]; intros k Hs Hk Hc; [by exists k|].
  destruct (step_chained a o s s1 i k u h0 Hs E Hk Hc) as (k1 & Hk1 & Hc1).
  apply (IH k1); [|done|done].
  by destruct (step_preserves hardware_concurrency random int_to_string config_ok a s o s1 Hs Hok E).
Qed.

(** ** Starting an archipelago *)

Definition starts (isls : list island) : list label := (λ h, IslandStarts (island_udi h) h) <$> isls.

Lemma started_chained isls ls (s s' : sys) :
  sys_run s (starts isls ++ ls) s' → sys_ok s →
  Forall (λ h, ∃ k, s'.(islands) !! (island_udi h).(_islandId) = Some k ∧ chained (island_udi h) h k) isls.
Proof.
  revert s. induction isls as [|h isls IH]; intros s Hr Hs; [constructor|].
  cbn [starts fmap list_fmap app] in Hr. inversion Hr as [|? a o s1 ? ? Hok E Hr']; subst.
  destruct (step_preserves hardware_concurrency random int_to_string config_ok _ s o s1 Hs Hok E) as [_ Hs1].
  constructor; [|by eapply IH]. cbn in E. destruct (islands s !! _) eqn:Hn; [done|]. injection E as <- <-.
  eapply run_chained; [exact Hr'|done| |apply new_chained]. cbn. by rewrite lookup_insert_eq.
Qed.

(** The workers' configurations with which every planned population can be split. *)
Definition splittable : Prop :=
  ∀ mode mn, config_ok mode mn → mode = ARCHIPELAGO_BASED →
    let n := _compute_optimal_island_count hardware_concurrency in
    0 ≤ mn ∧ 0 < n ∧ mn * n < 2 ^ 64 ∧ 4 * n < 2 ^ 64.

Lemma splittable_fits n : splittable → n mod 4 = 0 → n < 2 ^ 64 → fits n.
Proof.
  intros Hs H4 Hn. split; [done|]. intros mode mn Hc Hm. destruct (Hs mode mn Hc Hm) as (? & ? & ? & ?). by split.
Qed.

(** ** The solver's view of the running system *)

Section Running.
(** The system at the moments when the solver's thread reads the statistics;
    the steps it takes while the [t]-th read lasts, and after it until the next
    one; the iteration orders of the sets the solver visits. *)
Context (moments : nat → sys) (during after : nat → list label) (order : nat → gset string → list string).

(** The controller's thread handles a message. *)
Definition controller_step (a : label) : bool :=
  match a with ServesWorker _ _ _ | ServesIsland _ _ _ => true | _ => false end.

(** What an access writes to the settings file is not carried on to the next
    moment: no step of a running system reads the file. *)
Definition running_environment : PlanEnvironment := {|
  plan_archive := AS;
  settings_at t := (moments t).(ctl).(_ctl_settings);
  undisturbed t := negb (existsb controller_step (during t));
  iteration_order := order
|}.

(** The access is the controller's own member function. *)
Lemma running_access t :
  controller_repository (H := running_environment) t =
    if existsb controller_step (during t) then Crash repository_race
    else (get_worker_info_repository (moments t).(ctl)).1.
Proof.
  unfold controller_repository, get_worker_info_repository, zoom. cbn.
  destruct (existsb _ _); [done|]. cbn. by destruct (settings_repository _).
Qed.

(** The system runs on between any two moments. *)
Record runs_on : Prop := {
  ro_start : sys_ok (moments 0);
  ro_step : ∀ t, sys_run (moments t) (during t ++ after t) (moments (S t));
  ro_order : ∀ t s, order t s ≡ₚ elements s
}.

(** No message is handled while the [t]-th access lasts. *)
Definition calm (t : nat) : Prop := existsb controller_step (during t) = false.

#[local] Instance calm_decision t : Decision (calm t).
Proof. unfold calm. apply _. Defined.

Lemma running_laws : runs_on → @PlanEnvironmentLaws running_environment.
Proof.
  intros [H0 Hr Ho]. split; cbn.
  - intros t. by eapply run_statistics.
  - apply (inv_repo _ (proj1 (so_ctl _ _ _ _ H0))).
  - exact Ho.
Qed.

Lemma moment_ok t : runs_on → sys_ok (moments t).
Proof.
  intros [H0 Hr _]. induction t as [|t IH]; [done|]. by eapply sys_run_ok.
Qed.

(** What became of an island of the solver: [n] cycles of jobs. *)
Definition island_end (n : nat) (h h' : island) : Prop :=
  ∃ js rs hend, evolved (island_udi h) h js rs hend ∧ length js = n ∧ length rs = n ∧
    get_population h' = get_population hend.

(** The islands of the system that the solver's islands became have completed
    [n] cycles, and [h'] is what Pagmo gives back of each. *)
Definition completed (n : nat) (s : sys) (h h' : island) : Prop :=
  ∃ k, s.(islands) !! (island_udi h).(_islandId) = Some k ∧
    length k.(submitted) = n ∧ length k.(answered) = n ∧ get_population h' = get_population k.(host).

Lemma completed_end n isls isls' t ls (s : sys) :
  runs_on → sys_run (moments t) (starts isls ++ ls) s → Forall2 (completed n s) isls isls' →
  Forall2 (island_end n) isls isls'.
Proof.
  intros Hro Hr Hf. pose proof (started_chained _ _ _ _ Hr (moment_ok t Hro)) as Hc.
  rewrite list.Forall_forall in Hc. apply Forall2_same_length_lookup. split; [by eapply Forall2_length|].
  intros i h h' Hh Hh'. destruct (Forall2_lookup_lr _ _ _ _ _ _ Hf Hh Hh') as (k & Hk & Hs & Ha & Hp).
  destruct (Hc h) as (k2 & Hk2 & [_ He _]); [by eapply list_elem_of_lookup_2|].
  rewrite Hk in Hk2. injection Hk2 as <-. rewrite firstn_all2 in He by lia.
  by exists k.(submitted), k.(answered), k.(host).
Qed.

(** The islands at the end have the planned sizes and the problem. *)
Lemma ends_as_planned problem hints n plan isls isls' :
  Forall2 (island_for problem hints) plan isls → Forall2 (island_end n) isls isls' →
  Forall (λ e, fits (entry_size e)) plan →
  Forall2 (λ e h', get_problem (get_population h') = problem ∧
                   population_size (get_population h') = entry_size e) plan isls'.
Proof.
  intros Hp. revert isls'. induction Hp as [|e h plan isls (_ & _ & _ & Hpr & Hsz & _) _ IH];
    intros isls' He Hf; inversion He as [|? h' ? ? (js & rs & hend & Hev & _ & _ & Hpop)]; subst; [constructor|].
  inversion_clear Hf as [|? ? Hfe Hfs]. constructor; [|by apply IH].
  destruct (evolved_keeps _ _ _ _ _ Hev) as [H1 H2]; [by rewrite Hsz|]. by rewrite Hpop, H1, H2, Hsz.
Qed.

(** In a running system the settings file can be written: an access fails only
    when a message is handled meanwhile. *)
Lemma calm_accessible t : runs_on → calm t → accessible (H := running_environment) t.
Proof.
  intros Hro Hc. split; cbn; [by rewrite Hc|]. unfold saves_settings. cbn.
  destruct (inv_settings _ (proj1 (so_ctl _ _ _ _ (moment_ok t Hro)))) as [-> ->]. done.
Qed.

Lemma stormy_race t : ¬ calm t → controller_repository (H := running_environment) t = Crash repository_race.
Proof. intros Hc. rewrite running_access. unfold calm in Hc. by destruct (existsb _ _). Qed.

Lemma stormy_evolve s problem algorithms populationSize cycleCount minIslandPopSize draws seeds :
  let PlanEnv := running_environment in
  runs_on → ¬ running s → ¬ (calm 0 ∧ calm 1) →
  evolve problem algorithms populationSize cycleCount minIslandPopSize draws seeds s =
    (Crash repository_race, with_archipelago archipelago_new s).
Proof.
  intros PlanEnv Hro Hn Hc. unfold evolve. rewrite bind_run. cbn [get_state]. rewrite not_running_tests by done.
  rewrite bind_run. cbn [modify]. rewrite bind_run. cbn [lift].
  destruct (decide (calm 0)) as [H0|H0]; [|by rewrite stormy_race].
  assert (¬ calm 1) as H1 by tauto.
  rewrite controller_repository_ret by (by apply calm_accessible). rewrite bind_run. cbn [lift].
  unfold _generate_work_plan.
  change (@controller_repository later 0) with (@controller_repository running_environment 1).
  by rewrite stormy_race.
Qed.

End Running.
End Deployment.
