(* ===== verification/Sha256Spec.v ===== *)
(** * FIPS 180-4: the SHA-256 function

    A reference definition of SHA-256, written from the standard and
    independent of the program's code: the constants are computed from the
    primes (fractional parts of square and cube roots), the message is padded
    as one byte string, and the digest is read as the 64 hexadecimal digits of
    a 256-bit number. [Sha256] proves that the program's class implements it. *)
From Stdlib Require Import Ascii.
From S2P Require Import Prelude.

(** ** Constants *)

Definition divides_none (ps : list Z) (n : Z) : bool :=
  forallb (λ p, negb (n mod p =? 0)) ps.

(** The primes below [2 + n], in order. *)
Fixpoint primes_below (n : nat) : list Z :=
  match n with
  | O => []
  | S n =>
      let ps := primes_below n in
      let c := 2 + Z.of_nat n in
      if divides_none ps c then ps ++ [c] else ps
  end.

(** The largest [r < 2 ^ k], above [r0], whose cube is at most [n]. *)
Fixpoint cube_root (k : nat) (r0 n : Z) : Z :=
  match k with
  | O => r0
  | S k =>
      let r := r0 + 2 ^ Z.of_nat k in
      cube_root k (if r ^ 3 <=? n then r else r0) n
  end.

(** First 32 bits of the fractional part of the square and cube roots. *)
Definition sqrt_fraction (p : Z) : Z := w32 (Z.sqrt (p * 2 ^ 64)).
Definition cbrt_fraction (p : Z) : Z := w32 (cube_root 36 0 (p * 2 ^ 96)).

Definition sha_K : list Z := cbrt_fraction <$> primes_below 310.
Definition sha_H0 : list Z := sqrt_fraction <$> take 8 (primes_below 310).

(** ** Functions on words *)

Definition not32 (x : Z) : Z := w32 (Z.lnot x).
Definition rotr (n x : Z) : Z := w32 (Z.lor (Z.shiftr x n) (Z.shiftl x (32 - n))).
Definition Ch (x y z : Z) : Z := Z.lxor (Z.land x y) (Z.land (not32 x) z).
Definition Maj (x y z : Z) : Z := Z.lxor (Z.lxor (Z.land x y) (Z.land x z)) (Z.land y z).
Definition Sigma0 (x : Z) : Z := Z.lxor (Z.lxor (rotr 2 x) (rotr 13 x)) (rotr 22 x).
Definition Sigma1 (x : Z) : Z := Z.lxor (Z.lxor (rotr 6 x) (rotr 11 x)) (rotr 25 x).
Definition sigma0 (x : Z) : Z := Z.lxor (Z.lxor (rotr 7 x) (rotr 18 x)) (Z.shiftr x 3).
Definition sigma1 (x : Z) : Z := Z.lxor (Z.lxor (rotr 17 x) (rotr 19 x)) (Z.shiftr x 10).

(** ** Message schedule *)

Definition word_at (ws : list Z) (i : nat) : Z := nth i ws 0.

(** Append the word [W_t] for [t = length ws]. *)
Definition schedule_step (ws : list Z) : list Z :=
  let t := length ws in
  ws ++ [w32 (sigma1 (word_at ws (t - 2)) + word_at ws (t - 7) +
              sigma0 (word_at ws (t - 15)) + word_at ws (t - 16))].

Definition schedule (block : list Z) : list Z := Nat.iter 48 schedule_step block.

(** ** Compression *)

(** The working variables [a .. h]. *)
Abbreviation vars := (Z * Z * Z * Z * Z * Z * Z * Z)%type.

Definition round (v : vars) (kw : Z * Z) : vars :=
  let '(a, b, c, d, e, f, g, h) := v in
  let T1 := w32 (h + Sigma1 e + Ch e f g + kw.1 + kw.2) in
  let T2 := w32 (Sigma0 a + Maj a b c) in
  (w32 (T1 + T2), a, b, c, w32 (d + T1), e, f, g).

Definition rounds (kws : list (Z * Z)) (v : vars) : vars := foldl round v kws.

Definition vars_of (H : list Z) : vars :=
  (word_at H 0, word_at H 1, word_at H 2, word_at H 3,
   word_at H 4, word_at H 5, word_at H 6, word_at H 7).

Definition add_vars (v w : vars) : list Z :=
  let '(a, b, c, d, e, f, g, h) := v in
  let '(a', b', c', d', e', f', g', h') := w in
  [w32 (a + a'); w32 (b + b'); w32 (c + c'); w32 (d + d');
   w32 (e + e'); w32 (f + f'); w32 (g + g'); w32 (h + h')].

Definition big_endian (b : bytes) : Z := foldl (λ acc x, acc * 256 + byte_val x) 0 b.

(** The sixteen big-endian words of a block of 64 bytes. *)
Definition block_words (b : bytes) : list Z :=
  (λ i : nat, big_endian (take 4 (drop (4 * i) b))) <$> seq 0 16.

Definition compress (H : list Z) (b : bytes) : list Z :=
  add_vars (vars_of H) (rounds (zip sha_K (schedule (block_words b))) (vars_of H)).

(** ** Padding, blocks, digest *)

Definition be64 (n : Z) : bytes :=
  (λ i : nat, byte_of_Z (n / 2 ^ (8 * (7 - Z.of_nat i)))) <$> seq 0 8.

Definition bit_length (m : bytes) : Z := w64 (8 * Z.of_nat (length m)).

Definition pad (m : bytes) : bytes :=
  m ++ [byte_of_Z 128] ++ replicate (Z.to_nat ((55 - Z.of_nat (length m)) mod 64)) (byte_of_Z 0) ++
  be64 (bit_length m).

Fixpoint blocks (n : nat) (l : bytes) : list bytes :=
  match n with
  | O => []
  | S n => take 64 l :: blocks n (drop 64 l)
  end.

Definition sha256_words (m : bytes) : list Z :=
  let p := pad m in foldl compress sha_H0 (blocks (length p / 64) p).

(** The digest as a number and in hexadecimal. *)
Definition digest_number (H : list Z) : Z := foldl (λ acc h, acc * 2 ^ 32 + h) 0 H.

Definition hex_digit (d : Z) : Ascii.ascii :=
  match d with
  | 0 => "0" | 1 => "1" | 2 => "2" | 3 => "3" | 4 => "4" | 5 => "5" | 6 => "6" | 7 => "7"
  | 8 => "8" | 9 => "9" | 10 => "a" | 11 => "b" | 12 => "c" | 13 => "d" | 14 => "e" | _ => "f"
  end%char.

(** [n] hexadecimal digits of [x], most significant first. *)
Fixpoint hex_digits (n : nat) (x : Z) : string :=
  match n with
  | O => ""
  | S n => String (hex_digit (x / 16 ^ Z.of_nat n mod 16)) (hex_digits n x)
  end.

Definition sha256_hex (m : bytes) : string := hex_digits 64 (digest_number (sha256_words m)).

(** ** Facts about the reference *)

Lemma cube_root_spec k r0 n :
  0 ≤ r0 → r0 ^ 3 ≤ n < (r0 + 2 ^ Z.of_nat k) ^ 3 →
  let r := cube_root k r0 n in 0 ≤ r ∧ r ^ 3 ≤ n < (r + 1) ^ 3.
Proof.
  revert r0. induction k as [|k IH]; intros r0 H0 Hn; cbn [cube_root].
  { by rewrite Z.pow_0_r in Hn. }
  assert (2 ^ Z.of_nat (S k) = 2 ^ Z.of_nat k + 2 ^ Z.of_nat k) as E.
  { rewrite Nat2Z.inj_succ, Z.pow_succ_r by lia. lia. }
  pose proof (Z.pow_pos_nonneg 2 (Z.of_nat k) ltac:(lia) ltac:(lia)).
  apply IH; [destruct (_ <=? _); lia|].
  destruct (_ <=? n) eqn:Hle; [apply Z.leb_le in Hle|apply Z.leb_gt in Hle].
  - replace (r0 + 2 ^ Z.of_nat k + 2 ^ Z.of_nat k) with (r0 + 2 ^ Z.of_nat (S k)) by lia. lia.
  - lia.
Qed.

Lemma primes_count : length (primes_below 310) = 64%nat.
Proof. by vm_compute. Qed.

(** The standard's test vectors. *)
Definition ascii_bytes (s : string) : bytes := String.list_byte_of_string s.

Example sha256_abc : sha256_hex (ascii_bytes "abc") =
  "ba7816bf8f01cfea414140de5dae2223b00361a396177a9cb410ff61f20015ad"%string.
Proof. by vm_compute. Qed.

Example sha256_two_blocks :
  sha256_hex (ascii_bytes "abcdbcdecdefdefgefghfghighijhijkijkljklmklmnlmnomnopnopq") =
  "248d6a61d20638b8e5c026930c3e6039a33ce45964ff2167f6ecedd419db06c1"%string.
Proof. by vm_compute. Qed.

Lemma compress_length H b : length (compress H b) = 8%nat.
Proof.
  unfold compress, vars_of. set (r := rounds _ _). clearbody r.
  by destruct r as [[[[[[[? ?] ?] ?] ?] ?] ?] ?].
Qed.

Lemma compress_range H b : Forall (λ h, 0 ≤ h < 2 ^ 32) (compress H b).
Proof.
  unfold compress, vars_of. set (r := rounds _ _). clearbody r.
  destruct r as [[[[[[[? ?] ?] ?] ?] ?] ?] ?]. cbn [add_vars].
  do 8 (constructor; [apply w32_range|]). constructor.
Qed.

Lemma sha_H0_range : Forall (λ h, 0 ≤ h < 2 ^ 32) sha_H0 ∧ length sha_H0 = 8%nat.
Proof.
  split; [|by vm_compute]. unfold sha_H0. apply Forall_fmap, Forall_true. intros p. apply w32_range.
Qed.

Lemma compress_all_range bs H :
  Forall (λ h, 0 ≤ h < 2 ^ 32) H ∧ length H = 8%nat →
  Forall (λ h, 0 ≤ h < 2 ^ 32) (foldl compress H bs) ∧ length (foldl compress H bs) = 8%nat.
Proof.
  revert H. induction bs as [|b bs IH]; intros H HH; cbn [foldl]; [exact HH|].
  apply IH. split; [apply compress_range|apply compress_length].
Qed.

Lemma hex_digits_length n x : String.length (hex_digits n x) = n.
Proof. induction n as [|n IH]; cbn; by rewrite ?IH. Qed.

Lemma blocks_app q1 q2 l1 l2 :
  length l1 = (64 * q1)%nat → blocks (q1 + q2) (l1 ++ l2) = blocks q1 l1 ++ blocks q2 l2.
Proof.
  revert l1. induction q1 as [|q1 IH]; intros l1 Hl; cbn [Nat.add blocks].
  - destruct l1; [done|cbn in Hl; lia].
  - rewrite take_app_le, drop_app_le by lia. cbn [app]. f_equal.
    apply IH. rewrite length_drop. lia.
Qed.

Lemma length_pad m : Z.of_nat (length (pad m)) mod 64 = 0.
Proof.
  unfold pad, be64. rewrite !length_app, length_replicate, length_fmap. cbn [length].
  rewrite length_seq.
  pose proof (Z.mod_pos_bound (55 - Z.of_nat (length m)) 64 ltac:(lia)).
  rewrite !Nat2Z.inj_add, Z2Nat.id by lia. Z.div_mod_to_equations. lia.
Qed.

#[global] Arguments sha_H0 : simpl never.
#[global] Arguments sha_K : simpl never.
#[global] Arguments compress : simpl never.
#[global] Arguments rounds : simpl never.

(** Conversion unfolds the compression function only when nothing else is left. *)
#[global] Strategy 1000 [compress sha_H0 sha_K rounds].
