(* ===== verification/Sha256.v ===== *)
(** * utils/sha256.cpp, utils/include/sha256.h: the class [SHA256]

    The class as it is written: eight unrolled rounds of eight lines with
    rotating variable names, the schedule extended eight words at a time,
    buffering of incomplete blocks, padding in place with an overflow block, a
    digest that leaves the object ready for more data. Arrays are lists of
    bytes that may be uninitialised; an access out of their bounds or a read of
    an uninitialised byte is a crash, so that the equivalence with the
    reference of [Sha256Spec] includes memory safety. The target is little
    endian (the conditional [swap] of the words is taken). *)
From S2P Require Import Prelude Sha256Spec.

Definition BlockSize : nat := 64.

Record SHA256 := mk_SHA256 {
  m_numBytes : Z;
  m_bufferSize : nat;
  m_buffer : list (option byte);
  m_hash : list Z
}.

(** The members before the constructor's [reset]. *)
Definition uninitialised : list (option byte) := replicate BlockSize None.

Definition reset : M SHA256 unit :=
  modify (λ s, mk_SHA256 0 0 s.(m_buffer)
    [0x6a09e667; 0xbb67ae85; 0x3c6ef372; 0xa54ff53a;
     0x510e527f; 0x9b05688c; 0x1f83d9ab; 0x5be0cd19]).

Definition SHA256_new : SHA256 := (reset (mk_SHA256 0 0 uninitialised [])).2.

(** ** Word functions *)

Definition rotate (a c : Z) : Z := w32 (Z.lor (Z.shiftr a c) (w32 (Z.shiftl a (32 - c)))).

Definition swap (x : Z) : Z :=
  Z.lor (Z.lor (Z.lor (Z.shiftr x 24) (Z.land (Z.shiftr x 8) 0x0000FF00))
               (Z.land (w32 (Z.shiftl x 8)) 0x00FF0000))
        (w32 (Z.shiftl x 24)).

Definition f1 (e f g : Z) : Z :=
  let term1 := Z.lxor (Z.lxor (rotate e 6) (rotate e 11)) (rotate e 25) in
  let term2 := Z.lxor (Z.land e f) (Z.land (w32 (Z.lnot e)) g) in
  w32 (term1 + term2).

Definition f2 (a b c : Z) : Z :=
  let term1 := Z.lxor (Z.lxor (rotate a 2) (rotate a 13)) (rotate a 22) in
  let term2 := Z.lor (Z.land (Z.lor a b) c) (Z.land a b) in
  w32 (term1 + term2).

(** ** [processBlock] *)

(** One line of a round:
    [x = h + f1(e,f,g) + k + w; y = f2(a,b,c); d += x; h = x + y;] *)
Definition line (a b c d e f g h k w : Z) : Z * Z :=
  let x := w32 (w32 (w32 (h + f1 e f g) + k) + w) in
  let y := f2 a b c in
  (w32 (d + x), w32 (x + y)).

(** Eight lines; the words used are [words[n] .. words[n+7]]. *)
Definition round8 (k0 k1 k2 k3 k4 k5 k6 k7 : Z) (n : nat) (words : list Z) (v : vars) : vars :=
  let '(a, b, c, d, e, f, g, h) := v in
  let '(d, h) := line a b c d e f g h k0 (word_at words n) in
  let '(c, g) := line h a b c d e f g k1 (word_at words (n + 1)) in
  let '(b, f) := line g h a b c d e f k2 (word_at words (n + 2)) in
  let '(a, e) := line f g h a b c d e k3 (word_at words (n + 3)) in
  let '(h, d) := line e f g h a b c d k4 (word_at words (n + 4)) in
  let '(g, c) := line d e f g h a b c k5 (word_at words (n + 5)) in
  let '(f, b) := line c d e f g h a b k6 (word_at words (n + 6)) in
  let '(e, a) := line b c d e f g h a k7 (word_at words (n + 7)) in
  (a, b, c, d, e, f, g, h).

Definition first_round := round8
  0x428a2f98 0x71374491 0xb5c0fbcf 0xe9b5dba5 0x3956c25b 0x59f111f1 0x923f82a4 0xab1c5ed5 0.
Definition second_round := round8
  0xd807aa98 0x12835b01 0x243185be 0x550c7dc3 0x72be5d74 0x80deb1fe 0x9bdc06a7 0xc19bf174 8.
Definition third_round := round8
  0xe49b69c1 0xefbe4786 0x0fc19dc6 0x240ca1cc 0x2de92c6f 0x4a7484aa 0x5cb0a9dc 0x76f988da 16.
Definition fourth_round := round8
  0x983e5152 0xa831c66d 0xb00327c8 0xbf597fc7 0xc6e00bf3 0xd5a79147 0x06ca6351 0x14292967 24.
Definition fifth_round := round8
  0x27b70a85 0x2e1b2138 0x4d2c6dfc 0x53380d13 0x650a7354 0x766a0abb 0x81c2c92e 0x92722c85 32.
Definition sixth_round := round8
  0xa2bfe8a1 0xa81a664b 0xc24b8b70 0xc76c51a3 0xd192e819 0xd6990624 0xf40e3585 0x106aa070 40.
Definition seventh_round := round8
  0x19a4c116 0x1e376c08 0x2748774c 0x34b0bcb5 0x391c0cb3 0x4ed8aa4a 0x5b9cca4f 0x682e6ff3 48.
Definition eighth_round := round8
  0x748f82ee 0x78a5636f 0x84c87814 0x8cc70208 0x90befffa 0xa4506ceb 0xbef9a3f7 0xc67178f2 56.

(** [input[i]]: a 32-bit load, little endian. *)
Definition load_word (data : bytes) (i : nat) : Z :=
  foldr (λ x acc, byte_val x + 256 * acc) 0 (take 4 (drop (4 * i) data)).

(** [words[i] = swap(input[i])] for the first sixteen. *)
Definition input_words (data : bytes) : list Z := (λ i, swap (load_word data i)) <$> seq 0 16.

(** [words[i] = ...] for [i = length words], the array being filled in order. *)
Definition extend_word (words : list Z) : list Z :=
  let i := length words in
  let w15 := word_at words (i - 15) in
  let w2 := word_at words (i - 2) in
  words ++ [w32 (w32 (w32 (word_at words (i - 16) +
      Z.lxor (Z.lxor (rotate w15 7) (rotate w15 18)) (Z.shiftr w15 3)) +
      word_at words (i - 7)) +
      Z.lxor (Z.lxor (rotate w2 17) (rotate w2 19)) (Z.shiftr w2 10))].

(** [for (; i < n; i++) words[i] = ...] *)
Definition extend_to (n : nat) (words : list Z) : list Z :=
  Nat.iter (n - length words) extend_word words.

(** [processBlock] on the 64 bytes at [data]. *)
Definition processBlock (data : bytes) : M SHA256 unit :=
  s ← get_state;
  let v := vars_of s.(m_hash) in
  let words := input_words data in
  let v := second_round words (first_round words v) in
  let words := extend_to 24 words in
  let v := third_round words v in
  let words := extend_to 32 words in
  let v := fourth_round words v in
  let words := extend_to 40 words in
  let v := fifth_round words v in
  let words := extend_to 48 words in
  let v := sixth_round words v in
  let words := extend_to 56 words in
  let v := seventh_round words v in
  let words := extend_to 64 words in
  let v := eighth_round words v in
  put_state (mk_SHA256 s.(m_numBytes) s.(m_bufferSize) s.(m_buffer)
               (add_vars (vars_of s.(m_hash)) v)).

(** ** Arrays *)

Definition store (a : list (option byte)) (i : nat) (b : byte) : outcome (list (option byte)) :=
  if decide (i < length a)%nat then Ret (<[i := Some b]> a)
  else Crash (undefined_behaviour "array index out of bounds").

(** [for (; n > 0; i++, n--) a[i] = b;] *)
Fixpoint store_run (n : nat) (a : list (option byte)) (i : nat) (b : byte) :
    outcome (list (option byte)) :=
  match n with
  | O => Ret a
  | S n => a ← store a i b; store_run n a (S i) b
  end.

(** [*p++ = b] for each of the bytes, from [a + i]. *)
Fixpoint store_list (a : list (option byte)) (i : nat) (bs : bytes) : outcome (list (option byte)) :=
  match bs with
  | [] => Ret a
  | b :: bs => a ← store a i b; store_list a (S i) bs
  end.

(** The 64 bytes a block pointer gives access to. *)
Definition read_block (a : list (option byte)) : outcome bytes :=
  match mapM id (take 64 a) with
  | Some b => if decide (length b = 64%nat) then Ret b
              else Crash (undefined_behaviour "read past the end of a block")
  | None => Crash (undefined_behaviour "read of an uninitialised byte")
  end.

(** ** [add] *)

Definition set_buffer (buf : list (option byte)) (n : nat) (s : SHA256) : SHA256 :=
  mk_SHA256 s.(m_numBytes) n buf s.(m_hash).

(** [m_buffer[m_bufferSize++] = b] *)
Definition buffer_byte (b : byte) : M SHA256 unit :=
  s ← get_state;
  buf ← lift (store s.(m_buffer) s.(m_bufferSize) b);
  put_state (set_buffer buf (S s.(m_bufferSize)) s).

(** [while (numBytes > 0 && m_bufferSize < BlockSize)]: what is left of the data. *)
Fixpoint fill_buffer (data : bytes) : M SHA256 bytes :=
  match data with
  | [] => mret []
  | b :: rest =>
      s ← get_state;
      if decide (s.(m_bufferSize) < BlockSize)%nat then
        _ ← buffer_byte b; fill_buffer rest
      else mret data
  end.

(** [m_numBytes += BlockSize] *)
Definition count_block (s : SHA256) : SHA256 :=
  mk_SHA256 (w64 (s.(m_numBytes) + Z.of_nat BlockSize)) s.(m_bufferSize) s.(m_buffer) s.(m_hash).

Definition flush_buffer : M SHA256 unit :=
  s ← get_state;
  block ← lift (read_block s.(m_buffer));
  _ ← processBlock block;
  _ ← modify count_block;
  modify (λ s, set_buffer s.(m_buffer) 0 s).

(** [while (numBytes >= BlockSize)]; the fuel is the number of bytes. *)
Fixpoint full_blocks (fuel : nat) (data : bytes) : M SHA256 bytes :=
  match fuel with
  | O => mret data
  | S fuel =>
      if decide (BlockSize ≤ length data)%nat then
        _ ← processBlock (take BlockSize data);
        _ ← modify count_block;
        full_blocks fuel (drop BlockSize data)
      else mret data
  end.

(** [while (numBytes > 0)] *)
Fixpoint keep_bytes (data : bytes) : M SHA256 unit :=
  match data with
  | [] => mret tt
  | b :: rest => _ ← buffer_byte b; keep_bytes rest
  end.

Definition add (data : bytes) : M SHA256 unit :=
  s ← get_state;
  data ← (if decide (0 < s.(m_bufferSize))%nat then fill_buffer data else mret data);
  s ← get_state;
  _ ← (if decide (s.(m_bufferSize) = BlockSize) then flush_buffer else mret tt);
  if decide (data = []) then mret tt
  else
    data ← full_blocks (length data) data;
    keep_bytes data.

(** ** [processBuffer] and the digest *)

(** Bytes of the buffered data with its padding, without the length. *)
Definition padded_length (bufferSize : nat) : nat :=
  let bits := Z.of_nat bufferSize * 8 + 1 in
  let lower11Bits := Z.land bits 511 in
  let bits := if lower11Bits <=? 448 then bits + (448 - lower11Bits)
              else bits + (512 + 448 - lower11Bits) in
  Z.to_nat (bits / 8).

Definition length_bytes (msgBits : Z) : bytes :=
  (λ k, byte_of_Z (Z.land (Z.shiftr msgBits k) 0xFF)) <$> [56; 48; 40; 32; 24; 16; 8; 0].

(** The two arrays after the padding has been written. *)
Definition pad_buffers (s : SHA256) : outcome (list (option byte) * list (option byte)) :=
  let n := s.(m_bufferSize) in
  let paddedLength := padded_length n in
  '(buf, extra) ←
    (if decide (n < BlockSize)%nat then
       buf ← store s.(m_buffer) n (byte_of_Z 128); Ret (buf, uninitialised)
     else
       extra ← store uninitialised 0 (byte_of_Z 128); Ret (s.(m_buffer), extra));
  let i := S n in
  buf ← store_run (BlockSize - i) buf i (byte_of_Z 0);
  let i := Nat.max i BlockSize in
  extra ← store_run (paddedLength - i) extra (i - BlockSize) (byte_of_Z 0);
  let msgBits := w64 (8 * w64 (s.(m_numBytes) + Z.of_nat n)) in
  if decide (paddedLength < BlockSize)%nat then
    buf ← store_list buf paddedLength (length_bytes msgBits); Ret (buf, extra)
  else
    extra ← store_list extra (paddedLength - BlockSize) (length_bytes msgBits); Ret (buf, extra).

Definition processBuffer : M SHA256 unit :=
  s ← get_state;
  '(buf, extra) ← lift (pad_buffers s);
  _ ← modify (λ s, set_buffer buf s.(m_bufferSize) s);
  block ← lift (read_block buf);
  _ ← processBlock block;
  if decide (BlockSize < padded_length s.(m_bufferSize))%nat then
    block ← lift (read_block extra);
    processBlock block
  else mret tt.

(** [getHash(unsigned char buffer[HashBytes])] *)
Definition word_bytes (h : Z) : bytes :=
  (λ k, byte_of_Z (Z.land (Z.shiftr h k) 0xFF)) <$> [24; 16; 8; 0].

Definition raw_hash : M SHA256 bytes :=
  s ← get_state;
  let oldHash := s.(m_hash) in
  _ ← processBuffer;
  s ← get_state;
  _ ← put_state (mk_SHA256 s.(m_numBytes) s.(m_bufferSize) s.(m_buffer) oldHash);
  mret (concat (word_bytes <$> s.(m_hash))).

Definition dec2hex : list Ascii.ascii := String.list_ascii_of_string "0123456789abcdef".

Definition hex_of_bytes (raw : bytes) : string :=
  String.string_of_list_ascii (concat ((λ b,
    [nth (Z.to_nat (Z.land (Z.shiftr (byte_val b) 4) 15)) dec2hex Ascii.zero;
     nth (Z.to_nat (Z.land (byte_val b) 15)) dec2hex Ascii.zero]) <$> raw)).

Definition getHash : M SHA256 string := raw ← raw_hash; mret (hex_of_bytes raw).

(** [operator()] *)
Definition SHA256_call (data : bytes) : M SHA256 string :=
  _ ← reset; _ ← add data; getHash.

Example call_abc : (SHA256_call (ascii_bytes "abc") SHA256_new).1 =
  Ret "ba7816bf8f01cfea414140de5dae2223b00361a396177a9cb410ff61f20015ad"%string.
Proof. by vm_compute. Qed.
