(* ===== verification/Sha256Block.v ===== *)
(** * [SHA256::processBlock] is the compression function

    The word functions, the unrolled rounds and the schedule of [Sha256] agree
    with the standard's, literals included ([sha_K_table], [eight_rounds]). *)
From S2P Require Import Prelude Sha256Spec Sha256.

(** ** Words *)

Lemma lor_w32 x y : w32 (Z.lor x (w32 y)) = w32 (Z.lor x y).
Proof.
  unfold w32. apply Z.bits_inj'. intros i Hi. destruct (decide (i < 32)).
  - rewrite !Z.mod_pow2_bits_low, !Z.lor_spec, Z.mod_pow2_bits_low by lia. done.
  - by rewrite !Z.mod_pow2_bits_high by lia.
Qed.

Lemma rotate_rotr a c : rotate a c = rotr c a.
Proof. apply lor_w32. Qed.

(** [rotate] is a rotation: bit [i] of the result is bit [i + c] of the word. *)
Lemma rotate_testbit a c i :
  0 ≤ a < 2 ^ 32 → 0 < c < 32 → 0 ≤ i < 32 →
  Z.testbit (rotate a c) i = Z.testbit a ((i + c) mod 32).
Proof.
  intros Ha Hc Hi. rewrite rotate_rotr. unfold rotr, w32.
  rewrite Z.mod_pow2_bits_low, Z.lor_spec, Z.shiftr_spec, Z.shiftl_spec by lia.
  destruct (decide (i + c < 32)).
  - rewrite (Z.mod_small (i + c)), (Z.testbit_neg_r _ (i - _)) by lia. apply orb_false_r.
  - rewrite <- (Z.mod_unique_pos (i + c) 32 1 (i + c - 32)) by lia.
    rewrite <- (Z.mod_small a (2 ^ 32)) at 1 by lia. rewrite Z.mod_pow2_bits_high by lia.
    cbn. f_equal. lia.
Qed.

Lemma lor_high a b k : 0 ≤ k → 0 ≤ a < 2 ^ k → Z.lor a (b * 2 ^ k) = a + b * 2 ^ k.
Proof.
  intros Hk Ha. rewrite <- Z.add_lor_land.
  assert (Z.land a (b * 2 ^ k) = 0) as ->; [|lia].
  apply Z.bits_inj'. intros i Hi. rewrite Z.land_spec, Z.bits_0. destruct (decide (i < k)).
  - rewrite Z.mul_pow2_bits_low by lia. apply andb_false_r.
  - rewrite <- (Z.mod_small a (2 ^ k)), Z.mod_pow2_bits_high by lia. done.
Qed.

Lemma land_mask y n k :
  0 ≤ n → 0 ≤ k → Z.land y (Z.shiftl (Z.ones n) k) = (y / 2 ^ k) mod 2 ^ n * 2 ^ k.
Proof.
  intros Hn Hk. rewrite <- Z.land_ones, <- Z.shiftr_div_pow2, <- Z.shiftl_mul_pow2 by lia.
  apply Z.bits_inj'. intros i Hi. rewrite Z.land_spec, !Z.shiftl_spec by lia.
  destruct (decide (i < k)).
  - rewrite !(Z.testbit_neg_r _ (i - k)) by lia. apply andb_false_r.
  - rewrite Z.land_spec, Z.shiftr_spec by lia. repeat f_equal; lia.
Qed.

Lemma swap_bytes b0 b1 b2 b3 :
  0 ≤ b0 < 256 → 0 ≤ b1 < 256 → 0 ≤ b2 < 256 → 0 ≤ b3 < 256 →
  swap (b0 + 256 * (b1 + 256 * (b2 + 256 * b3))) = ((b0 * 256 + b1) * 256 + b2) * 256 + b3.
Proof.
  intros. unfold swap, w32.
  change 0x0000FF00 with (Z.shiftl (Z.ones 8) 8). change 0x00FF0000 with (Z.shiftl (Z.ones 8) 16).
  rewrite !land_mask, !Z.shiftr_div_pow2, !Z.shiftl_mul_pow2 by lia.
  set (x := b0 + _).
  assert (x / 2 ^ 24 = b3) as -> by (symmetry; apply (Z.div_unique_pos _ _ _ (b0 + 256 * b1 + 65536 * b2)); lia).
  assert ((x / 2 ^ 8 / 2 ^ 8) mod 2 ^ 8 = b2) as ->.
  { rewrite Z.div_div by lia. subst x. Z.div_mod_to_equations. lia. }
  assert (((x * 2 ^ 8) mod 2 ^ 32 / 2 ^ 16) mod 2 ^ 8 = b1) as ->.
  { subst x. Z.div_mod_to_equations. lia. }
  assert ((x * 2 ^ 24) mod 2 ^ 32 = b0 * 2 ^ 24) as ->.
  { symmetry. apply (Z.mod_unique_pos _ _ (b1 + 256 * (b2 + 256 * b3))); lia. }
  rewrite (lor_high b3), (lor_high (_ + _)), (lor_high (_ + _ + _)) by lia. lia.
Qed.

Lemma swap_load data i :
  (4 * i + 4 ≤ length data)%nat →
  swap (load_word data i) = big_endian (take 4 (drop (4 * i) data)).
Proof.
  intros Hl. unfold load_word, big_endian.
  assert (length (take 4 (drop (4 * i) data)) = 4%nat) as H4.
  { rewrite length_take, length_drop. lia. }
  destruct (take 4 _) as [|b0 [|b1 [|b2 [|b3 [|b4 l]]]]]; try done.
  cbn [foldr foldl]. pose proof (byte_val_range b0). pose proof (byte_val_range b1).
  pose proof (byte_val_range b2). pose proof (byte_val_range b3).
  replace (256 * 0) with 0 by lia. rewrite Z.add_0_r.
  rewrite swap_bytes by done. lia.
Qed.

Lemma input_words_block data : length data = 64%nat → input_words data = block_words data.
Proof.
  intros Hl. unfold input_words, block_words. apply list_fmap_ext. intros k i Hi.
  apply lookup_seq in Hi. apply swap_load. lia.
Qed.

Lemma maj_code a b c : Z.lor (Z.land (Z.lor a b) c) (Z.land a b) = Maj a b c.
Proof.
  unfold Maj. apply Z.bits_inj'. intros i Hi.
  rewrite !Z.lor_spec, !Z.lxor_spec, !Z.land_spec, !Z.lor_spec.
  by destruct (Z.testbit a i), (Z.testbit b i), (Z.testbit c i).
Qed.

Lemma f1_spec e f g : f1 e f g = w32 (Sigma1 e + Ch e f g).
Proof. unfold f1. by rewrite !rotate_rotr. Qed.

Lemma f2_spec a b c : f2 a b c = w32 (Sigma0 a + Maj a b c).
Proof. unfold f2. by rewrite !rotate_rotr, maj_code. Qed.

(** ** Rounds *)

Lemma line_round a b c d e f g h k w d' h' :
  line a b c d e f g h k w = (d', h') →
  round (a, b, c, d, e, f, g, h) (k, w) = (h', a, b, c, d', e, f, g).
Proof.
  unfold line, round. intros [= <- <-]. rewrite f1_spec, f2_spec. cbn [fst snd].
  assert (w32 (w32 (w32 (h + w32 (Sigma1 e + Ch e f g)) + k) + w) =
          w32 (h + Sigma1 e + Ch e f g + k + w)) as ->; [|done].
  autorewrite with w32_norm. rewrite <- Z.add_assoc. autorewrite with w32_norm. f_equal. lia.
Qed.

Lemma round8_rounds k0 k1 k2 k3 k4 k5 k6 k7 n ws v :
  round8 k0 k1 k2 k3 k4 k5 k6 k7 n ws v =
  rounds [(k0, word_at ws n); (k1, word_at ws (n + 1)); (k2, word_at ws (n + 2));
          (k3, word_at ws (n + 3)); (k4, word_at ws (n + 4)); (k5, word_at ws (n + 5));
          (k6, word_at ws (n + 6)); (k7, word_at ws (n + 7))] v.
Proof.
  destruct v as [[[[[[[a b] c] d] e] f] g] h]. unfold round8, rounds. cbn [foldl].
  repeat match goal with
  | |- context [line ?a ?b ?c ?d ?e ?f ?g ?h ?k ?w] =>
      let E := fresh in
      destruct (line a b c d e f g h k w) as [? ?] eqn:E; apply line_round in E; rewrite E; clear E
  end.
  done.
Qed.

(** ** The schedule and [processBlock] *)

Lemma extend_word_step ws : extend_word ws = schedule_step ws.
Proof.
  unfold extend_word, schedule_step. do 2 f_equal. rewrite !rotate_rotr.
  fold (sigma0 (word_at ws (length ws - 15))) (sigma1 (word_at ws (length ws - 2))).
  rewrite w32_add_l, <- (Z.add_assoc _ (word_at ws (length ws - 7))), w32_add_l. f_equal. lia.
Qed.

Lemma length_schedule_iter n ws : length (Nat.iter n schedule_step ws) = (n + length ws)%nat.
Proof.
  induction n as [|n IH]; [done|]. rewrite Nat.iter_succ.
  unfold schedule_step at 1. rewrite length_app, IH. cbn. lia.
Qed.

Lemma word_at_prefix n ws i :
  (i < length ws)%nat → word_at (Nat.iter n schedule_step ws) i = word_at ws i.
Proof.
  intros Hi. induction n as [|n IH]; [done|]. rewrite Nat.iter_succ.
  unfold schedule_step at 1, word_at. rewrite app_nth1; [exact IH|].
  rewrite length_schedule_iter. lia.
Qed.

Lemma extend_to_iter m n ws :
  length ws = 16%nat → (16 + m ≤ n)%nat →
  extend_to n (Nat.iter m schedule_step ws) = Nat.iter (n - 16) schedule_step ws.
Proof.
  intros Hl Hn. unfold extend_to. rewrite length_schedule_iter, Hl.
  replace (n - 16)%nat with (n - (m + 16) + m)%nat by lia. rewrite Nat.iter_add.
  induction (n - (m + 16))%nat as [|k IH]; [done|].
  by rewrite !Nat.iter_succ, IH, extend_word_step.
Qed.

Lemma round8_words k0 k1 k2 k3 k4 k5 k6 k7 n m ws v :
  length ws = 16%nat → (n + 8 ≤ 16 + m)%nat → (m ≤ 48)%nat →
  round8 k0 k1 k2 k3 k4 k5 k6 k7 n (Nat.iter m schedule_step ws) v =
  round8 k0 k1 k2 k3 k4 k5 k6 k7 n (schedule ws) v.
Proof.
  intros Hl Hn Hm. unfold schedule. replace 48%nat with (48 - m + m)%nat by lia.
  rewrite Nat.iter_add, !round8_rounds.
  rewrite !(word_at_prefix (48 - m)); [done|rewrite length_schedule_iter; lia..].
Qed.

Lemma word_at_map ws n : length ws = n → ws = (word_at ws) <$> seq 0 n.
Proof.
  intros <-. apply list_eq. intros i. rewrite list_lookup_fmap.
  destruct (decide (i < length ws)%nat) as [Hi|Hi].
  - rewrite lookup_seq_lt by done. cbn. unfold word_at. destruct (lookup_lt_is_Some_2 ws i Hi) as [x Hx].
    rewrite Hx. f_equal. symmetry. by apply nth_lookup_Some.
  - rewrite lookup_ge_None_2, lookup_seq_ge by lia. done.
Qed.

Lemma rounds_app l1 l2 v : rounds (l1 ++ l2) v = rounds l2 (rounds l1 v).
Proof. apply foldl_app. Qed.

(** The literals of the eight rounds are the standard's constants. *)
Lemma eight_rounds W v :
  length W = 64%nat →
  rounds (zip sha_K W) v =
  eighth_round W (seventh_round W (sixth_round W (fifth_round W
    (fourth_round W (third_round W (second_round W (first_round W v))))))).
Proof.
  intros HW. let k := eval vm_compute in sha_K in assert (sha_K = k) as -> by (vm_compute; reflexivity).
  etransitivity; [apply (f_equal (λ l, rounds (zip _ l) v)), (word_at_map W 64 HW)|].
  unfold first_round, second_round, third_round, fourth_round, fifth_round, sixth_round,
    seventh_round, eighth_round.
  rewrite !round8_rounds, <- !rounds_app. apply (f_equal (λ l, rounds l v)). reflexivity.
Qed.

Lemma length_block_words b : length (block_words b) = 16%nat.
Proof. unfold block_words. by rewrite length_fmap, length_seq. Qed.

Lemma processBlock_run data s :
  length data = 64%nat →
  processBlock data s =
  (Ret tt, mk_SHA256 s.(m_numBytes) s.(m_bufferSize) s.(m_buffer) (compress s.(m_hash) data)).
Proof.
  intros Hd. unfold processBlock, compress. rewrite bind_run. cbn [get_state].
  rewrite input_words_block by done.
  pose proof (length_block_words data) as Hl. set (ws := block_words data) in *. clearbody ws.
  assert (extend_to 24 ws = Nat.iter 8 schedule_step ws) as -> by apply (extend_to_iter 0 24 ws Hl ltac:(lia)).
  rewrite !(extend_to_iter _ _ ws Hl) by lia.
  change (32 - 16)%nat with 16%nat. change (40 - 16)%nat with 24%nat.
  change (48 - 16)%nat with 32%nat. change (56 - 16)%nat with 40%nat. change (64 - 16)%nat with 48%nat.
  rewrite eight_rounds by (unfold schedule; rewrite length_schedule_iter; lia).
  unfold first_round, second_round, third_round, fourth_round, fifth_round, sixth_round,
    seventh_round, eighth_round.
  rewrite (round8_words _ _ _ _ _ _ _ _ 16 8), (round8_words _ _ _ _ _ _ _ _ 24 16),
    (round8_words _ _ _ _ _ _ _ _ 32 24), (round8_words _ _ _ _ _ _ _ _ 40 32),
    (round8_words _ _ _ _ _ _ _ _ 48 40), (round8_words _ _ _ _ _ _ _ _ 56 48) by (done || lia).
  rewrite <- (round8_words _ _ _ _ _ _ _ _ 0 0), <- (round8_words _ _ _ _ _ _ _ _ 8 0) by (done || lia).
  done.
Qed.
