(* ===== verification/Sha256Stream.v ===== *)
(** * [SHA256] as a stream: buffering, padding, digest

    The invariant [absorbed m s] relates an object to the bytes it was given;
    every method preserves it, and the digest is the standard's for [m]. *)
From S2P Require Import Prelude Sha256Spec Sha256 Sha256Block.

(** ** What the object has absorbed *)

(** The complete blocks [full] are in the hash, the bytes [tail] in the buffer. *)
Record absorbing (q : nat) (full tail : bytes) (s : SHA256) : Prop := {
  abs_full : length full = (64 * q)%nat;
  abs_size : s.(m_bufferSize) = length tail;
  abs_fits : (length tail ≤ 64)%nat;
  abs_length : length s.(m_buffer) = 64%nat;
  abs_buffer : take (length tail) s.(m_buffer) = Some <$> tail;
  abs_bytes : s.(m_numBytes) = w64 (64 * Z.of_nat q);
  abs_hash : s.(m_hash) = foldl compress sha_H0 (blocks q full)
}.

Definition absorbed (m : bytes) (s : SHA256) : Prop :=
  ∃ q full tail, m = full ++ tail ∧ (length tail < 64)%nat ∧ absorbing q full tail s.

Lemma sha_H0_table : sha_H0 =
  [0x6a09e667; 0xbb67ae85; 0x3c6ef372; 0xa54ff53a;
   0x510e527f; 0x9b05688c; 0x1f83d9ab; 0x5be0cd19].
Proof. vm_compute. reflexivity. Qed.

Lemma reset_absorbed s : length s.(m_buffer) = 64%nat → absorbed [] (reset s).2.
Proof.
  intros Hl. exists 0%nat, [], []. split_and!; [done|cbn; lia|].
  split; [done|done|cbn; lia|exact Hl|done|done|exact (eq_sym sha_H0_table)].
Qed.

Lemma store_in a i b : (i < length a)%nat → store a i b = Ret (<[i := Some b]> a).
Proof. intros. unfold store. by rewrite decide_True. Qed.

Lemma buffer_byte_run q full tail b s :
  absorbing q full tail s → (length tail < 64)%nat →
  ∃ s', buffer_byte b s = (Ret tt, s') ∧ absorbing q full (tail ++ [b]) s'.
Proof.
  intros [H1 H2 H3 H4 H5 H6 H7] Hl. unfold buffer_byte. run_simpl.
  rewrite store_in by lia. run_simpl. eexists. split; [done|].
  split; cbn [set_buffer m_bufferSize m_buffer m_numBytes m_hash]; rewrite ?length_app, ?length_insert; cbn; try done; [lia..|].
  rewrite Nat.add_1_r, H2, (take_S_r _ _ (Some b)) by (apply list_lookup_insert_eq; lia).
  rewrite take_insert_ge by lia. by rewrite H5, fmap_app.
Qed.

Lemma fill_buffer_run q full data tail s :
  absorbing q full tail s →
  ∃ d rest s', fill_buffer data s = (Ret rest, s') ∧ data = d ++ rest ∧
    absorbing q full (tail ++ d) s' ∧ (rest = [] ∨ length (tail ++ d) = 64%nat).
Proof.
  revert tail s. induction data as [|b data IH]; intros tail s Hs; cbn [fill_buffer].
  { exists [], [], s. rewrite (app_nil_r tail). split_and!; auto. }
  run_simpl. unfold BlockSize. case_decide as Hb.
  - destruct (buffer_byte_run q full tail b s) as (s1 & E & H1); [done|by rewrite <- (abs_size _ _ _ _ Hs)|].
    rewrite bind_run, E.
    destruct (IH (tail ++ [b]) s1 H1) as (d & rest & s' & -> & -> & H' & Hr).
    exists (b :: d), rest, s'. rewrite <- app_assoc in H', Hr. by split_and!.
  - exists [], (b :: data), s. rewrite (app_nil_r tail). split_and!; try done. right.
    pose proof (abs_size _ _ _ _ Hs). pose proof (abs_fits _ _ _ _ Hs). lia.
Qed.

Lemma read_block_full a b : take 64 a = Some <$> b → length b = 64%nat → read_block a = Ret b.
Proof.
  intros Ha Hb. unfold read_block. rewrite Ha.
  assert (mapM id (Some <$> b) = Some b) as ->; [|by rewrite decide_True].
  clear. induction b as [|x b IH]; [done|]. cbn in *. by rewrite IH.
Qed.

Lemma blocks_snoc q full blk :
  length full = (64 * q)%nat → length blk = 64%nat →
  blocks (S q) (full ++ blk) = blocks q full ++ [blk].
Proof.
  intros Hf Hb. replace (S q) with (q + 1)%nat by lia. rewrite blocks_app by done.
  cbn [blocks]. by rewrite take_ge by lia.
Qed.

Lemma count_w64 q : w64 (w64 (64 * Z.of_nat q) + 64) = w64 (64 * Z.of_nat (S q)).
Proof. autorewrite with w64_norm. f_equal. lia. Qed.

(** One more block, taken from the buffer or directly from the data. *)
Lemma absorb_block q full tail blk s :
  absorbing q full tail s → length blk = 64%nat →
  absorbing (S q) (full ++ blk) []
    (mk_SHA256 (w64 (s.(m_numBytes) + 64)) 0 s.(m_buffer) (compress s.(m_hash) blk)).
Proof.
  intros [H1 H2 H3 H4 H5 H6 H7] Hb. split; cbn [m_bufferSize m_buffer m_numBytes m_hash length].
  - rewrite length_app. lia.
  - done.
  - lia.
  - done.
  - done.
  - by rewrite H6, count_w64.
  - rewrite blocks_snoc, foldl_app, <- H7 by done. cbn [foldl]. reflexivity.
Qed.

Lemma flush_buffer_run q full tail s :
  absorbing q full tail s → length tail = 64%nat →
  ∃ s', flush_buffer s = (Ret tt, s') ∧ absorbing (S q) (full ++ tail) [] s'.
Proof.
  intros Hs Ht. unfold flush_buffer. run_simpl.
  rewrite (read_block_full _ tail) by (done || rewrite <- Ht; apply (abs_buffer _ _ _ _ Hs)).
  run_simpl. rewrite processBlock_run by done. run_simpl. eexists. split; [done|].
  apply (absorb_block _ _ _ _ _ Hs Ht).
Qed.

Lemma full_blocks_run fuel q full data s :
  absorbing q full [] s → (length data ≤ fuel)%nat →
  ∃ q' d rest s', full_blocks fuel data s = (Ret rest, s') ∧ data = d ++ rest ∧
    (length rest < 64)%nat ∧ absorbing q' (full ++ d) [] s'.
Proof.
  revert q full data s. induction fuel as [|fuel IH]; intros q full data s Hs Hf; cbn [full_blocks].
  { exists q, [], data, s. rewrite app_nil_r. split_and!; try done. lia. }
  unfold BlockSize. case_decide as Hd.
  - rewrite bind_run, processBlock_run by (rewrite length_take; lia). run_simpl.
    assert (length (take 64 data) = 64%nat) as Hb by (rewrite length_take; lia).
    pose proof (absorb_block _ _ _ _ _ Hs Hb) as H1.
    unfold count_block. cbn [m_numBytes m_bufferSize m_buffer m_hash]. rewrite (abs_size _ _ _ _ Hs).
    destruct (IH _ _ (drop 64 data) _ H1) as (q' & d & rest & s' & E & Hdr & Hr & H').
    { rewrite length_drop. lia. }
    exists q', (take 64 data ++ d), rest, s'. split_and!; [exact E| |done|by rewrite app_assoc].
    by rewrite <- app_assoc, <- Hdr, take_drop.
  - exists q, [], data, s. rewrite app_nil_r. split_and!; try done. lia.
Qed.

Lemma keep_bytes_run q full data tail s :
  absorbing q full tail s → (length tail + length data ≤ 64)%nat →
  ∃ s', keep_bytes data s = (Ret tt, s') ∧ absorbing q full (tail ++ data) s'.
Proof.
  revert tail s. induction data as [|b data IH]; intros tail s Hs Hl; cbn [keep_bytes length] in *.
  { exists s. by rewrite app_nil_r. }
  destruct (buffer_byte_run q full tail b s) as (s1 & E & H1); [done|lia|].
  rewrite bind_run, E. destruct (IH (tail ++ [b]) s1 H1) as (s' & -> & H').
  { rewrite length_app. cbn. lia. }
  exists s'. by rewrite <- app_assoc in H'.
Qed.

(** [add] on an object with [full] and [tail]: every path through the body. *)
Lemma add_absorbed m data s :
  absorbed m s → ∃ s', add data s = (Ret tt, s') ∧ absorbed (m ++ data) s'.
Proof.
  intros (q & full & tail & -> & Ht & Hs). unfold add. rewrite bind_run. cbn [get_state].
  assert (∃ d rest s1,
    (if decide (0 < m_bufferSize s)%nat then fill_buffer data else mret data) s = (Ret rest, s1) ∧
    data = d ++ rest ∧ absorbing q full (tail ++ d) s1 ∧
    (rest = [] ∨ length (tail ++ d) = 64%nat ∨ tail ++ d = [])) as (d & rest & s1 & E & -> & H1 & Hr).
  { case_decide as Hb.
    - destruct (fill_buffer_run q full data tail s Hs) as (d & rest & s1 & ? & ? & ? & ?).
      exists d, rest, s1. split_and!; [done..|tauto].
    - assert (tail = []) as -> by (destruct tail; [done|rewrite (abs_size _ _ _ _ Hs) in Hb; cbn in Hb; lia]).
      exists [], data, s. split_and!; auto. }
  rewrite bind_run, E, bind_run. clear E. cbn [get_state]. rewrite (abs_size _ _ _ _ H1).
  assert (∃ q2 full2 tail2 s2,
    (if decide (length (tail ++ d) = BlockSize) then flush_buffer else mret tt) s1 = (Ret tt, s2) ∧
    full ++ tail ++ d = full2 ++ tail2 ∧ absorbing q2 full2 tail2 s2 ∧ (length tail2 < 64)%nat ∧
    (rest = [] ∨ tail2 = [])) as (q2 & full2 & tail2 & s2 & E2 & Heq & H2 & Hl2 & Hr2).
  { unfold BlockSize. case_decide as Hb.
    - destruct (flush_buffer_run _ _ _ _ H1 Hb) as (s2 & ? & ?).
      exists (S q), (full ++ tail ++ d), [], s2. rewrite app_nil_r. split_and!; try done; [cbn; lia|by right].
    - exists q, full, (tail ++ d), s1. pose proof (abs_fits _ _ _ _ H1).
      split_and!; try done; [lia|]. destruct Hr as [?|[?|?]]; [by left|lia|by right]. }
  rewrite bind_run, E2. clear E2. rewrite !app_assoc, <- (app_assoc full), Heq. case_decide as Hn.
  - subst. exists s2. split; [done|]. rewrite app_nil_r. by exists q2, full2, tail2.
  - destruct Hr2 as [->| ->]; [done|].
    destruct (full_blocks_run (length rest) q2 full2 rest s2 H2) as (q3 & d3 & r3 & s3 & E3 & -> & H3 & H3'); [done|].
    rewrite bind_run, E3.
    destruct (keep_bytes_run q3 (full2 ++ d3) r3 [] s3 H3') as (s4 & E4 & H4); [cbn; lia|].
    exists s4. split; [exact E4|]. exists q3, (full2 ++ d3), r3.
    by rewrite app_nil_r, app_assoc.
Qed.

(** ** Padding *)

Lemma store_app l x r b : store (l ++ x :: r) (length l) b = Ret (l ++ Some b :: r).
Proof.
  rewrite store_in by (rewrite length_app; cbn; lia). f_equal.
  by rewrite insert_app_r_alt, Nat.sub_diag by lia.
Qed.

Lemma store_run_app n l r r' b :
  length r = n → store_run n (l ++ r ++ r') (length l) b = Ret (l ++ replicate n (Some b) ++ r').
Proof.
  revert l r. induction n as [|n IH]; intros l [|x r] Hr; try done; cbn [store_run].
  cbn [app]. rewrite store_app. cbn [mbind outcome_bind].
  specialize (IH (l ++ [Some b]) r). rewrite <- !app_assoc in IH. cbn [app] in IH.
  rewrite length_app in IH. cbn [length] in IH. rewrite Nat.add_1_r in IH.
  rewrite IH by (cbn in Hr; lia). done.
Qed.

Lemma store_list_app bs l r r' :
  length r = length bs → store_list (l ++ r ++ r') (length l) bs = Ret (l ++ (Some <$> bs) ++ r').
Proof.
  revert l r. induction bs as [|b bs IH]; intros l [|x r] Hr; try done; cbn [store_list].
  cbn [app]. rewrite store_app. cbn [mbind outcome_bind].
  specialize (IH (l ++ [Some b]) r). rewrite <- !app_assoc in IH. cbn [app] in IH.
  rewrite length_app in IH. cbn [length] in IH. rewrite Nat.add_1_r in IH.
  rewrite IH by (cbn in Hr; lia). done.
Qed.

Lemma padded_length_value n :
  (n < 64)%nat → padded_length n = if decide (n ≤ 55)%nat then 56%nat else 120%nat.
Proof.
  intros Hn. assert (forallb (λ n, bool_decide (padded_length n =
    if decide (n ≤ 55)%nat then 56%nat else 120%nat)) (seq 0 64) = true) as H by (vm_compute; reflexivity).
  rewrite forallb_forall in H. specialize (H n ltac:(apply in_seq; lia)).
  by apply bool_decide_eq_true_1 in H.
Qed.

Lemma byte_of_land z : byte_of_Z (Z.land z 0xFF) = byte_of_Z z.
Proof.
  change 0xFF with (Z.ones 8). rewrite Z.land_ones by lia.
  unfold byte_of_Z. by rewrite Zmod_mod.
Qed.

Lemma length_bytes_be64 x : length_bytes x = be64 x.
Proof.
  unfold length_bytes, be64. cbn [fmap list_fmap seq]. rewrite !byte_of_land.
  rewrite !Z.shiftr_div_pow2 by lia. done.
Qed.

(** What [pad] appends to the last bytes of the message. *)
Definition pad_tail (tail : bytes) (bits : Z) : bytes :=
  tail ++ byte_of_Z 128 ::
    replicate (if decide (length tail ≤ 55)%nat then 55 - length tail else 119 - length tail)%nat
      (byte_of_Z 0) ++ be64 bits.

Lemma pad_split q full tail :
  length full = (64 * q)%nat → (length tail < 64)%nat →
  pad (full ++ tail) = full ++ pad_tail tail (bit_length (full ++ tail)).
Proof.
  intros Hf Ht. unfold pad, pad_tail. rewrite <- !app_assoc. cbn [app]. do 5 f_equal.
  rewrite length_app, Hf. case_decide.
  - rewrite <- (Z.mod_unique_pos (55 - _) 64 (- Z.of_nat q) (55 - Z.of_nat (length tail))); lia.
  - rewrite <- (Z.mod_unique_pos (55 - _) 64 (- Z.of_nat q - 1) (119 - Z.of_nat (length tail))); lia.
Qed.

Lemma length_pad_tail tail bits :
  (length tail < 64)%nat →
  length (pad_tail tail bits) = if decide (length tail ≤ 55)%nat then 64%nat else 128%nat.
Proof.
  intros Ht. unfold pad_tail, be64. rewrite length_app. cbn [length].
  rewrite length_app, length_replicate, length_fmap, length_seq. case_decide; lia.
Qed.

Lemma fmap_replicate_some n (b : byte) : Some <$> replicate n b = replicate n (Some b).
Proof. induction n; cbn; congruence. Qed.

Lemma msg_bits q n : w64 (8 * w64 (w64 (64 * q) + n)) = w64 (8 * (64 * q + n)).
Proof. rewrite w64_add_l. unfold w64. by rewrite Zmult_mod_idemp_r. Qed.

Lemma length_bytes_of_be bits : length (be64 bits) = 8%nat.
Proof. done. Qed.

(** The padding inside [m_buffer]: the bit and the zeros. *)
Lemma pad_first tail (buf : list (option byte)) :
  length buf = 64%nat → take (length tail) buf = Some <$> tail → (length tail < 64)%nat →
  (buf ← store buf (length tail) (byte_of_Z 128);
   store_run (64 - S (length tail)) buf (S (length tail)) (byte_of_Z 0)) =
  Ret (Some <$> tail ++ byte_of_Z 128 :: replicate (63 - length tail) (byte_of_Z 0)).
Proof.
  intros Hl Ht Hn. rewrite <- (take_drop (length tail) buf), Ht.
  pose proof (length_drop buf (length tail)) as Hd. rewrite Hl in Hd.
  destruct (drop (length tail) buf) as [|x r]; [cbn in Hd; lia|].
  rewrite <- (length_fmap Some tail) at 1. rewrite store_app. cbn [mbind outcome_bind].
  pose proof (store_run_app (64 - S (length tail)) ((Some <$> tail) ++ [Some (byte_of_Z 128)]) r []
    (byte_of_Z 0) ltac:(cbn in Hd; lia)) as Hrun.
  rewrite length_app, length_fmap, Nat.add_1_r, !app_nil_r, <- !app_assoc in Hrun.
  cbn [app] in Hrun. rewrite Hrun. rewrite fmap_app, fmap_cons, fmap_replicate_some.
  repeat f_equal.
Qed.

(** The length, when it fits into [m_buffer]. *)
Lemma pad_length_first tail L :
  length L = 8%nat → (length tail ≤ 55)%nat →
  store_list (Some <$> tail ++ byte_of_Z 128 :: replicate (63 - length tail) (byte_of_Z 0)) 56 L =
  Ret (Some <$> tail ++ byte_of_Z 128 :: replicate (55 - length tail) (byte_of_Z 0) ++ L).
Proof.
  intros HL Hn.
  pose proof (store_list_app L
    (Some <$> tail ++ byte_of_Z 128 :: replicate (55 - length tail) (byte_of_Z 0))
    (replicate 8 (Some (byte_of_Z 0))) [] ltac:(by rewrite HL)) as Hl.
  rewrite !app_nil_r, <- fmap_replicate_some, <- !fmap_app, <- !app_assoc in Hl. cbn [app] in Hl.
  rewrite <- replicate_add, length_fmap, length_app in Hl. cbn [length] in Hl.
  rewrite length_replicate in Hl.
  replace (length tail + S (55 - length tail))%nat with 56%nat in Hl by lia.
  replace (55 - length tail + 8)%nat with (63 - length tail)%nat in Hl by lia. done.
Qed.

(** The overflow block: zeros and the length. *)
Lemma pad_extra L :
  length L = 8%nat →
  (extra ← store_run 56 uninitialised 0 (byte_of_Z 0); store_list extra 56 L) =
  Ret (Some <$> replicate 56 (byte_of_Z 0) ++ L).
Proof.
  intros HL.
  pose proof (store_run_app 56 [] (replicate 56 None) (replicate 8 None) (byte_of_Z 0) eq_refl) as He.
  cbn [length app] in He. rewrite <- replicate_add in He.
  change (replicate (56 + 8) None) with uninitialised in He. rewrite He. cbn [mbind outcome_bind].
  pose proof (store_list_app L (replicate 56 (Some (byte_of_Z 0))) (replicate 8 None) []
    ltac:(by rewrite HL)) as Hl.
  rewrite length_replicate, !app_nil_r in Hl. by rewrite Hl, fmap_app, fmap_replicate_some.
Qed.

Lemma pad_tail_long tail bits :
  (55 < length tail < 64)%nat →
  pad_tail tail bits =
  (tail ++ byte_of_Z 128 :: replicate (63 - length tail) (byte_of_Z 0)) ++
  (replicate 56 (byte_of_Z 0) ++ be64 bits).
Proof.
  intros Hn. unfold pad_tail. rewrite decide_False by lia. rewrite <- app_assoc. cbn [app].
  rewrite (app_assoc (replicate (63 - _) _)), <- replicate_add. do 4 f_equal. lia.
Qed.

Lemma outcome_bind_assoc {A B C} (o : outcome A) (f : A → outcome B) (g : B → outcome C) :
  ((o ≫= f) ≫= g) = (o ≫= λ a, f a ≫= g).
Proof. by destruct o. Qed.

(** The two arrays hold the padded message's last one or two blocks. *)
Lemma pad_buffers_run q full tail s :
  absorbing q full tail s → (length tail < 64)%nat →
  let P := pad_tail tail (bit_length (full ++ tail)) in
  ∃ extra, pad_buffers s = Ret (Some <$> take 64 P, extra) ∧
    ((55 < length tail)%nat → extra = Some <$> drop 64 P).
Proof.
  intros [H1 H2 H3 H4 H5 H6 H7] Ht P. unfold pad_buffers. rewrite H2, H6, msg_bits.
  replace (8 * (64 * Z.of_nat q + Z.of_nat (length tail))) with
    (8 * Z.of_nat (length (full ++ tail))) by (rewrite length_app; lia).
  fold (bit_length (full ++ tail)). rewrite padded_length_value by done.
  unfold BlockSize. rewrite length_bytes_be64, (Nat.max_r (S _)) by lia.
  pose proof (pad_first tail _ H4 H5 Ht) as Hf. pose proof (length_bytes_of_be (bit_length (full ++ tail))) as HL.
  destruct (decide (length tail < 64)%nat) as [_|]; [|lia].
  destruct (store s.(m_buffer) (length tail) (byte_of_Z 128)) as [buf|e|f]; try done.
  cbn [mbind outcome_bind] in Hf |- *. rewrite Hf. cbn [mbind outcome_bind].
  destruct (decide (length tail ≤ 55)%nat) as [Hn|Hn].
  - destruct (decide (56 < 64)%nat) as [_|]; [|lia]. cbn [Nat.sub store_run mbind outcome_bind].
    rewrite pad_length_first by done. eexists. split; [|lia].
    subst P. rewrite take_ge by (rewrite length_pad_tail, decide_True by done; lia).
    unfold pad_tail. by rewrite decide_True.
  - change (120 - 64)%nat with 56%nat. change (64 - 64)%nat with 0%nat.
    destruct (decide (120 < 64)%nat) as [|_]; [lia|].
    pose proof (pad_extra _ HL) as He. destruct (store_run 56 _ _ _) as [ex|e|f]; try done.
    cbn [mbind outcome_bind] in He |- *. rewrite He. subst P. rewrite pad_tail_long by lia.
    assert (length (tail ++ byte_of_Z 128 :: replicate (63 - length tail) (byte_of_Z 0)) = 64%nat) as H64.
    { rewrite length_app. cbn [length]. rewrite length_replicate. lia. }
    rewrite take_app_length' by done. rewrite drop_app_length' by done.
    eexists. split; [reflexivity|done].
Qed.

(** ** The digest *)

Lemma sha256_words_split q full tail :
  length full = (64 * q)%nat → (length tail < 64)%nat →
  let P := pad_tail tail (bit_length (full ++ tail)) in
  sha256_words (full ++ tail) =
  foldl compress (foldl compress sha_H0 (blocks q full))
    (take 64 P :: if decide (length tail ≤ 55)%nat then [] else [drop 64 P]).
Proof.
  intros Hf Ht P. unfold sha256_words. rewrite (pad_split q) by done. fold P.
  assert (length P = if decide (length tail ≤ 55)%nat then 64%nat else 128%nat) as HP
    by by apply length_pad_tail.
  rewrite length_app, Hf.
  replace ((64 * q + length P) / 64)%nat with (q + length P / 64)%nat
    by (rewrite (Nat.mul_comm 64), Nat.div_add_l; lia).
  rewrite blocks_app, foldl_app, HP by done. f_equal. case_decide; cbn [blocks].
  - done.
  - change (128 / 64)%nat with 2%nat. cbn [blocks]. do 2 f_equal.
    by rewrite take_ge by (rewrite length_drop, HP; lia).
Qed.

(** [processBuffer] computes the digest of what was absorbed; besides the hash
    it only overwrites the unused part of the buffer. *)
Lemma processBuffer_run q full tail s :
  absorbing q full tail s → (length tail < 64)%nat →
  ∃ s', processBuffer s = (Ret tt, s') ∧ s'.(m_hash) = sha256_words (full ++ tail) ∧
    absorbing q full tail (mk_SHA256 s'.(m_numBytes) s'.(m_bufferSize) s'.(m_buffer) s.(m_hash)).
Proof.
  intros Hs Ht. destruct (pad_buffers_run q full tail s Hs Ht) as (extra & E & Hex).
  rewrite (sha256_words_split q) by (done || apply Hs).
  set (P := pad_tail _ _) in *.
  assert (length P = if decide (length tail ≤ 55)%nat then 64%nat else 128%nat) as HP
    by by apply length_pad_tail.
  assert (64 ≤ length P)%nat as HP64 by (case_decide; lia).
  assert (length (take 64 P) = 64%nat) as Hb1 by (rewrite length_take; lia).
  assert (absorbing q full tail (mk_SHA256 s.(m_numBytes) s.(m_bufferSize) (Some <$> take 64 P) s.(m_hash))) as Habs.
  { destruct Hs as [H1 H2 H3 H4 H5 H6 H7]. split; cbn [m_bufferSize m_buffer m_numBytes m_hash]; try done.
    - by rewrite length_fmap.
    - rewrite <- fmap_take, take_take, Nat.min_l by lia. subst P. unfold pad_tail.
      by rewrite take_app_length. }
  unfold processBuffer. run_simpl. rewrite E. run_simpl.
  rewrite (read_block_full _ (take 64 P)) by (done || rewrite <- fmap_take, take_take; done).
  run_simpl. rewrite processBlock_run by done. cbn [m_numBytes m_bufferSize m_buffer m_hash set_buffer].
  assert (padded_length s.(m_bufferSize) = if decide (length tail ≤ 55)%nat then 56%nat else 120%nat) as ->
    by (rewrite (abs_size _ _ _ _ Hs); by apply padded_length_value).
  rewrite <- (abs_hash _ _ _ _ Hs).
  unfold BlockSize. destruct (decide (length tail ≤ 55)%nat) as [Hn|Hn].
  - destruct (decide (64 < 56)%nat) as [|_]; [lia|]. eexists. by split_and!.
  - destruct (decide (64 < 120)%nat) as [_|]; [|lia]. rewrite Hex by lia.
    assert (length (drop 64 P) = 64%nat) as Hb2 by (rewrite length_drop; lia).
    run_simpl. rewrite (read_block_full _ (drop 64 P)) by (rewrite ?take_ge by (rewrite length_fmap; lia); done).
    run_simpl. rewrite processBlock_run by done. eexists. by split_and!.
Qed.

(** [getHash(buffer)] returns the digest's bytes and restores the hash. *)
Lemma raw_hash_run m s :
  absorbed m s →
  ∃ s', raw_hash s = (Ret (concat (word_bytes <$> sha256_words m)), s') ∧ absorbed m s'.
Proof.
  intros (q & full & tail & -> & Ht & Hs). unfold raw_hash. run_simpl.
  destruct (processBuffer_run q full tail s Hs Ht) as (s' & -> & Hh & Habs).
  run_simpl. rewrite Hh. eexists. split; [done|]. by exists q, full, tail.
Qed.

(** ** Hexadecimal *)

Lemma hex_digits_mod k j x :
  (j ≤ k)%nat → hex_digits j (x mod 16 ^ Z.of_nat k) = hex_digits j x.
Proof.
  induction j as [|j IH]; intros Hj; [done|]. cbn [hex_digits]. rewrite IH by lia. do 2 f_equal.
  replace (Z.of_nat k) with (Z.of_nat j + (1 + Z.of_nat (k - S j))) by lia.
  rewrite !Z.pow_add_r by lia. change (16 ^ 1) with 16.
  set (a := 16 ^ Z.of_nat j). set (b := 16 ^ Z.of_nat (k - S j)).
  assert (0 < a) by (apply Z.pow_pos_nonneg; lia). assert (0 < b) by (apply Z.pow_pos_nonneg; lia).
  rewrite Z.rem_mul_r, (Z.mul_comm a (_ mod _)), Z.div_add, (Z.div_small (x mod a)) by
    (try apply Z.mod_pos_bound; nia).
  rewrite Z.add_0_l, Z.rem_mul_r, (Z.mul_comm 16), Z.mod_add, Zmod_mod by lia. done.
Qed.

Lemma hex_digits_app n k x y :
  0 ≤ y < 16 ^ Z.of_nat k →
  hex_digits (n + k) (x * 16 ^ Z.of_nat k + y) = hex_digits n x +:+ hex_digits k y.
Proof.
  intros Hy. induction n as [|n IH]; cbn [Nat.add hex_digits].
  - rewrite <- (hex_digits_mod k k (x * _ + y)) by lia.
    by rewrite (Z.add_comm (x * _)), Z.mod_add, Z.mod_small by lia.
  - rewrite IH, Nat2Z.inj_add, (Z.add_comm (Z.of_nat n)), Z.pow_add_r, <- Z.div_div by lia.
    by rewrite Z.div_add_l, (Z.div_small y), Z.add_0_r by lia.
Qed.

Lemma dec2hex_digit d : 0 ≤ d < 16 → nth (Z.to_nat d) dec2hex Ascii.zero = hex_digit d.
Proof.
  intros Hd. assert (d ∈ (seqZ 0 16)) as H by (apply elem_of_seqZ; lia).
  revert H. vm_compute (seqZ 0 16). rewrite !elem_of_cons. intros H.
  repeat destruct H as [->|H]; try done. set_solver.
Qed.

Lemma string_of_list_ascii_app l1 l2 :
  String.string_of_list_ascii (l1 ++ l2) =
  String.string_of_list_ascii l1 +:+ String.string_of_list_ascii l2.
Proof. induction l1 as [|a l1 IH]; cbn; by rewrite ?IH. Qed.

Lemma hex_of_bytes_app l1 l2 : hex_of_bytes (l1 ++ l2) = hex_of_bytes l1 +:+ hex_of_bytes l2.
Proof. unfold hex_of_bytes. by rewrite fmap_app, concat_app, string_of_list_ascii_app. Qed.

Lemma hex_of_byte x : hex_of_bytes [byte_of_Z (Z.land x 0xFF)] = hex_digits 2 x.
Proof.
  unfold hex_of_bytes. cbn [fmap list_fmap concat app]. rewrite byte_of_land, byte_val_of_Z.
  change 15 with (Z.ones 4). rewrite !Z.land_ones, Z.shiftr_div_pow2 by lia.
  rewrite !dec2hex_digit by (apply Z.mod_pos_bound; lia). cbn [String.string_of_list_ascii hex_digits].
  change (2 ^ 4) with 16. change (16 ^ Z.of_nat 1) with 16. change (16 ^ Z.of_nat 0) with 1.
  rewrite Z.div_1_r.
  assert ((x mod 256 / 16) mod 16 = (x / 16) mod 16) as -> by (Z.div_mod_to_equations; lia).
  by assert ((x mod 256) mod 16 = x mod 16) as -> by (Z.div_mod_to_equations; lia).
Qed.

Lemma hex_of_word w : hex_of_bytes (word_bytes w) = hex_digits 8 w.
Proof.
  unfold word_bytes. cbn [fmap list_fmap].
  change [?a; ?b; ?c; ?d] with ([a] ++ [b] ++ [c] ++ [d]). rewrite !hex_of_bytes_app, !hex_of_byte.
  rewrite !Z.shiftr_div_pow2 by lia. cbn [hex_digits String.append].
  rewrite !Z.div_div by done. reflexivity.
Qed.

Lemma hex_of_words ws :
  Forall (λ h, 0 ≤ h < 2 ^ 32) ws →
  hex_of_bytes (concat (word_bytes <$> ws)) = hex_digits (8 * length ws) (digest_number ws).
Proof.
  induction ws as [|w ws IH] using rev_ind; [done|]. intros [Hws Hw]%Forall_app.
  rewrite Forall_singleton in Hw. rewrite fmap_app, concat_app, hex_of_bytes_app, IH by done.
  cbn [fmap list_fmap concat]. rewrite app_nil_r, hex_of_word.
  unfold digest_number. rewrite foldl_app, length_app. cbn [foldl length].
  replace (8 * (length ws + 1))%nat with (8 * length ws + 8)%nat by lia.
  symmetry. exact (hex_digits_app _ 8 _ w Hw).
Qed.

Lemma getHash_absorbed m s :
  absorbed m s → ∃ s', getHash s = (Ret (sha256_hex m), s') ∧ absorbed m s'.
Proof.
  intros Hs. destruct (raw_hash_run m s Hs) as (s' & E & Hs'). exists s'. split; [|done].
  unfold getHash. run_simpl. rewrite E. run_simpl. do 2 f_equal.
  destruct (compress_all_range (blocks (length (pad m) / 64) (pad m)) sha_H0 sha_H0_range) as [Hr Hl].
  unfold sha256_hex. rewrite hex_of_words by exact Hr. by rewrite (Hl : length (sha256_words m) = 8%nat).
Qed.

(** ** The class as a stream *)

(** What a client does with one object. *)
Inductive sha_op :=
  | Add (data : bytes)
  | GetHash
  | Reset.

Definition sha_exec (o : sha_op) : M SHA256 (option string) :=
  match o with
  | Add data => _ ← add data; mret None
  | GetHash => h ← getHash; mret (Some h)
  | Reset => _ ← reset; mret None
  end.

(** The same on the abstract object: the bytes added since the last reset. *)
Definition sha_abstract (o : sha_op) (m : bytes) : option string * bytes :=
  match o with
  | Add data => (None, m ++ data)
  | GetHash => (Some (sha256_hex m), m)
  | Reset => (None, [])
  end.

Fixpoint sha_run (ops : list sha_op) : M SHA256 (list (option string)) :=
  match ops with
  | [] => mret []
  | o :: ops => r ← sha_exec o; rs ← sha_run ops; mret (r :: rs)
  end.

Fixpoint sha_abstract_run (ops : list sha_op) (m : bytes) : list (option string) * bytes :=
  match ops with
  | [] => ([], m)
  | o :: ops =>
      let '(r, m) := sha_abstract o m in
      let '(rs, m) := sha_abstract_run ops m in
      (r :: rs, m)
  end.

Lemma absorbed_length m s : absorbed m s → length s.(m_buffer) = 64%nat.
Proof. intros (q & full & tail & _ & _ & Hs). apply Hs. Qed.

Lemma sha_exec_refines o m s :
  absorbed m s →
  ∃ s', sha_exec o s = (Ret (sha_abstract o m).1, s') ∧ absorbed (sha_abstract o m).2 s'.
Proof.
  intros Hs. destruct o as [data| |]; cbn [sha_exec sha_abstract fst snd].
  - destruct (add_absorbed m data s Hs) as (s' & E & Hs'). exists s'. by rewrite bind_run, E.
  - destruct (getHash_absorbed m s Hs) as (s' & E & Hs'). exists s'. by rewrite bind_run, E.
  - eexists. rewrite bind_run. split; [reflexivity|].
    by apply reset_absorbed, (absorbed_length m).
Qed.

Lemma sha_run_refines ops m s :
  absorbed m s → ∃ s', sha_run ops s = (Ret (sha_abstract_run ops m).1, s') ∧
    absorbed (sha_abstract_run ops m).2 s'.
Proof.
  revert m s. induction ops as [|o ops IH]; intros m s Hs; cbn [sha_run sha_abstract_run].
  { by exists s. }
  destruct (sha_exec_refines o m s Hs) as (s1 & E & H1). rewrite bind_run, E.
  destruct (sha_abstract o m) as [r m1]. cbn [fst snd] in *.
  destruct (IH m1 s1 H1) as (s2 & E2 & H2). rewrite bind_run, E2.
  destruct (sha_abstract_run ops m1) as [rs m2]. by exists s2.
Qed.

Lemma new_absorbed : absorbed [] SHA256_new.
Proof. by apply reset_absorbed. Qed.

(** C13. However the data is cut into chunks, and whatever digests are taken in
    between, every digest is the standard's SHA-256 of the bytes added since
    the last reset. No access is out of bounds or uninitialised. *)
Theorem sha256_streaming ops :
  (sha_run ops SHA256_new).1 = Ret (sha_abstract_run ops []).1.
Proof. destruct (sha_run_refines ops [] SHA256_new new_absorbed) as (s' & -> & _). done. Qed.

Lemma SHA256_call_run data s :
  length s.(m_buffer) = 64%nat →
  ∃ s', SHA256_call data s = (Ret (sha256_hex data), s') ∧ absorbed data s'.
Proof.
  intros Hl. unfold SHA256_call. pose proof (reset_absorbed s Hl) as H0.
  destruct (add_absorbed [] data _ H0) as (s1 & E1 & H1).
  destruct (getHash_absorbed data s1 H1) as (s2 & E2 & H2). exists s2. split; [|done].
  rewrite bind_run. change (reset s) with (Ret tt : outcome unit, (reset s).2).
  cbv beta iota. by rewrite bind_run, E1.
Qed.

(** [sha256(data, size)] is the standard's function, 64 hexadecimal digits. *)
Theorem sha256_call_correct data :
  (SHA256_call data SHA256_new).1 = Ret (sha256_hex data) ∧
  String.length (sha256_hex data) = 64%nat.
Proof.
  destruct (SHA256_call_run data SHA256_new eq_refl) as (s & -> & _).
  split; [done|apply hex_digits_length].
Qed.
