(* ===== verification/LruCache.v ===== *)
(** * discovery/include/lru_cache.h: the class template [lru_cache]

    A doubly linked list of entries and a map from keys to iterators. A list
    node has an identity, which stands for its address and is what an iterator
    holds; following an iterator to a node that is no longer in the list, or
    [back()] of an empty list, is undefined behaviour. The class is shown to
    refine a list of entries in order of use. *)
From S2P Require Import Prelude.

Section LruCache.
Context {T : Type}.

Record node := { address : nat; entry_key : string; entry_value : T }.

(** [_next] numbers the allocations of list nodes. *)
Record lru_cache := {
  _cap : nat;
  _items : list node;
  _items_map : gmap string nat;
  _next : nat
}.

Definition lru_cache_new (cap : nat) : lru_cache :=
  {| _cap := cap; _items := []; _items_map := ∅; _next := 0 |}.

Definition set_items (l : list node) (c : lru_cache) : lru_cache :=
  {| _cap := c.(_cap); _items := l; _items_map := c.(_items_map); _next := c.(_next) |}.
Definition set_items_map (m : gmap string nat) (c : lru_cache) : lru_cache :=
  {| _cap := c.(_cap); _items := c.(_items); _items_map := m; _next := c.(_next) |}.

Definition dangling : fault := undefined_behaviour "invalid list iterator".

(** The node an iterator points to. *)
Definition deref (i : nat) : M lru_cache node :=
  c ← get_state;
  match list_find (λ n, n.(address) = i) c.(_items) with
  | Some (_, n) => mret n
  | None => crash dangling
  end.

Definition without (i : nat) (l : list node) : list node := filter (λ n, n.(address) ≠ i) l.

(** [_items.splice(_items.begin(), _items, i)] *)
Definition splice_front (i : nat) : M lru_cache unit :=
  n ← deref i;
  modify (λ c, set_items (n :: without i c.(_items)) c).

(** [_items.erase(i)] *)
Definition list_erase (i : nat) : M lru_cache unit :=
  _ ← deref i;
  modify (λ c, set_items (without i c.(_items)) c).

Definition contains (key : string) : M lru_cache bool :=
  c ← get_state; mret (bool_decide (is_Some (c.(_items_map) !! key))).

Definition get (key : string) : M lru_cache T :=
  c ← get_state;
  match c.(_items_map) !! key with
  | None => throw (out_of_range ("Key not found in lru_cache: " +:+ key))
  | Some it =>
      _ ← splice_front it;
      n ← deref it;
      mret n.(entry_value)
  end.

(** [it->second->second = value] *)
Definition set_value (i : nat) (value : T) : M lru_cache unit :=
  _ ← deref i;
  modify (λ c, set_items ((λ n, if decide (n.(address) = i)
    then {| address := n.(address); entry_key := n.(entry_key); entry_value := value |}
    else n) <$> c.(_items)) c).

Definition put (key : string) (value : T) : M lru_cache unit :=
  c ← get_state;
  match c.(_items_map) !! key with
  | Some it => _ ← set_value it value; splice_front it
  | None =>
      _ ← (if decide (c.(_cap) ≤ length c.(_items))%nat then
             match list.last c.(_items) with
             | None => crash (undefined_behaviour "back() of an empty list")
             | Some old =>
                 _ ← modify (λ c, set_items_map (delete old.(entry_key) c.(_items_map)) c);
                 modify (λ c, set_items (removelast c.(_items)) c)
             end
           else mret tt);
      c ← get_state;
      let n := {| address := c.(_next); entry_key := key; entry_value := value |} in
      put_state {| _cap := c.(_cap); _items := n :: c.(_items);
                   _items_map := <[key := n.(address)]> c.(_items_map); _next := S c.(_next) |}
  end.

Definition erase (key : string) : M lru_cache unit :=
  c ← get_state;
  match c.(_items_map) !! key with
  | None => mret tt
  | Some it =>
      _ ← list_erase it;
      modify (λ c, set_items_map (delete key c.(_items_map)) c)
  end.

Definition clear : M lru_cache unit :=
  _ ← modify (set_items []);
  modify (set_items_map ∅).

(** ** Abstract cache: entries, most recently used first *)

Abbreviation entries := (list (string * T)).

Definition remove_key (k : string) (l : entries) : entries := filter (λ e, e.1 ≠ k) l.

Definition value_of (k : string) (l : entries) : option T :=
  (list_to_map l : gmap string T) !! k.

Definition use (k : string) (l : entries) : entries :=
  match value_of k l with
  | Some v => (k, v) :: remove_key k l
  | None => l
  end.

Definition insert_entry (cap : nat) (k : string) (v : T) (l : entries) : entries :=
  match value_of k l with
  | Some _ => (k, v) :: remove_key k l
  | None => (k, v) :: (if decide (cap ≤ length l)%nat then removelast l else l)
  end.

(** Operations as data. *)
Inductive lru_op :=
  | Contains (k : string)
  | Get (k : string)
  | Put (k : string) (v : T)
  | Erase (k : string)
  | Clear.

Inductive lru_result :=
  | Done
  | Found (b : bool)
  | Value (v : T).

Definition lru_exec (o : lru_op) : M lru_cache lru_result :=
  match o with
  | Contains k => b ← contains k; mret (Found b)
  | Get k => v ← get k; mret (Value v)
  | Put k v => _ ← put k v; mret Done
  | Erase k => _ ← erase k; mret Done
  | Clear => _ ← clear; mret Done
  end.

Definition lru_abstract (cap : nat) (o : lru_op) (l : entries) : outcome lru_result * entries :=
  match o with
  | Contains k => (Ret (Found (bool_decide (k ∈ l.*1))), l)
  | Get k =>
      (match value_of k l with
       | Some v => Ret (Value v)
       | None => Throw (out_of_range ("Key not found in lru_cache: " +:+ k))
       end, use k l)
  | Put k v => (Ret Done, insert_entry cap k v l)
  | Erase k => (Ret Done, remove_key k l)
  | Clear => (Ret Done, [])
  end.

(** Run a list of calls; a call that throws is caught by its caller. *)
Fixpoint lru_run (ops : list lru_op) (c : lru_cache) : list (outcome lru_result) * lru_cache :=
  match ops with
  | [] => ([], c)
  | o :: ops =>
      let '(r, c) := lru_exec o c in
      let '(rs, c) := lru_run ops c in
      (r :: rs, c)
  end.

Fixpoint lru_abstract_run (cap : nat) (ops : list lru_op) (l : entries) :
    list (outcome lru_result) * entries :=
  match ops with
  | [] => ([], l)
  | o :: ops =>
      let '(r, l) := lru_abstract cap o l in
      let '(rs, l) := lru_abstract_run cap ops l in
      (r :: rs, l)
  end.

(** ** Representation invariant *)

Definition entry_of (n : node) : string * T := (n.(entry_key), n.(entry_value)).

Record represents (l : entries) (c : lru_cache) : Prop := {
  rep_entries : entry_of <$> c.(_items) = l;
  rep_addresses : NoDup (address <$> c.(_items));
  rep_keys : NoDup (entry_key <$> c.(_items));
  rep_map : ∀ k i, c.(_items_map) !! k = Some i ↔
              ∃ n, n ∈ c.(_items) ∧ n.(entry_key) = k ∧ n.(address) = i;
  rep_next : ∀ n, n ∈ c.(_items) → (n.(address) < c.(_next))%nat;
  rep_cap : (length c.(_items) ≤ c.(_cap))%nat
}.

(** ** Lemmas on nodes *)

Lemma node_unique {A} (f : node → A) l n1 n2 :
  NoDup (f <$> l) → n1 ∈ l → n2 ∈ l → f n1 = f n2 → n1 = n2.
Proof.
  intros Hnd [i1 H1]%list_elem_of_lookup [i2 H2]%list_elem_of_lookup Hf.
  assert (i1 = i2) as ->; [|congruence].
  eapply NoDup_lookup; [exact Hnd| |]; rewrite list_lookup_fmap; [by rewrite H1|].
  rewrite H2. cbn. by rewrite Hf.
Qed.

Lemma find_address l n :
  NoDup (address <$> l) → n ∈ l →
  ∃ i, list_find (λ m, m.(address) = n.(address)) l = Some (i, n).
Proof.
  intros Hnd Hn.
  destruct (list_find_elem_of (λ m, m.(address) = n.(address)) l n Hn eq_refl) as [[i m] Hm].
  exists i. rewrite Hm. apply list_find_Some in Hm as (Hl & Ha & _).
  apply list_elem_of_lookup_2 in Hl. by rewrite (node_unique address l m n).
Qed.

Lemma deref_run c n :
  NoDup (address <$> c.(_items)) → n ∈ c.(_items) → deref n.(address) c = (Ret n, c).
Proof.
  intros Hnd Hn. unfold deref. run_simpl. by destruct (find_address _ n Hnd Hn) as [i ->].
Qed.

(** Removing a node by its address or by its key is the same. *)
Lemma without_entries l n :
  NoDup (address <$> l) → NoDup (entry_key <$> l) → n ∈ l →
  entry_of <$> without n.(address) l = remove_key n.(entry_key) (entry_of <$> l).
Proof.
  intros Ha Hk Hn. unfold without, remove_key. rewrite list_filter_fmap. f_equal.
  apply list_filter_iff_in. intros m Hm. cbn. split; intros Hne Heq; apply Hne.
  - by rewrite (node_unique entry_key l m n).
  - by rewrite (node_unique address l m n).
Qed.

Lemma elem_of_without l i m : m ∈ without i l ↔ m.(address) ≠ i ∧ m ∈ l.
Proof. unfold without. by rewrite list_elem_of_filter. Qed.

Lemma without_length l n : n ∈ l → (length (without n.(address) l) < length l)%nat.
Proof. intros Hn. apply (length_filter_lt _ _ n); [done|]. by intros []. Qed.

Lemma keys_entries (l : list node) : (entry_of <$> l).*1 = entry_key <$> l.
Proof. rewrite <- list_fmap_compose. by apply list_fmap_ext. Qed.

Lemma NoDup_without {A} (f : node → A) i l : NoDup (f <$> l) → NoDup (f <$> without i l).
Proof. intros Hnd. eapply sublist_NoDup; [exact Hnd|]. apply fmap_sublist, sublist_filter. Qed.

(** ** Lookups *)

Lemma rep_hit l c k i :
  represents l c → c.(_items_map) !! k = Some i →
  ∃ n, n ∈ c.(_items) ∧ n.(entry_key) = k ∧ n.(address) = i ∧ value_of k l = Some n.(entry_value).
Proof.
  intros [He Ha Hk Hm Hn Hc] (n & Hin & Hkey & Haddr)%Hm. exists n. split_and!; try done.
  unfold value_of. subst l. apply elem_of_list_to_map_1; [by rewrite keys_entries|].
  apply list_elem_of_fmap. exists n. by subst.
Qed.

Lemma rep_miss l c k :
  represents l c → c.(_items_map) !! k = None → k ∉ l.*1.
Proof.
  intros [He Ha Hk Hm Hn Hc] Hnone. subst l. rewrite keys_entries.
  intros (n & -> & Hin)%list_elem_of_fmap.
  assert (_items_map c !! entry_key n = Some n.(address)); [|congruence]. apply Hm. eauto.
Qed.

Lemma value_of_miss k l : k ∉ l.*1 → value_of k l = None.
Proof. apply not_elem_of_list_to_map_1. Qed.

Lemma rep_contains l c k :
  represents l c → is_Some (c.(_items_map) !! k) ↔ k ∈ l.*1.
Proof.
  intros Hr. destruct (_items_map c !! k) as [i|] eqn:E.
  - split; [intros _|by eauto]. destruct (rep_hit l c k i Hr E) as (n & Hin & <- & _ & _).
    rewrite <- (rep_entries _ _ Hr), keys_entries. apply list_elem_of_fmap. eauto.
  - split; [by intros []|]. intros Hin. by destruct (rep_miss l c k Hr E).
Qed.

(** ** Updates *)

(** A node moved to the front, perhaps with a new value. *)
Lemma rep_front l c n n' :
  represents l c → n ∈ c.(_items) → n'.(address) = n.(address) → n'.(entry_key) = n.(entry_key) →
  represents (entry_of n' :: remove_key n.(entry_key) l)
    (set_items (n' :: without n.(address) c.(_items)) c).
Proof.
  intros [He Ha Hk Hm Hnx Hc] Hin Haddr Hkey. subst l.
  split; cbn [set_items _items _items_map _next _cap]; rewrite ?fmap_cons.
  - by rewrite without_entries.
  - constructor; [|by apply NoDup_without]. rewrite Haddr.
    intros (m & ? & [Hne _]%elem_of_without)%list_elem_of_fmap. congruence.
  - constructor; [|by apply NoDup_without]. rewrite Hkey.
    intros (m & Heq & [Hne Hmin]%elem_of_without)%list_elem_of_fmap.
    apply Hne. by rewrite (node_unique entry_key c.(_items) m n).
  - intros k i. rewrite Hm. split.
    + intros (m & Hmin & <- & <-). destruct (decide (m.(address) = n.(address))) as [E|E].
      * exists n'. rewrite (node_unique address c.(_items) m n) by done. split; [left|done].
      * exists m. split; [right; by apply elem_of_without|done].
    + intros (m & [->|[_ Hmin]%elem_of_without]%elem_of_cons & <- & <-); [|by exists m].
      exists n. split_and!; congruence.
  - intros m [->|[_ Hmin]%elem_of_without]%elem_of_cons; [rewrite Haddr|]; by apply Hnx.
  - pose proof (without_length c.(_items) n Hin). cbn. lia.
Qed.

(** A node and its map entry removed. *)
Lemma rep_remove l c n :
  represents l c → n ∈ c.(_items) →
  represents (remove_key n.(entry_key) l)
    (set_items_map (delete n.(entry_key) c.(_items_map)) (set_items (without n.(address) c.(_items)) c)).
Proof.
  intros [He Ha Hk Hm Hnx Hc] Hin. subst l.
  split; cbn [set_items set_items_map _items _items_map _next _cap].
  - by rewrite without_entries.
  - by apply NoDup_without.
  - by apply NoDup_without.
  - intros k i. rewrite lookup_delete_Some, Hm. split.
    + intros (Hne & m & Hmin & <- & <-). exists m. split; [|done]. apply elem_of_without.
      split; [|done]. intros Heq. apply Hne. by rewrite (node_unique address c.(_items) m n).
    + intros (m & [Hne Hmin]%elem_of_without & <- & <-). split; [|by exists m].
      intros Heq. apply Hne. by rewrite (node_unique entry_key c.(_items) m n).
  - intros m [_ Hmin]%elem_of_without. by apply Hnx.
  - pose proof (without_length c.(_items) n Hin). lia.
Qed.

(** A fresh node in front. *)
Lemma rep_insert l c k v :
  represents l c → k ∉ l.*1 → (length c.(_items) < c.(_cap))%nat →
  represents ((k, v) :: l)
    {| _cap := c.(_cap);
       _items := {| address := c.(_next); entry_key := k; entry_value := v |} :: c.(_items);
       _items_map := <[k := c.(_next)]> c.(_items_map); _next := S c.(_next) |}.
Proof.
  intros [He Ha Hk Hm Hnx Hc] Hnk Hlen. subst l. rewrite keys_entries in Hnk.
  split; cbn [_items _items_map _next _cap]; rewrite ?fmap_cons.
  - done.
  - constructor; [|done]. intros (m & E & Hmin)%list_elem_of_fmap. cbn in E.
    apply Hnx in Hmin. lia.
  - by constructor.
  - intros k' i. rewrite lookup_insert_Some, Hm. split.
    + intros [[<- <-]|(Hne & m & Hmin & <- & <-)].
      * eexists. split; [left|done].
      * exists m. split; [by right|done].
    + intros (m & [->|Hmin]%elem_of_cons & <- & <-); [by left|right].
      split; [|by exists m]. intros ->. apply Hnk, list_elem_of_fmap. eauto.
  - intros m [->|Hmin%Hnx]%elem_of_cons; cbn; lia.
  - cbn. lia.
Qed.

Lemma last_without (l : list node) n :
  NoDup (address <$> l) → list.last l = Some n → removelast l = without n.(address) l.
Proof.
  intros Hnd [l' ->]%last_Some. rewrite removelast_last. unfold without.
  rewrite list.filter_app, filter_cons_False, filter_nil, app_nil_r by tauto.
  rewrite fmap_app in Hnd. apply list.NoDup_app in Hnd as (_ & Hdis & _).
  symmetry. apply list_filter_all. intros m Hm Heq. apply (Hdis m.(address)).
  - by apply list_elem_of_fmap_2.
  - rewrite Heq. left.
Qed.

(** ** Each operation *)

Lemma contains_refines l c k :
  represents l c → contains k c = (Ret (bool_decide (k ∈ l.*1)), c).
Proof.
  intros Hr. unfold contains. run_simpl. rewrite ret_run. do 2 f_equal. apply bool_decide_ext.
  by apply rep_contains.
Qed.

Lemma splice_front_refines l c n :
  represents l c → n ∈ c.(_items) →
  splice_front n.(address) c = (Ret tt, set_items (n :: without n.(address) c.(_items)) c).
Proof.
  intros Hr Hin. unfold splice_front. rewrite bind_run, deref_run by (done || apply Hr). done.
Qed.

Lemma get_refines cap l c k :
  represents l c →
  ∃ c', (v ← get k; mret (Value v)) c = ((lru_abstract cap (Get k) l).1, c') ∧
    represents (use k l) c' ∧ c'.(_cap) = c.(_cap).
Proof.
  intros Hr. unfold get, use. cbn [lru_abstract fst]. run_simpl.
  destruct (_items_map c !! k) as [i|] eqn:E.
  - destruct (rep_hit l c k i Hr E) as (n & Hin & <- & <- & Hv). rewrite Hv.
    rewrite bind_run, (splice_front_refines l) by done. run_simpl.
    pose proof (rep_front l c n n Hr Hin eq_refl eq_refl) as Hr'.
    rewrite deref_run by (apply Hr' || left). by eexists.
  - rewrite value_of_miss by by eapply rep_miss. by exists c.
Qed.

(** [put] on a key that is present. *)
Lemma put_hit_refines l c k i v :
  represents l c → c.(_items_map) !! k = Some i →
  ∃ c', (_ ← set_value i v; splice_front i) c = (Ret tt, c') ∧
    represents ((k, v) :: remove_key k l) c' ∧ c'.(_cap) = c.(_cap).
Proof.
  intros Hr E. destruct (rep_hit l c k i Hr E) as (n & Hin & <- & <- & Hv).
  set (upd := λ m, if decide (m.(address) = n.(address))
    then {| address := m.(address); entry_key := m.(entry_key); entry_value := v |} else m).
  set (n' := {| address := n.(address); entry_key := n.(entry_key); entry_value := v |}).
  assert (∀ m, address (upd m) = address m) as Hupd by (intros m; unfold upd; by case_decide).
  assert (n' ∈ upd <$> c.(_items)) as Hin'.
  { apply list_elem_of_fmap. exists n. split; [|done]. unfold upd. by rewrite decide_True. }
  assert (without n.(address) (upd <$> c.(_items)) = without n.(address) c.(_items)) as Hw.
  { unfold without. rewrite list_filter_fmap.
    rewrite (list_filter_iff_in _ (λ m, m.(address) ≠ n.(address))) by (intros m _; by rewrite Hupd).
    rewrite <- (list_fmap_id (filter _ c.(_items))) at 2. apply list_fmap_ext.
    intros j m Hm. apply list_elem_of_lookup_2, elem_of_without in Hm as [Hne _].
    unfold upd. by rewrite decide_False. }
  exists (set_items (n' :: without n.(address) c.(_items)) c).
  split; [|split; [exact (rep_front l c n n' Hr Hin eq_refl eq_refl)|done]].
  unfold set_value. run_simpl. rewrite deref_run by (done || apply Hr). run_simpl.
  unfold splice_front. run_simpl. fold upd. change (address n) with (address n').
  rewrite deref_run; [|cbn; by rewrite <- list_fmap_compose, (list_fmap_ext _ address) by (intros; apply Hupd); apply Hr|exact Hin'].
  run_simpl. unfold modify. cbn [set_items _items _items_map _cap _next].
  change (address n') with (address n). by rewrite Hw.
Qed.

(** The eviction step of [put]. *)
Lemma evict_refines l c :
  represents l c → (0 < c.(_cap))%nat →
  ∃ c', (if decide (c.(_cap) ≤ length c.(_items))%nat then
     match list.last c.(_items) with
     | None => crash (undefined_behaviour "back() of an empty list")
     | Some old =>
         _ ← modify (λ c, set_items_map (delete old.(entry_key) c.(_items_map)) c);
         modify (λ c, set_items (removelast c.(_items)) c)
     end else mret tt) c = (Ret tt, c') ∧
    represents (if decide (c.(_cap) ≤ length l)%nat then removelast l else l) c' ∧
    (length c'.(_items) < c'.(_cap))%nat ∧ c'.(_cap) = c.(_cap).
Proof.
  intros Hr Hcap. assert (length l = length c.(_items)) as ->.
  { rewrite <- (rep_entries _ _ Hr). apply length_fmap. }
  case_decide as Hfull; [|exists c; split_and!; (done || lia)].
  destruct (list.last c.(_items)) as [n|] eqn:Hlast.
  - assert (n ∈ c.(_items)) as Hin by by apply last_Some_elem_of.
    pose proof (rep_remove l c n Hr Hin) as Hr'.
    assert (remove_key n.(entry_key) l = removelast l) as <-.
    { rewrite <- (rep_entries _ _ Hr), <- without_entries by (done || apply Hr).
      rewrite <- last_without by (done || apply Hr). apply last_Some in Hlast as [l' ->].
      rewrite fmap_app, removelast_last. symmetry. apply removelast_last. }
    assert (removelast c.(_items) = without n.(address) c.(_items)) as Hw
      by (apply last_without; [apply Hr|done]).
    run_simpl. unfold modify. cbn [set_items_map _items]. rewrite Hw.
    eexists. split; [reflexivity|]. split; [exact Hr'|].
    cbn. pose proof (rep_cap _ _ Hr). pose proof (without_length _ _ Hin). lia.
  - apply last_None in Hlast. rewrite Hlast in Hfull. cbn in Hfull. lia.
Qed.

Lemma not_in_removelast k (l : entries) : k ∉ l.*1 → k ∉ (removelast l).*1.
Proof.
  destruct l as [|e l _] using rev_ind; [done|]. rewrite removelast_last, fmap_app. set_solver.
Qed.

Lemma put_refines l c k v :
  represents l c → (0 < c.(_cap))%nat →
  ∃ c', put k v c = (Ret tt, c') ∧ represents (insert_entry c.(_cap) k v l) c' ∧
    c'.(_cap) = c.(_cap).
Proof.
  intros Hr Hcap. unfold put, insert_entry. rewrite bind_run. cbn [get_state].
  destruct (_items_map c !! k) as [i|] eqn:E.
  - destruct (rep_hit l c k i Hr E) as (n & _ & _ & _ & ->). by apply put_hit_refines.
  - pose proof (rep_miss l c k Hr E) as Hmiss. rewrite value_of_miss by done.
    destruct (evict_refines l c Hr Hcap) as (c1 & E1 & Hr1 & Hlen & Hc1).
    rewrite bind_run, E1. run_simpl. eexists. split; [reflexivity|]. split; [|done].
    apply rep_insert; [done| |done]. case_decide; [by apply not_in_removelast|done].
Qed.

Lemma remove_key_miss k (l : entries) : k ∉ l.*1 → remove_key k l = l.
Proof.
  intros Hk. apply list_filter_all. intros e He Heq. apply Hk. subst.
  by apply list_elem_of_fmap_2.
Qed.

Lemma erase_refines l c k :
  represents l c →
  ∃ c', erase k c = (Ret tt, c') ∧ represents (remove_key k l) c' ∧ c'.(_cap) = c.(_cap).
Proof.
  intros Hr. unfold erase. run_simpl. destruct (_items_map c !! k) as [i|] eqn:E.
  - destruct (rep_hit l c k i Hr E) as (n & Hin & <- & <- & _).
    unfold list_erase. run_simpl. rewrite deref_run by (done || apply Hr). run_simpl.
    eexists. split; [reflexivity|]. split; [|done]. exact (rep_remove l c n Hr Hin).
  - exists c. split; [done|]. split; [|done]. by rewrite remove_key_miss by by eapply rep_miss.
Qed.

Lemma new_represents cap : represents [] (lru_cache_new cap).
Proof.
  split; cbn; [done|constructor|constructor| |by intros n ?%elem_of_nil|lia].
  intros k i. rewrite lookup_empty. split; [done|]. intros (n & Hn & _). by apply elem_of_nil in Hn.
Qed.

Lemma clear_refines l c :
  represents l c → ∃ c', clear c = (Ret tt, c') ∧ represents [] c' ∧ c'.(_cap) = c.(_cap).
Proof.
  intros Hr. unfold clear. run_simpl. eexists. split; [reflexivity|]. split; [|done].
  split; cbn; [done|constructor|constructor| |by intros n ?%elem_of_nil|lia].
  intros k i. rewrite lookup_empty. split; [done|]. intros (n & Hn & _). by apply elem_of_nil in Hn.
Qed.

Lemma lru_exec_refines o l c :
  represents l c → (0 < c.(_cap))%nat →
  ∃ c', lru_exec o c = ((lru_abstract c.(_cap) o l).1, c') ∧
    represents (lru_abstract c.(_cap) o l).2 c' ∧ c'.(_cap) = c.(_cap).
Proof.
  intros Hr Hcap. destruct o as [k|k|k v|k|]; cbn [lru_exec].
  - rewrite bind_run, (contains_refines l) by done. by exists c.
  - by apply get_refines.
  - destruct (put_refines l c k v Hr Hcap) as (c' & E & H). exists c'. by rewrite bind_run, E.
  - destruct (erase_refines l c k Hr) as (c' & E & H). exists c'. by rewrite bind_run, E.
  - destruct (clear_refines l c Hr) as (c' & E & H). exists c'. by rewrite bind_run, E.
Qed.

Lemma lru_run_refines ops l c :
  represents l c → (0 < c.(_cap))%nat →
  ∃ c', lru_run ops c = ((lru_abstract_run c.(_cap) ops l).1, c') ∧
    represents (lru_abstract_run c.(_cap) ops l).2 c' ∧ c'.(_cap) = c.(_cap).
Proof.
  revert l c. induction ops as [|o ops IH]; intros l c Hr Hcap; cbn [lru_run lru_abstract_run].
  { by exists c. }
  destruct (lru_exec_refines o l c Hr Hcap) as (c1 & -> & H1 & Hc1).
  destruct (lru_abstract (_cap c) o l) as [r l1]. cbn [fst snd] in *.
  destruct (IH l1 c1 H1) as (c2 & -> & H2 & Hc2); [lia|]. rewrite Hc1 in H2 |- *.
  destruct (lru_abstract_run (_cap c) ops l1) as [rs l2]. exists c2. by rewrite Hc2, Hc1.
Qed.

(** ** What the cache keeps *)

(** All entries ever put, most recent first, one per key. *)
Definition recency (ps : entries) : entries :=
  foldl (λ l e, e :: remove_key e.1 l) [] ps.

Lemma remove_key_NoDup k l : NoDup l.*1 → NoDup (remove_key k l).*1.
Proof. intros Hnd. eapply sublist_NoDup; [exact Hnd|]. apply fmap_sublist, sublist_filter. Qed.

Lemma remove_key_not_in k l : k ∉ (remove_key k l).*1.
Proof.
  intros ([k' v] & -> & Hin)%list_elem_of_fmap. unfold remove_key in Hin.
  apply list_elem_of_filter in Hin as [Hne _]. by apply Hne.
Qed.

Lemma recency_NoDup ps : NoDup (recency ps).*1.
Proof.
  unfold recency. assert (NoDup ([] : entries).*1) as H by constructor. revert H.
  generalize ([] : entries). induction ps as [|[k v] ps IH]; intros l Hl; cbn; [done|].
  apply IH. cbn. constructor; [apply remove_key_not_in|by apply remove_key_NoDup].
Qed.

Lemma length_remove_key k l :
  NoDup l.*1 → k ∈ l.*1 → S (length (remove_key k l)) = length l.
Proof.
  induction l as [|[k' v] l IH]; intros Hnd Hin; cbn in Hnd, Hin; [by apply elem_of_nil in Hin|].
  apply list.NoDup_cons in Hnd as [Hni Hnd]. unfold remove_key. destruct (decide (k = k')) as [->|Hne].
  - rewrite filter_cons_False by (cbn; tauto). f_equal.
    fold (remove_key k' l). by rewrite remove_key_miss.
  - rewrite filter_cons_True by (cbn; congruence). cbn. f_equal. apply IH; [done|].
    by apply elem_of_cons in Hin as [?|?].
Qed.

Lemma value_of_hit k l : NoDup l.*1 → k ∈ l.*1 → ∃ v, value_of k l = Some v.
Proof.
  intros Hnd ([k' v] & -> & Hin)%list_elem_of_fmap. exists v. by apply elem_of_list_to_map_1.
Qed.

Lemma elem_of_remove_key k (l : entries) e :
  e ∈ remove_key k l ↔ e.1 ≠ k ∧ e ∈ l.
Proof. unfold remove_key. by rewrite list_elem_of_filter. Qed.

Lemma elem_of_removelast {A} (x : A) l : x ∈ removelast l → x ∈ l.
Proof.
  destruct l as [|y l _] using rev_ind; [done|]. rewrite removelast_last. set_solver.
Qed.

Lemma elem_of_insert_entry cap k v (l : entries) e :
  e ∈ insert_entry cap k v l → k ∉ l.*1 ∨ NoDup l.*1 → e = (k, v) ∨ (e.1 ≠ k ∧ e ∈ l).
Proof.
  unfold insert_entry. intros He Hl.
  destruct (value_of k l) as [v'|] eqn:E; apply elem_of_cons in He as [->|He]; try by left.
  - right. by apply elem_of_remove_key.
  - right. assert (e ∈ l) as Hin.
    { case_decide; [by apply elem_of_removelast|done]. }
    split; [|done]. intros Heq. assert (k ∈ l.*1) as Hk.
    { rewrite <- Heq. by apply list_elem_of_fmap_2. }
    destruct Hl as [?|Hnd]; [done|]. destruct (value_of_hit k l Hnd Hk) as [? ?]. congruence.
Qed.

Lemma elem_of_use k (l : entries) e :
  e ∈ use k l → e ∈ l ∨ (∃ v, e = (k, v) ∧ value_of k l = Some v).
Proof.
  unfold use. destruct (value_of k l) as [v|] eqn:E; [|by left].
  intros [->|[_ He]%elem_of_remove_key]%elem_of_cons; eauto.
Qed.

Lemma value_of_elem k (l : entries) v :
  value_of k l = Some v → (k, v) ∈ l.
Proof. apply elem_of_list_to_map_2. Qed.

Lemma rep_NoDup l c : represents l c → NoDup l.*1.
Proof. intros Hr. rewrite <- (rep_entries _ _ Hr), keys_entries. apply Hr. Qed.

Lemma get_hit l c k :
  represents l c → k ∈ l.*1 →
  ∃ v c', get k c = (Ret v, c') ∧ (k, v) ∈ l ∧ represents (use k l) c' ∧ c'.(_cap) = c.(_cap).
Proof.
  intros Hr Hk. destruct (value_of_hit k l (rep_NoDup _ _ Hr) Hk) as [v Hv].
  destruct (get_refines 1 l c k Hr) as (c' & E & Hr' & Hc). rewrite bind_run in E.
  cbn [lru_abstract fst] in E. rewrite Hv in E. exists v, c'.
  destruct (get k c) as [[w|e|f] c1]; unfold mret, M_ret in E; simplify_eq.
  split_and!; try done. by apply value_of_elem.
Qed.

(** Truncation commutes with insertion. *)
Lemma insert_entry_take cap k v l :
  (0 < cap)%nat → NoDup l.*1 →
  insert_entry cap k v (take cap l) = take cap ((k, v) :: remove_key k l).
Proof.
  intros Hcap Hnd. destruct cap as [|cap]; [lia|]. rewrite firstn_cons.
  rewrite <- (take_drop (S cap) l) in Hnd at 1. rewrite fmap_app in Hnd.
  apply list.NoDup_app in Hnd as (Hnd & Hdis & _).
  assert (remove_key k l = remove_key k (take (S cap) l) ++ remove_key k (drop (S cap) l)) as ->.
  { unfold remove_key. by rewrite <- list.filter_app, take_drop. }
  pose proof (length_take l (S cap)) as Hlt. unfold insert_entry.
  destruct (decide (k ∈ (take (S cap) l).*1)) as [Hin|Hni].
  - destruct (value_of_hit _ _ Hnd Hin) as [v' ->]. f_equal.
    pose proof (length_remove_key _ _ Hnd Hin) as Hlr.
    rewrite (remove_key_miss k (drop _ _)) by by apply Hdis.
    destruct (decide (S cap ≤ length l)%nat).
    + by rewrite take_app_le, (take_ge (remove_key _ _)) by lia.
    + rewrite (drop_ge l) by lia. cbn. by rewrite app_nil_r, (take_ge (remove_key _ _)) by lia.
  - rewrite value_of_miss, (remove_key_miss k (take _ _)) by done. f_equal.
    destruct (decide (S cap ≤ length l)%nat).
    + rewrite decide_True by lia. rewrite take_app_le by lia.
      by rewrite removelast_firstn, take_take, Nat.min_l by lia.
    + rewrite decide_False by lia. rewrite (drop_ge l) by lia. cbn. rewrite app_nil_r.
      by rewrite (take_ge (take _ _)) by lia.
Qed.

Lemma abstract_puts cap ps l :
  (0 < cap)%nat → NoDup l.*1 →
  (lru_abstract_run cap ((λ e, Put e.1 e.2) <$> ps) (take cap l)).2 =
  take cap (foldl (λ l e, e :: remove_key e.1 l) l ps).
Proof.
  intros Hcap. revert l. induction ps as [|[k v] ps IH]; intros l Hnd; [done|].
  cbn [fmap list_fmap lru_abstract_run lru_abstract fst snd foldl].
  rewrite insert_entry_take by done. specialize (IH ((k, v) :: remove_key k l)).
  cbn [fst] in *. rewrite <- IH by (constructor; [apply remove_key_not_in|by apply remove_key_NoDup]).
  by destruct (lru_abstract_run _ _ _).
Qed.

(** ** Theorems *)

(** C18. Every call, in any sequence, answers as the abstract cache: iterators never
    dangle and the map never disagrees with the list. *)
Theorem lru_cache_refines cap ops :
  (0 < cap)%nat →
  (lru_run ops (lru_cache_new cap)).1 = (lru_abstract_run cap ops []).1.
Proof.
  intros Hcap. by destruct (lru_run_refines ops [] _ (new_represents cap) Hcap) as (c & -> & _).
Qed.

(** After any sequence of puts the cache holds exactly the [cap] most recently
    put keys, each with its last value, most recent first. *)
Theorem lru_keeps_most_recent cap ps :
  (0 < cap)%nat →
  entry_of <$> (lru_run ((λ e, Put e.1 e.2) <$> ps) (lru_cache_new cap)).2.(_items) =
  take cap (recency ps).
Proof.
  intros Hcap.
  destruct (lru_run_refines ((λ e, Put e.1 e.2) <$> ps) [] _ (new_represents cap) Hcap)
    as (c & -> & Hr & _).
  cbn [snd]. rewrite (rep_entries _ _ Hr). cbn [lru_cache_new _cap].
  pose proof (abstract_puts cap ps [] Hcap ltac:(constructor)) as H. by rewrite take_nil in H.
Qed.

(** A cache of capacity 0 cannot be used: the first [put] takes [back()] of an
    empty list. *)
Theorem lru_zero_capacity k v :
  put k v (lru_cache_new 0) =
  (Crash (undefined_behaviour "back() of an empty list"), lru_cache_new 0).
Proof. done. Qed.
End LruCache.

Arguments lru_cache : clear implicits.
Arguments lru_op : clear implicits.
Arguments node : clear implicits.

Lemma lru_cache_refines_witness :
  (lru_run [Put "a" 1; Put "b" 2; Get "a"; Put "c" 3; Contains "b"; Get "b"; Erase "a"; Get "c"]
     (lru_cache_new 2)).1 =
  [Ret Done; Ret Done; Ret (Value 1); Ret Done; Ret (Found false);
   Throw (out_of_range "Key not found in lru_cache: b"); Ret Done; Ret (Value 3)].
Proof. rewrite (lru_cache_refines 2 _ ltac:(lia)). vm_compute. reflexivity. Defined.

Lemma lru_keeps_most_recent_witness :
  entry_of <$> (lru_run ((λ e, Put e.1 e.2) <$> [("a", 1); ("b", 2); ("a", 3); ("c", 4)]%string)
     (lru_cache_new 2)).2.(_items) = [("c", 4); ("a", 3)]%string.
Proof. rewrite (lru_keeps_most_recent 2 _ ltac:(lia)). vm_compute. reflexivity. Defined.
