(* ===== verification/HashCache.v ===== *)
(** * discovery/hash_cache.cpp: the class [hash_cache]

    SHA-256 digests of files by name, in an [lru_cache]. *)
From S2P Require Import Prelude Sha256Spec Sha256 Sha256Stream LruCache.

Abbreviation hash_cache := (lru_cache string).

(** [hash_cache(capacity = 50)] *)
Definition hash_cache_new (capacity : nat) : hash_cache := lru_cache_new capacity.

Definition hash_file (name : string) (file : bytes) : M hash_cache string :=
  hash ← lift (SHA256_call file SHA256_new).1;
  _ ← put name hash;
  mret hash.

Definition get_file_hash (name : string) : M hash_cache (option string) :=
  b ← contains name;
  if (b : bool) then h ← get name; mret (Some h) else mret None.

Definition has_file (name : string) : M hash_cache bool := contains name.

Definition erase_hash (name : string) : M hash_cache unit := LruCache.erase name.

(** Calls as data. *)
Inductive hash_op :=
  | HashFile (name : string) (file : bytes)
  | GetFileHash (name : string)
  | HasFile (name : string)
  | EraseFile (name : string).

Definition hash_exec (o : hash_op) : M hash_cache unit :=
  match o with
  | HashFile name file => _ ← hash_file name file; mret tt
  | GetFileHash name => _ ← get_file_hash name; mret tt
  | HasFile name => _ ← has_file name; mret tt
  | EraseFile name => erase_hash name
  end.

(** The file last hashed under a name, unless it was erased since. *)
Definition last_hashed (name : string) (ops : list hash_op) : option bytes :=
  foldl (λ acc o, match o with
                  | HashFile n f => if decide (n = name) then Some f else acc
                  | EraseFile n => if decide (n = name) then None else acc
                  | _ => acc
                  end) None ops.

(** ** Lemmas *)

(** Every cached digest is that of the file last hashed under its name. *)
Definition hashes_of (ops : list hash_op) (l : list (string * string)) : Prop :=
  ∀ k h, (k, h) ∈ l → ∃ f, last_hashed k ops = Some f ∧ h = sha256_hex f.

Lemma last_hashed_snoc k ops o :
  last_hashed k (ops ++ [o]) =
  match o with
  | HashFile n f => if decide (n = k) then Some f else last_hashed k ops
  | EraseFile n => if decide (n = k) then None else last_hashed k ops
  | _ => last_hashed k ops
  end.
Proof. unfold last_hashed. rewrite foldl_app. by destruct o. Qed.

Lemma get_file_hash_run l c k :
  represents l c →
  ∃ c', get_file_hash k c = (Ret (value_of k l), c') ∧ represents (use k l) c' ∧
    c'.(_cap) = c.(_cap).
Proof.
  intros Hr. unfold get_file_hash. rewrite bind_run, (contains_refines l) by done.
  destruct (get_refines 1 l c k Hr) as (c' & E & Hr' & Hc). rewrite bind_run in E.
  case_bool_decide as Hk.
  - assert (NoDup l.*1) as Hnd.
    { rewrite <- (rep_entries _ _ Hr), keys_entries. apply Hr. }
    destruct (value_of_hit k l Hnd Hk) as [v Hv]. cbn [lru_abstract fst] in E. rewrite Hv in E |- *.
    exists c'. split; [|done]. rewrite bind_run.
    destruct (get k c) as [[w|e|f] c1]; unfold mret, M_ret in E; by simplify_eq.
  - exists c. unfold use. rewrite value_of_miss by done. done.
Qed.

(** The digest [hash_file] computes. *)
Lemma sha_hash file : (SHA256_call file SHA256_new).1 = Ret (sha256_hex file).
Proof. by destruct (SHA256_call_run file SHA256_new eq_refl) as (s & -> & _). Qed.

Lemma hash_exec_step ops o l c :
  represents l c → (0 < c.(_cap))%nat → hashes_of ops l →
  ∃ l' c', hash_exec o c = (Ret tt, c') ∧ represents l' c' ∧ hashes_of (ops ++ [o]) l' ∧
    c'.(_cap) = c.(_cap).
Proof.
  intros Hr Hcap Hh. pose proof (rep_NoDup l c Hr) as Hnd.
  destruct o as [n f|n|n|n]; cbn [hash_exec].
  - destruct (put_refines l c n (sha256_hex f) Hr Hcap) as (c' & E & Hr' & Hc).
    exists (insert_entry (_cap c) n (sha256_hex f) l), c'. split_and!; [|done| |done].
    + unfold hash_file. rewrite !bind_run. unfold lift. by rewrite sha_hash, bind_run, E.
    + intros k h Hin. rewrite last_hashed_snoc.
      apply elem_of_insert_entry in Hin as [[= -> ->]|[Hne Hin]]; [| |by right].
      * rewrite decide_True by done. eauto.
      * rewrite decide_False by (cbn in Hne; congruence). by apply Hh.
  - destruct (get_file_hash_run l c n Hr) as (c' & E & Hr' & Hc).
    exists (use n l), c'. split_and!; [by rewrite bind_run, E|done| |done].
    intros k h Hin. rewrite last_hashed_snoc. apply Hh.
    apply elem_of_use in Hin as [?|(v & [= -> ->] & Hv)]; [done|by apply value_of_elem].
  - exists l, c. unfold has_file. rewrite bind_run, (contains_refines l) by done.
    split_and!; try done. intros k h Hin. rewrite last_hashed_snoc. by apply Hh.
  - destruct (erase_refines l c n Hr) as (c' & E & Hr' & Hc).
    exists (remove_key n l), c'. split_and!; [exact E|done| |done].
    intros k h [Hne Hin]%elem_of_remove_key. cbn in Hne. rewrite last_hashed_snoc.
    rewrite decide_False by congruence. by apply Hh.
Qed.

Lemma hash_run_invariant ops c cap :
  (0 < cap)%nat → for_each ops hash_exec (hash_cache_new cap) = (Ret tt, c) →
  ∃ l, represents l c ∧ hashes_of ops l ∧ c.(_cap) = cap.
Proof.
  intros Hcap. revert c. induction ops as [|o ops IH] using rev_ind; intros c.
  - cbn. intros [= <-]. exists []. split_and!; [apply new_represents| |done].
    by intros k h ?%elem_of_nil.
  - rewrite for_each_app, bind_run.
    destruct (for_each ops hash_exec _) as [[[]|e|f] c1] eqn:E; try done.
    destruct (IH c1 eq_refl) as (l & Hr & Hh & Hc). cbn [for_each]. rewrite bind_run.
    destruct (hash_exec_step ops o l c1 Hr) as (l' & c' & -> & Hr' & Hh' & Hc'); [lia|done|].
    intros [= <-]. exists l'. split_and!; [done..|lia].
Qed.

Lemma hash_run_total ops cap :
  (0 < cap)%nat → ∃ c, for_each ops hash_exec (hash_cache_new cap) = (Ret tt, c).
Proof.
  intros Hcap. induction ops as [|o ops [c E]] using rev_ind; [by eexists|].
  destruct (hash_run_invariant ops c cap Hcap E) as (l & Hr & Hh & Hc).
  destruct (hash_exec_step ops o l c Hr) as (l' & c' & Eo & _); [lia|done|].
  exists c'. rewrite for_each_app, bind_run, E. cbn [for_each]. by rewrite bind_run, Eo.
Qed.

(** After any calls, a digest the cache returns is the SHA-256 of the contents
    last hashed under that name, and one is returned right after hashing. *)
Theorem hash_cache_sound cap ops name :
  (0 < cap)%nat →
  ∃ c r c', for_each ops hash_exec (hash_cache_new cap) = (Ret tt, c) ∧
    get_file_hash name c = (Ret r, c') ∧
    (∀ h, r = Some h → ∃ f, last_hashed name ops = Some f ∧ h = sha256_hex f) ∧
    (∀ f ops', ops = ops' ++ [HashFile name f] → r = Some (sha256_hex f)).
Proof.
  intros Hcap. destruct (hash_run_total ops cap Hcap) as [c E].
  destruct (hash_run_invariant ops c cap Hcap E) as (l & Hr & Hh & Hc).
  destruct (get_file_hash_run l c name Hr) as (c' & E' & _ & _).
  exists c, (value_of name l), c'. split_and!; [done|done| |].
  - intros h Hv. apply Hh. by apply value_of_elem.
  - intros f ops' ->. rewrite for_each_app, bind_run in E.
    destruct (hash_run_total ops' cap Hcap) as [c1 E1]. rewrite E1 in E.
    destruct (hash_run_invariant ops' c1 cap Hcap E1) as (l1 & Hr1 & _ & Hc1).
    destruct (put_refines l1 c1 name (sha256_hex f) Hr1) as (c2 & E2 & Hr2 & _); [lia|].
    cbn [for_each hash_exec] in E. unfold hash_file, lift in E.
    rewrite !bind_run, sha_hash, bind_run, E2 in E. unfold mret, M_ret in E. simplify_eq.
    assert (l = insert_entry (_cap c1) name (sha256_hex f) l1) as ->.
    { by rewrite <- (rep_entries _ _ Hr), <- (rep_entries _ _ Hr2). }
    pose proof (rep_NoDup _ _ Hr2) as Hnd. apply elem_of_list_to_map_1; [done|].
    unfold insert_entry. destruct (value_of name l1); left.
Qed.

Lemma hash_cache_sound_witness :
  ∃ c r c', for_each [HashFile "lib" (ascii_bytes "abc")] hash_exec (hash_cache_new 1) = (Ret tt, c) ∧
    get_file_hash "lib" c = (Ret r, c') ∧ r = Some (sha256_hex (ascii_bytes "abc")).
Proof.
  destruct (hash_cache_sound 1 [HashFile "lib" (ascii_bytes "abc")] "lib" ltac:(lia))
    as (c & r & c' & E & E' & _ & H).
  exists c, r, c'. split; [exact E|]. split; [exact E'|]. by apply (H _ []).
Defined.
