(* ===== verification/LibLoader.v ===== *)
(** * dynamic/include/lib_loader.h, defines.h: loading shared libraries

    The operating system's part is a record: a file system and the images that
    are mapped into the process ([dlopen] maps the file's contents of that
    moment and gives a fresh handle, [dlclose] unmaps). What a library's code
    does is a parameter ([UdpCode]): which symbols an image exports and what
    its allocator and cloner return. [dlsym] on a null handle searches the
    program itself, as on Linux. Using the code of an image that is no longer
    mapped is undefined behaviour. *)
From S2P Require Import Prelude.

(** Third-party library code: images are file contents. *)
Class UdpCode := {
  any : Type;
  no_params : any;
  udp : Type;
  udp_lib_name : udp → string;
  image_loadable : bytes → bool;
  image_symbol : bytes → string → bool;
  image_allocate : bytes → any → exn + udp;  (* a constructor may throw *)
  image_clone : bytes → udp → udp;
  program_image : bytes
}.

(** ** The operating system *)

Record os := {
  files : gmap string bytes;
  dirs : gset string;
  read_denied : gset string;
  write_denied : gset string;
  remove_denied : gset string;
  disk_full : bool;
  loaded : gmap nat bytes;
  next_handle : nat;
  dlclose_ok : bool;
  (** Images whose [run_after_load] has run, oldest first. *)
  after_load_log : list bytes
}.

Definition set_files (m : gmap string bytes) (o : os) : os :=
  {| files := m; dirs := o.(dirs); read_denied := o.(read_denied);
     write_denied := o.(write_denied); remove_denied := o.(remove_denied);
     disk_full := o.(disk_full); loaded := o.(loaded); next_handle := o.(next_handle);
     dlclose_ok := o.(dlclose_ok); after_load_log := o.(after_load_log) |}.
Definition set_dirs (d : gset string) (o : os) : os :=
  {| files := o.(files); dirs := d; read_denied := o.(read_denied);
     write_denied := o.(write_denied); remove_denied := o.(remove_denied);
     disk_full := o.(disk_full); loaded := o.(loaded); next_handle := o.(next_handle);
     dlclose_ok := o.(dlclose_ok); after_load_log := o.(after_load_log) |}.
Definition set_loaded (m : gmap nat bytes) (n : nat) (o : os) : os :=
  {| files := o.(files); dirs := o.(dirs); read_denied := o.(read_denied);
     write_denied := o.(write_denied); remove_denied := o.(remove_denied);
     disk_full := o.(disk_full); loaded := m; next_handle := n;
     dlclose_ok := o.(dlclose_ok); after_load_log := o.(after_load_log) |}.
Definition log_after_load (img : bytes) (o : os) : os :=
  {| files := o.(files); dirs := o.(dirs); read_denied := o.(read_denied);
     write_denied := o.(write_denied); remove_denied := o.(remove_denied);
     disk_full := o.(disk_full); loaded := o.(loaded); next_handle := o.(next_handle);
     dlclose_ok := o.(dlclose_ok); after_load_log := o.(after_load_log) ++ [img] |}.

(** [std::filesystem::exists] *)
Definition exists_path (p : string) (o : os) : bool :=
  bool_decide (is_Some (o.(files) !! p) ∨ p ∈ o.(dirs)).

Definition unmapped : fault := undefined_behaviour "code of an unmapped library".

(** ** [lib_loader] *)

Section LibLoader.
Context {UC : UdpCode}.

Definition portable_dlopen (path : string) : M os (option nat) :=
  o ← get_state;
  match o.(files) !! path with
  | Some image =>
      if decide (path ∈ o.(read_denied)) then mret None
      else if image_loadable image then
        let h := o.(next_handle) in
        _ ← put_state (set_loaded (<[h := image]> o.(loaded)) (S h) o);
        mret (Some h)
      else mret None
  | None => mret None
  end.

(** The image a handle gives access to. *)
Definition image_of (h : option nat) : M os bytes :=
  match h with
  | None => mret program_image
  | Some h =>
      o ← get_state;
      match o.(loaded) !! h with
      | Some image => mret image
      | None => crash unmapped
      end
  end.

Definition portable_dlsym (h : option nat) (symbol : string) : M os bool :=
  image ← image_of h; mret (image_symbol image symbol).

(** [portable_dlclose] and [has_dlclose_failed] *)
Definition dlclose_failed (h : nat) : M os bool :=
  o ← get_state;
  if o.(dlclose_ok) then
    _ ← put_state (set_loaded (delete h o.(loaded)) o.(next_handle) o);
    mret false
  else mret true.

(** [T*] held by a [shared_ptr]: the object and the library its code is in. *)
Record udp_ptr := { object : udp; code : option nat }.

Record lib_loader := {
  _handle : option nat;
  _pathToLib : string;
  _allocSymbol : string;
  _deleteSymbol : string;
  _runAfterLoadSymbol : string;
  _cloneSymbol : string;
  _afterLoadExecuted : bool
}.

Definition lib_loader_new (pathToLib : string) : lib_loader :=
  {| _handle := None; _pathToLib := pathToLib; _allocSymbol := "allocator";
     _deleteSymbol := "deleter"; _runAfterLoadSymbol := "run_after_load";
     _cloneSymbol := "cloner"; _afterLoadExecuted := false |}.

Definition set_handle (h : option nat) (l : lib_loader) : lib_loader :=
  {| _handle := h; _pathToLib := l.(_pathToLib); _allocSymbol := l.(_allocSymbol);
     _deleteSymbol := l.(_deleteSymbol); _runAfterLoadSymbol := l.(_runAfterLoadSymbol);
     _cloneSymbol := l.(_cloneSymbol); _afterLoadExecuted := l.(_afterLoadExecuted) |}.
Definition set_after_load (b : bool) (l : lib_loader) : lib_loader :=
  {| _handle := l.(_handle); _pathToLib := l.(_pathToLib); _allocSymbol := l.(_allocSymbol);
     _deleteSymbol := l.(_deleteSymbol); _runAfterLoadSymbol := l.(_runAfterLoadSymbol);
     _cloneSymbol := l.(_cloneSymbol); _afterLoadExecuted := b |}.

Definition in_os {A} (m : M os A) : M (lib_loader * os) A :=
  zoom snd (λ o s, (s.1, o)) m.
Definition this_loader : M (lib_loader * os) lib_loader := s ← get_state; mret s.1.
Definition set_this (f : lib_loader → lib_loader) : M (lib_loader * os) unit :=
  modify (λ s, (f s.1, s.2)).

Definition error_msg : string := "dlerror".

Definition _ensure_after_load : M (lib_loader * os) unit :=
  l ← this_loader;
  if l.(_afterLoadExecuted) then mret tt
  else
    _ ← set_this (set_after_load true);
    found ← in_os (portable_dlsym l.(_handle) l.(_runAfterLoadSymbol));
    if (found : bool) then
      image ← in_os (image_of l.(_handle));
      in_os (modify (log_after_load image))
    else mret tt.

Definition open_lib : M (lib_loader * os) unit :=
  l ← this_loader;
  h ← in_os (portable_dlopen l.(_pathToLib));
  _ ← set_this (set_handle h);
  match h with
  | Some _ => mret tt
  | None => throw (runtime_error error_msg)
  end.

Definition close_lib : M (lib_loader * os) unit :=
  l ← this_loader;
  match l.(_handle) with
  | None => mret tt
  | Some h =>
      failed ← in_os (dlclose_failed h);
      if (failed : bool) then throw (runtime_error error_msg)
      else set_this (set_handle None)
  end.

Definition get_instance (params : any) : M (lib_loader * os) udp_ptr :=
  l ← this_loader;
  allocFunc ← in_os (portable_dlsym l.(_handle) l.(_allocSymbol));
  deleteFunc ← in_os (portable_dlsym l.(_handle) l.(_deleteSymbol));
  _ ← _ensure_after_load;
  if negb allocFunc || negb deleteFunc then
    _ ← close_lib;
    throw (runtime_error ("Can't find allocator or deleter symbol in " +:+ l.(_pathToLib)))
  else
    image ← in_os (image_of l.(_handle));
    match image_allocate image params with
    | inl e => throw e
    | inr u => mret {| object := u; code := l.(_handle) |}
    end.

(** A virtual call on an object runs its library's code. *)
Definition virtual_call (p : udp_ptr) : M os unit := _ ← image_of p.(code); mret tt.

Definition clone_instance (other : udp_ptr) : M (lib_loader * os) udp_ptr :=
  l ← this_loader;
  cloneFunc ← in_os (portable_dlsym l.(_handle) l.(_cloneSymbol));
  deleteFunc ← in_os (portable_dlsym l.(_handle) l.(_deleteSymbol));
  _ ← _ensure_after_load;
  if negb cloneFunc || negb deleteFunc then
    throw (runtime_error ("Can't find clone or deleter symbol in " +:+ l.(_pathToLib)))
  else
    image ← in_os (image_of l.(_handle));
    mret {| object := image_clone image other.(object); code := l.(_handle) |}.

(** ** Lemmas *)

(** What [open_lib] does when it returns. *)
Lemma open_lib_run l o u l' o' :
  open_lib (l, o) = (Ret u, (l', o')) →
  ∃ image, o.(files) !! l.(_pathToLib) = Some image ∧
    l' = set_handle (Some o.(next_handle)) l ∧
    o' = set_loaded (<[o.(next_handle) := image]> o.(loaded)) (S o.(next_handle)) o.
Proof.
  unfold open_lib, this_loader, in_os, set_this, portable_dlopen. m_eval.
  destruct (files o !! _pathToLib l) as [image|] eqn:E; m_eval; [|done].
  case_decide; m_eval; [done|]. destruct (image_loadable image); m_eval; [|done].
  intros. simplify_eq. by exists image.
Qed.

Lemma open_lib_never_crashes l o f s : open_lib (l, o) ≠ (Crash f, s).
Proof.
  unfold open_lib, this_loader, in_os, set_this, portable_dlopen. m_eval.
  destruct (files o !! _pathToLib l) as [image|] eqn:E; m_eval; [|done].
  case_decide; m_eval; [done|]. by destruct (image_loadable image); m_eval.
Qed.

(** A failing [open_lib] leaves the loader closed and maps nothing. *)
Lemma open_lib_throws l o e l' o' :
  open_lib (l, o) = (Throw e, (l', o')) →
  o' = o ∧ l' = set_handle None l ∧ e = runtime_error error_msg.
Proof.
  unfold open_lib, this_loader, in_os, set_this, portable_dlopen. m_eval.
  destruct (files o !! _pathToLib l) as [image|] eqn:E; m_eval; [|by intros; simplify_eq].
  case_decide; m_eval; [by intros; simplify_eq|].
  destruct (image_loadable image); m_eval; [done|by intros; simplify_eq].
Qed.

Lemma close_lib_run l o r l' o' :
  close_lib (l, o) = (r, (l', o')) →
  match l.(_handle), o.(dlclose_ok) with
  | None, _ => r = Ret tt ∧ l' = l ∧ o' = o
  | Some h, true => r = Ret tt ∧ l' = set_handle None l ∧
      o' = set_loaded (delete h o.(loaded)) o.(next_handle) o
  | Some h, false => r = Throw (runtime_error error_msg) ∧ l' = l ∧ o' = o
  end.
Proof.
  unfold close_lib, this_loader, in_os, set_this, dlclose_failed. m_eval.
  destruct (_handle l) as [h|] eqn:Eh; [|intros; by simplify_eq].
  m_eval. destruct (dlclose_ok o); m_eval; intros; by simplify_eq.
Qed.
End LibLoader.
