(* ===== verification/UdpRegistry.v ===== *)
(** * discovery/udp_registry.cpp: finding, loading and versioning of problem libraries

    The registry's members with the operating system they act on. Every public
    function but one locks the recursive mutex for its whole body, so each is
    one atomic step. [get_lib_file_hash] does not lock: it is the locked
    [get_lib_as_file] followed by [cached_hash], which accesses the hash cache
    without the mutex (unless its caller holds it, as [initialize_udp] does);
    UdpTheorems.v has the interleavings of threads. The provider (a callback that may use the network) is a
    computation on a state [N] of its own. *)
From Stdlib Require Import Ascii.
From S2P Require Import Prelude Sha256Spec LruCache HashCache LibLoader.

(** [std::filesystem::path::operator/] on POSIX. *)
Definition ends_with_slash (s : string) : bool :=
  match String.get (String.length s - 1) s with
  | Some c => bool_decide (c = "/"%char)
  | None => false
  end.

Definition path_join (a b : string) : string :=
  match b with
  | String "/" _ => b
  | _ => if String.eqb a "" || ends_with_slash a then a +:+ b else a +:+ "/" +:+ b
  end.

Definition portable_dll_extension : string := ".so".

Section UdpRegistry.
Context {UC : UdpCode} {N : Type}.

Record udp_registry := {
  _local_cache : string;
  _use_in_memory_cache : bool;
  _libFilesBuffer : lru_cache bytes;
  _lib_loaders : gmap string lib_loader;
  _udp_provider : option (string → M N (option bytes));
  _hash_cache : hash_cache;
  _os : os;
  _net : N
}.

Definition udp_registry_new (o : os) (n : N) : udp_registry :=
  {| _local_cache := "."; _use_in_memory_cache := true; _libFilesBuffer := lru_cache_new 5;
     _lib_loaders := ∅; _udp_provider := None; _hash_cache := hash_cache_new 50;
     _os := o; _net := n |}.

(** ** Field updates *)

Definition set_cache_dir (d : string) (r : udp_registry) : udp_registry :=
  {| _local_cache := d; _use_in_memory_cache := r.(_use_in_memory_cache);
     _libFilesBuffer := r.(_libFilesBuffer); _lib_loaders := r.(_lib_loaders);
     _udp_provider := r.(_udp_provider); _hash_cache := r.(_hash_cache);
     _os := r.(_os); _net := r.(_net) |}.
Definition set_in_memory (b : bool) (r : udp_registry) : udp_registry :=
  {| _local_cache := r.(_local_cache); _use_in_memory_cache := b;
     _libFilesBuffer := r.(_libFilesBuffer); _lib_loaders := r.(_lib_loaders);
     _udp_provider := r.(_udp_provider); _hash_cache := r.(_hash_cache);
     _os := r.(_os); _net := r.(_net) |}.
Definition set_files_buffer (b : lru_cache bytes) (r : udp_registry) : udp_registry :=
  {| _local_cache := r.(_local_cache); _use_in_memory_cache := r.(_use_in_memory_cache);
     _libFilesBuffer := b; _lib_loaders := r.(_lib_loaders);
     _udp_provider := r.(_udp_provider); _hash_cache := r.(_hash_cache);
     _os := r.(_os); _net := r.(_net) |}.
Definition set_loaders (m : gmap string lib_loader) (r : udp_registry) : udp_registry :=
  {| _local_cache := r.(_local_cache); _use_in_memory_cache := r.(_use_in_memory_cache);
     _libFilesBuffer := r.(_libFilesBuffer); _lib_loaders := m;
     _udp_provider := r.(_udp_provider); _hash_cache := r.(_hash_cache);
     _os := r.(_os); _net := r.(_net) |}.
Definition set_provider (p : string → M N (option bytes)) (r : udp_registry) : udp_registry :=
  {| _local_cache := r.(_local_cache); _use_in_memory_cache := r.(_use_in_memory_cache);
     _libFilesBuffer := r.(_libFilesBuffer); _lib_loaders := r.(_lib_loaders);
     _udp_provider := Some p; _hash_cache := r.(_hash_cache);
     _os := r.(_os); _net := r.(_net) |}.
Definition set_hash_cache (h : hash_cache) (r : udp_registry) : udp_registry :=
  {| _local_cache := r.(_local_cache); _use_in_memory_cache := r.(_use_in_memory_cache);
     _libFilesBuffer := r.(_libFilesBuffer); _lib_loaders := r.(_lib_loaders);
     _udp_provider := r.(_udp_provider); _hash_cache := h;
     _os := r.(_os); _net := r.(_net) |}.
Definition set_os (o : os) (r : udp_registry) : udp_registry :=
  {| _local_cache := r.(_local_cache); _use_in_memory_cache := r.(_use_in_memory_cache);
     _libFilesBuffer := r.(_libFilesBuffer); _lib_loaders := r.(_lib_loaders);
     _udp_provider := r.(_udp_provider); _hash_cache := r.(_hash_cache);
     _os := o; _net := r.(_net) |}.
Definition set_net (n : N) (r : udp_registry) : udp_registry :=
  {| _local_cache := r.(_local_cache); _use_in_memory_cache := r.(_use_in_memory_cache);
     _libFilesBuffer := r.(_libFilesBuffer); _lib_loaders := r.(_lib_loaders);
     _udp_provider := r.(_udp_provider); _hash_cache := r.(_hash_cache);
     _os := r.(_os); _net := n |}.

Definition on_buffer {A} : M (lru_cache bytes) A → M udp_registry A :=
  zoom _libFilesBuffer set_files_buffer.
Definition on_hash_cache {A} : M hash_cache A → M udp_registry A :=
  zoom _hash_cache set_hash_cache.
Definition on_os {A} : M os A → M udp_registry A := zoom _os set_os.
Definition on_net {A} : M N A → M udp_registry A := zoom _net set_net.

(** [_lib_loaders.at(name).m(...)] *)
Definition on_loader {A} (name : string) (m : M (lib_loader * os) A) : M udp_registry A :=
  r ← get_state;
  match r.(_lib_loaders) !! name with
  | None => throw (out_of_range "unordered_map::at")
  | Some l =>
      let '(res, (l', o')) := m (l, r.(_os)) in
      _ ← put_state (set_os o' (set_loaders (<[name := l']> r.(_lib_loaders)) r));
      lift res
  end.

(** ** Private member functions *)

Definition _get_lib_path (libName : string) (r : udp_registry) : string :=
  path_join r.(_local_cache) (libName +:+ portable_dll_extension).

Definition _is_lib_in_cache (libName : string) (r : udp_registry) : bool :=
  exists_path (_get_lib_path libName r) r.(_os).

(** [std::ofstream] and [write]: opening truncates; a full disk is noticed. *)
Definition write_file (path : string) (content : bytes) : M os unit :=
  o ← get_state;
  if decide (path ∈ o.(write_denied) ∨ path ∈ o.(dirs)) then
    throw (runtime_error ("Error: Failed to open file " +:+ path))
  else if o.(disk_full) then
    _ ← put_state (set_files (<[path := []]> o.(files)) o);
    throw (runtime_error ("Error: Failed write to file " +:+ path))
  else put_state (set_files (<[path := content]> o.(files)) o).

Definition _save_lib_into_fs (libName : string) (libFile : bytes) : M udp_registry unit :=
  r ← get_state;
  let libPath := _get_lib_path libName r in
  _ ← (if exists_path r.(_local_cache) r.(_os) then mret tt
       else on_os (modify (λ o, set_dirs ({[r.(_local_cache)]} ∪ o.(dirs)) o)));
  on_os (write_file libPath libFile).

Definition _load_lib (libName : string) : M udp_registry unit :=
  r ← get_state;
  _ ← modify (λ r, set_loaders
    (match r.(_lib_loaders) !! libName with
     | Some _ => r.(_lib_loaders)
     | None => <[libName := lib_loader_new (_get_lib_path libName r)]> r.(_lib_loaders)
     end) r);
  on_loader libName open_lib.

Definition _unload_lib (libName : string) : M udp_registry unit :=
  r ← get_state;
  match r.(_lib_loaders) !! libName with
  | None => mret tt
  | Some _ =>
      _ ← on_loader libName close_lib;
      modify (λ r, set_loaders (delete libName r.(_lib_loaders)) r)
  end.

Definition remove_file (path : string) : M os unit :=
  o ← get_state;
  if exists_path path o then
    if decide (path ∈ o.(remove_denied)) then
      throw (runtime_error ("Failed to delete file: " +:+ path))
    else put_state (set_files (delete path o.(files)) o)
  else mret tt.

Definition _delete_lib_file (libName : string) : M udp_registry unit :=
  r ← get_state;
  let libPath := _get_lib_path libName r in
  _ ← (if r.(_use_in_memory_cache) then on_buffer (LruCache.erase libPath) else mret tt);
  cached ← on_hash_cache (has_file libName);
  _ ← (if (cached : bool) then on_hash_cache (erase_hash libName) else mret tt);
  on_os (remove_file libPath).

(** ** Public member functions *)

Definition register_udp_provider (p : string → M N (option bytes)) : M udp_registry unit :=
  modify (set_provider p).

Definition set_local_cache_dir (directory : string) : M udp_registry unit :=
  modify (set_cache_dir directory).

Definition use_in_memory_cache (value : bool) : M udp_registry unit :=
  _ ← (if value then mret tt else on_buffer LruCache.clear);
  modify (set_in_memory value).

(** [_udp_provider(name)], when one is registered. *)
Definition ask_provider (libName : string) : M udp_registry (option bytes) :=
  r ← get_state;
  match r.(_udp_provider) with
  | Some p => on_net (p libName)
  | None => mret None
  end.

Definition get_lib_as_file (libName : string) : M udp_registry (option bytes) :=
  r ← get_state;
  if negb (_is_lib_in_cache libName r) then
    libFile ← ask_provider libName;
    match libFile with
    | Some f => _ ← _save_lib_into_fs libName f; mret libFile
    | None => mret libFile
    end
  else
    let libPath := _get_lib_path libName r in
    buffered ← (if r.(_use_in_memory_cache) then on_buffer (LruCache.contains libPath)
                else mret false);
    if (buffered : bool) then f ← on_buffer (LruCache.get libPath); mret (Some f)
    else
      r ← get_state;
      match r.(_os).(files) !! libPath with
      | None => mret None
      | Some fileContent =>
          if decide (libPath ∈ r.(_os).(read_denied)) then mret None
          else
            _ ← (if r.(_use_in_memory_cache) then on_buffer (LruCache.put libPath fileContent)
                 else mret tt);
            mret (Some fileContent)
      end.

(** The part of [get_lib_file_hash] behind the reading of the file, outside
    the lock. *)
Definition cached_hash (libName : string) (file : bytes) : M udp_registry (option string) :=
  cached ← on_hash_cache (has_file libName);
  if (cached : bool) then on_hash_cache (get_file_hash libName)
  else h ← on_hash_cache (hash_file libName file); mret (Some h).

(** As it runs when no other thread gets between its parts. *)
Definition get_lib_file_hash (libName : string) : M udp_registry (option string) :=
  file ← get_lib_as_file libName;
  match file with
  | None => mret None
  | Some f => cached_hash libName f
  end.

Definition not_found (what name : string) : exn :=
  runtime_error ("Error: cannot " +:+ what +:+ " udp: " +:+ name +:+
                 ", this dynamic library was not found.").

(** Load a library that is not loaded: from the cache directory, else from the
    provider. *)
Definition find_and_load (what name : string) : M udp_registry unit :=
  r ← get_state;
  if _is_lib_in_cache name r then _load_lib name
  else
    libFile ← ask_provider name;
    match libFile with
    | Some f => _ ← _save_lib_into_fs name f; _load_lib name
    | None => throw (not_found what name)
    end.

Definition check_version (name : string) (libFileHash : string) : M udp_registry unit :=
  hash ← get_lib_file_hash name;
  match hash with
  | None => throw (not_found "initialize" name)
  | Some hash =>
      if decide (hash ≠ libFileHash) then
        _ ← _unload_lib name;
        _delete_lib_file name
      else mret tt
  end.

Definition initialize_udp (name : string) (libFileHash : option string) : M udp_registry unit :=
  _ ← match libFileHash with
      | Some h => check_version name h
      | None => mret tt
      end;
  r ← get_state;
  match r.(_lib_loaders) !! name with
  | Some _ => mret tt
  | None => find_and_load "initialize" name
  end.

Definition construct_udp (name : string) (params : any) : M udp_registry udp_ptr :=
  r ← get_state;
  _ ← match r.(_lib_loaders) !! name with
      | Some _ => mret tt
      | None => find_and_load "construct" name
      end;
  on_loader name (get_instance params).

(** [clone_udp(other)]: [None] is a null [shared_ptr]. *)
Definition clone_udp (other : option udp_ptr) : M udp_registry udp_ptr :=
  match other with
  | None => crash (undefined_behaviour "null pointer dereference")
  | Some p =>
      _ ← on_os (virtual_call p);
      let libName := udp_lib_name p.(object) in
      r ← get_state;
      match r.(_lib_loaders) !! libName with
      | Some _ => on_loader libName (clone_instance p)
      | None => throw (not_found "clone" libName)
      end
  end.
End UdpRegistry.
Arguments udp_registry : clear implicits.
