(* ===== verification/UdpVersions.v ===== *)
(** * The library registry keeps its caches, files and loaded images consistent

    [coherent]: what the in-memory cache, the hash cache and the loaders say
    about a library agrees with its file in the cache directory. Every public
    function but [set_local_cache_dir] preserves it, whether it returns or
    throws, and [initialize_udp] with a hash leaves an image of that version
    loaded. Libraries are named without a leading slash, so that different
    names are different files. *)
From Stdlib Require Import Ascii.
From S2P Require Import Prelude Sha256Spec LruCache HashCache LibLoader UdpRegistry.

Definition plain (n : string) : Prop :=
  match n with String "/" _ => False | _ => True end.

Lemma append_slash (b : bool) (a n : string) :
  (if b then a else a +:+ "/") +:+ n = if b then a +:+ n else a +:+ "/" +:+ n.
Proof. destruct b; [done|]. by rewrite append_assoc. Qed.

Lemma path_join_plain a n :
  plain n → path_join a (n +:+ portable_dll_extension) =
    (if String.eqb a "" || ends_with_slash a then a else a +:+ "/") +:+ (n +:+ portable_dll_extension).
Proof.
  intros Hn. rewrite append_slash. unfold path_join. destruct n as [|c n]; [done|].
  rewrite append_cons. by destruct c as [[] [] [] [] [] [] [] []].
Qed.

Section Versions.
Context {UC : UdpCode} {N : Type}.

Abbreviation registry := (udp_registry N).

Lemma path_inj (r : registry) n1 n2 :
  plain n1 → plain n2 → _get_lib_path n1 r = _get_lib_path n2 r → n1 = n2.
Proof.
  intros H1 H2. unfold _get_lib_path. rewrite !path_join_plain by done.
  intros H%(inj _). by apply append_cancel_r in H.
Qed.

(** The file of a library. *)
Definition lib_file (n : string) (r : registry) : option bytes :=
  r.(_os).(files) !! _get_lib_path n r.

(** The image a loader has mapped. *)
Definition image_at (l : lib_loader) (r : registry) : option bytes :=
  l.(_handle) ≫= λ h, r.(_os).(loaded) !! h.

Definition buffer_coherent (r : registry) : Prop :=
  ∃ lb, represents lb r.(_libFilesBuffer) ∧ (0 < r.(_libFilesBuffer).(_cap))%nat ∧
    ∀ p f, (p, f) ∈ lb → r.(_use_in_memory_cache) = true ∧ r.(_os).(files) !! p = Some f.

Definition hashes_coherent (r : registry) : Prop :=
  ∃ lh, represents lh r.(_hash_cache) ∧ (0 < r.(_hash_cache).(_cap))%nat ∧
    ∀ n h, (n, h) ∈ lh → plain n ∧ ∃ f, lib_file n r = Some f ∧ h = sha256_hex f.

Record loaders_coherent (r : registry) : Prop := {
  lo_image : ∀ n l, r.(_lib_loaders) !! n = Some l → plain n ∧
    (is_Some l.(_handle) → ∃ img, image_at l r = Some img ∧ lib_file n r = Some img);
  lo_distinct : ∀ n1 n2 l1 l2 h,
    r.(_lib_loaders) !! n1 = Some l1 → r.(_lib_loaders) !! n2 = Some l2 →
    l1.(_handle) = Some h → l2.(_handle) = Some h → n1 = n2;
  lo_fresh : ∀ h, is_Some (r.(_os).(loaded) !! h) → (h < r.(_os).(next_handle))%nat
}.

Record coherent (r : registry) : Prop := {
  co_buffer : buffer_coherent r;
  co_hashes : hashes_coherent r;
  co_loaders : loaders_coherent r;
  co_provider : ∀ p n s f s', r.(_udp_provider) = Some p → p n s ≠ (Crash f, s')
}.

(** Two states with the same settings. *)
Definition same_config (r r' : registry) : Prop :=
  r'.(_local_cache) = r.(_local_cache) ∧ r'.(_udp_provider) = r.(_udp_provider) ∧
  r'.(_use_in_memory_cache) = r.(_use_in_memory_cache).

Definition same_loaders (r r' : registry) : Prop :=
  r'.(_lib_loaders) = r.(_lib_loaders) ∧ r'.(_os).(loaded) = r.(_os).(loaded) ∧
  r'.(_os).(next_handle) = r.(_os).(next_handle).

(** ** Preservation by small steps *)

(** Files added, nothing else about libraries changed. *)
Lemma coherent_more_files r o :
  coherent r → o.(loaded) = r.(_os).(loaded) → o.(next_handle) = r.(_os).(next_handle) →
  (∀ p f, r.(_os).(files) !! p = Some f → o.(files) !! p = Some f) →
  coherent (set_os o r).
Proof.
  intros [(lb & Hb & Hbc & Hbf) (lh & Hh & Hhc & Hhf) [Hi Hd Hf] Hp] Hl Hn Hsub. split.
  - exists lb. split_and!; [done..|]. intros p f Hin. destruct (Hbf p f Hin). split; [done|].
    by apply Hsub.
  - exists lh. split_and!; [done..|]. intros n h Hin. destruct (Hhf n h Hin) as (? & f & ? & ?).
    split; [done|]. exists f. split; [|done]. by apply Hsub.
  - split.
    + intros n l Hnl. destruct (Hi n l Hnl) as (? & Himg). split; [done|].
      intros Hs. destruct (Himg Hs) as (img & Ha & Hfile). exists img.
      unfold image_at in *. cbn. rewrite Hl. split; [done|]. by apply Hsub.
    + exact Hd.
    + cbn. rewrite Hl, Hn. exact Hf.
  - exact Hp.
Qed.

Lemma coherent_set_net r n : coherent r → coherent (set_net n r).
Proof. intros [Hb Hh [Hi Hd Hf] Hp]. split; [exact Hb|exact Hh|by split|exact Hp]. Qed.

Lemma coherent_set_buffer r b :
  coherent r →
  (∃ lb, represents lb b ∧ (0 < b.(_cap))%nat ∧
    ∀ p f, (p, f) ∈ lb → r.(_use_in_memory_cache) = true ∧ r.(_os).(files) !! p = Some f) →
  coherent (set_files_buffer b r).
Proof. intros [Hb Hh [Hi Hd Hf] Hp] H. split; [exact H|exact Hh|by split|exact Hp]. Qed.

Lemma coherent_set_hash r c :
  coherent r →
  (∃ lh, represents lh c ∧ (0 < c.(_cap))%nat ∧
    ∀ n h, (n, h) ∈ lh → plain n ∧ ∃ f, lib_file n r = Some f ∧ h = sha256_hex f) →
  coherent (set_hash_cache c r).
Proof. intros [Hb Hh [Hi Hd Hf] Hp] H. split; [exact Hb|exact H|by split|exact Hp]. Qed.

Lemma file_exists n r : is_Some (lib_file n r) → _is_lib_in_cache n r = true.
Proof. intros Hs. unfold _is_lib_in_cache, exists_path. apply bool_decide_eq_true. by left. Qed.

Lemma not_in_cache n r : _is_lib_in_cache n r = false → lib_file n r = None.
Proof.
  intros H. destruct (lib_file n r) as [f|] eqn:E; [|done].
  rewrite file_exists in H by (by eexists). done.
Qed.

(** ** [get_lib_as_file] and [get_lib_file_hash] *)

(** Some run of the registered provider returned this file. *)
Definition provided (n : string) (f : bytes) (r : registry) : Prop :=
  ∃ p s s', r.(_udp_provider) = Some p ∧ p n s = (Ret (Some f), s').

Definition more_files (r r' : registry) : Prop :=
  ∀ p f, r.(_os).(files) !! p = Some f → r'.(_os).(files) !! p = Some f.

(** What fetching operations leave alone. *)
Definition fetched (r r' : registry) : Prop :=
  coherent r' ∧ same_config r r' ∧ same_loaders r r' ∧ more_files r r'.

Ltac split_fetched := unfold fetched, same_config, same_loaders, more_files; split_and!.

Lemma fetched_refl r : coherent r → fetched r r.
Proof. intros Hr. by split_fetched. Qed.

Lemma fetched_trans r1 r2 r3 : fetched r1 r2 → fetched r2 r3 → fetched r1 r3.
Proof.
  intros (_ & (C1 & C2 & C3) & (L1 & L2 & L3) & F) (H & (D1 & D2 & D3) & (M1 & M2 & M3) & G).
  split_fetched; [done|congruence..|by intros p f ?%F%G].
Qed.

Lemma fetched_net r s : coherent r → fetched r (set_net s r).
Proof. intros Hr. by split_fetched; [apply coherent_set_net|..]. Qed.

Lemma lib_file_mono r r' n f :
  fetched r r' → lib_file n r = Some f → lib_file n r' = Some f.
Proof.
  intros (_ & (Hc & _) & _ & Hf). unfold lib_file, _get_lib_path. rewrite Hc. apply Hf.
Qed.

Lemma ask_provider_wp r n :
  coherent r →
  wp (ask_provider n) (λ res r', fetched r r' ∧ r'.(_os) = r.(_os) ∧ ∀ f, res = Some f → provided n f r)
    (λ _ r', fetched r r') r.
Proof.
  intros Hr. unfold ask_provider. apply wp_bind, wp_get.
  destruct (_udp_provider r) as [p|] eqn:E.
  - apply wp_zoom. unfold wp. destruct (p n (_net r)) as [[res|e|f] s'] eqn:Ep.
    + split_and!; [by apply fetched_net|done|]. intros f ->. by exists p, (_net r), s'.
    + by apply fetched_net.
    + by eapply (co_provider _ Hr).
  - apply wp_ret. split_and!; [by apply fetched_refl|done..].
Qed.

Lemma fetched_os r o :
  coherent r → o.(loaded) = r.(_os).(loaded) → o.(next_handle) = r.(_os).(next_handle) →
  (∀ p f, r.(_os).(files) !! p = Some f → o.(files) !! p = Some f) →
  fetched r (set_os o r).
Proof. intros Hr Hl Hn Hf. by split_fetched; [apply coherent_more_files|..]. Qed.

Lemma write_new_wp r path f :
  coherent r → r.(_os).(files) !! path = None →
  wp (on_os (write_file path f))
    (λ _ r', fetched r r' ∧ r'.(_os).(files) !! path = Some f) (λ _ r', fetched r r') r.
Proof.
  intros Hr Hnone. apply wp_zoom. unfold write_file. apply wp_bind, wp_get.
  assert (∀ x, fetched r (set_os (set_files (<[path := x]> (files (_os r))) (_os r)) r)) as Hf.
  { intros x. apply fetched_os; [done..|]. intros p g Hg. cbn. rewrite lookup_insert_ne; [done|congruence]. }
  case_decide; [apply wp_throw, fetched_os; done|].
  destruct (disk_full (_os r)).
  - apply wp_bind, wp_put, wp_throw, Hf.
  - apply wp_put. split; [apply Hf|]. cbn. apply lookup_insert_eq.
Qed.

Lemma save_wp r n f :
  coherent r → lib_file n r = None →
  wp (_save_lib_into_fs n f) (λ _ r', fetched r r' ∧ lib_file n r' = Some f)
    (λ _ r', fetched r r') r.
Proof.
  intros Hr Hnone. unfold _save_lib_into_fs. apply wp_bind, wp_get. apply wp_bind.
  apply (wp_mono _ (λ _ r', fetched r r' ∧ r'.(_os).(files) = r.(_os).(files)) _ (λ _ _, False)).
  - destruct (exists_path _ _); [apply wp_ret; by split; [apply fetched_refl|]|].
    apply wp_zoom, wp_modify. split; [|done]. by apply fetched_os.
  - intros [] r1 [H1 Hfiles]. eapply wp_mono; [apply write_new_wp; [apply H1|]| |].
    + rewrite Hfiles. exact Hnone.
    + cbn beta. intros _ r2 [H2 Hr2]. split; [by eapply fetched_trans|].
      unfold lib_file, _get_lib_path in *.
      destruct H1 as (_ & (Hc1 & _) & _). destruct H2 as (_ & (Hc2 & _) & _). by rewrite Hc2, Hc1.
    + cbn beta. intros e r2 H2. by eapply fetched_trans.
  - done.
Qed.

(** Reading the file of a library through the in-memory cache. *)
Lemma read_cached_wp r n :
  coherent r →
  wp (let libPath := _get_lib_path n r in
      buffered ← (if r.(_use_in_memory_cache) then on_buffer (LruCache.contains libPath)
                  else mret false);
      if (buffered : bool) then f ← on_buffer (LruCache.get libPath); mret (Some f)
      else
        r ← get_state;
        match r.(_os).(files) !! libPath with
        | None => mret None
        | Some fileContent =>
            if decide (libPath ∈ r.(_os).(read_denied)) then mret None
            else
              _ ← (if r.(_use_in_memory_cache) then on_buffer (LruCache.put libPath fileContent)
                   else mret tt);
              mret (Some fileContent)
        end)
    (λ res r', fetched r r' ∧ (∀ f, res = Some f → lib_file n r' = Some f ∧ lib_file n r = Some f) ∧
       (res = None → lib_file n r = None ∨ _get_lib_path n r ∈ r.(_os).(read_denied)))
    (λ _ _, False) r.
Proof.
  intros Hr. destruct (co_buffer _ Hr) as (lb & Hb & Hbc & Hbf). cbn zeta.
  set (p := _get_lib_path n r). apply wp_bind.
  apply (wp_mono _ (λ b r', r' = r ∧ (b = true → p ∈ lb.*1)) _ (λ _ _, False)); [|..|done].
  { destruct (_use_in_memory_cache r); [|by apply wp_ret].
    apply wp_zoom. unfold wp. rewrite (contains_refines lb) by done. split; [by destruct r|].
    apply bool_decide_eq_true. }
  intros [] r1 [-> Hin].
  - destruct (get_hit lb _ p Hb (Hin eq_refl)) as (v & b' & E & Hv & Hb' & Hcap).
    apply wp_bind, wp_zoom. unfold wp at 1. rewrite E. apply wp_ret. split.
    + split_fetched; try done. apply coherent_set_buffer; [done|]. exists (use p lb).
      split_and!; [done|congruence|]. intros q g [Hq|(w & [= -> ->] & Hw)]%elem_of_use; [by apply Hbf|].
      apply value_of_elem in Hw. by apply Hbf.
    + split; [|done]. intros f [= <-]. destruct (Hbf p v Hv) as [_ Hp]. by split.
  - apply wp_bind, wp_get. fold p. destruct (files (_os r) !! p) as [g|] eqn:Eg.
    2: { apply wp_ret. split; [by apply fetched_refl|]. split; [done|by left]. }
    case_decide; [apply wp_ret; split; [by apply fetched_refl|split; [done|by right]]|]. apply wp_bind.
    destruct (_use_in_memory_cache r) eqn:Em.
    + apply wp_zoom. destruct (put_refines lb _ p g Hb Hbc) as (b' & E & Hb' & Hcap).
      unfold wp at 1. rewrite E. apply wp_ret. split.
      * split_fetched; try done. apply coherent_set_buffer; [done|]. eexists. split; [exact Hb'|].
        split; [congruence|]. intros q h Hq.
        apply elem_of_insert_entry in Hq as [[= -> ->]|[_ Hq]]; [done| |right; by eapply rep_NoDup].
        rewrite Em. by apply Hbf.
      * split; [|done]. intros f [= <-]. by split.
    + apply wp_ret, wp_ret. split; [by apply fetched_refl|]. split; [|done]. intros f [= <-]. by split.
Qed.

Lemma get_lib_as_file_wp r n :
  coherent r →
  wp (get_lib_as_file n)
    (λ res r', fetched r r' ∧
       ∀ f, res = Some f → lib_file n r' = Some f ∧ (lib_file n r = Some f ∨ provided n f r))
    (λ _ r', fetched r r') r.
Proof.
  intros Hr. unfold get_lib_as_file. apply wp_bind, wp_get.
  destruct (_is_lib_in_cache n r) eqn:Ec; cbn [negb].
  - eapply wp_mono; [by apply read_cached_wp| |done]. cbn beta. intros res r' (? & Hf & _).
    split; [done|]. intros f Hres. destruct (Hf f Hres). by split; [|left].
  - apply wp_bind. eapply wp_mono; [by apply ask_provider_wp| |done].
    cbn beta. intros [f|] r1 (H1 & Hos & Hp); [|apply wp_ret; split; [exact H1|done]].
    apply wp_bind. eapply wp_mono; [apply (save_wp r1); [apply H1|]| |].
    + apply not_in_cache. unfold _is_lib_in_cache, _get_lib_path. rewrite Hos.
      destruct H1 as (_ & (-> & _) & _). exact Ec.
    + cbn beta. intros _ r2 [H2 Hf]. apply wp_ret. split; [by eapply fetched_trans|].
      intros g [= <-]. split; [done|right]. by apply Hp.
    + cbn beta. intros e r2 H2. by eapply fetched_trans.
Qed.

(** A library file that can be read is read. *)
Lemma readable_file_wp r n f :
  coherent r → lib_file n r = Some f → _get_lib_path n r ∉ r.(_os).(read_denied) →
  wp (get_lib_as_file n) (λ res r', fetched r r' ∧ res = Some f ∧ lib_file n r' = Some f) (λ _ _, False) r.
Proof.
  intros Hr Hfile Hread. unfold get_lib_as_file. apply wp_bind, wp_get. rewrite file_exists by by eexists. cbn [negb].
  eapply wp_mono; [by apply read_cached_wp| |done]. cbn beta. intros [g|] r1 (H1 & Hg & Hnone).
  - destruct (Hg g eq_refl) as [Hg1 Hg0]. by simplify_eq.
  - destruct (Hnone eq_refl); [congruence|done].
Qed.

(** Only the hash cache changes. *)
Definition only_hashes (r r' : registry) : Prop := ∃ c, r' = set_hash_cache c r.

Lemma hash_entry_wp r n f :
  coherent r → plain n → lib_file n r = Some f →
  wp (cached_hash n f)
    (λ res r', fetched r r' ∧ only_hashes r r' ∧ res = Some (sha256_hex f) ∧ lib_file n r' = Some f) (λ _ _, False) r.
Proof.
  intros Hr Hn Hfile. unfold cached_hash. destruct (co_hashes _ Hr) as (lh & Hh & Hhc & Hhf). apply wp_bind, wp_zoom.
  unfold wp at 1, has_file. rewrite (contains_refines lh) by done.
  assert (set_hash_cache (_hash_cache r) r = r) as -> by by destruct r.
  case_bool_decide as Hin.
  - apply wp_zoom. destruct (get_file_hash_run lh _ n Hh) as (c' & E & Hc' & Hcap).
    unfold wp. rewrite E. destruct (value_of_hit n lh (rep_NoDup _ _ Hh) Hin) as [v Hv].
    split; [split_fetched; try done|split; [by eexists|split; [|done]]].
    + apply coherent_set_hash; [done|]. exists (use n lh). split_and!; [done|congruence|].
      intros m h [Hm|(w & [= -> ->] & Hw)]%elem_of_use; [by apply Hhf|].
      apply value_of_elem in Hw. by apply Hhf.
    + rewrite Hv. apply value_of_elem in Hv. destruct (Hhf n v Hv) as (_ & g & Hg & ->). congruence.
  - apply wp_bind, wp_zoom. destruct (put_refines lh _ n (sha256_hex f) Hh Hhc) as (c' & E & Hc' & Hcap).
    unfold wp at 1, hash_file, lift. rewrite bind_run, sha_hash, bind_run, E, ret_run.
    apply wp_ret. split; [|split; [by eexists|done]]. split_fetched; try done. apply coherent_set_hash; [done|]. eexists.
    split; [exact Hc'|]. split; [congruence|]. intros m h Hm.
    apply elem_of_insert_entry in Hm as [[= -> ->]|[_ Hm]]; [|by apply Hhf|right; by eapply rep_NoDup].
    eauto.
Qed.

Lemma get_lib_file_hash_wp r n :
  coherent r → plain n →
  wp (get_lib_file_hash n)
    (λ res r', fetched r r' ∧ ∀ h, res = Some h →
       ∃ f, lib_file n r' = Some f ∧ (lib_file n r = Some f ∨ provided n f r) ∧ h = sha256_hex f)
    (λ _ r', fetched r r') r.
Proof.
  intros Hr Hn. unfold get_lib_file_hash. apply wp_bind.
  eapply wp_mono; [by apply get_lib_as_file_wp| |done].
  cbn beta. intros [f|] r1 [H1 Hf]; [|apply wp_ret; by split]. destruct (Hf f eq_refl) as [Hf1 Hfrom].
  eapply wp_mono; [apply (hash_entry_wp r1 n f); [apply H1|done|done]| |done].
  cbn beta. intros res r2 (H2 & _ & -> & Hf2). split; [by eapply fetched_trans|].
  intros h [= <-]. eauto.
Qed.

(** ** Loading and unloading *)

Lemma coherent_set_loaders r m o :
  coherent r → o.(files) = r.(_os).(files) →
  loaders_coherent (set_os o (set_loaders m r)) → coherent (set_os o (set_loaders m r)).
Proof.
  intros [(lb & Hb & Hbc & Hbf) (lh & Hh & Hhc & Hhf) _ Hp] Hfiles Hl. split; [| |done|exact Hp].
  - exists lb. split_and!; [done..|]. cbn. rewrite Hfiles. exact Hbf.
  - exists lh. split_and!; [done..|]. unfold lib_file. cbn. rewrite Hfiles. exact Hhf.
Qed.

(** A loader that has nothing mapped. *)
Lemma coherent_closed r n l :
  coherent r → plain n → l.(_handle) = None →
  coherent (set_loaders (<[n := l]> r.(_lib_loaders)) r).
Proof.
  intros Hr Hn Hl. change (set_loaders _ r) with (set_os (_os r) (set_loaders (<[n := l]> r.(_lib_loaders)) r)).
  apply coherent_set_loaders; [done..|]. destruct (co_loaders _ Hr) as [Hi Hd Hf].
  split; cbn [_lib_loaders set_loaders set_os _os].
  - intros m k [[<- <-]|[Hne Hm]]%lookup_insert_Some; [|by apply (Hi m k)].
    split; [done|]. rewrite Hl. by intros [].
  - intros n1 n2 l1 l2 h [[<- <-]|[? H1]]%lookup_insert_Some [[<- <-]|[? H2]]%lookup_insert_Some;
      [done|congruence|congruence|]. by apply (Hd n1 n2 l1 l2).
  - exact Hf.
Qed.

(** A fresh image of the library's file. *)
Lemma coherent_open r n l img :
  coherent r → plain n → l.(_handle) = Some r.(_os).(next_handle) → lib_file n r = Some img →
  coherent (set_os (set_loaded (<[r.(_os).(next_handle) := img]> r.(_os).(loaded))
                               (S r.(_os).(next_handle)) r.(_os))
                   (set_loaders (<[n := l]> r.(_lib_loaders)) r)).
Proof.
  intros Hr Hn Hl Hfile. apply coherent_set_loaders; [done..|].
  destruct (co_loaders _ Hr) as [Hi Hd Hf].
  assert (∀ m k h, _lib_loaders r !! m = Some k → k.(_handle) = Some h →
    (h < next_handle (_os r))%nat) as Hlt.
  { intros m k h Hm Hk. apply Hf. destruct (Hi m k Hm) as (_ & Himg).
    destruct Himg as (g & Hg & _); [by eexists|]. unfold image_at in Hg. rewrite Hk in Hg. by eexists. }
  split; cbn [_lib_loaders set_loaders set_os _os].
  - intros m k [[<- <-]|[Hne Hm]]%lookup_insert_Some.
    + split; [done|]. intros _. exists img. split; [|done]. unfold image_at. rewrite Hl. cbn.
      apply lookup_insert_eq.
    + destruct (Hi m k Hm) as (Hp & Himg). split; [done|]. intros [h Hh].
      destruct Himg as (g & Hg & Hfg); [by eexists|]. exists g. split; [|done].
      unfold image_at in *. rewrite Hh in Hg |- *. cbn. pose proof (Hlt m k h Hm Hh).
      rewrite lookup_insert_ne by lia. exact Hg.
  - intros n1 n2 l1 l2 h [[<- <-]|[? H1]]%lookup_insert_Some [[<- <-]|[? H2]]%lookup_insert_Some E1 E2.
    + done.
    + pose proof (Hlt n2 l2 h H2 E2). rewrite Hl in E1. simplify_eq. lia.
    + pose proof (Hlt n1 l1 h H1 E1). rewrite Hl in E2. simplify_eq. lia.
    + by apply (Hd n1 n2 l1 l2 h).
  - cbn. intros h [g [[<- <-]|[? Hg]]%lookup_insert_Some]; [lia|].
    pose proof (Hf h ltac:(by eexists)). lia.
Qed.

(** The image of one loader unmapped. *)
Lemma coherent_close r n l l' h :
  coherent r → r.(_lib_loaders) !! n = Some l → l.(_handle) = Some h → l'.(_handle) = None →
  coherent (set_os (set_loaded (delete h r.(_os).(loaded)) r.(_os).(next_handle) r.(_os))
                   (set_loaders (<[n := l']> r.(_lib_loaders)) r)).
Proof.
  intros Hr Hnl Hl Hl'. apply coherent_set_loaders; [done..|].
  destruct (co_loaders _ Hr) as [Hi Hd Hf]. destruct (Hi n l Hnl) as [Hn _].
  split; cbn [_lib_loaders set_loaders set_os _os].
  - intros m k [[<- <-]|[Hne Hm]]%lookup_insert_Some.
    + split; [done|]. rewrite Hl'. by intros [].
    + destruct (Hi m k Hm) as (Hp & Himg). split; [done|]. intros [h' Hh].
      destruct Himg as (g & Hg & Hfg); [by eexists|]. exists g. split; [|done].
      unfold image_at in *. rewrite Hh in Hg |- *. cbn.
      rewrite lookup_delete_ne; [exact Hg|]. intros ->. by apply Hne, (Hd n m l k h').
  - intros n1 n2 l1 l2 h' [[<- <-]|[? H1]]%lookup_insert_Some [[<- <-]|[? H2]]%lookup_insert_Some;
      [done|congruence|congruence|]. by apply (Hd n1 n2 l1 l2).
  - cbn. intros h' [g [_ Hg]%lookup_delete_Some]. apply Hf. by eexists.
Qed.

Lemma coherent_forget r n :
  coherent r → coherent (set_loaders (delete n r.(_lib_loaders)) r).
Proof.
  intros Hr. change (set_loaders _ r) with (set_os (_os r) (set_loaders (delete n r.(_lib_loaders)) r)).
  apply coherent_set_loaders; [done..|]. destruct (co_loaders _ Hr) as [Hi Hd Hf].
  split; cbn [_lib_loaders set_loaders set_os _os].
  - intros m k [_ Hm]%lookup_delete_Some. by apply (Hi m k).
  - intros n1 n2 l1 l2 h [_ H1]%lookup_delete_Some [_ H2]%lookup_delete_Some.
    by apply (Hd n1 n2 l1 l2).
  - exact Hf.
Qed.

(** Same settings, same files. *)
Definition same_files (r r' : registry) : Prop :=
  same_config r r' ∧ r'.(_os).(files) = r.(_os).(files).

Lemma same_files_lib r r' n : same_files r r' → lib_file n r' = lib_file n r.
Proof. intros ((Hc & _) & Hf). unfold lib_file, _get_lib_path. by rewrite Hc, Hf. Qed.

Lemma same_files_more r r' : same_files r r' → more_files r r'.
Proof. intros [_ Hf] p g. by rewrite Hf. Qed.

(** The library is loaded, with the contents of its file. *)
Definition loaded_from_file (n : string) (r : registry) : Prop :=
  ∃ l img, r.(_lib_loaders) !! n = Some l ∧ is_Some l.(_handle) ∧
    image_at l r = Some img ∧ lib_file n r = Some img.

Lemma load_lib_wp r n :
  coherent r → plain n → r.(_lib_loaders) !! n = None →
  wp (_load_lib n) (λ _ r', coherent r' ∧ same_files r r' ∧ loaded_from_file n r')
    (λ _ r', coherent r' ∧ same_files r r') r.
Proof.
  intros Hr Hn Hnone. unfold _load_lib. apply wp_bind, wp_get, wp_bind, wp_modify. rewrite Hnone.
  set (l := lib_loader_new (_get_lib_path n r)). unfold on_loader. apply wp_bind, wp_get.
  cbn [_lib_loaders set_loaders _os]. rewrite lookup_insert_eq.
  destruct (open_lib (l, _os r)) as [[u|e|f] [l' o']] eqn:E.
  - apply open_lib_run in E as (img & Himg & -> & ->). apply wp_bind, wp_put, wp_ret.
    pose proof (coherent_open r n (set_handle (Some (next_handle (_os r))) l) img Hr Hn eq_refl Himg) as Ho.
    unfold set_loaders in *. cbn [_lib_loaders] in *. rewrite insert_insert_eq.
    split; [exact Ho|]. split; [done|]. exists (set_handle (Some (next_handle (_os r))) l), img.
    split_and!; [apply lookup_insert_eq|by eexists|cbn; apply lookup_insert_eq|exact Himg].
  - apply open_lib_throws in E as (-> & -> & ->). apply wp_bind, wp_put, wp_throw.
    pose proof (coherent_closed r n (set_handle None l) Hr Hn eq_refl) as Ho.
    unfold set_loaders in *. cbn [_lib_loaders] in *. rewrite insert_insert_eq. by split.
  - by apply open_lib_never_crashes in E.
Qed.

Lemma unload_lib_wp r n :
  coherent r →
  wp (_unload_lib n) (λ _ r', coherent r' ∧ same_files r r' ∧ r'.(_lib_loaders) !! n = None)
    (λ _ r', coherent r' ∧ same_files r r') r.
Proof.
  intros Hr. unfold _unload_lib. apply wp_bind, wp_get.
  destruct (_lib_loaders r !! n) as [l|] eqn:Hl; [|by apply wp_ret].
  apply wp_bind. unfold on_loader. apply wp_bind, wp_get. rewrite Hl.
  destruct (close_lib (l, _os r)) as [res [l' o']] eqn:E. apply close_lib_run in E.
  apply wp_bind, wp_put.
  assert (∀ r1, coherent r1 → same_files r r1 →
    coherent (set_loaders (delete n r1.(_lib_loaders)) r1) ∧
    same_files r (set_loaders (delete n r1.(_lib_loaders)) r1) ∧
    delete n r1.(_lib_loaders) !! n = None) as Hend.
  { intros r1 H1 H2. split_and!; [by apply coherent_forget|done|apply lookup_delete_eq]. }
  assert (set_os (_os r) (set_loaders (<[n := l]> (_lib_loaders r)) r) = r) as Heta.
  { rewrite insert_id by done. by destruct r. }
  destruct (_handle l) as [h|] eqn:Eh; [destruct (dlclose_ok (_os r))|].
  - destruct E as (-> & -> & ->). apply wp_ret, wp_modify, Hend; [|done].
    by apply (coherent_close r n l).
  - destruct E as (-> & -> & ->). rewrite Heta. by apply wp_throw.
  - destruct E as (-> & -> & ->). rewrite Heta. by apply wp_ret, wp_modify, Hend.
Qed.

(** ** Deleting an outdated library *)

(** The file of a library removed, when no cache and no loader knows it. *)
Lemma coherent_removed r n :
  coherent r → plain n → r.(_lib_loaders) !! n = None →
  (∀ lb f, represents lb r.(_libFilesBuffer) → (_get_lib_path n r, f) ∉ lb) →
  (∀ lh h, represents lh r.(_hash_cache) → (n, h) ∉ lh) →
  coherent (set_os (set_files (delete (_get_lib_path n r) r.(_os).(files)) r.(_os)) r).
Proof.
  intros [(lb & Hb & Hbc & Hbf) (lh & Hh & Hhc & Hhf) [Hi Hd Hf] Hp] Hn Hnone Hnb Hnh. split.
  - exists lb. split_and!; [done..|]. intros p f Hin. destruct (Hbf p f Hin). split; [done|].
    cbn. rewrite lookup_delete_ne; [done|]. intros <-. by apply (Hnb lb f).
  - exists lh. split_and!; [done..|]. intros m h Hin. destruct (Hhf m h Hin) as (Hm & f & Hfile & ->).
    split; [done|]. exists f. split; [|done]. unfold lib_file in *. cbn.
    change (_get_lib_path m (set_os _ r)) with (_get_lib_path m r).
    rewrite lookup_delete_ne; [done|]. intros Heq. apply path_inj in Heq as <-; [|done..].
    by apply (Hnh lh (sha256_hex f)).
  - split; [|exact Hd|exact Hf]. intros m l Hm. destruct (Hi m l Hm) as (Hpm & Himg).
    split; [done|]. intros Hs. destruct (Himg Hs) as (img & Ha & Hfile). exists img.
    split; [exact Ha|]. unfold lib_file in *. cbn.
    change (_get_lib_path m (set_os _ r)) with (_get_lib_path m r).
    rewrite lookup_delete_ne; [done|]. intros Heq. apply path_inj in Heq as <-; [|done..]. cbn in Hm. congruence.
  - exact Hp.
Qed.

Lemma elem_of_erased {T} k (l : list (string * T)) c v :
  represents (remove_key k l) c → ∀ l', represents l' c → (k, v) ∉ l'.
Proof.
  intros Hc l' Hl'. assert (l' = remove_key k l) as ->.
  { by rewrite <- (rep_entries _ _ Hl'), <- (rep_entries _ _ Hc). }
  intros [Hne _]%elem_of_remove_key. by apply Hne.
Qed.

(** The first half of [_delete_lib_file]. *)
Lemma forget_lib_wp r n :
  coherent r →
  wp (_ ← (if r.(_use_in_memory_cache) then on_buffer (LruCache.erase (_get_lib_path n r)) else mret tt);
      cached ← on_hash_cache (has_file n);
      if (cached : bool) then on_hash_cache (erase_hash n) else mret tt)
    (λ _ r', coherent r' ∧ same_files r r' ∧ r'.(_lib_loaders) = r.(_lib_loaders) ∧ r'.(_os) = r.(_os) ∧
       (∀ lb f, represents lb r'.(_libFilesBuffer) → (_get_lib_path n r, f) ∉ lb) ∧
       (∀ lh h, represents lh r'.(_hash_cache) → (n, h) ∉ lh)) (λ _ _, False) r.
Proof.
  intros Hr. apply wp_bind.
  apply (wp_mono _ (λ _ r', coherent r' ∧ same_files r r' ∧ r'.(_lib_loaders) = r.(_lib_loaders) ∧
    r'.(_os) = r.(_os) ∧
    (∀ lb f, represents lb r'.(_libFilesBuffer) → (_get_lib_path n r, f) ∉ lb)) _ (λ _ _, False)); [|..|done].
  - destruct (co_buffer _ Hr) as (lb & Hb & Hbc & Hbf). destruct (_use_in_memory_cache r) eqn:Em.
    + apply wp_zoom. destruct (erase_refines lb _ (_get_lib_path n r) Hb) as (b' & E & Hb' & Hcap).
      unfold wp. rewrite E. split_and!; try done.
      * apply coherent_set_buffer; [done|]. eexists. split; [exact Hb'|]. split; [congruence|].
        intros p f [_ Hin]%elem_of_remove_key. rewrite Em. by apply Hbf.
      * intros l f. by eapply elem_of_erased.
    + apply wp_ret. split_and!; try done. intros l f Hl Hin.
      assert (l = lb) as -> by by rewrite <- (rep_entries _ _ Hl), <- (rep_entries _ _ Hb).
      destruct (Hbf _ _ Hin). done.
  - cbn beta. intros _ r1 (H1 & Hs & Hl & Ho & Hnb).
    destruct (co_hashes _ H1) as (lh & Hh & Hhc & Hhf). apply wp_bind, wp_zoom.
    unfold wp at 1, has_file. rewrite (contains_refines lh) by done.
    assert (set_hash_cache (_hash_cache r1) r1 = r1) as -> by by destruct r1.
    case_bool_decide as Hin.
    + apply wp_zoom. destruct (erase_refines lh _ n Hh) as (c' & E & Hc' & Hcap).
      unfold wp, erase_hash. rewrite E. split_and!; try done.
      * apply coherent_set_hash; [done|]. eexists. split; [exact Hc'|]. split; [congruence|].
        intros m h [_ Hm]%elem_of_remove_key. by apply Hhf.
      * intros l f. by eapply elem_of_erased.
    + apply wp_ret. split_and!; try done. intros l h Hl' Hin'.
      assert (l = lh) as -> by by rewrite <- (rep_entries _ _ Hl'), <- (rep_entries _ _ Hh).
      apply Hin. by apply (list_elem_of_fmap_2 fst) in Hin'.
Qed.

(** Reassociation of the two halves of [_delete_lib_file]. *)
Lemma wp_regroup {S A B C D} (m : M S A) (k : A → M S B) (f : B → M S C) (g : C → M S D) Q E s :
  wp (z ← (x ← m; y ← k x; f y); g z) Q E s → wp (x ← m; y ← k x; z ← f y; g z) Q E s.
Proof.
  unfold wp. rewrite !bind_run. destruct (m s) as [[a|e|c] s1]; [|done..].
  rewrite !bind_run. destruct (k a s1) as [[b|e|c] s2]; [|done..]. by rewrite !bind_run.
Qed.

Lemma delete_lib_wp r n :
  coherent r → plain n → r.(_lib_loaders) !! n = None →
  wp (_delete_lib_file n)
    (λ _ r', coherent r' ∧ same_config r r' ∧ r'.(_lib_loaders) !! n = None ∧ lib_file n r' = None)
    (λ _ r', coherent r' ∧ same_config r r') r.
Proof.
  intros Hr Hn Hnone. unfold _delete_lib_file. apply wp_bind, wp_get, wp_regroup, wp_bind.
  eapply wp_mono; [by apply forget_lib_wp| |done].
  cbn beta. intros _ r1 (H1 & [Hc Hf] & Hl & Ho & Hnb & Hnh).
  apply wp_zoom. unfold remove_file. apply wp_bind, wp_get.
  assert (_get_lib_path n r = _get_lib_path n r1) as Hpath.
  { unfold _get_lib_path. destruct Hc as (-> & _). done. }
  rewrite Hpath. assert (set_os (_os r1) r1 = r1) as Heta by by destruct r1.
  destruct (exists_path _ _) eqn:Ee; [case_decide|].
  - apply wp_throw. by rewrite Heta.
  - apply wp_put. split; [|split; [exact Hc|split]].
    + apply coherent_removed; try done; [by rewrite Hl|by rewrite <- Hpath].
    + cbn. by rewrite Hl.
    + unfold lib_file. cbn. apply lookup_delete_eq.
  - apply wp_ret. rewrite Heta. split; [done|]. split; [exact Hc|]. split; [by rewrite Hl|].
    unfold exists_path in Ee. apply bool_decide_eq_false in Ee. unfold lib_file.
    destruct (files (_os r1) !! _get_lib_path n r1); [|done]. destruct Ee. left. by eexists.
Qed.

(** ** [initialize_udp] *)

Lemma check_version_wp r n h :
  coherent r → plain n →
  wp (check_version n h)
    (λ _ r', coherent r' ∧ same_config r r' ∧
       ((∃ f, lib_file n r' = Some f ∧ sha256_hex f = h ∧ r'.(_lib_loaders) = r.(_lib_loaders)) ∨
        (lib_file n r' = None ∧ r'.(_lib_loaders) !! n = None ∧
         ∃ g, (lib_file n r = Some g ∨ provided n g r) ∧ sha256_hex g ≠ h)))
    (λ _ r', coherent r' ∧ same_config r r') r.
Proof.
  intros Hr Hn. unfold check_version. apply wp_bind.
  eapply wp_mono; [by apply get_lib_file_hash_wp| |by intros e r1 (? & ? & _)].
  cbn beta. intros [hash|] r1 [(H1 & Hc & Hl & Hmf) Hf]; [|by apply wp_throw].
  destruct (Hf hash eq_refl) as (f & Hfile & Hfrom & ->). case_decide as Hne.
  - apply wp_bind. eapply wp_mono; [by apply unload_lib_wp| |].
    + cbn beta. intros _ r2 (H2 & (Hc2 & _) & Hn2).
      eapply wp_mono; [by apply delete_lib_wp| |]; cbn beta.
      * intros _ r3 (H3 & Hc3 & Hn3 & Hf3). split; [done|].
        split; [|right; eauto]. unfold same_config in *. intuition congruence.
      * intros e r3 (H3 & Hc3). split; [done|]. unfold same_config in *. intuition congruence.
    + cbn beta. intros e r2 (H2 & Hc2 & _). split; [done|].
      unfold same_config in *. intuition congruence.
  - apply wp_ret. split; [done|]. split; [done|]. left. exists f. split; [done|].
    split; [by destruct (decide (sha256_hex f = h))|]. by destruct Hl.
Qed.

Lemma find_and_load_wp r what n (P : bytes → Prop) :
  coherent r → plain n → r.(_lib_loaders) !! n = None →
  (∀ f, lib_file n r = Some f → P f) → (lib_file n r = None → ∀ f, provided n f r → P f) →
  wp (find_and_load what n)
    (λ _ r', coherent r' ∧ same_config r r' ∧ more_files r r' ∧ loaded_from_file n r' ∧
       ∃ f, lib_file n r' = Some f ∧ P f)
    (λ _ r', coherent r' ∧ same_config r r' ∧ more_files r r') r.
Proof.
  intros Hr Hn Hnone Hfile Hprov. unfold find_and_load. apply wp_bind, wp_get.
  destruct (_is_lib_in_cache n r) eqn:Ec.
  - eapply wp_mono; [by apply load_lib_wp| |]; cbn beta.
    + intros _ r' (H' & Hsf & Hload). split_and!; [done|apply Hsf|by apply same_files_more|done|].
      destruct Hload as (l & img & _ & _ & _ & Himg). exists img. split; [done|].
      apply Hfile. by rewrite <- (same_files_lib _ _ _ Hsf).
    + intros e r' (H' & Hsf). split_and!; [done|apply Hsf|by apply same_files_more].
  - apply wp_bind. eapply wp_mono; [by apply ask_provider_wp| |by intros e r1 (? & ? & _ & ?)].
    cbn beta. intros [f|] r1 (H1 & Hos & Hp); [|apply wp_throw; by destruct H1 as (? & ? & _ & ?)].
    apply wp_bind. eapply wp_mono; [apply (save_wp r1 n f); [apply H1|]| |].
    + apply not_in_cache. unfold _is_lib_in_cache, _get_lib_path. rewrite Hos.
      destruct H1 as (_ & (-> & _) & _). exact Ec.
    + cbn beta. intros _ r2 [H2 Hf2]. pose proof (fetched_trans _ _ _ H1 H2) as (H2' & Hc2 & (Hl2 & _) & Hm2).
      eapply wp_mono; [apply load_lib_wp; [done|done|by rewrite Hl2]| |]; cbn beta.
      * intros _ r3 (H3 & Hsf & Hload). pose proof (same_files_more _ _ Hsf) as Hm3. split_and!; [done| | |done|].
        -- destruct Hsf as [Hc3 _]. unfold same_config in *. intuition congruence.
        -- intros p g Hg. by apply Hm3, Hm2.
        -- exists f. split; [by rewrite (same_files_lib _ _ _ Hsf)|by apply (Hprov (not_in_cache _ _ Ec)), Hp].
      * intros e r3 (H3 & Hsf). pose proof (same_files_more _ _ Hsf) as Hm3. split_and!; [done| |].
        -- destruct Hsf as [Hc3 _]. unfold same_config in *. intuition congruence.
        -- intros p g Hg. by apply Hm3, Hm2.
    + cbn beta. intros e r2 H2. pose proof (fetched_trans _ _ _ H1 H2) as (H2' & Hc2 & _ & Hm2). done.
Qed.

Lemma provided_config r r' n f : same_config r r' → provided n f r' → provided n f r.
Proof. intros (_ & Hp & _) (p & s & s' & Hr & E). exists p, s, s'. by rewrite <- Hp. Qed.

(** The image mapped for a library after [initialize_udp] with a hash: of that
    version, or, after a file of another version was deleted, what the provider
    sent in its place, whose hash is not compared again. *)
Definition right_version (n h : string) (r : registry) (img : bytes) : Prop :=
  sha256_hex img = h ∨
  (provided n img r ∧ ∃ g, (lib_file n r = Some g ∨ provided n g r) ∧ sha256_hex g ≠ h).

Definition version_loaded (n : string) (P : bytes → Prop) (r : registry) : Prop :=
  ∃ l, r.(_lib_loaders) !! n = Some l ∧
    (is_Some l.(_handle) → ∃ img, image_at l r = Some img ∧ lib_file n r = Some img ∧ P img).

Lemma initialize_udp_wp r n h :
  coherent r → plain n →
  wp (initialize_udp n (Some h))
    (λ _ r', coherent r' ∧ same_config r r' ∧ version_loaded n (right_version n h r) r' ∧
       (r'.(_lib_loaders) = r.(_lib_loaders) ∨ loaded_from_file n r'))
    (λ _ r', coherent r' ∧ same_config r r') r.
Proof.
  intros Hr Hn. unfold initialize_udp. apply wp_bind.
  eapply wp_mono; [by apply check_version_wp| |done].
  cbn beta. intros _ r1 (H1 & Hc1 & Hcase). apply wp_bind, wp_get.
  destruct (_lib_loaders r1 !! n) as [l|] eqn:El.
  - apply wp_ret. destruct Hcase as [(f & Hf & Hh & Hl)|(_ & Hnone & _)]; [|congruence].
    split_and!; [done|done| |by left]. exists l. split; [done|]. intros Hs.
    destruct (co_loaders _ H1) as [Hi _ _]. destruct (Hi n l El) as [_ Himg].
    destruct (Himg Hs) as (img & Ha & Hfile). exists img. split; [done|]. split; [done|]. left. congruence.
  - eapply wp_mono; [apply (find_and_load_wp r1 _ n (right_version n h r)); try done| |]; cbn beta.
    + intros f Hf. destruct Hcase as [(g & Hg & Hh & _)|[Hnone _]]; [left|]; congruence.
    + intros Hno f Hf%(provided_config r r1); [|done].
      destruct Hcase as [(g & Hg & _)|(_ & _ & Hg)]; [congruence|by right].
    + intros _ r2 (H2 & Hc2 & _ & Hload & f & Hf & Hh). split_and!; [done| | |by right].
      * unfold same_config in *. intuition congruence.
      * destruct Hload as (l & img & Hl & Hs & Ha & Hi). exists l. split; [done|].
        intros _. exists img. split; [done|]. split; [done|]. congruence.
    + intros e r2 (H2 & Hc2 & _). split; [done|]. unfold same_config in *. intuition congruence.
Qed.
End Versions.
