(* ===== verification/UdpTheorems.v ===== *)
(** * The library registry: theorems

    The registry as the threads of a process use it: [thread_exec] is a step of
    one of them, a public function under the mutex or one of the two parts of
    [get_lib_file_hash], which is not under it. Coherence is an invariant of
    every interleaving without a data race on the hash cache, which is possible;
    a matching version is loaded after [initialize_udp], except that what the
    provider sends in place of an outdated file is not checked; and a failed
    load counts as loaded from then on. *)
From S2P Require Import Prelude Sha256Spec LruCache HashCache LibLoader UdpRegistry UdpVersions.
From S2P Require Import Messages Controller.

Section Theorems.
Context {UC : UdpCode} {N : Type}.

Abbreviation registry := (udp_registry N).

(** ** Loaders' functions *)

Definition mapped (h : option nat) (o : os) : Prop :=
  ∀ i, h = Some i → is_Some (o.(loaded) !! i).

(** Nothing changed but the log of after-load calls. *)
Definition os_same (o o' : os) : Prop :=
  o'.(files) = o.(files) ∧ o'.(loaded) = o.(loaded) ∧ o'.(next_handle) = o.(next_handle) ∧
  o'.(dlclose_ok) = o.(dlclose_ok).

Lemma image_of_run h o : mapped h o → ∃ img, image_of h o = (Ret img, o).
Proof.
  intros Hm. destruct h as [h|]; [|by eexists]. cbn. rewrite bind_run. cbn [get_state].
  destruct (Hm h eq_refl) as [img ->]. by eexists.
Qed.

Lemma dlsym_wp {E} h symbol (l : lib_loader) o (Q : bool → lib_loader * os → Prop) :
  mapped h o → (∀ b, Q b (l, o)) → wp (in_os (portable_dlsym h symbol)) Q E (l, o).
Proof.
  intros Hm HQ. apply wp_zoom. unfold wp, portable_dlsym. cbn [snd].
  destruct (image_of_run h o Hm) as [img Himg]. rewrite bind_run, Himg. apply HQ.
Qed.

Lemma ensure_after_load_wp l o :
  mapped l.(_handle) o →
  wp _ensure_after_load (λ _ s, s.1.(_handle) = l.(_handle) ∧ os_same o s.2) (λ _ _, False) (l, o).
Proof.
  intros Hm. unfold _ensure_after_load, this_loader. apply wp_bind, wp_bind, wp_get, wp_ret. cbn [fst].
  destruct (_afterLoadExecuted l); [by apply wp_ret|].
  apply wp_bind, wp_modify, wp_bind, dlsym_wp; [done|]. intros [|]; [|by apply wp_ret].
  apply wp_bind, wp_zoom. unfold wp at 1. cbn [snd].
  destruct (image_of_run _ o Hm) as [img ->]. by apply wp_zoom, wp_modify.
Qed.

(** A loader after one of its functions: as before, or closed. *)
Definition loader_after (l : lib_loader) (o : os) (s : lib_loader * os) : Prop :=
  (s.1.(_handle) = l.(_handle) ∧ os_same o s.2) ∨
  (∃ h, l.(_handle) = Some h ∧ s.1.(_handle) = None ∧ s.2.(files) = o.(files) ∧
     s.2.(loaded) = delete h o.(loaded) ∧ s.2.(next_handle) = o.(next_handle)).

Lemma os_mapped o o' h : os_same o o' → mapped h o → mapped h o'.
Proof. intros (_ & Hl & _) Hm i Hi. rewrite Hl. by apply Hm. Qed.

Lemma close_lib_wp l o l1 o1 :
  l1.(_handle) = l.(_handle) → os_same o o1 →
  wp close_lib (λ _ s, loader_after l o s) (λ _ s, loader_after l o s) (l1, o1).
Proof.
  intros Hh Hos. unfold wp. destruct (close_lib (l1, o1)) as [r [l2 o2]] eqn:E.
  apply close_lib_run in E. rewrite Hh in E.
  destruct (_handle l) as [h|] eqn:El; [destruct (dlclose_ok o1)|]; destruct E as (-> & -> & ->).
  - right. destruct Hos as (Hf & Hl & Hn & _). exists h. split_and!; cbn; congruence.
  - left. split; [cbn; congruence|done].
  - left. split; [cbn; congruence|done].
Qed.

Lemma get_instance_wp l o params :
  mapped l.(_handle) o →
  wp (get_instance params) (λ p s, loader_after l o s ∧ p.(code) = l.(_handle))
    (λ _ s, loader_after l o s) (l, o).
Proof.
  intros Hm. unfold get_instance. apply wp_bind. unfold this_loader at 1.
  apply wp_bind, wp_get, wp_ret. cbn [fst].
  apply wp_bind, dlsym_wp; [done|]. intros b1. apply wp_bind, dlsym_wp; [done|]. intros b2.
  apply wp_bind. eapply wp_mono; [by apply ensure_after_load_wp| |done].
  cbn beta. intros _ [l1 o1] [Hh Hos]. cbn [fst snd] in *.
  destruct (negb b1 || negb b2).
  - apply wp_bind. eapply wp_mono; [by apply (close_lib_wp l o)| |done].
    cbn beta. intros _ s Hs. by apply wp_throw.
  - apply wp_bind, wp_zoom. unfold wp at 1. cbn [snd].
    destruct (image_of_run (_handle l) o1) as [img ->]; [by eapply os_mapped|].
    destruct (image_allocate img params); [apply wp_throw; by left|]. apply wp_ret. split; [by left|done].
Qed.

Lemma clone_instance_wp l o other :
  mapped l.(_handle) o →
  wp (clone_instance other) (λ p s, loader_after l o s ∧ p.(code) = l.(_handle))
    (λ _ s, loader_after l o s) (l, o).
Proof.
  intros Hm. unfold clone_instance. apply wp_bind. unfold this_loader at 1.
  apply wp_bind, wp_get, wp_ret. cbn [fst].
  apply wp_bind, dlsym_wp; [done|]. intros b1. apply wp_bind, dlsym_wp; [done|]. intros b2.
  apply wp_bind. eapply wp_mono; [by apply ensure_after_load_wp| |done].
  cbn beta. intros _ [l1 o1] [Hh Hos]. cbn [fst snd] in *.
  destruct (negb b1 || negb b2).
  - apply wp_throw. by left.
  - apply wp_bind, wp_zoom. unfold wp at 1. cbn [snd].
    destruct (image_of_run (_handle l) o1) as [img ->]; [by eapply os_mapped|].
    apply wp_ret. split; [by left|done].
Qed.

Lemma coherent_mapped (r : registry) n l :
  coherent r → r.(_lib_loaders) !! n = Some l → mapped l.(_handle) r.(_os).
Proof.
  intros Hr Hl h Hh. destruct (co_loaders _ Hr) as [Hi _ _]. destruct (Hi n l Hl) as [_ Himg].
  destruct Himg as (img & Ha & _); [by eexists|]. unfold image_at in Ha. rewrite Hh in Ha. by eexists.
Qed.

(** Same loaders with the same handles. *)
Lemma coherent_same_handle (r : registry) n l l' o :
  coherent r → r.(_lib_loaders) !! n = Some l → l'.(_handle) = l.(_handle) → os_same r.(_os) o →
  coherent (set_os o (set_loaders (<[n := l']> r.(_lib_loaders)) r)).
Proof.
  intros Hr Hl Hh (Hof & Hol & Hon & _). apply coherent_set_loaders; [done|done|].
  destruct (co_loaders _ Hr) as [Hi Hd Hf].
  assert (∀ m k, <[n := l']> (_lib_loaders r) !! m = Some k →
    ∃ k', _lib_loaders r !! m = Some k' ∧ k.(_handle) = k'.(_handle)) as Hback.
  { intros m k [[<- <-]|[_ Hm]]%lookup_insert_Some; eauto. }
  split; cbn [_lib_loaders set_loaders set_os _os].
  - intros m k (k' & Hk' & Hkh)%Hback. destruct (Hi m k' Hk') as (Hp & Himg). split; [done|].
    rewrite Hkh. intros Hs. destruct (Himg Hs) as (img & Ha & Hfile). exists img.
    unfold image_at, lib_file in *. cbn. by rewrite Hkh, Hol, Hof.
  - intros n1 n2 l1 l2 h (k1 & H1 & E1)%Hback (k2 & H2 & E2)%Hback. rewrite E1, E2.
    by apply (Hd n1 n2 k1 k2).
  - rewrite Hol, Hon. exact Hf.
Qed.

Lemma coherent_loader_after (r : registry) n l l' o :
  coherent r → r.(_lib_loaders) !! n = Some l → loader_after l r.(_os) (l', o) →
  coherent (set_os o (set_loaders (<[n := l']> r.(_lib_loaders)) r)).
Proof.
  intros Hr Hl [[Hh Hos]|(h & Hh & Hn & Hf & Hld & Hnx)]; cbn [fst snd] in *.
  - by apply (coherent_same_handle r n l).
  - pose proof (coherent_close r n l l' h Hr Hl Hh Hn) as Hc.
    destruct Hc as [Hb Hhs [Hi Hd Hfr] Hp]. split; [| | |exact Hp].
    + destruct Hb as (lb & ? & ? & Hb). exists lb. split_and!; [done..|]. cbn in *. by rewrite Hf.
    + destruct Hhs as (lh & ? & ? & Hhs). exists lh. split_and!; [done..|].
      unfold lib_file in *. cbn in *. by rewrite Hf.
    + split; [|exact Hd|]; cbn in *; [|by rewrite Hld, Hnx].
      intros m k Hm. destruct (Hi m k Hm) as (? & Himg). split; [done|]. intros Hs.
      destruct (Himg Hs) as (img & Ha & Hfile). exists img.
      unfold image_at, lib_file in *. cbn in *. by rewrite Hld, Hf.
Qed.

(** The directory is the same and the files are still there. *)
Definition kept (r r' : registry) : Prop := r'.(_local_cache) = r.(_local_cache) ∧ more_files r r'.

Lemma kept_refl r : kept r r.
Proof. split; [done|]. by intros p f. Qed.

Lemma kept_trans r1 r2 r3 : kept r1 r2 → kept r2 r3 → kept r1 r3.
Proof. intros [H1 F1] [H2 F2]. split; [congruence|]. intros p f Hp. by apply F2, F1. Qed.

Lemma fetched_kept r r' : fetched r r' → kept r r'.
Proof. by intros (_ & (? & _) & _ & ?). Qed.

Lemma kept_lib_file r r' n f : kept r r' → lib_file n r = Some f → lib_file n r' = Some f.
Proof. intros [Hc Hm]. unfold lib_file, _get_lib_path. rewrite Hc. apply Hm. Qed.

Lemma loader_after_files l (r : registry) l' o : loader_after l r.(_os) (l', o) → o.(files) = r.(_os).(files).
Proof. by intros [[_ (? & _)]|(h & _ & _ & ? & _)]. Qed.

Lemma on_loader_wp {A} (r : registry) n l (m : M (lib_loader * os) A) :
  coherent r → r.(_lib_loaders) !! n = Some l →
  wp m (λ _ s, loader_after l r.(_os) s) (λ _ s, loader_after l r.(_os) s) (l, r.(_os)) →
  wp (on_loader n m) (λ _ r', coherent r' ∧ kept r r') (λ _ r', coherent r' ∧ kept r r') r.
Proof.
  intros Hr Hl Hwp. unfold on_loader. apply wp_bind, wp_get. rewrite Hl.
  assert (∀ l' o', loader_after l r.(_os) (l', o') →
    coherent (set_os o' (set_loaders (<[n := l']> r.(_lib_loaders)) r)) ∧
    kept r (set_os o' (set_loaders (<[n := l']> r.(_lib_loaders)) r))) as Hend.
  { intros l' o' Ha. split; [by apply (coherent_loader_after r n l)|]. split; [done|].
    intros p f. cbn. by rewrite (loader_after_files _ _ _ _ Ha). }
  unfold wp in Hwp. destruct (m (l, _os r)) as [[a|e|f] [l' o']]; [| |done];
    apply wp_bind, wp_put; unfold wp, lift; by apply Hend.
Qed.

(** ** Public functions as operations *)

(** The public functions that lock the mutex for their whole body. *)
Inductive registry_op :=
  | Initialize (n : string) (hash : option string)
  | Construct (n : string) (params : any)
  | CloneOf (p : udp_ptr)
  | GetLibAsFile (n : string)
  | UseInMemoryCache (b : bool)
  | RegisterProvider (p : string → M N (option bytes)).

Definition registry_exec (o : registry_op) : M registry unit :=
  match o with
  | Initialize n h => initialize_udp n h
  | Construct n params => _ ← construct_udp n params; mret tt
  | CloneOf p => _ ← clone_udp (Some p); mret tt
  | GetLibAsFile n => _ ← get_lib_as_file n; mret tt
  | UseInMemoryCache b => use_in_memory_cache b
  | RegisterProvider p => register_udp_provider p
  end.

(** Library names are relative; a provider does not crash; an object is cloned
    while its library is mapped. *)
Definition op_ok (o : registry_op) (r : registry) : Prop :=
  match o with
  | Initialize n _ | Construct n _ => plain n
  | GetLibAsFile _ | UseInMemoryCache _ => True
  | CloneOf p => mapped p.(code) r.(_os)
  | RegisterProvider p => ∀ n s f s', p n s ≠ (Crash f, s')
  end.

(** Does the function access the hash cache? The version check does when the
    library's file is found. *)
Definition uses_hashes (o : registry_op) (r : registry) : bool :=
  match o with
  | Initialize n (Some _) => match (get_lib_as_file n r).1 with Ret (Some _) => true | _ => false end
  | _ => false
  end.

Lemma initialize_none_wp (r : registry) n :
  coherent r → plain n →
  wp (initialize_udp n None) (λ _ r', coherent r' ∧ kept r r') (λ _ r', coherent r' ∧ kept r r') r.
Proof.
  intros Hr Hn. unfold initialize_udp. apply wp_bind, wp_ret, wp_bind, wp_get.
  destruct (_lib_loaders r !! n) eqn:El; [apply wp_ret; by split; [|apply kept_refl]|].
  eapply wp_mono; [by apply (find_and_load_wp r _ n (λ _, True))| |]; cbn beta.
  - intros _ r' (? & (? & _) & ? & _). by split.
  - intros _ r' (? & (? & _) & ?). by split.
Qed.

Lemma initialize_some_wp (r : registry) n h :
  coherent r → plain n →
  wp (initialize_udp n (Some h)) (λ _ r', coherent r') (λ _ r', coherent r') r.
Proof.
  intros Hr Hn. eapply wp_mono; [by apply initialize_udp_wp| |]; cbn beta; by intros ? ? (? & _).
Qed.

(** Without a file the version check fails before it asks the hash cache. *)
Lemma initialize_unfound_wp (r : registry) n h :
  coherent r → uses_hashes (Initialize n (Some h)) r = false →
  wp (initialize_udp n (Some h)) (λ _ _, False) (λ _ r', coherent r' ∧ kept r r') r.
Proof.
  intros Hr Hu. cbn in Hu. pose proof (get_lib_as_file_wp r n Hr) as Hwp. unfold wp in *.
  unfold initialize_udp, check_version, get_lib_file_hash. rewrite !bind_run.
  destruct (get_lib_as_file n r) as [[[f|]|e|f] r1]; cbn in Hu; [done| | |done].
  - destruct Hwp as [H1 _]. split; [apply H1|by apply fetched_kept].
  - split; [apply Hwp|by apply fetched_kept].
Qed.

Lemma construct_udp_wp (r : registry) n params :
  coherent r → plain n →
  wp (construct_udp n params) (λ _ r', coherent r' ∧ kept r r') (λ _ r', coherent r' ∧ kept r r') r.
Proof.
  intros Hr Hn. unfold construct_udp. apply wp_bind, wp_get, wp_bind.
  assert (∀ (r1 : registry) l, coherent r1 → kept r r1 → _lib_loaders r1 !! n = Some l →
    wp (on_loader n (get_instance params)) (λ _ r', coherent r' ∧ kept r r') (λ _ r', coherent r' ∧ kept r r') r1) as Hget.
  { intros r1 l H1 Hk Hl. eapply wp_mono; [eapply (on_loader_wp r1 n l); [done..|]| |]; cbn beta.
    - eapply wp_mono; [apply get_instance_wp; by eapply coherent_mapped| |done]. cbn beta. by intros p s [? _].
    - intros _ r' [? ?]. split; [done|]. by eapply kept_trans.
    - intros _ r' [? ?]. split; [done|]. by eapply kept_trans. }
  destruct (_lib_loaders r !! n) as [l|] eqn:El.
  - apply wp_ret. eapply Hget; [done|apply kept_refl|done].
  - eapply wp_mono; [by apply (find_and_load_wp r _ n (λ _, True))| |]; cbn beta.
    + intros _ r1 (H1 & (? & _) & ? & (l & img & Hl & _) & _). by eapply Hget.
    + intros _ r1 (? & (? & _) & ?). by split.
Qed.

Lemma clone_udp_wp (r : registry) p :
  coherent r → mapped p.(code) r.(_os) →
  wp (clone_udp (Some p)) (λ _ r', coherent r' ∧ kept r r') (λ _ r', coherent r' ∧ kept r r') r.
Proof.
  intros Hr Hm. unfold clone_udp. apply wp_bind, wp_zoom. unfold wp at 1, virtual_call.
  destruct (image_of_run (code p) (_os r) Hm) as [img Himg]. rewrite bind_run, Himg, ret_run.
  assert (set_os (_os r) r = r) as -> by by destruct r.
  apply wp_bind, wp_get. destruct (_lib_loaders r !! _) as [l|] eqn:El; [|apply wp_throw; by split; [|apply kept_refl]].
  eapply on_loader_wp; [done..|].
  eapply wp_mono; [apply clone_instance_wp; by eapply coherent_mapped| |done].
  cbn beta. by intros q s [? _].
Qed.

Lemma use_in_memory_wp (r : registry) b :
  coherent r → wp (use_in_memory_cache b) (λ _ r', coherent r' ∧ kept r r') (λ _ r', coherent r' ∧ kept r r') r.
Proof.
  intros Hr. unfold use_in_memory_cache. apply wp_bind.
  destruct (co_buffer _ Hr) as (lb & Hb & Hbc & Hbf). destruct b.
  - apply wp_ret, wp_modify. split; [|split; [done|by intros ? ?]]. destruct Hr as [_ Hh [Hi Hd Hf] Hp].
    split; [|exact Hh|by split|exact Hp]. exists lb. split_and!; [done..|].
    intros p f Hin. destruct (Hbf p f Hin). done.
  - apply wp_zoom. destruct (clear_refines lb _ Hb) as (c' & E & Hc' & Hcap).
    unfold wp at 1. rewrite E. apply wp_modify. split; [|split; [done|by intros ? ?]]. destruct Hr as [_ Hh [Hi Hd Hf] Hp].
    split; [|exact Hh|by split|exact Hp]. exists []. split_and!; [done|cbn; congruence|].
    by intros p f ?%elem_of_nil.
Qed.

Lemma register_wp (r : registry) p :
  coherent r → (∀ n s f s', p n s ≠ (Crash f, s')) →
  wp (register_udp_provider p) (λ _ r', coherent r' ∧ kept r r') (λ _ r', coherent r' ∧ kept r r') r.
Proof.
  intros [Hb Hh [Hi Hd Hf] Hp] Hok. apply wp_modify. split; [|split; [done|by intros ? ?]].
  split; [exact Hb|exact Hh|by split|]. intros q n s f s' [= <-]. apply Hok.
Qed.

Lemma registry_exec_wp (o : registry_op) (r : registry) :
  coherent r → op_ok o r →
  let Q (r' : registry) := coherent r' ∧ (uses_hashes o r = false → kept r r') in
  wp (registry_exec o) (λ _, Q) (λ _, Q) r.
Proof.
  intros Hr Hok Q. subst Q.
  destruct o as [n [h|]|n params|p|n|b|p]; cbn [registry_exec op_ok] in *.
  - destruct (uses_hashes (Initialize n (Some h)) r) eqn:Hu.
    + eapply wp_mono; [by apply initialize_some_wp|done..].
    + eapply wp_mono; [by apply initialize_unfound_wp|done|]. by intros e r' [? ?].
  - eapply wp_mono; [by apply initialize_none_wp| |]; by intros ? ? [? ?].
  - apply wp_bind. eapply wp_mono; [by apply construct_udp_wp| |]; intros ? ? [? ?]; by try apply wp_ret.
  - apply wp_bind. eapply wp_mono; [by apply clone_udp_wp| |]; intros ? ? [? ?]; by try apply wp_ret.
  - apply wp_bind. eapply wp_mono; [by apply get_lib_as_file_wp| |]; cbn beta.
    + intros f r' [H' _]. apply wp_ret. split; [apply H'|]. intros _. by apply fetched_kept.
    + intros e r' H'. split; [apply H'|]. intros _. by apply fetched_kept.
  - eapply wp_mono; [by apply use_in_memory_wp| |]; by intros ? ? [? ?].
  - eapply wp_mono; [by apply register_wp| |]; by intros ? ? [? ?].
Qed.

Lemma registry_exec_coherent (o : registry_op) (r : registry) :
  coherent r → op_ok o r →
  (∃ r', registry_exec o r = (Ret tt, r') ∧ coherent r') ∨
  (∃ e r', registry_exec o r = (Throw e, r') ∧ coherent r').
Proof.
  intros Hr Hok. pose proof (registry_exec_wp o r Hr Hok) as Hwp. unfold wp in Hwp.
  destruct (registry_exec o r) as [[[]|e|f] r']; [left|right|done]; destruct Hwp; eauto.
Qed.

(** ** The threads of a process

    A thread that calls [get_lib_file_hash] releases the mutex before it
    accesses the hash cache: until it next locks the mutex, or synchronizes
    with the other threads otherwise, nothing orders this access before or
    after theirs. [unordered] are the threads that are about to make or have
    made such an access; [between] those that have not yet made it, with the
    file they read. An access of another thread meanwhile is a data race. *)
Record shared := {
  reg : registry;
  between : gmap nat (string * bytes);
  unordered : gset nat
}.

Definition set_reg (r : registry) (s : shared) : shared :=
  {| reg := r; between := s.(between); unordered := s.(unordered) |}.
Definition set_between (b : gmap nat (string * bytes)) (s : shared) : shared :=
  {| reg := s.(reg); between := b; unordered := s.(unordered) |}.
Definition set_unordered (u : gset nat) (s : shared) : shared :=
  {| reg := s.(reg); between := s.(between); unordered := u |}.

Definition on_reg {A} : M registry A → M shared A := zoom reg set_reg.

Definition hash_race : fault := undefined_behaviour "data race on _hash_cache".

(** What thread [t] did is ordered before what the others do next. *)
Definition synchronize (t : nat) : M shared unit := modify (λ s, set_unordered (s.(unordered) ∖ {[t]}) s).

(** An access of thread [t] to the hash cache that the others' accesses must be
    ordered with. *)
Definition access_hashes (t : nat) : M shared unit :=
  s ← get_state;
  if decide (s.(unordered) ⊆ {[t]}) then mret tt else crash hash_race.

(** [get_lib_file_hash(n)] of thread [t], until the mutex is released. *)
Definition hash_begins (t : nat) (n : string) : M shared (option bytes) :=
  _ ← synchronize t;
  file ← on_reg (get_lib_as_file n);
  match file with
  | None => mret None
  | Some f =>
      _ ← access_hashes t;
      _ ← modify (λ s, set_between (<[t := (n, f)]> s.(between)) (set_unordered ({[t]} ∪ s.(unordered)) s));
      mret file
  end.

(** The rest of it. *)
Definition hash_ends (t : nat) : M shared (option string) :=
  s ← get_state;
  match s.(between) !! t with
  | None => mret None
  | Some (n, f) =>
      h ← on_reg (cached_hash n f);
      _ ← modify (λ s, set_between (delete t s.(between)) s);
      mret h
  end.

(** Steps of thread [t]; [Synchronizes]: it is joined, or meets the other
    threads at another mutex. *)
Inductive thread_event :=
  | Calls (t : nat) (o : registry_op)
  | HashBegins (t : nat) (n : string)
  | HashEnds (t : nat)
  | Synchronizes (t : nat).

Definition thread_of (e : thread_event) : nat :=
  match e with Calls t _ | HashBegins t _ | HashEnds t | Synchronizes t => t end.

Definition thread_exec (e : thread_event) : M shared unit :=
  match e with
  | Calls t o =>
      s ← get_state;
      _ ← (if uses_hashes o s.(reg) then access_hashes t else mret tt);
      _ ← synchronize t;
      on_reg (registry_exec o)
  | HashBegins t n => _ ← hash_begins t n; mret tt
  | HashEnds t => _ ← hash_ends t; mret tt
  | Synchronizes t => synchronize t
  end.

(** A thread does nothing else between the two parts. *)
Definition event_ok (e : thread_event) (s : shared) : Prop :=
  match e with
  | Calls t o => s.(between) !! t = None ∧ op_ok o s.(reg)
  | HashBegins t n => s.(between) !! t = None ∧ plain n
  | HashEnds t => is_Some (s.(between) !! t)
  | Synchronizes t => s.(between) !! t = None
  end.

(** The registry is coherent, and so are the files that threads are about to
    hash. *)
Definition shared_ok (s : shared) : Prop :=
  coherent s.(reg) ∧ dom s.(between) ⊆ s.(unordered) ∧
  ∀ t n f, s.(between) !! t = Some (n, f) → plain n ∧ lib_file n s.(reg) = Some f.

Definition races (e : thread_event) (s : shared) : Prop :=
  ∃ t', t' ≠ thread_of e ∧ t' ∈ s.(unordered).

Lemma race_with (t : nat) (u : gset nat) : ¬ u ⊆ {[t]} → ∃ t', t' ≠ t ∧ t' ∈ u.
Proof.
  intros Hu. destruct (set_choose_or_empty (u ∖ {[t]})) as [[t' Ht']|He].
  - exists t'. set_solver.
  - destruct Hu. intros x Hx. destruct (decide (x = t)); set_solver.
Qed.

Lemma shared_kept (s : shared) r u :
  shared_ok s → coherent r → kept s.(reg) r → dom s.(between) ⊆ u → shared_ok (set_reg r (set_unordered u s)).
Proof.
  intros (_ & _ & Hb) Hr Hk Hu. split_and!; [done|done|]. intros t n f Ht.
  destruct (Hb t n f Ht). split; [done|]. by eapply kept_lib_file.
Qed.

Lemma not_between (s : shared) t : shared_ok s → s.(between) !! t = None → dom s.(between) ⊆ s.(unordered) ∖ {[t]}.
Proof.
  intros (_ & Hd & _) Ht. apply not_elem_of_dom in Ht. set_solver.
Qed.

Lemma synchronized_ok (s : shared) t :
  shared_ok s → s.(between) !! t = None → shared_ok (set_unordered (s.(unordered) ∖ {[t]}) s).
Proof. intros Hs Ht. split; [exact (proj1 Hs)|]. split; [exact (not_between s t Hs Ht)|exact (proj2 (proj2 Hs))]. Qed.

(** Only [t] is unordered and it is not between: nobody is. *)
Lemma nobody_between (s : shared) t :
  shared_ok s → s.(between) !! t = None → s.(unordered) ⊆ {[t]} → s.(between) = ∅.
Proof.
  intros (_ & Hd & _) Ht Hu. apply not_elem_of_dom in Ht. apply dom_empty_iff_L. set_solver.
Qed.

Lemma access_run t (s : shared) :
  access_hashes t s = (if decide (s.(unordered) ⊆ {[t]}) then Ret tt else Crash hash_race, s).
Proof. unfold access_hashes. rewrite bind_run. cbn [get_state]. by case_decide. Qed.

Lemma calls_ok t o (s : shared) :
  shared_ok s → event_ok (Calls t o) s →
  (∃ res s', thread_exec (Calls t o) s = (res, s') ∧ shared_ok s' ∧ (res = Ret tt ∨ ∃ x, res = Throw x)) ∨
  (∃ s', thread_exec (Calls t o) s = (Crash hash_race, s') ∧ races (Calls t o) s).
Proof.
  intros Hs [Ht Hop]. cbn [thread_exec]. rewrite bind_run. cbn [get_state]. rewrite bind_run.
  pose proof (registry_exec_wp o s.(reg) (proj1 Hs) Hop) as Hwp. unfold wp in Hwp.
  assert ((if uses_hashes o (reg s) then access_hashes t else mret tt) s = (Ret tt, s) →
    (uses_hashes o (reg s) = true → s.(between) = ∅) →
    ∃ res s', (_ ← synchronize t; on_reg (registry_exec o)) s = (res, s') ∧ shared_ok s' ∧
      (res = Ret tt ∨ ∃ x, res = Throw x)) as Hgo.
  { intros _ He. rewrite bind_run. unfold synchronize, modify, on_reg, zoom. cbn [reg set_unordered].
    destruct (registry_exec o (reg s)) as [[[]|x|f] r']; [| |done]; destruct Hwp as [Hr' Hk];
      (eexists _, _; split; [reflexivity|]; split; [|by eauto]).
    all: destruct (uses_hashes o (reg s)); [|apply shared_kept; [done|done|by apply Hk|by apply not_between]].
    all: split_and!; [done|cbn; rewrite He by done; set_solver|cbn; rewrite He by done; by intros ? ? ? ?%lookup_empty_Some]. }
  destruct (uses_hashes o (reg s)) eqn:Hu.
  - rewrite access_run in *. case_decide as Hd.
    + left. apply Hgo; [done|intros _; by eapply nobody_between].
    + right. eexists. split; [reflexivity|]. by apply race_with.
  - left. by apply Hgo.
Qed.

Lemma hash_begins_ok t n (s : shared) :
  shared_ok s → event_ok (HashBegins t n) s →
  (∃ file s', hash_begins t n s = (Ret file, s') ∧ shared_ok s' ∧ kept s.(reg) s'.(reg) ∧
     s'.(between) !! t = (λ f, (n, f)) <$> file) ∨
  (∃ x s', hash_begins t n s = (Throw x, s') ∧ shared_ok s') ∨
  (∃ s', hash_begins t n s = (Crash hash_race, s') ∧ races (HashBegins t n) s).
Proof.
  intros Hs [Ht Hn]. unfold hash_begins. rewrite bind_run. unfold synchronize, modify. rewrite bind_run.
  unfold on_reg, zoom. cbn [reg set_unordered].
  pose proof (get_lib_as_file_wp s.(reg) n (proj1 Hs)) as Hwp. unfold wp in Hwp.
  assert (∀ r', fetched (reg s) r' → shared_ok (set_reg r' (set_unordered (unordered s ∖ {[t]}) s))) as Hf.
  { intros r' Hr'. apply shared_kept; [done|apply Hr'|by apply fetched_kept|by apply not_between]. }
  destruct (get_lib_as_file n (reg s)) as [[file|x|c] r1]; [|right; left; eexists _, _; split; [reflexivity|by apply Hf]|done].
  destruct Hwp as [H1 Hfile]. pose proof (Hf _ H1) as Hs1. destruct file as [f|].
  - destruct (Hfile f eq_refl) as [Hf1 _]. rewrite bind_run, access_run. case_decide as Hd.
    + left. eexists _, _. split; [reflexivity|]. cbn. split; [|split; [by apply fetched_kept|apply lookup_insert_eq]].
      split_and!; [apply H1|cbn; rewrite dom_insert_L; pose proof (not_between s t Hs Ht); set_solver|].
      intros t' n' f'. cbn. intros [[<- [= <- <-]]|[_ Hin]]%lookup_insert_Some; [done|]. by apply (proj2 (proj2 Hs1)) in Hin.
    + right; right. eexists. split; [reflexivity|]. cbn in Hd.
      destruct (race_with t (unordered s)) as (t' & ? & ?); [set_solver|]. by exists t'.
  - left. eexists _, _. split; [reflexivity|]. split_and!; [done|by apply fetched_kept|done].
Qed.

Lemma hash_ends_ok t n f (s : shared) :
  shared_ok s → s.(between) !! t = Some (n, f) →
  ∃ s', hash_ends t s = (Ret (Some (sha256_hex f)), s') ∧ shared_ok s' ∧ s'.(between) = delete t s.(between) ∧
    kept s.(reg) s'.(reg) ∧ only_hashes s.(reg) s'.(reg).
Proof.
  intros Hs Ht. destruct (proj2 (proj2 Hs) t n f Ht) as [Hn Hf].
  unfold hash_ends. rewrite bind_run. cbn [get_state]. rewrite Ht, bind_run. unfold on_reg, zoom.
  pose proof (hash_entry_wp s.(reg) n f (proj1 Hs) Hn Hf) as Hwp. unfold wp in Hwp.
  destruct (cached_hash n f (reg s)) as [[h|x|c] r1]; [|done..]. destruct Hwp as (H1 & Ho & -> & _).
  eexists. split; [reflexivity|]. cbn. split_and!; [|done|by apply fetched_kept|done].
  pose proof (fetched_kept _ _ H1) as Hk. destruct (shared_kept s r1 s.(unordered) Hs (proj1 H1) Hk (proj1 (proj2 Hs))) as (_ & _ & Hb).
  split_and!; [apply H1|cbn; rewrite dom_delete_L; pose proof (proj1 (proj2 Hs)); set_solver|].
  intros t' n' f'. cbn. intros [_ Hin]%lookup_delete_Some. by apply Hb in Hin.
Qed.

Lemma thread_step_ok (e : thread_event) (s : shared) :
  shared_ok s → event_ok e s →
  (∃ res s', thread_exec e s = (res, s') ∧ shared_ok s' ∧ (res = Ret tt ∨ ∃ x, res = Throw x)) ∨
  (∃ s', thread_exec e s = (Crash hash_race, s') ∧ races e s).
Proof.
  intros Hs He. destruct e as [t o|t n|t|t]; [by apply calls_ok|..]; cbn [thread_exec].
  - rewrite bind_run. destruct (hash_begins_ok t n s Hs He) as [(file & s' & -> & Hs' & _)|[(x & s' & -> & Hs')|(s' & -> & Hr)]].
    + left. by eauto 10.
    + left. by eauto 10.
    + right. by eauto.
  - rewrite bind_run. destruct He as [[n f] Ht]. destruct (hash_ends_ok t n f s Hs Ht) as (s' & -> & Hs' & _).
    left. by eauto 10.
  - left. eexists _, _. split; [reflexivity|]. split; [|by left].
    by apply synchronized_ok.
Qed.

(** Runs of the threads: each event returns or throws, and does not race. *)
Inductive thread_run : shared → list thread_event → shared → Prop :=
  | thread_nil s : thread_run s [] s
  | thread_cons s e res s1 es s2 :
      event_ok e s → thread_exec e s = (res, s1) → (∀ f, res ≠ Crash f) → thread_run s1 es s2 →
      thread_run s (e :: es) s2.

Lemma thread_run_ok s es s' : thread_run s es s' → shared_ok s → shared_ok s'.
Proof.
  induction 1 as [|s e res s1 es s2 Hok He Hres Hrun IH]; intros Hs; [done|]. apply IH.
  destruct (thread_step_ok e s Hs Hok) as [(res' & s' & He' & Hs' & _)|(s' & He' & _)]; [congruence|].
  rewrite He in He'. simplify_eq. by destruct (Hres hash_race).
Qed.

(** Another thread's step does not concern a thread between the parts. *)
Lemma thread_exec_between e (s s1 : shared) res t :
  shared_ok s → event_ok e s → thread_exec e s = (res, s1) → (∀ f, res ≠ Crash f) → thread_of e ≠ t →
  s1.(between) !! t = s.(between) !! t.
Proof.
  intros Hs Hok E Hres Hne. destruct e as [u o|u n|u|u]; cbn [thread_exec thread_of event_ok] in *.
  - rewrite bind_run in E. cbn [get_state] in E. rewrite bind_run in E.
    assert ((if uses_hashes o (reg s) then access_hashes u else mret tt) s =
      (if decide (uses_hashes o (reg s) = false ∨ unordered s ⊆ {[u]}) then Ret tt else Crash hash_race, s)) as Ea.
    { destruct (uses_hashes o (reg s)); [rewrite access_run|by rewrite decide_True by by left].
      repeat case_decide; naive_solver. }
    rewrite Ea in E. case_decide; [|simplify_eq; by destruct (Hres hash_race)].
    rewrite bind_run in E. unfold synchronize, modify, on_reg, zoom in E. cbn [reg set_unordered] in E.
    destruct (registry_exec o (reg s)) as [r1 r']. by simplify_eq.
  - rewrite bind_run in E. unfold hash_begins in E. rewrite bind_run in E. unfold synchronize, modify in E.
    rewrite bind_run in E. unfold on_reg, zoom in E. cbn [reg set_unordered] in E.
    destruct (get_lib_as_file n (reg s)) as [[[f|]|x|c] r1]; [|by injection E as _ <-|by injection E as _ <-|by injection E as _ <-].
    rewrite bind_run, access_run in E. case_decide; [|simplify_eq; by destruct (Hres hash_race)].
    cbn in E. injection E as _ <-. cbn. by rewrite lookup_insert_ne.
  - rewrite bind_run in E. destruct Hok as [[n f] Hu].
    destruct (hash_ends_ok u n f s Hs Hu) as (s' & Ee & _ & Hb & _). rewrite Ee in E. injection E as _ <-.
    by rewrite Hb, lookup_delete_ne.
  - by injection E as _ <-.
Qed.

(** A file that can be read is read. *)
Lemma hash_begins_reads t n f (s s1 : shared) file :
  shared_ok s → lib_file n s.(reg) = Some f → _get_lib_path n s.(reg) ∉ s.(reg).(_os).(read_denied) →
  hash_begins t n s = (Ret file, s1) → file = Some f.
Proof.
  intros Hs Hf Hread E. unfold hash_begins in E. rewrite bind_run in E. unfold synchronize, modify in E.
  rewrite bind_run in E. unfold on_reg, zoom in E. cbn [reg set_unordered] in E.
  pose proof (readable_file_wp s.(reg) n f (proj1 Hs) Hf Hread) as Hwp. unfold wp in Hwp.
  destruct (get_lib_as_file n (reg s)) as [[o|x|c] r1]; [|done..]. destruct Hwp as (_ & -> & _).
  rewrite bind_run, access_run in E. case_decide; [|done]. by injection E as <- _.
Qed.

(** C19. Whatever the interleaving of the threads that call the registry, if no two
    of them race for the hash cache: the in-memory cache, the hash cache and
    the loaded images agree with the library files, also when a function
    throws, and the next step returns or throws with the same agreement, unless
    it races: the function needs the hash cache while another thread, which has
    called [get_lib_file_hash], is about to access it or has accessed it
    outside the mutex and not synchronized since. Nothing else is undefined
    behaviour, as long as library names are relative, objects are cloned while
    their code is mapped, and the provider does not crash. ([set_local_cache_dir]
    is not among the functions.) *)
Theorem registry_coherent (s s' : shared) (es : list thread_event) (e : thread_event) :
  shared_ok s → thread_run s es s' → event_ok e s' →
  coherent s'.(reg) ∧
  ((∃ res s2, thread_exec e s' = (res, s2) ∧ coherent s2.(reg) ∧ (res = Ret tt ∨ ∃ x, res = Throw x)) ∨
   (∃ s2, thread_exec e s' = (Crash hash_race, s2) ∧ ∃ t', t' ≠ thread_of e ∧ t' ∈ s'.(unordered))).
Proof.
  intros Hs Hrun He. pose proof (thread_run_ok _ _ _ Hrun Hs) as Hs'. split; [apply Hs'|].
  destruct (thread_step_ok e s' Hs' He) as [(res & s2 & -> & [Hc _] & Hres)|(s2 & -> & Hr)]; [left|right]; eauto 10.
Qed.

(** The loader of a library whose every earlier load succeeded. *)
Definition never_failed (n : string) (r : registry) : Prop :=
  ∀ l, r.(_lib_loaders) !! n = Some l → is_Some l.(_handle).

Lemma initialize_version_mapped (r r' : registry) n h :
  coherent r → plain n → initialize_udp n (Some h) r = (Ret tt, r') →
  ∃ l, r'.(_lib_loaders) !! n = Some l ∧ (never_failed n r → is_Some l.(_handle)) ∧
    (is_Some l.(_handle) → ∃ img, image_at l r' = Some img ∧ lib_file n r' = Some img ∧ right_version n h r img).
Proof.
  intros Hr Hn E.
  destruct (wp_run _ _ _ _ _ _ (initialize_udp_wp r n h Hr Hn) E) as (_ & _ & (l & Hl & Himg) & Hcase).
  exists l. split; [done|]. split; [|done]. intros Hnf.
  destruct Hcase as [Hsame|(l' & img & Hl' & Hs & _)]; [|by simplify_eq].
  apply (Hnf l). by rewrite <- Hsame.
Qed.

(** C20. When [initialize_udp(name, hash)] returns, in whatever interleaving of
    the process's threads, a loader is registered for the library; it has an
    image mapped unless a load of the library failed earlier; and the image,
    which is the library's file, is of that version, whatever the cache
    directory held and whatever was loaded before, or it is what the provider
    sent after a file of another version was deleted, whose hash the code does
    not compare again. *)
Theorem initialize_udp_version (s s' : shared) t n h :
  shared_ok s → plain n → s.(between) !! t = None →
  thread_exec (Calls t (Initialize n (Some h))) s = (Ret tt, s') →
  let r := s.(reg) in let r' := s'.(reg) in
  ∃ l, r'.(_lib_loaders) !! n = Some l ∧
    ((∀ l0, r.(_lib_loaders) !! n = Some l0 → is_Some l0.(_handle)) → is_Some l.(_handle)) ∧
    (is_Some l.(_handle) → ∃ img, image_at l r' = Some img ∧ lib_file n r' = Some img ∧
       (sha256_hex img = h ∨
        (provided n img r ∧ ∃ g, (lib_file n r = Some g ∨ provided n g r) ∧ sha256_hex g ≠ h))).
Proof.
  intros Hs Hn Ht E r r'. subst r r'. cbn [thread_exec] in E.
  apply bind_ret_inv in E as (s1 & s2 & [= <- <-] & E). apply bind_ret_inv in E as (u1 & s3 & Ea & E).
  assert (s3 = s) as ->.
  { destruct (uses_hashes _ _); [|by injection Ea as _ <-]. rewrite access_run in Ea. case_decide; by simplify_eq. }
  apply bind_ret_inv in E as (u2 & s4 & [= <- <-] & E). unfold on_reg, zoom in E. cbn [reg set_unordered registry_exec] in E.
  destruct (initialize_udp n (Some h) (reg s)) as [[[]|x|c] r1] eqn:Ei; [|done..]. injection E as <-.
  exact (initialize_version_mapped (reg s) r1 n h (proj1 Hs) Hn Ei).
Qed.

(** A load that fails leaves the library registered: the next
    [initialize_udp] returns normally with nothing loaded. *)
Theorem failed_load_counts_as_loaded (r : registry) n img :
  r.(_lib_loaders) !! n = None → lib_file n r = Some img → image_loadable img = false →
  ∃ e r', initialize_udp n None r = (Throw e, r') ∧
    initialize_udp n None r' = (Ret tt, r') ∧
    ∃ l, r'.(_lib_loaders) !! n = Some l ∧ l.(_handle) = None.
Proof.
  intros Hnone Hfile Hload. exists (runtime_error error_msg).
  set (l := lib_loader_new (_get_lib_path n r)).
  exists (set_os r.(_os) (set_loaders (<[n := set_handle None l]> (<[n := l]> r.(_lib_loaders)))
            (set_loaders (<[n := l]> r.(_lib_loaders)) r))).
  split; [|split].
  - unfold initialize_udp. m_eval. rewrite Hnone. unfold find_and_load. m_eval.
    rewrite file_exists by by eexists. unfold _load_lib. m_eval. rewrite Hnone.
    unfold on_loader. m_eval. cbn [_lib_loaders set_loaders _os]. rewrite lookup_insert_eq.
    assert (open_lib (l, _os r) = (Throw (runtime_error error_msg), (set_handle None l, _os r))) as Eo.
    { unfold open_lib, this_loader, in_os, set_this, portable_dlopen. m_eval.
      unfold lib_file in Hfile. change (_pathToLib l) with (_get_lib_path n r). rewrite Hfile.
      case_decide; m_eval; [done|]. by rewrite Hload. }
    fold l. rewrite Eo. by m_eval.
  - unfold initialize_udp. m_eval. cbn [_lib_loaders set_loaders set_os].
    by rewrite lookup_insert_eq.
  - exists (set_handle None l). split; [|done]. cbn. apply lookup_insert_eq.
Qed.
End Theorems.

(** The controller's view of the registry. *)
#[export] Instance registry_store {UC : UdpCode} {N : Type} : LibraryStore (udp_registry N) :=
  {| lib_as_file := get_lib_as_file |}.
