(* ===== verification/UdpScenario.v ===== *)
(** * A concrete library world for the registry's witnesses

    Images are loadable when they start with the byte [0x7f]; objects are
    strings. *)
From Stdlib Require Import Strings.Byte.
From S2P Require Import Prelude Sha256Spec LruCache HashCache LibLoader UdpRegistry.
From S2P Require Import UdpVersions UdpTheorems.

#[export] Instance ToyUdp : UdpCode := {|
  any := unit;
  no_params := tt;
  udp := string;
  udp_lib_name := λ u, u;
  image_loadable := λ img, match img with x7f :: _ => true | _ => false end;
  image_symbol := λ img s, match img with x7f :: _ => true | _ => false end;
  image_allocate := λ img _, inr "p"%string;
  image_clone := λ img u, u;
  program_image := []
|}.

Definition toy_os (fs : gmap string bytes) : os :=
  {| files := fs; dirs := {["."%string; "cache"%string]}; read_denied := ∅; write_denied := ∅;
     remove_denied := ∅; disk_full := false; loaded := ∅; next_handle := 0; dlclose_ok := true;
     after_load_log := [] |}.

Definition old_image : bytes := [x7f; x01].
Definition new_image : bytes := [x7f; x02].

(** A provider that always has the new version; it counts its calls. *)
Definition toy_provider (n : string) : M nat (option bytes) :=
  λ calls, (Ret (Some new_image), S calls).

Definition registry_of (fs : gmap string bytes) : udp_registry nat :=
  set_provider toy_provider (udp_registry_new (toy_os fs) 0%nat).

Lemma registry_of_coherent fs : coherent (registry_of fs).
Proof.
  split.
  - exists []. split_and!; [apply new_represents|cbn; lia|by intros p f ?%elem_of_nil].
  - exists []. split_and!; [apply new_represents|cbn; lia|by intros p f ?%elem_of_nil].
  - split; cbn; [done..|]. by intros h [x ?%lookup_empty_Some].
  - cbn. by intros p n s f s' [= <-].
Qed.

(** The cache directory holds an old version that is loaded; the message names
    the new one. *)
Definition outdated : udp_registry nat :=
  (construct_udp "p" tt (registry_of {["./p.so"%string := old_image]})).2.

Lemma outdated_coherent : coherent outdated.
Proof.
  destruct (registry_exec_coherent (Construct (UC := ToyUdp) "p" tt) (registry_of {["./p.so"%string := old_image]}))
    as [(r' & E & H)|(e & r' & E & H)]; [apply registry_of_coherent|done|..].
  all: unfold registry_exec in E; rewrite bind_run in E; unfold outdated.
  all: destruct (@construct_udp ToyUdp nat _ _ _) as [[p|e0|f] r1];
    unfold mret, M_ret in E; by simplify_eq.
Qed.

(** A process whose threads have not yet asked for hashes. *)
Definition alone (r : udp_registry nat) : shared := {| reg := r; between := ∅; unordered := ∅ |}.

Lemma alone_ok r : coherent r → shared_ok (alone r).
Proof. intros Hr. split; [done|]. split; [done|]. intros t n f. cbn. by intros ?%lookup_empty_Some. Qed.

Definition updated : shared (N := nat) := (thread_exec (Calls 1 (Initialize "p" (Some (sha256_hex new_image)))) (alone outdated)).2.

Lemma initialize_udp_version_witness :
  (thread_exec (Calls 1 (Initialize "p" (Some (sha256_hex new_image)))) (alone outdated)).1 = Ret tt ∧
  ∃ l, updated.(reg).(_lib_loaders) !! "p"%string = Some l ∧
    ((∀ l0, outdated.(_lib_loaders) !! "p"%string = Some l0 → is_Some l0.(_handle)) → is_Some l.(_handle)) ∧
    (is_Some l.(_handle) → ∃ img, image_at l updated.(reg) = Some img ∧ lib_file "p" updated.(reg) = Some img ∧
       (sha256_hex img = sha256_hex new_image ∨
        (provided "p" img outdated ∧ ∃ g, (lib_file "p" outdated = Some g ∨ provided "p" g outdated) ∧
           sha256_hex g ≠ sha256_hex new_image))).
Proof.
  split; [vm_compute; reflexivity|].
  apply (initialize_udp_version (alone outdated) updated 1).
  - apply alone_ok, outdated_coherent.
  - done.
  - done.
  - unfold updated. vm_compute. reflexivity.
Defined.

(** One thread asks for a hash; while it has the file but not yet the hash,
    another constructs an object. *)
Definition two_threads : list (thread_event (UC := ToyUdp) (N := nat)) :=
  [HashBegins 1 "p"; Calls 2 (Construct (UC := ToyUdp) "p" tt); HashEnds 1].

Definition threads_after (es : list (thread_event (N := nat))) (s : shared (N := nat)) : shared := foldl (λ s e, (thread_exec e s).2) s es.

Lemma thread_run_step (s s2 : shared (N := nat)) e es :
  event_ok e s → (∃ a, (thread_exec e s).1 = Ret a) → thread_run (thread_exec e s).2 es s2 → thread_run s (e :: es) s2.
Proof.
  intros He [a Ha] Hrun. destruct (thread_exec e s) as [res s1] eqn:E. cbn in *. subst res.
  by eapply thread_cons; [exact He|exact E| |exact Hrun].
Qed.

Lemma two_threads_run : thread_run (alone outdated) two_threads (threads_after two_threads (alone outdated)).
Proof.
  apply thread_run_step; [by split|exists tt; by vm_compute|].
  apply thread_run_step; [split; [by vm_compute|done]|exists tt; by vm_compute|].
  apply thread_run_step; [vm_compute; by eexists|exists tt; by vm_compute|]. constructor.
Qed.

Lemma registry_coherent_witness :
  let s := threads_after two_threads (alone outdated) in
  coherent s.(reg) ∧
  ((∃ res s2, thread_exec (Calls 1 (Initialize "p" None)) s = (res, s2) ∧ coherent s2.(reg) ∧
      (res = Ret tt ∨ ∃ x, res = Throw x)) ∨
   (∃ s2, thread_exec (Calls 1 (Initialize "p" None)) s = (Crash hash_race, s2) ∧ ∃ t', t' ≠ 1%nat ∧ t' ∈ s.(unordered))).
Proof.
  apply (registry_coherent (alone outdated) _ two_threads (Calls 1 (Initialize "p" None))).
  - apply alone_ok, outdated_coherent.
  - apply two_threads_run.
  - split; [by vm_compute|done].
Defined.

(** The race on the hash cache happens: while one thread has the file but not
    yet the hash, another asks for the hash too, or checks the version; and so
    it does after the first thread's access, until that thread locks the mutex. *)
Theorem hash_cache_race :
  let between_parts := (thread_exec (HashBegins 1 "p") (alone outdated)).2 in
  let behind := (thread_exec (HashEnds 1) between_parts).2 in
  let check := Calls (UC := ToyUdp) (N := nat) 2 (Initialize "p" (Some (sha256_hex new_image))) in
  (thread_exec (HashBegins 2 "p") between_parts).1 = Crash hash_race ∧
  (thread_exec check between_parts).1 = Crash hash_race ∧
  (thread_exec check behind).1 = Crash hash_race ∧
  (thread_exec check (thread_exec (Calls 1 (GetLibAsFile "p")) behind).2).1 = Ret tt.
Proof. vm_compute. by repeat split. Qed.

(** What the provider sends in place of an outdated file is loaded unchecked:
    here it is neither the old version nor the one asked for. *)
Definition other_image : bytes := [x7f; x03].

Definition other_provider (n : string) : M nat (option bytes) := λ calls, (Ret (Some other_image), S calls).

Theorem download_not_checked :
  let r := set_provider other_provider outdated in
  let '(res, r') := initialize_udp "p" (Some (sha256_hex new_image)) r in
  res = Ret tt ∧ (∃ l, r'.(_lib_loaders) !! "p"%string = Some l ∧ image_at l r' = Some other_image) ∧
  sha256_hex other_image ≠ sha256_hex new_image.
Proof. vm_compute. split; [done|]. split; [by eexists|done]. Qed.

Lemma failed_load_counts_as_loaded_witness :
  ∃ e r', initialize_udp "p" None (registry_of {["./p.so"%string := [x00]]}) = (Throw e, r') ∧
    initialize_udp "p" None r' = (Ret tt, r') ∧
    ∃ l, r'.(_lib_loaders) !! "p"%string = Some l ∧ l.(_handle) = None.
Proof.
  apply (failed_load_counts_as_loaded _ _ [x00]).
  - vm_compute. reflexivity.
  - vm_compute. reflexivity.
  - reflexivity.
Defined.

(** The hash cache is keyed by name, the files by path: after the directory is
    changed, the hash of the old directory's file is reported, and a message
    that names the version that is really there makes the registry delete it. *)
Definition two_directories : udp_registry nat :=
  (get_lib_file_hash "p" (registry_of {["./p.so"%string := old_image; "cache/p.so"%string := new_image]})).2.

Definition moved : udp_registry nat := (set_local_cache_dir "cache" two_directories).2.

Example stale_hash_after_directory_change :
  lib_file "p" moved = Some new_image ∧
  (get_lib_file_hash "p" moved).1 = Ret (Some (sha256_hex old_image)) ∧
  sha256_hex old_image ≠ sha256_hex new_image ∧
  let r := (initialize_udp "p" (Some (sha256_hex new_image)) moved).2 in r.(_net) = 1%nat.
Proof. vm_compute. repeat split; congruence. Qed.
