(* ===== verification/SystemScenario.v ===== *)
(** * The system with the library registry, and a concrete run

    The controller's library store is the registry without a provider. In the
    run a worker gets an island's job, asks for a library, dies, comes back and
    completes the job, which was given to it again. *)
From S2P Require Import Prelude Doubles DoubleOrder WorkerInfo Messages Sockets Settings Uuid Pagmo Codec.
From S2P Require Import Island PopulationTools WorkerLogic Worker Controller ControllerSpec Solver WorkScenario.
From S2P Require Import Sha256Spec LruCache HashCache LibLoader UdpRegistry UdpVersions UdpTheorems UdpScenario.
From S2P Require Import System SystemSpec SystemTheorems SystemTyping SystemLiveness.

(** ** The registry as the controller's store *)

Lemma no_provider_wp {UC : UdpCode} {N : Type} (r : udp_registry N) n :
  coherent r → r.(_udp_provider) = None →
  wp (get_lib_as_file n) (λ _ r', coherent r' ∧ r'.(_udp_provider) = None) (λ _ _, False) r.
Proof.
  intros Hr Hp. unfold get_lib_as_file. apply wp_bind, wp_get.
  destruct (_is_lib_in_cache n r) eqn:Ec; cbn [negb].
  - eapply wp_mono; [by apply read_cached_wp| |done]. cbn beta.
    intros f r' ((Hc & (_ & Hp' & _) & _) & _). split; [done|congruence].
  - apply wp_bind. unfold ask_provider. apply wp_bind, wp_get. rewrite Hp. by apply wp_ret, wp_ret.
Qed.

#[export] Instance registry_store_laws {UC : UdpCode} {N : Type} : LibraryStoreLaws (udp_registry N).
Proof.
  refine {| store_ok := λ g, coherent g ∧ g.(_udp_provider) = None |}.
  - intros n g [Hc Hp]. pose proof (no_provider_wp g n Hc Hp) as Hwp. unfold wp in Hwp. cbn.
    destruct (get_lib_as_file n g) as [[f|e|c] g']; [by exists f, g'|done..].
  - intros n g f g' [Hc Hp] E. by apply (wp_run _ _ _ _ _ _ (no_provider_wp g n Hc Hp) E).
Defined.

(** ** A run *)

#[local] Existing Instance toy_container_archive.
#[local] Existing Instance request_archive.
#[local] Existing Instance binary_archive.
#[local] Existing Instance string_archive.
#[local] Existing Instance stats_archive.

#[local] Instance container_laws : ArchiveLaws (work_container algorithm population) :=
  CountableArchive_laws.
#[local] Instance request_laws : ArchiveLaws get_dll_request := CountableArchive_laws.
#[local] Instance binary_laws : ArchiveLaws dll_binary_container := CountableArchive_laws.

Definition single_threaded (mode : worker_mode) (size : Z) : Prop := mode = SINGLE_THREADED.

Definition site_registry : udp_registry nat := udp_registry_new (toy_os {["./p.so"%string := new_image]}) 0%nat.

Lemma site_registry_coherent : coherent site_registry.
Proof.
  split.
  - exists []. split_and!; [apply new_represents|cbn; lia|by intros p f ?%elem_of_nil].
  - exists []. split_and!; [apply new_represents|cbn; lia|by intros p f ?%elem_of_nil].
  - split; cbn; [done..|]. by intros h [x ?%lookup_empty_Some].
  - done.
Qed.

Definition site_disk : disk := {| file := None; readable := true; writable := true |}.

Definition site_controller : distributed_controller (udp_registry nat) :=
  {| _islandsWaitingForAlloc := ∅; _freeWorkersPool := ∅; _workAllocationMap := ∅;
     _ctl_settings := ({| _settings := struct_init; _autoSave := true |}, site_disk);
     _registry := site_registry; _outbox := [] |}.

Definition site : system (R := udp_registry nat) := {| ctl := site_controller; workers := ∅; islands := ∅ |}.

Lemma site_initial : sys_initial site.
Proof.
  split; [by split_and!|]. split; [|done]. split; [apply site_registry_coherent|done].
Qed.

Definition site_udi : distributed_island := distributed_island_new (draws 1) "worker_1" 1.

Abbreviation step_of a s := (sys_step (R := udp_registry nat) 4 0 (λ _, "n"%string) a s).

Definition next (s : system (R := udp_registry nat)) (a : label) : system (R := udp_registry nat) :=
  match step_of a s with
  | Some (_, s') => s'
  | None => s
  end.

Definition site_labels : list label :=
  let i := _islandId site_udi in
  let w := "worker_1"%string in
  let no_picks := {| pick_worker := ""; pick_island := "" |} in
  [WorkerJoins w resting_worker; IslandStarts site_udi (sample_island "alg"); ServesWorker 0 no_picks w;
   IslandSubmits i; ServesIsland 1 no_picks i; WorkerReads w;
   WorkerSteps w (ThreadAsksDll "p"); WorkerSteps w ThreadSocket; ServesWorker 2 no_picks w; WorkerReads w;
   WorkerSteps w ThreadReceives; WorkerDies w 0; ServesWorker 3 no_picks w;
   WorkerJoins w resting_worker; ServesWorker 4 no_picks w; WorkerReads w; WorkerSteps w ThreadEnds;
   WorkerSteps w ThreadSocket; ServesWorker 5 no_picks w; IslandReads i].

Definition site_after : system (R := udp_registry nat) := foldl next site site_labels.

Lemma site_step s a ls s' :
  label_ok single_threaded a → fst <$> step_of a s = Some (Ret tt) →
  sys_run 4 0 (λ _, "n"%string) single_threaded (next s a) ls s' →
  sys_run 4 0 (λ _, "n"%string) single_threaded s (a :: ls) s'.
Proof.
  intros Hok He Hr. econstructor; [exact Hok| |exact Hr]. unfold next.
  destruct (step_of a s) as [[o s1]|]; [|done]. by injection He as ->.
Qed.

Definition is_ret {A} (o : outcome A) : bool := match o with Ret _ => true | _ => false end.

(** The run up to the death of the worker that has the island's job. *)
Definition crash_labels : list label := take 12 site_labels.
Definition site_crashed : system (R := udp_registry nat) := foldl next site crash_labels.

Ltac run_site :=
  repeat (apply site_step; [first [done|by split_and!]|vm_compute; reflexivity|]); constructor.

Lemma crash_run : sys_run 4 0 (λ _, "n"%string) single_threaded site crash_labels site_crashed.
Proof.
  unfold crash_labels, site_crashed, site_labels. cbn zeta. cbn [take foldl crash_labels site_labels].
  run_site.
Qed.


Lemma site_run : sys_run 4 0 (λ _, "n"%string) single_threaded site site_labels site_after.
Proof.
  unfold site_labels, site_after. cbn zeta. cbn [foldl site_labels]. run_site.
Qed.


(** The run up to the worker's request for the library. *)
Definition request_labels : list label := take 8 site_labels.
Definition site_requesting : system (R := udp_registry nat) := foldl next site request_labels.

Lemma request_run : sys_run 4 0 (λ _, "n"%string) single_threaded site request_labels site_requesting.
Proof.
  unfold request_labels, site_requesting, site_labels. cbn zeta. cbn [take foldl request_labels site_labels].
  run_site.
Qed.

Lemma messages_well_typed_witness :
  (∃ l m, site_requesting.(workers) !! "worker_1"%string = Some l ∧ l.(up) = [m] ∧
     m.1 = GET_DLL ∧ payload_ok worker_to_controller m) ∧
  map_Forall (λ _, island_typed) site_requesting.(islands) ∧ controller_typed site_requesting.(ctl).
Proof.
  destruct (messages_well_typed 4 0 (λ _, "n"%string) single_threaded site request_labels site_requesting)
    as (Hw & Hi & Hc); [apply site_initial|apply request_run|]. split; [|by split].
  destruct (site_requesting.(workers) !! "worker_1"%string) as [l|] eqn:E; [|vm_compute in E; discriminate].
  destruct (Hw _ _ E) as [Hup _].
  assert (∃ m, l.(up) = [m] ∧ m.1 = GET_DLL) as (m & Hl & Hm).
  { vm_compute in E. injection E as <-. by eexists. }
  exists l, m. rewrite Hl in Hup. inversion_clear Hup. by split_and!.
Defined.
