(* ===== verification/DeploymentScenario.v ===== *)
(** * A deployment, from the call of [evolve] to the best individual

    The solver is asked to evolve while the first worker connects; it starts one
    island, whose job the worker computes. *)
From S2P Require Import Prelude Doubles DoubleOrder WorkerInfo Messages Sockets Settings Uuid Pagmo Codec.
From S2P Require Import Island PopulationTools WorkerLogic Worker Controller ControllerSpec WorkPlan Solver.
From S2P Require Import WorkScenario UdpRegistry UdpTheorems UdpScenario System SystemSpec SystemTheorems SystemScenario Deployment.

#[local] Existing Instance toy_container_archive.
#[local] Existing Instance request_archive.
#[local] Existing Instance binary_archive.
#[local] Existing Instance string_archive.
#[local] Existing Instance stats_archive.
#[local] Existing Instance container_laws.
#[local] Existing Instance request_laws.
#[local] Existing Instance binary_laws.

Definition first_worker : string := "worker_1".
Definition any_picks : picks := {| pick_worker := ""; pick_island := "" |}.

(** The worker connects after the number of islands was decided. *)
Definition connect_labels : list label :=
  [WorkerJoins first_worker resting_worker; ServesWorker 0 any_picks first_worker].

Definition connected : system (R := udp_registry nat) := foldl next site connect_labels.

Definition site_moments (t : nat) : system (R := udp_registry nat) :=
  match t with O => site | S _ => connected end.
(** Nothing happens during an access; the worker connects after the first. *)
Definition site_during (_ : nat) : list label := [].
Definition site_after (t : nat) : list label := match t with O => connect_labels | S _ => [] end.
Definition site_order (_ : nat) (s : gset string) : list string := elements s.

#[local] Instance site_plan_environment : PlanEnvironment := running_environment site_moments site_during site_order.

Definition evolution : outcome unit * distributed_solver :=
  evolve (PE := site_plan_environment) toy_problem_1 [plan_algorithm] 4 1 4 draws (λ _, 7) (idle_solver hints).

Definition evolving : distributed_solver := evolution.2.
Definition planned : list (island (PagmoIsland := ToyIsland)) := islands_of evolving.(_archipelago).

(** The cycle of the only island. *)
Definition cycle_labels : list label :=
  let i := _islandId (distributed_island_new (draws 0) first_worker 1) in
  [IslandSubmits i; ServesIsland 1 any_picks i; WorkerReads first_worker; WorkerSteps first_worker ThreadEnds;
   WorkerSteps first_worker ThreadSocket; ServesWorker 2 any_picks first_worker; IslandReads i].

Definition evolved_site : system (R := udp_registry nat) := foldl next connected (starts planned ++ cycle_labels).

Abbreviation site_system_run := (sys_run (R := udp_registry nat) 4 0 (λ _, "n"%string) single_threaded).

Lemma connect_run : site_system_run site connect_labels connected.
Proof.
  unfold connected, connect_labels. cbn [foldl].
  apply site_step; [by split_and!|vm_compute; reflexivity|].
  apply site_step; [done|vm_compute; reflexivity|]. constructor.
Qed.

Lemma site_runs_on : runs_on 4 0 (λ _, "n"%string) single_threaded site_moments site_during site_after site_order.
Proof.
  split.
  - apply (sys_initial_ok 4 0 (λ _, "n"%string) single_threaded site), site_initial.
  - intros [|t]; [apply connect_run|constructor].
  - intros t s. apply Permutation_refl.
Qed.

Lemma single_threaded_splits : splittable 4 single_threaded.
Proof. intros mode mn -> H. discriminate H. Qed.

Lemma evolved_run : site_system_run connected (starts planned ++ cycle_labels) evolved_site.
Proof.
  destruct planned as [|h []] eqn:E; [vm_compute in E; discriminate| |vm_compute in E; discriminate].
  unfold evolved_site. rewrite E. vm_compute in E. injection E as <-.
  cbn [starts fmap list_fmap app]. unfold cycle_labels. cbn zeta. cbn [foldl].
  run_site.
Qed.

Lemma planned_completed : Forall2 (completed 1 evolved_site) planned planned.
Proof.
  destruct planned as [|h []] eqn:E; [vm_compute in E; discriminate| |vm_compute in E; discriminate].
  vm_compute in E. injection E as <-. constructor; [|constructor].
  unfold completed. destruct (islands evolved_site !! _) as [k|] eqn:Ek; [|vm_compute in Ek; discriminate].
  exists k. split; [done|]. vm_compute in Ek. injection Ek as <-. by split_and!.
Qed.

