(* ===== verification/UdpWrapper.v ===== *)
(** * discovery/udp_dll_wrapper.cpp, udp_base.h: problems whose code is in a library

    [udp_dll_wrapper] is the problem that Pagmo sees: it forwards every call to
    an object of a library, clones that object when it is copied, and on
    serialization sends the hash of the library's file so that the receiver
    loads the same version first. The classes derived from [udp_base] are
    library code: [UdpClasses] gives, for an image and an object, the virtual
    functions its class overrides, and how Boost stores and restores such
    objects. Objects behind different wrappers are never shared (every copy
    clones). *)
From S2P Require Import Prelude Doubles LruCache HashCache LibLoader UdpRegistry Pagmo.

(** ** [udp_base] *)

Inductive capability :=
  | has_batch_fitness
  | has_gradient
  | has_gradient_sparsity
  | has_hessians
  | has_hessians_sparsity
  | has_set_seed.

Inductive thread_safety := thread_none | thread_basic | thread_constant.

Abbreviation sparsity_pattern := (list (Z * Z)).

(** The virtual functions of a class with objects [O]: two are pure in
    [udp_base]; [None] is a function that is not overridden. *)
Record udp_base (O : Type) := {
  o_fitness : O → vector_double → outcome vector_double;
  o_get_bounds : O → outcome (vector_double * vector_double);
  o_has_capability : option (O → capability → bool);
  o_get_nobj : option (O → outcome Z);
  o_get_nec : option (O → outcome Z);
  o_get_nic : option (O → outcome Z);
  o_get_nix : option (O → outcome Z);
  o_get_extra_info : option (O → outcome string);
  o_get_thread_safety : option (O → outcome thread_safety);
  o_get_name : option (O → outcome string);
  o_batch_fitness : option (O → vector_double → outcome vector_double);
  o_gradient : option (O → vector_double → outcome vector_double);
  o_gradient_sparsity : option (O → outcome sparsity_pattern);
  o_hessians : option (O → vector_double → outcome (list vector_double));
  o_hessians_sparsity : option (O → outcome (list sparsity_pattern));
  o_set_seed : option (O → Z → outcome O)
}.
Arguments o_fitness {O}. Arguments o_get_bounds {O}. Arguments o_has_capability {O}.
Arguments o_get_nobj {O}. Arguments o_get_nec {O}. Arguments o_get_nic {O}. Arguments o_get_nix {O}.
Arguments o_get_extra_info {O}. Arguments o_get_thread_safety {O}. Arguments o_get_name {O}.
Arguments o_batch_fitness {O}. Arguments o_gradient {O}. Arguments o_gradient_sparsity {O}.
Arguments o_hessians {O}. Arguments o_hessians_sparsity {O}. Arguments o_set_seed {O}.

Section UdpBase.
Context {O : Type}.
Implicit Types (c : udp_base O) (o : O).

(** A virtual call: the override, or [udp_base]'s own body. *)
Definition virtual {A} (override : option (O → outcome A)) (default : outcome A) (o : O) : outcome A :=
  match override with
  | Some f => f o
  | None => default
  end.

Definition not_implemented {A} (name : string) : outcome A :=
  Throw (runtime_error (name +:+ "() is not implemented by this UDP")).

Definition base_has_capability c o (k : capability) : outcome bool :=
  virtual ((λ f o, Ret (f o k)) <$> c.(o_has_capability)) (Ret false) o.
Definition base_get_nobj c := virtual c.(o_get_nobj) (Ret 1).
Definition base_get_nec c := virtual c.(o_get_nec) (Ret 0).
Definition base_get_nic c := virtual c.(o_get_nic) (Ret 0).
Definition base_get_nix c := virtual c.(o_get_nix) (Ret 0).
Definition base_get_extra_info c := virtual c.(o_get_extra_info) (Ret "No extra info.").
Definition base_get_thread_safety c := virtual c.(o_get_thread_safety) (Ret thread_basic).
Definition base_get_name c := virtual c.(o_get_name) (Ret "Name of this UDP is not specified.").

Definition base_batch_fitness c o (dv : vector_double) : outcome vector_double :=
  virtual ((λ f o, f o dv) <$> c.(o_batch_fitness)) (not_implemented "batch_fitness") o.
Definition base_gradient c o (dv : vector_double) : outcome vector_double :=
  virtual ((λ f o, f o dv) <$> c.(o_gradient)) (not_implemented "gradient") o.
Definition base_gradient_sparsity c := virtual c.(o_gradient_sparsity) (not_implemented "gradient_sparsity").
Definition base_hessians c o (dv : vector_double) : outcome (list vector_double) :=
  virtual ((λ f o, f o dv) <$> c.(o_hessians)) (not_implemented "hessians") o.
Definition base_hessians_sparsity c := virtual c.(o_hessians_sparsity) (not_implemented "hessians_sparsity").
Definition base_set_seed c o (seed : Z) : outcome O :=
  virtual ((λ f o, f o seed) <$> c.(o_set_seed)) (not_implemented "set_seed") o.
End UdpBase.

(** ** Library code: classes and their serialization *)

Class UdpClasses {UC : UdpCode} := {
  (** The class of an object, as the image defines it. *)
  class_of : bytes → udp → udp_base udp;
  store_udp : bytes → udp → bytes;
  (** Boost finds the class among those the mapped images export. *)
  restore_udp : gmap nat bytes → bytes → outcome udp_ptr
}.

(** A restored object's code is in a mapped image. *)
Class UdpClassesLaws {UC : UdpCode} {CL : UdpClasses} := {
  restored_mapped : ∀ imgs b p, restore_udp imgs b = Ret p →
    ∃ h, p.(code) = Some h ∧ is_Some (imgs !! h)
}.

(** A Boost archive, as the sequence of what was written to it. *)
Inductive archive_item :=
  | ArString (s : string)
  | ArPointer (p : option bytes).

(** ** [udp_dll_wrapper] *)

Section Wrapper.
Context {UC : UdpCode} {CL : UdpClasses} {N : Type}.

Record udp_dll_wrapper := {
  _udpPtr : option udp_ptr;
  _libFileName : string;
  _libFileHash : string
}.

Definition wrapper_default : udp_dll_wrapper :=
  {| _udpPtr := None; _libFileName := ""; _libFileHash := "" |}.

Definition set_ptr (p : option udp_ptr) (w : udp_dll_wrapper) : udp_dll_wrapper :=
  {| _udpPtr := p; _libFileName := w.(_libFileName); _libFileHash := w.(_libFileHash) |}.
Definition set_name (n : string) (w : udp_dll_wrapper) : udp_dll_wrapper :=
  {| _udpPtr := w.(_udpPtr); _libFileName := n; _libFileHash := w.(_libFileHash) |}.
Definition set_hash (h : string) (w : udp_dll_wrapper) : udp_dll_wrapper :=
  {| _udpPtr := w.(_udpPtr); _libFileName := w.(_libFileName); _libFileHash := h |}.

Definition null_pointer : fault := undefined_behaviour "null pointer dereference".

(** [_udpPtr->f(...)] *)
Definition udp_call {A} (f : udp_base udp → udp → outcome A) (w : udp_dll_wrapper) :
    M (udp_registry N) A :=
  match w.(_udpPtr) with
  | None => crash null_pointer
  | Some p =>
      image ← on_os (image_of p.(code));
      lift (f (class_of image p.(object)) p.(object))
  end.

Definition wrapper_fitness w (dv : vector_double) := udp_call (λ c o, c.(o_fitness) o dv) w.
Definition wrapper_get_bounds w := udp_call (λ c o, c.(o_get_bounds) o) w.
Definition wrapper_get_nec w := udp_call base_get_nec w.
Definition wrapper_get_nic w := udp_call base_get_nic w.
Definition wrapper_get_nobj w := udp_call base_get_nobj w.
Definition wrapper_get_nix w := udp_call base_get_nix w.
Definition wrapper_batch_fitness w (v : vector_double) := udp_call (λ c o, base_batch_fitness c o v) w.
Definition wrapper_has_batch_fitness w := udp_call (λ c o, base_has_capability c o has_batch_fitness) w.
Definition wrapper_has_gradient w := udp_call (λ c o, base_has_capability c o has_gradient) w.
Definition wrapper_gradient w (v : vector_double) := udp_call (λ c o, base_gradient c o v) w.
Definition wrapper_has_gradient_sparsity w :=
  udp_call (λ c o, base_has_capability c o has_gradient_sparsity) w.
Definition wrapper_gradient_sparsity w := udp_call base_gradient_sparsity w.
Definition wrapper_has_hessians w := udp_call (λ c o, base_has_capability c o has_hessians) w.
Definition wrapper_hessians w (v : vector_double) := udp_call (λ c o, base_hessians c o v) w.
Definition wrapper_has_hessians_sparsity w :=
  udp_call (λ c o, base_has_capability c o has_hessians_sparsity) w.
Definition wrapper_hessians_sparsity w := udp_call base_hessians_sparsity w.
Definition wrapper_has_set_seed w := udp_call (λ c o, base_has_capability c o has_set_seed) w.
Definition wrapper_get_name w := udp_call base_get_name w.
Definition wrapper_get_extra_info w := udp_call base_get_extra_info w.
Definition wrapper_get_thread_safety w := udp_call base_get_thread_safety w.

(** The object behind the pointer is changed; the wrapper is returned with it. *)
Definition wrapper_set_seed (w : udp_dll_wrapper) (s : Z) : M (udp_registry N) udp_dll_wrapper :=
  o ← udp_call (λ c o, base_set_seed c o s) w;
  mret (set_ptr ((λ p, {| object := o; code := p.(code) |}) <$> w.(_udpPtr)) w).

Definition wrapper_construct (lib_file_name : string) (params : any) :
    M (udp_registry N) udp_dll_wrapper :=
  p ← construct_udp lib_file_name params;
  mret {| _udpPtr := Some p; _libFileName := lib_file_name; _libFileHash := "" |}.

Definition get_lib_file_name (w : udp_dll_wrapper) : string := w.(_libFileName).

(** Copy constructor. *)
Definition wrapper_copy (other : udp_dll_wrapper) : M (udp_registry N) udp_dll_wrapper :=
  let w := set_name other.(_libFileName) wrapper_default in
  if String.eqb w.(_libFileName) "" then mret w
  else p ← clone_udp other.(_udpPtr); mret (set_ptr (Some p) w).

Definition on_registry {A} : M (udp_registry N) A → M (udp_dll_wrapper * udp_registry N) A :=
  zoom snd (λ r s, (s.1, r)).
Definition on_this {A} : M udp_dll_wrapper A → M (udp_dll_wrapper * udp_registry N) A :=
  zoom fst (λ w s, (w, s.2)).

(** [*this = other]; [None] is [*this] itself. *)
Definition wrapper_assign (other : option udp_dll_wrapper) :
    M (udp_dll_wrapper * udp_registry N) unit :=
  match other with
  | None => mret tt
  | Some other =>
      _ ← on_this (modify (set_name other.(_libFileName)));
      if String.eqb other.(_libFileName) "" then mret tt
      else
        p ← on_registry (clone_udp other.(_udpPtr));
        on_this (modify (set_ptr (Some p)))
  end.

(** [save], behind its call of [get_lib_file_hash]. *)
Definition save_fields (w : udp_dll_wrapper) (hash : option string) : M (udp_registry N) (list archive_item) :=
  let libFileHash := match hash with Some h => h | None => w.(_libFileHash) end in
  ptr ← match w.(_udpPtr) with
        | None => mret None
        | Some p => image ← on_os (image_of p.(code)); mret (Some (store_udp image p.(object)))
        end;
  mret [ArString libFileHash; ArString w.(_libFileName); ArPointer ptr].

Definition wrapper_save (w : udp_dll_wrapper) : M (udp_registry N) (list archive_item) :=
  hash ← get_lib_file_hash w.(_libFileName);
  save_fields w hash.

(** ** [wrapper_load] *)

Definition stream_error : exn := archive_exception "input stream error".

(** The archive under the cursor, the object being loaded, the registry. *)
Abbreviation load_state := (list archive_item * (udp_dll_wrapper * udp_registry N))%type.

Definition on_object {A} : M (udp_dll_wrapper * udp_registry N) A → M load_state A :=
  zoom snd (λ o s, (s.1, o)).

Definition read_string : M load_state string :=
  s ← get_state;
  match s.1 with
  | ArString x :: ar => _ ← put_state (ar, s.2); mret x
  | _ => throw stream_error
  end.

Definition read_pointer : M load_state (option udp_ptr) :=
  s ← get_state;
  match s.1 with
  | ArPointer None :: ar => _ ← put_state (ar, s.2); mret None
  | ArPointer (Some b) :: ar =>
      _ ← put_state (ar, s.2);
      p ← lift (restore_udp s.2.2.(_os).(loaded) b);
      mret (Some p)
  | _ => throw stream_error
  end.

Definition load_fields : M load_state unit :=
  hash ← read_string;
  _ ← on_object (on_this (modify (set_hash hash)));
  name ← read_string;
  _ ← on_object (on_this (modify (set_name name)));
  _ ← on_object (on_registry (initialize_udp name (Some hash)));
  p ← read_pointer;
  on_object (on_this (modify (set_ptr p))).

Definition wrapper_load : M load_state unit :=
  try_catch load_fields (λ e,
    _ ← on_object (wrapper_assign (Some wrapper_default));
    throw e).
End Wrapper.
