(* ===== verification/UdpTransfer.v ===== *)
(** * Problems sent to another process

    A wrapper saved in one process and loaded in another runs there on the same
    version of its library; a load that fails leaves a wrapper whose copies
    are unusable; copies forget the hash they were loaded with. *)
From Stdlib Require Import Strings.Byte.
From S2P Require Import Prelude Sha256Spec Doubles LruCache HashCache LibLoader UdpRegistry Pagmo.
From S2P Require Import UdpVersions UdpTheorems UdpWrapper UdpScenario.

Section Transfer.
Context {UC : UdpCode} {CL : UdpClasses} {N : Type}.

Abbreviation registry := (udp_registry N).
Abbreviation shared := (shared (N := N)).
Abbreviation thread_event := (thread_event (N := N)).

(** ** Saving

    [wrapper_save] in thread [t], with what the other threads of its process do
    ([es1] while it has the library's file but not yet the hash, [es2] before it
    stores the object). *)
Definition saves (t : nat) (w : udp_dll_wrapper) (s : shared) (es1 es2 : list thread_event)
    (ar : list archive_item) : Prop :=
  ∃ file s1 s2 hash s3 s4 r,
    hash_begins t w.(_libFileName) s = (Ret file, s1) ∧
    thread_run s1 es1 s2 ∧ Forall (λ e, thread_of e ≠ t) es1 ∧
    match file with
    | None => hash = None ∧ s3 = s2
    | Some _ => hash_ends t s2 = (Ret hash, s3)
    end ∧
    thread_run s3 es2 s4 ∧ Forall (λ e, thread_of e ≠ t) es2 ∧
    save_fields w hash s4.(reg) = (Ret ar, r).

(** What [save_fields] writes. *)
Lemma save_fields_items w hash (r r' : registry) ar :
  save_fields w hash r = (Ret ar, r') →
  ∃ p, ar = [ArString (default w.(_libFileHash) hash); ArString w.(_libFileName); ArPointer p] ∧
    (p = None ↔ w.(_udpPtr) = None).
Proof.
  intros (p & r2 & Ep & [= <- <-])%bind_ret_inv. exists p. split; [by destruct hash|].
  destruct (_udpPtr w) as [q|].
  - by apply bind_ret_inv in Ep as (image & r3 & _ & [= <- <-]).
  - by injection Ep as <- <-.
Qed.

(** Without the others it is [wrapper_save]. *)
Lemma saves_alone t w (r r' : registry) ar :
  wrapper_save w r = (Ret ar, r') → saves t w {| reg := r; between := ∅; unordered := ∅ |} [] [] ar.
Proof.
  intros (hash & r1 & (file & r0 & Ef & Eh)%bind_ret_inv & Es)%bind_ret_inv.
  set (u := (∅ ∖ {[t]} : gset nat)). assert (u ⊆ {[t]}) as Hu by set_solver.
  assert (hash_begins t w.(_libFileName) {| reg := r; between := ∅; unordered := ∅ |} =
    (Ret file, match file with
     | None => {| reg := r0; between := ∅; unordered := u |}
     | Some f => {| reg := r0; between := <[t := (w.(_libFileName), f)]> ∅; unordered := {[t]} ∪ u |}
     end)) as Eb.
  { unfold hash_begins. rewrite bind_run. unfold synchronize, modify. rewrite bind_run. unfold on_reg, zoom.
    cbn [reg set_unordered]. rewrite Ef. destruct file as [f|]; [|done]. rewrite bind_run, access_run.
    cbn [unordered set_unordered set_reg]. fold u. by rewrite decide_True. }
  destruct file as [f|].
  - do 7 eexists. split; [exact Eb|]. split; [apply thread_nil|]. split; [done|].
    split; [|split; [apply thread_nil|split; [done|]]].
    + unfold hash_ends. rewrite bind_run. cbn [get_state between]. rewrite lookup_insert_eq, bind_run.
      unfold on_reg, zoom. cbn [reg]. rewrite Eh. reflexivity.
    + exact Es.
  - injection Eh as <- <-. do 7 eexists. split; [exact Eb|]. split; [apply thread_nil|]. split; [done|].
    split; [done|]. split; [apply thread_nil|]. split; [done|]. exact Es.
Qed.

(** The other threads leave the file of a thread that is between the parts. *)
Lemma others_between t e es (s s' : shared) :
  shared_ok s → s.(between) !! t = Some e → thread_run s es s' → Forall (λ e, thread_of e ≠ t) es →
  s'.(between) !! t = Some e.
Proof.
  intros Hs Ht Hrun. revert Hs Ht. induction Hrun as [|s ev res s1 es s2 Hok He Hres Hrun IH]; intros Hs Ht; [done|].
  intros [Hne Hes]%Forall_cons_1. apply IH; [| |done].
  - apply (thread_run_ok s [ev] s1); [|done]. by eapply thread_cons; [..|apply thread_nil].
  - rewrite (thread_exec_between ev s s1 res t Hs Hok He Hres Hne). exact Ht.
Qed.

(** What [wrapper_save] writes for a wrapper whose library's file can be read. *)
Lemma save_hash t (w : udp_dll_wrapper) (s : shared) es1 es2 f ar :
  shared_ok s → s.(between) !! t = None → plain w.(_libFileName) → lib_file w.(_libFileName) s.(reg) = Some f →
  _get_lib_path w.(_libFileName) s.(reg) ∉ s.(reg).(_os).(read_denied) →
  saves t w s es1 es2 ar →
  ∃ p, ar = [ArString (sha256_hex f); ArString w.(_libFileName); ArPointer p] ∧
    (p = None ↔ w.(_udpPtr) = None).
Proof.
  intros Hs Ht Hn Hf Hread (file & s1 & s2 & hash & s3 & s4 & r & Eb & Hrun1 & Ho1 & Ee & _ & _ & Es).
  destruct (hash_begins_ok t w.(_libFileName) s Hs (conj Ht Hn))
    as [(file' & s1' & E & Hs1 & _ & Hb1)|[(x & s' & E & _)|(s' & E & _)]]; rewrite E in Eb; [|done..].
  injection Eb as -> ->.
  assert (file = Some f) as -> by exact (hash_begins_reads _ _ _ _ _ _ Hs Hf Hread E).
  cbn in Hb1. pose proof (others_between t _ es1 s1 s2 Hs1 Hb1 Hrun1 Ho1) as Hb2.
  destruct (hash_ends_ok t _ f s2 (thread_run_ok _ _ _ Hrun1 Hs1) Hb2) as (s3' & Eh & _).
  rewrite Ee in Eh. injection Eh as -> ->. by apply save_fields_items in Es.
Qed.

(** ** Loading *)

(** [load_fields] case by case. *)
Lemma load_fields_run ar (w : udp_dll_wrapper) (r : registry) :
  load_fields (ar, (w, r)) =
  match ar with
  | ArString h :: ArString n :: ar2 =>
      let w1 := set_name n (set_hash h w) in
      match initialize_udp n (Some h) r with
      | (Ret _, r1) =>
          match ar2 with
          | ArPointer None :: ar3 => (Ret tt, (ar3, (set_ptr None w1, r1)))
          | ArPointer (Some b) :: ar3 =>
              match restore_udp r1.(_os).(loaded) b with
              | Ret p => (Ret tt, (ar3, (set_ptr (Some p) w1, r1)))
              | Throw e => (Throw e, (ar3, (w1, r1)))
              | Crash c => (Crash c, (ar3, (w1, r1)))
              end
          | _ => (Throw stream_error, (ar2, (w1, r1)))
          end
      | (Throw e, r1) => (Throw e, (ar2, (w1, r1)))
      | (Crash c, r1) => (Crash c, (ar2, (w1, r1)))
      end
  | ArString h :: ar1 => (Throw stream_error, (ar1, (set_hash h w, r)))
  | _ => (Throw stream_error, (ar, (w, r)))
  end.
Proof.
  destruct ar as [|[h|x] [|[n|y] ar2]]; try done.
  unfold load_fields, on_object, on_registry, on_this, read_string. m_eval.
  destruct (initialize_udp n (Some h) r) as [[[]|e|c] r1]; [|done..].
  unfold read_pointer. m_eval. destruct ar2 as [|[z|[b|]] ar3]; m_eval; try done.
  by destruct (restore_udp _ b).
Qed.

(** The fields read, in order, when [wrapper_load] returns. *)
Lemma load_run ar (w : udp_dll_wrapper) (r : registry) ar' w' r' :
  wrapper_load (ar, (w, r)) = (Ret tt, (ar', (w', r'))) →
  ∃ hash name b p, ar = ArString hash :: ArString name :: ArPointer b :: ar' ∧
    initialize_udp name (Some hash) r = (Ret tt, r') ∧
    w' = {| _udpPtr := p; _libFileName := name; _libFileHash := hash |} ∧
    match b with
    | None => p = None
    | Some b => ∃ q, p = Some q ∧ restore_udp r'.(_os).(loaded) b = Ret q
    end.
Proof.
  unfold wrapper_load, try_catch. destruct (load_fields _) as [[[]|e|c] s1] eqn:E; [| |done].
  2: { rewrite bind_run. by destruct (on_object _ s1) as [[?|?|?] ?]. }
  intros [= ->]. rewrite load_fields_run in E.
  destruct ar as [|[h|x] [|[n|y] ar2]]; try done. cbn zeta in E.
  destruct (initialize_udp n (Some h) r) as [[[]|e|c] r1] eqn:Ei; [|done..].
  destruct ar2 as [|[z|[b|]] ar3]; try done.
  - destruct (restore_udp _ b) as [q|e|c] eqn:Eb; simplify_eq.
    exists h, n, (Some b), (Some q). split_and!; try done. by exists q.
  - simplify_eq. by exists h, n, None, None.
Qed.

(** C21. A wrapper saved where its library is mapped and its file readable, in
    whatever interleaving with the threads of the sender's process that does
    not race, and loaded by another process, is the same problem there, if the
    receiver's provider answers with the sender's library and never failed to
    load one of that name: same name, the hash of the sender's library, an
    object exactly when the sender had one, whose code is mapped, and the
    library mapped under that name has the contents of the sender's (up to
    SHA-256), whatever version the receiver had on disk or loaded before. *)
Theorem wrapper_transfer `{!UdpClassesLaws} t (w w0 w' : udp_dll_wrapper)
    (ss : shared) es1 es2 (rr rr' : registry) l img ar ar' :
  let name := w.(_libFileName) in
  shared_ok ss → ss.(between) !! t = None → coherent rr → plain name → never_failed name rr →
  ss.(reg).(_lib_loaders) !! name = Some l → image_at l ss.(reg) = Some img →
  _get_lib_path name ss.(reg) ∉ ss.(reg).(_os).(read_denied) →
  (∀ f, provided name f rr → f = img) →
  saves t w ss es1 es2 ar →
  wrapper_load (ar, (w0, rr)) = (Ret tt, (ar', (w', rr'))) →
  w'.(_libFileName) = name ∧ w'.(_libFileHash) = sha256_hex img ∧ ar' = [] ∧
  (∃ l' img', rr'.(_lib_loaders) !! name = Some l' ∧ image_at l' rr' = Some img' ∧
     sha256_hex img' = sha256_hex img) ∧
  (w'.(_udpPtr) = None ↔ w.(_udpPtr) = None) ∧
  (∀ p, w'.(_udpPtr) = Some p → ∃ image, image_of p.(code) rr'.(_os) = (Ret image, rr'.(_os))).
Proof.
  intros name Hss Ht Hrr Hn Hnf Hl Himg Hread Hprov Hs Hload.
  assert (lib_file name ss.(reg) = Some img) as Hfile.
  { destruct (co_loaders _ (proj1 Hss)) as [Hi _ _]. destruct (Hi name l Hl) as [_ Hm].
    destruct Hm as (g & Hg & Hg'); [|congruence]. unfold image_at in Himg. by destruct (_handle l). }
  destruct (save_hash t w ss es1 es2 img ar Hss Ht Hn Hfile Hread Hs) as (p & -> & Hp).
  apply load_run in Hload as (hash & name' & b & q & H1 & Hinit & -> & Hb).
  simplify_eq. cbn. split_and!; try done.
  - destruct (initialize_version_mapped rr _ _ _ Hrr Hn Hinit) as (l' & Hl' & Hh & Hm).
    destruct (Hm (Hh Hnf)) as (img' & Ha & _ & Hv). exists l', img'. split; [done|]. split; [done|].
    destruct Hv as [Hv|[Hv _]]; [done|]. by rewrite (Hprov img' Hv).
  - rewrite <- Hp. destruct b as [b|]; [|done]. by destruct Hb as (q' & -> & _).
  - intros q0 ->. destruct b as [b|]; [|done]. destruct Hb as (q' & [= <-] & Hrest).
    destruct (restored_mapped _ _ _ Hrest) as (h & Hh & Hm). apply image_of_run.
    intros i Hi. by simplify_eq.
Qed.

(** ** Failing loads *)

(** Reading never touches the pointer before it succeeds. *)
Lemma load_fields_throws ar (w : udp_dll_wrapper) (r : registry) e ar' w' r' :
  load_fields (ar, (w, r)) = (Throw e, (ar', (w', r'))) → w'.(_udpPtr) = w.(_udpPtr).
Proof.
  rewrite load_fields_run. destruct ar as [|[h|x] [|[n|y] ar2]]; try (intros; by simplify_eq). cbn zeta.
  destruct (initialize_udp n (Some h) r) as [[[]|e1|c] r1]; [|intros; by simplify_eq|done].
  destruct ar2 as [|[z|[b|]] ar3]; try (intros; by simplify_eq).
  destruct (restore_udp _ b); intros; by simplify_eq.
Qed.

(** The calls Pagmo makes of a problem: the functions of [udp_dll_wrapper] that
    forward to the object. *)
Inductive problem_call :=
  | CallFitness (dv : vector_double) | CallBounds | CallNec | CallNic | CallNobj | CallNix
  | CallBatchFitness (dvs : vector_double) | CallHasBatchFitness
  | CallHasGradient | CallGradient (dv : vector_double) | CallHasGradientSparsity | CallGradientSparsity
  | CallHasHessians | CallHessians (dv : vector_double) | CallHasHessiansSparsity | CallHessiansSparsity
  | CallHasSetSeed | CallSetSeed (seed : Z) | CallName | CallExtraInfo | CallThreadSafety.

Definition problem_exec (c : problem_call) (w : udp_dll_wrapper) : M registry unit :=
  match c with
  | CallFitness dv => _ ← wrapper_fitness w dv; mret tt
  | CallBounds => _ ← wrapper_get_bounds w; mret tt
  | CallNec => _ ← wrapper_get_nec w; mret tt
  | CallNic => _ ← wrapper_get_nic w; mret tt
  | CallNobj => _ ← wrapper_get_nobj w; mret tt
  | CallNix => _ ← wrapper_get_nix w; mret tt
  | CallBatchFitness dvs => _ ← wrapper_batch_fitness w dvs; mret tt
  | CallHasBatchFitness => _ ← wrapper_has_batch_fitness w; mret tt
  | CallHasGradient => _ ← wrapper_has_gradient w; mret tt
  | CallGradient dv => _ ← wrapper_gradient w dv; mret tt
  | CallHasGradientSparsity => _ ← wrapper_has_gradient_sparsity w; mret tt
  | CallGradientSparsity => _ ← wrapper_gradient_sparsity w; mret tt
  | CallHasHessians => _ ← wrapper_has_hessians w; mret tt
  | CallHessians dv => _ ← wrapper_hessians w dv; mret tt
  | CallHasHessiansSparsity => _ ← wrapper_has_hessians_sparsity w; mret tt
  | CallHessiansSparsity => _ ← wrapper_hessians_sparsity w; mret tt
  | CallHasSetSeed => _ ← wrapper_has_set_seed w; mret tt
  | CallSetSeed seed => _ ← wrapper_set_seed w seed; mret tt
  | CallName => _ ← wrapper_get_name w; mret tt
  | CallExtraInfo => _ ← wrapper_get_extra_info w; mret tt
  | CallThreadSafety => _ ← wrapper_get_thread_safety w; mret tt
  end.

(** No forwarding function tests the pointer. *)
Lemma empty_wrapper_calls (c : problem_call) (w : udp_dll_wrapper) (r : registry) :
  w.(_udpPtr) = None → problem_exec c w r = (Crash null_pointer, r).
Proof. destruct w as [p n h]. cbn. intros ->. by destruct c. Qed.

(** C22. When [wrapper_load] throws, the wrapper has no name but the pointer it had
    before (resetting it with an empty wrapper does not reset the pointer), and
    every copy of it is an empty wrapper on which every call of the problem,
    whichever of the forwarding functions it is, dereferences the null
    pointer. *)
Theorem failed_load_keeps_object (w w' : udp_dll_wrapper) (r r' : registry) ar ar' e :
  wrapper_load (ar, (w, r)) = (Throw e, (ar', (w', r'))) →
  w'.(_libFileName) = "" ∧ w'.(_udpPtr) = w.(_udpPtr) ∧
  wrapper_copy w' r' = (Ret wrapper_default, r') ∧
  ∀ c, problem_exec c wrapper_default r' = (Crash null_pointer, r').
Proof.
  unfold wrapper_load, try_catch. intros H.
  destruct (load_fields _) as [[?|e1|?] [ar1 [w1 r1]]] eqn:E; [done| |done].
  apply load_fields_throws in E. revert H. m_eval.
  unfold on_object, wrapper_assign, zoom. cbn. m_eval. unfold on_this, zoom, modify. cbn.
  intros [= <- <- <- <-]. cbn. rewrite E. split_and!; try done. intros c. by apply empty_wrapper_calls.
Qed.

(** The hash a wrapper was loaded with is lost in its copies, the copies Pagmo
    makes included. *)
Lemma copy_forgets_hash (w w' : udp_dll_wrapper) (r r' : registry) :
  wrapper_copy w r = (Ret w', r') → w'.(_libFileName) = w.(_libFileName) ∧ w'.(_libFileHash) = "".
Proof.
  unfold wrapper_copy. cbn [_libFileName set_name]. case_match; [by intros [= <- <-]|].
  intros Hb. by apply bind_ret_inv in Hb as (p & s & _ & [= <- <-]).
Qed.
End Transfer.

(** ** A concrete transfer

    Library code of the toy world: nothing optional is overridden; an object is
    restored with the code of the first mapped image. *)
#[export] Instance ToyClasses : UdpClasses := {|
  class_of := λ img u, {|
    o_fitness := λ _ dv, Ret dv; o_get_bounds := λ _, Ret ([], []);
    o_has_capability := None; o_get_nobj := None; o_get_nec := None; o_get_nic := None;
    o_get_nix := None; o_get_extra_info := None; o_get_thread_safety := None; o_get_name := None;
    o_batch_fitness := None; o_gradient := None; o_gradient_sparsity := None; o_hessians := None;
    o_hessians_sparsity := None; o_set_seed := None |};
  store_udp := λ img u, img;
  restore_udp := λ imgs b,
    match map_to_list imgs with
    | (h, _) :: _ => Ret {| object := "p"%string; code := Some h |}
    | [] => Throw (archive_exception "unregistered class")
    end
|}.

#[export] Instance ToyClassesLaws : UdpClassesLaws.
Proof.
  split. intros imgs b p. cbn. destruct (map_to_list imgs) as [|[h i] l] eqn:E; intros; simplify_eq.
  exists h. split; [done|]. exists i. apply elem_of_map_to_list. rewrite E. left.
Qed.

Definition sender : outcome udp_dll_wrapper * udp_registry nat :=
  wrapper_construct "p" tt (registry_of {["./p.so"%string := new_image]}).

Definition sent : udp_dll_wrapper :=
  {| _udpPtr := Some {| object := "p"%string; code := Some 0%nat |}; _libFileName := "p"; _libFileHash := "" |}.

Definition items : list archive_item :=
  [ArString (sha256_hex new_image); ArString "p"; ArPointer (Some new_image)].

Definition received := wrapper_load (items, (wrapper_default, outdated)).

Lemma sender_coherent : coherent sender.2.
Proof.
  destruct (registry_exec_coherent (Construct (UC := ToyUdp) "p" tt) (registry_of {["./p.so"%string := new_image]}))
    as [(r' & E & H)|(e & r' & E & H)]; [apply registry_of_coherent|done|..].
  all: unfold registry_exec in E; rewrite bind_run in E; unfold sender, wrapper_construct; rewrite bind_run.
  all: destruct (@construct_udp ToyUdp nat _ _ _) as [[p|e0|f] r1];
    unfold mret, M_ret in *; by simplify_eq.
Qed.

(** Another thread constructs an object while the sender hashes the file. *)
Definition meanwhile : list (thread_event (UC := ToyUdp) (N := nat)) := [Calls 2 (Construct (UC := ToyUdp) "p" tt)].

Lemma sender_saves : saves 1 sent (alone sender.2) meanwhile [] items.
Proof.
  set (s1 := (hash_begins 1 "p" (alone sender.2)).2). set (s2 := threads_after meanwhile s1).
  set (s3 := (hash_ends 1 s2).2).
  exists (Some new_image), s1, s2, (Some (sha256_hex new_image)), s3, s3, (save_fields sent (Some (sha256_hex new_image)) s3.(reg)).2.
  split; [unfold s1; vm_compute; reflexivity|]. split; [|split; [by repeat constructor|]].
  - apply thread_run_step; [split; [by vm_compute|done]|exists tt; by vm_compute|]. constructor.
  - split; [unfold s3; vm_compute; reflexivity|]. split; [constructor|]. split; [done|]. vm_compute. reflexivity.
Qed.

Lemma wrapper_transfer_witness :
  (sender.1 = Ret sent ∧ received.1 = Ret tt) ∧
  received.2.2.1.(_libFileName) = "p"%string ∧ received.2.2.1.(_libFileHash) = sha256_hex new_image ∧
  received.2.1 = [] ∧
  (∃ l' img', received.2.2.2.(_lib_loaders) !! "p"%string = Some l' ∧
     image_at l' received.2.2.2 = Some img' ∧ sha256_hex img' = sha256_hex new_image) ∧
  (received.2.2.1.(_udpPtr) = None ↔ sent.(_udpPtr) = None) ∧
  (∀ p, received.2.2.1.(_udpPtr) = Some p → ∃ image,
     image_of p.(code) received.2.2.2.(_os) = (Ret image, received.2.2.2.(_os))).
Proof.
  split; [split; vm_compute; reflexivity|].
  eapply (wrapper_transfer 1 sent wrapper_default _ (alone sender.2) meanwhile [] outdated _ _ new_image items).
  - apply alone_ok, sender_coherent.
  - done.
  - apply outdated_coherent.
  - done.
  - intros l Hl. assert (∃ k, outdated.(_lib_loaders) !! "p"%string = Some k ∧ is_Some k.(_handle)) as (k & Hk & ?).
    { eexists. split; [vm_compute; reflexivity|by eexists]. }
    cbn in Hl. by simplify_eq.
  - vm_compute. reflexivity.
  - vm_compute. reflexivity.
  - by apply not_elem_of_empty.
  - intros f (p & s & s' & [= <-] & [= <- _]). reflexivity.
  - apply sender_saves.
  - vm_compute. reflexivity.
Defined.

(** The receiver's only copy of the library cannot be loaded. *)
Definition rejected := wrapper_load (ArString (sha256_hex [x00]) :: ArString "p" :: [],
  (wrapper_default, registry_of {["./p.so"%string := [x00]]})).

Lemma failed_load_keeps_object_witness :
  rejected.1 = Throw (runtime_error error_msg) ∧
  rejected.2.2.1.(_libFileName) = "" ∧ rejected.2.2.1.(_udpPtr) = wrapper_default.(_udpPtr) ∧
  wrapper_copy rejected.2.2.1 rejected.2.2.2 = (Ret wrapper_default, rejected.2.2.2) ∧
  ∀ c, problem_exec c wrapper_default rejected.2.2.2 = (Crash null_pointer, rejected.2.2.2).
Proof.
  split; [vm_compute; reflexivity|].
  eapply (failed_load_keeps_object wrapper_default _
            (registry_of {["./p.so"%string := [x00]]}) _ (ArString (sha256_hex [x00]) :: ArString "p" :: [])).
  vm_compute. reflexivity.
Defined.
