(* ===== verification/Scenario.v ===== *)
(** * A concrete world for the witnesses

    The toy Pagmo, the archives of [Codec], a registry without libraries and a
    controller started on an empty settings file; two workers and two islands.
    The witnesses below apply the controller's theorems to runs of this
    world. *)
From S2P Require Import Prelude Doubles NumberUtils WorkerInfo Messages Sockets Settings Pagmo Codec.
From S2P Require Import Controller ControllerSpec ControllerLiveness.

#[local] Existing Instance toy_container_archive.
#[local] Existing Instance request_archive.
#[local] Existing Instance binary_archive.
#[local] Existing Instance stats_archive.

Instance empty_store : LibraryStore unit := {| lib_as_file _ r := (Ret None, r) |}.

Definition toy_pop (n : nat) : toy_population :=
  {| toy_problem := 1; toy_seed := 0; toy_x := replicate n [double_zero] |}.

Definition toy_work (preferred : string) : bytes :=
  vector_serialize (mk_work_container "de"%string (toy_pop 4) preferred 1).

Definition toy_disk : disk := {| file := None; readable := true; writable := true |}.

Definition toy_controller : distributed_controller unit :=
  match distributed_controller_new tt toy_disk with
  | Ret c => c
  | _ => {| _islandsWaitingForAlloc := ∅; _freeWorkersPool := ∅; _workAllocationMap := ∅;
            _ctl_settings := ({| _settings := struct_init; _autoSave := true |}, toy_disk);
            _registry := tt; _outbox := [] |}
  end.

Definition no_picks : picks := {| pick_worker := ""; pick_island := "" |}.

Definition join (w : string) : event := WorkersSocket 0 no_picks (w, WORKER_JOIN, []).
Definition leave (w : string) : event := WorkersSocket 0 no_picks (w, WORKER_LEAVE, []).
Definition submit (i : string) : event := IslandsSocket 5 no_picks (i, ALLOCATE_WORK, toy_work "").
Definition result (w : string) : event :=
  WorkersSocket 7000005 no_picks (w, WORK_RESULTS, toy_work "").

(** The state a list of events leads to. *)
Definition state_after (es : list event) : distributed_controller unit :=
  foldl (λ c e, (handle_event e c).2) toy_controller es.

Lemma toy_initial : initial toy_controller.
Proof.
  split_and!; try done.
Qed.

Lemma toy_work_container w : is_container (PG := ToyPagmo) (toy_work w).
Proof. eexists. apply (@deserialize_serialize _ _ CountableArchive_laws). Qed.

(** Deciding [pending] and allocation by evaluation. *)
Definition free_of (c : distributed_controller unit) (i : string) : bool :=
  if pending_dec c i then false else true.

Lemma free_of_spec c i : free_of c i = true → ∀ d, ¬ pending c i d.
Proof. unfold free_of. by destruct (pending_dec c i). Qed.

Lemma run_snoc (c c1 : distributed_controller unit) es e :
  run c es c1 → event_ok c1 e → run c (es ++ [e]) (handle_event e c1).2.
Proof.
  induction 1 as [|c e0 es c1 Hok0 Hrun IH]; intros Hok; cbn.
  - constructor; [done|constructor].
  - constructor; [done|]. by apply IH.
Qed.

(** Worker [w1] joins, island [i1] submits, [w1] joins no more but [i2]
    submits and waits, then [w1] reports: its job is delivered and it gets the
    waiting one. *)
Definition toy_events : list event := [join "w1"; submit "i1"; submit "i2"; result "w1"].

Lemma toy_run : run toy_controller toy_events (state_after toy_events).
Proof.
  change toy_events with ([join "w1"; submit "i1"; submit "i2"] ++ [result "w1"]).
  apply run_snoc; [|split; [by vm_compute; eexists|apply toy_work_container]].
  change ([join "w1"; submit "i1"; submit "i2"]) with ([join "w1"; submit "i1"] ++ [submit "i2"]).
  apply run_snoc; [|split; [apply toy_work_container|apply free_of_spec; by vm_compute]].
  change ([join "w1"; submit "i1"]) with ([join "w1"] ++ [submit "i1"]).
  apply run_snoc; [|split; [apply toy_work_container|apply free_of_spec; by vm_compute]].
  change [join "w1"] with ([] ++ [join "w1"]).
  apply run_snoc; [constructor|by vm_compute].
Qed.

Lemma toy_inv : ctl_inv (state_after toy_events).
Proof. eapply run_inv; [apply toy_run|apply initial_inv, toy_initial]. Qed.

(** ** Witnesses of the controller's properties *)

Lemma controller_handler_refines_witness :
  step_result (state_after toy_events) (result "w1")
    (handle_event (result "w1") (state_after toy_events)).
Proof.
  apply controller_handler_refines; [apply toy_inv|].
  split; [by vm_compute; eexists|apply toy_work_container].
Defined.

Lemma results_exactly_once_witness :
  submitted "i1" toy_events = 1%nat ∧
  submitted "i1" toy_events =
    (delivered "i1" (state_after toy_events) + held "i1" (state_after toy_events))%nat.
Proof.
  split; [by vm_compute|].
  apply (results_exactly_once toy_controller (state_after toy_events) toy_events "i1").
  - apply toy_initial.
  - apply toy_run.
Defined.

Lemma controller_invariant_witness :
  ¬ ("w1"%string ∈ (state_after toy_events).(_freeWorkersPool) ∧
     is_Some ((state_after toy_events).(_workAllocationMap) !! "w1"%string)).
Proof.
  destruct (controller_invariant toy_controller (state_after toy_events) toy_events)
    as (_ & H & _); [apply toy_initial|apply toy_run|exact (H "w1"%string)].
Defined.

Lemma server_keeps_serving_witness :
  run_server toy_events toy_controller = Serving (state_after toy_events).
Proof. apply server_keeps_serving; [apply toy_initial|apply toy_run]. Defined.

Lemma work_drains_witness :
  ∃ es c', run (state_after toy_events) es c' ∧ Forall is_result es ∧
    length es = size (pending_islands (state_after toy_events)) ∧
    (∀ i d, ¬ pending c' i d).
Proof.
  apply work_drains; [apply toy_inv|]. exists "w1"%string. by vm_compute.
Defined.

(** [w1] is declared gone while it runs the job of [i1]; its result arrives
    all the same. *)
Definition late_events : list event := [join "w1"; submit "i1"; leave "w1"].

Lemma late_run : run toy_controller late_events (state_after late_events).
Proof.
  change late_events with ([join "w1"; submit "i1"] ++ [leave "w1"]).
  apply run_snoc; [|done].
  change ([join "w1"; submit "i1"]) with ([join "w1"] ++ [submit "i1"]).
  apply run_snoc; [|split; [apply toy_work_container|apply free_of_spec; by vm_compute]].
  change [join "w1"] with ([] ++ [join "w1"]).
  apply run_snoc; [constructor|by vm_compute].
Qed.

Lemma late_result_stops_server_witness :
  ∃ c', run_server [result "w1"; join "w2"] (state_after late_events) = Stopped c' [join "w2"] ∧
    (∀ i d, pending c' i d ↔ pending (state_after late_events) i d) ∧
    results_sent c' = results_sent (state_after late_events).
Proof.
  apply late_result_stops_server.
  - eapply run_inv; [apply late_run|apply initial_inv, toy_initial].
  - apply toy_work_container.
  - by vm_compute.
  - by vm_compute; eexists.
Defined.

Definition busy_events : list event := [join "w1"; submit "i1"].

Lemma busy_run : run toy_controller busy_events (state_after busy_events).
Proof.
  change busy_events with ([join "w1"] ++ [submit "i1"]).
  apply run_snoc; [|split; [apply toy_work_container|apply free_of_spec; by vm_compute]].
  change [join "w1"] with ([] ++ [join "w1"]).
  apply run_snoc; [constructor|by vm_compute].
Qed.

Lemma busy_join_loses_job_witness :
  ∃ c', run_server [join "w1"; submit "i2"] (state_after busy_events) = Serving c' ∧
    ToWorker "w1" ALLOCATE_WORK (toy_work "") ∈ c'.(_outbox) ∧ (∀ d, ¬ pending c' "i2" d).
Proof.
  apply (busy_join_loses_job (state_after busy_events) 0 5 no_picks no_picks "w1" []
           {| islandId := "i1"; workData := toy_work "" |}).
  - eapply run_inv; [apply busy_run|apply initial_inv, toy_initial].
  - by vm_compute.
  - by vm_compute.
  - by vm_compute.
  - apply toy_work_container.
  - apply free_of_spec. by vm_compute.
Defined.

(** ** Witnesses of the transport and the settings *)

Definition toy_peers : list peer_event :=
  [Connected "w1"; Sent "w1" WORK_RESULTS (toy_work ""); Connected "w2"; Disconnected "w1"].

Lemma router_stream_roundtrip_witness :
  router_receive_n 4 (concat (peer_event_frames <$> toy_peers)) =
  ([("w1"%string, WORKER_JOIN, []); ("w1"%string, WORK_RESULTS, toy_work "");
    ("w2"%string, WORKER_JOIN, []); ("w1"%string, WORKER_LEAVE, [])], []).
Proof.
  apply (router_stream_roundtrip toy_peers).
  repeat constructor; cbn; try done; by unfold int_range.
Defined.

Lemma router_to_dealer_roundtrip_witness :
  ∃ parts, zmq_router_outgoing (router_socket_send "w1" ALLOCATE_WORK (toy_work "")) =
             Some (identity_frame "w1", parts) ∧
           dealer_socket_receive (parts ++ []) = Received (ALLOCATE_WORK, toy_work "") [].
Proof. apply router_to_dealer_roundtrip; [done|by unfold int_range]. Defined.

#[local] Existing Instance string_archive.

#[local] Instance string_archive_laws : ArchiveLaws string := CountableArchive_laws.

Lemma worker_identity_stable_witness :
  ∃ d, worker_identity "first" toy_disk = (Ret "worker_first"%string, d) ∧
       worker_identity "second" d = (Ret "worker_first"%string, d).
Proof.
  eexists. split; [vm_compute; reflexivity|].
  apply (worker_identity_stable "first" "second" toy_disk); [done..|].
  vm_compute. reflexivity.
Defined.

Definition toy_settings : settings controller_settings :=
  {| _settings := {| workerInfo := repository_init |}; _autoSave := true |}.

Definition toy_join : M controller_settings unit :=
  zoom workerInfo (λ r _, {| workerInfo := r |}) (worker_joined "w1" worker_info_init).

Lemma settings_call_saves_previous_witness :
  let '(o, (s', d')) := settings_call toy_join (toy_settings, toy_disk) in
  (o, s'.(_settings)) = toy_join toy_settings.(_settings) ∧
  d'.(file) = Some (settings_text toy_settings.(_settings)) ∧
  s'.(_autoSave) = true ∧ d'.(writable) = true ∧ d'.(readable) = toy_disk.(readable).
Proof.
  destruct (settings_call toy_join (toy_settings, toy_disk)) as [o [s' d']] eqn:E.
  by apply (settings_call_saves_previous toy_join toy_settings toy_disk).
Defined.

Lemma ceil_to_multiple_wraps_witness :
  ceil_to_multiple (2 ^ 64 - 1) 4 = Ret 0.
Proof. rewrite (ceil_to_multiple_wraps (2 ^ 64 - 1) 4) by lia. vm_compute. reflexivity. Defined.
