(* ===== verification/Csv.v ===== *)
(** * utils/include/csv_conversion.h: CSV tables as HTML

    [csv_to_html] as the state machine it is, and a reference: tables as lists
    of cells, their CSV text (cells bare or quoted) and their HTML. *)
From Stdlib Require Import Ascii.
From S2P Require Import Prelude.

Definition quote : ascii := "034".
Definition newline : ascii := "010".
Definition carriage_return : ascii := "013".

Definition one (c : ascii) : string := String c "".
Definition nl : string := one newline.

(** The locals of [csv_to_html]. *)
Record csv_state := {
  html : string;
  in_quotes : bool;
  is_header : bool;
  new_cell : bool;
  new_row : bool
}.

Definition csv_init : csv_state :=
  {| html := "<table>" +:+ nl +:+ "<thead>" +:+ nl; in_quotes := false; is_header := true;
     new_cell := true; new_row := true |}.

(** [html += s] *)
Definition emit (s : string) (st : csv_state) : csv_state :=
  {| html := st.(html) +:+ s; in_quotes := st.(in_quotes); is_header := st.(is_header);
     new_cell := st.(new_cell); new_row := st.(new_row) |}.

Definition begin_row (st : csv_state) : csv_state :=
  if st.(new_row) then
    {| html := st.(html) +:+ "<tr>"; in_quotes := st.(in_quotes); is_header := st.(is_header);
       new_cell := true; new_row := false |}
  else st.

Definition toggle_quotes (st : csv_state) : csv_state :=
  {| html := st.(html); in_quotes := negb st.(in_quotes); is_header := st.(is_header);
     new_cell := st.(new_cell); new_row := st.(new_row) |}.

Definition close_tag (st : csv_state) : string := if st.(is_header) then "</th>" else "</td>".
Definition open_tag (st : csv_state) : string := if st.(is_header) then "<th>" else "<td>".

Definition close_cell (st : csv_state) : csv_state :=
  if st.(new_cell) then st else emit (close_tag st) st.

Definition end_cell (st : csv_state) : csv_state :=
  let st := close_cell st in
  {| html := st.(html); in_quotes := st.(in_quotes); is_header := st.(is_header);
     new_cell := true; new_row := st.(new_row) |}.

Definition end_row (st : csv_state) : csv_state :=
  let st := emit ("</tr>" +:+ nl) (close_cell st) in
  let st := if st.(is_header) then emit ("</thead>" +:+ nl +:+ "<tbody>" +:+ nl) st else st in
  {| html := st.(html); in_quotes := st.(in_quotes); is_header := false;
     new_cell := true; new_row := true |}.

Definition escape_char (c : ascii) : string :=
  if Ascii.eqb c "<" then "&lt;"
  else if Ascii.eqb c ">" then "&gt;"
  else if Ascii.eqb c "&" then "&amp;"
  else if Ascii.eqb c quote then "&quot;"
  else one c.

Definition cell_char (c : ascii) (st : csv_state) : csv_state :=
  let st := if st.(new_cell) then
              {| html := st.(html) +:+ open_tag st; in_quotes := st.(in_quotes);
                 is_header := st.(is_header); new_cell := false; new_row := st.(new_row) |}
            else st in
  emit (escape_char c) st.

(** The loop over the characters, with its lookahead of one. *)
Fixpoint csv_loop (input : string) (st : csv_state) : csv_state :=
  match input with
  | "" => st
  | String c rest =>
      let st := begin_row st in
      if Ascii.eqb c quote then
        match rest with
        | String c2 rest2 =>
            if st.(in_quotes) && Ascii.eqb c2 quote then csv_loop rest2 (emit "&quot;" st)
            else csv_loop rest (toggle_quotes st)
        | "" => csv_loop rest (toggle_quotes st)
        end
      else if Ascii.eqb c "," && negb st.(in_quotes) then csv_loop rest (end_cell st)
      else if (Ascii.eqb c newline || Ascii.eqb c carriage_return) && negb st.(in_quotes) then
        match rest with
        | String c2 rest2 =>
            if Ascii.eqb c carriage_return && Ascii.eqb c2 newline then csv_loop rest2 (end_row st)
            else csv_loop rest (end_row st)
        | "" => csv_loop rest (end_row st)
        end
      else csv_loop rest (cell_char c st)
  end%string.

Definition csv_finish (st : csv_state) : string :=
  let st := if st.(new_row) then st
            else
              let st := emit ("</tr>" +:+ nl) (close_cell st) in
              if st.(is_header) then emit ("</thead>" +:+ nl +:+ "<tbody>" +:+ nl) st else st in
  st.(html) +:+ "</tbody>" +:+ nl +:+ "</table>".

Definition csv_to_html (input : string) : string := csv_finish (csv_loop input csv_init).

(** ** Tables *)

(** A cell of a CSV file: its text, bare or between quotes. *)
Record cell := { text : string; quoted : bool }.

Fixpoint string_forall (p : ascii → bool) (s : string) : bool :=
  match s with
  | "" => true
  | String c s => p c && string_forall p s
  end%string.

Fixpoint string_map (f : ascii → string) (s : string) : string :=
  match s with
  | "" => ""
  | String c s => f c +:+ string_map f s
  end%string.

(** Quotes are doubled inside quotes. *)
Definition double_quote (c : ascii) : string := if Ascii.eqb c quote then one quote +:+ one quote else one c.

Definition cell_csv (c : cell) : string :=
  if c.(quoted) then one quote +:+ string_map double_quote c.(text) +:+ one quote else c.(text).

Definition plain_char (c : ascii) : bool :=
  negb (Ascii.eqb c quote || Ascii.eqb c "," || Ascii.eqb c newline || Ascii.eqb c carriage_return).

(** Cells that are rendered: not empty, not beginning with a quote, and bare
    only without separators. *)
Definition cell_ok (c : cell) : Prop :=
  match c.(text) with
  | "" => False
  | String a _ => a ≠ quote
  end%string ∧ (c.(quoted) = false → string_forall plain_char c.(text) = true).

Fixpoint row_csv (cells : list cell) : string :=
  match cells with
  | [] => ""
  | [c] => cell_csv c
  | c :: cells => cell_csv c +:+ "," +:+ row_csv cells
  end%string.

Fixpoint lines (rows : list (list cell)) : string :=
  match rows with
  | [] => ""
  | r :: rows => row_csv r +:+ nl +:+ lines rows
  end%string.

Definition table_csv (header : list cell) (rows : list (list cell)) : string := lines (header :: rows).

(** The HTML of a table. *)
Definition cell_html (tag : string) (c : cell) : string :=
  "<" +:+ tag +:+ ">" +:+ string_map escape_char c.(text) +:+ "</" +:+ tag +:+ ">".

Definition concat_strings : list string → string := foldr String.append ""%string.

Definition row_html (tag : string) (cells : list cell) : string :=
  "<tr>" +:+ concat_strings (cell_html tag <$> cells) +:+ "</tr>" +:+ nl.

Definition table_html (header : list cell) (rows : list (list cell)) : string :=
  "<table>" +:+ nl +:+ "<thead>" +:+ nl +:+ row_html "th" header +:+ "</thead>" +:+ nl +:+
  "<tbody>" +:+ nl +:+ concat_strings (row_html "td" <$> rows) +:+ "</tbody>" +:+ nl +:+ "</table>".

(** ** One cell *)

Lemma csv_loop_cons c rest st :
  csv_loop (String c rest) st =
  let st := begin_row st in
  if Ascii.eqb c quote then
    match rest with
    | String c2 rest2 =>
        if st.(in_quotes) && Ascii.eqb c2 quote then csv_loop rest2 (emit "&quot;" st)
        else csv_loop rest (toggle_quotes st)
    | "" => csv_loop rest (toggle_quotes st)
    end
  else if Ascii.eqb c "," && negb st.(in_quotes) then csv_loop rest (end_cell st)
  else if (Ascii.eqb c newline || Ascii.eqb c carriage_return) && negb st.(in_quotes) then
    match rest with
    | String c2 rest2 =>
        if Ascii.eqb c carriage_return && Ascii.eqb c2 newline then csv_loop rest2 (end_row st)
        else csv_loop rest (end_row st)
    | "" => csv_loop rest (end_row st)
    end
  else csv_loop rest (cell_char c st).
Proof. done. Qed.

(** Inside a cell that is open. *)
Definition in_cell (q : bool) (st : csv_state) : Prop :=
  st.(in_quotes) = q ∧ st.(new_cell) = false ∧ st.(new_row) = false.

Lemma emit_emit a b st : emit b (emit a st) = emit (a +:+ b) st.
Proof. unfold emit. cbn. by rewrite append_assoc. Qed.

Lemma emit_nil st : emit "" st = st.
Proof. destruct st. unfold emit. cbn. by rewrite append_nil_r. Qed.

Lemma begin_row_id st : st.(new_row) = false → begin_row st = st.
Proof. unfold begin_row. by intros ->. Qed.

Lemma bare_loop s rest st :
  in_cell false st → string_forall plain_char s = true →
  csv_loop (s +:+ rest) st = csv_loop rest (emit (string_map escape_char s) st).
Proof.
  revert st. induction s as [|c s IH]; intros st Hst Hs; [by rewrite emit_nil|].
  cbn [string_forall] in Hs. apply andb_true_iff in Hs as [Hc Hs]. destruct Hst as (Hq & Hn & Hr).
  unfold plain_char in Hc. apply negb_true_iff in Hc. rewrite !orb_false_iff in Hc.
  destruct Hc as [[[H1 H2] H3] H4]. rewrite append_cons. rewrite csv_loop_cons. cbn zeta.
  rewrite begin_row_id, H1, H2, H3, H4 by done. cbn [andb orb].
  unfold cell_char. rewrite Hn. rewrite IH by done. by rewrite emit_emit.
Qed.

(** What follows a cell: the end, or a separator. *)
Definition no_quote_first (s : string) : Prop :=
  match s with
  | "" => True
  | String a _ => a ≠ quote
  end%string.

Lemma quoted_loop s rest st :
  in_cell true st → no_quote_first rest →
  csv_loop (string_map double_quote s +:+ one quote +:+ rest) st =
  csv_loop rest (toggle_quotes (emit (string_map escape_char s) st)).
Proof.
  intros Hst Hrest. revert st Hst. induction s as [|c s IH]; intros st (Hq & Hn & Hr).
  - rewrite emit_nil. cbn [string_map]. rewrite append_nil. unfold one at 1. rewrite append_cons, append_nil.
    rewrite csv_loop_cons. cbn zeta. rewrite begin_row_id by done. rewrite Ascii.eqb_refl.
    destruct rest as [|a rest]; [done|]. rewrite Hq. cbn [andb].
    cbn in Hrest. by destruct (Ascii.eqb_spec a quote).
  - cbn [string_map]. unfold double_quote at 1. destruct (Ascii.eqb_spec c quote) as [->|Hc].
    + unfold one at 1 2. repeat (rewrite append_cons || rewrite append_nil).
      rewrite csv_loop_cons. cbn zeta. rewrite begin_row_id by done. rewrite !Ascii.eqb_refl, Hq. cbn [andb].
      rewrite IH by done. change (escape_char quote) with "&quot;"%string. by rewrite emit_emit.
    + unfold one at 1. repeat (rewrite append_cons || rewrite append_nil).
      rewrite csv_loop_cons. cbn zeta. rewrite begin_row_id by done.
      destruct (Ascii.eqb_spec c quote); [done|]. rewrite Hq. cbn [negb]. rewrite !andb_false_r.
      unfold cell_char. rewrite Hn. rewrite IH by done. by rewrite emit_emit.
Qed.

(** The state before a cell, in a row whose [<tr>] is out. *)
Definition cell_start (h : string) (hd : bool) : csv_state :=
  {| html := h; in_quotes := false; is_header := hd; new_cell := true; new_row := false |}.

(** The state after the text of a cell. *)
Definition cell_open (h : string) (hd : bool) : csv_state :=
  {| html := h; in_quotes := false; is_header := hd; new_cell := false; new_row := false |}.

Definition row_start (h : string) (hd : bool) : csv_state :=
  {| html := h; in_quotes := false; is_header := hd; new_cell := true; new_row := true |}.

Definition tag_of (hd : bool) : string := if hd then "th" else "td".

Lemma open_tag_of h hd : open_tag (cell_start h hd) = "<" +:+ tag_of hd +:+ ">".
Proof. by destruct hd. Qed.

Lemma plain_char_not c : plain_char c = true →
  Ascii.eqb c quote = false ∧ Ascii.eqb c "," = false ∧ Ascii.eqb c newline = false ∧
  Ascii.eqb c carriage_return = false.
Proof.
  unfold plain_char. intros Hc. apply negb_true_iff in Hc. rewrite !orb_false_iff in Hc. tauto.
Qed.

Lemma cell_loop c rest h hd :
  cell_ok c → no_quote_first rest →
  csv_loop (cell_csv c +:+ rest) (cell_start h hd) =
  csv_loop rest (cell_open (h +:+ "<" +:+ tag_of hd +:+ ">" +:+ string_map escape_char c.(text)) hd).
Proof.
  intros [Hne Hp] Hrest. unfold cell_csv. destruct c as [[|a t] q]; cbn [text quoted] in *; [done|].
  destruct q.
  - unfold one. repeat (rewrite append_cons || rewrite append_nil). cbn [string_map].
    unfold double_quote at 1. destruct (Ascii.eqb_spec a quote) as [|Hq]; [done|].
    unfold one. repeat (rewrite append_cons || rewrite append_nil).
    rewrite csv_loop_cons. cbn zeta. rewrite begin_row_id by done. rewrite Ascii.eqb_refl.
    cbn [cell_start in_quotes andb]. rewrite csv_loop_cons. cbn zeta. rewrite begin_row_id by done.
    destruct (Ascii.eqb_spec a quote); [done|]. cbn [toggle_quotes in_quotes cell_start negb].
    rewrite !andb_false_r. rewrite <- append_assoc, quoted_loop by done. f_equal.
    unfold cell_char, toggle_quotes, emit, open_tag, cell_open. cbn. f_equal.
    destruct hd; by rewrite <- !append_assoc.
  - specialize (Hp eq_refl). cbn [string_forall] in Hp. apply andb_true_iff in Hp as [Ha Ht].
    apply plain_char_not in Ha as (H1 & H2 & H3 & H4). rewrite append_cons, csv_loop_cons. cbn zeta.
    rewrite begin_row_id, H1, H2, H3, H4 by done. cbn [andb orb].
    rewrite bare_loop by done. f_equal. unfold cell_char, emit, open_tag, cell_open. cbn. f_equal.
    destruct hd; by rewrite <- !append_assoc.
Qed.

(** ** Rows and tables *)

Definition cells_html (tag : string) (cells : list cell) : string := concat_strings (cell_html tag <$> cells).

(** What follows the cells of a row. *)
Definition row_end (hd : bool) : string :=
  "</tr>" +:+ nl +:+ (if hd then "</thead>" +:+ nl +:+ "<tbody>" +:+ nl else "").

Lemma end_row_open h hd :
  end_row (cell_open h hd) = row_start (h +:+ ("</" +:+ tag_of hd +:+ ">") +:+ row_end hd) false.
Proof.
  unfold end_row, cell_open, close_cell, emit, close_tag, row_start, row_end. destruct hd; cbn; f_equal;
    by rewrite <- ?append_assoc, ?append_nil_r.
Qed.

Lemma end_row_start h hd : end_row (cell_start h hd) = row_start (h +:+ row_end hd) false.
Proof.
  unfold end_row, cell_start, close_cell, emit, row_start, row_end. destruct hd; cbn; f_equal;
    by rewrite <- ?append_assoc, ?append_nil_r.
Qed.

Lemma newline_loop rest st :
  st.(new_row) = false → st.(in_quotes) = false →
  csv_loop (nl +:+ rest) st = csv_loop rest (end_row st).
Proof.
  intros Hr Hq. unfold nl, one. rewrite append_cons, append_nil, csv_loop_cons. cbn zeta.
  rewrite begin_row_id by done. rewrite Hq. by destruct rest.
Qed.

Lemma comma_loop rest st :
  st.(new_row) = false → st.(in_quotes) = false →
  csv_loop ("," +:+ rest) st = csv_loop rest (end_cell st).
Proof.
  intros Hr Hq. rewrite append_cons, append_nil, csv_loop_cons. cbn zeta.
  rewrite begin_row_id by done. by rewrite Hq.
Qed.

Lemma cells_loop cells rest h hd :
  Forall cell_ok cells →
  csv_loop (row_csv cells +:+ nl +:+ rest) (cell_start h hd) =
  csv_loop rest (row_start (h +:+ cells_html (tag_of hd) cells +:+ row_end hd) false).
Proof.
  intros Hc. revert h. induction Hc as [|c cells Hok Hc IH]; intros h.
  - cbn [row_csv]. rewrite append_nil, newline_loop by done. by rewrite end_row_start.
  - destruct cells as [|c2 cells].
    + cbn [row_csv]. rewrite cell_loop, newline_loop by done. rewrite end_row_open. f_equal. f_equal.
      unfold cells_html, cell_html. cbn [fmap list_fmap concat_strings foldr].
      by rewrite append_nil_r, <- !append_assoc.
    + change (row_csv (c :: c2 :: cells)) with (cell_csv c +:+ "," +:+ row_csv (c2 :: cells)).
      rewrite <- !append_assoc, cell_loop, comma_loop by done.
      change (end_cell (cell_open ?x hd)) with (cell_start (x +:+ close_tag (cell_open x hd)) hd).
      rewrite IH. f_equal. f_equal. unfold cells_html. cbn [fmap list_fmap concat_strings foldr].
      unfold cell_html at 3. destruct hd; by rewrite <- !append_assoc.
Qed.

Lemma row_begin c rest h hd :
  csv_loop (String c rest) (row_start h hd) = csv_loop (String c rest) (cell_start (h +:+ "<tr>") hd).
Proof. by rewrite !csv_loop_cons. Qed.

Lemma row_loop cells rest h hd :
  Forall cell_ok cells →
  csv_loop (row_csv cells +:+ nl +:+ rest) (row_start h hd) =
  csv_loop rest (row_start (h +:+ "<tr>" +:+ cells_html (tag_of hd) cells +:+ row_end hd) false).
Proof.
  intros Hc. rewrite (append_assoc h), <- cells_loop by done.
  destruct (row_csv cells +:+ nl +:+ rest) as [|a s] eqn:E; [|apply row_begin].
  apply (f_equal String.length) in E. rewrite !length_append in E. cbn in E. lia.
Qed.

Lemma rows_loop rows h :
  Forall (Forall cell_ok) rows →
  csv_loop (lines rows) (row_start h false) =
  row_start (h +:+ concat_strings (row_html "td" <$> rows)) false.
Proof.
  intros Hr. revert h. induction Hr as [|r rows Hok Hr IH]; intros h; [cbn; by rewrite append_nil_r|].
  cbn [lines]. rewrite row_loop by done. rewrite IH. f_equal.
  cbn [fmap list_fmap concat_strings foldr]. unfold row_html at 2, cells_html, row_end.
  by rewrite append_nil_r, <- !append_assoc.
Qed.

Lemma table_renders header rows :
  Forall cell_ok header → Forall (Forall cell_ok) rows →
  csv_to_html (table_csv header rows) = table_html header rows.
Proof.
  intros Hh Hr. unfold csv_to_html, table_csv. cbn [lines]. change csv_init with (row_start (html csv_init) true).
  rewrite row_loop by done. rewrite rows_loop by done. unfold csv_finish, row_start. cbn [new_row html].
  unfold table_html, row_html at 2, cells_html, row_end. by rewrite <- !append_assoc.
Qed.

(** C28. The HTML of a table's CSV text is the table: the header's cells as
    [th], every row's cells as [td], in order, with markup characters escaped,
    for any table of non-empty cells: a bare cell has no quote, comma or line
    break, and a quoted one, whose quotes the text doubles, does not begin
    with a quote, which the code puts outside its cell ([leading_quote_outside]). *)
Theorem csv_to_html_table header rows :
  Forall cell_ok header → Forall (Forall cell_ok) rows →
  csv_to_html (table_csv header rows) = table_html header rows.
Proof. apply table_renders. Qed.

(** An empty cell is not rendered (the cells after it move to the left), and a
    quote at the beginning of a cell is put before the cell. *)
Definition some_cell (s : string) : cell := {| text := s; quoted := false |}.

Example empty_cell_disappears :
  csv_to_html ("a,b,c" +:+ nl +:+ "1,,3" +:+ nl) =
  table_html [some_cell "a"; some_cell "b"; some_cell "c"] [[some_cell "1"; some_cell "3"]].
Proof. reflexivity. Qed.

Example leading_quote_outside :
  csv_to_html ("a" +:+ nl +:+ cell_csv {| text := one quote +:+ "x"; quoted := true |} +:+ nl) =
  "<table>" +:+ nl +:+ "<thead>" +:+ nl +:+ "<tr><th>a</th></tr>" +:+ nl +:+ "</thead>" +:+ nl +:+ "<tbody>" +:+ nl +:+
  "<tr>&quot;<td>x</td></tr>" +:+ nl +:+ "</tbody>" +:+ nl +:+ "</table>".
Proof. reflexivity. Qed.

Lemma csv_to_html_table_witness :
  csv_to_html (table_csv [some_cell "a"; some_cell "b"] [[some_cell "1<2"; {| text := "x,y"; quoted := true |}]]) =
  table_html [some_cell "a"; some_cell "b"] [[some_cell "1<2"; {| text := "x,y"; quoted := true |}]].
Proof. apply csv_to_html_table; repeat (constructor; try done). Defined.
