(* ===== verification/Numerals.v ===== *)
(** * Numbers as text: std::to_string, std::stoul and fixed-point output

    [std::to_string] of integers, [std::stoul], and the text of a double with a
    fixed number of decimals (the exact value, rounded half to even), as
    [std::to_string(double)] and [std::fixed] with [std::setprecision] print
    it. *)
From Stdlib Require Import Ascii.
From S2P Require Import Prelude Doubles.

(** ** Digits *)

Definition digit_char (d : Z) : ascii := ascii_of_nat (48 + Z.to_nat d).

Definition digit_value (c : ascii) : option Z :=
  let n := Z.of_nat (nat_of_ascii c) in
  if (48 <=? n) && (n <=? 57) then Some (n - 48) else None.

Lemma digit_value_char d : 0 ≤ d < 10 → digit_value (digit_char d) = Some d.
Proof.
  intros Hd. unfold digit_value, digit_char. rewrite nat_ascii_embedding by lia.
  rewrite (proj2 (Z.leb_le _ _)), (proj2 (Z.leb_le _ _)) by lia. cbn [andb]. f_equal. lia.
Qed.

(** ** [std::to_string] *)

(** The decimal digits of [z] in front of [acc]; [fuel] bounds their number. *)
Fixpoint digits (fuel : nat) (z : Z) (acc : string) : string :=
  match fuel with
  | O => acc
  | S fuel =>
      let acc := String (digit_char (z mod 10)) acc in
      if z <? 10 then acc else digits fuel (z / 10) acc
  end.

(** A number has at most as many decimal digits as binary ones. *)
Definition digits_fuel (z : Z) : nat := S (Z.to_nat (Z.log2 z)).

Definition natural_text (z : Z) : string := digits (digits_fuel z) z "".

Definition int_text (z : Z) : string := if z <? 0 then "-" +:+ natural_text (- z) else natural_text z.

(** ** [std::stoul] *)

Definition is_space (c : ascii) : bool :=
  let n := Z.of_nat (nat_of_ascii c) in (n =? 32) || ((9 <=? n) && (n <=? 13)).

Fixpoint skip_spaces (s : string) : string :=
  match s with
  | "" => ""
  | String c r => if is_space c then skip_spaces r else s
  end%string.

(** The number that the digits at the beginning of [s] continue from [acc]. *)
Fixpoint leading_number (s : string) (acc : Z) : Z :=
  match s with
  | EmptyString => acc
  | String c r =>
      match digit_value c with
      | Some d => leading_number r (10 * acc + d)
      | None => acc
      end
  end.

Definition sign_of (s : string) : bool * string :=
  match s with
  | String c r =>
      if Ascii.eqb c "-" then (true, r) else if Ascii.eqb c "+" then (false, r) else (false, s)
  | "" => (false, s)
  end%string.

(** [strtoul] in base 10, its errors thrown; a negated number wraps around. *)
Definition stoul (s : string) : outcome Z :=
  let '(negative, s) := sign_of (skip_spaces s) in
  match s with
  | String c _ =>
      match digit_value c with
      | None => Throw (invalid_argument "stoul")
      | Some _ =>
          let v := leading_number s 0 in
          if 2 ^ 64 <=? v then Throw (out_of_range "stoul")
          else Ret (if negative then w64 (- v) else v)
      end
  | EmptyString => Throw (invalid_argument "stoul")
  end.

Lemma digits_number fuel z acc :
  0 ≤ z < 10 ^ Z.of_nat fuel → (0 < fuel)%nat →
  leading_number (digits fuel z acc) 0 = leading_number acc z.
Proof.
  revert z acc. induction fuel as [|fuel IH]; intros z acc Hz Hf; [lia|]. cbn [digits].
  pose proof (Z.mod_pos_bound z 10 ltac:(lia)) as Hm.
  destruct (Z.ltb_spec z 10) as [Hl|Hl].
  - cbn [leading_number]. rewrite digit_value_char by done. rewrite Z.mod_small by lia. done.
  - rewrite Nat2Z.inj_succ, Z.pow_succ_r in Hz by lia.
    assert (0 < fuel)%nat by (destruct fuel; [cbn in Hz; lia|lia]).
    rewrite IH; [|split; [apply Z.div_pos; lia|apply Z.div_lt_upper_bound; lia]|done].
    cbn [leading_number]. rewrite digit_value_char by done. f_equal.
    pose proof (Z.div_mod z 10 ltac:(lia)). lia.
Qed.

Lemma digits_first fuel z acc :
  0 ≤ z → (0 < fuel)%nat → ∃ d r, digits fuel z acc = String (digit_char d) r ∧ 0 ≤ d < 10.
Proof.
  revert z acc. induction fuel as [|fuel IH]; intros z acc Hz Hf; [lia|]. cbn [digits].
  pose proof (Z.mod_pos_bound z 10 ltac:(lia)) as Hm.
  destruct (Z.ltb_spec z 10) as [Hl|Hl]; [eauto|].
  destruct fuel as [|fuel]; [cbn; eauto|]. apply IH; [apply Z.div_pos; lia|lia].
Qed.

Lemma fuel_enough z : 0 ≤ z → z < 10 ^ Z.of_nat (digits_fuel z).
Proof.
  intros Hz. unfold digits_fuel. destruct (decide (z = 0)) as [->|]; [done|].
  pose proof (Z.log2_spec z ltac:(lia)) as [_ Hl]. pose proof (Z.log2_nonneg z) as Hn.
  rewrite Nat2Z.inj_succ, Z2Nat.id by done. eapply Z.lt_le_trans; [exact Hl|].
  apply Z.pow_le_mono_l. lia.
Qed.

Lemma natural_text_first z : 0 ≤ z → ∃ d r, natural_text z = String (digit_char d) r ∧ 0 ≤ d < 10.
Proof. intros Hz. apply digits_first; [done|]. unfold digits_fuel. lia. Qed.

Lemma natural_text_number z : 0 ≤ z → leading_number (natural_text z) 0 = z.
Proof.
  intros Hz. unfold natural_text.
  rewrite digits_number; [done|split; [done|by apply fuel_enough]|unfold digits_fuel; lia].
Qed.

(** A digit is neither a space nor a sign. *)
Lemma digit_char_other d : 0 ≤ d < 10 →
  is_space (digit_char d) = false ∧ Ascii.eqb (digit_char d) "-" = false ∧
  Ascii.eqb (digit_char d) "+" = false.
Proof.
  intros Hd. assert (d = 0 ∨ d = 1 ∨ d = 2 ∨ d = 3 ∨ d = 4 ∨ d = 5 ∨ d = 6 ∨ d = 7 ∨ d = 8 ∨ d = 9)
    as Hc by lia.
  repeat destruct Hc as [->|Hc]; try done. by subst d.
Qed.

(** What [to_string] prints, [stoul] reads. *)
Lemma stoul_text z : 0 ≤ z < 2 ^ 64 → stoul (natural_text z) = Ret z.
Proof.
  intros Hz. pose proof (natural_text_number z ltac:(lia)) as Hn.
  destruct (natural_text_first z ltac:(lia)) as (d & r & E & Hd). rewrite E in *.
  destruct (digit_char_other d Hd) as (H1 & H2 & H3). unfold stoul. cbn [skip_spaces].
  rewrite H1. cbn [sign_of]. rewrite H2, H3. rewrite digit_value_char by done. rewrite Hn.
  by rewrite (proj2 (Z.leb_gt _ _)) by lia.
Qed.

(** ** Fixed-point output *)

(** [m * 2^e * 10^p] to the nearest integer, half to even. *)
Definition scaled (p : nat) (m : Z) (e : Z) : Z :=
  let n := m * 10 ^ Z.of_nat p in
  if 0 <=? e then n * 2 ^ e
  else
    let d := 2 ^ (- e) in
    let q := n / d in
    match Z.compare (2 * (n mod d)) d with
    | Lt => q
    | Gt => q + 1
    | Eq => if Z.even q then q else q + 1
    end.

Definition zeros (n : nat) : string := Nat.iter n (String "0") "".

Definition pad_left (n : nat) (s : string) : string := zeros (n - String.length s) +:+ s.

Definition fixed_text (p : nat) (z : Z) : string :=
  natural_text (z / 10 ^ Z.of_nat p) +:+ "." +:+ pad_left p (natural_text (z mod 10 ^ Z.of_nat p)).

Definition minus (s : bool) : string := if s then "-" else "".

(** [std::fixed << std::setprecision(p) << x], for [p] above 0. *)
Definition fixed (p : nat) (x : double) : string :=
  match x with
  | S754_zero s => minus s +:+ fixed_text p 0
  | S754_infinity s => minus s +:+ "inf"
  | S754_nan => "nan"
  | S754_finite s m e => minus s +:+ fixed_text p (scaled p (Zpos m) e)
  end.

(** [std::to_string(double)] *)
Definition double_text (x : double) : string := fixed 6 x.

Example double_text_third : double_text (double_div (double_of_Z 1) (double_of_Z 3)) = "0.333333".
Proof. reflexivity. Qed.

Example fixed_tenth : fixed 16 (double_div (double_of_Z (-1)) (double_of_Z 10)) = "-0.1000000000000000".
Proof. reflexivity. Qed.

Lemma scaled_nonneg p m e : 0 ≤ m → 0 ≤ scaled p m e.
Proof.
  intros Hm. unfold scaled. pose proof (Z.pow_nonneg 10 (Z.of_nat p) ltac:(lia)).
  destruct (Z.leb_spec 0 e).
  - pose proof (Z.pow_nonneg 2 e ltac:(lia)). nia.
  - assert (0 ≤ m * 10 ^ Z.of_nat p / 2 ^ (- e)) by (apply Z.div_pos; [nia|apply Z.pow_pos_nonneg; lia]).
    destruct (Z.compare _ _); [destruct (Z.even _)|..]; lia.
Qed.
