(* ===== verification/FmtInt.v ===== *)
(** * spdlog/fmt/bundled/format.h: decimal integers

    What the log formatter uses of fmt: the number of decimal digits (a table
    indexed by the highest set bit) and [fmt::format_int], which writes two
    digits at a time from the end of a fixed buffer. Both agree with the plain
    decimal text of Numerals.v, and the buffer is large enough. *)
From Stdlib Require Import Ascii.
From S2P Require Import Prelude Numerals.

(** ** Counting digits *)

(** [__builtin_clz] and [__builtin_clzll] of a positive number of [w] bits. *)
Definition clz (w n : Z) : Z := w - 1 - Z.log2 n.

Definition bsr2log10 : list Z :=
  [1; 1; 1; 2; 2; 2; 3; 3; 3; 4; 4; 4; 4; 5; 5; 5; 6; 6; 6; 7; 7; 7; 7; 8; 8; 8; 9; 9; 9; 10; 10; 10;
   10; 11; 11; 11; 12; 12; 12; 13; 13; 13; 13; 14; 14; 14; 15; 15; 15; 16; 16; 16; 16; 17; 17; 17; 18;
   18; 18; 19; 19; 19; 19; 20].

Definition FMT_POWERS_OF_10 (factor : Z) : list Z :=
  [factor * 10; factor * 100; factor * 1000; factor * 10000; factor * 100000; factor * 1000000;
   factor * 10000000; factor * 100000000; factor * 1000000000].

Definition zero_or_powers_of_10 : list Z :=
  [0; 0] ++ FMT_POWERS_OF_10 1 ++ FMT_POWERS_OF_10 1000000000 ++ [10000000000000000000].

Definition at_index (l : list Z) (i : Z) : Z := nth (Z.to_nat i) l 0.

(** [do_count_digits(uint64_t)] *)
Definition do_count_digits64 (n : Z) : Z :=
  let t := at_index bsr2log10 (Z.lxor (clz 64 (Z.lor n 1)) 63) in
  t - (if n <? at_index zero_or_powers_of_10 t then 1 else 0).

(** [FMT_INC(T)]; [size] is [sizeof(#T)], one more than the digits of [T]. *)
Definition FMT_INC (size T : Z) : Z := Z.shiftl (size - 1) 32 - T.

Definition inc_table : list Z :=
  [FMT_INC 2 0; FMT_INC 2 0; FMT_INC 2 0;
   FMT_INC 3 10; FMT_INC 3 10; FMT_INC 3 10;
   FMT_INC 4 100; FMT_INC 4 100; FMT_INC 4 100;
   FMT_INC 5 1000; FMT_INC 5 1000; FMT_INC 5 1000;
   FMT_INC 6 10000; FMT_INC 6 10000; FMT_INC 6 10000;
   FMT_INC 7 100000; FMT_INC 7 100000; FMT_INC 7 100000;
   FMT_INC 8 1000000; FMT_INC 8 1000000; FMT_INC 8 1000000;
   FMT_INC 9 10000000; FMT_INC 9 10000000; FMT_INC 9 10000000;
   FMT_INC 10 100000000; FMT_INC 10 100000000; FMT_INC 10 100000000;
   FMT_INC 11 1000000000; FMT_INC 11 1000000000; FMT_INC 11 1000000000;
   FMT_INC 11 1000000000; FMT_INC 11 1000000000].

(** [do_count_digits(uint32_t)] *)
Definition do_count_digits32 (n : Z) : Z :=
  let inc := at_index inc_table (Z.lxor (clz 32 (Z.lor n 1)) 31) in
  Z.shiftr (n + inc) 32.

(** [count_digits_fallback]; five rounds are enough for 64 bits. *)
Fixpoint count_digits_fallback (rounds : nat) (n count : Z) : Z :=
  if n <? 10 then count
  else if n <? 100 then count + 1
  else if n <? 1000 then count + 2
  else if n <? 10000 then count + 3
  else match rounds with
       | O => count + 4
       | S rounds => count_digits_fallback rounds (n / 10000) (count + 4)
       end.

(** ** Writing digits *)

Definition digits2_data : string :=
  "0001020304050607080910111213141516171819" +:+
  "2021222324252627282930313233343536373839" +:+
  "4041424344454647484950515253545556575859" +:+
  "6061626364656667686970717273747576777879" +:+
  "8081828384858687888990919293949596979899".

Definition digits2 (value : Z) : string := String.substring (Z.to_nat (value * 2)) 2 digits2_data.

Definition overrun : fault := undefined_behaviour "a digit before the buffer".

(** [do_format_decimal(out, value, size)]: [text] is what [out + n] holds
    already. The result is the position of the first digit and the text. *)
Fixpoint do_format_decimal (fuel : nat) (n value : Z) (text : string) : outcome (Z * string) :=
  if value <? 10 then
    if n <? 1 then Crash overrun else Ret (n - 1, String (digit_char value) text)
  else if n <? 2 then Crash overrun
  else if value <? 100 then Ret (n - 2, digits2 value +:+ text)
  else match fuel with
       | O => Crash overrun
       | S fuel => do_format_decimal fuel (n - 2) (value / 100) (digits2 (value mod 100) +:+ text)
       end.

(** [fmt::format_int]: [digits10 + 3] characters of buffer. *)
Definition buffer_size : Z := 19 + 3.

Definition format_unsigned (value : Z) : outcome (Z * string) :=
  do_format_decimal (digits_fuel value) (buffer_size - 1) value "".

(** [w]: the width of the integer's type. *)
Definition format_signed (w value : Z) : outcome (Z * string) :=
  let abs_value := value mod 2 ^ w in
  let negative := value <? 0 in
  let abs_value := if negative then (0 - abs_value) mod 2 ^ w else abs_value in
  '(n, text) ← format_unsigned abs_value;
  if negative then if n <? 1 then Crash overrun else Ret (n - 1, String "-" text)
  else Ret (n, text).

(** ** The text of a natural number *)

Lemma digits_acc fuel z acc : digits fuel z acc = digits fuel z "" +:+ acc.
Proof.
  revert z acc. induction fuel as [|fuel IH]; intros z acc; [done|]. cbn [digits].
  destruct (z <? 10); [done|]. rewrite IH, (IH _ (String _ "")), <- append_assoc. done.
Qed.

Lemma digits_more fuel fuel' z acc :
  0 ≤ z → z < 10 ^ Z.of_nat fuel → (0 < fuel)%nat → (fuel ≤ fuel')%nat → digits fuel' z acc = digits fuel z acc.
Proof.
  revert fuel' z acc. induction fuel as [|fuel IH]; intros fuel' z acc Hz Hf Hp Hle; [lia|].
  destruct fuel' as [|fuel']; [lia|]. cbn [digits]. destruct (z <? 10) eqn:E; [done|].
  apply Z.ltb_ge in E. destruct fuel as [|fuel].
  { cbn in Hf. lia. }
  apply IH; [by apply Z.div_pos| |lia..].
  apply Z.div_lt_upper_bound; [lia|]. rewrite <- Z.pow_succ_r by lia. by rewrite <- Nat2Z.inj_succ.
Qed.

Lemma natural_text_small z : 0 ≤ z < 10 → natural_text z = String (digit_char z) "".
Proof.
  intros Hz. unfold natural_text, digits_fuel. cbn [digits].
  rewrite (proj2 (Z.ltb_lt z 10)) by lia. by rewrite Z.mod_small by lia.
Qed.

Lemma natural_text_step z :
  10 ≤ z → natural_text z = natural_text (z / 10) +:+ String (digit_char (z mod 10)) "".
Proof.
  intros Hz. unfold natural_text at 1, digits_fuel. cbn [digits].
  rewrite (proj2 (Z.ltb_ge z 10)) by lia. rewrite digits_acc. f_equal. unfold natural_text.
  apply digits_more; [apply Z.div_pos; lia|apply fuel_enough, Z.div_pos; lia|unfold digits_fuel; lia|].
  unfold digits_fuel. pose proof (Z.log2_nonneg (z / 10)). assert (Z.log2 (z / 10) < Z.log2 z); [|lia].
  apply Z.log2_lt_pow2; [apply Z.div_str_pos; lia|]. apply Z.div_lt_upper_bound; [lia|].
  assert (z < 2 ^ Z.succ (Z.log2 z)) by (apply Z.log2_spec; lia).
  rewrite Z.pow_succ_r in * by apply Z.log2_nonneg. lia.
Qed.

(** The number of digits of the text. *)
Definition text_size (z : Z) : Z := Z.of_nat (String.length (natural_text z)).

Lemma text_size_small z : 0 ≤ z < 10 → text_size z = 1.
Proof. intros Hz. unfold text_size. by rewrite natural_text_small. Qed.

Lemma text_size_step z : 10 ≤ z → text_size z = text_size (z / 10) + 1.
Proof.
  intros Hz. unfold text_size. rewrite natural_text_step, length_append by done. cbn. lia.
Qed.

Lemma text_size_positive z : 0 ≤ z → 1 ≤ text_size z.
Proof.
  intros Hz. destruct (decide (z < 10)); [rewrite text_size_small; lia|].
  rewrite text_size_step by lia. unfold text_size. lia.
Qed.

(** [d] digits are those of [z]. *)
Definition has_digits (z d : Z) : Prop := 1 ≤ d ∧ z < 10 ^ d ∧ (d = 1 ∨ 10 ^ (d - 1) ≤ z).

Lemma text_size_unique d z : 0 ≤ z → has_digits z d → text_size z = d.
Proof.
  intros Hz (Hd & Hu & Hl). revert z Hz Hu Hl.
  apply (Z.le_ind (λ d, ∀ z, 0 ≤ z → z < 10 ^ d → d = 1 ∨ 10 ^ (d - 1) ≤ z → text_size z = d)) with (n := 1);
    [solve_proper| | |done].
  - intros z Hz Hu _. apply text_size_small. lia.
  - clear. intros d Hd IH z Hz Hu Hl. rewrite Z.pow_succ_r in Hu by lia.
    replace (Z.succ d - 1) with d in Hl by lia. destruct Hl as [?|Hl]; [lia|].
    assert (10 ≤ z) by (assert (10 ^ 1 ≤ 10 ^ d) by (apply Z.pow_le_mono_r; lia); lia).
    rewrite text_size_step, (IH (z / 10)); [lia|by apply Z.div_pos|apply Z.div_lt_upper_bound; lia| |lia].
    destruct (decide (d = 1)) as [->|]; [by left|right]. apply Z.div_le_lower_bound; [lia|].
    rewrite <- Z.pow_succ_r by lia. by replace (Z.succ (d - 1)) with d by lia.
Qed.

(** ** The tables *)

(** What a row [t] of a table promises for numbers whose highest bit is [k]:
    [t] digits are enough, and more than [t - 2] are needed. *)
Definition row_ok (k t : Z) : bool :=
  (1 <=? t) && (2 ^ (k + 1) <=? 10 ^ t) && ((t =? 1) || (10 ^ (t - 2) <=? 2 ^ k)).

Definition least_with (t : Z) : Z := if t =? 1 then 0 else 10 ^ (t - 1).

Lemma row_digits k t n :
  row_ok k t = true → 0 ≤ n → (n = 0 → t = 1) → (n ≠ 0 → 2 ^ k ≤ n) → n < 2 ^ (k + 1) →
  has_digits n (if n <? least_with t then t - 1 else t).
Proof.
  unfold row_ok, least_with. rewrite !andb_true_iff, orb_true_iff, Z.eqb_eq, !Z.leb_le.
  intros [[H1 H2] H3] Hn H0 Hl Hu. unfold has_digits.
  destruct (Z.eqb_spec t 1) as [->|Ht].
  { rewrite (proj2 (Z.ltb_ge n 0)) by done. split_and!; [done|lia|by left]. }
  destruct H3 as [?|H3]; [done|]. assert (2 ^ k ≤ n) by (apply Hl; intros ->; lia).
  destruct (Z.ltb_spec n (10 ^ (t - 1))); (split_and!; [lia..|]); [|right; lia].
  destruct (decide (t = 2)) as [->|]; [by left|right]. replace (t - 1 - 1) with (t - 2); lia.
Qed.

(** A property of every index below [w] that can be computed. *)
Lemma all_below (f : Z → bool) w k : forallb f (seqZ 0 w) = true → 0 ≤ k < w → f k = true.
Proof. rewrite forallb_forall. intros H Hk. apply H, list_elem_of_In, elem_of_seqZ. lia. Qed.

Lemma highest_bit w n : 0 < w → 0 ≤ n < 2 ^ w →
  0 ≤ Z.log2 n < w ∧ Z.log2 (Z.lor n 1) = Z.log2 n ∧ (n ≠ 0 → 2 ^ Z.log2 n ≤ n) ∧ n < 2 ^ (Z.log2 n + 1).
Proof.
  intros Hw Hn. pose proof (Z.log2_nonneg n). split_and!; [done| | | |].
  - destruct (decide (n = 0)) as [->|]; [done|]. apply Z.log2_lt_pow2; lia.
  - rewrite Z.log2_lor by lia. cbn. lia.
  - intros ?. apply Z.log2_spec. lia.
  - destruct (decide (n = 0)) as [->|]; [done|]. rewrite Z.add_1_r. apply Z.log2_spec. lia.
Qed.

Lemma clz_index w n : (w = 32 ∨ w = 64) → 0 ≤ n < 2 ^ w → Z.lxor (clz w (Z.lor n 1)) (w - 1) = Z.log2 n.
Proof.
  intros Hw Hn. unfold clz. destruct (highest_bit w n) as (Hk & -> & _); [lia|done|].
  enough ((Z.lxor (w - 1 - Z.log2 n) (w - 1) =? Z.log2 n) = true) by by apply Z.eqb_eq.
  destruct Hw as [->| ->]; revert Hk;
    [apply (all_below (λ k, Z.lxor (32 - 1 - k) (32 - 1) =? k))|apply (all_below (λ k, Z.lxor (64 - 1 - k) (64 - 1) =? k))];
    vm_compute; reflexivity.
Qed.

Lemma count_digits64 n : 0 ≤ n < 2 ^ 64 → do_count_digits64 n = text_size n.
Proof.
  intros Hn. destruct (highest_bit 64 n) as (Hk & _ & Hl & Hu); [done..|].
  unfold do_count_digits64. rewrite (clz_index 64) by (done || by right).
  assert (Hr : row_ok (Z.log2 n) (at_index bsr2log10 (Z.log2 n)) &&
               (at_index zero_or_powers_of_10 (at_index bsr2log10 (Z.log2 n)) =?
                least_with (at_index bsr2log10 (Z.log2 n))) = true).
  { revert Hk. apply (all_below (λ k, row_ok k (at_index bsr2log10 k) &&
      (at_index zero_or_powers_of_10 (at_index bsr2log10 k) =? least_with (at_index bsr2log10 k)))).
    vm_compute. reflexivity. }
  apply andb_true_iff in Hr as [Hr ->%Z.eqb_eq]. symmetry. apply text_size_unique; [lia|].
  pose proof (row_digits _ _ n Hr ltac:(lia)) as Hd. cbv zeta.
  destruct (n <? _); rewrite ?Z.sub_0_r; (apply Hd; [|done..]); by intros ->.
Qed.

(** The row of [inc_table] for numbers whose highest bit is [k]. *)
Definition inc_row (k : Z) : Z := if k <? 30 then k / 3 + 1 else 10.

Lemma shiftr_inc t T n : 0 ≤ n < 2 ^ 32 → 0 ≤ T < 2 ^ 32 →
  Z.shiftr (n + FMT_INC (t + 1) T) 32 = if n <? T then t - 1 else t.
Proof.
  intros Hn HT. unfold FMT_INC. rewrite Z.shiftr_div_pow2, Z.shiftl_mul_pow2 by lia.
  replace (t + 1 - 1) with t by lia.
  destruct (Z.ltb_spec n T); symmetry;
    [apply (Z.div_unique _ _ _ (2 ^ 32 + n - T))|apply (Z.div_unique _ _ _ (n - T))]; lia.
Qed.

Lemma count_digits32 n : 0 ≤ n < 2 ^ 32 → do_count_digits32 n = text_size n.
Proof.
  intros Hn. destruct (highest_bit 32 n) as (Hk & _ & Hl & Hu); [done..|].
  unfold do_count_digits32. cbv zeta. rewrite (clz_index 32) by (done || by left).
  set (t := inc_row (Z.log2 n)).
  assert (Hr : row_ok (Z.log2 n) t && (at_index inc_table (Z.log2 n) =? FMT_INC (t + 1) (least_with t)) &&
               (0 <=? least_with t) && (least_with t <? 2 ^ 32) = true).
  { subst t. revert Hk. apply (all_below (λ k, row_ok k (inc_row k) &&
      (at_index inc_table k =? FMT_INC (inc_row k + 1) (least_with (inc_row k))) &&
      (0 <=? least_with (inc_row k)) && (least_with (inc_row k) <? 2 ^ 32))). vm_compute. reflexivity. }
  rewrite !andb_true_iff, Z.leb_le, Z.ltb_lt, Z.eqb_eq in Hr. destruct Hr as [[[Hr ->] ?] ?].
  rewrite shiftr_inc by lia. symmetry. apply text_size_unique; [lia|]. apply row_digits with (k := Z.log2 n); [done|lia| |done..].
  by intros ->.
Qed.

Lemma text_size_div4 n : 10000 ≤ n → text_size n = text_size (n / 10000) + 4.
Proof.
  intros Hn.
  assert (Hdiv : ∀ m, 0 < m → n / m / 10 = n / (m * 10)) by (intros m ?; apply Z.div_div; lia).
  assert (Hge : ∀ m, 0 < m → m * 10 ≤ 10000 → 10 ≤ n / m) by (intros m ? ?; apply Z.div_le_lower_bound; lia).
  rewrite (text_size_step n), (text_size_step (n / 10)) by (lia || apply Hge; lia).
  rewrite (Hdiv 10), (text_size_step (n / (10 * 10))) by (lia || apply Hge; lia).
  rewrite (Hdiv (10 * 10)), (text_size_step (n / (10 * 10 * 10))) by (lia || apply Hge; lia).
  rewrite (Hdiv (10 * 10 * 10)) by lia. change (10 * 10 * 10 * 10) with 10000. lia.
Qed.

(** The four comparisons of one round. *)
Lemma one_round n count rest : 0 ≤ n →
  (10000 ≤ n → rest = count + text_size n - 1) →
  (if n <? 10 then count else if n <? 100 then count + 1 else if n <? 1000 then count + 2
   else if n <? 10000 then count + 3 else rest) = count + text_size n - 1.
Proof.
  intros Hn Hrest.
  destruct (Z.ltb_spec n 10); [rewrite text_size_small; lia|].
  destruct (Z.ltb_spec n 100); [rewrite (text_size_unique 2); unfold has_digits; lia|].
  destruct (Z.ltb_spec n 1000); [rewrite (text_size_unique 3); unfold has_digits; lia|].
  destruct (Z.ltb_spec n 10000); [rewrite (text_size_unique 4); unfold has_digits; lia|by apply Hrest].
Qed.

Lemma count_digits_loop rounds n count :
  0 ≤ n < 10000 ^ (Z.of_nat rounds + 1) → count_digits_fallback rounds n count = count + text_size n - 1.
Proof.
  revert n count. induction rounds as [|rounds IH]; intros n count Hn; cbn [count_digits_fallback];
    (apply one_round; [lia|]); intros Hge; [cbn in Hn; lia|].
  assert (0 ≤ n / 10000 < 10000 ^ (Z.of_nat rounds + 1)).
  { split; [apply Z.div_pos; lia|]. apply Z.div_lt_upper_bound; [lia|]. rewrite <- Z.pow_succ_r by lia.
    replace (Z.succ (Z.of_nat rounds + 1)) with (Z.of_nat (S rounds) + 1) by lia. apply Hn. }
  rewrite IH, (text_size_div4 n) by done. lia.
Qed.

(** ** The digits *)

Lemma digits2_pair v : 0 ≤ v < 100 → digits2 v = String (digit_char (v / 10)) (String (digit_char (v mod 10)) "").
Proof.
  intros Hv. enough (String.eqb (digits2 v) (String (digit_char (v / 10)) (String (digit_char (v mod 10)) "")) = true)
    by by apply String.eqb_eq.
  revert Hv. apply (all_below (λ v, String.eqb (digits2 v)
    (String (digit_char (v / 10)) (String (digit_char (v mod 10)) "")))). vm_compute. reflexivity.
Qed.

Lemma natural_text_pair v text : 100 ≤ v →
  natural_text v +:+ text = natural_text (v / 100) +:+ (digits2 (v mod 100) +:+ text).
Proof.
  intros Hv. assert (0 ≤ v mod 100 < 100) by (apply Z.mod_pos_bound; lia).
  rewrite natural_text_step, (natural_text_step (v / 10)) by (lia || apply Z.div_le_lower_bound; lia).
  rewrite Z.div_div by lia. change (10 * 10) with 100. rewrite digits2_pair, <- !append_assoc by done. f_equal.
  rewrite !append_cons, !append_nil.
  replace (v mod 100 / 10) with ((v / 10) mod 10); [replace ((v mod 100) mod 10) with (v mod 10); [done|]|];
    Z.div_mod_to_equations; lia.
Qed.

Lemma digits2_text v : 10 ≤ v < 100 → digits2 v = natural_text v.
Proof.
  intros Hv. assert (0 ≤ v / 10 < 10) by (split; [apply Z.div_pos|apply Z.div_lt_upper_bound]; lia).
  by rewrite digits2_pair, natural_text_step, natural_text_small by lia.
Qed.

Lemma do_format_decimal_text fuel n v text :
  0 ≤ v → v < 100 * 100 ^ Z.of_nat fuel → text_size v ≤ n →
  do_format_decimal fuel n v text = Ret (n - text_size v, natural_text v +:+ text).
Proof.
  revert n v text. induction fuel as [|fuel IH]; intros n v text Hv Hf Hn; cbn [do_format_decimal].
  - destruct (Z.ltb_spec v 10).
    { rewrite text_size_small, natural_text_small in * by lia. by rewrite (proj2 (Z.ltb_ge n 1)) by lia. }
    rewrite (text_size_unique 2 v) in * by (unfold has_digits; lia).
    rewrite (proj2 (Z.ltb_ge n 2)), (proj2 (Z.ltb_lt v 100)) by lia. by rewrite digits2_text.
  - destruct (Z.ltb_spec v 10).
    { rewrite text_size_small, natural_text_small in * by lia. by rewrite (proj2 (Z.ltb_ge n 1)) by lia. }
    destruct (Z.ltb_spec v 100).
    { rewrite (text_size_unique 2 v) in * by (unfold has_digits; lia).
      rewrite (proj2 (Z.ltb_ge n 2)) by lia. by rewrite digits2_text. }
    assert (text_size v = text_size (v / 100) + 2) as Hs.
    { rewrite (text_size_step v), (text_size_step (v / 10)), Z.div_div by (lia || apply Z.div_le_lower_bound; lia).
      change (10 * 10) with 100. lia. }
    assert (1 ≤ text_size (v / 100)) by (apply text_size_positive, Z.div_pos; lia).
    rewrite (proj2 (Z.ltb_ge n 2)) by lia. rewrite IH, (natural_text_pair v), Hs; [f_equal; f_equal; lia|lia|by apply Z.div_pos| |lia].
    apply Z.div_lt_upper_bound; [lia|]. rewrite <- Z.pow_succ_r, <- Nat2Z.inj_succ by lia. lia.
Qed.

(** ** What the formatter uses *)

Definition count_digits_uint32 (n : Z) : Z := do_count_digits32 (w32 n).
Definition count_digits_uint64 (n : Z) : Z := do_count_digits64 (w64 n).

Lemma text_size_bound v : 0 ≤ v < 2 ^ 64 → text_size v ≤ 20.
Proof.
  intros Hv. rewrite <- count_digits64 by done. unfold do_count_digits64. cbv zeta.
  rewrite (clz_index 64) by (done || by right). destruct (highest_bit 64 v) as (Hk & _); [done..|].
  enough ((at_index bsr2log10 (Z.log2 v) <=? 20) = true) as H%Z.leb_le by (destruct (v <? _); lia).
  revert Hk. apply (all_below (λ k, at_index bsr2log10 k <=? 20)). vm_compute. reflexivity.
Qed.

Lemma format_unsigned_text v : 0 ≤ v < 2 ^ 64 →
  format_unsigned v = Ret (buffer_size - 1 - text_size v, natural_text v).
Proof.
  intros Hv. pose proof (text_size_bound v Hv). unfold format_unsigned.
  rewrite do_format_decimal_text; [by rewrite append_nil_r|lia| |unfold buffer_size; lia].
  pose proof (fuel_enough v ltac:(lia)) as Hf. set (k := Z.of_nat (digits_fuel v)) in *.
  assert (10 ^ k ≤ 100 ^ k) by (apply Z.pow_le_mono_l; lia). lia.
Qed.

Lemma format_signed_text w v : w = 32 ∨ w = 64 → - 2 ^ (w - 1) ≤ v < 2 ^ (w - 1) →
  ∃ n, format_signed w v = Ret (n, int_text v) ∧ 0 ≤ n.
Proof.
  intros Hw Hv. assert (2 ^ (w - 1) * 2 = 2 ^ w ∧ 2 ^ w ≤ 2 ^ 64) as [Hd Hle] by (destruct Hw as [->| ->]; lia).
  unfold format_signed, int_text. cbv zeta. destruct (Z.ltb_spec v 0).
  - replace ((0 - v mod 2 ^ w) mod 2 ^ w) with (- v).
    2:{ rewrite Zminus_mod_idemp_r. symmetry. apply Z.mod_small. lia. }
    assert (text_size (- v) ≤ 20) by (apply text_size_bound; lia).
    rewrite format_unsigned_text by lia. cbn [mbind outcome_bind].
    rewrite (proj2 (Z.ltb_ge _ 1)) by (unfold buffer_size; lia).
    eexists. split; [reflexivity|]. unfold buffer_size. lia.
  - assert (text_size v ≤ 20) by (apply text_size_bound; lia). rewrite Z.mod_small by lia.
    rewrite format_unsigned_text by lia. eexists. split; [reflexivity|]. unfold buffer_size. lia.
Qed.

(** fmt's decimal conversion agrees with plain decimal text for every integer
    of its type: the two table-driven digit counts, the loop that divides by
    10000 and the length of the text are the same number; [format_int] gives
    the text of the number, signed or unsigned, two digits at a time, and never
    writes in front of its buffer. *)
Theorem fmt_decimal_correct n v :
  0 ≤ n < 2 ^ 64 → - 2 ^ 63 ≤ v < 2 ^ 63 →
  do_count_digits64 n = count_digits_fallback 4 n 1 ∧
  (n < 2 ^ 32 → do_count_digits32 n = do_count_digits64 n) ∧
  do_count_digits64 n = Z.of_nat (String.length (natural_text n)) ∧
  (snd <$> format_unsigned n) = Ret (natural_text n) ∧
  (snd <$> format_signed 64 v) = Ret (int_text v).
Proof.
  intros Hn Hv. split_and!.
  - rewrite count_digits64, count_digits_loop by lia. lia.
  - intros ?. rewrite count_digits64, count_digits32 by lia. done.
  - by apply count_digits64.
  - by rewrite format_unsigned_text.
  - by destruct (format_signed_text 64 v) as (k & -> & _); [by right|done|].
Qed.

Lemma fmt_decimal_correct_witness :
  do_count_digits64 18446744073709551615 = 20 ∧ do_count_digits32 4294967295 = 10 ∧
  (snd <$> format_signed 64 (- 2 ^ 63)) = Ret "-9223372036854775808"%string.
Proof.
  pose proof (fmt_decimal_correct (2 ^ 64 - 1) (- 2 ^ 63) ltac:(lia) ltac:(lia)) as (_ & _ & H & _ & ->).
  split_and!; vm_compute; reflexivity.
Defined.
