(* ===== verification/FmtSpecs.v ===== *)
(** * spdlog/fmt/bundled/base.h: format specifications

    The specifications of a replacement field, packed into the bits of a word
    ([basic_specs]), the types of arguments and sets of them, and pointers into
    a format string: a pointer is the rest of the string, and reading at its end
    is undefined behaviour. *)
From Stdlib Require Import Ascii.
From S2P Require Import Prelude.

(** ** Pointers and errors *)

Definition code (c : ascii) : Z := Z.of_nat (nat_of_ascii c).

Definition past_end : fault := undefined_behaviour "a read past the end".

(** [*p] *)
Definition deref {S} (p : string) : M S ascii :=
  match p with
  | String c _ => mret c
  | EmptyString => crash past_end
  end.

(** [++p] *)
Definition next {S} (p : string) : M S string :=
  match p with
  | String _ r => mret r
  | EmptyString => crash past_end
  end.

Definition is_end (p : string) : bool := String.eqb p "".

Definition size (s : string) : Z := Z.of_nat (String.length s).

Fixpoint take_chars (n : nat) (s : string) : string :=
  match n, s with
  | S n, String c r => String c (take_chars n r)
  | _, _ => EmptyString
  end.

Fixpoint drop_chars (n : nat) (s : string) : string :=
  match n, s with
  | S n, String _ r => drop_chars n r
  | _, _ => s
  end.

(** The characters from [b] up to [e], the first [n], and the pointer [n] further. *)
Definition text_range (b e : string) : string := take_chars (String.length b - String.length e) b.
Definition prefix_of (n : Z) (p : string) : string := take_chars (Z.to_nat n) p.
Definition skip (n : Z) (p : string) : string := drop_chars (Z.to_nat n) p.

(** [format_error] is a [std::runtime_error]. *)
Definition report_error {S A} (message : string) : M S A := throw (runtime_error message).

Definition FMT_ASSERT {S} (condition : bool) : M S unit :=
  if condition then mret tt else crash (terminate "fmt's assertion").

Fixpoint one_of (c : ascii) (s : string) : bool :=
  match s with
  | EmptyString => false
  | String d r => Ascii.eqb c d || one_of c r
  end.

(** ** [basic_specs] *)

(** [presentation_type]: some values are used for several presentations. *)
Definition pres_none := 0.
Definition pres_debug := 1.
Definition pres_string := 2.
Definition pres_dec := 3.
Definition pres_hex := 4.
Definition pres_oct := 5.
Definition pres_bin := 6.
Definition pres_chr := 7.
Definition pres_pointer := 3.
Definition pres_exp := 1.
Definition pres_fixed := 2.
Definition pres_general := 3.
Definition pres_hexfloat := 4.

Inductive align := align_none | align_left | align_right | align_center | align_numeric.
Inductive sign := sign_none | sign_minus | sign_plus | sign_space.
Inductive arg_id_kind := kind_none | kind_index | kind_name.

#[export] Instance align_eq_dec : EqDecision align.
Proof. solve_decision. Defined.
#[export] Instance sign_eq_dec : EqDecision sign.
Proof. solve_decision. Defined.
#[export] Instance arg_id_kind_eq_dec : EqDecision arg_id_kind.
Proof. solve_decision. Defined.

Definition align_number (a : align) : Z :=
  match a with align_none => 0 | align_left => 1 | align_right => 2 | align_center => 3 | align_numeric => 4 end.
Definition sign_number (s : sign) : Z :=
  match s with sign_none => 0 | sign_minus => 1 | sign_plus => 2 | sign_space => 3 end.
Definition kind_number (k : arg_id_kind) : Z :=
  match k with kind_none => 0 | kind_index => 1 | kind_name => 2 end.

Definition align_from (n : Z) : align :=
  if n =? 1 then align_left else if n =? 2 then align_right else if n =? 3 then align_center
  else if n =? 4 then align_numeric else align_none.
Definition sign_from (n : Z) : sign :=
  if n =? 1 then sign_minus else if n =? 2 then sign_plus else if n =? 3 then sign_space else sign_none.
Definition kind_from (n : Z) : arg_id_kind :=
  if n =? 1 then kind_index else if n =? 2 then kind_name else kind_none.

Definition type_mask := 0x00007.
Definition align_mask := 0x00038.
Definition width_mask := 0x000C0.
Definition precision_mask := 0x00300.
Definition sign_mask := 0x00C00.
Definition uppercase_mask := 0x01000.
Definition alternate_mask := 0x02000.
Definition localized_mask := 0x04000.
Definition fill_size_mask := 0x38000.
Definition align_shift := 3.
Definition width_shift := 6.
Definition precision_shift := 8.
Definition sign_shift := 10.
Definition fill_size_shift := 15.

Inductive arg_ref := ref_index (i : Z) | ref_name (n : string).

(** [basic_specs], [format_specs] and [dynamic_format_specs] in one. *)
Record format_specs := {
  data_ : Z;
  fill_data_ : string; (* four characters *)
  width : Z;
  precision : Z;
  width_ref : arg_ref;
  precision_ref : arg_ref
}.

Definition format_specs_new : format_specs :=
  {| data_ := Z.shiftl 1 fill_size_shift; fill_data_ := String " " (String "000" (String "000" (String "000" "")));
     width := 0; precision := -1; width_ref := ref_index 0; precision_ref := ref_index 0 |}.

Definition set_data (d : Z) (s : format_specs) : format_specs :=
  {| data_ := d; fill_data_ := s.(fill_data_); width := s.(width); precision := s.(precision);
     width_ref := s.(width_ref); precision_ref := s.(precision_ref) |}.

(** [(data_ & mask) >> shift] and [data_ = (data_ & ~mask) | (value << shift)] *)
Definition get_field (mask shift : Z) (s : format_specs) : Z := Z.shiftr (Z.land s.(data_) mask) shift.
Definition set_field (mask shift value : Z) (s : format_specs) : format_specs :=
  set_data (Z.lor (Z.ldiff s.(data_) mask) (Z.shiftl value shift)) s.
Definition has_bit (mask : Z) (s : format_specs) : bool := negb (Z.land s.(data_) mask =? 0).
Definition set_bit (mask : Z) (s : format_specs) : format_specs := set_data (Z.lor s.(data_) mask) s.

Definition get_type (s : format_specs) : Z := get_field type_mask 0 s.
Definition set_type (t : Z) (s : format_specs) : format_specs := set_field type_mask 0 t s.
Definition get_align (s : format_specs) : align := align_from (get_field align_mask align_shift s).
Definition set_align (a : align) (s : format_specs) : format_specs :=
  set_field align_mask align_shift (align_number a) s.
Definition dynamic_width (s : format_specs) : arg_id_kind := kind_from (get_field width_mask width_shift s).
Definition set_dynamic_width (k : arg_id_kind) (s : format_specs) : format_specs :=
  set_field width_mask width_shift (kind_number k) s.
Definition dynamic_precision (s : format_specs) : arg_id_kind := kind_from (get_field precision_mask precision_shift s).
Definition set_dynamic_precision (k : arg_id_kind) (s : format_specs) : format_specs :=
  set_field precision_mask precision_shift (kind_number k) s.
Definition dynamic (s : format_specs) : bool := has_bit (Z.lor width_mask precision_mask) s.
Definition get_sign (s : format_specs) : sign := sign_from (get_field sign_mask sign_shift s).
Definition set_sign (g : sign) (s : format_specs) : format_specs := set_field sign_mask sign_shift (sign_number g) s.
Definition upper (s : format_specs) : bool := has_bit uppercase_mask s.
Definition set_upper (s : format_specs) : format_specs := set_bit uppercase_mask s.
Definition alt (s : format_specs) : bool := has_bit alternate_mask s.
Definition set_alt (s : format_specs) : format_specs := set_bit alternate_mask s.
Definition localized (s : format_specs) : bool := has_bit localized_mask s.
Definition set_localized (s : format_specs) : format_specs := set_bit localized_mask s.
Definition fill_size (s : format_specs) : Z := get_field fill_size_mask fill_size_shift s.
Definition set_fill_size (n : Z) (s : format_specs) : format_specs := set_field fill_size_mask fill_size_shift n s.

(** The first [fill_size] characters, which [fill()] points to. *)
Definition fill_text (s : format_specs) : string := prefix_of (fill_size s) s.(fill_data_).

Definition set_fill_data (d : string) (s : format_specs) : format_specs :=
  {| data_ := s.(data_); fill_data_ := d; width := s.(width); precision := s.(precision);
     width_ref := s.(width_ref); precision_ref := s.(precision_ref) |}.

Definition set_fill_char (c : ascii) (s : format_specs) : format_specs :=
  set_fill_size 1 (set_fill_data (String c (skip 1 s.(fill_data_))) s).

(** [set_fill(string_view)], one to four characters: one is stored with two
    zeros after it, more are stored as they are. *)
Definition set_fill (f : string) (s : format_specs) : format_specs :=
  let s := set_fill_size (size f) s in
  match f with
  | String c EmptyString => set_fill_data (String c (String "000" (String "000" (skip 3 s.(fill_data_))))) s
  | _ => set_fill_data (f +:+ skip (size f) s.(fill_data_)) s
  end.

Definition set_width (w : Z) (r : arg_ref) (s : format_specs) : format_specs :=
  {| data_ := s.(data_); fill_data_ := s.(fill_data_); width := w; precision := s.(precision);
     width_ref := r; precision_ref := s.(precision_ref) |}.
Definition set_precision (p : Z) (r : arg_ref) (s : format_specs) : format_specs :=
  {| data_ := s.(data_); fill_data_ := s.(fill_data_); width := s.(width); precision := p;
     width_ref := s.(width_ref); precision_ref := r |}.

(** ** Types of arguments *)

(** [detail::type] *)
Inductive arg_type :=
  | none_type | int_type | uint_type | long_long_type | ulong_long_type | int128_type | uint128_type | bool_type
  | char_type | float_type | double_type | long_double_type | cstring_type | string_type | pointer_type | custom_type.

#[export] Instance arg_type_eq_dec : EqDecision arg_type.
Proof. solve_decision. Defined.

Definition type_number (t : arg_type) : Z :=
  match t with
  | none_type => 0 | int_type => 1 | uint_type => 2 | long_long_type => 3 | ulong_long_type => 4 | int128_type => 5
  | uint128_type => 6 | bool_type => 7 | char_type => 8 | float_type => 9 | double_type => 10 | long_double_type => 11
  | cstring_type => 12 | string_type => 13 | pointer_type => 14 | custom_type => 15
  end.

Definition is_integral_type (t : arg_type) : bool :=
  (type_number none_type <? type_number t) && (type_number t <=? type_number char_type).
Definition is_arithmetic_type (t : arg_type) : bool :=
  (type_number none_type <? type_number t) && (type_number t <=? type_number long_double_type).

(** [set(type)] for each of the types, joined; [in(t, set)]. *)
Definition type_set (ts : list arg_type) : Z := foldr Z.lor 0 (map (λ t, Z.shiftl 1 (type_number t)) ts).
Definition in_set (t : arg_type) (s : Z) : bool := negb (Z.land (Z.shiftr s (type_number t)) 1 =? 0).

Definition sint_set := type_set [int_type; long_long_type; int128_type].
Definition uint_set := type_set [uint_type; ulong_long_type; uint128_type].
Definition bool_set := type_set [bool_type].
Definition char_set := type_set [char_type].
Definition float_set := type_set [float_type; double_type; long_double_type].
Definition string_set := type_set [string_type].
Definition cstring_set := type_set [cstring_type].
Definition pointer_set := type_set [pointer_type].
Definition integral_set := Z.lor (Z.lor (Z.lor sint_set uint_set) bool_set) char_set.

(** ** Laws of the bit fields *)

Create HintDb specs discriminated.

(** The value [v], shifted, lies within the mask. *)
Definition fits (mask shift v : Z) : Prop := Z.land (Z.shiftl v shift) mask = Z.shiftl v shift.

Lemma field_same d m x : Z.land x m = x → Z.land (Z.lor (Z.ldiff d m) x) m = x.
Proof.
  intros Hx. rewrite Z.land_lor_distr_l, Hx. replace (Z.land (Z.ldiff d m) m) with 0; [done|].
  apply Z.bits_inj'. intros n Hn. rewrite Z.bits_0, Z.land_spec, Z.ldiff_spec.
  by destruct (Z.testbit d n), (Z.testbit m n).
Qed.

Lemma field_other d m x m' : Z.land x m = x → Z.land m m' = 0 → Z.land (Z.lor (Z.ldiff d m) x) m' = Z.land d m'.
Proof.
  intros Hx Hm. apply Z.bits_inj'. intros n Hn.
  apply (f_equal (λ z, Z.testbit z n)) in Hx, Hm. revert Hx Hm.
  rewrite !Z.land_spec, Z.lor_spec, Z.ldiff_spec, Z.bits_0.
  by destruct (Z.testbit d n), (Z.testbit m n), (Z.testbit x n), (Z.testbit m' n).
Qed.

Lemma bit_other d b m' : Z.land b m' = 0 → Z.land (Z.lor d b) m' = Z.land d m'.
Proof. intros Hb. by rewrite Z.land_lor_distr_l, Hb, Z.lor_0_r. Qed.

Lemma get_set_field mask shift v s : 0 ≤ shift → fits mask shift v → get_field mask shift (set_field mask shift v s) = v.
Proof.
  intros Hs Hv. unfold get_field, set_field. cbn [data_ set_data]. rewrite field_same by done.
  by rewrite Z.shiftr_shiftl_l, Z.sub_diag, Z.shiftl_0_r by lia.
Qed.

Lemma get_set_other mask shift v mask' shift' s :
  fits mask shift v → Z.land mask mask' = 0 → get_field mask' shift' (set_field mask shift v s) = get_field mask' shift' s.
Proof. intros Hv Hm. unfold get_field, set_field. cbn [data_ set_data]. by rewrite (field_other _ mask). Qed.

Lemma get_set_bit mask mask' shift' s :
  Z.land mask mask' = 0 → get_field mask' shift' (set_bit mask s) = get_field mask' shift' s.
Proof. intros Hm. unfold get_field, set_bit. cbn [data_ set_data]. by rewrite bit_other. Qed.

Lemma fits_align a : fits align_mask align_shift (align_number a).
Proof. by destruct a. Qed.
Lemma fits_sign g : fits sign_mask sign_shift (sign_number g).
Proof. by destruct g. Qed.
Lemma fits_kind_width k : fits width_mask width_shift (kind_number k).
Proof. by destruct k. Qed.
Lemma fits_kind_precision k : fits precision_mask precision_shift (kind_number k).
Proof. by destruct k. Qed.

Lemma fits_below mask shift b v :
  forallb (λ v, Z.land (Z.shiftl v shift) mask =? Z.shiftl v shift) (seqZ 0 b) = true → 0 ≤ v < b → fits mask shift v.
Proof. rewrite forallb_forall. intros H Hv. apply Z.eqb_eq, H, list_elem_of_In, elem_of_seqZ. lia. Qed.

Lemma fits_type v : 0 ≤ v < 8 → fits type_mask 0 v.
Proof. by apply fits_below. Qed.
Lemma fits_fill_size v : 0 ≤ v < 8 → fits fill_size_mask fill_size_shift v.
Proof. by apply fits_below. Qed.

#[export] Hint Resolve fits_align fits_sign fits_kind_width fits_kind_precision : specs.
#[export] Hint Extern 1 (fits type_mask _ _) => apply fits_type; unfold pres_none, pres_debug, pres_string, pres_dec,
  pres_hex, pres_oct, pres_bin, pres_chr, pres_pointer, pres_exp, pres_fixed, pres_general, pres_hexfloat in *; lia : specs.
#[export] Hint Extern 1 (fits fill_size_mask _ _) => apply fits_fill_size; lia : specs.

Lemma align_of_number a : align_from (align_number a) = a.
Proof. by destruct a. Qed.
Lemma sign_of_number g : sign_from (sign_number g) = g.
Proof. by destruct g. Qed.
Lemma kind_of_number k : kind_from (kind_number k) = k.
Proof. by destruct k. Qed.

(** Read a field of specifications that were just set. *)
Ltac specs_simpl :=
  unfold set_type, set_align, set_dynamic_width, set_dynamic_precision, set_sign, set_upper, set_alt, set_localized,
    set_fill_size, get_type, get_align, dynamic_width, dynamic_precision, get_sign, fill_size;
  repeat first
    [ rewrite get_set_field by (done || auto with specs)
    | rewrite get_set_other by (done || auto with specs)
    | rewrite get_set_bit by done ];
  rewrite ?align_of_number, ?sign_of_number, ?kind_of_number.

(** ** Bits as numbers *)

Lemma testbit_above b k n : 0 ≤ b < 2 ^ k → k ≤ n → Z.testbit b n = false.
Proof.
  intros Hb Hn. destruct (decide (b = 0)) as [->|]; [apply Z.bits_0|]. apply Z.bits_above_log2; [lia|].
  assert (Z.log2 b < k) by (apply Z.log2_lt_pow2; lia). lia.
Qed.

Lemma lor_add x y k b : 0 ≤ k → x = y * 2 ^ k → 0 ≤ b < 2 ^ k → Z.lor x b = x + b.
Proof.
  intros Hk -> Hb. rewrite <- Z.add_lor_land. replace (Z.land (y * 2 ^ k) b) with 0; [lia|].
  symmetry. apply Z.bits_inj'. intros n Hn. rewrite Z.land_spec, Z.bits_0. destruct (Z.ltb_spec n k).
  - by rewrite Z.mul_pow2_bits_low.
  - rewrite (testbit_above b k n) by done. apply andb_false_r.
Qed.

Lemma land_ones x m k : m = Z.ones k → 0 ≤ k → Z.land x m = x mod 2 ^ k.
Proof. intros -> Hk. by apply Z.land_ones. Qed.
