(* ===== verification/FmtParse.v ===== *)
(** * spdlog/fmt/bundled/base.h: the parser of format specifications

    The counter of arguments ([parse_context], and [compile_parse_context] of
    the check at compile time) and the parser of "[[fill]align][sign][#][0]
    [width][.precision][L][type]", whose width and precision may be references
    to other arguments. *)
From Stdlib Require Import Ascii.
From S2P Require Import Prelude Numerals FmtSpecs.

(** ** [parse_context]: the state is [next_arg_id_] *)

(** What [compile_parse_context] adds for the check at compile time. A format
    string that is parsed at run time has none. [use_constexpr_cast] is false
    for GCC before version 12. *)
Record compile_context := { num_args_ : Z; types_ : list arg_type; use_constexpr_cast : bool }.

Definition INT_MAX : Z := 2 ^ 31 - 1.

Definition do_check_arg_id (k : option compile_context) (arg_id : Z) : M Z unit :=
  match k with
  | Some c => if c.(use_constexpr_cast) && (c.(num_args_) <=? arg_id) then report_error "argument not found" else mret tt
  | None => mret tt
  end.

Definition next_arg_id (k : option compile_context) : M Z Z :=
  n ← get_state;
  if n <? 0 then report_error "cannot switch from manual to automatic argument indexing"
  else if n =? INT_MAX then crash (undefined_behaviour "signed overflow")
  else
    _ ← put_state (n + 1);
    _ ← do_check_arg_id k n;
    mret n.

Definition check_arg_id (k : option compile_context) (id : Z) : M Z unit :=
  n ← get_state;
  if 0 <? n then report_error "cannot switch from automatic to manual argument indexing"
  else
    _ ← put_state (-1);
    do_check_arg_id k id.

Definition check_arg_name (name : string) : M Z unit := put_state (-1).

(** The type of an argument whose number is below [num_args_]. *)
Definition type_at (c : compile_context) (id : Z) : arg_type := nth (Z.to_nat id) c.(types_) none_type.

Definition check_dynamic_spec (k : option compile_context) (arg_id : Z) : M Z unit :=
  match k with
  | Some c =>
      if c.(use_constexpr_cast) && (arg_id <? c.(num_args_)) && negb (is_integral_type (type_at c arg_id))
      then report_error "width/precision is not integer" else mret tt
  | None => mret tt
  end.

(** ** Numbers, names and alignments *)

Definition code_point_length {S} (begin : string) : M S Z :=
  c ← deref begin;
  mret (Z.land (Z.shiftr 0x3a55000000000000 (2 * Z.shiftr (code c) 3)) 3 + 1).

Definition is_digit (c : ascii) : bool := (code "0" <=? code c) && (code c <=? code "9").

(** The loop of [parse_nonnegative_int]: the rest, [prev], [value], the last
    digit and the number of digits. *)
Fixpoint digit_loop (p : string) (prev value last num_digits : Z) : string * Z * Z * Z * Z :=
  match p with
  | String c r =>
      if is_digit c then
        let d := code c - code "0" in
        digit_loop r value (w32 (value * 10 + d)) d (num_digits + 1)
      else (p, prev, value, last, num_digits)
  | EmptyString => (p, prev, value, last, num_digits)
  end.

(** [static_cast<int>] of an unsigned number *)
Definition to_int (v : Z) : Z := if v <=? INT_MAX then v else v - 2 ^ 32.

Definition digits10 : Z := 4 * 8 * 3 / 10.

Definition parse_nonnegative_int {S} (begin : string) (error_value : Z) : M S (Z * string) :=
  c ← deref begin;
  _ ← FMT_ASSERT (is_digit c);
  let '(p, prev, value, last, num_digits) := digit_loop begin 0 0 0 0 in
  if num_digits <=? digits10 then mret (to_int value, p)
  else mret (if (num_digits =? digits10 + 1) && (prev * 10 + last <=? INT_MAX) then to_int value else error_value, p).

Definition parse_align (c : ascii) : align :=
  if Ascii.eqb c "<" then align_left else if Ascii.eqb c ">" then align_right
  else if Ascii.eqb c "^" then align_center else align_none.

Definition is_name_start (c : ascii) : bool :=
  (code "a" <=? code c) && (code c <=? code "z") || (code "A" <=? code c) && (code c <=? code "Z") || Ascii.eqb c "_".

(** The end of a name. *)
Fixpoint name_end (p : string) : string :=
  match p with
  | String c r => if is_name_start c || is_digit c then name_end r else p
  | EmptyString => p
  end.

(** [parse_arg_id(begin, end, handler)]: what the handler's [on_index] or
    [on_name] gave, and the pointer after the number or name. *)
Definition parse_arg_id {S A} (on_index : Z → M S A) (on_name : string → M S A)
    (begin : string) : M S (A * string) :=
  c ← deref begin;
  if is_digit c then
    '(index, begin) ←
      (if negb (Ascii.eqb c "0") then parse_nonnegative_int begin INT_MAX
       else begin ← next begin; mret (0, begin));
    if match begin with
       | EmptyString => true
       | String d _ => negb (Ascii.eqb d "}") && negb (Ascii.eqb d ":")
       end
    then report_error "invalid format string"
    else a ← on_index index; mret (a, begin)
  else if negb (is_name_start c) then report_error "invalid format string"
  else
    it ← next begin;
    let it := name_end it in
    a ← on_name (text_range begin it);
    mret (a, it).

(** ** Width and precision *)

(** [dynamic_spec_handler] *)
Definition dynamic_on_index (k : option compile_context) (id : Z) : M Z (arg_ref * arg_id_kind) :=
  _ ← check_arg_id k id;
  _ ← check_dynamic_spec k id;
  mret (ref_index id, kind_index).
Definition dynamic_on_name (id : string) : M Z (arg_ref * arg_id_kind) :=
  _ ← check_arg_name id;
  mret (ref_name id, kind_name).

(** [parse_dynamic_spec(begin, end, value, ref, ctx)]: the new value and
    reference, the kind and the end. *)
Definition parse_dynamic_spec (k : option compile_context) (begin : string) (value : Z) (ref : arg_ref)
    : M Z (Z * arg_ref * arg_id_kind * string) :=
  c ← deref begin;
  if is_digit c then
    '(val, begin) ← parse_nonnegative_int begin (-1);
    if val =? -1 then report_error "number is too big" else mret (val, ref, kind_none, begin)
  else
    '(ref, kind, begin) ←
      (if Ascii.eqb c "{" then
         begin ← next begin;
         match begin with
         | EmptyString => mret (ref, kind_none, begin)
         | String c _ =>
             if Ascii.eqb c "}" || Ascii.eqb c ":" then
               id ← next_arg_id k;
               _ ← check_dynamic_spec k id;
               mret (ref_index id, kind_index, begin)
             else
               '(ref, kind, begin) ← parse_arg_id (dynamic_on_index k) dynamic_on_name begin;
               mret (ref, kind, begin)
         end
       else report_error "invalid format string");
    match begin with
    | String "}" r => mret (value, ref, kind, r)
    | _ => report_error "invalid format string"
    end.

Definition parse_width (k : option compile_context) (begin : string) (specs : format_specs)
    : M Z (string * format_specs) :=
  '(value, ref, kind, begin) ← parse_dynamic_spec k begin specs.(width) specs.(width_ref);
  mret (begin, set_dynamic_width kind (set_width value ref specs)).

Definition parse_precision (k : option compile_context) (begin : string) (specs : format_specs)
    : M Z (string * format_specs) :=
  begin ← next begin;
  if is_end begin then report_error "invalid precision"
  else
    '(value, ref, kind, begin) ← parse_dynamic_spec k begin specs.(precision) specs.(precision_ref);
    mret (begin, set_dynamic_precision kind (set_precision value ref specs)).

(** ** [parse_format_specs] *)

(** [state] *)
Definition state_start := 0.
Definition state_align := 1.
Definition state_sign := 2.
Definition state_hash := 3.
Definition state_zero := 4.
Definition state_width := 5.
Definition state_precision := 6.
Definition state_locale := 7.

Definition enter_state (current s : Z) (valid : bool) : M Z Z :=
  if (s <=? current) || negb valid then report_error "invalid format specifier" else mret s.

Definition parse_presentation_type (t : arg_type) (pres set : Z) (begin : string) (specs : format_specs)
    : M Z (string * format_specs) :=
  if negb (in_set t set) then report_error "invalid format specifier"
  else
    begin ← next begin;
    mret (begin, set_type pres specs).

(** The presentation types: the letter, whether its upper case is one too, the
    type, and the arguments that may have it. *)
Definition presentations : list (ascii * bool * Z * Z) :=
  [("d", false, pres_dec, integral_set); ("x", true, pres_hex, integral_set); ("o", false, pres_oct, integral_set);
   ("b", true, pres_bin, integral_set); ("e", true, pres_exp, float_set); ("f", true, pres_fixed, float_set);
   ("g", true, pres_general, float_set); ("a", true, pres_hexfloat, float_set); ("c", false, pres_chr, integral_set);
   ("s", false, pres_string, Z.lor (Z.lor bool_set string_set) cstring_set);
   ("p", false, pres_pointer, Z.lor pointer_set cstring_set);
   ("?", false, pres_debug, Z.lor (Z.lor char_set string_set) cstring_set)]%char.

Definition to_upper (c : ascii) : ascii := ascii_of_nat (nat_of_ascii c - 32).

Fixpoint presentation_of (c : ascii) (l : list (ascii * bool * Z * Z)) : option (bool * Z * Z) :=
  match l with
  | [] => None
  | (letter, has_upper, pres, set) :: l =>
      if Ascii.eqb c letter then Some (false, pres, set)
      else if has_upper && Ascii.eqb c (to_upper letter) then Some (true, pres, set)
      else presentation_of c l
  end.

(** What a round of the loop does: return, or go on. *)
Inductive round := Done (begin : string) (specs : format_specs) | More (begin : string) (specs : format_specs) (current : Z).

(** [default:] *)
Definition parse_fill (begin : string) (specs : format_specs) (current : Z) : M Z round :=
  c ← deref begin;
  if Ascii.eqb c "}" then mret (Done begin specs)
  else
    n ← code_point_length begin;
    if size begin <=? n then report_error "invalid format specifier"
    else if Ascii.eqb c "{" then report_error "invalid fill character '{'"
    else
      d ← deref (skip n begin);
      let alignment := parse_align d in
      current ← enter_state current state_align (negb (bool_decide (alignment = align_none)));
      begin' ← next (skip n begin);
      mret (More begin' (set_align alignment (set_fill (prefix_of n begin) specs)) current).

(** The [switch] on [c]. *)
Definition spec_step (k : option compile_context) (t : arg_type) (c : ascii) (begin : string) (specs : format_specs)
    (current : Z) : M Z round :=
  if one_of c "<>^" then
    current ← enter_state current state_align true;
    begin ← next begin;
    mret (More begin (set_align (parse_align c) specs) current)
  else if one_of c "+ -" then
    let specs := if Ascii.eqb c "-" then specs
                 else set_sign (if Ascii.eqb c " " then sign_space else sign_plus) specs in
    current ← enter_state current state_sign (in_set t (Z.lor sint_set float_set));
    begin ← next begin;
    mret (More begin specs current)
  else if Ascii.eqb c "#" then
    current ← enter_state current state_hash (is_arithmetic_type t);
    begin ← next begin;
    mret (More begin (set_alt specs) current)
  else if Ascii.eqb c "0" then
    current ← enter_state current state_zero true;
    if negb (is_arithmetic_type t) then report_error "format specifier requires numeric argument"
    else
      begin ← next begin;
      mret (More begin (if bool_decide (get_align specs = align_none)
                        then set_fill_char "0" (set_align align_numeric specs) else specs) current)
  else if one_of c "123456789{" then
    current ← enter_state current state_width true;
    '(begin, specs) ← parse_width k begin specs;
    mret (More begin specs current)
  else if Ascii.eqb c "." then
    current ← enter_state current state_precision (in_set t (Z.lor (Z.lor float_set string_set) cstring_set));
    '(begin, specs) ← parse_precision k begin specs;
    mret (More begin specs current)
  else if Ascii.eqb c "L" then
    current ← enter_state current state_locale (is_arithmetic_type t);
    begin ← next begin;
    mret (More begin (set_localized specs) current)
  else if Ascii.eqb c "c" && bool_decide (t = bool_type) then report_error "invalid format specifier"
  else match presentation_of c presentations with
       | Some (is_upper, pres, set) =>
           '(begin, specs) ← parse_presentation_type t pres set begin (if is_upper then set_upper specs else specs);
           mret (Done begin specs)
       | None => if Ascii.eqb c "}" then mret (Done begin specs) else parse_fill begin specs current
       end.

Fixpoint specs_loop (fuel : nat) (k : option compile_context) (t : arg_type) (c : ascii) (begin : string)
    (specs : format_specs) (current : Z) : M Z (string * format_specs) :=
  r ← spec_step k t c begin specs current;
  match r with
  | Done begin specs => mret (begin, specs)
  | More EmptyString specs _ => mret (EmptyString, specs)
  | More (String c r as begin) specs current =>
      match fuel with
      | O => crash (undefined_behaviour "out of fuel")
      | S fuel => specs_loop fuel k t c begin specs current
      end
  end.

Definition parse_format_specs (k : option compile_context) (begin : string) (specs : format_specs) (t : arg_type)
    : M Z (string * format_specs) :=
  match begin with
  | EmptyString => mret (begin, specs)
  | String first r =>
      let c := match r with
               | String second _ => if bool_decide (parse_align second = align_none) then first else "000"%char
               | EmptyString => first
               end in
      specs_loop (String.length begin) k t c begin specs state_start
  end.

Definition check_char_specs {S} (specs : format_specs) : M S bool :=
  let t := get_type specs in
  if negb (t =? pres_none) && negb (t =? pres_chr) && negb (t =? pres_debug) then mret false
  else if bool_decide (get_align specs = align_numeric) || negb (bool_decide (get_sign specs = sign_none)) || alt specs
  then report_error "invalid format specifier for char"
  else mret true.

(** ** One run against another

    [sim R E m1 m2]: from states related by [R], when [m1] returns, [m2]
    returns the same in a related state, or throws an exception of [E]. *)
Definition sim {S1 S2 A} (R : S1 → S2 → Prop) (E : exn → Prop) (m1 : M S1 A) (m2 : M S2 A) : Prop :=
  ∀ s1 s2 a s1', R s1 s2 → m1 s1 = (Ret a, s1') →
    match m2 s2 with
    | (Ret a', s2') => a' = a ∧ R s1' s2'
    | (Throw e, _) => E e
    | (Crash _, _) => False
    end.

Section sim_rules.
Context {S1 S2 : Type} (R : S1 → S2 → Prop) (E : exn → Prop).

Lemma sim_bind {A B} (m1 : M S1 A) (m2 : M S2 A) (k1 : A → M S1 B) (k2 : A → M S2 B) :
  sim R E m1 m2 → (∀ a, sim R E (k1 a) (k2 a)) → sim R E (m1 ≫= k1) (m2 ≫= k2).
Proof.
  intros Hm Hk s1 s2 b s1' HR. rewrite !bind_run. destruct (m1 s1) as [[a|e|f] t1] eqn:E1; [|done..].
  pose proof (Hm _ _ _ _ HR E1) as H. destruct (m2 s2) as [[a'|e|f] t2]; [|done..].
  destruct H as [-> HR']. by apply Hk.
Qed.

Lemma sim_ret {A} (a : A) : sim R E (mret a) (mret a).
Proof. by intros s1 s2 a' s1' HR [= <- <-]. Qed.

Lemma sim_throw {A} e (m2 : M S2 A) : sim R E (throw e) m2.
Proof. by intros s1 s2 a' s1' HR [=]. Qed.

Lemma sim_crash {A} f (m2 : M S2 A) : sim R E (crash f) m2.
Proof. by intros s1 s2 a' s1' HR [=]. Qed.

Lemma sim_deref p : sim R E (deref p) (deref p).
Proof. destruct p; [apply sim_crash|apply sim_ret]. Qed.

Lemma sim_next p : sim R E (next p) (next p).
Proof. destruct p; [apply sim_crash|apply sim_ret]. Qed.

Lemma sim_assert b : sim R E (FMT_ASSERT b) (FMT_ASSERT b).
Proof. destruct b; [apply sim_ret|apply sim_crash]. Qed.

End sim_rules.

Lemma sim_same {S A} (E : exn → Prop) (m : M S A) : sim eq E m m.
Proof. intros s1 s2 a s1' <- H. by rewrite H. Qed.

Create HintDb sim discriminated.
#[export] Hint Resolve sim_ret sim_throw sim_crash sim_deref sim_next sim_assert : sim.

(** Two computations of the same shape. *)
Ltac sim_step :=
  match goal with
  | |- sim _ _ (_ ≫= _) (_ ≫= _) => apply sim_bind; [|intros ?]
  | |- sim _ _ (let '(_, _) := ?x in _) _ => destruct x
  | |- sim _ _ (if ?b then _ else _) _ => destruct b eqn:?
  | |- sim _ _ (match ?x with _ => _ end) _ => destruct x eqn:?
  | |- _ => solve [auto with sim]
  | |- sim _ _ (report_error _) _ => apply sim_throw
  end.
Ltac sim_solve := repeat sim_step.

(** ** The check at compile time only throws more *)

Section compile_time.
Context (E : exn → Prop) (k : option compile_context).

Lemma sim_check_id id : sim eq E (check_arg_id k id) (check_arg_id None id).
Proof.
  unfold check_arg_id. apply sim_bind; [apply sim_same|]. intros n. destruct (0 <? n); [apply sim_throw|].
  apply sim_bind; [apply sim_same|]. intros _. unfold do_check_arg_id. sim_solve.
Qed.

Lemma sim_next_arg_id : sim eq E (next_arg_id k) (next_arg_id None).
Proof.
  unfold next_arg_id. apply sim_bind; [apply sim_same|]. intros n.
  destruct (n <? 0); [apply sim_throw|]. destruct (n =? INT_MAX); [apply sim_crash|].
  apply sim_bind; [apply sim_same|]. intros _. apply sim_bind; [|intros ?; apply sim_ret].
  unfold do_check_arg_id. sim_solve.
Qed.

Lemma sim_check_dynamic id : sim eq E (check_dynamic_spec k id) (check_dynamic_spec None id).
Proof. unfold check_dynamic_spec. sim_solve. Qed.

Lemma sim_parse_arg_id {A} on1 on2 name1 name2 begin :
  (∀ i, sim eq E (on1 i : M Z A) (on2 i)) → (∀ n, sim eq E (name1 n) (name2 n)) →
  sim eq E (parse_arg_id on1 name1 begin) (parse_arg_id on2 name2 begin).
Proof.
  intros Hi Hn. unfold parse_arg_id. apply sim_bind; [apply sim_same|]. intros c.
  destruct (is_digit c).
  - apply sim_bind; [apply sim_same|]. intros [i b]. destruct (match b with _ => _ end); [apply sim_throw|].
    apply sim_bind; [apply Hi|]. intros a. apply sim_ret.
  - destruct (negb _); [apply sim_throw|]. apply sim_bind; [apply sim_same|]. intros it.
    apply sim_bind; [apply Hn|]. intros a. apply sim_ret.
Qed.

Lemma sim_dynamic_spec begin v ref :
  sim eq E (parse_dynamic_spec k begin v ref) (parse_dynamic_spec None begin v ref).
Proof.
  unfold parse_dynamic_spec. apply sim_bind; [apply sim_same|]. intros c. destruct (is_digit c); [apply sim_same|].
  apply sim_bind; [|intros [[ref' kind] b]; apply sim_same].
  destruct (Ascii.eqb c "{"); [|apply sim_same]. apply sim_bind; [apply sim_same|]. intros [|d b]; [apply sim_ret|].
  destruct (_ || _).
  - apply sim_bind; [apply sim_next_arg_id|]. intros id. apply sim_bind; [apply sim_check_dynamic|]. intros _. apply sim_ret.
  - apply sim_bind; [|intros [[ref' kind] b']; apply sim_ret]. apply sim_parse_arg_id; [|intros; apply sim_same].
    intros i. unfold dynamic_on_index. apply sim_bind; [apply sim_check_id|]. intros _.
    apply sim_bind; [apply sim_check_dynamic|]. intros _. apply sim_ret.
Qed.

Lemma sim_spec_step t c begin specs cur :
  sim eq E (spec_step k t c begin specs cur) (spec_step None t c begin specs cur).
Proof.
  unfold spec_step, parse_width, parse_precision.
  destruct (one_of c "<>^"); [apply sim_same|]. destruct (one_of c "+ -"); [apply sim_same|].
  destruct (Ascii.eqb c "#"); [apply sim_same|]. destruct (Ascii.eqb c "0"); [apply sim_same|].
  destruct (one_of c _); [|destruct (Ascii.eqb c "."); [|apply sim_same]];
    (apply sim_bind; [apply sim_same|]; intros cur'; apply sim_bind; [|intros [b s]; apply sim_ret]).
  - apply sim_bind; [apply sim_dynamic_spec|]. intros [[[v r] kd] b]. apply sim_ret.
  - apply sim_bind; [apply sim_same|]. intros b. destruct (is_end b); [apply sim_throw|].
    apply sim_bind; [apply sim_dynamic_spec|]. intros [[[v r] kd] b']. apply sim_ret.
Qed.

Lemma sim_specs_loop fuel t c begin specs cur :
  sim eq E (specs_loop fuel k t c begin specs cur) (specs_loop fuel None t c begin specs cur).
Proof.
  revert c begin specs cur. induction fuel as [|fuel IH]; intros c begin specs cur; cbn [specs_loop];
    (apply sim_bind; [apply sim_spec_step|]); intros [b s|[|c' b] s cur']; try apply sim_ret; [apply sim_crash|apply IH].
Qed.

Lemma sim_parse_format_specs begin specs t :
  sim eq E (parse_format_specs k begin specs t) (parse_format_specs None begin specs t).
Proof. destruct begin; [apply sim_ret|]. apply sim_specs_loop. Qed.

End compile_time.

(** ** Numbers *)

(** The rest of the text after its digits. *)
Fixpoint digit_end (p : string) : string :=
  match p with
  | String c r => if is_digit c then digit_end r else p
  | EmptyString => p
  end.

Lemma size_cons c r : size (String c r) = size r + 1.
Proof. unfold size. cbn [String.length]. lia. Qed.

Lemma size_nonneg p : 0 ≤ size p.
Proof. unfold size. lia. Qed.

Lemma digit_end_size p : size (digit_end p) ≤ size p.
Proof.
  induction p as [|c p IH]; [done|]. cbn [digit_end]. destruct (is_digit c); [|done]. rewrite size_cons. lia.
Qed.

Lemma digit_value_code c : digit_value c = if is_digit c then Some (code c - code "0") else None.
Proof. done. Qed.

(** What the loop computes, [v] being the number read so far. *)
Lemma digit_loop_number p v n :
  0 ≤ v < 10 ^ n → 0 ≤ n →
  let v' := leading_number p v in
  let n' := n + (size p - size (digit_end p)) in
  digit_loop p (w32 (v / 10)) (w32 v) (v mod 10) n = (digit_end p, w32 (v' / 10), w32 v', v' mod 10, n') ∧
  0 ≤ v' < 10 ^ n'.
Proof.
  revert v n. induction p as [|c p IH]; intros v n Hv Hn; cbv zeta.
  { cbn. rewrite Z.add_0_r. done. }
  cbn [digit_loop leading_number digit_end]. rewrite digit_value_code. destruct (is_digit c) eqn:Ec.
  2:{ rewrite Z.sub_diag, Z.add_0_r. done. }
  unfold is_digit in Ec. rewrite andb_true_iff, !Z.leb_le in Ec. change (code "0") with 48 in *. change (code "9") with 57 in Ec.
  set (d := code c - 48). specialize (IH (10 * v + d) (n + 1)).
  assert (Hb : 0 ≤ 10 * v + d < 10 ^ (n + 1)) by (rewrite Z.pow_add_r by lia; subst d; lia).
  destruct (IH Hb ltac:(lia)) as [IH1 IH2]. rewrite size_cons.
  replace (n + (size p + 1 - size (digit_end p))) with (n + 1 + (size p - size (digit_end p))) by lia.
  split; [|done]. rewrite <- IH1. f_equal.
  - f_equal. rewrite Z.mul_comm, Z.div_add_l by lia. rewrite (Z.div_small d) by (subst d; lia). lia.
  - unfold w32. rewrite <- Zplus_mod_idemp_l, Zmult_mod_idemp_l, Zplus_mod_idemp_l. f_equal. lia.
  - rewrite Z.add_comm, (Z.mul_comm 10), Z.mod_add by lia. symmetry. apply Z.mod_small. subst d. lia.
Qed.

(** The number the text begins with, if it has at most ten digits and is an
    [int]; the error value otherwise. *)
Lemma parse_nonnegative_int_number {S} c p error_value (s : S) :
  is_digit c = true →
  let begin := String c p in
  let v := leading_number begin 0 in
  parse_nonnegative_int begin error_value s =
    (Ret (if (size begin - size (digit_end begin) <=? 10) && (v <=? INT_MAX) then v else error_value, digit_end begin), s)
  ∧ 0 ≤ v.
Proof.
  intros Hc begin v. destruct (digit_loop_number begin 0 0 ltac:(lia) ltac:(lia)) as [E Hv]. fold v in E, Hv.
  change (w32 (0 / 10)) with 0 in E. change (w32 0) with 0 in E. change (0 mod 10) with 0 in E. rewrite Z.add_0_l in E, Hv.
  split; [|lia]. unfold parse_nonnegative_int. subst begin. cbn [deref]. rewrite bind_run, ret_run.
  rewrite Hc. cbn [FMT_ASSERT]. rewrite bind_run, ret_run, E. change digits10 with 9. change (9 + 1) with 10.
  set (n := size (String c p) - _) in *. unfold to_int, INT_MAX in *.
  destruct (Z.leb_spec n 9).
  - assert (10 ^ n ≤ 10 ^ 9) by (apply Z.pow_le_mono_r; lia).
    rewrite w32_small, !(proj2 (Z.leb_le _ _)) by lia. done.
  - destruct (Z.eqb_spec n 10) as [Hn|Hn].
    + rewrite Hn, (proj2 (Z.leb_le 10 10)) by done. cbn [andb].
      rewrite (w32_small (v / 10)).
      2:{ split; [apply Z.div_pos; lia|]. apply Z.div_lt_upper_bound; [lia|]. rewrite Hn in Hv. lia. }
      replace (v / 10 * 10 + v mod 10) with v by (pose proof (Z.div_mod v 10); lia).
      destruct (Z.leb_spec v (2 ^ 31 - 1)); [|done]. rewrite w32_small, (proj2 (Z.leb_le _ _)) by lia. done.
    + cbn [andb]. rewrite (proj2 (Z.leb_gt n 10)) by lia. done.
Qed.

(** ** Parsing does not leave defined behaviour

    [n]: the counter of arguments. As every automatic number takes a character
    of the format string, it does not overflow when it and the length of the
    rest are together below [INT_MAX]. *)
Definition format_error (e : exn) : Prop := ∃ message, e = runtime_error message.

Definition suffix (b' b : string) : Prop := ∃ p, b = p +:+ b'.

Lemma suffix_refl b : suffix b b.
Proof. by exists EmptyString. Qed.

Lemma suffix_trans a b c : suffix a b → suffix b c → suffix a c.
Proof. intros [p ->] [q ->]. exists (q +:+ p). apply append_assoc. Qed.

Lemma suffix_cons c b' b : suffix b' b → suffix b' (String c b).
Proof. intros [p ->]. by exists (String c p). Qed.

Lemma suffix_next c b : suffix b (String c b).
Proof. apply suffix_cons, suffix_refl. Qed.

Lemma suffix_size b' b : suffix b' b → size b' ≤ size b.
Proof. intros [p ->]. unfold size. rewrite length_append. lia. Qed.

#[export] Hint Resolve suffix_refl suffix_cons suffix_next : specs.

(** A name follows an opening brace somewhere in the text. *)
Fixpoint has_name_ref (s : string) : bool :=
  match s with
  | EmptyString => false
  | String c r => (Ascii.eqb c "{" && match r with String d _ => is_name_start d | EmptyString => false end) || has_name_ref r
  end.

Lemma has_name_suffix b' b : suffix b' b → has_name_ref b' = true → has_name_ref b = true.
Proof.
  intros [p ->] H. induction p as [|c p IH]; [done|]. rewrite append_cons. cbn [has_name_ref]. rewrite IH. apply orb_true_r.
Qed.

Definition moves (b : string) (n : Z) (b' : string) (n' : Z) : Prop :=
  -1 ≤ n' ∧ suffix b' b ∧ n' + size b' ≤ n + size b.

(** [b] points into the format string [fmt]. *)
Definition room (fmt b : string) (n : Z) : Prop := -1 ≤ n ∧ n + size b ≤ INT_MAX ∧ suffix b fmt.

Lemma moves_refl fmt b n : room fmt b n → moves b n b n.
Proof. intros (? & ? & ?). split_and!; [done|apply suffix_refl|done]. Qed.

Lemma moves_next fmt c b n : room fmt (String c b) n → moves (String c b) n b n.
Proof. intros (? & ? & ?). split_and!; [done|apply suffix_next|]. rewrite size_cons. lia. Qed.

Lemma moves_trans b n b' n' b'' n'' : moves b n b' n' → moves b' n' b'' n'' → moves b n b'' n''.
Proof. intros (? & ? & ?) (? & ? & ?). split_and!; [done|by eapply suffix_trans|lia]. Qed.

Lemma moves_room fmt b n b' n' : room fmt b n → moves b n b' n' → room fmt b' n'.
Proof. intros (? & ? & ?) (? & ? & ?). split_and!; [done|lia|by eapply suffix_trans]. Qed.

Abbreviation wp_format m Q s := (wp m Q (λ e _, format_error e) s).

Lemma wp_report {S A} message (Q : A → S → Prop) s : wp_format (report_error message) Q s.
Proof. apply wp_throw. by eexists. Qed.

Lemma wp_next_char {S} c r (Q : string → S → Prop) E s : Q r s → wp (next (String c r)) Q E s.
Proof. done. Qed.

Lemma wp_deref_char {S} c r (Q : ascii → S → Prop) E s : Q c s → wp (deref (String c r)) Q E s.
Proof. done. Qed.

Lemma wp_call {S A} (m : M S A) (P Q : A → S → Prop) s :
  wp_format m P s → (∀ a s', P a s' → Q a s') → wp_format m Q s.
Proof. intros Hm HQ. eapply wp_mono; [exact Hm|exact HQ|done]. Qed.

Ltac wp_step :=
  match goal with
  | |- wp (_ ≫= _) _ _ _ => apply wp_bind
  | |- wp (mret _) _ _ _ => apply wp_ret
  | |- wp get_state _ _ _ => apply wp_get
  | |- wp (put_state _) _ _ _ => apply wp_put
  | |- wp (report_error _) _ _ _ => apply wp_report
  | |- wp (next (String _ _)) _ _ _ => apply wp_next_char
  | |- wp (deref (String _ _)) _ _ _ => apply wp_deref_char
  end.

Ltac wp_if := match goal with |- wp (if ?b then _ else _) _ _ _ => destruct b eqn:? end.

(** What a reference to another argument promises: with the check at compile
    time, an index is that of an argument of an integral type. *)
Definition index_ok (k : option compile_context) (i : Z) : Prop :=
  0 ≤ i ≤ INT_MAX ∧
  match k with
  | Some c => c.(use_constexpr_cast) = true → i < c.(num_args_) ∧ is_integral_type (type_at c i) = true
  | None => True
  end.

Definition ref_ok (k : option compile_context) (fmt : string) (kind : arg_id_kind) (ref : arg_ref) : Prop :=
  match kind, ref with
  | kind_none, _ => True
  | kind_index, ref_index i => index_ok k i
  | kind_name, ref_name _ => has_name_ref fmt = true
  | _, _ => False
  end.

(** The number of an argument that exists. *)
Definition below (k : option compile_context) (i : Z) : Prop :=
  0 ≤ i ≤ INT_MAX ∧
  match k with
  | Some c => c.(use_constexpr_cast) = true → i < c.(num_args_)
  | None => True
  end.

Section parsing.
Context (k : option compile_context).

Lemma wp_do_check i (Q : unit → Z → Prop) n :
  0 ≤ i ≤ INT_MAX → (below k i → Q tt n) → wp_format (do_check_arg_id k i) Q n.
Proof.
  intros Hi HQ. unfold do_check_arg_id, below in *. destruct k as [c|]; [|wp_step; by apply HQ].
  destruct (use_constexpr_cast c); cbn [andb]; [|wp_step; apply HQ; by split].
  destruct (Z.leb_spec (num_args_ c) i); wp_step. by apply HQ.
Qed.

Lemma wp_check_dynamic i (Q : unit → Z → Prop) n :
  below k i → (index_ok k i → Q tt n) → wp_format (check_dynamic_spec k i) Q n.
Proof.
  intros [Hi Hb] HQ. unfold check_dynamic_spec, index_ok in *. destruct k as [c|]; [|wp_step; by apply HQ].
  destruct (use_constexpr_cast c); cbn [andb]; [|wp_step; apply HQ; by split].
  rewrite (proj2 (Z.ltb_lt _ _)) by auto. cbn [andb]. destruct (is_integral_type _) eqn:Et; cbn [negb]; wp_step.
  apply HQ. auto.
Qed.

Lemma wp_next_arg_id n size_ :
  -1 ≤ n → n + size_ ≤ INT_MAX → 1 ≤ size_ → wp_format (next_arg_id k) (λ i n', below k i ∧ -1 ≤ n' ≤ n + 1) n.
Proof.
  intros Hn Hb Hs. unfold next_arg_id. wp_step. wp_step.
  destruct (Z.ltb_spec n 0); [wp_step|]. destruct (Z.eqb_spec n INT_MAX); [lia|].
  wp_step. wp_step. wp_step. apply wp_do_check; [unfold INT_MAX in *; lia|]. intros Hk. wp_step. split; [done|lia].
Qed.

Lemma wp_check_arg_id i n :
  0 ≤ i ≤ INT_MAX → wp_format (check_arg_id k i) (λ _ n', below k i ∧ n' = -1) n.
Proof.
  intros Hi. unfold check_arg_id. wp_step. wp_step. destruct (0 <? n); [wp_step|]. wp_step. wp_step.
  by apply wp_do_check.
Qed.

End parsing.

Lemma digit_end_suffix p : suffix (digit_end p) p.
Proof. induction p as [|c p IH]; [apply suffix_refl|]. cbn [digit_end]. destruct (is_digit c); auto with specs. Qed.

Lemma wp_parse_int {S} c p error_value (Q : Z * string → S → Prop) s :
  is_digit c = true →
  (∀ v b, v = error_value ∨ 0 ≤ v ≤ INT_MAX → suffix b p → Q (v, b) s) →
  wp_format (parse_nonnegative_int (String c p) error_value) Q s.
Proof.
  intros Hc HQ. destruct (parse_nonnegative_int_number c p error_value s Hc) as [E Hv].
  unfold wp. rewrite E. apply HQ.
  - destruct (_ && _) eqn:Hb; [right|by left]. apply andb_true_iff in Hb as [_ Hb%Z.leb_le]. lia.
  - cbn [digit_end]. rewrite Hc. apply digit_end_suffix.
Qed.

Lemma name_end_suffix p : suffix (name_end p) p.
Proof. induction p as [|c p IH]; [apply suffix_refl|]. cbn [name_end]. destruct (_ || _); auto with specs. Qed.

(** Numbers and names of arguments: the handler is called once, and something
    is read. *)
Lemma wp_parse_arg_id {S A} (on_index : Z → M S A) (on_name : string → M S A) c p (Q : A * string → S → Prop) s :
  (∀ i b, 0 ≤ i ≤ INT_MAX → suffix b p → wp_format (on_index i) (λ a s', Q (a, b) s') s) →
  (∀ name b, is_name_start c = true → suffix b p → wp_format (on_name name) (λ a s', Q (a, b) s') s) →
  wp_format (parse_arg_id on_index on_name (String c p)) Q s.
Proof.
  intros Hi Hn. unfold parse_arg_id. wp_step. wp_step. destruct (is_digit c) eqn:Ec.
  - wp_step. eapply (wp_call _ (λ r s', s' = s ∧ 0 ≤ r.1 ≤ INT_MAX ∧ suffix r.2 p)).
    + destruct (negb _).
      * apply wp_parse_int; [done|]. intros v b Hv Hb. cbn [fst snd]. unfold INT_MAX in *. split_and!; (done || lia).
      * wp_step. wp_step. wp_step. cbn [fst snd]. unfold INT_MAX. split_and!; (done || lia || apply suffix_refl).
    + intros [i b] s' (-> & Hi' & Hb). cbn in Hi', Hb. wp_if; [wp_step|].
      wp_step. eapply wp_call; [by apply Hi|]. intros a s'' Ha. by wp_step.
  - destruct (is_name_start c) eqn:Ens; cbn [negb]; [|wp_step]. wp_step. wp_step. wp_step.
    eapply wp_call; [apply Hn; [done|apply name_end_suffix]|].
    intros a s' Ha. by wp_step.
Qed.

(** ** Specifications *)

(** The presentation types an argument of type [t] may have. *)
Definition allowed_types (t : arg_type) : list Z :=
  pres_none :: map (λ '(_, _, pres, _), pres) (filter (λ '(_, _, _, set), in_set t set = true) presentations).

(** What the parser promises of its result. *)
Record specs_ok (k : option compile_context) (fmt : string) (s : format_specs) : Prop := {
  ok_width : 0 ≤ s.(width) ≤ INT_MAX;
  ok_precision : -1 ≤ s.(precision) ≤ INT_MAX;
  ok_width_ref : ref_ok k fmt (dynamic_width s) s.(width_ref);
  ok_precision_ref : ref_ok k fmt (dynamic_precision s) s.(precision_ref)
}.

(** A setter of something else keeps it. *)
Lemma specs_ok_same k fmt s s' :
  specs_ok k fmt s → s'.(width) = s.(width) → s'.(precision) = s.(precision) → s'.(width_ref) = s.(width_ref) →
  s'.(precision_ref) = s.(precision_ref) → dynamic_width s' = dynamic_width s →
  dynamic_precision s' = dynamic_precision s → specs_ok k fmt s'.
Proof. intros [H1 H2 H3 H4] E1 E2 E3 E4 E5 E6. split; by rewrite ?E1, ?E2, ?E3, ?E4, ?E5, ?E6. Qed.

Lemma specs_ok_new k fmt : specs_ok k fmt format_specs_new.
Proof. split; cbn; unfold INT_MAX; (lia || done). Qed.

(** Also that no presentation type is chosen yet. *)
Definition loop_ok (k : option compile_context) (fmt : string) (s : format_specs) : Prop := specs_ok k fmt s ∧ get_type s = pres_none.

Lemma loop_ok_same k fmt s s' :
  loop_ok k fmt s → s'.(width) = s.(width) → s'.(precision) = s.(precision) → s'.(width_ref) = s.(width_ref) →
  s'.(precision_ref) = s.(precision_ref) → dynamic_width s' = dynamic_width s →
  dynamic_precision s' = dynamic_precision s → get_type s' = get_type s → loop_ok k fmt s'.
Proof. intros [H Ht] E1 E2 E3 E4 E5 E6 E7. split; [by apply (specs_ok_same k fmt s)|congruence]. Qed.

Lemma loop_ok_align k fmt a s : loop_ok k fmt s → loop_ok k fmt (set_align a s).
Proof. intros H. apply (loop_ok_same k fmt s); [done..| | |]; by specs_simpl. Qed.

Lemma loop_ok_sign k fmt g s : loop_ok k fmt s → loop_ok k fmt (set_sign g s).
Proof. intros H. apply (loop_ok_same k fmt s); [done..| | |]; by specs_simpl. Qed.

Lemma loop_ok_alt k fmt s : loop_ok k fmt s → loop_ok k fmt (set_alt s).
Proof. intros H. apply (loop_ok_same k fmt s); [done..| | |]; by specs_simpl. Qed.

Lemma loop_ok_upper k fmt s : loop_ok k fmt s → loop_ok k fmt (set_upper s).
Proof. intros H. apply (loop_ok_same k fmt s); [done..| | |]; by specs_simpl. Qed.

Lemma loop_ok_localized k fmt s : loop_ok k fmt s → loop_ok k fmt (set_localized s).
Proof. intros H. apply (loop_ok_same k fmt s); [done..| | |]; by specs_simpl. Qed.

Lemma loop_ok_fill_size k fmt n s : 0 ≤ n < 8 → loop_ok k fmt s → loop_ok k fmt (set_fill_size n s).
Proof. intros Hn H. apply (loop_ok_same k fmt s); [done..| | |]; by specs_simpl. Qed.

Lemma loop_ok_fill_data k fmt d s : loop_ok k fmt s → loop_ok k fmt (set_fill_data d s).
Proof. intros H. by apply (loop_ok_same k fmt s). Qed.

Lemma loop_ok_fill_char k fmt c s : loop_ok k fmt s → loop_ok k fmt (set_fill_char c s).
Proof. intros H. unfold set_fill_char. apply loop_ok_fill_size; [lia|]. by apply loop_ok_fill_data. Qed.

Lemma loop_ok_fill k fmt f s : size f < 8 → loop_ok k fmt s → loop_ok k fmt (set_fill f s).
Proof.
  intros Hf H. unfold set_fill. assert (Hs : loop_ok k fmt (set_fill_size (size f) s)).
  { apply loop_ok_fill_size; [pose proof (size_nonneg f); lia|done]. }
  destruct f as [|c [|d f]]; by apply loop_ok_fill_data.
Qed.

Lemma loop_ok_width k fmt v r kd s :
  loop_ok k fmt s → 0 ≤ v ≤ INT_MAX → ref_ok k fmt kd r → loop_ok k fmt (set_dynamic_width kd (set_width v r s)).
Proof.
  intros [[H1 H2 H3 H4] Ht] Hv Hr. split; [split|]; [done..|by specs_simpl| |]; by specs_simpl.
Qed.

Lemma loop_ok_precision k fmt v r kd s :
  loop_ok k fmt s → -1 ≤ v ≤ INT_MAX → ref_ok k fmt kd r → loop_ok k fmt (set_dynamic_precision kd (set_precision v r s)).
Proof.
  intros [[H1 H2 H3 H4] Ht] Hv Hr. split; [split|]; [done..| |by specs_simpl|]; by specs_simpl.
Qed.

#[export] Hint Resolve loop_ok_align loop_ok_sign loop_ok_alt loop_ok_upper loop_ok_localized loop_ok_fill_char : specs.

Lemma size_prefix n p : size (prefix_of n p) ≤ Z.max 0 n.
Proof.
  unfold prefix_of, size. enough (String.length (take_chars (Z.to_nat n) p) ≤ Z.to_nat n)%nat by lia.
  generalize (Z.to_nat n). induction p as [|c p IH]; intros [|m]; cbn; [lia..|]. specialize (IH m). lia.
Qed.

Lemma skip_size n p : 0 ≤ n < size p → ∃ c r, skip n p = String c r ∧ size r = size p - n - 1 ∧ suffix r p.
Proof.
  unfold skip, size. intros Hn. assert (Hm : (Z.to_nat n < String.length p)%nat) by lia.
  set (m := Z.to_nat n) in *. replace n with (Z.of_nat m) by lia. clearbody m. clear n Hn.
  revert m Hm. induction p as [|c p IH]; intros [|m]; cbn; [lia..| |].
  - intros _. eexists _, _. split_and!; [done|lia|apply suffix_next].
  - intros Hm. destruct (IH m ltac:(lia)) as (d & r & -> & Hr & ?). exists d, r. split_and!; [done|lia|auto with specs].
Qed.

Section specs_parsing.
Context (k : option compile_context) (fmt : string) (t : arg_type).

(** A width or precision: a number, or a reference; [error] is a value that
    the old one may have. *)
Definition dynamic_ok (value : Z) (b : string) (n : Z) : Z * arg_ref * arg_id_kind * string → Z → Prop :=
  λ '(v, r, kd, b') n', (v = value ∨ 0 ≤ v ≤ INT_MAX) ∧ ref_ok k fmt kd r ∧ moves b n b' n' ∧ size b' < size b.

(** The end of a reference, [b'] being what is left of [b]. *)
Lemma wp_dynamic_end value b n r kd b' n' :
  ref_ok k fmt kd r → moves b n b' n' → size b' < size b →
  wp_format (match b' with String "}" r0 => mret (value, r, kd, r0) | _ => report_error "invalid format string" end)
    (dynamic_ok value b n) n'.
Proof.
  intros Hk (? & ? & ?) Hs. repeat match goal with |- context [match ?x with _ => _ end] => destruct x end;
    try wp_step. rewrite size_cons in *. unfold dynamic_ok, moves.
  split_and!; [by left|done|done|eapply suffix_trans; [apply suffix_next|done]|lia..].
Qed.

Lemma wp_dynamic_ref b value ref n :
  room fmt (String "{" b) n →
  wp_format (parse_dynamic_spec k (String "{" b) value ref) (dynamic_ok value (String "{" b) n) n.
Proof.
  intros Hr. unfold parse_dynamic_spec. wp_step. wp_step. change (is_digit "{") with false. cbv beta iota.
  change (Ascii.eqb "{" "{") with true. cbv beta iota. wp_step. wp_step. wp_step.
  pose proof (moves_next _ _ _ _ Hr) as Hm. pose proof (size_cons "{" b) as Hsz. destruct b as [|c b].
  { wp_step. apply (wp_dynamic_end value _ n ref kind_none EmptyString n); [done|done|rewrite Hsz; lia]. }
  pose proof (size_cons c b) as Hsz'. pose proof (size_nonneg b). destruct Hr as (Hn & Hr & Hfmt).
  assert (Hmoves : ∀ b' n', suffix b' b → -1 ≤ n' ≤ n → moves (String "{" (String c b)) n b' n' ∧ size b' < size (String "{" (String c b))).
  { intros b' n' Hb Hn'. pose proof (suffix_size _ _ Hb). split; [split_and!|]; [lia|auto with specs|lia..]. }
  destruct (_ || _).
  - wp_step. eapply wp_call; [apply (wp_next_arg_id k n (size (String c b))); lia|]. intros i n' [Hi Hn']. wp_step.
    apply wp_check_dynamic; [done|]. intros Hk. wp_step.
    apply (wp_dynamic_end value _ n (ref_index i) kind_index (String c b) n'); [done|split_and!|]; [lia|apply suffix_next|lia..].
  - wp_step. apply wp_parse_arg_id.
    + intros i b' Hi Hb'. unfold dynamic_on_index. wp_step. eapply wp_call; [by apply wp_check_arg_id|].
      intros _ n' [Hk ->]. wp_step. apply wp_check_dynamic; [done|]. intros Hk'. wp_step. wp_step.
      destruct (Hmoves b' (-1) Hb' ltac:(lia)). by apply wp_dynamic_end.
    + intros name b' Hc Hb'. unfold dynamic_on_name, check_arg_name. wp_step. wp_step. wp_step. wp_step.
      destruct (Hmoves b' (-1) Hb' ltac:(lia)). apply wp_dynamic_end; [|done..].
      cbn [ref_ok]. apply (has_name_suffix _ _ Hfmt). cbn [has_name_ref]. by rewrite Hc.
Qed.

Lemma wp_dynamic_spec c b value ref n :
  room fmt (String c b) n → wp_format (parse_dynamic_spec k (String c b) value ref) (dynamic_ok value (String c b) n) n.
Proof.
  intros Hr. destruct (is_digit c) eqn:Ed.
  - unfold parse_dynamic_spec. wp_step. wp_step. rewrite Ed. wp_step. apply wp_parse_int; [done|].
    intros v b' Hv Hb. pose proof (suffix_size _ _ Hb). destruct Hr as (Hn & Hr & Hfmt).
    pose proof (size_cons c b) as Hsz. destruct (Z.eqb_spec v (-1)); [wp_step|].
    wp_step. unfold dynamic_ok, moves. split_and!; [right; lia|done|lia|auto with specs|lia..].
  - destruct (Ascii.eqb_spec c "{") as [->|Hc]; [by apply wp_dynamic_ref|].
    unfold parse_dynamic_spec. wp_step. wp_step. rewrite Ed. wp_step. rewrite (proj2 (Ascii.eqb_neq c "{") Hc). wp_step.
Qed.

(** What a round leaves behind. *)
Definition round_ok (b : string) (n : Z) (r : round) (n' : Z) : Prop :=
  match r with
  | Done b' s => specs_ok k fmt s ∧ get_type s ∈ allowed_types t ∧ moves b n b' n'
  | More b' s _ => loop_ok k fmt s ∧ moves b n b' n' ∧ size b' < size b
  end.

Lemma wp_enter_state cur st valid (Q : Z → Z → Prop) n : Q st n → wp_format (enter_state cur st valid) Q n.
Proof. intros HQ. unfold enter_state. wp_if; by wp_step. Qed.

(** A round that reads one character. *)
Lemma round_next c b n s cur : room fmt (String c b) n → loop_ok k fmt s → round_ok (String c b) n (More b s cur) n.
Proof.
  intros Hr Hs. pose proof (moves_next _ _ _ _ Hr). cbn [round_ok]. rewrite size_cons. split_and!; [done..|lia].
Qed.

Lemma wp_width c b s cur n :
  room fmt (String c b) n → loop_ok k fmt s →
  wp_format ('(begin, specs) ← parse_width k (String c b) s; mret (More begin specs cur)) (round_ok (String c b) n) n.
Proof.
  intros Hr Hs. wp_step. unfold parse_width. wp_step. eapply wp_call; [by apply wp_dynamic_spec|].
  intros [[[v r] kd] b'] n' (Hv & Hk & Hm & Hsz). wp_step. wp_step. split_and!; [|done..].
  apply loop_ok_width; [done| |done]. destruct Hv as [->|?]; [apply Hs|done].
Qed.

Lemma wp_precision c b s cur n :
  room fmt (String c b) n → loop_ok k fmt s →
  wp_format ('(begin, specs) ← parse_precision k (String c b) s; mret (More begin specs cur)) (round_ok (String c b) n) n.
Proof.
  intros Hr Hs. pose proof (moves_next _ _ _ _ Hr) as Hm. pose proof (moves_room _ _ _ _ _ Hr Hm) as Hr'.
  wp_step. unfold parse_precision. wp_step. wp_step. destruct b as [|d b]; [apply wp_report|].
  change (is_end (String d b)) with false. cbv beta iota. wp_step.
  eapply wp_call; [by apply wp_dynamic_spec|].
  intros [[[v r] kd] b'] n' (Hv & Hk & Hm' & Hsz). wp_step. wp_step. cbn [round_ok]. rewrite (size_cons c). split_and!.
  - apply loop_ok_precision; [done| |done]. destruct Hv as [->|?]; [apply Hs|lia].
  - by eapply moves_trans.
  - lia.
Qed.

Lemma wp_presentation c b s is_upper pres set n :
  room fmt (String c b) n → loop_ok k fmt s → presentation_of c presentations = Some (is_upper, pres, set) →
  wp_format ('(begin, specs) ← parse_presentation_type t pres set (String c b) (if is_upper then set_upper s else s);
             mret (Done begin specs)) (round_ok (String c b) n) n.
Proof.
  intros Hr Hs Hp. pose proof (moves_next _ _ _ _ Hr) as Hm.
  assert (Hin : ∃ l u, (l, u, pres, set) ∈ presentations ∧ 0 ≤ pres < 8).
  { clear -Hp. revert Hp. unfold presentations. cbn [presentation_of].
    repeat (case_match; [intros [= <- <- <-]; eexists _, _; split; [|done];
      repeat first [apply list_elem_of_here | apply list_elem_of_further]|]). done. }
  destruct Hin as (l & u & Hin & Hrange). wp_step. unfold parse_presentation_type.
  destruct (in_set t set) eqn:Et; cbn [negb]; [|wp_step]. wp_step. wp_step. wp_step. wp_step.
  assert (Hs' : loop_ok k fmt (if is_upper then set_upper s else s)) by (destruct is_upper; auto with specs).
  destruct Hs' as [Hs' _]. cbn [round_ok]. split_and!; [| |done].
  - apply (specs_ok_same k fmt _ _ Hs'); [done..| |]; by specs_simpl.
  - replace (get_type _) with pres by (symmetry; specs_simpl; done).
    apply list_elem_of_further. apply list_elem_of_fmap. exists (l, u, pres, set). split; [done|].
    by apply list_elem_of_filter.
Qed.

Lemma wp_fill c b s cur n :
  room fmt (String c b) n → loop_ok k fmt s → wp_format (parse_fill (String c b) s cur) (round_ok (String c b) n) n.
Proof.
  intros Hr Hs. unfold parse_fill. wp_step. wp_step. destruct (Ascii.eqb c "}").
  { wp_step. destruct Hs as [Hs Ht]. split_and!; [done|rewrite Ht; apply list_elem_of_here|by eapply moves_refl]. }
  wp_step. unfold code_point_length. wp_step. wp_step. wp_step.
  set (m := Z.land _ 3 + 1).
  assert (Hm : 1 ≤ m ≤ 4).
  { subst m. generalize (Z.shiftr 0x3a55000000000000 (2 * Z.shiftr (code c) 3)). intros x.
    change 3 with (Z.ones 2). rewrite Z.land_ones by lia. pose proof (Z.mod_pos_bound x (2 ^ 2) ltac:(lia)). lia. }
  destruct (Z.leb_spec (size (String c b)) m) as [|Hsz]; [wp_step|]. destruct (Ascii.eqb c "{"); [wp_step|].
  destruct (skip_size m (String c b) ltac:(lia)) as (d & r & Hd & Hsz' & Hsuf). rewrite Hd. wp_step. wp_step. wp_step.
  apply wp_enter_state. wp_step. wp_step. wp_step. cbn [round_ok]. destruct Hr as (Hn & Hr & Hfmt). split_and!.
  - apply loop_ok_align, loop_ok_fill; [|done]. pose proof (size_prefix m (String c b)). lia.
  - split_and!; [lia|done|lia].
  - lia.
Qed.

Lemma wp_spec_step c' c b s cur n :
  room fmt (String c b) n → loop_ok k fmt s → (c' = c ∨ c' = "000"%char) →
  wp_format (spec_step k t c' (String c b) s cur) (round_ok (String c b) n) n.
Proof.
  intros Hr Hs Hc. unfold spec_step. destruct (one_of c' "<>^").
  { wp_step. apply wp_enter_state. wp_step. wp_step. wp_step. apply round_next; auto with specs. }
  destruct (one_of c' "+ -").
  { wp_step. apply wp_enter_state. wp_step. wp_step. wp_step. apply round_next; [done|].
    destruct (Ascii.eqb c' "-"); auto with specs. }
  destruct (Ascii.eqb c' "#").
  { wp_step. apply wp_enter_state. wp_step. wp_step. wp_step. apply round_next; auto with specs. }
  destruct (Ascii.eqb c' "0").
  { wp_step. apply wp_enter_state. wp_if; [wp_step|]. wp_step. wp_step. wp_step. apply round_next; [done|].
    destruct (bool_decide _); auto with specs. }
  destruct (one_of c' "123456789{"); [wp_step; apply wp_enter_state; by apply wp_width|].
  destruct (Ascii.eqb c' "."); [wp_step; apply wp_enter_state; by apply wp_precision|].
  destruct (Ascii.eqb c' "L").
  { wp_step. apply wp_enter_state. wp_step. wp_step. wp_step. apply round_next; auto with specs. }
  destruct (_ && _); [wp_step|].
  destruct (presentation_of c' presentations) as [[[u p] set]|] eqn:Hp.
  - destruct Hc as [->| ->]; [by eapply wp_presentation|done].
  - destruct (Ascii.eqb c' "}"); [|by apply wp_fill]. wp_step. destruct Hs as [Hs Ht].
    split_and!; [done|rewrite Ht; apply list_elem_of_here|by eapply moves_refl].
Qed.

(** The parser returns specifications the writers accept, or throws a format
    error; the rounds are at most as many as the characters. *)
Definition parsed_ok (b : string) (n : Z) : string * format_specs → Z → Prop :=
  λ '(b', s) n', specs_ok k fmt s ∧ get_type s ∈ allowed_types t ∧ moves b n b' n'.

Lemma wp_specs_loop fuel c' c b s cur n :
  room fmt (String c b) n → loop_ok k fmt s → (c' = c ∨ c' = "000"%char) → (String.length b < fuel)%nat →
  wp_format (specs_loop fuel k t c' (String c b) s cur) (parsed_ok (String c b) n) n.
Proof.
  revert c' c b s cur n. induction fuel as [|fuel IH]; intros c' c b s cur n Hr Hs Hc Hf; [lia|].
  cbn [specs_loop]. wp_step. eapply wp_call; [by apply wp_spec_step|]. intros [b' s'|b' s' cur'] n'; cbn [round_ok].
  { intros ?. by apply wp_ret. }
  intros (Hs' & Hm & Hsz). destruct b' as [|d b'].
  { apply wp_ret. destruct Hs' as [Hs' Ht]. split_and!; [done|rewrite Ht; apply list_elem_of_here|done]. }
  eapply wp_call; [apply IH; [by eapply moves_room|done|by left|]|].
  - unfold size in Hsz. cbn [String.length] in Hsz. lia.
  - intros [b'' s''] n'' (? & ? & ?). split_and!; [done..|]. by eapply moves_trans.
Qed.

Lemma wp_parse_format_specs b n :
  room fmt b n → wp_format (parse_format_specs k b format_specs_new t) (parsed_ok b n) n.
Proof.
  intros Hr. assert (Hs : loop_ok k fmt format_specs_new) by (split; [apply specs_ok_new|done]).
  destruct b as [|c b].
  - apply wp_ret. destruct Hs as [Hs Ht]. split_and!; [done|rewrite Ht; apply list_elem_of_here|by eapply moves_refl].
  - apply wp_specs_loop; [done|done| |cbn [String.length]; lia].
    destruct b as [|d b]; [by left|]. destruct (bool_decide _); [by left|by right].
Qed.

End specs_parsing.
