(* ===== verification/FmtUnicode.v ===== *)
(** * spdlog/fmt/bundled: code points, their width and which are escaped

    [utf8_decode], [for_each_codepoint] and [display_width_of] of format.h and
    [is_printable] of format-inl.h with its tables. The decoder is the inverse
    of UTF-8's encoding, and accepts nothing else. *)
From Stdlib Require Import Ascii.
From S2P Require Import Prelude FmtSpecs.

(** ** UTF-8 *)

(** [uchar(s[i])]; the decoder reads four characters, and zeros follow the text. *)
Fixpoint byte_at (i : nat) (s : string) : Z :=
  match i, s with
  | _, EmptyString => 0
  | O, String c _ => code c
  | S i, String _ r => byte_at i r
  end.

Definition utf8_lengths : list Z :=
  [1; 1; 1; 1; 1; 1; 1; 1; 1; 1; 1; 1; 1; 1; 1; 1; 0; 0; 0; 0; 0; 0; 0; 0; 2; 2; 2; 2; 3; 3; 4; 0].
Definition masks : list Z := [0x00; 0x7f; 0x1f; 0x0f; 0x07].
Definition mins : list Z := [4194304; 0; 128; 2048; 65536].
Definition shiftc : list Z := [0; 18; 12; 6; 0].
Definition shifte : list Z := [0; 6; 4; 2; 0].

Definition at_row (l : list Z) (i : Z) : Z := nth (Z.to_nat i) l 0.

(** [utf8_decode(s, c, e)]: how far the next character is, the code point and
    the error. *)
Definition utf8_decode (s : string) : Z * Z * Z :=
  let s0 := byte_at 0 s in let s1 := byte_at 1 s in let s2 := byte_at 2 s in let s3 := byte_at 3 s in
  let len := at_row utf8_lengths (Z.shiftr s0 3) in
  let next := len + (if len =? 0 then 1 else 0) in
  let c := Z.shiftl (Z.land s0 (at_row masks len)) 18 in
  let c := Z.lor c (Z.shiftl (Z.land s1 0x3f) 12) in
  let c := Z.lor c (Z.shiftl (Z.land s2 0x3f) 6) in
  let c := Z.lor c (Z.land s3 0x3f) in
  let c := Z.shiftr c (at_row shiftc len) in
  let e := Z.shiftl (if c <? at_row mins len then 1 else 0) 6 in
  let e := Z.lor e (Z.shiftl (if Z.shiftr c 11 =? 0x1b then 1 else 0) 7) in
  let e := Z.lor e (Z.shiftl (if 0x10FFFF <? c then 1 else 0) 8) in
  let e := Z.lor e (Z.shiftr (Z.land s1 0xc0) 2) in
  let e := Z.lor e (Z.shiftr (Z.land s2 0xc0) 4) in
  let e := Z.lor e (Z.shiftr s3 6) in
  let e := Z.lxor e 0x2a in
  let e := Z.shiftr e (at_row shifte len) in
  (next, c, e).

Definition invalid_code_point : Z := 2 ^ 32 - 1.

(** [for_each_codepoint(s, f)]: [f] is given the code point, the pointer to its
    characters and their number, and says whether to go on; its captures are
    the accumulator. The last characters are read from a copy followed by
    zeros. [fuel]: the length of the text. *)
Fixpoint for_each_codepoint {A} (fuel : nat) (s : string) (f : Z → string → Z → A → A * bool) (a : A) : A :=
  match fuel, s with
  | S fuel, String _ _ =>
      let '(next, c, e) := utf8_decode s in
      let error := negb (e =? 0) in
      let n := if error then 1 else next in
      let '(a, result) := f (if error then invalid_code_point else c) s n a in
      if result then for_each_codepoint fuel (skip n s) f a else a
  | _, _ => a
  end.

(** Columns of a terminal. *)
Definition within (cp lo hi : Z) : bool := (lo <=? cp) && (cp <=? hi).

Definition display_width_of (cp : Z) : Z :=
  1 + (if (0x1100 <=? cp) &&
          ((cp <=? 0x115f) || (cp =? 0x2329) || (cp =? 0x232a) ||
           (within cp 0x2e80 0xa4cf && negb (cp =? 0x303f)) ||
           within cp 0xac00 0xd7a3 || within cp 0xf900 0xfaff || within cp 0xfe10 0xfe19 ||
           within cp 0xfe30 0xfe6f || within cp 0xff00 0xff60 || within cp 0xffe0 0xffe6 ||
           within cp 0x20000 0x2fffd || within cp 0x30000 0x3fffd || within cp 0x1f300 0x1f64f ||
           within cp 0x1f900 0x1f9ff)
       then 1 else 0).

(** ** Printable code points *)

Definition singletons0 : list (Z * Z) :=
  [(0x00, 1); (0x03, 5); (0x05, 6); (0x06, 3); (0x07, 6); (0x08, 8); (0x09, 17); (0x0a, 28); (0x0b, 25);
   (0x0c, 20); (0x0d, 16); (0x0e, 13); (0x0f, 4); (0x10, 3); (0x12, 18); (0x13, 9); (0x16, 1); (0x17, 5);
   (0x18, 2); (0x19, 3); (0x1a, 7); (0x1c, 2); (0x1d, 1); (0x1f, 22); (0x20, 3); (0x2b, 3); (0x2c, 2);
   (0x2d, 11); (0x2e, 1); (0x30, 3); (0x31, 2); (0x32, 1); (0xa7, 2); (0xa9, 2); (0xaa, 4); (0xab, 8);
   (0xfa, 2); (0xfb, 5); (0xfd, 4); (0xfe, 3); (0xff, 9)].

Definition singletons0_lower : list Z :=
  [0xad; 0x78; 0x79; 0x8b; 0x8d; 0xa2; 0x30; 0x57; 0x58; 0x8b; 0x8c; 0x90; 0x1c; 0x1d; 0xdd; 0x0e; 0x0f; 0x4b;
   0x4c; 0xfb; 0xfc; 0x2e; 0x2f; 0x3f; 0x5c; 0x5d; 0x5f; 0xb5; 0xe2; 0x84; 0x8d; 0x8e; 0x91; 0x92; 0xa9; 0xb1;
   0xba; 0xbb; 0xc5; 0xc6; 0xc9; 0xca; 0xde; 0xe4; 0xe5; 0xff; 0x00; 0x04; 0x11; 0x12; 0x29; 0x31; 0x34; 0x37;
   0x3a; 0x3b; 0x3d; 0x49; 0x4a; 0x5d; 0x84; 0x8e; 0x92; 0xa9; 0xb1; 0xb4; 0xba; 0xbb; 0xc6; 0xca; 0xce; 0xcf;
   0xe4; 0xe5; 0x00; 0x04; 0x0d; 0x0e; 0x11; 0x12; 0x29; 0x31; 0x34; 0x3a; 0x3b; 0x45; 0x46; 0x49; 0x4a; 0x5e;
   0x64; 0x65; 0x84; 0x91; 0x9b; 0x9d; 0xc9; 0xce; 0xcf; 0x0d; 0x11; 0x29; 0x45; 0x49; 0x57; 0x64; 0x65; 0x8d;
   0x91; 0xa9; 0xb4; 0xba; 0xbb; 0xc5; 0xc9; 0xdf; 0xe4; 0xe5; 0xf0; 0x0d; 0x11; 0x45; 0x49; 0x64; 0x65; 0x80;
   0x84; 0xb2; 0xbc; 0xbe; 0xbf; 0xd5; 0xd7; 0xf0; 0xf1; 0x83; 0x85; 0x8b; 0xa4; 0xa6; 0xbe; 0xbf; 0xc5; 0xc7;
   0xce; 0xcf; 0xda; 0xdb; 0x48; 0x98; 0xbd; 0xcd; 0xc6; 0xce; 0xcf; 0x49; 0x4e; 0x4f; 0x57; 0x59; 0x5e; 0x5f;
   0x89; 0x8e; 0x8f; 0xb1; 0xb6; 0xb7; 0xbf; 0xc1; 0xc6; 0xc7; 0xd7; 0x11; 0x16; 0x17; 0x5b; 0x5c; 0xf6; 0xf7;
   0xfe; 0xff; 0x80; 0x0d; 0x6d; 0x71; 0xde; 0xdf; 0x0e; 0x0f; 0x1f; 0x6e; 0x6f; 0x1c; 0x1d; 0x5f; 0x7d; 0x7e;
   0xae; 0xaf; 0xbb; 0xbc; 0xfa; 0x16; 0x17; 0x1e; 0x1f; 0x46; 0x47; 0x4e; 0x4f; 0x58; 0x5a; 0x5c; 0x5e; 0x7e;
   0x7f; 0xb5; 0xc5; 0xd4; 0xd5; 0xdc; 0xf0; 0xf1; 0xf5; 0x72; 0x73; 0x8f; 0x74; 0x75; 0x96; 0x2f; 0x5f; 0x26;
   0x2e; 0x2f; 0xa7; 0xaf; 0xb7; 0xbf; 0xc7; 0xcf; 0xd7; 0xdf; 0x9a; 0x40; 0x97; 0x98; 0x30; 0x8f; 0x1f; 0xc0;
   0xc1; 0xce; 0xff; 0x4e; 0x4f; 0x5a; 0x5b; 0x07; 0x08; 0x0f; 0x10; 0x27; 0x2f; 0xee; 0xef; 0x6e; 0x6f; 0x37;
   0x3d; 0x3f; 0x42; 0x45; 0x90; 0x91; 0xfe; 0xff; 0x53; 0x67; 0x75; 0xc8; 0xc9; 0xd0; 0xd1; 0xd8; 0xd9; 0xe7;
   0xfe; 0xff].

Definition singletons1 : list (Z * Z) :=
  [(0x00, 6); (0x01, 1); (0x03, 1); (0x04, 2); (0x08, 8); (0x09, 2); (0x0a, 5); (0x0b, 2); (0x0e, 4);
   (0x10, 1); (0x11, 2); (0x12, 5); (0x13, 17); (0x14, 1); (0x15, 2); (0x17, 2); (0x19, 13); (0x1c, 5);
   (0x1d, 8); (0x24, 1); (0x6a, 3); (0x6b, 2); (0xbc, 2); (0xd1, 2); (0xd4, 12); (0xd5, 9); (0xd6, 2);
   (0xd7, 2); (0xda, 1); (0xe0, 5); (0xe1, 2); (0xe8, 2); (0xee, 32); (0xf0, 4); (0xf8, 2); (0xf9, 2);
   (0xfa, 2); (0xfb, 1)].

Definition singletons1_lower : list Z :=
  [0x0c; 0x27; 0x3b; 0x3e; 0x4e; 0x4f; 0x8f; 0x9e; 0x9e; 0x9f; 0x06; 0x07; 0x09; 0x36; 0x3d; 0x3e; 0x56; 0xf3;
   0xd0; 0xd1; 0x04; 0x14; 0x18; 0x36; 0x37; 0x56; 0x57; 0x7f; 0xaa; 0xae; 0xaf; 0xbd; 0x35; 0xe0; 0x12; 0x87;
   0x89; 0x8e; 0x9e; 0x04; 0x0d; 0x0e; 0x11; 0x12; 0x29; 0x31; 0x34; 0x3a; 0x45; 0x46; 0x49; 0x4a; 0x4e; 0x4f;
   0x64; 0x65; 0x5c; 0xb6; 0xb7; 0x1b; 0x1c; 0x07; 0x08; 0x0a; 0x0b; 0x14; 0x17; 0x36; 0x39; 0x3a; 0xa8; 0xa9;
   0xd8; 0xd9; 0x09; 0x37; 0x90; 0x91; 0xa8; 0x07; 0x0a; 0x3b; 0x3e; 0x66; 0x69; 0x8f; 0x92; 0x6f; 0x5f; 0xee;
   0xef; 0x5a; 0x62; 0x9a; 0x9b; 0x27; 0x28; 0x55; 0x9d; 0xa0; 0xa1; 0xa3; 0xa4; 0xa7; 0xa8; 0xad; 0xba; 0xbc;
   0xc4; 0x06; 0x0b; 0x0c; 0x15; 0x1d; 0x3a; 0x3f; 0x45; 0x51; 0xa6; 0xa7; 0xcc; 0xcd; 0xa0; 0x07; 0x19; 0x1a;
   0x22; 0x25; 0x3e; 0x3f; 0xc5; 0xc6; 0x04; 0x20; 0x23; 0x25; 0x26; 0x28; 0x33; 0x38; 0x3a; 0x48; 0x4a; 0x4c;
   0x50; 0x53; 0x55; 0x56; 0x58; 0x5a; 0x5c; 0x5e; 0x60; 0x63; 0x65; 0x66; 0x6b; 0x73; 0x78; 0x7d; 0x7f; 0x8a;
   0xa4; 0xaa; 0xaf; 0xb0; 0xc0; 0xd0; 0xae; 0xaf; 0x79; 0xcc; 0x6e; 0x6f; 0x93].

Definition normal0 : list Z :=
  [0x00; 0x20; 0x5f; 0x22; 0x82; 0xdf; 0x04; 0x82; 0x44; 0x08; 0x1b; 0x04; 0x06; 0x11; 0x81; 0xac; 0x0e; 0x80;
   0xab; 0x35; 0x28; 0x0b; 0x80; 0xe0; 0x03; 0x19; 0x08; 0x01; 0x04; 0x2f; 0x04; 0x34; 0x04; 0x07; 0x03; 0x01;
   0x07; 0x06; 0x07; 0x11; 0x0a; 0x50; 0x0f; 0x12; 0x07; 0x55; 0x07; 0x03; 0x04; 0x1c; 0x0a; 0x09; 0x03; 0x08;
   0x03; 0x07; 0x03; 0x02; 0x03; 0x03; 0x03; 0x0c; 0x04; 0x05; 0x03; 0x0b; 0x06; 0x01; 0x0e; 0x15; 0x05; 0x3a;
   0x03; 0x11; 0x07; 0x06; 0x05; 0x10; 0x07; 0x57; 0x07; 0x02; 0x07; 0x15; 0x0d; 0x50; 0x04; 0x43; 0x03; 0x2d;
   0x03; 0x01; 0x04; 0x11; 0x06; 0x0f; 0x0c; 0x3a; 0x04; 0x1d; 0x25; 0x5f; 0x20; 0x6d; 0x04; 0x6a; 0x25; 0x80;
   0xc8; 0x05; 0x82; 0xb0; 0x03; 0x1a; 0x06; 0x82; 0xfd; 0x03; 0x59; 0x07; 0x15; 0x0b; 0x17; 0x09; 0x14; 0x0c;
   0x14; 0x0c; 0x6a; 0x06; 0x0a; 0x06; 0x1a; 0x06; 0x59; 0x07; 0x2b; 0x05; 0x46; 0x0a; 0x2c; 0x04; 0x0c; 0x04;
   0x01; 0x03; 0x31; 0x0b; 0x2c; 0x04; 0x1a; 0x06; 0x0b; 0x03; 0x80; 0xac; 0x06; 0x0a; 0x06; 0x21; 0x3f; 0x4c;
   0x04; 0x2d; 0x03; 0x74; 0x08; 0x3c; 0x03; 0x0f; 0x03; 0x3c; 0x07; 0x38; 0x08; 0x2b; 0x05; 0x82; 0xff; 0x11;
   0x18; 0x08; 0x2f; 0x11; 0x2d; 0x03; 0x20; 0x10; 0x21; 0x0f; 0x80; 0x8c; 0x04; 0x82; 0x97; 0x19; 0x0b; 0x15;
   0x88; 0x94; 0x05; 0x2f; 0x05; 0x3b; 0x07; 0x02; 0x0e; 0x18; 0x09; 0x80; 0xb3; 0x2d; 0x74; 0x0c; 0x80; 0xd6;
   0x1a; 0x0c; 0x05; 0x80; 0xff; 0x05; 0x80; 0xdf; 0x0c; 0xee; 0x0d; 0x03; 0x84; 0x8d; 0x03; 0x37; 0x09; 0x81;
   0x5c; 0x14; 0x80; 0xb8; 0x08; 0x80; 0xcb; 0x2a; 0x38; 0x03; 0x0a; 0x06; 0x38; 0x08; 0x46; 0x08; 0x0c; 0x06;
   0x74; 0x0b; 0x1e; 0x03; 0x5a; 0x04; 0x59; 0x09; 0x80; 0x83; 0x18; 0x1c; 0x0a; 0x16; 0x09; 0x4c; 0x04; 0x80;
   0x8a; 0x06; 0xab; 0xa4; 0x0c; 0x17; 0x04; 0x31; 0xa1; 0x04; 0x81; 0xda; 0x26; 0x07; 0x0c; 0x05; 0x05; 0x80;
   0xa5; 0x11; 0x81; 0x6d; 0x10; 0x78; 0x28; 0x2a; 0x06; 0x4c; 0x04; 0x80; 0x8d; 0x04; 0x80; 0xbe; 0x03; 0x1b;
   0x03; 0x0f; 0x0d].

Definition normal1 : list Z :=
  [0x5e; 0x22; 0x7b; 0x05; 0x03; 0x04; 0x2d; 0x03; 0x66; 0x03; 0x01; 0x2f; 0x2e; 0x80; 0x82; 0x1d; 0x03; 0x31;
   0x0f; 0x1c; 0x04; 0x24; 0x09; 0x1e; 0x05; 0x2b; 0x05; 0x44; 0x04; 0x0e; 0x2a; 0x80; 0xaa; 0x06; 0x24; 0x04;
   0x24; 0x04; 0x28; 0x08; 0x34; 0x0b; 0x01; 0x80; 0x90; 0x81; 0x37; 0x09; 0x16; 0x0a; 0x08; 0x80; 0x98; 0x39;
   0x03; 0x63; 0x08; 0x09; 0x30; 0x16; 0x05; 0x21; 0x03; 0x1b; 0x05; 0x01; 0x40; 0x38; 0x04; 0x4b; 0x05; 0x2f;
   0x04; 0x0a; 0x07; 0x09; 0x07; 0x40; 0x20; 0x27; 0x04; 0x0c; 0x09; 0x36; 0x03; 0x3a; 0x05; 0x1a; 0x07; 0x04;
   0x0c; 0x07; 0x50; 0x49; 0x37; 0x33; 0x0d; 0x33; 0x07; 0x2e; 0x08; 0x0a; 0x81; 0x26; 0x52; 0x4e; 0x28; 0x08;
   0x2a; 0x56; 0x1c; 0x14; 0x17; 0x09; 0x4e; 0x04; 0x1e; 0x0f; 0x43; 0x0e; 0x19; 0x07; 0x0a; 0x06; 0x48; 0x08;
   0x27; 0x09; 0x75; 0x0b; 0x3f; 0x41; 0x2a; 0x06; 0x3b; 0x05; 0x0a; 0x06; 0x51; 0x06; 0x01; 0x05; 0x10; 0x03;
   0x05; 0x80; 0x8b; 0x62; 0x1e; 0x48; 0x08; 0x0a; 0x80; 0xa6; 0x5e; 0x22; 0x45; 0x0b; 0x0a; 0x06; 0x0d; 0x13;
   0x39; 0x07; 0x0a; 0x36; 0x2c; 0x04; 0x10; 0x80; 0xc0; 0x3c; 0x64; 0x53; 0x0c; 0x48; 0x09; 0x0a; 0x46; 0x45;
   0x1b; 0x48; 0x08; 0x53; 0x1d; 0x39; 0x81; 0x07; 0x46; 0x0a; 0x1d; 0x03; 0x47; 0x49; 0x37; 0x03; 0x0e; 0x08;
   0x0a; 0x06; 0x39; 0x07; 0x0a; 0x81; 0x36; 0x19; 0x80; 0xb7; 0x01; 0x0f; 0x32; 0x0d; 0x83; 0x9b; 0x66; 0x75;
   0x0b; 0x80; 0xc4; 0x8a; 0xbc; 0x84; 0x2f; 0x8f; 0xd1; 0x82; 0x47; 0xa1; 0xb9; 0x82; 0x39; 0x07; 0x2a; 0x04;
   0x02; 0x60; 0x26; 0x0a; 0x46; 0x0a; 0x28; 0x05; 0x13; 0x82; 0xb0; 0x5b; 0x65; 0x4b; 0x04; 0x39; 0x07; 0x11;
   0x40; 0x05; 0x0b; 0x02; 0x0e; 0x97; 0xf8; 0x08; 0x84; 0xd6; 0x2a; 0x09; 0xa2; 0xf7; 0x81; 0x1f; 0x31; 0x03;
   0x11; 0x04; 0x08; 0x81; 0x8c; 0x89; 0x04; 0x6b; 0x05; 0x0d; 0x03; 0x09; 0x07; 0x10; 0x93; 0x60; 0x80; 0xf6;
   0x0a; 0x73; 0x08; 0x6e; 0x17; 0x46; 0x80; 0x9a; 0x14; 0x0c; 0x57; 0x09; 0x19; 0x80; 0x87; 0x81; 0x47; 0x03;
   0x85; 0x42; 0x0f; 0x15; 0x85; 0x50; 0x2b; 0x80; 0xd5; 0x2d; 0x03; 0x1a; 0x04; 0x02; 0x81; 0x70; 0x3a; 0x05;
   0x01; 0x85; 0x00; 0x80; 0xd7; 0x29; 0x4c; 0x04; 0x0a; 0x04; 0x02; 0x83; 0x11; 0x44; 0x4c; 0x3d; 0x80; 0xc2;
   0x3c; 0x06; 0x01; 0x04; 0x55; 0x05; 0x1b; 0x34; 0x02; 0x81; 0x0e; 0x2c; 0x04; 0x64; 0x0c; 0x56; 0x0a; 0x80;
   0xae; 0x38; 0x1d; 0x0d; 0x2c; 0x04; 0x09; 0x07; 0x02; 0x0e; 0x06; 0x80; 0x9a; 0x83; 0xd8; 0x08; 0x0d; 0x03;
   0x0d; 0x03; 0x74; 0x0c; 0x59; 0x07; 0x0c; 0x14; 0x0c; 0x04; 0x38; 0x08; 0x0a; 0x06; 0x28; 0x08; 0x22; 0x4e;
   0x81; 0x54; 0x0c; 0x15; 0x03; 0x03; 0x05; 0x07; 0x09; 0x19; 0x07; 0x07; 0x09; 0x03; 0x0d; 0x07; 0x29; 0x80;
   0xcb; 0x25; 0x0a; 0x84; 0x06].

(** The first loop of [is_printable(uint16_t, ...)]: [lower] is among the lower
    bytes of the row of [upper]. *)
Fixpoint in_singletons (singletons : list (Z * Z)) (lowers : list Z) (upper lower : Z) : bool :=
  match singletons with
  | [] => false
  | (s_upper, lower_count) :: singletons =>
      if upper <? s_upper then false
      else if (upper =? s_upper) && existsb (λ l, l =? lower) (take (Z.to_nat lower_count) lowers) then true
      else in_singletons singletons (drop (Z.to_nat lower_count) lowers) upper lower
  end.

(** The second loop: lengths of runs that are printable and not, in turn, in
    one byte or two. *)
Fixpoint in_normal (normal : list Z) (x : Z) (current : bool) : bool :=
  match normal with
  | [] => current
  | v :: normal =>
      if negb (Z.land v 0x80 =? 0) then
        match normal with
        | [] => current (* no table ends so *)
        | w :: normal =>
            let x := x - Z.lor (Z.shiftl (Z.land v 0x7f) 8) w in
            if x <? 0 then current else in_normal normal x (negb current)
        end
      else
        let x := x - v in
        if x <? 0 then current else in_normal normal x (negb current)
  end.

Definition is_printable16 (x : Z) (singletons : list (Z * Z)) (lowers normal : list Z) : bool :=
  if in_singletons singletons lowers (Z.shiftr x 8) (Z.land x 0xff) then false else in_normal normal x true.

Definition is_printable (cp : Z) : bool :=
  let lower := cp mod 2 ^ 16 in
  if cp <? 0x10000 then is_printable16 lower singletons0 singletons0_lower normal0
  else if cp <? 0x20000 then is_printable16 lower singletons1 singletons1_lower normal1
  else if (0x2a6de <=? cp) && (cp <? 0x2a700) then false
  else if (0x2b735 <=? cp) && (cp <? 0x2b740) then false
  else if (0x2b81e <=? cp) && (cp <? 0x2b820) then false
  else if (0x2cea2 <=? cp) && (cp <? 0x2ceb0) then false
  else if (0x2ebe1 <=? cp) && (cp <? 0x2f800) then false
  else if (0x2fa1e <=? cp) && (cp <? 0x30000) then false
  else if (0x3134b <=? cp) && (cp <? 0xe0100) then false
  else if (0xe01f0 <=? cp) && (cp <? 0x110000) then false
  else cp <? 0x110000.

Definition needs_escape (cp : Z) : bool :=
  if (cp <? 0x20) || (cp =? 0x7f) || (cp =? 34) || (cp =? 92) then true else negb (is_printable cp).
