(* ===== verification/FmtWrite.v ===== *)
(** * spdlog/fmt/bundled/format.h: writing integers, characters and text

    A writer gives the text it appends to the output. Integers are written
    with their sign or base in a packed prefix, padded with zeros or with the
    fill; the debug presentation escapes what is not printable; a precision
    cuts text at a number of columns. Digits of localized integers are grouped
    as the global locale says. *)
From Stdlib Require Import Ascii.
From S2P Require Import Prelude Numerals FmtInt FmtSpecs FmtParse FmtUnicode.

Abbreviation writer := (outcome string).

Definition check (condition : bool) : outcome unit :=
  if condition then Ret tt else Crash (terminate "fmt's assertion").

(** [to_unsigned(int)] *)
Definition to_unsigned (v : Z) : outcome Z := _ ← check (0 <=? v); Ret v.

Definition char_of (n : Z) : ascii := ascii_of_nat (Z.to_nat (n mod 256)).
Definition one_char (c : ascii) : string := String c EmptyString.

Fixpoint repeat_text (n : nat) (s : string) : string :=
  match n with
  | O => EmptyString
  | S n => s +:+ repeat_text n s
  end.

(** ** Padding *)

(** [fill(it, n, specs)] *)
Definition fill (n : Z) (specs : format_specs) : string :=
  if fill_size specs =? 1 then repeat_text (Z.to_nat n) (one_char (char_of (byte_at 0 specs.(fill_data_))))
  else repeat_text (Z.to_nat n) (fill_text specs).

Definition shifts (default_align : align) : list Z :=
  if bool_decide (default_align = align_left) then [0x1f; 0x1f; 0x00; 0x01; 0x00] else [0x00; 0x1f; 0x00; 0x01; 0x00].

(** [write_padded(out, specs, size, width, f)]; [f] wrote [text]. *)
Definition write_padded (default_align : align) (specs : format_specs) (width : Z) (text : string) : writer :=
  spec_width ← to_unsigned specs.(FmtSpecs.width);
  let padding := if width <? spec_width then spec_width - width else 0 in
  let left_padding := Z.shiftr padding (at_row (shifts default_align) (align_number (get_align specs))) in
  let right_padding := padding - left_padding in
  Ret ((if negb (left_padding =? 0) then fill left_padding specs else EmptyString) +:+ text +:+
       (if negb (right_padding =? 0) then fill right_padding specs else EmptyString)).

Definition write_bytes (default_align : align) (bytes : string) (specs : format_specs) : writer :=
  write_padded default_align specs (size bytes) bytes.

(** ** Digits in a power of two base *)

Definition lower_digits : string := "0123456789abcdef".
Definition upper_digits : string := "0123456789ABCDEF".

(** [do_format_base2e(base_bits, out, value, size, upper)]: like
    [do_format_decimal], [n] places are left in front of [text]. [fuel] bounds
    the digits. *)
Fixpoint do_format_base2e (fuel : nat) (base_bits : Z) (n value : Z) (upper : bool) (text : string)
    : outcome (Z * string) :=
  let digit := Z.land value (Z.shiftl 1 base_bits - 1) in
  let c := if base_bits <? 4 then digit_char digit
           else char_of (byte_at (Z.to_nat digit) (if upper then upper_digits else lower_digits)) in
  if n <? 1 then Crash overrun
  else
    let value := Z.shiftr value base_bits in
    if negb (value =? 0) then
      match fuel with
      | O => Crash overrun
      | S fuel => do_format_base2e fuel base_bits (n - 1) value upper (String c text)
      end
    else Ret (n - 1, String c text).

Definition bits_fuel : nat := 64.

(** [count_digits<BITS>(n)] of a 64-bit number: the loop. *)
Fixpoint count_digits_base2e (fuel : nat) (bits m num_digits : Z) : Z :=
  let num_digits := num_digits + 1 in
  let m := Z.shiftr m bits in
  match fuel with
  | S fuel => if negb (m =? 0) then count_digits_base2e fuel bits m num_digits else num_digits
  | O => num_digits
  end.

(** The digits alone, in a buffer of their number. *)
Definition format_base2e (base_bits value num_digits : Z) (upper : bool) : writer :=
  '(n, text) ← do_format_base2e bits_fuel base_bits num_digits value upper EmptyString; Ret text.
Definition format_decimal (value num_digits : Z) : writer :=
  '(n, text) ← do_format_decimal (digits_fuel value) num_digits value EmptyString; Ret text.

(** [specs]: none for the default format. *)
Definition write_ptr (value : Z) (specs : option format_specs) : writer :=
  let num_digits := count_digits_base2e bits_fuel 4 value 0 in
  let size := num_digits + 2 in
  digits ← format_base2e 4 value num_digits false;
  let text := "0x" +:+ digits in
  match specs with
  | Some specs => write_padded align_right specs size text
  | None => Ret text
  end.

(** ** Escapes *)

Definition quote : ascii := "034"%char.
Definition backslash : ascii := "092"%char.

(** [write_codepoint<width>(out, prefix, cp)]: digits from the end of a buffer
    of zeros. *)
Definition write_codepoint (width : Z) (prefix : ascii) (cp : Z) : writer :=
  '(n, text) ← do_format_base2e bits_fuel 4 width cp false EmptyString;
  Ret (String backslash (String prefix (repeat_text (Z.to_nat n) "0" +:+ text))).

(** [f] for each character. *)
Fixpoint each_char (f : ascii → writer) (s : string) : writer :=
  match s with
  | EmptyString => Ret EmptyString
  | String c r => a ← f c; b ← each_char f r; Ret (a +:+ b)
  end.

(** [write_escaped_cp(out, escape)]; [escaped]: the characters. *)
Definition write_escaped_cp (escaped : string) (cp : Z) : writer :=
  if cp =? 10 then Ret (String backslash "n")
  else if cp =? 13 then Ret (String backslash "r")
  else if cp =? 9 then Ret (String backslash "t")
  else if (cp =? code quote) || (cp =? code "'") || (cp =? code backslash)
  then Ret (String backslash (one_char (char_of cp)))
  else if cp <? 0x100 then write_codepoint 2 "x" cp
  else if cp <? 0x10000 then write_codepoint 4 "u" cp
  else if cp <? 0x110000 then write_codepoint 8 "U" cp
  else each_char (λ c, write_codepoint 2 "x" (code c)) escaped.

(** [find_escape(begin, end)]: the pointer to the first code point to escape,
    its length and itself. *)
Definition find_escape (begin : string) : option (string * Z * Z) :=
  for_each_codepoint (String.length begin) begin
    (λ cp sv n result, if needs_escape cp then (Some (sv, n, cp), false) else (result, true)) None.

(** The loop of [write_escaped_string]; [fuel]: the length of the text. *)
Fixpoint escape_loop (fuel : nat) (begin : string) : writer :=
  match find_escape begin with
  | None => Ret begin
  | Some (at_, n, cp) =>
      escaped ← write_escaped_cp (prefix_of n at_) cp;
      let before := text_range begin at_ in
      let begin := skip n at_ in
      if is_end begin then Ret (before +:+ escaped)
      else match fuel with
           | O => Crash overrun
           | S fuel => rest ← escape_loop fuel begin; Ret (before +:+ escaped +:+ rest)
           end
  end.

Definition write_escaped_string (str : string) : writer :=
  text ← escape_loop (String.length str) str;
  Ret (String quote (text +:+ one_char quote)).

(** [static_cast<uint32_t>] of a [char], which is signed. *)
Definition uint32_of_char (v : ascii) : Z := if code v <? 128 then code v else w32 (code v - 256).

Definition write_escaped_char (v : ascii) : writer :=
  text ←
    (if (needs_escape (uint32_of_char v) && negb (Ascii.eqb v quote)) || Ascii.eqb v "'"
     then write_escaped_cp (one_char v) (uint32_of_char v)
     else Ret (one_char v));
  Ret (String "'" (text +:+ "'")).

Definition write_char (value : ascii) (specs : format_specs) : writer :=
  text ← (if get_type specs =? pres_debug then write_escaped_char value else Ret (one_char value));
  write_padded align_left specs 1 text.

(** ** Integers *)

(** [prefix]: up to three characters, the first in the lowest byte, and their
    number in the highest. *)
Definition prefix_append (prefix value : Z) : Z :=
  let prefix := Z.lor prefix (if negb (prefix =? 0) then w32 (Z.shiftl value 8) else value) in
  w32 (prefix + Z.shiftl (1 + (if 0xff <? value then 1 else 0)) 24).

(** The loop over the characters of [prefix & 0xffffff]. *)
Fixpoint prefix_loop (rounds : nat) (p : Z) : string :=
  match rounds with
  | S rounds => if negb (p =? 0) then String (char_of (Z.land p 0xff)) (prefix_loop rounds (Z.shiftr p 8)) else EmptyString
  | O => EmptyString
  end.
Definition prefix_text (prefix : Z) : string := prefix_loop 3 (Z.land prefix 0xffffff).
Definition prefix_size (prefix : Z) : Z := Z.shiftr prefix 24.

(** [value]: of [w] bits, signed or not. *)
Definition make_write_int_arg (w value : Z) (s : sign) : Z * Z :=
  let abs_value := value mod 2 ^ w in
  if value <? 0 then ((0 - abs_value) mod 2 ^ w, Z.lor 0x01000000 (code "-"))
  else (abs_value, match s with
                   | sign_none | sign_minus => 0
                   | sign_plus => Z.lor 0x1000000 (code "+")
                   | sign_space => Z.lor 0x1000000 (code " ")
                   end).

Definition base_prefix (letter : ascii) : Z := Z.lor (Z.shiftl (code letter) 8) (code "0").

(** [size_padding]: size and padding. *)
Definition size_padding (num_digits prefix : Z) (specs : format_specs) : outcome (Z * Z) :=
  let size := w32 (prefix_size prefix + num_digits) in
  if bool_decide (get_align specs = align_numeric) then
    width ← to_unsigned specs.(FmtSpecs.width);
    if size <? width then Ret (width, width - size) else Ret (size, 0)
  else if num_digits <? specs.(precision) then
    p ← to_unsigned specs.(precision);
    Ret (w32 (prefix_size prefix + p), p - num_digits)
  else Ret (size, 0).

(** What [write_int] does with the digits of the buffer. *)
Definition write_digits (digits : string) (prefix : Z) (specs : format_specs) : writer :=
  let num_digits := size digits in
  if Z.lor specs.(width) (specs.(precision) + 1) =? 0 then Ret (prefix_text prefix +:+ digits)
  else
    '(size, padding) ← size_padding num_digits prefix specs;
    write_padded align_right specs size (prefix_text prefix +:+ repeat_text (Z.to_nat padding) "0" +:+ digits).

(** [write_int(out, arg, specs)], [abs_value] of [w] bits. *)
Definition write_int (w : Z) (abs_value prefix : Z) (specs : format_specs) : writer :=
  let t := get_type specs in
  if t =? pres_chr then write_char (char_of abs_value) specs
  else
    _ ← check ((t =? pres_none) || (t =? pres_dec) || (t =? pres_hex) || (t =? pres_oct) || (t =? pres_bin));
    if t =? pres_hex then
      '(_, digits) ← do_format_base2e bits_fuel 4 w abs_value (upper specs) EmptyString;
      write_digits digits (if alt specs then prefix_append prefix (base_prefix (if upper specs then "X" else "x"))
                           else prefix) specs
    else if t =? pres_oct then
      '(_, digits) ← do_format_base2e bits_fuel 3 w abs_value false EmptyString;
      write_digits digits (if alt specs && (specs.(precision) <=? size digits) && negb (abs_value =? 0)
                           then prefix_append prefix (code "0") else prefix) specs
    else if t =? pres_bin then
      '(_, digits) ← do_format_base2e bits_fuel 1 w abs_value false EmptyString;
      write_digits digits (if alt specs then prefix_append prefix (base_prefix (if upper specs then "B" else "b"))
                           else prefix) specs
    else
      '(_, digits) ← do_format_decimal (digits_fuel abs_value) w abs_value EmptyString;
      write_digits digits prefix specs.

(** ** Grouped digits *)

(** The [numpunct] facet of the process's locale. *)
Class GlobalLocale := { np_grouping : string; np_thousands_sep : ascii; np_decimal_point : ascii }.

(** A [char] as a number *)
Definition char_value (c : ascii) : Z := if code c <? 128 then code c else code c - 256.

(** [digit_grouping]: [grouping_] and [thousands_sep_]. The state is the rest of
    the grouping and the position. *)
Record digit_grouping := { grouping_ : string; thousands_sep_ : string }.

Fixpoint last_char (s : string) : option ascii :=
  match s with
  | EmptyString => None
  | String c EmptyString => Some c
  | String _ r => last_char r
  end.

Definition next_group (g : digit_grouping) (st : string * Z) : outcome (Z * (string * Z)) :=
  if is_end g.(thousands_sep_) then Ret (INT_MAX, st)
  else match st with
       | (EmptyString, pos) =>
           match last_char g.(grouping_) with
           | None => Crash (undefined_behaviour "back() of an empty string")
           | Some c => let pos := pos + char_value c in Ret (pos, (EmptyString, pos))
           end
       | (String c r, pos) =>
           if (char_value c <=? 0) || (char_value c =? 127) then Ret (INT_MAX, st)
           else let pos := pos + char_value c in Ret (pos, (r, pos))
       end.

(** [count_separators(num_digits)]; every round moves the position. *)
Fixpoint count_loop (fuel : nat) (g : digit_grouping) (num_digits count : Z) (st : string * Z) : outcome Z :=
  '(i, st) ← next_group g st;
  if i <? num_digits then
    match fuel with
    | O => Crash overrun
    | S fuel => count_loop fuel g num_digits (count + 1) st
    end
  else Ret count.
Definition count_separators (g : digit_grouping) (num_digits : Z) : outcome Z :=
  count_loop (Z.to_nat num_digits) g num_digits 0 (g.(grouping_), 0).

(** The separators' positions, the last one first. *)
Fixpoint separators_loop (fuel : nat) (g : digit_grouping) (num_digits : Z) (separators : list Z) (st : string * Z)
    : outcome (list Z) :=
  '(i, st) ← next_group g st;
  if (i =? 0) || (num_digits <=? i) then Ret separators
  else match fuel with
       | O => Crash overrun
       | S fuel => separators_loop fuel g num_digits (i :: separators) st
       end.

(** The loop that writes the digits; [separators] from [separators[sep_index]] down. *)
Fixpoint apply_loop (sep : string) (separators : list Z) (digits : string) : writer :=
  match digits with
  | EmptyString => Ret EmptyString
  | String d r =>
      match separators with
      | [] => Crash overrun
      | s :: rest =>
          if size digits =? s then text ← apply_loop sep rest r; Ret (sep +:+ String d text)
          else text ← apply_loop sep separators r; Ret (String d text)
      end
  end.

Definition apply (g : digit_grouping) (digits : string) : writer :=
  separators ← separators_loop (String.length digits) g (size digits) [0] (g.(grouping_), 0);
  apply_loop g.(thousands_sep_) separators digits.

(** [write_int(out, value, prefix, specs, grouping)] of a 64-bit value. *)
Definition write_int_grouped (value prefix : Z) (specs : format_specs) (g : digit_grouping) : writer :=
  let t := get_type specs in
  if t =? pres_chr then write_char (char_of value) specs
  else
    _ ← check ((t =? pres_none) || (t =? pres_dec) || (t =? pres_hex) || (t =? pres_oct) || (t =? pres_bin));
    '(num_digits, digits, prefix) ←
      (if t =? pres_hex then
         let n := count_digits_base2e bits_fuel 4 value 0 in
         digits ← format_base2e 4 value n (upper specs);
         Ret (n, digits, if alt specs then prefix_append prefix (base_prefix (if upper specs then "X" else "x")) else prefix)
       else if t =? pres_oct then
         let n := count_digits_base2e bits_fuel 3 value 0 in
         digits ← format_base2e 3 value n false;
         Ret (n, digits, if alt specs && (specs.(precision) <=? n) && negb (value =? 0)
                         then prefix_append prefix (code "0") else prefix)
       else if t =? pres_bin then
         let n := count_digits_base2e bits_fuel 1 value 0 in
         digits ← format_base2e 1 value n false;
         Ret (n, digits, if alt specs then prefix_append prefix (base_prefix (if upper specs then "B" else "b")) else prefix)
       else
         let n := do_count_digits64 value in
         digits ← format_decimal value n;
         Ret (n, digits, prefix));
    count ← count_separators g num_digits;
    text ← apply g digits;
    write_padded align_right specs (w32 (prefix_size prefix + num_digits + count)) (prefix_text prefix +:+ text).

Section localized.
Context {L : GlobalLocale}.

(** [write_loc]: [format_facet] of the global locale. *)
Definition format_facet : digit_grouping :=
  {| grouping_ := np_grouping; thousands_sep_ := if is_end np_grouping then EmptyString else one_char np_thousands_sep |}.

Definition write_loc (w value : Z) (specs : format_specs) : writer :=
  let '(abs_value, prefix) := make_write_int_arg w value (get_sign specs) in
  write_int_grouped abs_value prefix specs format_facet.

(** ** [write(out, value, specs, loc)] *)

(** An integer of [w] bits. *)
Definition write_integer (w value : Z) (specs : format_specs) : writer :=
  if localized specs then write_loc w value specs
  else
    let '(abs_value, prefix) := make_write_int_arg w value (get_sign specs) in
    write_int w abs_value prefix specs.

Definition write_character (value : ascii) (specs : format_specs) : writer :=
  '(is_char, _) ← Ret (check_char_specs specs tt);
  is_char ← is_char;
  if is_char : bool then write_char value specs else write_integer 32 (code value) specs.

Definition write_bool (value : bool) (specs : format_specs) : writer :=
  let t := get_type specs in
  if negb (t =? pres_none) && negb (t =? pres_string) then write_integer 32 (if value then 1 else 0) specs
  else write_bytes align_left (if value then "true" else "false") specs.

End localized.

Definition SIZE_MAX : Z := 2 ^ 64 - 1.

(** The pass over the code points of a text that measures how much of it fits:
    columns, size, and what a step of it does. *)
Definition measure_step (is_debug : bool) (limit : Z) (cp : Z) (sv : string) (n : Z) (acc : outcome (Z * Z))
    : outcome (Z * Z) * bool :=
  match acc with
  | Ret (display_width, size_) =>
      let last := is_end (skip n sv) in
      if is_debug && needs_escape cp then
        match write_escaped_cp (prefix_of n sv) cp with
        | Ret escaped =>
            let cp_width := size escaped in
            if display_width + cp_width <=? limit then
              let display_width := display_width + cp_width in
              let size_ := size_ + cp_width in
              if (display_width <? limit) && last then (Ret (display_width + 1, size_ + 1), true)
              else (Ret (display_width, size_), true)
            else (Ret (limit, size_ + (limit - display_width)), false)
        | Throw e => (Throw e, false)
        | Crash f => (Crash f, false)
        end
      else
        let cp_width := display_width_of cp in
        if cp_width + display_width <=? limit then
          let display_width := display_width + cp_width in
          let size_ := size_ + n in
          if is_debug && (display_width <? limit) && last then (Ret (display_width + 1, size_ + 1), true)
          else (Ret (display_width, size_), true)
        else (Ret (display_width, size_), false)
  | r => (r, false)
  end.

Definition write_string (s : string) (specs : format_specs) : writer :=
  let is_debug := get_type specs =? pres_debug in
  if (specs.(precision) <? 0) && (specs.(width) =? 0) then
    if is_debug then write_escaped_string s else Ret s
  else
    let limit := if specs.(precision) <? 0 then SIZE_MAX else specs.(precision) in
    let start := if negb is_debug || (specs.(precision) =? 0) then 0 else 1 in
    '(display_width, size_) ← for_each_codepoint (String.length s) s (measure_step is_debug limit) (Ret (start, start));
    text ← (if is_debug then text ← write_escaped_string s; Ret (prefix_of size_ text) else Ret (prefix_of size_ s));
    write_padded align_left specs display_width text.

(** [const char*]: its address and text. *)
Definition write_cstring (address : Z) (s : string) (specs : format_specs) : writer :=
  if get_type specs =? pres_pointer then write_ptr address (Some specs)
  else if address =? 0 then Throw (runtime_error "string pointer is null")
  else write_string s specs.

(** ** [write(out, value)] *)

(** An integer of [w] bits. *)
Definition write_default_integer (w value : Z) : writer :=
  let abs_value := value mod 2 ^ w in
  let negative := value <? 0 in
  let abs_value := if negative then (2 ^ w - 1 - abs_value + 1) mod 2 ^ w else abs_value in
  digits ← format_decimal abs_value (if w =? 32 then do_count_digits32 abs_value else do_count_digits64 abs_value);
  Ret ((if negative then "-" else "") +:+ digits).

Definition write_default_cstring (address : Z) (s : string) : writer :=
  if negb (address =? 0) then Ret s else Throw (runtime_error "string pointer is null").

(** ** Writers return text *)

Definition outputs {A} (w : outcome A) : Prop :=
  match w with
  | Ret _ => True
  | Throw _ | Crash _ => False
  end.

Lemma outputs_bind {A B} (m : outcome A) (k : A → outcome B) (P : A → Prop) :
  match m with Ret a => P a | _ => False end →
  (∀ a, P a → outputs (k a)) → outputs (m ≫= k).
Proof. destruct m as [a|e|f]; cbn; auto. Qed.

Lemma outputs_then {A B} (m : outcome A) (k : A → outcome B) : outputs m → (∀ a, outputs (k a)) → outputs (m ≫= k).
Proof. intros Hm Hk. apply (outputs_bind m k (λ _, True)); [by destruct m|auto]. Qed.

Lemma outputs_unsigned v : 0 ≤ v → to_unsigned v = Ret v.
Proof. intros Hv. unfold to_unsigned. by rewrite (proj2 (Z.leb_le 0 v)). Qed.

Lemma outputs_padded d specs w text : 0 ≤ specs.(width) → outputs (write_padded d specs w text).
Proof. intros Hw. unfold write_padded. by rewrite outputs_unsigned. Qed.

(** [b] bits are written for each digit: [n] places and the fuel are enough. *)
Lemma base2e_returns fuel b n v u text :
  1 ≤ b → 1 ≤ n → 0 ≤ v < 2 ^ (b * n) → v < 2 ^ (b * (Z.of_nat fuel + 1)) →
  ∃ n' text', do_format_base2e fuel b n v u text = Ret (n', text') ∧ size text' ≤ size text + n.
Proof.
  intros Hb. revert n v text. induction fuel as [|fuel IH]; intros n v text Hn Hv Hf; cbn [do_format_base2e];
    rewrite (proj2 (Z.ltb_ge n 1)) by done; rewrite Z.shiftr_div_pow2 by lia.
  - rewrite Z.div_small, Z.eqb_refl by (split; [lia|]; by replace b with (b * (Z.of_nat 0 + 1)) by lia). cbn [negb].
    eexists _, _. split; [done|]. rewrite size_cons. lia.
  - destruct (Z.eqb_spec (v / 2 ^ b) 0) as [E|E]; cbn [negb]; [eexists _, _; split; [done|]; rewrite size_cons; lia|].
    assert (Hp : 0 < 2 ^ b) by (apply Z.pow_pos_nonneg; lia).
    assert (Hge : 2 ^ b ≤ v) by (destruct (Z.le_gt_cases (2 ^ b) v); [done|rewrite Z.div_small in E; lia]).
    destruct (decide (n = 1)) as [->|]; [rewrite Z.mul_1_r in Hv; lia|].
    match goal with |- context [String ?c text] => destruct (IH (n - 1) (v / 2 ^ b) (String c text)) as (n' & t & -> & Ht) end;
      [lia| | |eexists _, _; split; [done|]; rewrite size_cons in Ht; lia].
    + split; [apply Z.div_pos; lia|]. apply Z.div_lt_upper_bound; [done|]. rewrite <- Z.pow_add_r by nia.
      replace (b + b * (n - 1)) with (b * n) by lia. lia.
    + apply Z.div_lt_upper_bound; [done|]. rewrite <- Z.pow_add_r by nia.
      replace (b + b * (Z.of_nat fuel + 1)) with (b * (Z.of_nat (S fuel) + 1)) by lia. lia.
Qed.

Lemma pow_le_bits w b m : 0 ≤ w ≤ m → 1 ≤ b → 2 ^ w ≤ 2 ^ (b * m).
Proof. intros Hw Hb. apply Z.pow_le_mono_r; [lia|]. nia. Qed.

(** A buffer as long as the number has bits. *)
Lemma base2e_buffer w b v u : 1 ≤ w ≤ 64 → 1 ≤ b → 0 ≤ v < 2 ^ w →
  ∃ m text, do_format_base2e bits_fuel b w v u "" = Ret (m, text).
Proof.
  intros Hw Hb Hv. pose proof (pow_le_bits w b w ltac:(lia) Hb). pose proof (pow_le_bits w b 65 ltac:(lia) Hb).
  destruct (base2e_returns bits_fuel b w v u "") as (m & text & E & _);
    [done|lia|lia|change (Z.of_nat bits_fuel + 1) with 65; lia|]. eauto.
Qed.

Lemma count_base2e_bound fuel b m n :
  1 ≤ b → 0 ≤ m < 2 ^ (b * (Z.of_nat fuel + 1)) →
  n + 1 ≤ count_digits_base2e fuel b m n ≤ n + 1 + Z.of_nat fuel ∧ m < 2 ^ (b * (count_digits_base2e fuel b m n - n)).
Proof.
  intros Hb. revert m n. induction fuel as [|fuel IH]; intros m n Hm; cbn [count_digits_base2e]; cbv zeta.
  - replace (n + 1 - n) with (Z.of_nat 0 + 1) by lia. lia.
  - destruct (Z.eqb_spec (Z.shiftr m b) 0) as [E|E]; cbn [negb].
    + rewrite Z.shiftr_div_pow2 in E by lia. assert (Hp : 0 < 2 ^ b) by (apply Z.pow_pos_nonneg; lia).
      apply Z.div_small_iff in E; [|lia]. replace (n + 1 - n) with 1 by lia. rewrite Z.mul_1_r. lia.
    + rewrite Z.shiftr_div_pow2 by lia. assert (Hp : 0 < 2 ^ b) by (apply Z.pow_pos_nonneg; lia).
      destruct (IH (m / 2 ^ b) (n + 1)) as [IH1 IH2].
      { split; [apply Z.div_pos; lia|]. apply Z.div_lt_upper_bound; [done|]. rewrite <- Z.pow_add_r by nia.
        replace (b + b * (Z.of_nat fuel + 1)) with (b * (Z.of_nat (S fuel) + 1)) by lia. lia. }
      set (c := count_digits_base2e fuel b (m / 2 ^ b) (n + 1)) in *. split; [lia|].
      replace (b * (c - n)) with (b + b * (c - (n + 1))) by lia. rewrite Z.pow_add_r by nia.
      pose proof (Z.div_mod m (2 ^ b) ltac:(lia)). pose proof (Z.mod_pos_bound m (2 ^ b) Hp).
      set (x := 2 ^ (b * (c - (n + 1)))) in *. assert (m / 2 ^ b + 1 ≤ x) by lia. nia.
Qed.

(** A buffer as long as the number has digits. *)
Lemma format_base2e_returns b v u : 1 ≤ b → 0 ≤ v < 2 ^ 64 →
  ∃ text, format_base2e b v (count_digits_base2e bits_fuel b v 0) u = Ret text ∧ size text ≤ 65.
Proof.
  intros Hb Hv. pose proof (pow_le_bits 64 b 65 ltac:(lia) Hb) as Hp.
  destruct (count_base2e_bound bits_fuel b v 0 Hb) as [H1 H2]; [change (Z.of_nat bits_fuel + 1) with 65; lia|].
  rewrite Z.sub_0_r in H2. unfold format_base2e.
  destruct (base2e_returns bits_fuel b (count_digits_base2e bits_fuel b v 0) v u "") as (n & text & -> & Ht);
    [done|lia|lia|change (Z.of_nat bits_fuel + 1) with 65; lia|]. exists text. split; [done|].
  change (size "") with 0 in Ht. change (Z.of_nat bits_fuel) with 64 in H1. lia.
Qed.

Lemma decimal_fuel v : 0 ≤ v → v < 100 * 100 ^ Z.of_nat (digits_fuel v).
Proof.
  intros Hv. pose proof (fuel_enough v Hv). set (k := Z.of_nat (digits_fuel v)) in *.
  assert (10 ^ k ≤ 100 ^ k) by (apply Z.pow_le_mono_l; lia). lia.
Qed.

Lemma format_decimal_text v n : 0 ≤ v < 2 ^ 64 → n = text_size v → format_decimal v n = Ret (natural_text v).
Proof.
  intros Hv ->. unfold format_decimal. rewrite do_format_decimal_text; [|lia|apply decimal_fuel; lia|done].
  cbn [mbind outcome_bind]. by rewrite append_nil_r.
Qed.

Lemma outputs_ptr v specs : 0 ≤ v < 2 ^ 64 → (∀ s, specs = Some s → 0 ≤ s.(width)) → outputs (write_ptr v specs).
Proof.
  intros Hv Hs. unfold write_ptr. destruct (format_base2e_returns 4 v false ltac:(lia) Hv) as (text & -> & _).
  destruct specs as [s|]; [|done]. by apply outputs_padded, Hs.
Qed.

(** *** Escapes *)

Lemma codepoint_returns width prefix cp :
  1 ≤ width ≤ 64 → 0 ≤ cp < 16 ^ width → ∃ text, write_codepoint width prefix cp = Ret text.
Proof.
  intros Hw Hcp. unfold write_codepoint. assert (E : 16 ^ width = 2 ^ (4 * width)) by (by rewrite Z.pow_mul_r by lia).
  assert (2 ^ (4 * width) ≤ 2 ^ (4 * 65)) by (apply Z.pow_le_mono_r; lia).
  destruct (base2e_returns bits_fuel 4 width cp false "") as (n & text & -> & _);
    [lia|lia|lia|change (Z.of_nat bits_fuel + 1) with 65; lia|]. eauto.
Qed.

Lemma code_range c : 0 ≤ code c < 256.
Proof. unfold code. pose proof (nat_ascii_bounded c). lia. Qed.

Lemma each_char_returns f s : (∀ c, ∃ text, f c = Ret text) → ∃ text, each_char f s = Ret text.
Proof.
  intros Hf. induction s as [|c s [r IH]]; [by eexists|]. cbn [each_char]. destruct (Hf c) as [t ->]. cbn [mbind outcome_bind].
  rewrite IH. by eexists.
Qed.

Lemma escaped_cp_returns escaped cp : 0 ≤ cp → ∃ text, write_escaped_cp escaped cp = Ret text.
Proof.
  intros Hcp. unfold write_escaped_cp.
  destruct (cp =? 10); [by eexists|]. destruct (cp =? 13); [by eexists|]. destruct (cp =? 9); [by eexists|].
  destruct (_ || _); [by eexists|].
  destruct (Z.ltb_spec cp 0x100); [apply codepoint_returns; lia|].
  destruct (Z.ltb_spec cp 0x10000); [apply codepoint_returns; lia|].
  destruct (Z.ltb_spec cp 0x110000); [apply codepoint_returns; lia|].
  apply each_char_returns. intros c. pose proof (code_range c). apply codepoint_returns; lia.
Qed.

Lemma byte_at_nonneg i s : 0 ≤ byte_at i s.
Proof. revert i. induction s as [|c s IH]; intros [|i]; cbn; [done..|apply code_range|apply IH]. Qed.

Lemma at_row_nonneg l i : Forall (λ x, 0 ≤ x) l → 0 ≤ at_row l i.
Proof.
  intros Hl. unfold at_row. destruct (nth_in_or_default (Z.to_nat i) l 0) as [H| ->]; [|done].
  rewrite List.Forall_forall in Hl. by apply Hl.
Qed.

(** The code point is not negative, and the next one is further. *)
Lemma decode_range s : let '(n, c, _) := utf8_decode s in 1 ≤ n ∧ 0 ≤ c.
Proof.
  unfold utf8_decode. cbv zeta. split.
  - pose proof (at_row_nonneg utf8_lengths (Z.shiftr (byte_at 0 s) 3) ltac:(by repeat constructor)).
    destruct (Z.eqb_spec (at_row utf8_lengths (Z.shiftr (byte_at 0 s) 3)) 0); lia.
  - apply Z.shiftr_nonneg. rewrite !Z.lor_nonneg, !Z.shiftl_nonneg, !Z.land_nonneg.
    repeat split; left; apply byte_at_nonneg.
Qed.

(** What holds of the accumulator throughout. *)
Lemma for_each_invariant {A} fuel s (f : Z → string → Z → A → A * bool) a (P : A → Prop) :
  P a → (∀ cp sv n a, 0 ≤ cp → 1 ≤ n → 1 ≤ size sv ≤ size s → P a → P (f cp sv n a).1) →
  P (for_each_codepoint fuel s f a).
Proof.
  revert s a. induction fuel as [|fuel IH]; intros s a Ha Hf; [by destruct s|]. destruct s as [|c s]; [done|].
  cbn [for_each_codepoint]. pose proof (decode_range (String c s)) as Hd.
  destruct (utf8_decode (String c s)) as [[n cp] e]. destruct Hd as [Hn Hc].
  set (n' := if negb (e =? 0) then 1 else n). set (cp' := if negb (e =? 0) then invalid_code_point else cp).
  assert (1 ≤ n' ∧ 0 ≤ cp') as [Hn' Hc'] by (subst n' cp'; destruct (negb _); unfold invalid_code_point; lia).
  assert (Hs : size (String c s) = size s + 1) by apply size_cons. pose proof (size_nonneg s).
  pose proof (Hf cp' (String c s) n' a Hc' Hn' ltac:(lia) Ha) as HP.
  destruct (f cp' (String c s) n' a) as [a' b]. cbn [fst] in HP. destruct b; [|done].
  apply IH; [done|]. intros cp2 sv n2 a2 H1 H2 H3 H4. apply Hf; [done..| |done].
  enough (size (skip n' (String c s)) ≤ size (String c s)) by lia.
  clear. unfold skip, size. generalize (Z.to_nat n'). generalize (String c s). clear. intros s.
  induction s as [|c s IH]; intros [|m]; cbn; [lia..|]. specialize (IH m). lia.
Qed.

Lemma find_escape_found s at_ n cp : find_escape s = Some (at_, n, cp) → 0 ≤ cp ∧ 1 ≤ n ∧ 1 ≤ size at_ ≤ size s.
Proof.
  intros H. enough (Hp : match find_escape s with Some (a, n, cp) => 0 ≤ cp ∧ 1 ≤ n ∧ 1 ≤ size a ≤ size s | None => True end)
    by by rewrite H in Hp.
  unfold find_escape. apply for_each_invariant; [done|]. intros cp' sv n' a H1 H2 H3 H4.
  by destruct (needs_escape cp').
Qed.

Lemma skip_shorter n s : 1 ≤ n → 1 ≤ size s → size (skip n s) < size s.
Proof.
  intros Hn Hs. destruct s as [|c s]; [done|]. unfold skip, size. replace (Z.to_nat n) with (S (Z.to_nat (n - 1))) by lia.
  cbn [drop_chars String.length]. generalize (Z.to_nat (n - 1)). clear. induction s as [|d s IH]; intros [|m]; cbn; [lia..|].
  specialize (IH m). cbn in IH. lia.
Qed.

Lemma escape_loop_returns fuel s : (String.length s ≤ fuel)%nat → ∃ text, escape_loop fuel s = Ret text.
Proof.
  revert s. induction fuel as [|fuel IH]; intros s Hf; cbn [escape_loop];
    (destruct (find_escape s) as [[[at_ n] cp]|] eqn:E; [|by eexists]);
    destruct (find_escape_found _ _ _ _ E) as (H1 & H2 & H3);
    destruct (escaped_cp_returns (prefix_of n at_) cp H1) as [text ->]; cbn [mbind outcome_bind].
  - unfold size in H3. lia.
  - destruct (is_end _); [by eexists|]. pose proof (skip_shorter n at_ H2 ltac:(lia)) as Hs.
    destruct (IH (skip n at_)) as [rest ->]; [|by eexists]. unfold size in Hs, H3. lia.
Qed.

Lemma escaped_string_returns s : ∃ text, write_escaped_string s = Ret text.
Proof. unfold write_escaped_string. destruct (escape_loop_returns (String.length s) s) as [text ->]; [done|]. by eexists. Qed.

Lemma outputs_char c specs : 0 ≤ specs.(width) → outputs (write_char c specs).
Proof.
  intros Hw. unfold write_char. apply outputs_then; [|intros; by apply outputs_padded].
  destruct (_ =? _); [|done]. unfold write_escaped_char. apply outputs_then; [|done].
  destruct (_ || _); [|done]. assert (H : 0 ≤ uint32_of_char c).
  { unfold uint32_of_char. destruct (_ <? _); [apply code_range|apply w32_range]. }
  destruct (escaped_cp_returns (one_char c) _ H) as [text ->]. done.
Qed.

(** *** Integers *)

(** The specifications a writer of integers accepts. *)
Definition int_type_ok (t : Z) : Prop := t ∈ [pres_none; pres_dec; pres_hex; pres_oct; pres_bin; pres_chr].

Lemma int_type_check t : int_type_ok t → t ≠ pres_chr →
  (t =? pres_none) || (t =? pres_dec) || (t =? pres_hex) || (t =? pres_oct) || (t =? pres_bin) = true.
Proof.
  unfold int_type_ok. rewrite !elem_of_cons, elem_of_nil. intros H Hc.
  repeat destruct H as [->|H]; [reflexivity..|done|done].
Qed.

Lemma outputs_digits digits prefix specs : 0 ≤ specs.(width) → outputs (write_digits digits prefix specs).
Proof.
  intros Hw. unfold write_digits. destruct (_ =? 0); [done|]. apply outputs_then; [|intros [sz p]; by apply outputs_padded].
  unfold size_padding. destruct (bool_decide _).
  - rewrite outputs_unsigned by done. cbn [mbind outcome_bind]. by destruct (_ <? _).
  - destruct (Z.ltb_spec (size digits) (precision specs)); [|done]. rewrite outputs_unsigned; [done|].
    pose proof (size_nonneg digits). lia.
Qed.

Lemma outputs_int w v prefix specs :
  1 ≤ w ≤ 64 → 20 ≤ w → 0 ≤ v < 2 ^ w → 0 ≤ specs.(width) → int_type_ok (get_type specs) →
  outputs (write_int w v prefix specs).
Proof.
  intros Hw Hw' Hv Hs Ht. unfold write_int. destruct (Z.eqb_spec (get_type specs) pres_chr); [by apply outputs_char|].
  rewrite int_type_check by done. cbn [check mbind outcome_bind].
  destruct (_ =? pres_hex); [|destruct (_ =? pres_oct); [|destruct (_ =? pres_bin)]].
  - destruct (base2e_buffer w 4 v (upper specs) Hw ltac:(lia) Hv) as (m & text & ->). by apply outputs_digits.
  - destruct (base2e_buffer w 3 v false Hw ltac:(lia) Hv) as (m & text & ->). by apply outputs_digits.
  - destruct (base2e_buffer w 1 v false Hw ltac:(lia) Hv) as (m & text & ->). by apply outputs_digits.
  - assert (2 ^ w ≤ 2 ^ 64) by (apply Z.pow_le_mono_r; lia). pose proof (text_size_bound v ltac:(lia)).
    rewrite do_format_decimal_text; [by apply outputs_digits|lia|apply decimal_fuel; lia|lia].
Qed.

(** *** Groups *)

(** Separators are written only when there is a grouping. *)
Definition grouping_ok (g : digit_grouping) : Prop := g.(thousands_sep_) ≠ EmptyString → g.(grouping_) ≠ EmptyString.

(** The position is not negative; where the grouping has ended, its last
    character is positive. *)
Definition group_state (g : digit_grouping) (st : string * Z) : Prop :=
  0 ≤ st.2 ∧
  (g.(thousands_sep_) ≠ EmptyString →
   match st.1 with
   | EmptyString => ∃ c, last_char g.(grouping_) = Some c ∧ 1 ≤ char_value c
   | r => last_char r = last_char g.(grouping_)
   end).

Lemma next_group_moves g st :
  group_state g st → ∃ i st', next_group g st = Ret (i, st') ∧ group_state g st' ∧
    ((i = INT_MAX ∧ st' = st) ∨ (i = st'.2 ∧ st.2 + 1 ≤ st'.2)).
Proof.
  destruct st as [r pos]. intros [Hp Hr]. unfold next_group. cbn [fst snd] in *. unfold is_end.
  destruct (String.eqb_spec (thousands_sep_ g) ""); [eexists _, _; split_and!; eauto; by split|].
  specialize (Hr ltac:(done)). destruct r as [|c r].
  - destruct Hr as (c & Hc & Hc1). rewrite Hc. eexists _, _. split; [reflexivity|]. split; [|right; cbn; lia].
    split; cbn; [lia|]. intros _. by exists c.
  - destruct ((char_value c <=? 0) || (char_value c =? 127)) eqn:Hb.
    { eexists _, _. split; [reflexivity|]. split; [|by left]. by split. }
    apply orb_false_iff in Hb as [Hb%Z.leb_gt _]. eexists _, _. split; [reflexivity|]. split; [|right; cbn; lia].
    split; cbn [fst snd]; [lia|]. intros _. destruct r as [|d r]; [|done]. exists c. split; [done|lia].
Qed.

Lemma group_state_start g : grouping_ok g → group_state g (g.(grouping_), 0).
Proof. intros Hg. split; [done|]. intros Hs. cbn [fst]. specialize (Hg Hs). by destruct (grouping_ g). Qed.

Lemma count_loop_returns fuel g num count st :
  group_state g st → num ≤ Z.of_nat fuel + st.2 → num ≤ INT_MAX → ∃ m, count_loop fuel g num count st = Ret m.
Proof.
  revert count st. induction fuel as [|fuel IH]; intros count st Hst Hf Hm; cbn [count_loop];
    destruct (next_group_moves g st Hst) as (i & st' & -> & Hst' & Hi); cbn [mbind outcome_bind];
    (destruct (Z.ltb_spec i num); [|by eexists]); (destruct Hi as [[-> ->]|[-> Hi]]; [lia|]); [lia|].
  apply IH; [done|lia|done].
Qed.

Lemma separators_loop_returns fuel g num l st :
  group_state g st → num ≤ Z.of_nat fuel + st.2 → num ≤ INT_MAX →
  ∃ l', separators_loop fuel g num (l ++ [0]) st = Ret (l' ++ [0]).
Proof.
  revert l st. induction fuel as [|fuel IH]; intros l st Hst Hf Hm; cbn [separators_loop];
    destruct (next_group_moves g st Hst) as (i & st' & -> & Hst' & Hi); cbn [mbind outcome_bind];
    (destruct (Z.eqb_spec i 0); [by eexists|]); cbn [orb]; (destruct (Z.leb_spec num i); [by eexists|]);
    (destruct Hi as [[-> ->]|[-> Hi]]; [lia|]); [lia|].
  apply (IH (st'.2 :: l)); [done|lia|done].
Qed.

Lemma apply_loop_returns sep l digits : ∃ text, apply_loop sep (l ++ [0]) digits = Ret text.
Proof.
  revert l. induction digits as [|d digits IH]; intros l; [by destruct l; eexists|].
  destruct l as [|s l]; cbn [app apply_loop].
  - destruct (Z.eqb_spec (size (String d digits)) 0) as [E|_].
    { rewrite size_cons in E. pose proof (size_nonneg digits). lia. }
    destruct (IH []) as [t E]. cbn [app] in E. rewrite E. by eexists.
  - destruct (_ =? s).
    + destruct (IH l) as [t ->]. by eexists.
    + destruct (IH (s :: l)) as [t E]. cbn [app] in E. rewrite E. by eexists.
Qed.

Lemma apply_returns g digits : grouping_ok g → size digits ≤ INT_MAX → ∃ text, apply g digits = Ret text.
Proof.
  intros Hg Hd. unfold apply.
  destruct (separators_loop_returns (String.length digits) g (size digits) [] (g.(grouping_), 0)) as [l E];
    [by apply group_state_start|cbn; unfold size; lia|done|].
  cbn [app] in E. rewrite E. cbn [mbind outcome_bind]. apply apply_loop_returns.
Qed.

Lemma size_natural v : size (natural_text v) = text_size v.
Proof. done. Qed.

Lemma outputs_grouped v prefix specs g :
  0 ≤ v < 2 ^ 64 → 0 ≤ specs.(width) → int_type_ok (get_type specs) → grouping_ok g →
  outputs (write_int_grouped v prefix specs g).
Proof.
  intros Hv Hs Ht Hg. unfold write_int_grouped. destruct (Z.eqb_spec (get_type specs) pres_chr); [by apply outputs_char|].
  rewrite int_type_check by done. cbn [check mbind outcome_bind].
  apply (outputs_bind _ _ (λ '(n, digits, _), n ≤ 65 ∧ size digits ≤ 65)).
  - pose proof (λ b u Hb, format_base2e_returns b v u Hb Hv) as Hf.
    pose proof (λ b Hb, count_base2e_bound bits_fuel b v 0 Hb) as Hc. change (Z.of_nat bits_fuel) with 64 in Hc.
    assert (Hp : ∀ b, 1 ≤ b → 0 ≤ v < 2 ^ (b * (64 + 1))).
    { intros b Hb. pose proof (pow_le_bits 64 b 65 ltac:(lia) Hb). replace (64 + 1) with 65 by lia. lia. }
    destruct (_ =? pres_hex); [|destruct (_ =? pres_oct); [|destruct (_ =? pres_bin)]].
    + destruct (Hf 4 (upper specs) ltac:(lia)) as (t & -> & ?). destruct (Hc 4 ltac:(lia) (Hp 4 ltac:(lia))) as [? _].
      cbn [mbind outcome_bind]. lia.
    + destruct (Hf 3 false ltac:(lia)) as (t & -> & ?). destruct (Hc 3 ltac:(lia) (Hp 3 ltac:(lia))) as [? _].
      cbn [mbind outcome_bind]. lia.
    + destruct (Hf 1 false ltac:(lia)) as (t & -> & ?). destruct (Hc 1 ltac:(lia) (Hp 1 ltac:(lia))) as [? _].
      cbn [mbind outcome_bind]. lia.
    + rewrite count_digits64, format_decimal_text by done. cbn [mbind outcome_bind]. rewrite size_natural.
      pose proof (text_size_bound v Hv). lia.
  - intros [[k digits] prefix'] [Hn Hd].
    destruct (count_loop_returns (Z.to_nat k) g k 0 (grouping_ g, 0)) as [m Em];
      [by apply group_state_start|cbn; lia|unfold INT_MAX; lia|].
    unfold count_separators. rewrite Em. cbn [mbind outcome_bind].
    destruct (apply_returns g digits Hg) as [t ->]; [unfold INT_MAX; lia|]. by apply outputs_padded.
Qed.

Section localized_safety.
Context {L : GlobalLocale}.

Lemma format_facet_ok : grouping_ok format_facet.
Proof. unfold grouping_ok, format_facet, is_end. cbn. by destruct (String.eqb_spec np_grouping ""). Qed.

Lemma int_arg_range w v s : 0 ≤ w → 0 ≤ (make_write_int_arg w v s).1 < 2 ^ w.
Proof.
  intros Hw. unfold make_write_int_arg. assert (0 < 2 ^ w) by (apply Z.pow_pos_nonneg; lia).
  destruct (v <? 0); apply Z.mod_pos_bound; done.
Qed.

Lemma outputs_integer w v specs :
  w = 32 ∨ w = 64 → 0 ≤ specs.(width) → int_type_ok (get_type specs) → outputs (write_integer w v specs).
Proof.
  intros Hw Hs Ht. pose proof (int_arg_range w v (get_sign specs) ltac:(lia)) as Hr.
  assert (2 ^ w ≤ 2 ^ 64) by (destruct Hw as [->| ->]; lia).
  unfold write_integer, write_loc. destruct (make_write_int_arg _ _ _) as [a p]. cbn [fst] in Hr.
  destruct (localized specs); [apply outputs_grouped|apply outputs_int]; try done; try lia. apply format_facet_ok.
Qed.

Lemma outputs_bool b specs :
  0 ≤ specs.(width) → get_type specs ∈ allowed_types bool_type → outputs (write_bool b specs).
Proof.
  intros Hs Ht. unfold write_bool.
  destruct (Z.eqb_spec (get_type specs) pres_none), (Z.eqb_spec (get_type specs) pres_string); cbn [negb andb];
    try by apply outputs_padded. apply outputs_integer; [by left|done|].
  revert Ht. change (allowed_types bool_type) with [0; 3; 4; 5; 6; 7; 2]. unfold int_type_ok, pres_none, pres_dec, pres_hex, pres_oct, pres_bin, pres_chr, pres_string in *.
  rewrite !elem_of_cons. intuition.
Qed.

(** [check_char_specs] does not depend on a state. *)
Definition char_check (specs : format_specs) : outcome bool := (check_char_specs specs tt).1.

Lemma check_char_run {S} specs (s : S) : check_char_specs specs s = (char_check specs, s).
Proof. unfold char_check, check_char_specs. destruct (_ && _); [done|]. by destruct (_ || _). Qed.

Lemma char_check_error specs : match char_check specs with Ret _ => True | Throw e => format_error e | Crash _ => False end.
Proof. unfold char_check, check_char_specs. destruct (_ && _); [done|]. destruct (_ || _); [by eexists|done]. Qed.

(** A character is written when the check passes. *)
Lemma character_written c specs :
  0 ≤ specs.(width) → get_type specs ∈ allowed_types char_type →
  match char_check specs with
  | Ret _ => outputs (write_character c specs)
  | Throw e => write_character c specs = Throw e
  | Crash _ => False
  end.
Proof.
  intros Hs Ht. unfold write_character. cbn [mbind outcome_bind]. rewrite check_char_run.
  unfold char_check, check_char_specs.
  set (t := get_type specs) in *. destruct (Z.eqb_spec t pres_none), (Z.eqb_spec t pres_chr), (Z.eqb_spec t pres_debug); cbn [negb andb].
  8:{ cbn. apply outputs_integer; [by left|done|]. fold t. revert Ht. change (allowed_types char_type) with [0; 3; 4; 5; 6; 7; 1].
      unfold int_type_ok, pres_none, pres_dec, pres_hex, pres_oct, pres_bin, pres_chr, pres_debug in *. rewrite !elem_of_cons. intuition. }
  all: destruct (_ || _); cbn; [done|]; by apply outputs_char.
Qed.

End localized_safety.

(** *** Text *)

Lemma measure_invariant is_debug limit cp sv n acc :
  0 ≤ cp → outputs acc → outputs (measure_step is_debug limit cp sv n acc).1.
Proof.
  intros Hcp Ha. destruct acc as [[dw sz]|e|f]; cbn [measure_step]; [|done..]. destruct (is_debug && needs_escape cp).
  - destruct (escaped_cp_returns (prefix_of n sv) cp Hcp) as [t ->].
    destruct (_ <=? limit); [|done]. by destruct (_ && _).
  - destruct (_ <=? limit); [|done]. by destruct (_ && _).
Qed.

Lemma outputs_string s specs : 0 ≤ specs.(width) → outputs (write_string s specs).
Proof.
  intros Hw. unfold write_string. destruct (escaped_string_returns s) as [t Et].
  destruct (_ && _); [destruct (_ =? _); [by rewrite Et|done]|].
  apply outputs_then.
  - apply for_each_invariant; [done|]. intros cp sv n a H1 H2 H3 H4. by apply measure_invariant.
  - intros [dw sz]. apply outputs_then; [destruct (_ =? _); [by rewrite Et|done]|]. intros text. by apply outputs_padded.
Qed.

Lemma cstring_written a s specs : 0 ≤ a < 2 ^ 64 → 0 ≤ specs.(width) →
  outputs (write_cstring a s specs) ∨
  (write_cstring a s specs = Throw (runtime_error "string pointer is null") ∧ a = 0).
Proof.
  intros Ha Hw. unfold write_cstring. destruct (_ =? pres_pointer).
  - left. apply outputs_ptr; [done|]. by intros ? [= <-].
  - destruct (Z.eqb_spec a 0); [by right|left]. by apply outputs_string.
Qed.

(** The default format is the plain text of the number. *)
Lemma default_integer_text w v :
  w = 32 ∨ w = 64 → - 2 ^ (w - 1) ≤ v < 2 ^ w → write_default_integer w v = Ret (int_text v).
Proof.
  intros Hw Hv. unfold write_default_integer, int_text. cbv zeta.
  assert (Hp : 2 ^ (w - 1) * 2 = 2 ^ w ∧ 2 ^ w ≤ 2 ^ 64) by (destruct Hw as [->| ->]; lia).
  assert (Hd : ∀ a, 0 ≤ a < 2 ^ w →
    format_decimal a (if w =? 32 then do_count_digits32 a else do_count_digits64 a) = Ret (natural_text a)).
  { intros a Ha. apply format_decimal_text; [lia|]. destruct Hw as [->| ->]; cbn [Z.eqb Pos.eqb].
    - apply count_digits32. lia.
    - apply count_digits64. lia. }
  destruct (Z.ltb_spec v 0).
  - replace ((2 ^ w - 1 - v mod 2 ^ w + 1) mod 2 ^ w) with (- v).
    2:{ replace (2 ^ w - 1 - v mod 2 ^ w + 1) with (0 - v mod 2 ^ w + 1 * 2 ^ w) by lia.
        rewrite Z.mod_add, Zminus_mod_idemp_r by lia. symmetry. apply Z.mod_small. lia. }
    rewrite Hd by lia. done.
  - rewrite Z.mod_small by lia. rewrite Hd by lia. done.
Qed.
