(* ===== verification/FmtUtf8.v ===== *)
(** * The UTF-8 decoder of fmt against the definition of UTF-8

    [encode] is UTF-8 as RFC 3629 defines it. [utf8_decode], which loads four
    bytes at once and collects its errors in the bits of one number, decodes
    exactly the encodings of the Unicode scalar values: no overlong form, no
    surrogate, nothing above 0x10FFFF and nothing cut short. *)
From Stdlib Require Import Ascii.
From S2P Require Import Prelude FmtInt FmtSpecs FmtParse FmtUnicode FmtWrite.

(** ** UTF-8 *)

Definition scalar (cp : Z) : Prop := 0 ≤ cp ≤ 0x10FFFF ∧ ¬ (0xD800 ≤ cp ≤ 0xDFFF).

Definition tail_byte (v : Z) : ascii := char_of (0x80 + v mod 64).

Definition encode (cp : Z) : string :=
  if cp <? 0x80 then one_char (char_of cp)
  else if cp <? 0x800 then String (char_of (0xC0 + cp / 64)) (one_char (tail_byte cp))
  else if cp <? 0x10000 then
    String (char_of (0xE0 + cp / 4096)) (String (tail_byte (cp / 64)) (one_char (tail_byte cp)))
  else
    String (char_of (0xF0 + cp / 262144))
      (String (tail_byte (cp / 4096)) (String (tail_byte (cp / 64)) (one_char (tail_byte cp)))).

Lemma code_char_of v : 0 ≤ v < 256 → code (char_of v) = v.
Proof. intros Hv. unfold code, char_of. rewrite Z.mod_small, nat_ascii_embedding by lia. lia. Qed.

Lemma char_of_code c : char_of (code c) = c.
Proof.
  pose proof (code_range c). unfold char_of. rewrite Z.mod_small by done. unfold code.
  by rewrite Nat2Z.id, ascii_nat_embedding.
Qed.

Lemma code_tail v : code (tail_byte v) = 0x80 + v mod 64.
Proof. apply code_char_of. pose proof (Z.mod_pos_bound v 64). lia. Qed.

Lemma byte_range i s : 0 ≤ byte_at i s < 256.
Proof. revert i. induction s as [|c s IH]; intros [|i]; cbn; [done..|apply code_range|apply IH]. Qed.

(** The code point before the shift. *)
Lemma code_point_sum a s1 s2 s3 :
  Z.lor (Z.lor (Z.lor (Z.shiftl a 18) (Z.shiftl (Z.land s1 0x3f) 12)) (Z.shiftl (Z.land s2 0x3f) 6)) (Z.land s3 0x3f) =
  a * 262144 + s1 mod 64 * 4096 + s2 mod 64 * 64 + s3 mod 64.
Proof.
  rewrite !(land_ones _ 0x3f 6), !Z.shiftl_mul_pow2 by done. change (2 ^ 6) with 64. change (2 ^ 12) with 4096.
  change (2 ^ 18) with 262144.
  pose proof (Z.mod_pos_bound s1 64 ltac:(lia)). pose proof (Z.mod_pos_bound s2 64 ltac:(lia)).
  pose proof (Z.mod_pos_bound s3 64 ltac:(lia)).
  rewrite (lor_add (a * 262144) a 18) by lia.
  rewrite (lor_add (a * 262144 + s1 mod 64 * 4096) (a * 64 + s1 mod 64) 12) by lia.
  rewrite (lor_add _ (a * 4096 + s1 mod 64 * 64 + s2 mod 64) 6) by lia. lia.
Qed.

(** ** The errors *)

Definition error_bits (f1 f2 f3 t1 t2 t3 len : Z) : Z :=
  let e := Z.shiftl f1 6 in
  let e := Z.lor e (Z.shiftl f2 7) in
  let e := Z.lor e (Z.shiftl f3 8) in
  let e := Z.lor e (t1 * 16) in
  let e := Z.lor e (t2 * 4) in
  let e := Z.lor e t3 in
  Z.shiftr (Z.lxor e 0x2a) (at_row shifte len).

(** No flag is set, and the bytes after the first are tail bytes. *)
Definition no_error (f1 f2 f3 t1 t2 t3 len : Z) : bool :=
  (f1 =? 0) && (f2 =? 0) && (f3 =? 0) && ((len =? 1) || (t1 =? 2)) && ((len =? 1) || (len =? 2) || (t2 =? 2)) &&
  ((len =? 1) || (len =? 2) || (len =? 3) || (t3 =? 2)).

Definition errors_agree (f1 f2 f3 t1 t2 t3 len : Z) : bool :=
  Bool.eqb (error_bits f1 f2 f3 t1 t2 t3 len =? 0) (no_error f1 f2 f3 t1 t2 t3 len).

Lemma error_table :
  forallb (λ f1, forallb (λ f2, forallb (λ f3, forallb (λ t1, forallb (λ t2, forallb (λ t3, forallb (λ len,
    errors_agree f1 f2 f3 t1 t2 t3 len) (seqZ 0 5)) (seqZ 0 4)) (seqZ 0 4)) (seqZ 0 4)) (seqZ 0 2)) (seqZ 0 2)) (seqZ 0 2)
  = true.
Proof. vm_compute. reflexivity. Qed.

Lemma error_bits_zero f1 f2 f3 t1 t2 t3 len :
  0 ≤ f1 < 2 → 0 ≤ f2 < 2 → 0 ≤ f3 < 2 → 0 ≤ t1 < 4 → 0 ≤ t2 < 4 → 0 ≤ t3 < 4 → 0 ≤ len < 5 →
  (error_bits f1 f2 f3 t1 t2 t3 len =? 0) = no_error f1 f2 f3 t1 t2 t3 len.
Proof.
  intros H1 H2 H3 H4 H5 H6 H7. apply Bool.eqb_prop. pose proof (all_below _ _ _ error_table H1) as T. cbv beta in T.
  apply (all_below _ _ _) with (1 := T) in H2. cbv beta in H2. apply (all_below _ _ _) with (1 := H2) in H3. cbv beta in H3.
  apply (all_below _ _ _) with (1 := H3) in H4. cbv beta in H4. apply (all_below _ _ _) with (1 := H4) in H5. cbv beta in H5.
  apply (all_below _ _ _) with (1 := H5) in H6. cbv beta in H6. by apply (all_below _ _ _) with (1 := H6) in H7.
Qed.

(** The length a first byte announces. *)
Definition length_of (s0 : Z) : Z :=
  if s0 <? 0x80 then 1 else if s0 <? 0xC0 then 0 else if s0 <? 0xE0 then 2 else if s0 <? 0xF0 then 3
  else if s0 <? 0xF8 then 4 else 0.

Lemma length_row s0 : 0 ≤ s0 < 256 → at_row utf8_lengths (Z.shiftr s0 3) = length_of s0.
Proof.
  intros H. apply Z.eqb_eq. revert H. apply (all_below (λ s0, at_row utf8_lengths (Z.shiftr s0 3) =? length_of s0)).
  vm_compute. reflexivity.
Qed.

Lemma top_bits s : 0 ≤ s < 256 →
  Z.shiftr (Z.land s 0xc0) 2 = s / 64 * 16 ∧ Z.shiftr (Z.land s 0xc0) 4 = s / 64 * 4 ∧ Z.shiftr s 6 = s / 64.
Proof.
  intros H. enough (((Z.shiftr (Z.land s 0xc0) 2 =? s / 64 * 16) && (Z.shiftr (Z.land s 0xc0) 4 =? s / 64 * 4) &&
    (Z.shiftr s 6 =? s / 64)) = true) as E by (rewrite !andb_true_iff, !Z.eqb_eq in E; tauto).
  revert H. apply (all_below (λ s, (Z.shiftr (Z.land s 0xc0) 2 =? s / 64 * 16) &&
    (Z.shiftr (Z.land s 0xc0) 4 =? s / 64 * 4) && (Z.shiftr s 6 =? s / 64))). vm_compute. reflexivity.
Qed.

(** ** What the decoder computes *)

(** The payload of the first byte. *)
Definition first_bits (s0 len : Z) : Z :=
  if len =? 1 then s0 mod 128 else if len =? 2 then s0 mod 32 else if len =? 3 then s0 mod 16
  else if len =? 4 then s0 mod 8 else 0.

Definition point (s0 s1 s2 s3 len : Z) : Z :=
  if len =? 1 then first_bits s0 1
  else if len =? 2 then first_bits s0 2 * 64 + s1 mod 64
  else if len =? 3 then first_bits s0 3 * 4096 + s1 mod 64 * 64 + s2 mod 64
  else if len =? 4 then first_bits s0 4 * 262144 + s1 mod 64 * 4096 + s2 mod 64 * 64 + s3 mod 64
  else s1 mod 64 * 4096 + s2 mod 64 * 64 + s3 mod 64.

Definition flag (b : bool) : Z := if b then 1 else 0.

Lemma length_cases s0 : length_of s0 = 0 ∨ length_of s0 = 1 ∨ length_of s0 = 2 ∨ length_of s0 = 3 ∨ length_of s0 = 4.
Proof. unfold length_of. repeat case_match; auto. Qed.

Lemma mask_bits s0 len : 0 ≤ len < 5 → Z.land s0 (at_row masks len) = first_bits s0 len.
Proof.
  intros H. assert (len = 0 ∨ len = 1 ∨ len = 2 ∨ len = 3 ∨ len = 4) as Hc by lia.
  destruct Hc as [->|[->|[->|[->| ->]]]]; cbn [at_row Z.to_nat Pos.to_nat];
    unfold at_row, masks, first_bits; cbn [Z.eqb Pos.eqb nth Z.to_nat Pos.to_nat Pos.iter_op Nat.add].
  - apply Z.land_0_r.
  - by apply (land_ones _ _ 7).
  - by apply (land_ones _ _ 5).
  - by apply (land_ones _ _ 4).
  - by apply (land_ones _ _ 3).
Qed.

Lemma shift_point s0 s1 s2 s3 len : 0 ≤ len < 5 →
  Z.shiftr (first_bits s0 len * 262144 + s1 mod 64 * 4096 + s2 mod 64 * 64 + s3 mod 64) (at_row shiftc len) =
  point s0 s1 s2 s3 len.
Proof.
  intros H. pose proof (Z.mod_pos_bound s1 64 ltac:(lia)). pose proof (Z.mod_pos_bound s2 64 ltac:(lia)).
  pose proof (Z.mod_pos_bound s3 64 ltac:(lia)).
  assert (len = 0 ∨ len = 1 ∨ len = 2 ∨ len = 3 ∨ len = 4) as Hc by lia.
  rewrite Z.shiftr_div_pow2 by (destruct Hc as [->|[->|[->|[->| ->]]]]; done).
  destruct Hc as [->|[->|[->|[->| ->]]]]; unfold point; cbn [Z.eqb Pos.eqb].
  - change (2 ^ at_row shiftc 0) with 1. rewrite Z.div_1_r. unfold first_bits. cbn [Z.eqb]. lia.
  - change (2 ^ at_row shiftc 1) with 262144. symmetry. apply (Z.div_unique _ _ _ (s1 mod 64 * 4096 + s2 mod 64 * 64 + s3 mod 64)); lia.
  - change (2 ^ at_row shiftc 2) with 4096. symmetry. apply (Z.div_unique _ _ _ (s2 mod 64 * 64 + s3 mod 64)); lia.
  - change (2 ^ at_row shiftc 3) with 64. symmetry. apply (Z.div_unique _ _ _ (s3 mod 64)); lia.
  - change (2 ^ at_row shiftc 4) with 1. by rewrite Z.div_1_r.
Qed.

Lemma decode_spec s s0 s1 s2 s3 len c :
  byte_at 0 s = s0 → byte_at 1 s = s1 → byte_at 2 s = s2 → byte_at 3 s = s3 → length_of s0 = len → point s0 s1 s2 s3 len = c →
  ∃ e, utf8_decode s = (len + flag (len =? 0), c, e) ∧
    (e =? 0) = no_error (flag (c <? at_row mins len)) (flag (Z.shiftr c 11 =? 0x1b)) (flag (0x10FFFF <? c))
                 (s1 / 64) (s2 / 64) (s3 / 64) len.
Proof.
  intros H0 H1 H2 H3 Hl Hc. pose proof (byte_range 0 s) as R0. pose proof (byte_range 1 s) as R1.
  pose proof (byte_range 2 s) as R2. pose proof (byte_range 3 s) as R3. rewrite H0, H1, H2, H3 in *.
  assert (Hlen : 0 ≤ len < 5) by (subst len; destruct (length_cases s0) as [->|[->|[->|[->| ->]]]]; lia).
  unfold utf8_decode. cbv zeta. rewrite H0, H1, H2, H3, (length_row s0 R0), Hl, mask_bits by done.
  rewrite code_point_sum, shift_point, Hc by done.
  destruct (top_bits s1 R1) as (-> & _ & _). destruct (top_bits s2 R2) as (_ & -> & _). destruct (top_bits s3 R3) as (_ & _ & ->).
  eexists. split; [reflexivity|].
  apply (error_bits_zero (flag (c <? at_row mins len)) (flag (Z.shiftr c 11 =? 0x1b)) (flag (0x10FFFF <? c)));
    try (unfold flag; case_match; lia); try done; (split; [by apply Z.div_pos; lia|apply Z.div_lt_upper_bound; lia]).
Qed.

Lemma byte_end i s : String.length s = i → byte_at i s = 0.
Proof. revert i. induction s as [|c s IH]; intros [|i]; cbn; try done. intros [= H]. by apply IH. Qed.

(** ** Encodings are decoded *)

Lemma decoded s s0 s1 s2 s3 len cp :
  byte_at 0 s = s0 → byte_at 1 s = s1 → byte_at 2 s = s2 → byte_at 3 s = s3 → length_of s0 = len →
  point s0 s1 s2 s3 len = cp → 1 ≤ len → scalar cp → at_row mins len ≤ cp →
  (2 ≤ len → s1 / 64 = 2) → (3 ≤ len → s2 / 64 = 2) → (4 ≤ len → s3 / 64 = 2) →
  utf8_decode s = (len, cp, 0).
Proof.
  intros H0 H1 H2 H3 Hl Hp Hlen [Hr Hs] Hm T1 T2 T3. destruct (decode_spec s _ _ _ _ _ _ H0 H1 H2 H3 Hl Hp) as (e & -> & He).
  assert (Hle : len ≤ 4) by (subst len; destruct (length_cases s0) as [->|[->|[->|[->| ->]]]]; lia).
  rewrite (proj2 (Z.eqb_neq len 0)) by lia. unfold flag at 1. rewrite Z.add_0_r.
  rewrite (proj2 (Z.ltb_ge cp _)) in He by done. rewrite (proj2 (Z.ltb_ge 0x10FFFF cp)) in He by lia.
  rewrite Z.shiftr_div_pow2 in He by lia. rewrite (proj2 (Z.eqb_neq (cp / 2 ^ 11) 0x1b)) in He.
  2:{ intros E. change (2 ^ 11) with 2048 in E. Z.div_mod_to_equations. lia. }
  enough ((e =? 0) = true) as ->%Z.eqb_eq by done. rewrite He. unfold no_error, flag. cbn [Z.eqb andb].
  rewrite !andb_true_iff, !orb_true_iff, !Z.eqb_eq. split_and!; lia.
Qed.

Lemma mins_rows : at_row mins 1 = 0 ∧ at_row mins 2 = 0x80 ∧ at_row mins 3 = 0x800 ∧ at_row mins 4 = 0x10000.
Proof. done. Qed.

Lemma encode_decode cp r : scalar cp → utf8_decode (encode cp +:+ r) = (size (encode cp), cp, 0).
Proof.
  intros Hs. pose proof Hs as [Hr _]. pose proof mins_rows as (M1 & M2 & M3 & M4). unfold encode. pose proof (code_tail cp) as T0.
  pose proof (code_tail (cp / 64)) as T1. pose proof (code_tail (cp / 4096)) as T2.
  destruct (Z.ltb_spec cp 0x80); [|destruct (Z.ltb_spec cp 0x800); [|destruct (Z.ltb_spec cp 0x10000)]].
  - match goal with |- _ = (?x, _, _) => change x with 1 end.
    apply (decoded _ cp (byte_at 0 r) (byte_at 1 r) (byte_at 2 r)); try done; try lia.
    + apply code_char_of. lia.
    + unfold length_of. by rewrite (proj2 (Z.ltb_lt cp 0x80)).
    + unfold point, first_bits. cbn [Z.eqb Pos.eqb]. apply Z.mod_small. lia.
  - assert (C : code (char_of (0xC0 + cp / 64)) = 0xC0 + cp / 64) by (apply code_char_of; Z.div_mod_to_equations; lia).
    match goal with |- _ = (?x, _, _) => change x with 2 end.
    apply (decoded _ (0xC0 + cp / 64) (0x80 + cp mod 64) (byte_at 0 r) (byte_at 1 r)); try done; try (Z.div_mod_to_equations; lia).
    + unfold length_of. rewrite (proj2 (Z.ltb_ge _ 0x80)), (proj2 (Z.ltb_ge _ 0xC0)), (proj2 (Z.ltb_lt _ 0xE0)); [done|Z.div_mod_to_equations; lia..].
    + unfold point, first_bits. cbn [Z.eqb Pos.eqb]. Z.div_mod_to_equations; lia.
  - assert (C : code (char_of (0xE0 + cp / 4096)) = 0xE0 + cp / 4096) by (apply code_char_of; Z.div_mod_to_equations; lia).
    match goal with |- _ = (?x, _, _) => change x with 3 end.
    apply (decoded _ (0xE0 + cp / 4096) (0x80 + (cp / 64) mod 64) (0x80 + cp mod 64) (byte_at 0 r)); try done;
      try (Z.div_mod_to_equations; lia).
    + unfold length_of. rewrite (proj2 (Z.ltb_ge _ 0x80)), (proj2 (Z.ltb_ge _ 0xC0)), (proj2 (Z.ltb_ge _ 0xE0)), (proj2 (Z.ltb_lt _ 0xF0));
        [done|Z.div_mod_to_equations; lia..].
    + unfold point, first_bits. cbn [Z.eqb Pos.eqb]. Z.div_mod_to_equations; lia.
  - assert (C : code (char_of (0xF0 + cp / 262144)) = 0xF0 + cp / 262144) by (apply code_char_of; Z.div_mod_to_equations; lia).
    match goal with |- _ = (?x, _, _) => change x with 4 end.
    apply (decoded _ (0xF0 + cp / 262144) (0x80 + (cp / 4096) mod 64) (0x80 + (cp / 64) mod 64) (0x80 + cp mod 64)); try done;
      try (Z.div_mod_to_equations; lia).
    + unfold length_of. rewrite (proj2 (Z.ltb_ge _ 0x80)), (proj2 (Z.ltb_ge _ 0xC0)), (proj2 (Z.ltb_ge _ 0xE0)), (proj2 (Z.ltb_ge _ 0xF0)), (proj2 (Z.ltb_lt _ 0xF8));
        [done|Z.div_mod_to_equations; lia..].
    + unfold point, first_bits. cbn [Z.eqb Pos.eqb]. Z.div_mod_to_equations; lia.
Qed.

(** ** Only encodings are decoded *)

Lemma char_is c v : code c = v → char_of v = c.
Proof. intros <-. apply char_of_code. Qed.

Lemma tail_is c v : code c / 64 = 2 → code c mod 64 = v mod 64 → tail_byte v = c.
Proof. intros H1 H2. unfold tail_byte. apply char_is. pose proof (Z.div_mod (code c) 64). lia. Qed.

(** A byte that is not zero is one of the text. *)
Lemma byte_there i s : byte_at i s ≠ 0 → (i < String.length s)%nat.
Proof. revert i. induction s as [|c s IH]; intros [|i]; cbn; try done; [lia|]. intros H. apply IH in H. lia. Qed.

Lemma no_error_facts f1 f2 f3 t1 t2 t3 len :
  no_error f1 f2 f3 t1 t2 t3 len = true →
  f1 = 0 ∧ f2 = 0 ∧ f3 = 0 ∧ (len ≠ 1 → t1 = 2) ∧ (len ≠ 1 → len ≠ 2 → t2 = 2) ∧ (len ≠ 1 → len ≠ 2 → len ≠ 3 → t3 = 2).
Proof. unfold no_error. rewrite !andb_true_iff, !orb_true_iff, !Z.eqb_eq. intros H. split_and!; try tauto; lia. Qed.

Lemma flag_zero b : flag b = 0 → b = false.
Proof. by destruct b. Qed.

Lemma scalar_point c : 0 ≤ c → (0x10FFFF <? c) = false → (Z.shiftr c 11 =? 0x1b) = false → scalar c.
Proof.
  rewrite Z.ltb_ge, Z.eqb_neq, Z.shiftr_div_pow2 by lia. change (2 ^ 11) with 2048. intros H1 H2 H3.
  split; [lia|]. intros H. apply H3. Z.div_mod_to_equations. lia.
Qed.

Lemma decoded_one c0 r : let s := String c0 r in length_of (code c0) = 1 → s = encode (code c0) +:+ r.
Proof.
  intros s H. subst s. pose proof (code_range c0). unfold length_of in H. unfold encode.
  destruct (Z.ltb_spec (code c0) 0x80); [|repeat case_match; lia]. by rewrite char_of_code.
Qed.

Lemma decoded_two c0 c1 r c : length_of (code c0) = 2 → code c1 / 64 = 2 → c = code c0 mod 32 * 64 + code c1 mod 64 →
  0x80 ≤ c → String c0 (String c1 r) = encode c +:+ r ∧ size (encode c) = 2.
Proof.
  intros H H1 -> Hm. pose proof (code_range c0). unfold length_of in H.
  assert (Hc : 0xC0 ≤ code c0 < 0xE0) by (repeat case_match; lia).
  pose proof (Z.mod_pos_bound (code c1) 64 ltac:(lia)). unfold encode. set (c := code c0 mod 32 * 64 + code c1 mod 64) in *.
  assert (c < 0x800) by (subst c; Z.div_mod_to_equations; lia).
  rewrite (proj2 (Z.ltb_ge c 0x80)), (proj2 (Z.ltb_lt c 0x800)) by lia.
  rewrite (char_is c0 _), (tail_is c1 c); [done|done|subst c; Z.div_mod_to_equations; lia..].
Qed.

Lemma decoded_three c0 c1 c2 r c : length_of (code c0) = 3 → code c1 / 64 = 2 → code c2 / 64 = 2 →
  c = code c0 mod 16 * 4096 + code c1 mod 64 * 64 + code c2 mod 64 →
  0x800 ≤ c → String c0 (String c1 (String c2 r)) = encode c +:+ r ∧ size (encode c) = 3.
Proof.
  intros H H1 H2 -> Hm. pose proof (code_range c0). unfold length_of in H.
  assert (Hc : 0xE0 ≤ code c0 < 0xF0) by (repeat case_match; lia).
  pose proof (Z.mod_pos_bound (code c1) 64 ltac:(lia)). pose proof (Z.mod_pos_bound (code c2) 64 ltac:(lia)). unfold encode.
  set (c := code c0 mod 16 * 4096 + code c1 mod 64 * 64 + code c2 mod 64) in *.
  assert (c < 0x10000) by (subst c; Z.div_mod_to_equations; lia).
  rewrite (proj2 (Z.ltb_ge c 0x80)), (proj2 (Z.ltb_ge c 0x800)), (proj2 (Z.ltb_lt c 0x10000)) by lia.
  rewrite (char_is c0 _), (tail_is c1 (c / 64)), (tail_is c2 c); [done|done|subst c; Z.div_mod_to_equations; lia|done|subst c; Z.div_mod_to_equations; lia..].
Qed.

Lemma decoded_four c0 c1 c2 c3 r c : length_of (code c0) = 4 → code c1 / 64 = 2 → code c2 / 64 = 2 → code c3 / 64 = 2 →
  c = code c0 mod 8 * 262144 + code c1 mod 64 * 4096 + code c2 mod 64 * 64 + code c3 mod 64 →
  0x10000 ≤ c ≤ 0x10FFFF → String c0 (String c1 (String c2 (String c3 r))) = encode c +:+ r ∧ size (encode c) = 4.
Proof.
  intros H H1 H2 H3 -> Hm. pose proof (code_range c0). unfold length_of in H.
  assert (Hc : 0xF0 ≤ code c0 < 0xF8) by (repeat case_match; lia).
  pose proof (Z.mod_pos_bound (code c1) 64 ltac:(lia)). pose proof (Z.mod_pos_bound (code c2) 64 ltac:(lia)).
  pose proof (Z.mod_pos_bound (code c3) 64 ltac:(lia)). unfold encode.
  set (c := code c0 mod 8 * 262144 + code c1 mod 64 * 4096 + code c2 mod 64 * 64 + code c3 mod 64) in *.
  rewrite (proj2 (Z.ltb_ge c 0x80)), (proj2 (Z.ltb_ge c 0x800)), (proj2 (Z.ltb_ge c 0x10000)) by lia.
  rewrite (char_is c0 _), (tail_is c1 (c / 4096)), (tail_is c2 (c / 64)), (tail_is c3 c);
    [done|done|subst c; Z.div_mod_to_equations; lia|done|subst c; Z.div_mod_to_equations; lia|done
    |subst c; Z.div_mod_to_equations; lia..].
Qed.

Lemma decode_encode s n c : s ≠ EmptyString → utf8_decode s = (n, c, 0) →
  scalar c ∧ n = size (encode c) ∧ ∃ r, s = encode c +:+ r.
Proof.
  intros Hs Hd. destruct (decode_spec s (byte_at 0 s) (byte_at 1 s) (byte_at 2 s) (byte_at 3 s) _ _ eq_refl eq_refl eq_refl eq_refl eq_refl eq_refl)
    as (e & E & He).
  rewrite Hd in E. pose proof (f_equal (λ x, x.1.1) E) as En. pose proof (f_equal (λ x, x.1.2) E) as Ec.
  pose proof (f_equal snd E) as Ee. cbn [fst snd] in En, Ec, Ee. rewrite <- Ee, Z.eqb_refl, <- Ec in He. symmetry in He.
  clear E Ee Hd e.
  apply no_error_facts in He as (F1%flag_zero & F2%flag_zero & F3%flag_zero & T1 & T2 & T3).
  pose proof (Z.mod_pos_bound (byte_at 1 s) 64 ltac:(lia)). pose proof (Z.mod_pos_bound (byte_at 2 s) 64 ltac:(lia)).
  pose proof (Z.mod_pos_bound (byte_at 3 s) 64 ltac:(lia)).
  assert (Hfirst : 0 ≤ first_bits (byte_at 0 s) (length_of (byte_at 0 s))).
  { unfold first_bits. repeat case_match; try lia; apply Z.mod_pos_bound; lia. }
  destruct mins_rows as (M1 & M2 & M3 & M4).
  assert (Hc : 0 ≤ c) by (rewrite Ec; unfold point in *; revert Hfirst; destruct (length_cases (byte_at 0 s)) as [->|[->|[->|[->| ->]]]]; cbn [Z.eqb Pos.eqb]; lia).
  pose proof (scalar_point c Hc F3 F2) as Hsc. split; [done|]. apply Z.ltb_ge in F1, F3.
  destruct (length_cases (byte_at 0 s)) as [E|[E|[E|[E|E]]]]; rewrite E in *; unfold point, first_bits in Ec; cbn [Z.eqb Pos.eqb] in Ec.
  - change (at_row mins 0) with 4194304 in F1. lia.
  - destruct s as [|c0 r]; [done|]. cbn [byte_at] in *. pose proof (code_range c0).
    assert (Hv : c = code c0) by (unfold length_of in E; rewrite Ec; apply Z.mod_small; repeat case_match; lia).
    rewrite Hv. split; [|exists r; by apply decoded_one]. rewrite En. unfold encode, length_of in *.
    destruct (Z.ltb_spec (code c0) 0x80); [done|repeat case_match; lia].
  - specialize (T1 ltac:(lia)). pose proof (byte_there 1 s) as B. destruct s as [|c0 [|c1 r]]; [done|done|]. cbn [byte_at] in *.
    destruct (decoded_two c0 c1 r c) as [-> ->]; [done|done|done|lia|]. split; [by rewrite En|eauto].
  - specialize (T1 ltac:(lia)). specialize (T2 ltac:(lia) ltac:(lia)). destruct s as [|c0 [|c1 [|c2 r]]]; [done|done|done|]. cbn [byte_at] in *.
    destruct (decoded_three c0 c1 c2 r c) as [-> ->]; [done|done|done|done|lia|]. split; [by rewrite En|eauto].
  - specialize (T1 ltac:(lia)). specialize (T2 ltac:(lia) ltac:(lia)). specialize (T3 ltac:(lia) ltac:(lia) ltac:(lia)).
    destruct s as [|c0 [|c1 [|c2 [|c3 r]]]]; [done|done|done|done|]. cbn [byte_at] in *.
    destruct (decoded_four c0 c1 c2 c3 r c) as [-> ->]; [done|done|done|done|done|lia|]. split; [by rewrite En|eauto].
Qed.

(** C40. The decoder is UTF-8's: a text is decoded without an error to a code
    point exactly if it begins with the encoding of this Unicode scalar value,
    and the decoder then goes on behind the encoding. *)
Theorem utf8_decode_correct s n c :
  s ≠ EmptyString →
  utf8_decode s = (n, c, 0) ↔ scalar c ∧ n = size (encode c) ∧ ∃ r, s = encode c +:+ r.
Proof.
  intros Hs. split; [by apply decode_encode|]. intros (Hc & -> & r & ->). by apply encode_decode.
Qed.

(** A surrogate, an overlong slash and a character cut short are errors. *)
Lemma utf8_decode_correct_witness :
  utf8_decode (encode 0x20AC +:+ "!") = (3, 0x20AC, 0) ∧ encode 0x10FFFF = String "244" (String "143" (String "191" (String "191" ""))) ∧
  Forall (λ s, ∃ n c e, utf8_decode s = (n, c, e) ∧ e ≠ 0)
    [String "237" (String "160" (String "128" "")); String "192" (String "175" ""); String "226" (String "130" "")]%string.
Proof.
  split.
  - apply (utf8_decode_correct (encode 0x20AC +:+ "!") 3 0x20AC ltac:(discriminate)).
    split; [unfold scalar; lia|]. split; [reflexivity|]. exists "!"%string. reflexivity.
  - split; [reflexivity|].
    constructor; [|constructor; [|constructor; [|constructor]]]; vm_compute; do 3 eexists; (split; [reflexivity|discriminate]).
Defined.
