(* ===== verification/FmtDragonbox.v ===== *)
(** * spdlog/fmt/bundled: the shortest decimal of a double

    Dragonbox (format-inl.h, format.h), by which fmt prints a double without a
    precision: the double, given as its 64 bits, is scaled by a power of ten
    from a table of 128-bit numbers, kept as every 27th power; the decimal with
    the fewest digits in the rounding interval is found with integer arithmetic
    alone. Divisions by constants are multiplications, and trailing zeros are
    removed by multiplying with inverses modulo a power of two. *)
From Stdlib Require Import Ascii.
From S2P Require Import Prelude FmtInt FmtSpecs FmtWrite.

(** ** 128-bit numbers *)

Record uint128 := { hi_ : Z; lo_ : Z }.
Abbreviation u128 h l := {| hi_ := h; lo_ := l |}.

Definition umul128 (x y : Z) : uint128 := u128 (Z.shiftr (x * y) 64) (w64 (x * y)).
Definition umul128_upper64 (x y : Z) : Z := Z.shiftr (x * y) 64.

(** [operator+=(uint64_t)] *)
Definition add_u64 (x : uint128) (n : Z) : uint128 :=
  let lo := w64 (x.(lo_) + n) in u128 (w64 (x.(hi_) + (if lo <? n then 1 else 0))) lo.

Definition umul192_upper128 (x : Z) (y : uint128) : uint128 :=
  add_u64 (umul128 x y.(hi_)) (umul128_upper64 x y.(lo_)).
Definition umul192_lower128 (x : Z) (y : uint128) : uint128 :=
  let high := w64 (x * y.(hi_)) in
  let high_low := umul128 x y.(lo_) in
  u128 (w64 (high + high_low.(hi_))) high_low.(lo_).

(** Shifts of 64-bit numbers by amounts that are computed. *)
Definition shift_amount (n : Z) : outcome unit :=
  if (0 <=? n) && (n <? 64) then Ret tt else Crash (undefined_behaviour "shift amount").
Definition shr64 (x n : Z) : outcome Z := _ ← shift_amount n; Ret (Z.shiftr x n).
Definition shl64 (x n : Z) : outcome Z := _ ← shift_amount n; Ret (w64 (Z.shiftl x n)).

(** ** Logarithms *)

Definition floor_log10_pow2 (e : Z) : outcome Z :=
  _ ← check ((e <=? 2620) && (-2620 <=? e)); Ret (Z.shiftr (e * 315653) 20).
Definition floor_log2_pow10 (e : Z) : outcome Z :=
  _ ← check ((e <=? 1233) && (-1233 <=? e)); Ret (Z.shiftr (e * 1741647) 19).
Definition floor_log10_pow2_minus_log10_4_over_3 (e : Z) : outcome Z :=
  _ ← check ((e <=? 2936) && (-2985 <=? e)); Ret (Z.shiftr (e * 631305 - 261663) 21).

(** ** [float_info<double>] *)

Definition kappa := 2.
Definition big_divisor := 1000.
Definition small_divisor := 100.
Definition min_k := -292.
Definition max_k := 341.
Definition shorter_interval_tie_lower_threshold := -77.
Definition shorter_interval_tie_upper_threshold := -77.
Definition num_significand_bits := 52.
Definition exponent_mask := 0x7ff0000000000000.
Definition exponent_bias := 1023.
Definition min_exponent := -1021.

(** ** Small divisions *)

Definition magic_number := 656.

(** [check_divisibility_and_divide_by_pow10<2>]: the quotient by 100 and
    whether nothing remains. *)
Definition check_divisibility_and_divide_by_pow10 (n : Z) : outcome (Z * bool) :=
  _ ← check (n <=? small_divisor * 10);
  let n := w32 (n * magic_number) in
  Ret (Z.shiftr n 16, Z.land n 65535 <? magic_number).

Definition divide_by_10_to_kappa_plus_1 (n : Z) : Z := Z.shiftr (umul128_upper64 n 2361183241434822607) 7.

(** ** The table of powers of ten *)

Definition pow10_significands : list uint128 :=
  [u128 0xff77b1fcbebcdc4f 0x25e8e89c13bb0f7b;
   u128 0xce5d73ff402d98e3 0xfb0a3d212dc81290;
   u128 0xa6b34ad8c9dfc06f 0xf42faa48c0ea481f;
   u128 0x86a8d39ef77164bc 0xae5dff9c02033198;
   u128 0xd98ddaee19068c76 0x3badd624dd9b0958;
   u128 0xafbd2350644eeacf 0xe5d1929ef90898fb;
   u128 0x8df5efabc5979c8f 0xca8d3ffa1ef463c2;
   u128 0xe55990879ddcaabd 0xcc420a6a101d0516;
   u128 0xb94470938fa89bce 0xf808e40e8d5b3e6a;
   u128 0x95a8637627989aad 0xdde7001379a44aa9;
   u128 0xf1c90080baf72cb1 0x5324c68b12dd6339;
   u128 0xc350000000000000 0x0000000000000000;
   u128 0x9dc5ada82b70b59d 0xf020000000000000;
   u128 0xfee50b7025c36a08 0x02f236d04753d5b5;
   u128 0xcde6fd5e09abcf26 0xed4c0226b55e6f87;
   u128 0xa6539930bf6bff45 0x84db8346b786151d;
   u128 0x865b86925b9bc5c2 0x0b8a2392ba45a9b3;
   u128 0xd910f7ff28069da4 0x1b2ba1518094da05;
   u128 0xaf58416654a6babb 0x387ac8d1970027b3;
   u128 0x8da471a9de737e24 0x5ceaecfed289e5d3;
   u128 0xe4d5e82392a40515 0x0fabaf3feaa5334b;
   u128 0xb8da1662e7b00a17 0x3d6a751f3b936244;
   u128 0x95527a5202df0ccb 0x0f37801e0c43ebc9;
   u128 0xf13e34aabb430a15 0x647726b9e7c68ff0].

Definition powers_of_5_64 : list Z :=
  [0x0000000000000001; 0x0000000000000005; 0x0000000000000019; 0x000000000000007d; 0x0000000000000271;
   0x0000000000000c35; 0x0000000000003d09; 0x000000000001312d; 0x000000000005f5e1; 0x00000000001dcd65;
   0x00000000009502f9; 0x0000000002e90edd; 0x000000000e8d4a51; 0x0000000048c27395; 0x000000016bcc41e9;
   0x000000071afd498d; 0x0000002386f26fc1; 0x000000b1a2bc2ec5; 0x000003782dace9d9; 0x00001158e460913d;
   0x000056bc75e2d631; 0x0001b1ae4d6e2ef5; 0x000878678326eac9; 0x002a5a058fc295ed; 0x00d3c21bcecceda1;
   0x0422ca8b0a00a425; 0x14adf4b7320334b9].

Definition compression_ratio := 27.

(** The entry [offset] places after a kept one, from [alpha]. *)
Definition recover_cache (base_cache : uint128) (pow5 alpha : Z) : outcome uint128 :=
  _ ← check ((0 <? alpha) && (alpha <? 64));
  let recovered_cache := umul128 base_cache.(hi_) pow5 in
  let middle_low := umul128 base_cache.(lo_) pow5 in
  let recovered_cache := add_u64 recovered_cache middle_low.(hi_) in
  let high_to_middle := w64 (Z.shiftl recovered_cache.(hi_) (64 - alpha)) in
  let middle_to_low := w64 (Z.shiftl recovered_cache.(lo_) (64 - alpha)) in
  let recovered_cache := u128 (Z.lor (Z.shiftr recovered_cache.(lo_) alpha) high_to_middle)
                              (Z.lor (Z.shiftr middle_low.(lo_) alpha) middle_to_low) in
  _ ← check (negb (w64 (recovered_cache.(lo_) + 1) =? 0));
  Ret (u128 recovered_cache.(hi_) (w64 (recovered_cache.(lo_) + 1))).

Definition get_cached_power (k : Z) : outcome uint128 :=
  _ ← check ((min_k <=? k) && (k <=? max_k));
  let cache_index := (k - min_k) / compression_ratio in
  let kb := cache_index * compression_ratio + min_k in
  let offset := k - kb in
  let base_cache := nth (Z.to_nat cache_index) pow10_significands (u128 0 0) in
  if offset =? 0 then Ret base_cache
  else
    l1 ← floor_log2_pow10 (kb + offset);
    l2 ← floor_log2_pow10 kb;
    recover_cache base_cache (nth (Z.to_nat offset) powers_of_5_64 0) (l1 - l2 - offset).

(** ** [cache_accessor<double>] *)

Definition compute_mul (u : Z) (cache : uint128) : Z * bool :=
  let r := umul192_upper128 u cache in (r.(hi_), r.(lo_) =? 0).

Definition compute_delta (cache : uint128) (beta : Z) : outcome Z :=
  d ← shr64 cache.(hi_) (64 - 1 - beta); Ret (w32 d).

Definition compute_mul_parity (two_f : Z) (cache : uint128) (beta : Z) : outcome (bool * bool) :=
  _ ← check (1 <=? beta);
  _ ← check (beta <? 64);
  let r := umul192_lower128 two_f cache in
  Ret (negb (Z.land (Z.shiftr r.(hi_) (64 - beta)) 1 =? 0),
       Z.lor (w64 (Z.shiftl r.(hi_) beta)) (Z.shiftr r.(lo_) (64 - beta)) =? 0).

Definition compute_left_endpoint_for_shorter_interval_case (cache : uint128) (beta : Z) : outcome Z :=
  shr64 (w64 (cache.(hi_) - Z.shiftr cache.(hi_) (num_significand_bits + 2))) (64 - num_significand_bits - 1 - beta).
Definition compute_right_endpoint_for_shorter_interval_case (cache : uint128) (beta : Z) : outcome Z :=
  shr64 (w64 (cache.(hi_) + Z.shiftr cache.(hi_) (num_significand_bits + 1))) (64 - num_significand_bits - 1 - beta).
Definition compute_round_up_for_shorter_interval_case (cache : uint128) (beta : Z) : outcome Z :=
  y ← shr64 cache.(hi_) (64 - num_significand_bits - 2 - beta); Ret (w64 (y + 1) / 2).

Definition is_left_endpoint_integer_shorter_interval (exponent : Z) : bool := (2 <=? exponent) && (exponent <=? 3).

(** ** Trailing zeros *)

(** Rotation of a [w]-bit number to the right *)
Definition rotr (w n r : Z) : Z := Z.lor (Z.shiftr n r) (Z.shiftl n (w - r) mod 2 ^ w).

(** The loops and the last test of [remove_trailing_zeros], for [w] bits with
    the inverses of 5 and 25: the number and [s]. [fuel] bounds the rounds. *)
Fixpoint remove_pairs (fuel : nat) (w mod_inv_25 n s : Z) : outcome (Z * Z) :=
  let q := rotr w (n * mod_inv_25 mod 2 ^ w) 2 in
  if (2 ^ w - 1) / 100 <? q then Ret (n, s)
  else match fuel with
       | O => Crash overrun
       | S fuel => remove_pairs fuel w mod_inv_25 q (s + 2)
       end.
Definition remove_last (w mod_inv_5 n s : Z) : Z * Z :=
  let q := rotr w (n * mod_inv_5 mod 2 ^ w) 1 in
  if q <=? (2 ^ w - 1) / 10 then (q, Z.lor s 1) else (n, s).

Definition pairs_fuel : nat := 64.

Definition remove_trailing_zeros32 (n s : Z) : outcome (Z * Z) :=
  _ ← check (negb (n =? 0));
  '(n, s) ← remove_pairs pairs_fuel 32 0xc28f5c29 n s;
  Ret (remove_last 32 0xcccccccd n s).

Definition remove_trailing_zeros (n : Z) : outcome (Z * Z) :=
  _ ← check (negb (n =? 0));
  if n mod 100000000 =? 0 then remove_trailing_zeros32 (w32 (n / 100000000)) 8
  else
    '(n, s) ← remove_pairs pairs_fuel 64 0x8f5c28f5c28f5c29 n 0;
    Ret (remove_last 64 0xcccccccccccccccd n s).

(** ** The algorithm *)

Record decimal_fp := { significand : Z; exponent : Z }.

(** For a power of two, where the rounding interval is shorter on the left. *)
Definition shorter_interval_case (e : Z) : outcome decimal_fp :=
  minus_k ← floor_log10_pow2_minus_log10_4_over_3 e;
  l ← floor_log2_pow10 (- minus_k);
  let beta := e + l in
  cache ← get_cached_power (- minus_k);
  xi ← compute_left_endpoint_for_shorter_interval_case cache beta;
  zi ← compute_right_endpoint_for_shorter_interval_case cache beta;
  let xi := if is_left_endpoint_integer_shorter_interval e then xi else w64 (xi + 1) in
  let s := zi / 10 in
  if xi <=? w64 (s * 10) then
    '(s, zeros) ← remove_trailing_zeros s;
    Ret {| significand := s; exponent := minus_k + 1 + zeros |}
  else
    s ← compute_round_up_for_shorter_interval_case cache beta;
    Ret {| significand :=
             if (shorter_interval_tie_lower_threshold <=? e) && (e <=? shorter_interval_tie_upper_threshold)
             then (if s mod 2 =? 0 then s else w64 (s - 1))
             else if s <? xi then w64 (s + 1) else s;
           exponent := minus_k |}.

(** What [to_decimal] has computed when it looks for the significand. *)
Record scaled := { two_fc : Z; minus_k : Z; beta : Z; cache : uint128; deltai : Z }.

(** The label [small_divisor_case_label]: one digit more. *)
Definition small_divisor_case (c : scaled) (s r : Z) : outcome decimal_fp :=
  let s := w64 (s * 10) in
  let dist := w32 (r - c.(deltai) / 2 + small_divisor / 2) in
  let approx_y_parity := negb (Z.land (Z.lxor dist (small_divisor / 2)) 1 =? 0) in
  '(dist, divisible_by_small_divisor) ← check_divisibility_and_divide_by_pow10 dist;
  let s := w64 (s + dist) in
  let result s := {| significand := s; exponent := c.(minus_k) + kappa |} in
  if negb divisible_by_small_divisor then Ret (result s)
  else
    '(parity, is_integer) ← compute_mul_parity c.(two_fc) c.(cache) c.(beta);
    if negb (Bool.eqb parity approx_y_parity) then Ret (result (w64 (s - 1)))
    else if is_integer && negb (s mod 2 =? 0) then Ret (result (w64 (s - 1)))
    else Ret (result s).

Definition big_divisor_case (c : scaled) (s : Z) : outcome decimal_fp :=
  '(s, zeros) ← remove_trailing_zeros s;
  Ret {| significand := s; exponent := c.(minus_k) + kappa + 1 + zeros |}.

(** Steps 2 and 3. *)
Definition find_significand (c : scaled) (include_endpoints : bool) : outcome decimal_fp :=
  u ← shl64 (Z.lor c.(two_fc) 1) c.(beta);
  let '(z, z_is_integer) := compute_mul u c.(cache) in
  let s := divide_by_10_to_kappa_plus_1 z in
  let r := w32 (z - big_divisor * s) in
  if r <? c.(deltai) then
    if (r =? 0) && (z_is_integer && negb include_endpoints) then small_divisor_case c (w64 (s - 1)) big_divisor
    else big_divisor_case c s
  else if c.(deltai) <? r then small_divisor_case c s r
  else
    '(parity, is_integer) ← compute_mul_parity (c.(two_fc) - 1) c.(cache) c.(beta);
    if negb (parity || is_integer && include_endpoints) then small_divisor_case c s r else big_divisor_case c s.

(** A double with a regular interval: [fc] times the [e]-th power of two. *)
Definition regular_case (fc e : Z) : outcome decimal_fp :=
  l10 ← floor_log10_pow2 e;
  let minus_k := l10 - kappa in
  cache ← get_cached_power (- minus_k);
  l2 ← floor_log2_pow10 (- minus_k);
  let beta := e + l2 in
  deltai ← compute_delta cache beta;
  find_significand {| two_fc := w64 (Z.shiftl fc 1); minus_k := minus_k; beta := beta; cache := cache; deltai := deltai |}
    (fc mod 2 =? 0).

(** [to_decimal(x)], [br] being the bits of [x]. *)
Definition to_decimal (br : Z) : outcome decimal_fp :=
  let significand := Z.land br (Z.shiftl 1 num_significand_bits - 1) in
  let exponent := Z.shiftr (Z.land br exponent_mask) num_significand_bits in
  if negb (exponent =? 0) then
    let exponent := exponent - (exponent_bias + num_significand_bits) in
    if significand =? 0 then shorter_interval_case exponent
    else regular_case (Z.lor significand (Z.shiftl 1 num_significand_bits)) exponent
  else if significand =? 0 then Ret {| significand := 0; exponent := 0 |}
  else regular_case significand (min_exponent - num_significand_bits - 1).
