(* ===== verification/FmtShortest.v ===== *)
(** * The decimal Dragonbox finds

    What FmtDragonbox.v computes for every finite double: nothing overflows, no
    assertion fails and no loop runs away; the decimal has at most 17 digits and
    lies within half a unit in the last place of the double, up to a tiny part
    of one that comes from the rounded table of powers. *)
From Stdlib Require Import QArith Qpower Qabs Lqa.
From S2P Require Import Prelude FmtInt FmtSpecs FmtWrite FmtDragonbox.
Open Scope Z_scope.

Ltac div_lia := Z.to_euclidean_division_equations; lia.

(** ** Removing zeros *)

Lemma rotr_small w r q : 0 ≤ r ≤ w → 0 ≤ q < 2 ^ (w - r) → rotr w (q * 2 ^ r) r = q.
Proof.
  intros Hr Hq. unfold rotr. rewrite Z.shiftr_div_pow2, Z.div_mul by lia.
  rewrite Z.shiftl_mul_pow2, <- Z.mul_assoc, <- Z.pow_add_r by lia.
  replace (r + (w - r)) with w by lia. by rewrite Z.mod_mul, Z.lor_0_r by lia.
Qed.

(** A rotated number that is small was a multiple of the power. *)
Lemma rotr_inv w r x : 0 < r ≤ w → 0 ≤ x < 2 ^ w → rotr w x r < 2 ^ (w - r) → x = rotr w x r * 2 ^ r.
Proof.
  intros Hr Hx Hq. set (a := x / 2 ^ r). set (b := x mod 2 ^ r).
  assert (Hpow : 2 ^ w = 2 ^ (w - r) * 2 ^ r) by (rewrite <- Z.pow_add_r by lia; f_equal; lia).
  assert (H2 : 0 < 2 ^ r) by lia. assert (H3 : 0 < 2 ^ (w - r)) by lia.
  assert (Hxab : x = a * 2 ^ r + b) by (subst a b; pose proof (Z.div_mod x (2 ^ r)); lia).
  assert (Hb : 0 ≤ b < 2 ^ r) by (subst b; apply Z.mod_pos_bound; lia).
  assert (Ha : 0 ≤ a < 2 ^ (w - r)) by (split; nia).
  assert (E : rotr w x r = b * 2 ^ (w - r) + a).
  { unfold rotr. rewrite Z.shiftr_div_pow2, Z.shiftl_mul_pow2 by lia. fold a.
    replace (x * 2 ^ (w - r)) with (b * 2 ^ (w - r) + a * 2 ^ w) by (rewrite Hxab, Hpow; ring).
    rewrite Z.mod_add, Z.mod_small by nia. rewrite Z.lor_comm. by apply (lor_add _ b (w - r)); lia. }
  rewrite E in *. assert (b = 0) by nia. nia.
Qed.

(** The quotient by [d = f * 2 ^ r], [inv] being the inverse of [f]: the rotated
    product is the quotient if there is no remainder, and large otherwise. *)
Section exact_division.
Context (w r f inv : Z).
Hypothesis Hr : 0 < r ≤ w.
Hypothesis Hf : 0 < f.
Hypothesis Hinv : (f * inv) mod 2 ^ w = 1.

Lemma inverse_product a : (a * f * inv) mod 2 ^ w = a mod 2 ^ w.
Proof using Hr Hinv. rewrite <- Z.mul_assoc, <- Z.mul_mod_idemp_r, Hinv, Z.mul_1_r by lia. done. Qed.

Lemma rotr_quotient q : 0 ≤ q * (f * 2 ^ r) < 2 ^ w → rotr w (q * (f * 2 ^ r) * inv mod 2 ^ w) r = q.
Proof using Hr Hf Hinv.
  intros Hn. assert (Hpow : 2 ^ w = 2 ^ (w - r) * 2 ^ r) by (rewrite <- Z.pow_add_r by lia; f_equal; lia).
  assert (0 < 2 ^ r) by lia. assert (0 ≤ q) by nia. assert (0 ≤ q * 2 ^ r < 2 ^ w) by nia.
  replace (q * (f * 2 ^ r) * inv) with (q * 2 ^ r * f * inv) by ring.
  rewrite inverse_product, Z.mod_small by lia. apply rotr_small; [lia|nia].
Qed.

Lemma rotr_divides n q :
  0 ≤ n < 2 ^ w → q = rotr w (n * inv mod 2 ^ w) r → q ≤ (2 ^ w - 1) / (f * 2 ^ r) → n = q * (f * 2 ^ r).
Proof using Hr Hf Hinv.
  intros Hn Hq Hle. assert (Hpow : 2 ^ w = 2 ^ (w - r) * 2 ^ r) by (rewrite <- Z.pow_add_r by lia; f_equal; lia).
  assert (0 < 2 ^ r) by lia. assert (Hd : 0 < f * 2 ^ r) by nia.
  pose proof (Z.mod_pos_bound (n * inv) (2 ^ w) ltac:(lia)) as Hx.
  assert (Hqd : q * (f * 2 ^ r) ≤ 2 ^ w - 1).
  { pose proof (Z.mul_div_le (2 ^ w - 1) (f * 2 ^ r) Hd). nia. }
  assert (Hxq : n * inv mod 2 ^ w = q * 2 ^ r) by (rewrite Hq; apply rotr_inv; [done|done|nia]).
  assert (0 ≤ q) by nia.
  rewrite <- (Z.mod_small n (2 ^ w)), <- (Z.mod_small (q * (f * 2 ^ r)) (2 ^ w)) by lia.
  rewrite <- (inverse_product n). replace (n * f * inv) with (f * (n * inv)) by ring.
  rewrite <- Z.mul_mod_idemp_r, Hxq by lia. f_equal. ring.
Qed.
End exact_division.

Lemma remove_pairs_spec fuel w inv n s :
  2 ≤ w → (25 * inv) mod 2 ^ w = 1 → 0 < n < 2 ^ w → n < 100 ^ Z.of_nat fuel →
  ∃ n' (j : nat), remove_pairs fuel w inv n s = Ret (n', s + 2 * Z.of_nat j) ∧
    n = n' * 100 ^ Z.of_nat j ∧ 0 < n' ∧ n' mod 100 ≠ 0.
Proof.
  intros Hw Hinv. revert n s. induction fuel as [|fuel IH]; intros n s Hn Hfuel; [cbn in Hfuel; lia|].
  cbn [remove_pairs]. set (q := rotr w (n * inv mod 2 ^ w) 2). destruct (Z.ltb_spec ((2 ^ w - 1) / 100) q).
  - exists n, 0%nat. rewrite Z.add_0_r, Z.pow_0_r, Z.mul_1_r. split_and!; [done|done|lia|]. intros H0.
    assert (Hq : n = n / 100 * (25 * 2 ^ 2)) by (change (25 * 2 ^ 2) with 100; pose proof (Z.div_mod n 100); lia).
    assert (q = n / 100) by (subst q; rewrite Hq at 1; apply rotr_quotient; [lia|lia|done|lia]).
    pose proof (Z.div_le_mono n (2 ^ w - 1) 100). lia.
  - assert (Hq : n = q * (25 * 2 ^ 2)) by (eapply rotr_divides; [| |exact Hinv|..]; try done; lia).
    change (25 * 2 ^ 2) with 100 in Hq. rewrite Nat2Z.inj_succ, Z.pow_succ_r in Hfuel by lia.
    destruct (IH q (s + 2)) as (n' & j & E & Hn' & Hpos & Hmod); [lia|lia|]. exists n', (S j). rewrite E.
    split_and!; [do 2 f_equal; lia| |done|done]. rewrite Nat2Z.inj_succ, Z.pow_succ_r by lia. lia.
Qed.

Lemma remove_last_spec w inv n s :
  1 ≤ w → (5 * inv) mod 2 ^ w = 1 → 0 < n < 2 ^ w → n mod 100 ≠ 0 → 0 ≤ s → s mod 2 = 0 →
  ∃ n' (i : Z), remove_last w inv n s = (n', s + i) ∧ 0 ≤ i ∧ n = n' * 10 ^ i ∧ 0 < n' ∧ n' mod 10 ≠ 0.
Proof.
  intros Hw Hinv Hn Hmod Hs Heven. unfold remove_last. set (q := rotr w (n * inv mod 2 ^ w) 1).
  destruct (Z.leb_spec q ((2 ^ w - 1) / 10)).
  - assert (Hq : n = q * (5 * 2 ^ 1)) by (eapply rotr_divides; [| |exact Hinv|..]; try done; lia).
    exists q, 1. rewrite (lor_add s (s / 2) 1) by (pose proof (Z.div_mod s 2); lia).
    change (5 * 2 ^ 1) with 10 in Hq. rewrite Z.pow_1_r. split_and!; [done|lia|done|lia|].
    intros H0. apply Hmod. rewrite Hq. replace q with (q / 10 * 10) by (pose proof (Z.div_mod q 10); lia).
    rewrite <- Z.mul_assoc. by apply Z.mod_mul.
  - exists n, 0. rewrite Z.add_0_r, Z.pow_0_r, Z.mul_1_r. split_and!; [done|lia|done|lia|]. intros H0.
    assert (Hq : n = n / 10 * (5 * 2 ^ 1)) by (pose proof (Z.div_mod n 10); lia).
    assert (q = n / 10) by (subst q; rewrite Hq at 1; apply rotr_quotient; [lia|lia|done|lia]).
    pose proof (Z.div_le_mono n (2 ^ w - 1) 10). lia.
Qed.

(** All trailing zeros are removed, and counted. *)
Definition without_zeros (n s : Z) (result : outcome (Z * Z)) : Prop :=
  ∃ n' z, result = Ret (n', s + z) ∧ 0 ≤ z ∧ n = n' * 10 ^ z ∧ 0 < n' ∧ n' mod 10 ≠ 0.

Lemma remove_rest w inv25 inv5 n s :
  2 ≤ w ≤ 64 → (25 * inv25) mod 2 ^ w = 1 → (5 * inv5) mod 2 ^ w = 1 → 0 < n < 2 ^ w → 0 ≤ s → s mod 2 = 0 →
  without_zeros n s ('(n, s) ← remove_pairs pairs_fuel w inv25 n s; Ret (remove_last w inv5 n s)).
Proof.
  intros Hw H25 H5 Hn Hs Heven.
  destruct (remove_pairs_spec pairs_fuel w inv25 n s) as (n1 & j & -> & En & Hn1 & Hmod); [lia|done|done| |].
  { eapply Z.lt_le_trans; [apply Hn|]. etransitivity; [apply (Z.pow_le_mono_r 2 w 64); lia|by vm_compute]. }
  cbn [mbind outcome_bind]. assert (0 < 100 ^ Z.of_nat j) by lia.
  destruct (remove_last_spec w inv5 n1 (s + 2 * Z.of_nat j)) as (n2 & i & -> & Hi & En1 & Hn2 & Hm2); try done; [lia|nia|lia| |].
  { rewrite Z.mul_comm, Z.mod_add by lia. done. }
  exists n2, (2 * Z.of_nat j + i). split_and!; [do 2 f_equal; lia|lia| |done|done].
  rewrite En, En1, Z.pow_add_r, Z.pow_mul_r by lia. change (10 ^ 2) with 100. ring.
Qed.

Lemma remove_trailing_zeros_spec n :
  0 < n < 2 ^ 32 * 100000000 → without_zeros n 0 (remove_trailing_zeros n).
Proof.
  intros Hn. unfold remove_trailing_zeros, check. destruct (Z.eqb_spec n 0); [lia|]. cbn [negb mbind outcome_bind].
  destruct (Z.eqb_spec (n mod 100000000) 0) as [E|E].
  - assert (En : n = n / 100000000 * 100000000) by (pose proof (Z.div_mod n 100000000); lia).
    assert (Hq : 0 < n / 100000000 < 2 ^ 32) by lia. rewrite w32_small by lia.
    unfold remove_trailing_zeros32, check. destruct (Z.eqb_spec (n / 100000000) 0); [lia|]. cbn [negb mbind outcome_bind].
    destruct (remove_rest 32 0xc28f5c29 0xcccccccd (n / 100000000) 8) as (n' & z & H & Hz & En' & ?); try done.
    exists n', (8 + z). rewrite Z.add_0_l. split_and!; [exact H|lia| |tauto..].
    rewrite En, En', Z.pow_add_r by lia. change (10 ^ 8) with 100000000. ring.
  - apply remove_rest; try done. lia.
Qed.

(** ** Wide products *)

Definition val (x : uint128) : Z := x.(hi_) * 2 ^ 64 + x.(lo_).
Definition wide (x : uint128) : Prop := 0 ≤ x.(hi_) < 2 ^ 64 ∧ 0 ≤ x.(lo_) < 2 ^ 64.

Lemma val_range x : wide x → 0 ≤ val x < 2 ^ 128.
Proof. unfold wide, val. intros [? ?]. change (2 ^ 128) with (2 ^ 64 * 2 ^ 64). nia. Qed.

Lemma umul128_val x y : 0 ≤ x < 2 ^ 64 → 0 ≤ y < 2 ^ 64 → wide (umul128 x y) ∧ val (umul128 x y) = x * y.
Proof.
  intros Hx Hy. unfold wide, val, umul128, w64. cbn [hi_ lo_]. rewrite Z.shiftr_div_pow2 by lia.
  assert (0 ≤ x * y < 2 ^ 64 * 2 ^ 64) by nia. pose proof (Z.div_mod (x * y) (2 ^ 64) ltac:(lia)).
  pose proof (Z.mod_pos_bound (x * y) (2 ^ 64) ltac:(lia)). split; [split; [split; nia|lia]|lia].
Qed.

Lemma add_u64_val x n :
  wide x → 0 ≤ n < 2 ^ 64 → val x + n < 2 ^ 128 → wide (add_u64 x n) ∧ val (add_u64 x n) = val x + n.
Proof.
  unfold wide, val, add_u64. intros [Hh Hl] Hn Hs. cbn [hi_ lo_]. change (2 ^ 128) with (2 ^ 64 * 2 ^ 64) in Hs.
  assert (Hlo : w64 (lo_ x + n) = lo_ x + n ∧ lo_ x + n < 2 ^ 64 ∨ w64 (lo_ x + n) = lo_ x + n - 2 ^ 64 ∧ 2 ^ 64 ≤ lo_ x + n).
  { unfold w64. destruct (Z.lt_ge_cases (lo_ x + n) (2 ^ 64)); [left; by rewrite Z.mod_small by lia|right; split; [|done]].
    symmetry. apply (Z.mod_unique _ _ 1); lia. }
  destruct Hlo as [[-> ?]|[-> ?]]; destruct (Z.ltb_spec (lo_ x + n) n), (Z.ltb_spec (lo_ x + n - 2 ^ 64) n); try lia;
    rewrite w64_small by nia; split_and!; nia.
Qed.

Lemma umul192_upper128_val x y :
  0 ≤ x < 2 ^ 64 → wide y →
  wide (umul192_upper128 x y) ∧ val (umul192_upper128 x y) = x * val y / 2 ^ 64.
Proof.
  intros Hx [Hh Hl]. unfold umul192_upper128, umul128_upper64. destruct (umul128_val x (hi_ y)) as [W V]; [done..|].
  rewrite Z.shiftr_div_pow2 by lia. assert (0 ≤ x * lo_ y < 2 ^ 64 * 2 ^ 64) by nia.
  assert (0 ≤ x * lo_ y / 2 ^ 64 < 2 ^ 64) by (split; [apply Z.div_pos; lia|apply Z.div_lt_upper_bound; lia]).
  destruct (add_u64_val (umul128 x (hi_ y)) (x * lo_ y / 2 ^ 64)) as [W' V']; [done|done| |].
  - rewrite V. change (2 ^ 128) with (2 ^ 64 * 2 ^ 64). nia.
  - split; [done|]. rewrite V', V. unfold val. rewrite Z.mul_add_distr_l, Z.mul_assoc, Z.add_comm, (Z.add_comm (_ * 2 ^ 64)).
    by rewrite Z.div_add by lia.
Qed.

Lemma umul192_lower128_val x y :
  0 ≤ x < 2 ^ 64 → wide y →
  wide (umul192_lower128 x y) ∧ val (umul192_lower128 x y) = x * val y mod 2 ^ 128.
Proof.
  intros Hx [Hh Hl]. unfold umul192_lower128. destruct (umul128_val x (lo_ y)) as [[? ?] V]; [done..|].
  unfold wide, val in *. cbn [hi_ lo_]. split; [split; [apply w64_range|done]|].
  set (a := hi_ (umul128 x (lo_ y))) in *. set (b := lo_ (umul128 x (lo_ y))) in *. rewrite w64_add_l. unfold w64.
  apply (Z.mod_unique _ _ ((x * hi_ y + a) / 2 ^ 64)).
  - left. pose proof (Z.mod_pos_bound (x * hi_ y + a) (2 ^ 64) ltac:(lia)). change (2 ^ 128) with (2 ^ 64 * 2 ^ 64). nia.
  - change (2 ^ 128) with (2 ^ 64 * 2 ^ 64). pose proof (Z.div_mod (x * hi_ y + a) (2 ^ 64) ltac:(lia)). nia.
Qed.

Lemma wide_parts x : wide x → hi_ x = val x / 2 ^ 64 ∧ lo_ x = val x mod 2 ^ 64.
Proof.
  unfold wide, val. intros [? ?]. split.
  - rewrite Z.div_add_l, (Z.div_small (lo_ x)) by lia. lia.
  - rewrite Z.add_comm, Z.mod_add, Z.mod_small by lia. done.
Qed.

(** A product of 192 bits: its integer part above 128 bits, and whether 64 bits
    below are zero. *)
Lemma compute_mul_spec u c :
  0 ≤ u < 2 ^ 64 → wide c →
  (compute_mul u c).1 = u * val c / 2 ^ 128 ∧ 0 ≤ (compute_mul u c).1 < 2 ^ 64.
Proof.
  intros Hu Hc. unfold compute_mul. cbn [fst]. destruct (umul192_upper128_val u c) as [W V]; [done..|].
  destruct (wide_parts _ W) as [-> _]. rewrite V, Z.div_div by lia. change (2 ^ 64 * 2 ^ 64) with (2 ^ 128).
  pose proof (val_range c Hc). split; [done|]. split; [apply Z.div_pos; nia|]. apply Z.div_lt_upper_bound; [lia|]. nia.
Qed.

Lemma mod_div_pow a m n : 0 ≤ n ≤ m → (a mod 2 ^ m) / 2 ^ n = a / 2 ^ n mod 2 ^ (m - n).
Proof.
  intros H. replace (2 ^ m) with (2 ^ n * 2 ^ (m - n)) by (rewrite <- Z.pow_add_r by lia; f_equal; lia).
  rewrite Z.rem_mul_r by lia. rewrite Z.mul_comm, Z.div_add, Z.div_small by (try apply Z.mod_pos_bound; lia). lia.
Qed.

Lemma compute_mul_parity_spec f c b :
  0 ≤ f < 2 ^ 64 → wide c → 1 ≤ b < 64 →
  ∃ i, compute_mul_parity f c b = Ret (Z.odd (f * 2 ^ b * val c / 2 ^ 128), i) ∧
    (i = true → f * 2 ^ b * val c mod 2 ^ 128 < 2 ^ 64).
Proof.
  intros Hf Hc Hb. unfold compute_mul_parity, check. destruct (Z.leb_spec 1 b), (Z.ltb_spec b 64); try lia.
  cbn [mbind outcome_bind]. destruct (umul192_lower128_val f c) as [W V]; [done..|]. set (r := umul192_lower128 f c) in *.
  assert (Hpow : 2 ^ 128 = 2 ^ (128 - b) * 2 ^ b) by (rewrite <- Z.pow_add_r by lia; f_equal; lia).
  assert (E : f * 2 ^ b * val c = f * val c * 2 ^ b) by ring. rewrite E. eexists. split.
  - do 2 f_equal. rewrite Zodd_mod, (Z.land_ones _ 1) by lia. rewrite Z.shiftr_div_pow2 by lia.
    destruct (wide_parts _ W) as [-> _]. rewrite Z.div_div, <- Z.pow_add_r by lia. replace (64 + (64 - b)) with (128 - b) by lia.
    rewrite V, mod_div_pow, Hpow, Z.div_mul_cancel_r by lia. replace (128 - (128 - b)) with b by lia.
    replace (2 ^ b) with (2 ^ 1 * 2 ^ (b - 1)) by (rewrite <- Z.pow_add_r by lia; f_equal; lia).
    rewrite Z.rem_mul_r by lia. rewrite (Z.mul_comm (2 ^ 1) (_ mod _)), Z.mod_add, Z.mod_mod by lia. change (2 ^ 1) with 2.
    pose proof (Z.mod_pos_bound (f * val c / 2 ^ (128 - b)) 2 ltac:(lia)). destruct (Z.eqb_spec (f * val c / 2 ^ (128 - b) mod 2) 0) as [->|]; [done|].
    by replace (f * val c / 2 ^ (128 - b) mod 2) with 1 by lia.
  - intros Hi. apply Z.eqb_eq, Z.lor_eq_0_iff in Hi as [Hhi Hlo]. destruct W as [Wh Wl].
    rewrite Z.shiftr_div_pow2 in Hlo by lia. unfold w64 in Hhi. rewrite Z.shiftl_mul_pow2 in Hhi by lia.
    apply Z.div_small_iff in Hlo; [|lia]. apply Z.mod_divide in Hhi; [|lia]. destruct Hhi as [m Hm].
    assert (H64 : 2 ^ 64 = 2 ^ (64 - b) * 2 ^ b) by (rewrite <- Z.pow_add_r by lia; f_equal; lia).
    assert (0 < 2 ^ (64 - b)) by lia. assert (Hlo' : 0 ≤ lo_ r < 2 ^ (64 - b)) by lia. clear Hlo.
    assert (0 < 2 ^ b) by lia. assert (Hh : hi_ r = m * 2 ^ (64 - b)) by nia.
    rewrite Hpow, Z.mul_mod_distr_r by lia.
    assert (Em : f * val c mod 2 ^ (128 - b) = lo_ r).
    { symmetry. apply (Z.mod_unique _ _ (f * val c / 2 ^ 128 * 2 ^ b + m)).
      - left. split; [lia|]. eapply Z.lt_le_trans; [apply Hlo'|]. apply Z.pow_le_mono_r; lia.
      - pose proof (Z.div_mod (f * val c) (2 ^ 128) ltac:(lia)) as Hd. rewrite <- V in Hd.
        assert (Er : val r = m * 2 ^ (64 - b) * 2 ^ 64 + lo_ r) by (rewrite <- Hh; done). rewrite Er in Hd.
        rewrite Hd at 1. replace (2 ^ (64 - b) * 2 ^ 64) with (2 ^ (128 - b)) in *
          by (rewrite <- Z.pow_add_r by lia; f_equal; lia).
        rewrite <- Z.mul_assoc, <- Z.pow_add_r by lia. replace (64 - b + 64) with (128 - b) by lia.
        set (q := f * val c / 2 ^ 128). rewrite Hpow. ring. }
    rewrite Em, H64. nia.
Qed.

(** ** Divisions by constants *)

Definition upto (n : nat) : list Z := map Z.of_nat (seq 0 n).

Lemma in_upto n i : 0 ≤ i < Z.of_nat n → In i (upto n).
Proof. intros H. apply in_map_iff. exists (Z.to_nat i). split; [lia|]. apply in_seq. lia. Qed.

Lemma divide_by_1000 n : 0 ≤ n < 2 ^ 63 → divide_by_10_to_kappa_plus_1 n = n / 1000.
Proof.
  intros Hn. unfold divide_by_10_to_kappa_plus_1, umul128_upper64. rewrite !Z.shiftr_div_pow2, Z.div_div by lia.
  symmetry. apply (Z.div_unique _ _ _ (152 * (n / 1000) + n mod 1000 * 2361183241434822607)).
  - left. pose proof (Z.mod_pos_bound n 1000 ltac:(lia)). assert (0 ≤ n / 1000 ≤ 9223372036854776) by div_lia. lia.
  - pose proof (Z.div_mod n 1000 ltac:(lia)). lia.
Qed.

Lemma small_division n :
  0 ≤ n ≤ 1000 → check_divisibility_and_divide_by_pow10 n = Ret (n / 100, n mod 100 =? 0).
Proof.
  intros Hn. assert (H : forallb (λ n, match check_divisibility_and_divide_by_pow10 n with
    | Ret (q, b) => (q =? n / 100) && Bool.eqb b (n mod 100 =? 0) | _ => false end) (upto 1001) = true)
    by (vm_compute; reflexivity).
  rewrite forallb_forall in H. specialize (H n (in_upto 1001 n ltac:(lia))).
  destruct (check_divisibility_and_divide_by_pow10 n) as [[q b]| |]; [|done..].
  apply andb_true_iff in H as [H1 H2]. apply Z.eqb_eq in H1 as ->. by apply Bool.eqb_prop in H2 as ->.
Qed.

(** ** The table

    The [k]-th power of ten is [scale k / unit_] times a power of two that
    makes it a number of 128 bits. *)

Definition log2_10 (k : Z) : Z := Z.shiftr (k * 1741647) 19.
Definition scale (k : Z) : Z := 2 ^ (1300 - log2_10 k) * 10 ^ (k + 292).
Definition unit_ : Z := 2 ^ 1173 * 10 ^ 292.

Definition wideb (x : uint128) : bool :=
  (0 <=? x.(hi_)) && (x.(hi_) <? 2 ^ 64) && (0 <=? x.(lo_)) && (x.(lo_) <? 2 ^ 64).

Lemma wideb_spec x : wideb x = true → wide x.
Proof. unfold wideb, wide. rewrite !andb_true_iff, !Z.leb_le, !Z.ltb_lt. tauto. Qed.

Definition kept (i : Z) : uint128 := nth (Z.to_nat i) pow10_significands (u128 0 0).

(** The kept entries are rounded up. *)
Definition kept_ok (i : Z) : bool :=
  let k := 27 * i - 292 in let c := val (kept i) * unit_ in
  wideb (kept i) && (0 <=? c - scale k) && (c - scale k <=? unit_).

(** The [k]-th entry is entry [index k] of the kept ones, [offset k] places
    further; it is [product k / 2 ^ shift k] rounded up. *)
Definition index (k : Z) : Z := (k + 292) / 27.
Definition offset (k : Z) : Z := (k + 292) mod 27.
Definition shift (k : Z) : Z := log2_10 k - log2_10 (27 * index k - 292) - offset k.
Definition product (k : Z) : Z := val (kept (index k)) * 5 ^ offset k.

Definition recovered_ok (k : Z) : bool :=
  let o := offset k in let alpha := shift k in let p := product k in
  (nth (Z.to_nat o) powers_of_5_64 0 =? 5 ^ o) && (0 <? alpha) && (alpha <? 64) &&
  (5 ^ o <=? 2 ^ (alpha + 1)) && (Z.log2 p <? 128 + alpha) &&
  negb (Z.land (Z.shiftr p alpha) (Z.ones 64) =? 2 ^ 64 - 1).

(** The thirty highest bits of an entry, and the lengths of the intervals of the
    exponents that use it. *)
Definition top (k : Z) : Z := Z.shiftr (product k) (shift k + 98).
Definition log10_2 (e : Z) : Z := Z.shiftr (e * 315653) 20.
Definition log10_2_shorter (e : Z) : Z := Z.shiftr (e * 631305 - 261663) 21.

Definition lengths_ok (k : Z) : bool :=
  let t := top k in let l := log2_10 k in
  (2 ^ 29 <=? t) && (t <? 2 ^ 30 - 2) &&
  forallb (λ b, negb (log10_2 (b - l) =? 2 - k) || ((100 <=? Z.shiftr t (29 - b)) && (Z.shiftr t (29 - b) <? 1000))) [6; 7; 8; 9] &&
  forallb (λ b, negb (log10_2_shorter (b - l) =? - k) || ((4 * 2 ^ (29 - b) <=? 3 * t) && (3 * (t + 1) <=? 40 * 2 ^ (29 - b)))) [0; 1; 2; 3].

Definition entry_ok (k : Z) : bool := ((offset k =? 0) || recovered_ok k) && lengths_ok k.

Lemma table_kept : forallb kept_ok (upto 24) = true.
Proof. vm_compute. reflexivity. Qed.

Lemma table_entries : forallb (λ i, entry_ok (i - 292)) (upto 634) = true.
Proof. vm_compute. reflexivity. Qed.

Lemma recover_cache_spec c pow5 alpha :
  wide c → 0 ≤ pow5 < 2 ^ 64 → 0 < alpha < 64 → val c * pow5 < 2 ^ (128 + alpha) →
  val c * pow5 / 2 ^ alpha mod 2 ^ 64 ≠ 2 ^ 64 - 1 →
  ∃ c', recover_cache c pow5 alpha = Ret c' ∧ wide c' ∧ val c' = val c * pow5 / 2 ^ alpha + 1.
Proof.
  intros [Hh Hl] Hp Ha HP Hlow. unfold recover_cache, check.
  destruct (Z.ltb_spec 0 alpha), (Z.ltb_spec alpha 64); try lia. cbn [andb mbind outcome_bind].
  destruct (umul128_val (hi_ c) pow5) as [W1 V1]; [done..|]. destruct (umul128_val (lo_ c) pow5) as [W2 V2]; [done..|].
  set (ml := umul128 (lo_ c) pow5) in *.
  destruct (add_u64_val (umul128 (hi_ c) pow5) (hi_ ml)) as [W3 V3]; [done|apply W2|..].
  { rewrite V1. destruct W2. change (2 ^ 128) with (2 ^ 64 * 2 ^ 64). nia. }
  set (rc := add_u64 (umul128 (hi_ c) pow5) (hi_ ml)) in *. destruct W2 as [Wh2 Wl2], W3 as [Wh3 Wl3].
  set (P := val c * pow5) in *.
  assert (EP : P = hi_ rc * 2 ^ 128 + lo_ rc * 2 ^ 64 + lo_ ml).
  { unfold val in V2, V3, V1. change (2 ^ 128) with (2 ^ 64 * 2 ^ 64). subst P. unfold val. lia. }
  assert (H64 : 2 ^ 64 = 2 ^ (64 - alpha) * 2 ^ alpha) by (rewrite <- Z.pow_add_r by lia; f_equal; lia).
  assert (0 < 2 ^ alpha) by lia. assert (0 < 2 ^ (64 - alpha)) by lia.
  assert (Hhi : hi_ rc < 2 ^ alpha).
  { rewrite Z.pow_add_r in HP by lia. change (2 ^ 128) with (2 ^ 64 * 2 ^ 64) in *. nia. }
  set (a := lo_ rc / 2 ^ alpha). set (b := lo_ rc mod 2 ^ alpha).
  assert (Hab : lo_ rc = a * 2 ^ alpha + b) by (subst a b; pose proof (Z.div_mod (lo_ rc) (2 ^ alpha)); lia).
  assert (Hb : 0 ≤ b < 2 ^ alpha) by (subst b; apply Z.mod_pos_bound; lia).
  assert (Ha' : 0 ≤ a < 2 ^ (64 - alpha)) by (split; nia).
  assert (Hm : 0 ≤ lo_ ml / 2 ^ alpha < 2 ^ (64 - alpha)).
  { split; [apply Z.div_pos; lia|apply Z.div_lt_upper_bound; nia]. }
  rewrite !Z.shiftr_div_pow2, !Z.shiftl_mul_pow2 by lia. fold a.
  rewrite (w64_small (hi_ rc * _)) by nia.
  assert (E1 : w64 (lo_ rc * 2 ^ (64 - alpha)) = b * 2 ^ (64 - alpha)).
  { unfold w64. symmetry. apply (Z.mod_unique _ _ a); [left; nia|]. rewrite Hab, H64. ring. }
  rewrite E1, (Z.lor_comm a), (Z.lor_comm (lo_ ml / _)).
  rewrite (lor_add _ (hi_ rc) (64 - alpha)), (lor_add _ b (64 - alpha)) by lia.
  assert (EPa : P / 2 ^ alpha = (hi_ rc * 2 ^ (64 - alpha) + a) * 2 ^ 64 + (b * 2 ^ (64 - alpha) + lo_ ml / 2 ^ alpha)).
  { symmetry. apply (Z.div_unique _ _ _ (lo_ ml mod 2 ^ alpha)); [left; apply Z.mod_pos_bound; lia|].
    rewrite EP, Hab. pose proof (Z.div_mod (lo_ ml) (2 ^ alpha)). change (2 ^ 128) with (2 ^ 64 * 2 ^ 64). rewrite H64 at 1 2 3. nia. }
  assert (Hlo' : 0 ≤ b * 2 ^ (64 - alpha) + lo_ ml / 2 ^ alpha < 2 ^ 64) by nia.
  assert (Hne : b * 2 ^ (64 - alpha) + lo_ ml / 2 ^ alpha ≠ 2 ^ 64 - 1).
  { rewrite EPa, Z.add_comm, Z.mod_add, Z.mod_small in Hlow by lia. done. }
  cbn [lo_ hi_]. rewrite (w64_small (_ + 1)) by lia. destruct (Z.eqb_spec (b * 2 ^ (64 - alpha) + lo_ ml / 2 ^ alpha + 1) 0); [lia|].
  cbn [negb mbind outcome_bind]. eexists. split; [reflexivity|]. unfold wide, val. cbn [hi_ lo_]. split; [split; nia|lia].
Qed.

Lemma unit_pos : 0 < unit_.
Proof. by vm_compute. Qed.

Lemma index_offset k : -292 ≤ k ≤ 341 → k = 27 * index k - 292 + offset k ∧ 0 ≤ index k < 24 ∧ 0 ≤ offset k < 27.
Proof. unfold index, offset. intros Hk. div_lia. Qed.

Lemma kept_entry i :
  0 ≤ i < 24 → wide (kept i) ∧ scale (27 * i - 292) ≤ val (kept i) * unit_ ≤ scale (27 * i - 292) + unit_.
Proof.
  intros Hi. pose proof table_kept as H. rewrite forallb_forall in H. specialize (H i (in_upto 24 i Hi)).
  unfold kept_ok in H. rewrite !andb_true_iff, !Z.leb_le in H. destruct H as [[H1 H2] H3].
  split; [by apply wideb_spec|lia].
Qed.

Lemma entry_checked k : -292 ≤ k ≤ 341 → entry_ok k = true.
Proof.
  intros Hk. pose proof table_entries as H. rewrite forallb_forall in H. specialize (H (k + 292) (in_upto 634 (k + 292) ltac:(lia))).
  by replace (k + 292 - 292) with k in H by lia.
Qed.

(** Logarithms of the powers with a table entry. *)
Lemma log2_10_range k : -292 ≤ k ≤ 341 → -971 ≤ log2_10 k ≤ 1132.
Proof. unfold log2_10. rewrite Z.shiftr_div_pow2 by lia. change (2 ^ 19) with 524288. intros. div_lia. Qed.

Lemma floor_log2_pow10_spec k : -1233 ≤ k ≤ 1233 → floor_log2_pow10 k = Ret (log2_10 k).
Proof. intros Hk. unfold floor_log2_pow10, check. destruct (Z.leb_spec k 1233), (Z.leb_spec (-1233) k); [done|lia..]. Qed.

(** From the scale of a kept entry to that of another. *)
Lemma scale_offset k :
  -292 ≤ k ≤ 341 → 0 ≤ shift k → scale k * 2 ^ shift k = scale (27 * index k - 292) * 5 ^ offset k.
Proof.
  intros Hk Ha. destruct (index_offset k Hk) as (Ek & Hi & Ho). set (kb := 27 * index k - 292) in *.
  pose proof (log2_10_range k Hk). pose proof (log2_10_range kb ltac:(lia)). unfold scale.
  assert (E1 : 10 ^ (k + 292) = 10 ^ (kb + 292) * (2 ^ offset k * 5 ^ offset k)).
  { rewrite <- Z.pow_mul_l. change (2 * 5) with 10. rewrite <- Z.pow_add_r by lia. f_equal. lia. }
  assert (E2 : 2 ^ (1300 - log2_10 k) * 2 ^ shift k * 2 ^ offset k = 2 ^ (1300 - log2_10 kb)).
  { assert (Es : shift k = log2_10 k - log2_10 kb - offset k) by done.
    rewrite <- !Z.pow_add_r by lia. f_equal. lia. }
  rewrite E1, <- E2. ring.
Qed.

Lemma shift_zero k : -292 ≤ k ≤ 341 → offset k = 0 → shift k = 0.
Proof.
  intros Hk Ho. destruct (index_offset k Hk) as (Ek & _ & _). unfold shift. rewrite Ho.
  replace (27 * index k - 292) with k by lia. lia.
Qed.

Lemma succ_div a n : 0 ≤ n → a mod 2 ^ n ≠ 2 ^ n - 1 → (a + 1) / 2 ^ n = a / 2 ^ n.
Proof.
  intros Hn Ha. pose proof (Z.div_mod a (2 ^ n) ltac:(lia)). pose proof (Z.mod_pos_bound a (2 ^ n) ltac:(lia)).
  symmetry. apply (Z.div_unique _ _ _ (a mod 2 ^ n + 1)); [left; lia|lia].
Qed.

Lemma recovered_entry k c :
  -292 ≤ k ≤ 341 → 0 < shift k → 5 ^ offset k ≤ 2 ^ (shift k + 1) → val c = product k / 2 ^ shift k + 1 →
  scale k ≤ val c * unit_ ≤ scale k + 3 * unit_.
Proof.
  intros Hk Ha H5 Hc. destruct (index_offset k Hk) as (Ek & Hi & Ho). destruct (kept_entry (index k) Hi) as [_ [H1 H2]].
  pose proof (scale_offset k Hk ltac:(lia)) as Hs. pose proof unit_pos as Hu. unfold product in Hc.
  set (m := 2 ^ shift k) in *. assert (Hm : 0 < m) by (subst m; lia). assert (H5' : 0 < 5 ^ offset k) by lia.
  rewrite Z.pow_add_r in H5 by lia. fold m in H5. change (2 ^ 1) with 2 in H5.
  set (p := val (kept (index k)) * 5 ^ offset k) in *. set (f := 5 ^ offset k) in *.
  set (s0 := scale (27 * index k - 292)) in *. clearbody m f s0. generalize unit_ Hu H1 H2. clear Hu H1 H2. intros u Hu H1 H2.
  pose proof (Z.mul_div_le p m Hm). pose proof (Z.mul_succ_div_gt p m Hm).
  assert (Hp1 : scale k * m ≤ p * u) by (rewrite Hs; subst p; nia).
  assert (Hp2 : p * u ≤ scale k * m + f * u) by (rewrite Hs; subst p; nia).
  rewrite Hc. set (q := p / m) in *. clearbody q p. split.
  - assert (scale k * m ≤ (q + 1) * u * m) by nia. nia.
  - assert ((q + 1) * u * m ≤ (scale k + 3 * u) * m) by nia. nia.
Qed.

(** The entry of a power: its size, and its highest bits. *)
Lemma cache_entry k :
  -292 ≤ k ≤ 341 →
  ∃ c, get_cached_power k = Ret c ∧ wide c ∧ scale k ≤ val c * unit_ ≤ scale k + 3 * unit_ ∧ val c / 2 ^ 98 = top k.
Proof.
  intros Hk. pose proof (entry_checked k Hk) as Hok. destruct (index_offset k Hk) as (Ek & Hi & Ho).
  unfold get_cached_power, check, min_k, max_k, compression_ratio.
  destruct (Z.leb_spec (-292) k), (Z.leb_spec k 341); try lia. cbn [andb mbind outcome_bind].
  replace (k - -292) with (k + 292) by lia. fold (index k).
  replace (k - (index k * 27 + -292)) with (offset k) by lia. fold (kept (index k)).
  destruct (kept_entry (index k) Hi) as [Hw Hs]. destruct (Z.eqb_spec (offset k) 0) as [E|E].
  - exists (kept (index k)). replace (27 * index k - 292) with k in Hs by lia. pose proof unit_pos. split_and!; [done|done|lia|lia|].
    unfold top, product. rewrite (shift_zero k Hk E), E, Z.pow_0_r, Z.mul_1_r, Z.shiftr_div_pow2 by lia. done.
  - unfold entry_ok, recovered_ok in Hok. rewrite !andb_true_iff, orb_true_iff, !andb_true_iff, negb_true_iff, Z.eqb_neq in Hok.
    destruct Hok as [[|(((((H5 & Ha) & Ha') & Hle) & Hp) & Hl)] _]; [lia|].
    apply Z.eqb_eq in H5. apply Z.ltb_lt in Ha, Ha', Hp. apply Z.leb_le in Hle.
    rewrite Z.land_ones, Z.shiftr_div_pow2 in Hl by lia.
    rewrite !floor_log2_pow10_spec by lia. cbn [mbind outcome_bind]. rewrite H5.
    replace (log2_10 (index k * 27 + -292 + offset k) - log2_10 (index k * 27 + -292) - offset k) with (shift k)
      by (unfold shift; replace (index k * 27 + -292 + offset k) with k by lia; replace (index k * 27 + -292) with (27 * index k - 292) by lia; lia).
    pose proof (val_range _ Hw).
    assert (Hf : 0 < 5 ^ offset k < 2 ^ 64).
    { split; [lia|]. eapply Z.le_lt_trans; [apply (Z.pow_le_mono_r 5 _ 26); lia|by vm_compute]. }
    destruct (recover_cache_spec (kept (index k)) (5 ^ offset k) (shift k)) as (c & Hc & Wc & Vc); [done|lia|lia| |done|].
    { fold (product k). destruct (Z.eq_dec (product k) 0) as [->|]; [lia|]. apply Z.log2_lt_pow2; [unfold product in *; nia|done]. }
    exists c. fold (product k) in Vc, Hl. split_and!; [done|done|by apply recovered_entry..|].
    rewrite Vc. unfold top. rewrite Z.shiftr_div_pow2 by lia. rewrite Z.pow_add_r, <- Z.div_div by lia.
    replace (2 ^ 98) with (2 ^ 64 * 2 ^ 34) by done. rewrite <- !Z.div_div, succ_div by lia. done.
Qed.

(** ** The regular case *)

(** Of the exponents of doubles, the power and the shift they need. *)
Definition power_for (e : Z) : Z := 2 - log10_2 e.

Lemma power_range e :
  -1074 ≤ e ≤ 971 → -290 ≤ power_for e ≤ 326 ∧ 6 ≤ e + log2_10 (power_for e) ≤ 9.
Proof.
  unfold power_for, log2_10, log10_2. rewrite !Z.shiftr_div_pow2 by lia. change (2 ^ 19) with 524288. change (2 ^ 20) with 1048576.
  intros. div_lia.
Qed.

Definition N128 : Z := 2 ^ 128.
Lemma N128_big : 2 ^ 64 * 2 ^ 64 = N128.
Proof. reflexivity. Qed.

(** A double scaled for the search: [interval / 2 ^ 128] is half the length of
    the rounding interval. *)
Record prepared (fc : Z) (c : scaled) (interval : Z) : Prop := {
  p_fc : 1 ≤ fc < 2 ^ 53;
  p_two : c.(two_fc) = 2 * fc;
  p_beta : 6 ≤ c.(beta) ≤ 9;
  p_cache : wide c.(cache);
  p_interval : interval = 2 ^ c.(beta) * val c.(cache);
  p_delta : c.(deltai) = 2 * interval / N128;
  p_length : 100 ≤ c.(deltai) < 1000
}.

Definition close (fc : Z) (c : scaled) (interval : Z) (d : decimal_fp) : Prop :=
  ∃ j, d.(exponent) = c.(minus_k) + j ∧ 2 ≤ j ∧
    Z.abs (d.(significand) * 10 ^ j * N128 - 2 * fc * interval) ≤ interval + 2 ^ 64.

Lemma xor_parity a b : negb (Z.land (Z.lxor a b) 1 =? 0) = xorb (Z.odd a) (Z.odd b).
Proof.
  rewrite (Z.land_ones _ 1) by lia. change (2 ^ 1) with 2. rewrite Zmod_odd, <- !Z.bit0_odd, Z.lxor_spec.
  by destruct (xorb _ _).
Qed.

Section regular.
Context (fc : Z) (c : scaled) (m : Z).
Hypothesis P : prepared fc c m.

Lemma interval_bounds : c.(deltai) * N128 ≤ 2 * m < (c.(deltai) + 1) * N128 ∧ 100 ≤ c.(deltai) < 1000.
Proof using P.
  destruct P as [_ _ _ _ _ Hd Hl]. split; [|done]. rewrite Hd. pose proof N128_big.
  pose proof (Z.mul_div_le (2 * m) N128). pose proof (Z.mul_succ_div_gt (2 * m) N128). lia.
Qed.

(** The parities of two numbers that are one more than a multiple of 100. *)
Lemma parity_of f :
  0 ≤ f < 2 ^ 54 → ∃ i, compute_mul_parity f c.(cache) c.(beta) = Ret (Z.odd (f * m / N128), i) ∧ (i = true → f * m mod N128 < 2 ^ 64).
Proof using P.
  intros Hf. destruct P as [_ _ Hb Hc Hm _ _]. destruct (compute_mul_parity_spec f c.(cache) c.(beta)) as (i & E & Hi); [lia|done|lia|].
  rewrite <- Z.mul_assoc, <- Hm in E, Hi. by exists i.
Qed.

Lemma small_divisor_close s r z :
  z = (2 * fc + 1) * m / N128 → z = 1000 * s + r → 0 ≤ s < 2 ^ 59 → c.(deltai) ≤ r ≤ 1000 →
  ∃ d, small_divisor_case c s r = Ret d ∧ close fc c m d.
Proof using P.
  intros Hz Hs Hs0 Hr. destruct interval_bounds as [[Hd1 Hd2] Hl]. pose proof N128_big as HN.
  assert (Hz1 : z * N128 ≤ (2 * fc + 1) * m < (z + 1) * N128).
  { rewrite Hz. pose proof (Z.mul_div_le ((2 * fc + 1) * m) N128). pose proof (Z.mul_succ_div_gt ((2 * fc + 1) * m) N128). lia. }
  unfold small_divisor_case. set (h := deltai c / 2). assert (Hh : 2 * h ≤ deltai c ≤ 2 * h + 1) by (subst h; div_lia).
  change (small_divisor / 2) with 50. rewrite (w32_small (r - h + 50)) by lia.
  set (dist := r - h + 50). assert (Hdist : 50 ≤ dist ≤ 1000) by lia. rewrite small_division by lia. cbn [mbind outcome_bind].
  rewrite (w64_small (s * 10)) by lia.
  assert (Hq : 0 ≤ dist / 100 ≤ 10 ∧ dist = 100 * (dist / 100) + dist mod 100 ∧ 0 ≤ dist mod 100 < 100) by div_lia.
  rewrite (w64_small (s * 10 + dist / 100)) by lia. set (s2 := s * 10 + dist / 100) in *. set (D := dist mod 100) in *.
  assert (HW : 100 * s2 = z - h + 50 - D) by lia. unfold kappa.
  assert (Hres : ∀ s', Z.abs (s' * 100 * N128 - 2 * fc * m) ≤ m + 2 ^ 64 →
    close fc c m {| significand := s'; exponent := minus_k c + 2 |}) by (intros s' H; exists 2; by cbn [significand exponent]).
  destruct (Z.eqb_spec D 0) as [HD|HD]; cbn [negb]; [|eexists; split; [reflexivity|apply Hres; nia]].
  destruct (parity_of (two_fc c)) as (i & -> & Hi); [destruct P; lia|]. rewrite (p_two _ _ _ P) in *. cbn [mbind outcome_bind].
  set (y := 2 * fc * m) in *. set (fy := y / N128) in *.
  assert (Hfy : fy * N128 ≤ y < (fy + 1) * N128).
  { subst fy. pose proof (Z.mul_div_le y N128). pose proof (Z.mul_succ_div_gt y N128). lia. }
  assert (Hmod : y mod N128 = y - fy * N128) by (subst fy; pose proof (Z.div_mod y N128); lia).
  assert (Hfy2 : fy = z - h ∨ fy = z - h - 1) by nia.
  assert (Hev : Z.odd (z - h) = false) by (replace (z - h) with (2 * (50 * s2 - 25)) by lia; apply Z.odd_mul).
  replace (negb (Z.land (Z.lxor dist 50) 1 =? 0)) with false
    by (rewrite xor_parity; replace dist with (2 * (50 * (dist / 100))) by lia; by rewrite Z.odd_mul).
  assert (Hs2 : 1 ≤ s2 < 2 ^ 64) by lia. rewrite (w64_small (s2 - 1)) by lia.
  destruct Hfy2 as [E|E].
  - replace (Z.odd fy) with false by congruence. cbn [Bool.eqb negb].
    destruct i; cbn [andb]; [destruct (negb _)|]; (eexists; split; [reflexivity|apply Hres]); [specialize (Hi eq_refl)| |]; nia.
  - replace (Z.odd fy) with true by (rewrite E, Z.odd_sub, Hev; done). cbn [Bool.eqb negb].
    eexists; split; [reflexivity|apply Hres]. nia.
Qed.
Lemma big_divisor_close s :
  0 < s < 2 ^ 32 * 100000000 → Z.abs (s * 1000 * N128 - 2 * fc * m) ≤ m + 2 ^ 64 →
  ∃ d, big_divisor_case c s = Ret d ∧ close fc c m d.
Proof using P.
  intros Hs Hb. unfold big_divisor_case. destruct (remove_trailing_zeros_spec s Hs) as (n & z & -> & Hz & En & _).
  cbn [mbind outcome_bind]. eexists. split; [reflexivity|]. exists (3 + z). unfold kappa. cbn [significand exponent].
  split_and!; [lia|lia|]. rewrite Z.pow_add_r by lia. replace (n * (10 ^ 3 * 10 ^ z)) with (s * 1000); [done|].
  rewrite En. change (10 ^ 3) with 1000. ring.
Qed.

Lemma find_significand_close even :
  ∃ d, find_significand c even = Ret d ∧ close fc c m d.
Proof using P.
  destruct interval_bounds as [[Hd1 Hd2] Hl]. pose proof N128_big as HN. pose proof (p_fc _ _ _ P) as Hfc.
  pose proof (p_beta _ _ _ P) as Hb. unfold find_significand. rewrite (p_two _ _ _ P).
  rewrite (lor_add (2 * fc) fc 1) by lia. unfold shl64, shift_amount.
  destruct (Z.leb_spec 0 (beta c)), (Z.ltb_spec (beta c) 64); try lia. cbn [andb mbind outcome_bind].
  assert (Hpow : 64 ≤ 2 ^ beta c ≤ 512).
  { split; [change 64 with (2 ^ 6)|change 512 with (2 ^ 9)]; apply Z.pow_le_mono_r; lia. }
  rewrite Z.shiftl_mul_pow2, w64_small by nia. set (u := (2 * fc + 1) * 2 ^ beta c).
  destruct (compute_mul_spec u (cache c)) as [Ez Hz64]; [subst u; nia|apply P|].
  destruct (compute_mul u (cache c)) as [z z_int]. cbn [fst] in *. fold N128 in Ez.
  assert (Ez' : z = (2 * fc + 1) * m / N128) by (rewrite Ez, (p_interval _ _ _ P); subst u; f_equal; ring).
  assert (Hz1 : z * N128 ≤ (2 * fc + 1) * m < (z + 1) * N128).
  { rewrite Ez'. pose proof (Z.mul_div_le ((2 * fc + 1) * m) N128). pose proof (Z.mul_succ_div_gt ((2 * fc + 1) * m) N128). lia. }
  assert (Hzr : 0 ≤ z < 2 ^ 63) by (split; [lia|nia]). rewrite divide_by_1000 by done. unfold big_divisor.
  assert (Hq : z = 1000 * (z / 1000) + z mod 1000 ∧ 0 ≤ z mod 1000 < 1000 ∧ 0 ≤ z / 1000 < 2 ^ 54) by div_lia.
  destruct Hq as (Hq & Hr & Hs). set (s := z / 1000) in *. set (r := z mod 1000) in *.
  replace (z - 1000 * s) with r by lia. rewrite (w32_small r) by lia.
  assert (Hlow : deltai c < z) by nia.
  destruct (Z.ltb_spec r (deltai c)) as [Hrd|Hrd].
  - destruct (Z.eqb_spec r 0) as [Hr0|Hr0]; cbn [andb]; [destruct (z_int && negb even)|].
    + rewrite w64_small by lia. apply (small_divisor_close (s - 1) 1000 z Ez'); lia.
    + apply big_divisor_close; nia.
    + apply big_divisor_close; nia.
  - destruct (Z.ltb_spec (deltai c) r); [apply (small_divisor_close s r z Ez'); lia|].
    destruct (parity_of (2 * fc - 1)) as (i & -> & Hi); [lia|]. cbn [mbind outcome_bind].
    destruct (_ || _) eqn:Hin; cbn [negb]; [|apply (small_divisor_close s r z Ez'); lia].
    apply big_divisor_close; [lia|]. set (x := (2 * fc - 1) * m) in *. set (fx := x / N128) in *.
    assert (Hfx : fx * N128 ≤ x < (fx + 1) * N128).
    { subst fx. pose proof (Z.mul_div_le x N128). pose proof (Z.mul_succ_div_gt x N128). lia. }
    assert (Hmod : x mod N128 = x - fx * N128) by (subst fx; pose proof (Z.div_mod x N128); lia).
    assert (Hfx2 : fx = 1000 * s ∨ fx = 1000 * s - 1) by nia. apply orb_true_iff in Hin as [Hodd|Hint].
    + assert (fx = 1000 * s - 1); [|nia]. destruct Hfx2 as [E|]; [|done]. rewrite E in Hodd. by rewrite Z.odd_mul in Hodd.
    + apply andb_true_iff in Hint as [-> _]. specialize (Hi eq_refl). nia.
Qed.
End regular.

(** ** Powers of two *)

Definition power_shorter (e : Z) : Z := - log10_2_shorter e.

Lemma shorter_range e :
  -1074 ≤ e ≤ 971 → -292 ≤ power_shorter e ≤ 324 ∧ 0 ≤ e + log2_10 (power_shorter e) ≤ 3.
Proof.
  unfold power_shorter, log2_10, log10_2_shorter. rewrite !Z.shiftr_div_pow2 by lia. change (2 ^ 19) with 524288.
  change (2 ^ 21) with 2097152. intros. div_lia.
Qed.

Definition close_shorter (k interval : Z) (d : decimal_fp) : Prop :=
  ∃ j, d.(exponent) = j - k ∧ 0 ≤ j ∧
    512 * Z.abs (d.(significand) * 10 ^ j * N128 - 2 ^ 53 * interval) ≤ 513 * interval.

(** Ends of intervals that are integers, and a tie: three powers of two. *)
Definition special_close (e : Z) : bool :=
  let k := power_shorter e in
  match get_cached_power k, shorter_interval_case e with
  | Ret c, Ret d =>
      let j := d.(exponent) + k in let m := 2 ^ (e + log2_10 k) * val c in
      (0 <=? j) && (512 * Z.abs (d.(significand) * 10 ^ j * N128 - 2 ^ 53 * m) <=? 513 * m)
  | _, _ => false
  end.

Lemma special_exponents : forallb special_close [2; 3; -77] = true.
Proof. vm_compute. reflexivity. Qed.

(** [w]: how far [v] times a power of two is from the 64 high bits. *)
Lemma close_by_high k h l b v j (e := 2 ^ b * (h * 2 ^ 64 + l)) :
  0 ≤ b ≤ 3 → 2 ^ 63 ≤ h < 2 ^ 64 → 0 ≤ l < 2 ^ 64 → 0 ≤ j →
  (let w := v * 10 ^ j * 2 ^ (11 - b) - h in
   512 * 2 ^ 53 * w ≤ 513 * h ∧ 512 * 2 ^ 53 * (1 - w) ≤ 513 * h) →
  close_shorter k e {| significand := v; exponent := j - k |}.
Proof.
  intros Hb Hh Hl Hj [H1 H2]. exists j. cbn [significand exponent]. split_and!; [done|done|]. subst e.
  assert (HN : N128 = 2 ^ 53 * 2 ^ 64 * (2 ^ (11 - b) * 2 ^ b)).
  { rewrite <- !Z.pow_add_r by lia. unfold N128. f_equal. lia. }
  set (V := v * 10 ^ j) in *. set (B := 2 ^ (11 - b)) in *. assert (0 < 2 ^ b) by lia.
  replace (V * N128 - 2 ^ 53 * (2 ^ b * (h * 2 ^ 64 + l))) with (2 ^ b * (2 ^ 53 * ((V * B - h) * 2 ^ 64 - l))) by (rewrite HN; ring).
  rewrite Z.abs_mul, (Z.abs_eq (2 ^ b)) by lia.
  assert (512 * Z.abs (2 ^ 53 * ((V * B - h) * 2 ^ 64 - l)) ≤ 513 * (h * 2 ^ 64 + l)) by lia. nia.
Qed.

Lemma floor_log10_pow2_minus_spec e :
  -1074 ≤ e ≤ 971 → floor_log10_pow2_minus_log10_4_over_3 e = Ret (- power_shorter e).
Proof.
  intros He. unfold floor_log10_pow2_minus_log10_4_over_3, check, power_shorter.
  destruct (Z.leb_spec e 2936), (Z.leb_spec (-2985) e); try lia. cbn. by rewrite Z.opp_involutive.
Qed.

Lemma shr64_spec x n : 0 ≤ n < 64 → shr64 x n = Ret (x / 2 ^ n).
Proof.
  intros Hn. unfold shr64, shift_amount. destruct (Z.leb_spec 0 n), (Z.ltb_spec n 64); try lia. cbn [andb mbind outcome_bind].
  by rewrite Z.shiftr_div_pow2 by lia.
Qed.

(** The two results, from the scaled number [h / 2 ^ (11 - b)]. *)
Section shorter.
Context (h b : Z).
Hypothesis Hb : 0 ≤ b ≤ 3.
Hypothesis Hh : 2 ^ 63 ≤ h < 2 ^ 64.
(** Half the interval is at least 2/3. *)
Hypothesis Hlen : 2 ^ 54 * 2 ^ (11 - b) ≤ 3 * (h + 1).

Let B : Z := 2 ^ (11 - b).
Let xi : Z := (h - h / 2 ^ 54) / B + 1.
Let zi : Z := (h + h / 2 ^ 53) / B.

Lemma B_range : 256 ≤ B ≤ 2048 ∧ B mod 2 = 0.
Proof using Hb.
  clear - Hb. subst B. split.
  - split; [change 256 with (2 ^ 8)|change 2048 with (2 ^ 11)]; apply Z.pow_le_mono_r; lia.
  - replace (11 - b) with (1 + (10 - b)) by lia. rewrite Z.pow_add_r, Z.mul_comm, Z.mod_mul by lia. done.
Qed.

Definition high_close (w : Z) : Prop := 512 * 2 ^ 53 * w ≤ 513 * h ∧ 512 * 2 ^ 53 * (1 - w) ≤ 513 * h.

Lemma endpoint_close v : xi ≤ v → v ≤ zi → high_close (v * B - h).
Proof using Hb Hh.
  clear Hlen. intros H1 H2. pose proof B_range as [HB _]. unfold high_close, xi, zi in *.
  pose proof (Z.mul_div_le (h + h / 2 ^ 53) B). pose proof (Z.mul_succ_div_gt (h - h / 2 ^ 54) B).
  assert (Hd : 2 ^ 53 * (h / 2 ^ 53) ≤ h ∧ 2 ^ 54 * (h / 2 ^ 54) ≤ h ∧ 512 ≤ h / 2 ^ 54) by div_lia.
  assert (v * B ≤ h + h / 2 ^ 53) by nia. assert (h - h / 2 ^ 54 < v * B) by nia. lia.
Qed.

Lemma round_up_close s : s = (h / 2 ^ (10 - b) + 1) / 2 → high_close (s * B - h) ∧ (s < xi → high_close ((s + 1) * B - h)).
Proof using Hb Hh Hlen.
  intros Hs. pose proof B_range as [HB _]. set (Q := 2 ^ (10 - b)) in *.
  assert (HBQ : B = 2 * Q) by (subst B Q; change 2 with (2 ^ 1) at 2; rewrite <- Z.pow_add_r by lia; f_equal; lia).
  assert (HQ : Q * (h / Q) ≤ h < Q * (h / Q) + Q) by (pose proof (Z.mul_div_le h Q); pose proof (Z.mul_succ_div_gt h Q); lia).
  assert (Hs2 : 2 * s ≤ h / Q + 1 < 2 * s + 2) by (rewrite Hs; div_lia).
  assert (Hw : - Q < s * B - h ≤ Q) by nia. fold B in Hlen. unfold high_close. split; [lia|].
  unfold xi. intros Hlt. assert (Hle : s * B ≤ h - h / 2 ^ 54) by (pose proof (Z.mul_div_le (h - h / 2 ^ 54) B); nia).
  assert (Hd : h - 2 ^ 54 < 2 ^ 54 * (h / 2 ^ 54)) by div_lia. lia.
Qed.
End shorter.

Lemma entry_lengths k : -292 ≤ k ≤ 341 → lengths_ok k = true.
Proof. intros Hk. pose proof (entry_checked k Hk) as H. by apply andb_true_iff in H as [_ H]. Qed.

(** The high half of an entry is normalized. *)
Lemma entry_high k c :
  -292 ≤ k ≤ 341 → wide c → val c / 2 ^ 98 = top k → hi_ c / 2 ^ 34 = top k ∧ 2 ^ 63 ≤ hi_ c < 2 ^ 64 - 2 ^ 35.
Proof.
  intros Hk Hw Ht. pose proof (entry_lengths k Hk) as H. unfold lengths_ok in H. rewrite !andb_true_iff in H.
  destruct H as [[[H1 H2] _] _]. apply Z.leb_le in H1. apply Z.ltb_lt in H2. destruct (wide_parts c Hw) as [Eh _].
  assert (E : hi_ c / 2 ^ 34 = top k) by (rewrite Eh, Z.div_div by lia; change (2 ^ 64 * 2 ^ 34) with (2 ^ 98); done).
  split; [done|]. div_lia.
Qed.

(** Half an interval is between 2/3 and 20/3. *)
Lemma shorter_bounds e c :
  -1074 ≤ e ≤ 971 → let k := power_shorter e in let m := 2 ^ (e + log2_10 k) * val c in
  wide c → val c / 2 ^ 98 = top k → 2 * N128 ≤ 3 * m < 20 * N128.
Proof.
  intros He k m Hw Ht. destruct (shorter_range e He) as [Hk Hb]. fold k in Hk, Hb. subst m. set (b := e + log2_10 k) in *.
  pose proof (entry_lengths k ltac:(lia)) as H. unfold lengths_ok in H.
  rewrite !andb_true_iff in H. destruct H as [_ H]. rewrite forallb_forall in H. specialize (H b).
  assert (Hin : In b [0; 1; 2; 3]) by (cbn; lia). specialize (H Hin). replace (b - log2_10 k) with e in H by (subst b; lia).
  replace (log10_2_shorter e =? - k) with true in H by (symmetry; apply Z.eqb_eq; subst k; unfold power_shorter; lia).
  cbn [negb orb] in H. apply andb_true_iff in H as [H1 H2]. apply Z.leb_le in H1, H2. rewrite <- Ht in H1, H2.
  replace N128 with (2 ^ b * (2 ^ (29 - b) * 2 ^ 99)).
  2:{ rewrite <- !Z.pow_add_r by lia. unfold N128. f_equal. lia. }
  assert (0 < 2 ^ b) by lia. set (q := 2 ^ (29 - b)) in *. clearbody q. pose proof (Z.mul_div_le (val c) (2 ^ 98) ltac:(lia)).
  pose proof (Z.mul_succ_div_gt (val c) (2 ^ 98) ltac:(lia)).
  assert (2 * (q * 2 ^ 99) ≤ 3 * val c < 20 * (q * 2 ^ 99)) by lia. nia.
Qed.

(** Half an interval is at least 2/3, for the high half of the entry. *)
Lemma entry_shorter e c :
  -1074 ≤ e ≤ 971 → let k := power_shorter e in let b := e + log2_10 k in
  wide c → val c / 2 ^ 98 = top k → 2 ^ 54 * 2 ^ (11 - b) ≤ 3 * (hi_ c + 1).
Proof.
  intros He k b Hw Ht. destruct (shorter_range e He) as [Hk Hb]. fold k in Hk, Hb. fold b in Hb.
  destruct (shorter_bounds e c He Hw Ht) as [H _]. fold k b in H. unfold val in H. destruct Hw as [_ [_ Hl]].
  replace N128 with (2 ^ b * (2 ^ 53 * 2 ^ (11 - b) * 2 ^ 64)) in H.
  2:{ unfold N128. rewrite <- !Z.pow_add_r by lia. f_equal. lia. }
  assert (0 < 2 ^ b) by lia. set (B := 2 ^ (11 - b)) in *. clearbody B.
  assert (2 * (2 ^ 53 * B * 2 ^ 64) ≤ 3 * (hi_ c * 2 ^ 64 + lo_ c)) by nia. lia.
Qed.

Lemma shorter_interval_close e :
  -1074 ≤ e ≤ 971 → let k := power_shorter e in
  ∃ c d, get_cached_power k = Ret c ∧ shorter_interval_case e = Ret d ∧
    close_shorter k (2 ^ (e + log2_10 k) * val c) d.
Proof.
  intros He k. destruct (shorter_range e He) as [Hk Hb]. fold k in Hk, Hb.
  destruct (in_dec Z.eq_dec e [2; 3; -77]) as [Hs|Hs].
  { pose proof special_exponents as H. rewrite forallb_forall in H. specialize (H e Hs). unfold special_close in H. fold k in H.
    destruct (get_cached_power k) as [c| |]; [|done..]. destruct (shorter_interval_case e) as [d| |]; [|done..].
    apply andb_true_iff in H as [H1 H2]. apply Z.leb_le in H1, H2. exists c, d. split_and!; [done|done|].
    exists (exponent d + k). split_and!; [lia|done|done]. }
  destruct (cache_entry k ltac:(lia)) as (c & Hc & Hw & _ & Ht). pose proof (entry_shorter e c He Hw Ht) as Hlen. fold k in Hlen.
  destruct (entry_high k c ltac:(lia) Hw Ht) as [_ Hh]. set (b := e + log2_10 k) in *.
  exists c. unfold shorter_interval_case. rewrite floor_log10_pow2_minus_spec by done. fold k. cbn [mbind outcome_bind].
  rewrite Z.opp_involutive, floor_log2_pow10_spec by lia. cbn [mbind outcome_bind]. rewrite Hc. cbn [mbind outcome_bind]. fold b.
  unfold compute_left_endpoint_for_shorter_interval_case, compute_right_endpoint_for_shorter_interval_case,
    compute_round_up_for_shorter_interval_case, num_significand_bits.
  rewrite !Z.shiftr_div_pow2 by lia. change (52 + 2) with 54. change (52 + 1) with 53.
  replace (64 - 52 - 1 - b) with (11 - b) by lia. replace (64 - 52 - 2 - b) with (10 - b) by lia.
  set (h := hi_ c) in *. assert (Hd : 0 ≤ h / 2 ^ 54 < 1024 ∧ 0 ≤ h / 2 ^ 53 < 2048) by div_lia.
  rewrite !(w64_small (h - _)), !(w64_small (h + _)), !shr64_spec by lia. cbn [mbind outcome_bind].
  pose proof (B_range b ltac:(lia)) as [HB _]. set (B := 2 ^ (11 - b)) in *.
  assert (Hlo : 0 ≤ lo_ c < 2 ^ 64) by apply Hw.
  assert (Hclose : ∀ v j, 0 ≤ j → high_close h (v * 10 ^ j * B - h) →
    close_shorter k (2 ^ b * val c) {| significand := v; exponent := j - k |}).
  { intros v j Hj HV. unfold val. fold h. apply close_by_high; [lia|lia|done|done|exact HV]. }
  replace (is_left_endpoint_integer_shorter_interval e) with false
    by (symmetry; unfold is_left_endpoint_integer_shorter_interval; cbn in Hs; destruct (Z.leb_spec 2 e), (Z.leb_spec e 3); cbn; lia).
  pose proof (endpoint_close h b ltac:(lia) ltac:(lia)) as Hend.
  pose proof (round_up_close h b ltac:(lia) ltac:(lia) Hlen _ eq_refl) as [Hru Hru1]. fold B in Hend, Hru, Hru1.
  set (xi0 := (h - h / 2 ^ 54) / B) in *. set (zi := (h + h / 2 ^ 53) / B) in *.
  assert (Hx : 0 ≤ xi0 < 2 ^ 57 ∧ 2 ^ 52 ≤ zi < 2 ^ 57).
  { split; (split; [|apply Z.div_lt_upper_bound; lia]); [apply Z.div_pos; lia|apply Z.div_le_lower_bound; lia]. }
  rewrite (w64_small (xi0 + 1)) by lia. assert (Hz10 : 10 * (zi / 10) ≤ zi < 10 * (zi / 10) + 10) by div_lia.
  rewrite (w64_small (zi / 10 * 10)) by lia. destruct (Z.leb_spec (xi0 + 1) (zi / 10 * 10)) as [Hle|Hle].
  - destruct (remove_trailing_zeros_spec (zi / 10)) as (n & z & -> & Hz & En & _); [lia|]. cbn [mbind outcome_bind].
    eexists. split; [done|]. split; [reflexivity|]. replace (- k + 1 + (0 + z)) with (1 + z - k) by lia. apply Hclose; [lia|].
    rewrite Z.pow_add_r by lia. replace (n * (10 ^ 1 * 10 ^ z)) with (zi / 10 * 10) by (rewrite En; change (10 ^ 1) with 10; ring).
    apply Hend; lia.
  - set (q := h / 2 ^ (10 - b)) in *. assert (Hq : 0 ≤ q < 2 ^ 57).
    { assert (128 ≤ 2 ^ (10 - b)) by (change 128 with (2 ^ 7); apply Z.pow_le_mono_r; lia).
      split; [apply Z.div_pos; lia|apply Z.div_lt_upper_bound; nia]. }
    rewrite (w64_small (q + 1)) by lia. set (s := (q + 1) / 2) in *. assert (Hs2 : 0 ≤ s < 2 ^ 57) by (split; [apply Z.div_pos; lia|apply Z.div_lt_upper_bound; lia]).
    eexists. split; [done|]. split; [reflexivity|].
    unfold shorter_interval_tie_lower_threshold, shorter_interval_tie_upper_threshold. cbn in Hs.
    destruct (Z.leb_spec (-77) e), (Z.leb_spec e (-77)); cbn [andb]; try lia;
      (replace (- k) with (0 - k) by lia; apply Hclose; [done|]; rewrite Z.pow_0_r, Z.mul_1_r;
       destruct (Z.ltb_spec s (xi0 + 1)) as [Hsx|Hsx]; [rewrite w64_small by lia; by apply Hru1|done]).
Qed.

(** ** Both cases against the exact powers *)

(** The error of a decimal [v] against [2 * fc] half intervals, with the table's
    rounding taken out: [g] is half an interval. *)
Definition near (a b fc e k v : Z) : Prop :=
  let g := 2 ^ (e + log2_10 k) * scale k in a * Z.abs (v * N128 * unit_ - 2 * fc * g) ≤ b * g.

Lemma regular_near fc e k c v (m := 2 ^ (e + log2_10 k) * val c) :
  1 ≤ fc < 2 ^ 53 → 6 ≤ e + log2_10 k ≤ 9 → 100 * N128 ≤ 2 * m → scale k ≤ val c * unit_ ≤ scale k + 3 * unit_ →
  Z.abs (v * N128 - 2 * fc * m) ≤ m + 2 ^ 64 → near (2 ^ 60) (2 ^ 60 + 1) fc e k v.
Proof.
  intros Hfc Hb Hm Hs Hv. unfold near. pose proof unit_pos as Hu. pose proof N128_big as HN.
  assert (Hp : 64 ≤ 2 ^ (e + log2_10 k) ≤ 512).
  { split; [change 64 with (2 ^ 6)|change 512 with (2 ^ 9)]; apply Z.pow_le_mono_r; lia. }
  set (p := 2 ^ (e + log2_10 k)) in *. clearbody p. generalize dependent (scale k). generalize dependent unit_. intros u Hu sc Hs.
  set (g := p * sc) in *. assert (Hg : g ≤ m * u ≤ g + 1536 * u) by (subst m g; nia). clearbody g. clear Hs.
  assert (Hbig : 2 ^ 133 * u ≤ g) by nia. set (y := v * N128 - 2 * fc * m) in *.
  assert (E : v * N128 * u - 2 * fc * g = y * u + 2 * fc * (m * u - g)) by (subst y; ring). rewrite E.
  set (t := m * u - g) in *. assert (Ht : 0 ≤ t ≤ 1536 * u) by lia.
  assert (0 ≤ 2 * fc * t ≤ 2 ^ 54 * (1536 * u)) by nia. assert (Z.abs (y * u) ≤ (m + 2 ^ 64) * u) by (rewrite Z.abs_mul, (Z.abs_eq u) by lia; nia).
  lia.
Qed.

Lemma shorter_near e k c v (m := 2 ^ (e + log2_10 k) * val c) :
  0 ≤ e + log2_10 k ≤ 3 → N128 ≤ 2 * m → scale k ≤ val c * unit_ ≤ scale k + 3 * unit_ →
  512 * Z.abs (v * N128 - 2 ^ 53 * m) ≤ 513 * m → near 256 257 (2 ^ 52) e k v.
Proof.
  intros Hb Hm Hs Hv. unfold near. pose proof unit_pos as Hu. pose proof N128_big as HN.
  assert (Hp : 1 ≤ 2 ^ (e + log2_10 k) ≤ 8).
  { split; [change 1 with (2 ^ 0) at 1|change 8 with (2 ^ 3)]; apply Z.pow_le_mono_r; lia. }
  set (p := 2 ^ (e + log2_10 k)) in *. clearbody p. generalize dependent (scale k). generalize dependent unit_. intros u Hu sc Hs.
  set (g := p * sc) in *. assert (Hg : g ≤ m * u ≤ g + 24 * u) by (subst m g; nia). clearbody g. clear Hs.
  assert (Hbig : 2 ^ 126 * u ≤ g) by nia. set (y := v * N128 - 2 ^ 53 * m) in *.
  assert (E : v * N128 * u - 2 * 2 ^ 52 * g = y * u + 2 ^ 53 * (m * u - g)) by (subst y; ring). rewrite E.
  set (t := m * u - g) in *. assert (Ht : 0 ≤ t ≤ 24 * u) by lia.
  assert (512 * Z.abs (y * u) ≤ 513 * (m * u)) by (rewrite Z.abs_mul, (Z.abs_eq u) by lia; nia).
  lia.
Qed.

Lemma shr_interval c b : wide c → 0 ≤ b < 64 → val c / 2 ^ (127 - b) = 2 * (2 ^ b * val c) / N128.
Proof.
  intros _ Hb. replace (2 * (2 ^ b * val c)) with (val c * 2 ^ (b + 1)) by (rewrite Z.pow_add_r by lia; ring).
  replace N128 with (2 ^ (127 - b) * 2 ^ (b + 1)) by (rewrite <- Z.pow_add_r by lia; unfold N128; f_equal; lia).
  by rewrite Z.div_mul_cancel_r by lia.
Qed.

Lemma top_shift c b : 0 ≤ b ≤ 29 → val c / 2 ^ 98 / 2 ^ (29 - b) = val c / 2 ^ (127 - b).
Proof. intros Hb. rewrite Z.div_div, <- Z.pow_add_r by lia. do 2 f_equal. lia. Qed.

Lemma regular_delta e c :
  -1074 ≤ e ≤ 971 → let k := power_for e in let b := e + log2_10 k in
  wide c → val c / 2 ^ 98 = top k →
  compute_delta c b = Ret (2 * (2 ^ b * val c) / N128) ∧ 100 ≤ 2 * (2 ^ b * val c) / N128 < 1000.
Proof.
  intros He k b Hw Ht. destruct (power_range e He) as [Hk Hb]. fold k in Hk, Hb. fold b in Hb.
  rewrite <- shr_interval by (done || lia). rewrite <- top_shift, Ht by lia.
  assert (Hr : 100 ≤ top k / 2 ^ (29 - b) < 1000).
  { pose proof (entry_lengths k ltac:(lia)) as H. unfold lengths_ok in H. rewrite !andb_true_iff in H. destruct H as [[_ H] _].
    rewrite forallb_forall in H. specialize (H b). assert (Hin : In b [6; 7; 8; 9]) by (cbn; lia). specialize (H Hin).
    replace (b - log2_10 k) with e in H by (subst b; lia).
    replace (log10_2 e =? 2 - k) with true in H by (symmetry; apply Z.eqb_eq; subst k; unfold power_for; lia).
    cbn [negb orb] in H. rewrite Z.shiftr_div_pow2 in H by lia. apply andb_true_iff in H as [H1 H2].
    apply Z.leb_le in H1. apply Z.ltb_lt in H2. done. }
  split; [|done]. unfold compute_delta. rewrite shr64_spec by lia. cbn [mbind outcome_bind]. destruct (wide_parts c Hw) as [-> _].
  rewrite Z.div_div, <- Z.pow_add_r by lia. replace (64 + (64 - 1 - b)) with (127 - b) by lia.
  rewrite <- top_shift, Ht, w32_small by lia. done.
Qed.

Lemma regular_case_near fc e :
  1 ≤ fc < 2 ^ 53 → -1074 ≤ e ≤ 971 →
  ∃ d j, regular_case fc e = Ret d ∧ d.(exponent) = j - power_for e ∧ 2 ≤ j ∧ 0 < d.(significand) * 10 ^ j < 10 ^ 19 ∧
    near (2 ^ 60) (2 ^ 60 + 1) fc e (power_for e) (d.(significand) * 10 ^ j).
Proof.
  intros Hfc He. destruct (power_range e He) as [Hk Hb]. set (k := power_for e) in *.
  destruct (cache_entry k ltac:(lia)) as (c & Hc & Hw & Hs & Ht). destruct (regular_delta e c He Hw Ht) as [Hd Hr]. fold k in Hd, Hr.
  unfold regular_case, floor_log10_pow2, check. destruct (Z.leb_spec e 2620), (Z.leb_spec (-2620) e); try lia.
  cbn [andb mbind outcome_bind]. fold (log10_2 e). unfold kappa. replace (log10_2 e - 2) with (- k) by (subst k; unfold power_for; lia).
  rewrite Z.opp_involutive, Hc. cbn [mbind outcome_bind]. rewrite floor_log2_pow10_spec by lia. cbn [mbind outcome_bind].
  rewrite Hd. cbn [mbind outcome_bind]. rewrite Z.shiftl_mul_pow2, w64_small by lia.
  set (b := e + log2_10 k) in *. set (m := 2 ^ b * val c) in *.
  edestruct (find_significand_close fc) with (c := {| two_fc := fc * 2 ^ 1; minus_k := - k; beta := b; cache := c; deltai := 2 * m / N128 |})
    (m := m) as (d & E & j & Hj & H2 & Hclose).
  { split; cbn [two_fc beta cache deltai]; try done; lia. }
  pose proof N128_big. assert (Hm : 100 * N128 ≤ 2 * m < 1000 * N128).
  { pose proof (Z.mul_div_le (2 * m) N128 ltac:(done)). pose proof (Z.mul_succ_div_gt (2 * m) N128 ltac:(done)). nia. }
  exists d, j. split; [exact E|]. split; [cbn [minus_k] in Hj; lia|]. split; [done|].
  split; [|eapply (regular_near fc e k c); [done|done|apply Hm|done|exact Hclose]].
  clear - Hclose Hm Hfc H1. set (V := significand d * 10 ^ j) in *. clearbody V m. nia.
Qed.

Lemma shorter_case_near e :
  -1074 ≤ e ≤ 971 →
  ∃ d j, shorter_interval_case e = Ret d ∧ d.(exponent) = j - power_shorter e ∧ 0 ≤ j ∧ 0 < d.(significand) * 10 ^ j < 10 ^ 17 ∧
    near 256 257 (2 ^ 52) e (power_shorter e) (d.(significand) * 10 ^ j).
Proof.
  intros He. destruct (shorter_range e He) as [Hk Hb]. set (k := power_shorter e) in *.
  destruct (shorter_interval_close e He) as (c & d & Hc & Hd & j & Hj & Hj0 & Hclose). fold k in Hc, Hj, Hclose.
  destruct (cache_entry k ltac:(lia)) as (c' & Hc' & Hw & Hs & Ht). assert (c' = c) as -> by congruence.
  set (b := e + log2_10 k) in *. set (m := 2 ^ b * val c) in *. pose proof (shorter_bounds e c He Hw Ht) as Hm. fold k b m in Hm.
  pose proof N128_big. exists d, j. split; [done|]. split; [done|]. split; [done|].
  split; [|eapply (shorter_near e k c); [done|fold b m; lia|done|exact Hclose]].
  clear - Hclose Hm H. set (V := significand d * 10 ^ j) in *. clearbody V m. nia.
Qed.

(** ** In rational numbers *)

Local Open Scope Q_scope.

Definition pow10 (n : Z) : Q := 10 ^ n.
Definition pow2 (n : Z) : Q := 2 ^ n.

Lemma pow10_pos n : 0 < pow10 n.
Proof. by apply Qpower_0_lt. Qed.
Lemma pow2_pos n : 0 < pow2 n.
Proof. by apply Qpower_0_lt. Qed.
Lemma pow10_add a b : pow10 (a + b) == pow10 a * pow10 b.
Proof. by apply Qpower_plus. Qed.
Lemma pow2_add a b : pow2 (a + b) == pow2 a * pow2 b.
Proof. by apply Qpower_plus. Qed.
Lemma pow10_Z n : (0 ≤ n)%Z → inject_Z (10 ^ n) == pow10 n.
Proof. intros Hn. by apply Zpower_Qpower. Qed.
Lemma pow2_Z n : (0 ≤ n)%Z → inject_Z (2 ^ n) == pow2 n.
Proof. intros Hn. by apply Zpower_Qpower. Qed.

Lemma Qabs_scaled y w b : 0 < w → Qabs (y * w) <= b * w → Qabs y <= b.
Proof.
  intros Hw H. rewrite Qabs_Qmult, (Qabs_pos w) in H by lra. by apply Qmult_le_r in H.
Qed.

Lemma Qabs_Z z : Qabs (inject_Z z) == inject_Z (Z.abs z).
Proof. done. Qed.

Lemma inject_Z_sub a b : inject_Z (a - b) == inject_Z a - inject_Z b.
Proof. unfold Z.sub, Qminus. by rewrite inject_Z_plus, inject_Z_opp. Qed.

(** A decimal that is near is near in value. *)
Lemma near_value a b fc e k j s :
  (0 < a)%Z → (-1074 ≤ e ≤ 971)%Z → (-292 ≤ k ≤ 341)%Z → (0 ≤ e + log2_10 k)%Z → (0 ≤ j)%Z →
  near a b fc e k (s * 10 ^ j) →
  Qabs (inject_Z s * pow10 (j - k) - inject_Z fc * pow2 e) <= pow2 (e - 1) * (inject_Z b / inject_Z a).
Proof.
  intros Ha He Hk Hb Hj Hn. set (w := pow2 1301 * pow10 (k + 292)).
  assert (Hw : 0 < w) by (apply Qmult_lt_0_compat; [apply pow2_pos|apply pow10_pos]).
  pose proof (log2_10_range k Hk) as Hl.
  set (g := (2 ^ (e + log2_10 k) * scale k)%Z) in *. unfold near in Hn. fold g in Hn.
  assert (Eg : inject_Z g == pow2 (e - 1) * w).
  { subst g w. unfold scale. rewrite !inject_Z_mult, !pow2_Z, pow10_Z by lia. rewrite !Qmult_assoc, <- !pow2_add.
    replace (e + log2_10 k + (1300 - log2_10 k))%Z with (e - 1 + 1301)%Z by lia. reflexivity. }
  assert (Ey : inject_Z (s * 10 ^ j * N128 * unit_ - 2 * fc * g) == (inject_Z s * pow10 (j - k) - inject_Z fc * pow2 e) * w).
  { rewrite inject_Z_sub, !inject_Z_mult, Eg. unfold unit_, N128.
    rewrite !inject_Z_mult, !pow2_Z, !pow10_Z by lia. subst w.
    assert (E0 : inject_Z 2 == pow2 1) by reflexivity. rewrite E0.
    assert (E1 : pow10 j * (pow2 128 * (pow2 1173 * pow10 292)) == pow10 (j - k) * (pow2 1301 * pow10 (k + 292))).
    { assert (H : pow10 (j - k) * (pow2 1301 * pow10 (k + 292)) == pow2 1301 * (pow10 (j - k) * pow10 (k + 292))) by ring. rewrite H. clear H.
      rewrite <- pow10_add. replace (j - k + (k + 292))%Z with (j + 292)%Z by lia. rewrite pow10_add.
      replace 1301%Z with (128 + 1173)%Z by lia. rewrite (pow2_add 128). ring. }
    assert (E2 : pow2 1 * pow2 (e - 1) == pow2 e) by (rewrite <- pow2_add; replace (1 + (e - 1))%Z with e by lia; reflexivity).
    rewrite <- E2. assert (H : inject_Z s * pow10 j * pow2 128 * (pow2 1173 * pow10 292) == inject_Z s * (pow10 j * (pow2 128 * (pow2 1173 * pow10 292)))) by ring. rewrite H. clear H.
    rewrite E1. ring. }
  apply (Qabs_scaled _ w); [done|]. rewrite <- Ey, Qabs_Z. rewrite Zle_Qle, !inject_Z_mult, Eg in Hn.
  assert (Ha' : 0 < inject_Z a) by (change 0 with (inject_Z 0); by rewrite <- Zlt_Qlt).
  apply (Qmult_le_l _ _ (inject_Z a)); [done|]. eapply Qle_trans; [exact Hn|]. apply Qle_lteq. right. field. lra.
Qed.

(** ** Doubles *)

(** The parts of a double's bits, and its value [mantissa * 2 ^ scale_of]. *)
Definition fraction_bits (br : Z) : Z := br mod 2 ^ 52.
Definition exponent_bits (br : Z) : Z := br / 2 ^ 52 mod 2 ^ 11.
Definition finite (br : Z) : Prop := (exponent_bits br ≠ 2047)%Z.
Definition mantissa (br : Z) : Z :=
  (if exponent_bits br =? 0 then fraction_bits br else 2 ^ 52 + fraction_bits br)%Z.
Definition scale_of (br : Z) : Z := (Z.max 1 (exponent_bits br) - 1075)%Z.
Definition magnitude (br : Z) : Q := inject_Z (mantissa br) * pow2 (scale_of br).

(** Half a unit in the last place. *)
Definition half_ulp (br : Z) : Q := pow2 (scale_of br - 1).

(** How much more than that the table's rounding may cost: next to nothing, and
    1/256 for a power of two, for which only 64 bits of the entry are used. *)
Definition slack (br : Z) : Q :=
  if (negb (exponent_bits br =? 0) && (fraction_bits br =? 0))%Z then 257 # 256 else (2 ^ 60 + 1) # (2 ^ 60).

Lemma bits_range br : (0 ≤ fraction_bits br < 2 ^ 52 ∧ 0 ≤ exponent_bits br < 2 ^ 11)%Z.
Proof. split; by apply Z.mod_pos_bound. Qed.

Lemma digits_below s j bound : (0 ≤ j → 0 < s * 10 ^ j < bound → 0 < s ≤ s * 10 ^ j)%Z.
Proof. intros Hj H. assert (0 < 10 ^ j)%Z by lia. nia. Qed.

Lemma exponent_below s j n : (0 ≤ j → 0 ≤ n → 0 < s * 10 ^ j < 10 ^ n → j < n)%Z.
Proof.
  intros Hj Hn H. pose proof (digits_below s j _ Hj H). apply (Z.pow_lt_mono_r_iff 10); [lia..|]. nia.
Qed.

(** What is known of the decimal of a double. *)
Definition good_decimal (br : Z) (d : decimal_fp) : Prop :=
  (0 < d.(significand) < 10 ^ 17)%Z ∧ (-324 ≤ d.(exponent) ≤ 308)%Z ∧
  Qabs (inject_Z d.(significand) * pow10 d.(exponent) - magnitude br) <= half_ulp br * slack br.

Lemma regular_good br fc e :
  fc = mantissa br → e = scale_of br → (1 ≤ fc < 2 ^ 53)%Z → (-1074 ≤ e ≤ 971)%Z →
  (inject_Z (2 ^ 60 + 1) / inject_Z (2 ^ 60)) == slack br →
  ∃ d, regular_case fc e = Ret d ∧ good_decimal br d.
Proof.
  intros -> -> Hfc He Hs. destruct (regular_case_near _ _ Hfc He) as (d & j & E & Hj & H2 & Hv & Hn).
  destruct (power_range _ He) as [Hk Hb]. exists d. split; [done|]. unfold good_decimal. rewrite Hj.
  pose proof (digits_below _ j _ ltac:(lia) Hv). pose proof (exponent_below _ j 19 ltac:(lia) ltac:(lia) Hv).
  split_and!; [lia| |lia|lia|].
  - assert (100 ≤ 10 ^ j)%Z by (change 100%Z with (10 ^ 2)%Z; apply Z.pow_le_mono_r; lia). nia.
  - unfold magnitude, half_ulp. rewrite <- Hs. apply near_value; try done; lia.
Qed.

Lemma shorter_good br e :
  e = scale_of br → mantissa br = (2 ^ 52)%Z → (-1074 ≤ e ≤ 971)%Z → slack br == 257 # 256 →
  ∃ d, shorter_interval_case e = Ret d ∧ good_decimal br d.
Proof.
  intros -> Hm He Hs. destruct (shorter_case_near _ He) as (d & j & E & Hj & H2 & Hv & Hn).
  destruct (shorter_range _ He) as [Hk Hb]. exists d. split; [done|]. unfold good_decimal. rewrite Hj.
  pose proof (digits_below _ j _ ltac:(lia) Hv). pose proof (exponent_below _ j 17 ltac:(lia) ltac:(lia) Hv).
  split_and!; [lia|lia|lia|lia|]. unfold magnitude, half_ulp. rewrite Hs, Hm.
  eapply Qle_trans; [apply (near_value 256 257); try done; lia|]. apply Qle_refl.
Qed.

(** ** The whole function *)

Lemma to_decimal_fraction br : Z.land br (Z.shiftl 1 num_significand_bits - 1) = fraction_bits br.
Proof. by apply land_ones. Qed.

Lemma to_decimal_exponent br : Z.shiftr (Z.land br exponent_mask) num_significand_bits = exponent_bits br.
Proof.
  rewrite Z.shiftr_land, Z.shiftr_div_pow2 by done. by apply (land_ones _ (Z.shiftr exponent_mask num_significand_bits)).
Qed.

Lemma implicit_bit fr : (0 ≤ fr < 2 ^ 52)%Z → Z.lor fr (Z.shiftl 1 num_significand_bits) = (2 ^ 52 + fr)%Z.
Proof. intros H. rewrite Z.lor_comm. by apply (lor_add _ 1 52). Qed.

(** A double that is zero has the decimal zero. *)
Theorem to_decimal_zero br :
  mantissa br = 0%Z → to_decimal br = Ret {| significand := 0; exponent := 0 |}.
Proof.
  intros Hm. unfold to_decimal. rewrite to_decimal_fraction, to_decimal_exponent. unfold mantissa in Hm.
  destruct (bits_range br). destruct (Z.eqb_spec (exponent_bits br) 0); [|lia]. by rewrite Hm.
Qed.

(** For every finite double other than zero [to_decimal] returns, without an
    overflow, a failed assertion or a loop that runs away, a decimal of at most
    17 digits and with an exponent from -324 to 308, and it differs from the
    double's magnitude by at most half a unit in the last place, times one plus
    [2 ^ -60], or, for a power of two, 257/256. *)
Theorem shortest_decimal_accurate br :
  finite br → mantissa br ≠ 0%Z → ∃ d, to_decimal br = Ret d ∧ good_decimal br d.
Proof.
  intros Hf Hm. destruct (bits_range br) as [Hfr Hex]. unfold finite in Hf.
  unfold to_decimal. rewrite to_decimal_fraction, to_decimal_exponent.
  unfold mantissa in Hm. destruct (Z.eqb_spec (exponent_bits br) 0) as [E|E]; cbn [negb].
  - destruct (Z.eqb_spec (fraction_bits br) 0) as [?|Hne]; [done|].
    apply regular_good; unfold scale_of, mantissa, slack; rewrite ?E; try done; lia.
  - change (exponent_bias + num_significand_bits)%Z with 1075%Z.
    destruct (Z.eqb_spec (fraction_bits br) 0) as [E0|Hne].
    + apply shorter_good; unfold scale_of, mantissa, slack; rewrite ?E0; destruct (Z.eqb_spec (exponent_bits br) 0); try done; lia.
    + rewrite implicit_bit by done.
      apply regular_good; unfold scale_of, mantissa, slack; destruct (Z.eqb_spec (exponent_bits br) 0); try done; try lia.
      destruct (Z.eqb_spec (fraction_bits br) 0); [done|reflexivity].
Qed.

(** 0.1, of which the bits are 3fb999999999999a: the decimal is 1 times the -1st power of ten. *)
Lemma shortest_decimal_accurate_witness :
  finite 0x3fb999999999999a ∧ to_decimal 0x3fb999999999999a = Ret {| significand := 1; exponent := -1 |} ∧
  ∃ d, to_decimal 0x3fb999999999999a = Ret d ∧ good_decimal 0x3fb999999999999a d.
Proof.
  assert (Hf : finite 0x3fb999999999999a) by (vm_compute; discriminate).
  split; [exact Hf|]. split; [vm_compute; reflexivity|].
  apply shortest_decimal_accurate; [exact Hf|]. vm_compute. discriminate.
Defined.
