(* ===== verification/FmtBigint.v ===== *)
(** * spdlog/fmt/bundled/format.h: big integers and format_dragon

    [bigint]: bigits of 32 bits, the lowest first, and an exponent of [2 ^ 32].
    [format_dragon] generates the digits of a floating-point number with them:
    the shortest that identify it, or a given number. The operations are shown
    to compute what their names say, and the given number of digits to be the
    value correctly rounded. *)
From S2P Require Import Prelude FmtInt FmtSpecs FmtParse FmtWrite FmtDragonbox.

(** ** [bigint] *)

Record bigint := { bigits : list Z; exp_ : Z }.

Definition bigit_bits : Z := 32.
Definition num_bigits (b : bigint) : Z := Z.of_nat (length b.(bigits)) + b.(exp_).
Definition get_bigit (b : bigint) (i : Z) : Z :=
  if (b.(exp_) <=? i) && (i <? num_bigits b) then nth (Z.to_nat (i - b.(exp_))) b.(bigits) 0 else 0.

Definition out_of_bounds : fault := undefined_behaviour "bigit out of bounds".

(** The number of bigits without leading zeros, at least one. *)
Fixpoint significant (n : nat) (l : list Z) : nat :=
  match n with
  | S m => if nth n l 0 =? 0 then significant m l else n
  | O => O
  end.
Definition remove_leading_zeros (l : list Z) : list Z := take (S (significant (length l - 1) l)) l.

(** [subtract_bigits] at one place: the bigit and the borrow. *)
Definition subtract_bigits (bigit other borrow : Z) : Z * Z :=
  let result := w64 (bigit - other - borrow) in (w32 result, Z.shiftr result 63).

(** The loop of [subtract_aligned], from the lowest bigit of [other], and the
    last borrow. *)
Fixpoint subtract_loop (l other : list Z) (borrow : Z) : outcome (list Z) :=
  match other, l with
  | [], _ =>
      if borrow =? 0 then Ret l
      else match l with
           | [] => Crash out_of_bounds
           | x :: l => let '(x, borrow) := subtract_bigits x 0 borrow in _ ← check (borrow =? 0); Ret (x :: l)
           end
  | _ :: _, [] => Crash out_of_bounds
  | y :: other, x :: l =>
      let '(x, borrow) := subtract_bigits x y borrow in l ← subtract_loop l other borrow; Ret (x :: l)
  end.

(** The bigits from the highest, until they differ or a number has no more. *)
Fixpoint compare_bigits (l1 l2 : list Z) : Z :=
  match l1, l2 with
  | x :: l1, y :: l2 => if negb (x =? y) then (if y <? x then 1 else -1) else compare_bigits l1 l2
  | _ :: _, [] => 1
  | [], _ :: _ => -1
  | [], [] => 0
  end.

Definition compare_big (b1 b2 : bigint) : Z :=
  let n1 := num_bigits b1 in
  let n2 := num_bigits b2 in
  if negb (n1 =? n2) then (if n2 <? n1 then 1 else -1)
  else compare_bigits (rev b1.(bigits)) (rev b2.(bigits)).

(** [this -= other] for aligned numbers. *)
Definition subtract_aligned (b other : bigint) : outcome bigint :=
  _ ← check (b.(exp_) <=? other.(exp_));
  _ ← check (0 <=? compare_big b other);
  let i := Z.to_nat (other.(exp_) - b.(exp_)) in
  l ← subtract_loop (drop i b.(bigits)) other.(bigits) 0;
  Ret {| bigits := remove_leading_zeros (take i b.(bigits) ++ l); exp_ := b.(exp_) |}.

(** [multiply(uint32_t)] *)
Fixpoint multiply_loop (l : list Z) (wide_value carry : Z) : list Z :=
  match l with
  | [] => if carry =? 0 then [] else [carry]
  | x :: l => let result := w64 (x * wide_value + carry) in w32 result :: multiply_loop l wide_value (w32 (Z.shiftr result 32))
  end.
Definition multiply32 (b : bigint) (value : Z) : bigint :=
  {| bigits := multiply_loop b.(bigits) value 0; exp_ := b.(exp_) |}.

(** A number as bigits: the loops that push back a carry, or assign one. *)
Fixpoint push_carry (fuel : nat) (carry : Z) : list Z :=
  match fuel with
  | S fuel => if carry =? 0 then [] else w32 carry :: push_carry fuel (Z.shiftr carry 32)
  | O => []
  end.

(** Arithmetic of [uint128_t] *)
Definition w128 (x : Z) : Z := x mod 2 ^ 128.

(** [multiply(uint128_t)]; a carry has at most four bigits. *)
Fixpoint multiply_wide_loop (l : list Z) (lower upper carry : Z) : list Z :=
  match l with
  | [] => push_carry 4 carry
  | x :: l =>
      let result := w128 (w128 (lower * x) + w32 carry) in
      let carry := w128 (w128 (Z.shiftl (w128 (upper * x)) 32) + Z.shiftr result 32 + Z.shiftr carry 32) in
      w32 result :: multiply_wide_loop l lower upper carry
  end.
Definition multiply128 (b : bigint) (value : Z) : bigint :=
  {| bigits := multiply_wide_loop b.(bigits) (w64 value) (Z.shiftr value 64) 0; exp_ := b.(exp_) |}.

(** [operator=(n)]: at least one bigit. *)
Definition assign (n : Z) : outcome bigint :=
  _ ← check (0 <? n);
  Ret {| bigits := w32 n :: push_carry 3 (Z.shiftr n 32); exp_ := 0 |}.

Fixpoint shift_loop (l : list Z) (shift carry : Z) : list Z :=
  match l with
  | [] => if carry =? 0 then [] else [carry]
  | x :: l => w32 (w32 (Z.shiftl x shift) + carry) :: shift_loop l shift (Z.shiftr x (32 - shift))
  end.
(** [operator<<=] *)
Definition shift_left (b : bigint) (shift : Z) : outcome bigint :=
  _ ← check (0 <=? shift);
  let exp := b.(exp_) + shift / 32 in
  let shift := shift mod 32 in
  Ret {| bigits := if shift =? 0 then b.(bigits) else shift_loop b.(bigits) shift 0; exp_ := exp |}.

(** [add_compare(lhs1, lhs2, rhs)]: [n] bigits are left, the next one is [i]. *)
Fixpoint add_compare_loop (n : nat) (i : Z) (lhs1 lhs2 rhs : bigint) (borrow : Z) : Z :=
  match n with
  | O => if borrow =? 0 then 0 else -1
  | S n =>
      let sum := w64 (get_bigit lhs1 i + get_bigit lhs2 i) in
      let rhs_bigit := get_bigit rhs i in
      if w64 (rhs_bigit + borrow) <? sum then 1
      else
        let borrow := w64 (rhs_bigit + borrow - sum) in
        if 1 <? borrow then -1 else add_compare_loop n (i - 1) lhs1 lhs2 rhs (w64 (Z.shiftl borrow 32))
  end.
Definition add_compare (lhs1 lhs2 rhs : bigint) : Z :=
  let max_lhs_bigits := Z.max (num_bigits lhs1) (num_bigits lhs2) in
  let num_rhs_bigits := num_bigits rhs in
  if max_lhs_bigits + 1 <? num_rhs_bigits then -1
  else if num_rhs_bigits <? max_lhs_bigits then 1
  else
    let min_exp := Z.min (Z.min lhs1.(exp_) lhs2.(exp_)) rhs.(exp_) in
    add_compare_loop (Z.to_nat (num_rhs_bigits - min_exp)) (num_rhs_bigits - 1) lhs1 lhs2 rhs 0.

(** [square]: the products of bigits [i] and [j] for which [i + j] is [k]. *)
Definition column_start (num k : nat) : nat := if (k <? num)%nat then 0%nat else (k - (num - 1))%nat.
Definition column_length (num k : nat) : nat := if (k <? num)%nat then S k else (2 * num - 1 - k)%nat.
Fixpoint column_sum (n : list Z) (i j : nat) (terms : nat) (sum : Z) : Z :=
  match terms with
  | O => sum
  | S terms => column_sum n (S i) (j - 1) terms (w128 (sum + nth i n 0 * nth j n 0))
  end.
(** [rest] bigits of the result are to be computed, the next one is [k]. *)
Fixpoint square_loop (n : list Z) (rest k : nat) (sum : Z) : list Z :=
  match rest with
  | O => []
  | S rest =>
      let i := column_start (length n) k in
      let sum := column_sum n i (k - i) (column_length (length n) k) sum in
      w32 sum :: square_loop n rest (S k) (Z.shiftr sum 32)
  end.
Definition square (b : bigint) : bigint :=
  {| bigits := remove_leading_zeros (square_loop b.(bigits) (2 * length b.(bigits)) 0 0); exp_ := b.(exp_) * 2 |}.

(** [assign_pow10(exp)]: the loop over the bits of [exp] below the highest. *)
Fixpoint pow5_loop (bits : nat) (exp : Z) (b : bigint) : bigint :=
  match bits with
  | O => b
  | S bits =>
      let b := square b in
      pow5_loop bits exp (if Z.testbit exp (Z.of_nat bits) then multiply32 b 5 else b)
  end.
Definition assign_pow10 (exp : Z) : outcome bigint :=
  _ ← check (0 <=? exp);
  if exp =? 0 then assign 1
  else
    b ← assign 5;
    shift_left (pow5_loop (Z.to_nat (Z.log2 exp)) exp b) exp.

(** [align(other)] *)
Definition align_to (b other : bigint) : bigint :=
  let exp_difference := b.(exp_) - other.(exp_) in
  if exp_difference <=? 0 then b
  else {| bigits := replicate (Z.to_nat exp_difference) 0 ++ b.(bigits); exp_ := b.(exp_) - exp_difference |}.

(** The loop of [divmod_assign]; [fuel] bounds the quotient: the digits of a
    number are below ten. *)
Fixpoint divmod_loop (fuel : nat) (b divisor : bigint) (quotient : Z) : outcome (Z * bigint) :=
  match fuel with
  | O => Crash overrun
  | S fuel =>
      b ← subtract_aligned b divisor;
      if 0 <=? compare_big b divisor then divmod_loop fuel b divisor (quotient + 1) else Ret (quotient + 1, b)
  end.
Definition digit_fuel : nat := 10.
Definition divmod_assign (b divisor : bigint) : outcome (Z * bigint) :=
  if compare_big b divisor <? 0 then Ret (0, b)
  else
    _ ← check (negb (List.last divisor.(bigits) 0 =? 0));
    divmod_loop digit_fuel (align_to b divisor) divisor 0.

(** ** [basic_fp] *)

Record basic_fp := { f_ : Z; e_ : Z }.

(** [assign(double)]: also whether the predecessor is closer. *)
Definition assign_double (br : Z) : basic_fp * bool :=
  let implicit_bit := Z.shiftl 1 num_significand_bits in
  let fr := Z.land br (implicit_bit - 1) in
  let biased_e := Z.shiftr (Z.land br exponent_mask) num_significand_bits in
  let is_predecessor_closer := (fr =? 0) && (1 <? biased_e) in
  let fr' := if biased_e =? 0 then fr else fr + implicit_bit in
  let biased_e := if biased_e =? 0 then 1 else biased_e in
  ({| f_ := fr'; e_ := biased_e - exponent_bias - num_significand_bits |}, is_predecessor_closer).

(** ** [format_dragon] *)

(** The numbers it computes with; [upper] is [lower] if there is no other. *)
Record dragon_state := { numerator : bigint; denominator : bigint; lower : bigint; upper_store : option bigint }.
Definition upper_of (st : dragon_state) : bigint := default st.(lower) st.(upper_store).

Definition dragon_init (value : basic_fp) (is_predecessor_closer : bool) (exp10 : Z) : outcome dragon_state :=
  let shift := if is_predecessor_closer then 2 else 1 in
  let if_closer (m : outcome bigint) : outcome (option bigint) :=
    if is_predecessor_closer then b ← m; Ret (Some b) else Ret None in
  if 0 <=? value.(e_) then
    n ← assign value.(f_); n ← shift_left n (value.(e_) + shift);
    l ← assign 1; l ← shift_left l value.(e_);
    u ← if_closer (u ← assign 1; shift_left u (value.(e_) + 1));
    d ← assign_pow10 exp10; d ← shift_left d shift;
    Ret {| numerator := n; denominator := d; lower := l; upper_store := u |}
  else if exp10 <? 0 then
    n ← assign_pow10 (- exp10);
    let l := n in
    u ← if_closer (shift_left n 1);
    _ ← check (0 <? value.(f_));
    n ← shift_left (multiply128 n value.(f_)) shift;
    d ← assign 1; d ← shift_left d (shift - value.(e_));
    Ret {| numerator := n; denominator := d; lower := l; upper_store := u |}
  else
    n ← assign value.(f_); n ← shift_left n shift;
    d ← assign_pow10 exp10; d ← shift_left d (shift - value.(e_));
    l ← assign 1;
    u ← if_closer (assign 2);
    Ret {| numerator := n; denominator := d; lower := l; upper_store := u |}.

Definition times10 (st : dragon_state) (bounds : bool) : dragon_state :=
  {| numerator := multiply32 st.(numerator) 10; denominator := st.(denominator);
     lower := if bounds then multiply32 st.(lower) 10 else st.(lower);
     upper_store := if bounds then option_map (λ u, multiply32 u 10) st.(upper_store) else st.(upper_store) |}.

Definition set_numerator (n : bigint) (st : dragon_state) : dragon_state :=
  {| numerator := n; denominator := st.(denominator); lower := st.(lower); upper_store := st.(upper_store) |}.

Definition next_digit (st : dragon_state) : outcome (Z * dragon_state) :=
  '(digit, n) ← divmod_assign st.(numerator) st.(denominator); Ret (digit, set_numerator n st).

(** The flags *)
Record dragon_flags := { predecessor_closer : bool; fixup : bool; fixed_ : bool }.

Definition adjust_precision (precision exp10 : Z) : outcome Z :=
  if (0 <? exp10) && (INT_MAX - exp10 <? precision) then Throw (runtime_error "number is too big")
  else Ret (precision + exp10).

(** The shortest digits, the last one first; [fuel] bounds their number. *)
Fixpoint shortest_digits (fuel : nat) (even : Z) (st : dragon_state) (data : list Z) : outcome (list Z) :=
  match fuel with
  | O => Crash overrun
  | S fuel =>
      '(digit, st) ← next_digit st;
      let low := compare_big st.(numerator) st.(lower) - even <? 0 in
      let high := 0 <? add_compare st.(numerator) (upper_of st) st.(denominator) + even in
      if low || high then
        if negb low then Ret (digit + 1 :: data)
        else if high then
          let result := add_compare st.(numerator) st.(numerator) st.(denominator) in
          if (0 <? result) || ((result =? 0) && negb (Z.rem digit 2 =? 0)) then Ret (digit + 1 :: data)
          else Ret (digit :: data)
        else Ret (digit :: data)
      else shortest_digits fuel even (times10 st true) (digit :: data)
  end.

(** [n] digits, the last one first. *)
Fixpoint some_digits (n : nat) (st : dragon_state) (data : list Z) : outcome (list Z * dragon_state) :=
  match n with
  | O => Ret (data, st)
  | S n => '(digit, st) ← next_digit st; some_digits n (times10 st false) (digit :: data)
  end.

(** Ten is the character after '9': it is carried to the digit before it. The
    digits are last one first; the first digit may be left ten. *)
Fixpoint propagate (data : list Z) (carry : Z) : list Z :=
  match data with
  | [] => []
  | x :: rest =>
      if (x + carry =? 10) && negb (bool_decide (rest = [])) then 0 :: propagate rest 1 else x + carry :: rest
  end.

(** What rounding up does: [extra] digits are added for a carry out of the first. *)
Definition round_up (data : list Z) (fixed : bool) (exp10 : Z) : list Z * Z :=
  match rev (propagate data 1) with
  | x :: r => if x =? 10 then (if fixed then (1 :: r ++ [0], exp10) else (1 :: r, exp10 + 1)) else (x :: r, exp10)
  | [] => ([], exp10)
  end.

Definition dragon_fuel : nat := 800.

(** The digits and [exp10]. *)
Definition format_dragon (value : basic_fp) (flags : dragon_flags) (num_digits exp10 : Z) : outcome (list Z * Z) :=
  st ← dragon_init value flags.(predecessor_closer) exp10;
  let even := if Z.even value.(f_) then 1 else 0 in
  let shortest := num_digits <? 0 in
  '(st, num_digits, exp10) ←
    (if flags.(fixup) then
       let low := add_compare st.(numerator) (upper_of st) st.(denominator) + even <=? 0 in
       let st := if low then times10 st (num_digits <? 0) else st in
       let exp10 := if low then exp10 - 1 else exp10 in
       num_digits ← (if flags.(fixed_) then adjust_precision num_digits (exp10 + 1) else Ret num_digits);
       Ret (st, num_digits, exp10)
     else Ret (st, num_digits, exp10));
  if shortest then
    data ← shortest_digits dragon_fuel even st [];
    Ret (rev data, exp10 - (Z.of_nat (length data) - 1))
  else
    let exp10 := exp10 - (num_digits - 1) in
    if num_digits <=? 0 then
      let up := (num_digits =? 0) && (0 <? add_compare st.(numerator) st.(numerator) (multiply32 st.(denominator) 10)) in
      Ret ([if up then 1 else 0], exp10)
    else
      '(data, st) ← some_digits (Z.to_nat (num_digits - 1)) st [];
      '(digit, st) ← next_digit st;
      let result := add_compare st.(numerator) st.(numerator) st.(denominator) in
      if (0 <? result) || ((result =? 0) && negb (Z.rem digit 2 =? 0))
      then Ret (round_up (digit :: data) flags.(fixed_) exp10)
      else Ret (rev (digit :: data), exp10).

(** ** Values

    The value of bigits, the lowest first, and of a [bigint]. *)
Definition base : Z := 2 ^ 32.

Fixpoint bigits_value (l : list Z) : Z :=
  match l with
  | [] => 0
  | x :: l => x + base * bigits_value l
  end.
Definition big_value (b : bigint) : Z := bigits_value b.(bigits) * base ^ b.(exp_).

Definition in_base (l : list Z) : Prop := Forall (λ x, 0 ≤ x < base) l.

(** No leading zeros; zero has one bigit. *)
Definition normal (l : list Z) : Prop := in_base l ∧ l ≠ [] ∧ (List.last l 0 = 0 → l = [0]).
Definition big_ok (b : bigint) : Prop := normal b.(bigits) ∧ 0 ≤ b.(exp_).

Lemma base_pos : 0 < base.
Proof. done. Qed.

Lemma pow_base n : 0 ≤ n → base ^ n = 2 ^ (32 * n).
Proof. intros Hn. unfold base. by rewrite <- Z.pow_mul_r by lia. Qed.

Lemma base_pow_pos n : 0 ≤ n → 0 < base ^ n.
Proof. intros Hn. by apply Z.pow_pos_nonneg. Qed.

Lemma bigits_value_app l1 l2 : bigits_value (l1 ++ l2) = bigits_value l1 + base ^ Z.of_nat (length l1) * bigits_value l2.
Proof.
  induction l1 as [|x l1 IH]; [cbn; lia|]. cbn [app length bigits_value]. rewrite IH, Nat2Z.inj_succ, Z.pow_succ_r by lia. ring.
Qed.

Lemma bigits_value_range l : in_base l → 0 ≤ bigits_value l < base ^ Z.of_nat (length l).
Proof.
  induction 1 as [|x l Hx Hl IH]; [done|]. cbn [length bigits_value]. rewrite Nat2Z.inj_succ, Z.pow_succ_r by lia. unfold base in *. nia.
Qed.

Lemma bigits_value_top l : in_base l → l ≠ [] → List.last l 0 ≠ 0 → base ^ (Z.of_nat (length l) - 1) ≤ bigits_value l.
Proof.
  intros Hl. induction Hl as [|x l Hx Hl IH]; [done|]. intros _ Hlast. destruct l as [|y l].
  - cbn in *. lia.
  - specialize (IH ltac:(done) Hlast). cbn [length bigits_value] in *. rewrite Nat2Z.inj_succ.
    replace (Z.succ (Z.of_nat (S (length l))) - 1) with (Z.succ (Z.of_nat (S (length l)) - 1)) by lia.
    rewrite Z.pow_succ_r by lia. pose proof base_pos. nia.
Qed.

Lemma bigits_value_zeros n : bigits_value (replicate n 0) = 0.
Proof. induction n as [|n IH]; [done|]. cbn [replicate bigits_value]. by rewrite IH. Qed.

Lemma w32_base x : w32 x = x mod base.
Proof. done. Qed.

Lemma in_base_w32 x : 0 ≤ w32 x < base.
Proof. apply Z.mod_pos_bound. done. Qed.

Lemma shiftr32 x : Z.shiftr x 32 = x / base.
Proof. by rewrite Z.shiftr_div_pow2. Qed.

Lemma split32 x : w32 x + base * Z.shiftr x 32 = x.
Proof. rewrite w32_base, shiftr32. pose proof (Z.div_mod x base ltac:(done)). lia. Qed.

(** The last of the two bigits is not zero. *)
Lemma last_cons (x y : Z) l : List.last (x :: y :: l) 0 = List.last (y :: l) 0.
Proof. done. Qed.

Lemma normal_cons x l : 0 ≤ x < base → normal l → bigits_value l ≠ 0 → normal (x :: l).
Proof.
  intros Hx (Hl & Hne & Hlast) Hv. split; [by constructor|]. split; [done|]. intros H0. destruct l as [|y l]; [done|].
  rewrite last_cons in H0. rewrite (Hlast H0) in Hv. done.
Qed.

Lemma normal_value l : normal l → List.last l 0 ≠ 0 ↔ bigits_value l ≠ 0.
Proof.
  intros (Hl & Hne & Hlast). split; [|intros Hv H; by rewrite (Hlast H) in Hv].
  intros H. pose proof (bigits_value_top l Hl Hne H) as Ht. destruct l as [|x l]; [done|].
  pose proof (base_pow_pos (Z.of_nat (length (x :: l)) - 1) ltac:(cbn; lia)). lia.
Qed.

(** *** Multiplication and shift *)

Lemma multiply_loop_value l v carry :
  in_base l → 0 ≤ v < base → 0 ≤ carry < base →
  bigits_value (multiply_loop l v carry) = bigits_value l * v + carry ∧ in_base (multiply_loop l v carry).
Proof.
  intros Hl Hv. revert carry. induction Hl as [|x l Hx Hl IH]; intros carry Hc; cbn [multiply_loop bigits_value].
  { destruct (Z.eqb_spec carry 0); [subst; split; [done|constructor]|]. split; [cbn [bigits_value]; lia|constructor; [done|constructor]]. }
  unfold base in *. rewrite w64_small by nia. set (r := x * v + carry).
  assert (Hr : 0 ≤ Z.shiftr r 32 < 2 ^ 32).
  { rewrite Z.shiftr_div_pow2 by done. split; [apply Z.div_pos; [subst r; nia|done]|]. apply Z.div_lt_upper_bound; [done|]. subst r. nia. }
  rewrite (w32_small (Z.shiftr r 32)) by done. destruct (IH (Z.shiftr r 32) Hr) as [E H]. rewrite E. split.
  - pose proof (split32 r) as Hs. unfold base in Hs. subst r. lia.
  - constructor; [apply in_base_w32|done].
Qed.

(** What ends in a bigit that is not zero still does. *)
Lemma multiply_loop_last l v carry :
  in_base l → 0 < v < base → 0 ≤ carry < base → l ≠ [] → List.last l 0 ≠ 0 → List.last (multiply_loop l v carry) 0 ≠ 0.
Proof.
  intros Hl Hv. revert carry. induction Hl as [|x l Hx Hl IH]; intros carry Hc Hne Hlast; [done|]. cbn [multiply_loop].
  unfold base in *. rewrite w64_small by nia. set (r := x * v + carry).
  assert (Hr : 0 ≤ Z.shiftr r 32 < 2 ^ 32).
  { rewrite Z.shiftr_div_pow2 by done. split; [apply Z.div_pos; [subst r; nia|done]|]. apply Z.div_lt_upper_bound; [done|]. subst r. nia. }
  rewrite (w32_small (Z.shiftr r 32)) by done. destruct l as [|y l].
  - cbn [multiply_loop]. destruct (Z.eqb_spec (Z.shiftr r 32) 0) as [E|E]; [|done]. cbn [List.last] in *.
    pose proof (split32 r) as Hs. rewrite E in Hs. assert (0 < r) by (subst r; nia). lia.
  - assert (Hm : ∀ c, multiply_loop (y :: l) v c ≠ []) by done. specialize (IH (Z.shiftr r 32) Hr ltac:(done) Hlast).
    specialize (Hm (Z.shiftr r 32)). destruct (multiply_loop (y :: l) v (Z.shiftr r 32)) as [|z m]; [done|exact IH].
Qed.

Lemma multiply_loop_normal l v : normal l → 0 < v < base → normal (multiply_loop l v 0).
Proof.
  intros (Hl & Hne & Hlast) Hv. destruct (multiply_loop_value l v 0 Hl ltac:(lia) ltac:(done)) as [_ Hb].
  split; [done|]. split; [destruct l; done|]. intros H. destruct (Z.eq_dec (List.last l 0) 0) as [E|E].
  - rewrite (Hlast E). cbn [multiply_loop]. by rewrite Z.mul_0_l.
  - by apply (multiply_loop_last l v 0) in E.
Qed.

Lemma multiply32_spec b v : big_ok b → 0 < v < base →
  big_ok (multiply32 b v) ∧ big_value (multiply32 b v) = big_value b * v ∧ exp_ (multiply32 b v) = exp_ b.
Proof.
  intros [Hn He] Hv. destruct (multiply_loop_value (bigits b) v 0 ltac:(apply Hn) ltac:(lia) ltac:(done)) as [E _].
  split; [split; [by apply multiply_loop_normal|done]|]. split; [|done]. unfold big_value. cbn [multiply32 bigits exp_]. rewrite E. ring.
Qed.

Lemma shift_loop_value l s carry :
  in_base l → 0 < s < 32 → 0 ≤ carry < 2 ^ s →
  bigits_value (shift_loop l s carry) = bigits_value l * 2 ^ s + carry ∧ in_base (shift_loop l s carry) ∧
  (l ≠ [] → List.last l 0 ≠ 0 → List.last (shift_loop l s carry) 0 ≠ 0).
Proof.
  intros Hl Hs. assert (Hp : base = 2 ^ s * 2 ^ (32 - s)) by (rewrite <- Z.pow_add_r by lia; unfold base; f_equal; lia).
  revert carry. induction Hl as [|x l Hx Hl IH]; intros carry Hc; cbn [shift_loop bigits_value].
  { destruct (Z.eqb_spec carry 0); [subst; split_and!; [done|constructor|done]|].
    split_and!; [cbn [bigits_value]; lia|constructor; [split; [lia|rewrite Hp; nia]|constructor]|done]. }
  set (h := Z.shiftr x (32 - s)). assert (Eh : h = x / 2 ^ (32 - s)) by (subst h; by rewrite Z.shiftr_div_pow2 by lia).
  assert (Hh : 0 ≤ h < 2 ^ s) by (rewrite Eh; split; [apply Z.div_pos; lia|apply Z.div_lt_upper_bound; lia]).
  assert (Ex : w32 (w32 (Z.shiftl x s) + carry) = x * 2 ^ s - h * base + carry).
  { pose proof (Z.div_mod x (2 ^ (32 - s)) ltac:(lia)) as Hd. rewrite <- Eh in Hd. pose proof (Z.mod_pos_bound x (2 ^ (32 - s)) ltac:(lia)).
    set (m := x mod 2 ^ (32 - s)) in *. rewrite Z.shiftl_mul_pow2 by lia.
    assert (E1 : w32 (x * 2 ^ s) = m * 2 ^ s).
    { rewrite w32_base. replace (x * 2 ^ s) with (m * 2 ^ s + h * base) by (rewrite Hp, Hd; ring). rewrite Z.mod_add, Z.mod_small by (try done; rewrite Hp; nia). done. }
    rewrite E1, w32_base, Z.mod_small by (rewrite Hp; nia). rewrite Hp, Hd at 1. ring. }
  destruct (IH h Hh) as (E & Hb & Hlast). rewrite Ex, E. split_and!; [unfold base; ring|constructor; [rewrite <- Ex; apply in_base_w32|done]|].
  intros _ Hx0. destruct l as [|y l].
  - cbn [shift_loop]. destruct (Z.eqb_spec h 0) as [E0|E0]; [|done]. cbn [List.last] in *. rewrite E0. nia.
  - specialize (Hlast ltac:(done) Hx0). destruct (shift_loop (y :: l) s h) as [|z m] eqn:Es; [done|exact Hlast].
Qed.

Lemma shift_left_spec b n : big_ok b → 0 ≤ n →
  ∃ b', shift_left b n = Ret b' ∧ big_ok b' ∧ big_value b' = big_value b * 2 ^ n ∧ exp_ b' = exp_ b + n / 32.
Proof.
  intros [(Hl & Hne & Hlast) He] Hn. unfold shift_left, check. destruct (Z.leb_spec 0 n); [|lia]. cbn [mbind outcome_bind].
  eexists. split; [done|]. pose proof (Z.div_mod n 32 ltac:(done)) as Hd. pose proof (Z.mod_pos_bound n 32 ltac:(done)).
  assert (Hq : 0 ≤ n / 32) by (apply Z.div_pos; lia). set (s := n mod 32) in *. set (q := n / 32) in *.
  assert (Hv : ∀ l, bigits_value l = bigits_value (bigits b) * 2 ^ s →
    big_value {| bigits := l; exp_ := exp_ b + q |} = big_value b * 2 ^ n).
  { intros l E. unfold big_value. cbn [bigits exp_]. rewrite E, Z.pow_add_r, (pow_base q), Hd, Z.pow_add_r by lia. ring. }
  destruct (Z.eqb_spec s 0) as [Hs|Hs].
  - split; [split; [done|cbn; lia]|]. split; [|done]. apply Hv. rewrite Hs, Z.pow_0_r. ring.
  - destruct (shift_loop_value (bigits b) s 0 Hl ltac:(lia) ltac:(lia)) as (E & Hb & Hlast').
    split; [|split; [apply Hv; rewrite E; ring|done]]. split; [|cbn; lia]. split; [done|]. cbn [bigits].
    split; [by destruct (bigits b)|]. intros Hz. destruct (Z.eq_dec (List.last (bigits b) 0) 0) as [E0|E0]; [|by apply Hlast' in E0].
    rewrite (Hlast E0). cbn [shift_loop]. rewrite !Z.shiftl_0_l, Z.shiftr_0_l. done.
Qed.

(** *** Comparison and subtraction *)

Lemma rev_value_cons x r : bigits_value (rev (x :: r)) = bigits_value (rev r) + base ^ Z.of_nat (length r) * x.
Proof. cbn [rev]. rewrite bigits_value_app, length_rev. cbn [bigits_value]. f_equal. f_equal. lia. Qed.

Lemma in_base_rev r : in_base r → in_base (rev r).
Proof. intros H. apply Forall_rev. done. Qed.

Lemma rev_value_range r : in_base r → 0 ≤ bigits_value (rev r) < base ^ Z.of_nat (length r).
Proof. intros H. rewrite <- length_rev. by apply bigits_value_range, in_base_rev. Qed.

Lemma rev_value_low r : in_base r → List.last r 0 ≠ 0 → 0 < bigits_value (rev r).
Proof.
  intros Hr Hl. destruct r as [|y r] using rev_ind; [done|]. rewrite List.last_last in Hl. rewrite rev_app_distr. cbn [rev app bigits_value].
  apply Forall_app in Hr as [Hr Hy]. apply Forall_inv in Hy. pose proof (rev_value_range r Hr). pose proof base_pos. nia.
Qed.

(** From the highest bigit: numbers of different lengths as fractions. A number
    with zeros at its end is taken for greater than an equal one without. *)
Lemma compare_bigits_spec r1 r2 :
  in_base r1 → in_base r2 →
  (length r2 ≤ length r1)%nat ∨ List.last r2 0 ≠ 0 ∨
    bigits_value (rev r2) * base ^ Z.of_nat (length r1) ≠ bigits_value (rev r1) * base ^ Z.of_nat (length r2) →
  0 ≤ compare_bigits r1 r2 ↔
    bigits_value (rev r2) * base ^ Z.of_nat (length r1) ≤ bigits_value (rev r1) * base ^ Z.of_nat (length r2).
Proof.
  intros H1. revert r2. induction H1 as [|x r1 Hx H1 IH]; intros r2 H2 Hc.
  { destruct r2 as [|y r2]; [done|]. assert (Hv : 0 < bigits_value (rev (y :: r2))).
    { destruct Hc as [Hc|[Hc|Hc]]; [cbn in Hc; lia|by apply rev_value_low|]. pose proof (rev_value_range _ H2).
      cbn [length Z.of_nat bigits_value rev] in *. rewrite Z.pow_0_r in *. lia. }
    cbn [compare_bigits length Z.of_nat bigits_value rev] in *. rewrite Z.pow_0_r in *. lia. }
  destruct H2 as [|y r2 Hy H2].
  { cbn [compare_bigits length Z.of_nat bigits_value rev]. pose proof (rev_value_range (x :: r1) ltac:(by constructor)).
    cbn [rev] in *. rewrite Z.pow_0_r. lia. }
  rewrite !rev_value_cons in *. cbn [compare_bigits length] in *. rewrite !Nat2Z.inj_succ, !Z.pow_succ_r in * by lia.
  specialize (IH r2 H2).
  pose proof (rev_value_range r1 H1) as R1. pose proof (rev_value_range r2 H2) as R2.
  set (p1 := base ^ Z.of_nat (length r1)) in *. set (p2 := base ^ Z.of_nat (length r2)) in *.
  set (v1 := bigits_value (rev r1)) in *. set (v2 := bigits_value (rev r2)) in *. pose proof base_pos as HB.
  clearbody p1 p2 v1 v2. destruct (Z.eqb_spec x y) as [->|Hxy]; cbn [negb].
  - rewrite IH; [split; nia|]. destruct Hc as [Hc|[Hc|Hc]]; [left; lia| |right; right; intros E; apply Hc; nia].
    destruct r2; [left; cbn; lia|by right; left].
  - assert (H1b : 0 < p1 * base) by nia. assert (H2b : 0 < p2 * base) by nia. assert (Hp : 0 < p1 * (p2 * base)) by nia.
    assert (Hv1 : 0 ≤ v1 * (p2 * base) < p1 * (p2 * base)) by nia. assert (Hv2 : 0 ≤ v2 * (p1 * base) < p2 * (p1 * base)) by nia.
    destruct (Z.ltb_spec y x); split; intros Hle; try lia.
    + assert (p1 * (p2 * base) * (y + 1) ≤ p1 * (p2 * base) * x) by nia. lia.
    + exfalso. assert (p1 * (p2 * base) * (x + 1) ≤ p1 * (p2 * base) * y) by nia. lia.
Qed.

Lemma rev_last (l : list Z) : List.last (rev l) 0 = hd 0 l.
Proof. destruct l as [|x l]; [done|]. cbn [rev hd]. apply List.last_last. Qed.

Lemma big_value_nonneg b : big_ok b → 0 ≤ big_value b.
Proof.
  intros [(Hl & _) He]. unfold big_value. pose proof (bigits_value_range _ Hl). pose proof (base_pow_pos (exp_ b) He). nia.
Qed.

(** The number of bigits bounds the number. *)
Lemma big_value_below b : big_ok b → big_value b < base ^ num_bigits b.
Proof.
  intros [(Hl & _) He]. unfold big_value, num_bigits. pose proof (bigits_value_range _ Hl). pose proof (base_pow_pos (exp_ b) He).
  rewrite Z.pow_add_r by lia. nia.
Qed.

Lemma big_value_above b : big_ok b → big_value b ≠ 0 → base ^ (num_bigits b - 1) ≤ big_value b ∧ 1 + exp_ b ≤ num_bigits b.
Proof.
  intros [Hn He] Hv. assert (Hv' : bigits_value (bigits b) ≠ 0) by (intros E; apply Hv; unfold big_value; by rewrite E).
  pose proof (proj2 (normal_value _ Hn) Hv') as Hlast. destruct Hn as (Hl & Hne & _). pose proof (bigits_value_top _ Hl Hne Hlast).
  unfold big_value, num_bigits. assert (1 ≤ Z.of_nat (length (bigits b))) by (destruct (bigits b); [done|cbn [length]; lia]).
  replace (Z.of_nat (length (bigits b)) + exp_ b - 1) with (Z.of_nat (length (bigits b)) - 1 + exp_ b) by lia.
  rewrite Z.pow_add_r by lia. pose proof (base_pow_pos (exp_ b) He). split; [nia|lia].
Qed.

Lemma base_pow_mono m n : 0 ≤ m ≤ n → base ^ m ≤ base ^ n.
Proof. intros H. apply Z.pow_le_mono_r; [done|lia]. Qed.

(** For which numbers [compare] is right: a number that has more low zeros left
    out than [d] is compared only if [d] has none, or is another number. *)
Definition comparable (b d : bigint) : Prop :=
  exp_ b ≤ exp_ d ∨ (big_value b ≠ 0 ∧ (hd 0 (bigits d) ≠ 0 ∨ big_value b ≠ big_value d)).

Lemma num_bigits_zero b : big_ok b → big_value b = 0 → num_bigits b = 1 + exp_ b.
Proof.
  intros [Hn He] Hv. unfold num_bigits. destruct (decide (List.last (bigits b) 0 = 0)) as [E|E].
  - destruct Hn as (_ & _ & Hl). rewrite (Hl E). cbn [length]. lia.
  - exfalso. apply (proj1 (normal_value _ Hn)) in E. unfold big_value in Hv. pose proof (base_pow_pos (exp_ b) He). nia.
Qed.

Lemma compare_big_spec b d :
  big_ok b → big_ok d → 0 < big_value d → comparable b d → 0 ≤ compare_big b d ↔ big_value d ≤ big_value b.
Proof.
  intros Hb Hd Hv Hc. pose proof (big_value_nonneg b Hb) as Hb0. destruct (big_value_above d Hd ltac:(lia)) as [Hdt Hdn].
  unfold compare_big. destruct (Z.eqb_spec (num_bigits b) (num_bigits d)) as [E|E]; cbn [negb].
  - destruct Hb as [(Hl1 & _) He1], Hd as [(Hl2 & _) He2].
    assert (Hcross : bigits_value (bigits d) * base ^ Z.of_nat (length (bigits b)) * base ^ (exp_ b + exp_ d) =
                     big_value d * base ^ num_bigits b ∧
                     bigits_value (bigits b) * base ^ Z.of_nat (length (bigits d)) * base ^ (exp_ b + exp_ d) =
                     big_value b * base ^ num_bigits b).
    { split; [|rewrite E]; unfold big_value, num_bigits; rewrite !Z.pow_add_r by lia; ring. }
    assert (Hp1 : 0 < base ^ (exp_ b + exp_ d)) by (apply base_pow_pos; lia).
    assert (Hp2 : 0 < base ^ num_bigits b) by (apply base_pow_pos; unfold num_bigits; lia). destruct Hcross as [C1 C2].
    rewrite compare_bigits_spec, !rev_involutive, !length_rev; [|by apply in_base_rev|by apply in_base_rev|].
    + rewrite (Z.mul_le_mono_pos_r _ _ _ Hp1), C1, C2. by rewrite <- Z.mul_le_mono_pos_r.
    + rewrite rev_last, !rev_involutive, !length_rev. destruct Hc as [Hc|(_ & [Hc|Hc])]; [left; unfold num_bigits in E; lia|by right; left|].
      right. right. intros Eq. apply Hc. rewrite Eq in C1. nia.
  - pose proof (big_value_below b Hb). pose proof (big_value_below d Hd). destruct (Z.ltb_spec (num_bigits d) (num_bigits b)).
    + split; [intros _|lia]. destruct (Z.eq_dec (big_value b) 0) as [E0|E0].
      * exfalso. destruct Hc as [Hc|[Hc _]]; [|done]. rewrite (num_bigits_zero b Hb E0) in *. lia.
      * destruct (big_value_above b Hb E0) as [Ht Hn]. destruct Hd as [_ Hde]. pose proof (base_pow_mono (num_bigits d) (num_bigits b - 1) ltac:(lia)). lia.
    + split; [lia|]. intros Hle. exfalso. destruct Hb as [_ Hbe]. pose proof (base_pow_mono (num_bigits b) (num_bigits d - 1)) as Hm.
      unfold num_bigits in Hm at 1. specialize (Hm ltac:(lia)). lia.
Qed.

Lemma subtract_bigits_spec x y borrow :
  0 ≤ x < base → 0 ≤ y < base → 0 ≤ borrow ≤ 1 →
  ∃ x' borrow', subtract_bigits x y borrow = (x', borrow') ∧ 0 ≤ x' < base ∧ 0 ≤ borrow' ≤ 1 ∧
    x' - base * borrow' = x - y - borrow.
Proof.
  unfold base. intros Hx Hy Hb. unfold subtract_bigits. eexists _, _. split; [done|]. set (r := x - y - borrow).
  assert (Hr : - 2 ^ 32 ≤ r < 2 ^ 32) by (subst r; lia). clearbody r. rewrite Z.shiftr_div_pow2 by done. unfold w64, w32.
  destruct (Z.lt_ge_cases r 0).
  - replace (r mod 2 ^ 64) with (r + 2 ^ 64) by (apply Z.mod_unique with (-1); lia).
    replace ((r + 2 ^ 64) mod 2 ^ 32) with (r + 2 ^ 32) by (apply Z.mod_unique with (2 ^ 32 - 1); lia).
    replace ((r + 2 ^ 64) / 2 ^ 63) with 1 by (apply Z.div_unique with (r + 2 ^ 63); lia). lia.
  - rewrite (Z.mod_small r (2 ^ 64)), (Z.mod_small r (2 ^ 32)), Z.div_small by lia. lia.
Qed.

(** The code takes at most one bigit more than [other] has into account. *)
Lemma subtract_loop_spec other l borrow :
  in_base other → in_base l → 0 ≤ borrow ≤ 1 → (length other ≤ length l ≤ S (length other))%nat →
  bigits_value other + borrow ≤ bigits_value l →
  ∃ l', subtract_loop l other borrow = Ret l' ∧ in_base l' ∧ length l' = length l ∧
    bigits_value l' = bigits_value l - bigits_value other - borrow.
Proof.
  intros Ho. revert l borrow. induction Ho as [|y other Hy Ho IH]; intros l borrow Hl Hb Hlen Hle.
  - cbn [bigits_value] in *. destruct l as [|x l]; cbn [subtract_loop bigits_value] in *.
    { exists []. replace borrow with 0 by lia. by split_and!. }
    destruct (Z.eqb_spec borrow 0) as [->|Hb0]; [exists (x :: l); split_and!; [done..|cbn [bigits_value]; lia]|].
    destruct l as [|? l]; [|cbn [length] in Hlen; lia]. cbn [bigits_value] in *. inversion Hl as [|? ? Hx _]; subst.
    destruct (subtract_bigits_spec x 0 borrow Hx ltac:(done) Hb) as (x' & b' & -> & Hx' & Hb' & E). pose proof base_pos.
    assert (b' = 0) as -> by (unfold base in *; lia). cbn [check Z.eqb mbind outcome_bind]. exists [x'].
    split_and!; [done|by constructor|done|cbn [bigits_value]; lia].
  - destruct l as [|x l]; cbn [subtract_loop bigits_value] in *.
    { cbn [length] in Hlen. lia. }
    inversion Hl as [|? ? Hx Hl']; subst. destruct (subtract_bigits_spec x y borrow Hx Hy Hb) as (x' & b' & -> & Hx' & Hb' & E).
    destruct (IH l b' Hl' Hb') as (l' & -> & Hb'' & Hlen' & E'); [cbn [length] in Hlen; lia|unfold base in *; lia|].
    cbn [mbind outcome_bind]. exists (x' :: l'). split_and!; [done|by constructor|cbn; lia|]. cbn [bigits_value]. unfold base in *. lia.
Qed.

Lemma significant_spec n l :
  in_base l → (n < length l)%nat → bigits_value (drop (S n) l) = 0 →
  normal (take (S (significant n l)) l) ∧ bigits_value (take (S (significant n l)) l) = bigits_value l.
Proof.
  intros Hl. induction n as [|n IH]; intros Hn Hd; cbn [significant].
  - destruct l as [|x l]; [cbn in Hn; lia|]. change (drop 1 (x :: l)) with l in Hd. cbn [take bigits_value] in *. rewrite take_0, Hd.
    inversion Hl; subst. split; [|cbn; lia]. split; [by apply Forall_singleton|]. split; [done|]. cbn. intros Hx. by rewrite Hx.
  - assert (Hsplit : drop (S n) l = nth (S n) l 0 :: drop (S (S n)) l).
    { rewrite (drop_S l (nth (S n) l 0)); [done|]. rewrite nth_lookup. destruct (lookup_lt_is_Some_2 l (S n) Hn) as [x ->]. done. }
    destruct (Z.eqb_spec (nth (S n) l 0) 0) as [E|E].
    + apply IH; [lia|]. rewrite Hsplit, E. cbn [bigits_value]. rewrite Hd. lia.
    + assert (Ht : in_base (take (S (S n)) l)) by by apply Forall_take. split.
      * split; [done|]. split; [destruct l; done|]. intros Hlast. exfalso. apply E. etransitivity; [|exact Hlast].
        rewrite (take_S_r l (S n) (nth (S n) l 0)); [by rewrite List.last_last|].
        rewrite nth_lookup. destruct (lookup_lt_is_Some_2 l (S n) Hn) as [x ->]. done.
      * rewrite <- (take_drop (S (S n)) l) at 2. rewrite bigits_value_app, Hd. lia.
Qed.

Lemma remove_leading_zeros_spec l : in_base l → l ≠ [] →
  normal (remove_leading_zeros l) ∧ bigits_value (remove_leading_zeros l) = bigits_value l.
Proof.
  intros Hl Hne. unfold remove_leading_zeros. destruct l as [|x l]; [done|]. apply significant_spec; [done|cbn; lia|].
  rewrite drop_ge; [done|cbn; lia].
Qed.

(** A number has at most one bigit more than another that is not [base] times
    smaller. *)
Lemma num_bigits_close b d : big_ok b → big_ok d → 0 < big_value d ≤ big_value b → big_value b < base * big_value d →
  num_bigits d ≤ num_bigits b ≤ num_bigits d + 1.
Proof.
  intros Hb Hd Hle Hlt. destruct (big_value_above b Hb ltac:(lia)) as [B1 B2], (big_value_above d Hd ltac:(lia)) as [D1 D2].
  pose proof (big_value_below b Hb). pose proof (big_value_below d Hd). destruct Hb as [_ Hb], Hd as [_ Hd]. split.
  - destruct (Z.le_gt_cases (num_bigits d) (num_bigits b)); [done|]. pose proof (base_pow_mono (num_bigits b) (num_bigits d - 1) ltac:(lia)). lia.
  - destruct (Z.le_gt_cases (num_bigits b) (num_bigits d + 1)); [done|].
    pose proof (base_pow_mono (num_bigits d + 1) (num_bigits b - 1) ltac:(lia)) as Hm. rewrite Z.pow_add_r, Z.pow_1_r in Hm by lia.
    pose proof base_pos. nia.
Qed.

Lemma subtract_aligned_spec b d :
  big_ok b → big_ok d → exp_ b ≤ exp_ d → 0 < big_value d ≤ big_value b → big_value b < base * big_value d →
  ∃ b', subtract_aligned b d = Ret b' ∧ big_ok b' ∧ big_value b' = big_value b - big_value d ∧ exp_ b' = exp_ b.
Proof.
  intros Hb Hd He Hle Hlt. pose proof (num_bigits_close b d Hb Hd Hle Hlt) as Hn. unfold subtract_aligned, check.
  rewrite (proj2 (Z.leb_le (exp_ b) (exp_ d)) He). cbn [mbind outcome_bind].
  rewrite (proj2 (Z.leb_le 0 (compare_big b d))) by (apply compare_big_spec; try done; [lia|by left|lia]). cbn [mbind outcome_bind].
  destruct Hb as [(Hl1 & Hne1 & _) He1], Hd as [(Hl2 & Hne2 & _) He2]. unfold num_bigits in Hn. unfold big_value in *.
  set (i := Z.to_nat (exp_ d - exp_ b)). assert (Hi : Z.of_nat i = exp_ d - exp_ b) by lia.
  assert (Hsplit : bigits_value (bigits b) = bigits_value (take i (bigits b)) + base ^ Z.of_nat i * bigits_value (drop i (bigits b))).
  { rewrite <- (take_drop i (bigits b)) at 1. rewrite bigits_value_app, length_take_le by lia. done. }
  assert (Hlow : 0 ≤ bigits_value (take i (bigits b)) < base ^ Z.of_nat i).
  { pose proof (bigits_value_range (take i (bigits b)) ltac:(by apply Forall_take)) as H. by rewrite length_take_le in H by lia. }
  replace (exp_ d) with (Z.of_nat i + exp_ b) in Hle, Hlt |- * by lia. rewrite Z.pow_add_r in * by lia.
  pose proof (base_pow_pos (exp_ b) He1) as Hp. pose proof (base_pow_pos (Z.of_nat i) ltac:(lia)) as Hpi.
  set (p := base ^ exp_ b) in *. set (q := base ^ Z.of_nat i) in *. set (vd := bigits_value (bigits d)) in *.
  set (low := bigits_value (take i (bigits b))) in *. set (high := bigits_value (drop i (bigits b))) in *.
  assert (Hge : vd ≤ high).
  { destruct (Z.le_gt_cases vd high) as [?|Hlt']; [done|]. rewrite Hsplit in Hle. assert (low + q * high < q * vd) by nia. nia. }
  destruct (subtract_loop_spec (bigits d) (drop i (bigits b)) 0) as (l' & -> & Hl' & Hlen & E);
    [done|by apply Forall_drop|lia|rewrite length_drop; lia|fold vd high; lia|].
  cbn [mbind outcome_bind]. set (l := take i (bigits b) ++ l').
  destruct (remove_leading_zeros_spec l) as [Hnorm Ev].
  { apply Forall_app. split; [by apply Forall_take|done]. }
  { intros E0. apply (f_equal length) in E0. unfold l in E0. rewrite length_app, Hlen, length_take, length_drop in E0. destruct (bigits b); [done|cbn in E0; lia]. }
  eexists. split; [done|]. split; [by split|]. split; [|done]. cbn [bigits exp_]. rewrite Ev. fold p. subst l.
  rewrite bigits_value_app, length_take_le, E by lia. fold low q vd high. rewrite Hsplit. ring.
Qed.

Lemma align_to_spec b d : big_ok b → comparable b d → big_value b ≠ 0 ∨ exp_ b ≤ exp_ d → 0 ≤ exp_ d →
  big_ok (align_to b d) ∧ big_value (align_to b d) = big_value b ∧ exp_ (align_to b d) ≤ exp_ d.
Proof.
  intros Hb Hc Hv Hd. unfold align_to. destruct (Z.leb_spec (exp_ b - exp_ d) 0); [split_and!; [done|done|lia]|].
  destruct Hv as [Hv|Hv]; [|lia]. destruct Hb as [Hn He]. set (n := exp_ b - exp_ d) in *.
  assert (Hne : List.last (bigits b) 0 ≠ 0).
  { apply (normal_value _ Hn). intros E. apply Hv. unfold big_value. by rewrite E. }
  destruct Hn as (Hl & Hne' & _). split_and!.
  - split; [|cbn; lia]. cbn [bigits]. split; [apply Forall_app; split; [apply Forall_replicate; unfold base; lia|done]|].
    split; [destruct (replicate _ _); [done|done]|]. intros E. exfalso. apply Hne. rewrite <- E.
    destruct (exists_last Hne') as (l0 & x & ->). by rewrite app_assoc, !List.last_last.
  - unfold big_value. cbn [bigits exp_]. rewrite bigits_value_app, bigits_value_zeros, length_replicate, Z2Nat.id, Z.add_0_l by lia.
    replace (exp_ b) with (n + (exp_ b - n)) at 2 by lia. rewrite (Z.pow_add_r base n) by lia. ring.
  - cbn [exp_]. lia.
Qed.

(** *** Division *)

Lemma divmod_loop_spec fuel b d q :
  big_ok b → big_ok d → exp_ b ≤ exp_ d → 0 < big_value d ≤ big_value b →
  big_value b < (Z.of_nat fuel + 1) * big_value d → Z.of_nat fuel + 1 ≤ base →
  ∃ b', divmod_loop fuel b d q = Ret (q + big_value b / big_value d, b') ∧ big_ok b' ∧
    big_value b' = big_value b mod big_value d ∧ exp_ b' = exp_ b.
Proof.
  intros Hb Hd He. revert b q Hb He. induction fuel as [|fuel IH]; intros b q Hb He Hle Hlt Hf; [lia|].
  cbn [divmod_loop]. destruct (subtract_aligned_spec b d Hb Hd He Hle) as (b1 & -> & Hb1 & Ev & Ee); [nia|]. cbn [mbind outcome_bind].
  assert (Hq : big_value b / big_value d = 1 + big_value b1 / big_value d).
  { replace (big_value b) with (big_value b1 + 1 * big_value d) by lia. rewrite Z.div_add by lia. lia. }
  assert (Hr : big_value b mod big_value d = big_value b1 mod big_value d).
  { replace (big_value b) with (big_value b1 + 1 * big_value d) by lia. by rewrite Z.mod_add by lia. }
  pose proof (compare_big_spec b1 d Hb1 Hd ltac:(lia) ltac:(left; lia)) as Hc. pose proof (big_value_nonneg b1 Hb1).
  destruct (Z.leb_spec 0 (compare_big b1 d)) as [H0|H0].
  - destruct (IH b1 (q + 1) Hb1 ltac:(lia)) as (b' & -> & Hb' & E' & Ee'); [split; [lia|by apply Hc]|lia|lia|].
    exists b'. split_and!; [f_equal; f_equal; lia|done|lia|lia].
  - assert (big_value b1 < big_value d) by (destruct (Z.lt_ge_cases (big_value b1) (big_value d)) as [?|Hge]; [done|apply Hc in Hge; lia]).
    exists b1. rewrite Hq, Hr, Z.div_small, Z.mod_small by lia. split_and!; [f_equal; f_equal; lia|done|done|lia].
Qed.

(** A digit: the quotient and the remainder. *)
Lemma divmod_assign_spec b d :
  big_ok b → big_ok d → comparable b d → 0 < big_value d → big_value b < 10 * big_value d →
  ∃ b', divmod_assign b d = Ret (big_value b / big_value d, b') ∧ big_ok b' ∧
    big_value b' = big_value b mod big_value d ∧ (big_value d ≤ big_value b ∨ exp_ b ≤ exp_ d → exp_ b' ≤ exp_ d).
Proof.
  intros Hb Hd Hc Hv Hlt. pose proof (compare_big_spec b d Hb Hd Hv Hc) as Hcmp. pose proof (big_value_nonneg b Hb). unfold divmod_assign.
  destruct (Z.ltb_spec (compare_big b d) 0) as [H0|H0].
  - assert (big_value b < big_value d) by (destruct (Z.lt_ge_cases (big_value b) (big_value d)) as [?|Hge]; [done|apply Hcmp in Hge; lia]).
    exists b. rewrite Z.div_small, Z.mod_small by lia. split_and!; [done..|]. intros [?|?]; [lia|done].
  - apply Hcmp in H0. destruct (align_to_spec b d Hb Hc ltac:(left; lia) ltac:(apply Hd)) as (Ha & Eva & Ea).
    assert (Hlast : List.last (bigits d) 0 ≠ 0).
    { apply (normal_value _ (proj1 Hd)). intros E. unfold big_value in Hv. rewrite E in Hv. lia. }
    unfold check. rewrite (proj2 (Z.eqb_neq _ _) Hlast). cbn [negb mbind outcome_bind].
    destruct (divmod_loop_spec digit_fuel (align_to b d) d 0 Ha Hd Ea) as (b' & -> & Hb' & Ev & Ee);
      [lia|change (Z.of_nat digit_fuel) with 10; lia|done|]. exists b'. rewrite Eva in *. split_and!; [done|done|done|lia].
Qed.

(** *** Wide numbers *)

Lemma push_carry_spec fuel c : 0 ≤ c < base ^ Z.of_nat fuel →
  bigits_value (push_carry fuel c) = c ∧ in_base (push_carry fuel c) ∧ (c ≠ 0 → push_carry fuel c ≠ [] ∧ List.last (push_carry fuel c) 0 ≠ 0).
Proof.
  revert c. induction fuel as [|fuel IH]; intros c Hc; cbn [push_carry].
  { cbn in Hc. split_and!; [cbn; lia|constructor|lia]. }
  rewrite Nat2Z.inj_succ, Z.pow_succ_r in Hc by lia. destruct (Z.eqb_spec c 0) as [->|Hc0]; [split_and!; [done|constructor|done]|].
  pose proof base_pos. rewrite shiftr32. destruct (IH (c / base)) as (E & Hb & Hl).
  { split; [apply Z.div_pos; lia|apply Z.div_lt_upper_bound; lia]. }
  split_and!; [cbn [bigits_value]; rewrite E, <- shiftr32; apply split32|constructor; [apply in_base_w32|done]|].
  intros _. split; [done|]. destruct (Z.eq_dec (c / base) 0) as [E0|E0].
  - rewrite E0. assert (Hs : c < base) by (apply Z.div_small_iff in E0; lia).
    assert (En : push_carry fuel 0 = []) by by destruct fuel. rewrite En. cbn [List.last]. rewrite w32_base, Z.mod_small by lia. done.
  - destruct (Hl E0) as [Hne Hlast]. destruct (push_carry fuel (c / base)) as [|y m]; [done|exact Hlast].
Qed.

Lemma assign_spec n : 0 < n < 2 ^ 128 → ∃ b, assign n = Ret b ∧ big_ok b ∧ big_value b = n ∧ exp_ b = 0.
Proof.
  intros Hn. unfold assign, check. destruct (Z.ltb_spec 0 n); [|lia]. cbn [mbind outcome_bind]. eexists. split; [done|].
  assert (E : w32 n :: push_carry 3 (Z.shiftr n 32) = push_carry 4 n) by (cbn [push_carry]; destruct (Z.eqb_spec n 0); [lia|done]).
  rewrite E. destruct (push_carry_spec 4 n) as (Ev & Hb & Hl); [change (base ^ Z.of_nat 4) with (2 ^ 128); lia|].
  destruct (Hl ltac:(lia)) as [Hne Hlast]. split; [split; [split; [done|split; [done|done]]|done]|]. split; [|done].
  unfold big_value. cbn [bigits exp_]. rewrite Ev. lia.
Qed.

Lemma wide_step x v carry :
  0 ≤ x < base → 0 ≤ v < 2 ^ 64 → 0 ≤ carry < 2 ^ 64 →
  let result := w128 (w128 (v * x) + w32 carry) in
  let carry' := w128 (w128 (Z.shiftl (w128 (0 * x)) 32) + Z.shiftr result 32 + Z.shiftr carry 32) in
  w32 result + base * carry' = x * v + carry ∧ 0 ≤ carry' < 2 ^ 64.
Proof.
  intros Hx Hv Hc result carry'. pose proof (in_base_w32 carry) as Hw. unfold base in *.
  assert (Er : result = v * x + w32 carry).
  { subst result. unfold w128. rewrite (Z.mod_small (v * x)) by nia. rewrite Z.mod_small by nia. done. }
  assert (Hd : Z.shiftr result 32 + Z.shiftr carry 32 = (x * v + carry) / 2 ^ 32 ∧ 0 ≤ Z.shiftr result 32 + Z.shiftr carry 32 < 2 ^ 64).
  { rewrite !Z.shiftr_div_pow2 by done. rewrite Er. pose proof (Z.div_mod carry (2 ^ 32) ltac:(done)) as Hdm. change (w32 carry) with (carry mod 2 ^ 32) in *.
    replace (x * v + carry) with (v * x + carry mod 2 ^ 32 + carry / 2 ^ 32 * 2 ^ 32) by lia. rewrite Z.div_add by done. split; [done|].
    assert (0 ≤ carry / 2 ^ 32) by (apply Z.div_pos; lia). assert (0 ≤ (v * x + carry mod 2 ^ 32) / 2 ^ 32) by (apply Z.div_pos; [nia|done]).
    split; [lia|]. rewrite <- Z.div_add by done. apply Z.div_lt_upper_bound; [done|]. nia. }
  assert (Ec : carry' = Z.shiftr result 32 + Z.shiftr carry 32).
  { assert (E0 : w128 (Z.shiftl (w128 (0 * x)) 32) = 0) by (by rewrite Z.mul_0_l). subst carry'. rewrite E0, Z.add_0_l.
    apply Z.mod_small. lia. }
  rewrite Ec. split; [|lia]. destruct Hd as [Hd _]. pose proof (split32 result) as Hs. pose proof (split32 carry) as Hs'. unfold base in *. rewrite Er in Hs. rewrite Er. lia.
Qed.

Lemma multiply_wide_spec l v carry :
  in_base l → 0 < v < 2 ^ 64 → 0 ≤ carry < 2 ^ 64 →
  bigits_value (multiply_wide_loop l v 0 carry) = bigits_value l * v + carry ∧ in_base (multiply_wide_loop l v 0 carry) ∧
  (l ≠ [] → List.last l 0 ≠ 0 → List.last (multiply_wide_loop l v 0 carry) 0 ≠ 0).
Proof.
  intros Hl Hv. revert carry. induction Hl as [|x l Hx Hl IH]; intros carry Hc; cbn [multiply_wide_loop bigits_value].
  { destruct (push_carry_spec 4 carry) as (E & Hb & _); [change (base ^ Z.of_nat 4) with (2 ^ 128); lia|].
    split_and!; [rewrite E; lia|done|done]. }
  destruct (wide_step x v carry Hx ltac:(lia) Hc) as [E Hc']. cbv zeta in E, Hc'.
  set (result := w128 (w128 (v * x) + w32 carry)) in *.
  set (carry' := w128 (w128 (Z.shiftl (w128 (0 * x)) 32) + Z.shiftr result 32 + Z.shiftr carry 32)) in *.
  destruct (IH carry' Hc') as (E' & Hb & Hlast). rewrite E'. split_and!; [lia|constructor; [apply in_base_w32|done]|].
  intros _ Hx0. destruct l as [|y l].
  - cbn [multiply_wide_loop]. destruct (push_carry_spec 4 carry') as (_ & _ & Hp); [change (base ^ Z.of_nat 4) with (2 ^ 128); lia|].
    destruct (Z.eq_dec carry' 0) as [E0|E0].
    + rewrite E0 in *. cbn [push_carry Z.eqb List.last] in *. assert (0 < x * v) by nia. lia.
    + destruct (Hp E0) as [Hne Hl0]. destruct (push_carry 4 carry') as [|z m]; [done|exact Hl0].
  - specialize (Hlast ltac:(done) Hx0). destruct (multiply_wide_loop (y :: l) v 0 carry') as [|z m] eqn:Em; [done|exact Hlast].
Qed.

Lemma multiply128_spec b v : big_ok b → big_value b ≠ 0 → 0 < v < 2 ^ 64 →
  big_ok (multiply128 b v) ∧ big_value (multiply128 b v) = big_value b * v ∧ exp_ (multiply128 b v) = exp_ b.
Proof.
  intros [Hn He] Hb Hv. unfold multiply128. rewrite w64_small, Z.shiftr_div_pow2, Z.div_small by lia.
  destruct (multiply_wide_spec (bigits b) v 0 ltac:(apply Hn) Hv ltac:(done)) as (E & Hi & Hl).
  assert (Hlast : List.last (bigits b) 0 ≠ 0).
  { apply (normal_value _ Hn). intros E0. apply Hb. unfold big_value. by rewrite E0. }
  destruct Hn as (_ & Hne & _). specialize (Hl Hne Hlast). split_and!; [|unfold big_value; cbn [bigits exp_]; rewrite E; ring|done].
  split; [|done]. split; [done|]. split; [|done]. by destruct (bigits b).
Qed.

(** *** The sum of two numbers against a third *)

Lemma big_value_low b i : 0 ≤ i ≤ exp_ b → big_value b = big_value b / base ^ i * base ^ i.
Proof.
  intros Hi. unfold big_value. replace (exp_ b) with (exp_ b - i + i) by lia. rewrite Z.pow_add_r, Z.mul_assoc, Z.div_mul by (lia || (apply Z.pow_nonzero; [done|lia])).
  done.
Qed.

Lemma nth_bigit l i : in_base l → nth i l 0 = bigits_value l / base ^ Z.of_nat i mod base.
Proof.
  intros Hl. revert l Hl. induction i as [|i IH]; intros l Hl.
  - rewrite Z.div_1_r. destruct Hl as [|x l Hx Hl]; [done|]. cbn [nth bigits_value]. rewrite Z.mul_comm, Z.mod_add, Z.mod_small by done. done.
  - destruct Hl as [|x l Hx Hl]; [cbn [nth bigits_value]; by rewrite Z.div_0_l by (pose proof (base_pow_pos (Z.of_nat (S i)) ltac:(lia)); lia)|].
    cbn [nth bigits_value]. rewrite IH by done. rewrite Nat2Z.inj_succ, Z.pow_succ_r by lia. rewrite <- Z.div_div by (done || apply base_pow_pos; lia).
    rewrite (Z.mul_comm base (bigits_value l)), Z.div_add, (Z.div_small x) by done. done.
Qed.

Lemma get_bigit_spec b i : big_ok b → 0 ≤ i → get_bigit b i = big_value b / base ^ i mod base.
Proof.
  intros [(Hl & _) He] Hi. unfold get_bigit. pose proof (base_pow_pos i Hi). pose proof (bigits_value_range _ Hl) as Hr.
  destruct (Z.leb_spec (exp_ b) i) as [H1|H1]; cbn [andb].
  - assert (E : big_value b / base ^ i = bigits_value (bigits b) / base ^ (i - exp_ b)).
    { unfold big_value. replace i with (i - exp_ b + exp_ b) at 1 by lia. rewrite Z.pow_add_r by lia.
      apply Z.div_mul_cancel_r; apply Z.pow_nonzero; (done || lia). }
    rewrite E. destruct (Z.ltb_spec i (num_bigits b)) as [H2|H2].
    + rewrite nth_bigit by done. by rewrite Z2Nat.id by lia.
    + rewrite Z.div_small; [done|]. split; [lia|]. unfold num_bigits in H2. eapply Z.lt_le_trans; [apply Hr|]. apply base_pow_mono. lia.
  - assert (E : big_value b = bigits_value (bigits b) * base ^ (exp_ b - i - 1) * base * base ^ i).
    { unfold big_value. rewrite <- !Z.mul_assoc, <- Z.pow_succ_r, <- Z.pow_add_r by lia. do 2 f_equal. lia. }
    rewrite E, Z.div_mul, Z.mod_mul by (done || lia). done.
Qed.

(** [n] bigits are left: [borrow] is how much more [rhs] is in the bigits seen. *)
Lemma add_compare_loop_spec n k b1 b2 b3 :
  big_ok b1 → big_ok b2 → big_ok b3 → k = Z.min (Z.min (exp_ b1) (exp_ b2)) (exp_ b3) →
  let i := k + Z.of_nat n in
  let D := big_value b3 / base ^ i - big_value b1 / base ^ i - big_value b2 / base ^ i in
  0 ≤ D ≤ 1 →
  let r := add_compare_loop n (i - 1) b1 b2 b3 (base * D) in
  (r = 1 ↔ big_value b3 < big_value b1 + big_value b2) ∧ (r = 0 ↔ big_value b3 = big_value b1 + big_value b2) ∧ -1 ≤ r ≤ 1.
Proof.
  intros H1 H2 H3 Ek. pose proof (proj2 H1) as He1. pose proof (proj2 H2) as He2. pose proof (proj2 H3) as He3. pose proof base_pos as HB.
  induction n as [|n IH]; intros i D HD r.
  - subst r. cbn [add_compare_loop]. assert (Hi : i = k) by lia. pose proof (base_pow_pos i ltac:(lia)).
    pose proof (big_value_low b1 i ltac:(lia)). pose proof (big_value_low b2 i ltac:(lia)). pose proof (big_value_low b3 i ltac:(lia)).
    destruct (Z.eqb_spec (base * D) 0); nia.
  - assert (Ei : i - 1 = k + Z.of_nat n) by lia. subst r. cbn [add_compare_loop]. rewrite !get_bigit_spec by (done || lia). rewrite Ei.
    set (j := k + Z.of_nat n) in *. assert (Hij : i = j + 1) by lia. pose proof (base_pow_pos j ltac:(lia)) as Hp.
    assert (Hq : ∀ v, 0 ≤ v → v / base ^ j = base * (v / base ^ i) + v / base ^ j mod base ∧ 0 ≤ v / base ^ j mod base < base ∧
                       v / base ^ j * base ^ j ≤ v < (v / base ^ j + 1) * base ^ j).
    { intros v Hv. rewrite Hij, Z.pow_add_r, Z.pow_1_r, <- Z.div_div by lia. pose proof (Z.div_mod (v / base ^ j) base ltac:(lia)).
      pose proof (Z.mod_pos_bound (v / base ^ j) base HB). pose proof (Z.div_mod v (base ^ j) ltac:(lia)). pose proof (Z.mod_pos_bound v (base ^ j) Hp).
      split_and!; lia. }
    destruct (Hq _ (big_value_nonneg b1 H1)) as (E1 & R1 & V1), (Hq _ (big_value_nonneg b2 H2)) as (E2 & R2 & V2), (Hq _ (big_value_nonneg b3 H3)) as (E3 & R3 & V3).
    set (q1 := big_value b1 / base ^ j) in *. set (q2 := big_value b2 / base ^ j) in *. set (q3 := big_value b3 / base ^ j) in *.
    set (d1 := q1 mod base) in *. set (d2 := q2 mod base) in *. set (d3 := q3 mod base) in *.
    assert (ED : d3 + base * D - (d1 + d2) = q3 - q1 - q2) by (subst D; lia). clear Hq.
    assert (HBD : 0 ≤ base * D ≤ base) by nia. unfold base in R1, R2, R3, HBD |- *. fold base in HBD |- *.
    rewrite (w64_small (d1 + d2)), (w64_small (d3 + base * D)) by (unfold base in *; lia).
    destruct (Z.ltb_spec (d3 + base * D) (d1 + d2)) as [Hlt|Hge].
    { assert (q3 + 1 ≤ q1 + q2) by lia. assert (big_value b3 < big_value b1 + big_value b2) by nia. lia. }
    rewrite (w64_small (d3 + base * D - (d1 + d2))) by (unfold base in *; lia).
    destruct (Z.ltb_spec 1 (d3 + base * D - (d1 + d2))) as [Hgt|Hle].
    { assert (q1 + q2 + 2 ≤ q3) by lia. assert (big_value b1 + big_value b2 < big_value b3) by nia. lia. }
    rewrite ED in *. replace (w64 (Z.shiftl (q3 - q1 - q2) 32)) with (base * (q3 - q1 - q2))
      by (rewrite Z.shiftl_mul_pow2, w64_small by lia; unfold base; lia).
    apply IH. fold j q1 q2 q3. lia.
Qed.

(** A number of which the exponent does not reach above the third's. *)
Definition below_top (b d : bigint) : Prop := big_value b ≠ 0 ∨ num_bigits b ≤ num_bigits d.

Lemma add_compare_spec b1 b2 b3 :
  big_ok b1 → big_ok b2 → big_ok b3 → big_value b3 ≠ 0 → below_top b1 b3 → below_top b2 b3 →
  let r := add_compare b1 b2 b3 in
  (r = 1 ↔ big_value b3 < big_value b1 + big_value b2) ∧ (r = 0 ↔ big_value b3 = big_value b1 + big_value b2) ∧ -1 ≤ r ≤ 1.
Proof.
  intros H1 H2 H3 Hv3 T1 T2 r. subst r. unfold add_compare. pose proof (big_value_nonneg b1 H1). pose proof (big_value_nonneg b2 H2).
  destruct (big_value_above b3 H3 Hv3) as [A3 N3]. pose proof (big_value_below b1 H1) as B1. pose proof (big_value_below b2 H2) as B2.
  pose proof (big_value_below b3 H3) as B3. pose proof base_pos as HB.
  assert (N : ∀ b, big_ok b → 0 ≤ exp_ b ≤ num_bigits b) by (intros b [_ ?]; unfold num_bigits; lia).
  pose proof (N b1 H1). pose proof (N b2 H2). pose proof (N b3 H3). set (m := Z.max (num_bigits b1) (num_bigits b2)) in *.
  destruct (Z.ltb_spec (m + 1) (num_bigits b3)) as [Hs|Hs].
  { pose proof (base_pow_mono (num_bigits b1) m ltac:(lia)). pose proof (base_pow_mono (num_bigits b2) m ltac:(lia)).
    pose proof (base_pow_mono (m + 1) (num_bigits b3 - 1) ltac:(lia)) as Hm. rewrite Z.pow_add_r, Z.pow_1_r in Hm by lia.
    pose proof (base_pow_pos m ltac:(lia)). assert (2 * base ^ m ≤ base ^ m * base) by (unfold base at 3; nia). lia. }
  destruct (Z.ltb_spec (num_bigits b3) m) as [Hl|Hl].
  { assert (big_value b3 < big_value b1 + big_value b2); [|lia].
    assert (Hone : ∀ b, big_ok b → below_top b b3 → num_bigits b3 < num_bigits b → big_value b3 < big_value b).
    { intros b Hb [Hv|?] Hgt; [|lia]. destruct (big_value_above b Hb Hv) as [A _]. pose proof (base_pow_mono (num_bigits b3) (num_bigits b - 1) ltac:(lia)). lia. }
    destruct (Z.le_gt_cases (num_bigits b1) (num_bigits b2)); [pose proof (Hone b2 H2 T2 ltac:(lia))|pose proof (Hone b1 H1 T1 ltac:(lia))]; lia. }
  set (k := Z.min (Z.min (exp_ b1) (exp_ b2)) (exp_ b3)).
  assert (Hz : ∀ b, big_ok b → num_bigits b ≤ num_bigits b3 → big_value b / base ^ num_bigits b3 = 0).
  { intros b Hb Hn. apply Z.div_small. split; [by apply big_value_nonneg|]. eapply Z.lt_le_trans; [by apply big_value_below|].
    apply base_pow_mono. pose proof (N b Hb). lia. }
  pose proof (add_compare_loop_spec (Z.to_nat (num_bigits b3 - k)) k b1 b2 b3 H1 H2 H3 eq_refl) as L. cbv zeta in L.
  replace (k + Z.of_nat (Z.to_nat (num_bigits b3 - k))) with (num_bigits b3) in L by lia.
  rewrite !Hz in L by (done || lia). specialize (L ltac:(lia)). rewrite Z.mul_0_r in L. exact L.
Qed.

(** *** Squares and powers of ten *)

(** The [k]-th coefficient of a product. *)
Fixpoint coefficient (l g : list Z) (k : nat) : Z :=
  match l with
  | [] => 0
  | x :: l => x * nth k g 0 + match k with O => 0 | S k => coefficient l g k end
  end.

(** [f 0 + base * (f 1 + ...)], [m] terms. *)
Fixpoint series (f : nat → Z) (m : nat) : Z :=
  match m with
  | O => 0
  | S m => f 0%nat + base * series (λ k, f (S k)) m
  end.

Lemma series_ext f g m : (∀ k, f k = g k) → series f m = series g m.
Proof. revert f g. induction m as [|m IH]; intros f g H; [done|]. cbn [series]. rewrite H. f_equal. f_equal. by apply IH. Qed.

Lemma series_add f g m : series (λ k, f k + g k) m = series f m + series g m.
Proof. revert f g. induction m as [|m IH]; intros f g; [done|]. cbn [series]. rewrite (IH (λ k, f (S k)) (λ k, g (S k))). ring. Qed.

Lemma series_nth c g m : (length g ≤ m)%nat → series (λ k, c * nth k g 0) m = c * bigits_value g.
Proof.
  revert g. induction m as [|m IH]; intros g Hg; [destruct g; [cbn; lia|cbn in Hg; lia]|]. cbn [series]. destruct g as [|x g].
  - rewrite (series_ext _ (λ k, c * nth k [] 0)) by (intros k; by destruct k). rewrite (IH []) by (cbn; lia). cbn. lia.
  - cbn [nth bigits_value]. rewrite IH by (cbn in Hg; lia). ring.
Qed.

Lemma series_coefficient l g m :
  (length l + length g ≤ m)%nat → series (coefficient l g) m = bigits_value l * bigits_value g.
Proof.
  revert m. induction l as [|x l IH]; intros m Hm.
  { cbn [bigits_value]. clear Hm. rewrite Z.mul_0_l. induction m as [|m IHm]; [done|]. cbn [series coefficient] in *. rewrite IHm. lia. }
  cbn [coefficient bigits_value]. rewrite series_add, series_nth by (cbn [length] in Hm; lia).
  destruct m as [|m]; [cbn [length] in Hm; lia|]. cbn [series]. rewrite IH by (cbn [length] in Hm; lia). ring.
Qed.

Lemma in_base_nth n i : in_base n → 0 ≤ nth i n 0 < base.
Proof.
  intros Hn. destruct (nth_in_or_default i n 0) as [H| ->]; [|done]. unfold in_base in Hn. rewrite List.Forall_forall in Hn. by apply Hn.
Qed.

(** The products of bigits [i] and [j], [i + 1] and [j - 1], and so on. *)
Fixpoint products (l g : list Z) (i j terms : nat) : Z :=
  match terms with
  | O => 0
  | S terms => nth i l 0 * nth j g 0 + products l g (S i) (j - 1) terms
  end.

Lemma products_range n i j terms : in_base n → 0 ≤ products n n i j terms ≤ Z.of_nat terms * (base * base).
Proof.
  intros Hn. revert i j. induction terms as [|t IH]; intros i j; [done|]. cbn [products]. specialize (IH (S i) (j - 1)%nat).
  pose proof (in_base_nth n i Hn). pose proof (in_base_nth n j Hn). pose proof base_pos. nia.
Qed.

Lemma column_sum_spec n i j terms sum :
  in_base n → 0 ≤ sum → sum + Z.of_nat terms * (base * base) < 2 ^ 128 →
  column_sum n i j terms sum = sum + products n n i j terms.
Proof.
  intros Hn. revert i j sum. induction terms as [|t IH]; intros i j sum Hs Hlt; cbn [column_sum products]; [lia|].
  pose proof (in_base_nth n i Hn). pose proof (in_base_nth n j Hn). pose proof base_pos. set (p := nth i n 0 * nth j n 0) in *.
  assert (0 ≤ p ≤ base * base) by (subst p; nia). unfold w128. rewrite Z.mod_small by lia. rewrite IH by lia. lia.
Qed.

Lemma products_tail x l g i j t : products (x :: l) g (S i) j t = products l g i j t.
Proof. revert i j. induction t as [|t IH]; intros i j; [done|]. cbn [products nth]. by rewrite IH. Qed.

Lemma products_nil g i j t : products [] g i j t = 0.
Proof. revert i j. induction t as [|t IH]; intros i j; [done|]. cbn [products]. rewrite IH. by destruct i. Qed.

Lemma products_app l g i j a b : products l g i j (a + b) = products l g i j a + products l g (i + a) (j - a) b.
Proof.
  revert i j. induction a as [|a IH]; intros i j.
  - cbn [Nat.add products]. by rewrite Nat.add_0_r, Nat.sub_0_r.
  - cbn [Nat.add products]. rewrite IH. replace (S i + a)%nat with (i + S a)%nat by lia. replace (j - 1 - a)%nat with (j - S a)%nat by lia. lia.
Qed.

(** Products with bigits that are not there. *)
Lemma products_high l g i j t : (length l ≤ i)%nat → products l g i j t = 0.
Proof. revert i j. induction t as [|t IH]; intros i j Hi; [done|]. cbn [products]. rewrite nth_overflow, IH by lia. lia. Qed.

Lemma products_far l g i j t : (length g + t ≤ S j)%nat → products l g i j t = 0.
Proof. revert i j. induction t as [|t IH]; intros i j Hj; [done|]. cbn [products]. rewrite (nth_overflow g), IH by lia. lia. Qed.

Lemma coefficient_products l g k : coefficient l g k = products l g 0 k (S k).
Proof.
  revert k. induction l as [|x l IH]; intros k; [by rewrite products_nil|]. cbn [coefficient products nth]. f_equal.
  destruct k as [|k]; [done|]. by rewrite IH, products_tail, Nat.sub_succ, Nat.sub_0_r.
Qed.

(** The columns of [square] are the coefficients. *)
Lemma column_products n k : (k < 2 * length n)%nat →
  let i := column_start (length n) k in products n n i (k - i) (column_length (length n) k) = coefficient n n k.
Proof.
  intros Hk i. rewrite coefficient_products. subst i. unfold column_start, column_length.
  destruct (Nat.ltb_spec k (length n)) as [Hl|Hl]; [by rewrite Nat.sub_0_r|].
  assert (Hs : ∃ s, s = (k - (length n - 1))%nat) by eauto. destruct Hs as [s Hs]. rewrite <- Hs. replace (S k) with (s + ((2 * length n - 1 - k) + s))%nat by lia.
  rewrite !products_app, (products_far n n 0 k s), (products_high n n (0 + s + _)) by lia. cbn [Nat.add]. lia.
Qed.

Lemma square_loop_spec n rest k sum :
  in_base n → Z.of_nat (length n) < base → (k + rest = 2 * length n)%nat → 0 ≤ sum < 2 ^ 100 →
  ∃ carry, 0 ≤ carry ∧ in_base (square_loop n rest k sum) ∧ length (square_loop n rest k sum) = rest ∧
    bigits_value (square_loop n rest k sum) + base ^ Z.of_nat rest * carry = sum + series (λ t, coefficient n n (k + t)) rest.
Proof.
  intros Hn Hlen. revert k sum. induction rest as [|rest IH]; intros k sum Hk Hs; cbn [square_loop series].
  { exists sum. split_and!; [lia|constructor|done|]. cbn [bigits_value Z.of_nat]. rewrite Z.pow_0_r. lia. }
  set (i := column_start (length n) k). set (t := column_length (length n) k).
  assert (Ht : Z.of_nat t ≤ 2 * base) by (subst t; unfold column_length; destruct (Nat.ltb_spec k (length n)); lia).
  assert (Hb : Z.of_nat t * (base * base) ≤ 2 ^ 97) by (unfold base in *; lia).
  rewrite column_sum_spec by (done || lia). rewrite Nat.add_0_r, <- column_products by lia. fold i t.
  pose proof (products_range n i (k - i) t Hn) as Hp. set (c := sum + products n n i (k - i) t).
  destruct (IH (S k) (Z.shiftr c 32)) as (carry & Hc & Hi & Hl & E); [lia| |].
  { rewrite Z.shiftr_div_pow2 by done. split; [apply Z.div_pos; [subst c; lia|done]|]. apply Z.div_lt_upper_bound; [done|]. subst c. lia. }
  exists carry. split_and!; [done|constructor; [apply in_base_w32|done]|cbn [length]; lia|].
  cbn [bigits_value]. rewrite Nat2Z.inj_succ, Z.pow_succ_r by lia. pose proof (split32 c).
  rewrite (series_ext (λ t, coefficient n n (k + S t)) (λ t, coefficient n n (S k + t))) by (intros j; f_equal; lia).
  subst c. lia.
Qed.

Lemma square_spec b : big_ok b → Z.of_nat (length (bigits b)) < base →
  big_ok (square b) ∧ big_value (square b) = big_value b * big_value b ∧ exp_ (square b) = exp_ b * 2.
Proof.
  intros [(Hl & Hne & _) He] Hlen. unfold square. set (n := bigits b) in *.
  destruct (square_loop_spec n (2 * length n) 0 0 Hl Hlen ltac:(lia) ltac:(lia)) as (carry & Hc & Hi & Hsz & E).
  rewrite (series_ext _ (coefficient n n)) in E by done. rewrite series_coefficient in E by lia.
  pose proof (bigits_value_range n Hl) as Hv. pose proof (bigits_value_range _ Hi) as Hq. rewrite Hsz in Hq.
  assert (Hp : base ^ Z.of_nat (2 * length n) = base ^ Z.of_nat (length n) * base ^ Z.of_nat (length n))
    by (rewrite <- Z.pow_add_r by lia; f_equal; lia).
  assert (carry = 0) as -> by nia. destruct (remove_leading_zeros_spec (square_loop n (2 * length n) 0 0) Hi) as [Hn Ev].
  { intros E0. rewrite E0 in Hsz. destruct n; [done|cbn in Hsz; lia]. }
  split; [split; [done|cbn [exp_]; lia]|]. split; [|done]. unfold big_value. cbn [bigits exp_]. fold n. rewrite Ev.
  replace (exp_ b * 2) with (exp_ b + exp_ b) by lia. rewrite Z.pow_add_r by lia. nia.
Qed.

(** A power of five has no more bigits than its exponent. *)
Lemma pow5_length b e : big_ok b → exp_ b = 0 → 0 ≤ e → big_value b = 5 ^ e → Z.of_nat (length (bigits b)) ≤ e + 1.
Proof.
  intros Hb He0 He Hv. assert (Hp : 0 < 5 ^ e) by lia. destruct (big_value_above b Hb ltac:(lia)) as [Ht _].
  unfold num_bigits in Ht. rewrite He0, Hv in Ht. destruct (Z.le_gt_cases (Z.of_nat (length (bigits b))) (e + 1)) as [?|Hgt]; [done|].
  pose proof (base_pow_mono (e + 1) (Z.of_nat (length (bigits b)) + 0 - 1) ltac:(lia)) as Hm.
  assert (5 ^ e ≤ base ^ e) by (apply Z.pow_le_mono_l; unfold base; lia). rewrite Z.pow_add_r, Z.pow_1_r in Hm by lia.
  pose proof (base_pow_pos e He). unfold base in Hm at 2. lia.
Qed.

Lemma pow5_loop_spec k exp b :
  big_ok b → exp_ b = 0 → 0 ≤ exp < 2 ^ 31 → big_value b = 5 ^ (exp / 2 ^ Z.of_nat k) →
  big_ok (pow5_loop k exp b) ∧ exp_ (pow5_loop k exp b) = 0 ∧ big_value (pow5_loop k exp b) = 5 ^ exp.
Proof.
  intros Hb He Hx. revert b Hb He. induction k as [|k IH]; intros b Hb He Hv; cbn [pow5_loop].
  { rewrite Z.div_1_r in Hv. done. }
  set (q := exp / 2 ^ Z.of_nat (S k)) in *. assert (Hp : 0 < 2 ^ Z.of_nat (S k)) by lia.
  assert (Hq : 0 ≤ q ≤ exp) by (subst q; split; [apply Z.div_pos; lia|apply Z.div_le_upper_bound; nia]).
  pose proof (pow5_length b q Hb He ltac:(lia) Hv) as Hl.
  destruct (square_spec b Hb) as (Hs & Ev & Ee); [unfold base; lia|]. rewrite He, Z.mul_0_l in Ee.
  assert (Hbit : exp / 2 ^ Z.of_nat k = 2 * q + Z.b2z (Z.testbit exp (Z.of_nat k))).
  { rewrite Z.testbit_spec' by lia. subst q. replace (2 ^ Z.of_nat (S k)) with (2 ^ Z.of_nat k * 2)
      by (rewrite Nat2Z.inj_succ, Z.pow_succ_r by lia; ring). rewrite <- Z.div_div by lia. by apply Z.div_mod. }
  assert (Esq : big_value (square b) = 5 ^ (2 * q)) by (rewrite Ev, Hv, <- Z.pow_add_r by lia; f_equal; lia).
  destruct (Z.testbit exp (Z.of_nat k)); cbn [Z.b2z] in Hbit.
  - destruct (multiply32_spec (square b) 5 Hs ltac:(done)) as (Hm & Em & Eem). apply IH; [done|lia|].
    rewrite Em, Esq, Hbit, Z.pow_add_r by lia. done.
  - apply IH; [done|done|]. rewrite Esq, Hbit. f_equal. lia.
Qed.

Lemma assign_pow10_spec exp : 0 ≤ exp < 2 ^ 31 →
  ∃ b, assign_pow10 exp = Ret b ∧ big_ok b ∧ big_value b = 10 ^ exp ∧ exp_ b = exp / 32.
Proof.
  intros Hx. unfold assign_pow10, check. destruct (Z.leb_spec 0 exp); [|lia]. cbn [mbind outcome_bind].
  destruct (Z.eqb_spec exp 0) as [->|H0]; [by apply (assign_spec 1)|].
  destruct (assign_spec 5 ltac:(done)) as (b & -> & Hb & Ev & Ee). cbn [mbind outcome_bind].
  pose proof (Z.log2_nonneg exp). pose proof (Z.log2_spec exp ltac:(lia)) as Hlog.
  destruct (pow5_loop_spec (Z.to_nat (Z.log2 exp)) exp b Hb Ee Hx) as (Hp & Ep & Evp).
  { rewrite Ev, Z2Nat.id by done. replace (exp / 2 ^ Z.log2 exp) with 1; [done|].
    rewrite Z.pow_succ_r in Hlog by done. apply Z.div_unique with (exp - 2 ^ Z.log2 exp); lia. }
  destruct (shift_left_spec _ exp Hp ltac:(lia)) as (b' & -> & Hb' & Ev' & Ee'). exists b'. split_and!; [done|done| |lia].
  rewrite Ev', Evp, <- Z.pow_mul_l. done.
Qed.

(** ** The digits of [format_dragon] *)

(** Digits as a number: the first one first, and the last one first. *)
Definition decimal_value (ds : list Z) : Z := fold_left (λ v d, 10 * v + d) ds 0.
Fixpoint rev_decimal (data : list Z) : Z :=
  match data with
  | [] => 0
  | d :: data => d + 10 * rev_decimal data
  end.
Definition are_digits (ds : list Z) : Prop := Forall (λ d, 0 ≤ d < 10) ds.

Lemma decimal_value_rev data : decimal_value (rev data) = rev_decimal data.
Proof.
  induction data as [|d data IH]; [done|]. unfold decimal_value in *. cbn [rev rev_decimal]. rewrite fold_left_app, IH. cbn. lia.
Qed.

(** The nearest integer to a fraction, the even one of two. *)
Definition round_half_even (a b : Z) : Z :=
  let q := a / b in
  let r := a mod b in
  if 2 * r <? b then q else if b <? 2 * r then q + 1 else if Z.even q then q else q + 1.

Lemma round_half_even_scaled c a b : 0 < c → 0 < b → round_half_even (c * a) (c * b) = round_half_even a b.
Proof.
  intros Hc Hb. unfold round_half_even. rewrite Z.div_mul_cancel_l, Z.mul_mod_distr_l by lia. set (r := a mod b).
  replace (2 * (c * r) <? c * b) with (2 * r <? b)
    by (destruct (Z.ltb_spec (2 * (c * r)) (c * b)), (Z.ltb_spec (2 * r) b); [done|nia|nia|done]).
  replace (c * b <? 2 * (c * r)) with (b <? 2 * r)
    by (destruct (Z.ltb_spec (c * b) (2 * (c * r))), (Z.ltb_spec b (2 * r)); [done|nia|nia|done]).
  done.
Qed.

(** *** Rounding up *)

Lemma propagate_spec data carry :
  are_digits data → data ≠ [] → 0 ≤ carry ≤ 1 →
  length (propagate data carry) = length data ∧ rev_decimal (propagate data carry) = rev_decimal data + carry ∧
  ((are_digits (propagate data carry)) ∨
   (∃ n, propagate data carry = replicate n 0 ++ [10] ∧ length data = S n)).
Proof.
  intros Hd. revert carry. induction Hd as [|x data Hx Hd IH]; intros carry Hne Hc; [done|]. cbn [propagate].
  destruct (Z.eqb_spec (x + carry) 10) as [E|E]; cbn [andb].
  - destruct (decide (data = [])) as [->|Hdne].
    + rewrite bool_decide_eq_true_2 by done. cbn [negb length rev_decimal]. split_and!; [done|lia|]. right. exists 0%nat. by rewrite E.
    + rewrite bool_decide_eq_false_2 by done. cbn [negb length rev_decimal]. destruct (IH 1 Hdne ltac:(lia)) as (Hl & Ev & Hor).
      rewrite Hl, Ev. split_and!; [done|lia|]. destruct Hor as [Hok|(n & En & Hn)].
      * left. by constructor.
      * right. exists (S n). by rewrite En, Hn.
  - cbn [length rev_decimal]. split_and!; [done|lia|]. left. constructor; [lia|done].
Qed.

Lemma fold_decimal l v w : fold_left (λ v d, 10 * v + d) l (v + w) = v * 10 ^ Z.of_nat (length l) + fold_left (λ v d, 10 * v + d) l w.
Proof.
  revert v w. induction l as [|x l IH]; intros v w; [cbn; lia|]. cbn [fold_left length]. rewrite Nat2Z.inj_succ, Z.pow_succ_r by lia.
  replace (10 * (v + w) + x) with (10 * v + (10 * w + x)) by lia. rewrite IH. ring.
Qed.

Lemma decimal_value_cons d ds : decimal_value (d :: ds) = d * 10 ^ Z.of_nat (length ds) + decimal_value ds.
Proof. unfold decimal_value. cbn [fold_left]. replace (10 * 0 + d) with (d + 0) by lia. apply fold_decimal. Qed.

Lemma decimal_value_zeros n : decimal_value (replicate n 0) = 0.
Proof. induction n as [|n IH]; [done|]. cbn [replicate]. rewrite decimal_value_cons, IH. lia. Qed.

Lemma rev_replicate (n : nat) (x : Z) : rev (replicate n x) = replicate n x.
Proof. induction n as [|n IH]; [done|]. cbn [replicate rev]. by rewrite IH, <- replicate_cons_app. Qed.

(** One more than the digits were; a digit more, or an exponent, if they were all nines. *)
Lemma round_up_spec data fixed exp10 :
  are_digits data → data ≠ [] →
  let '(ds, x) := round_up data fixed exp10 in
  are_digits ds ∧ exp10 ≤ x ≤ exp10 + 1 ∧
  decimal_value ds * 10 ^ (x - exp10) = rev_decimal data + 1 ∧
  Z.of_nat (length ds) + (x - exp10) ≤ Z.of_nat (length data) + 1 ∧ (length data ≤ length ds)%nat.
Proof.
  intros Hd Hne. unfold round_up. destruct (propagate_spec data 1 Hd Hne ltac:(lia)) as (Hl & Ev & Hor).
  assert (Hrev : decimal_value (rev (propagate data 1)) = rev_decimal data + 1) by by rewrite decimal_value_rev.
  destruct Hor as [Hok|(n & En & Hn)].
  - assert (Hok' : are_digits (rev (propagate data 1))) by by apply Forall_rev. pose proof (length_rev (propagate data 1)) as Hlen.
    destruct (rev (propagate data 1)) as [|y r]; [destruct data; [done|cbn in Hl, Hlen; lia]|].
    pose proof (Forall_inv Hok') as Hy. cbv beta in Hy. destruct (Z.eqb_spec y 10); [lia|]. rewrite Z.sub_diag, Z.pow_0_r, Z.mul_1_r.
    split_and!; [done|lia|lia|done|lia|lia].
  - rewrite En, rev_app_distr, rev_replicate in *. cbn [rev app] in *. change (10 =? 10) with true. cbv iota.
    assert (Hz : are_digits (1 :: replicate n 0)) by (constructor; [lia|apply Forall_replicate; lia]).
    rewrite decimal_value_cons, decimal_value_zeros, length_replicate in Hrev.
    destruct fixed.
    + split_and!; [apply (Forall_app_2 _ (1 :: replicate n 0) [0]); [done|by constructor]|lia|lia| |cbn [length]; rewrite length_app, length_replicate; cbn; lia..].
      rewrite Z.sub_diag, Z.pow_0_r, Z.mul_1_r. rewrite decimal_value_cons, length_app, length_replicate. cbn [length].
      rewrite <- replicate_cons_app. change (0 :: replicate n 0) with (replicate (S n) 0). rewrite decimal_value_zeros.
      rewrite Nat.add_1_r, Nat2Z.inj_succ, Z.pow_succ_r by lia. lia.
    + split_and!; [done|lia|lia| |cbn [length]; rewrite length_replicate; lia..].
      rewrite decimal_value_cons, decimal_value_zeros, length_replicate. replace (exp10 + 1 - exp10) with 1 by lia. lia.
Qed.

(** *** Generating digits *)

(** The numerator is less than ten denominators; one shift aligned them. *)
Definition dragon_ok (st : dragon_state) : Prop :=
  let n := big_value st.(numerator) in
  let d := big_value st.(denominator) in
  big_ok st.(numerator) ∧ big_ok st.(denominator) ∧ comparable st.(numerator) st.(denominator) ∧
  (d ≤ n ∨ exp_ st.(numerator) ≤ exp_ st.(denominator)) ∧ 0 < d ∧ n < 10 * d.

Lemma next_digit_spec st : dragon_ok st →
  let d := big_value st.(numerator) / big_value st.(denominator) in
  ∃ st', next_digit st = Ret (d, st') ∧ 0 ≤ d < 10 ∧ st'.(denominator) = st.(denominator) ∧ big_ok st'.(numerator) ∧
    big_value st'.(numerator) = big_value st.(numerator) mod big_value st.(denominator) ∧
    exp_ st'.(numerator) ≤ exp_ st.(denominator).
Proof.
  intros (Hn & Hd & Hc & Hor & Hpos & Hlt) d. unfold next_digit.
  destruct (divmod_assign_spec _ _ Hn Hd Hc Hpos Hlt) as (b & -> & Hb & Ev & Ee). cbn [mbind outcome_bind].
  eexists. split; [done|]. split; [|split_and!; [done|done|done|by apply Ee]].
  subst d. pose proof (big_value_nonneg _ Hn). split; [apply Z.div_pos; lia|apply Z.div_lt_upper_bound; lia].
Qed.

Lemma times10_spec st : big_ok st.(numerator) → big_value st.(numerator) < big_value st.(denominator) →
  big_ok st.(denominator) → exp_ st.(numerator) ≤ exp_ st.(denominator) →
  dragon_ok (times10 st false) ∧ big_value (times10 st false).(numerator) = 10 * big_value st.(numerator).
Proof.
  intros Hn Hlt Hd He. destruct (multiply32_spec _ 10 Hn ltac:(done)) as (Hm & Ev & Ee). pose proof (big_value_nonneg _ Hn).
  unfold dragon_ok, comparable. cbn [times10 numerator denominator]. rewrite Ev, Ee. split_and!; try done; lia.
Qed.

Lemma some_digits_spec n st data :
  dragon_ok st → are_digits data → let D := big_value st.(denominator) in
  ∃ data' st', some_digits n st data = Ret (data', st') ∧ dragon_ok st' ∧ st'.(denominator) = st.(denominator) ∧
    are_digits data' ∧ length data' = (n + length data)%nat ∧
    rev_decimal data' * 10 * D + big_value st'.(numerator) = 10 ^ Z.of_nat n * (rev_decimal data * 10 * D + big_value st.(numerator)).
Proof.
  intros Hok Hdata D. revert st data Hok Hdata D. induction n as [|n IH]; intros st data Hok Hdata D; cbn [some_digits].
  { exists data, st. split_and!; try done. cbn [Z.of_nat]. rewrite Z.pow_0_r. lia. }
  pose proof Hok as (Hn & Hd & _ & _ & Hpos & Hlt).
  destruct (next_digit_spec st Hok) as (st1 & -> & Hdig & Ed & Hn1 & Ev & Ee).
  set (d := big_value (numerator st) / big_value (denominator st)) in *. cbn [mbind outcome_bind].
  pose proof (Z.mod_pos_bound (big_value (numerator st)) _ Hpos) as Hm. pose proof (Z.div_mod (big_value (numerator st)) (big_value (denominator st)) ltac:(lia)) as Hdm.
  fold d in Hdm. destruct (times10_spec st1 Hn1) as [Hok1 Ev1]; [rewrite Ed; lia|by rewrite Ed|by rewrite Ed|].
  destruct (IH (times10 st1 false) (d :: data) Hok1 ltac:(by constructor)) as (data' & st' & E & Hok' & Ed' & Hdata' & Hlen & Eq).
  change (denominator (times10 st1 false)) with (denominator st1) in Ed', Eq. rewrite Ed in Ed', Eq. fold D in Eq, Hdm. exists data', st'.
  split_and!; [exact E|done|done|done|rewrite Hlen; cbn [length]; lia|].
  rewrite Eq, Ev1, Ev, Nat2Z.inj_succ, Z.pow_succ_r by lia. cbn [rev_decimal]. fold D.
  rewrite (Z.mul_comm 10 (10 ^ _)), <- (Z.mul_assoc (10 ^ _)). f_equal. lia.
Qed.

(** The last digit: what is left decides the rounding. *)
Lemma last_digit_rounding st d :
  let num := st.(numerator) in
  let D := big_value st.(denominator) in
  big_ok num → big_ok st.(denominator) → exp_ num ≤ exp_ st.(denominator) → big_value num < D → 0 ≤ d →
  let result := add_compare num num st.(denominator) in
  (0 <? result) || ((result =? 0) && negb (Z.rem d 2 =? 0)) = (D <? 2 * big_value num) || ((D =? 2 * big_value num) && Z.odd d).
Proof.
  intros num D Hn Hd He Hlt Hd0 result. pose proof (big_value_nonneg _ Hn).
  assert (Ht : below_top num st.(denominator)).
  { destruct (decide (big_value num = 0)) as [E|]; [right|by left]. rewrite (num_bigits_zero _ Hn E).
    destruct Hd as [(_ & Hne & _) _]. unfold num_bigits. destruct (bigits st.(denominator)); [done|cbn [length]; lia]. }
  destruct (add_compare_spec _ _ _ Hn Hn Hd ltac:(fold D; lia) Ht Ht) as (H1 & H0 & Hr). fold result in H1, H0, Hr. fold D in H1, H0.
  replace (negb (Z.rem d 2 =? 0)) with (Z.odd d) by (rewrite Z.rem_mod_nonneg, Zmod_odd by lia; by destruct (Z.odd d)).
  f_equal; [|f_equal].
  - destruct (Z.ltb_spec 0 result), (Z.ltb_spec D (2 * big_value num)); lia.
  - destruct (Z.eqb_spec result 0), (Z.eqb_spec D (2 * big_value num)); lia.
Qed.

(** *** The first state *)

(** The value is [dragon_num / dragon_den] times [10 ^ exp10]. *)
Definition dragon_num (value : basic_fp) (exp10 : Z) : Z := value.(f_) * 2 ^ Z.max value.(e_) 0 * 10 ^ Z.max (- exp10) 0.
Definition dragon_den (value : basic_fp) (exp10 : Z) : Z := 2 ^ Z.max (- value.(e_)) 0 * 10 ^ Z.max exp10 0.

Lemma hd_bigits b : big_ok b → exp_ b = 0 → hd 0 (bigits b) = big_value b mod 2 ^ 32.
Proof.
  intros [(Hi & Hne & _) _] He. unfold big_value. rewrite He, Z.pow_0_r, Z.mul_1_r. destruct (bigits b) as [|x l]; [done|].
  pose proof (Forall_inv Hi) as Hx. cbv beta in Hx. cbn [hd bigits_value]. change (2 ^ 32) with base.
  rewrite (Z.mul_comm base), Z.mod_add by done. symmetry. by apply Z.mod_small.
Qed.

Lemma hd_one_shifted n b b' : 0 ≤ n → assign 1 = Ret b → shift_left b n = Ret b' → hd 0 (bigits b') ≠ 0.
Proof.
  intros Hn [= <-]. unfold shift_left, check. destruct (Z.leb_spec 0 n); [|lia]. cbn [mbind outcome_bind bigits]. intros [= <-]. cbn [bigits].
  pose proof (Z.mod_pos_bound n 32 ltac:(done)). destruct (Z.eqb_spec (n mod 32) 0); [done|]. cbn [shift_loop hd].
  change (w32 1) with 1. rewrite Z.shiftl_mul_pow2, Z.mul_1_l, Z.add_0_r by lia.
  assert (0 < 2 ^ (n mod 32) < 2 ^ 32) by (split; [lia|apply Z.pow_lt_mono_r; lia]). unfold w32.
  rewrite (Z.mod_small (2 ^ _)), Z.mod_small by lia. lia.
Qed.

(** A power of ten that is [f * 2 ^ e] is below [10 ^ 23]. *)
Lemma power_of_ten_small f e x : 0 < f < 2 ^ 53 → 0 ≤ e → 0 ≤ x → f * 2 ^ e = 10 ^ x → x ≤ 22.
Proof.
  intros Hf He Hx E. assert (Hdiv : (5 ^ x | f)).
  { apply Z.gauss with (2 ^ e).
    - exists (2 ^ x). rewrite (Z.mul_comm (2 ^ e)), E, <- Z.pow_mul_l. done.
    - apply Z.coprime_pow_l, Z.coprime_pow_r; done. }
  apply Z.divide_pos_le in Hdiv; [|lia]. destruct (Z.le_gt_cases x 22); [done|]. pose proof (Z.pow_le_mono_r 5 23 x ltac:(done) ltac:(lia)). lia.
Qed.

Lemma pow10_shifted_low x s : 0 ≤ x ≤ 22 → 1 ≤ s ≤ 2 → (10 ^ x * 2 ^ s) mod 2 ^ 32 ≠ 0.
Proof.
  intros Hx Hs. assert (H : ∀ n, (n < 23)%nat → (10 ^ Z.of_nat n * 2 ^ s) mod 2 ^ 32 ≠ 0).
  { assert (Ht : ∀ s, s = 1 ∨ s = 2 → forallb (λ n, negb ((10 ^ Z.of_nat n * 2 ^ s) mod 2 ^ 32 =? 0)) (seq 0 23) = true) by by intros ? [-> | ->].
    intros n Hn. specialize (Ht s ltac:(lia)). rewrite forallb_forall in Ht. specialize (Ht n ltac:(apply in_seq; lia)). lia. }
  specialize (H (Z.to_nat x) ltac:(lia)). by rewrite Z2Nat.id in H by lia.
Qed.

(** What the three cases share: [n] and [d] are the fraction times [2 ^ shift]. *)
Definition dragon_started (st : dragon_state) (n d : Z) : Prop :=
  dragon_ok st ∧ ∃ c, 0 < c ∧ big_value st.(numerator) = c * n ∧ big_value st.(denominator) = c * d.

Lemma started_intro st n d c :
  big_ok st.(numerator) → big_ok st.(denominator) → comparable st.(numerator) st.(denominator) → 0 < c →
  big_value st.(numerator) = c * n → big_value st.(denominator) = c * d → 0 < d → d ≤ n < 10 * d → dragon_started st n d.
Proof. intros Hn Hd Hc Hc0 En Ed Hd0 Hnd. split; [|by exists c]. unfold dragon_ok. rewrite En, Ed. split_and!; try done; nia. Qed.

(** [lower] and [upper_store] are always made. *)
Lemma if_closer_total (pc : bool) (m : outcome bigint) :
  (∃ b, m = Ret b) → ∃ u, (if pc then b ← m; Ret (Some b) else Ret None) = Ret u.
Proof. intros [b ->]. destruct pc; by eexists. Qed.

Lemma pow10_max_pos x : 0 < 10 ^ Z.max x 0.
Proof. apply Z.pow_pos_nonneg; lia. Qed.

Definition closer_shift (pc : bool) : Z := if pc then 2 else 1.
Lemma closer_shift_range pc : 1 ≤ closer_shift pc ≤ 2.
Proof. by destruct pc. Qed.

Section init.
Context (value : basic_fp) (pc : bool) (exp10 : Z).
Hypothesis Hf : 0 < value.(f_) < 2 ^ 53.
Hypothesis He : - 2 ^ 31 < exp10 < 2 ^ 31.
Hypothesis Hr : dragon_den value exp10 ≤ dragon_num value exp10 < 10 * dragon_den value exp10.

Lemma dragon_den_pos : 0 < dragon_den value exp10.
Proof. unfold dragon_den. apply Z.mul_pos_pos; [apply Z.pow_pos_nonneg; lia|apply pow10_max_pos]. Qed.

Lemma init_integer : 0 ≤ value.(e_) →
  ∃ st, dragon_init value pc exp10 = Ret st ∧ dragon_started st (dragon_num value exp10) (dragon_den value exp10).
Proof.
  intros H0. pose proof (closer_shift_range pc) as Hs. pose proof Hr as Hr'. unfold dragon_num, dragon_den in Hr'.
  rewrite (Z.max_l value.(e_) 0), (Z.max_r (- value.(e_)) 0) in Hr' by lia.
  assert (Hx : 0 ≤ exp10).
  { destruct (Z.le_gt_cases 0 exp10) as [|Hneg]; [done|]. rewrite (Z.max_r exp10 0), (Z.max_l (- exp10)) in Hr' by lia.
    replace (- exp10) with (Z.succ (- exp10 - 1)) in Hr' by lia. rewrite Z.pow_succ_r in Hr' by lia.
    assert (0 < 2 ^ value.(e_) ∧ 0 < 10 ^ (- exp10 - 1)) by (split; apply Z.pow_pos_nonneg; lia). change (2 ^ 0 * 10 ^ 0) with 1 in Hr'. nia. }
  rewrite (Z.max_r (- exp10)), (Z.max_l exp10) in Hr' by lia. change (10 ^ 0) with 1 in Hr'. change (2 ^ 0) with 1 in Hr'.
  unfold dragon_init. fold (closer_shift pc). destruct (Z.leb_spec 0 value.(e_)); [|lia].
  destruct (assign_spec value.(f_) ltac:(lia)) as (n0 & -> & Hn0 & En0 & Xn0). cbn [mbind outcome_bind].
  destruct (shift_left_spec n0 (value.(e_) + closer_shift pc) Hn0 ltac:(lia)) as (n & -> & Hn & En & Xn). cbn [mbind outcome_bind].
  destruct (assign_spec 1 ltac:(lia)) as (l0 & Hl0 & Hl0' & _). rewrite Hl0. cbn [mbind outcome_bind].
  destruct (shift_left_spec l0 value.(e_) Hl0' H0) as (l & -> & _). cbn [mbind outcome_bind].
  destruct (if_closer_total pc (shift_left l0 (value.(e_) + 1))) as [u ->];
    [destruct (shift_left_spec l0 (value.(e_) + 1) Hl0' ltac:(lia)) as (u & ? & _); by exists u|]. cbn [mbind outcome_bind].
  destruct (assign_pow10_spec exp10 ltac:(lia)) as (d0 & -> & Hd0 & Ed0 & Xd0). cbn [mbind outcome_bind].
  destruct (shift_left_spec d0 (closer_shift pc) Hd0 ltac:(lia)) as (d & -> & Hd & Ed & Xd). cbn [mbind outcome_bind].
  eexists. split; [done|]. rewrite (Z.div_small (closer_shift pc)), Z.add_0_r in Xd by lia.
  assert (Hc : comparable n d).
  { right. rewrite En, En0, Z.pow_add_r by lia. assert (0 < 2 ^ value.(e_)) by (apply Z.pow_pos_nonneg; lia).
    assert (0 < 2 ^ closer_shift pc) by (apply Z.pow_pos_nonneg; lia). split; [nia|].
    destruct (decide (value.(f_) * 2 ^ value.(e_) = 10 ^ exp10)) as [E|E]; [left|right; rewrite Ed, Ed0; nia].
    pose proof (power_of_ten_small _ _ _ Hf H0 Hx E). rewrite Z.div_small in Xd0 by lia.
    rewrite hd_bigits by (done || lia). rewrite Ed, Ed0. apply pow10_shifted_low; lia. }
  apply started_intro with (c := 2 ^ closer_shift pc); cbn [numerator denominator]; [done..|apply Z.pow_pos_nonneg; lia| | |apply dragon_den_pos|done].
  - rewrite En, En0. unfold dragon_num. rewrite (Z.max_l value.(e_)), (Z.max_r (- exp10)), Z.pow_add_r by lia. lia.
  - rewrite Ed, Ed0. unfold dragon_den. rewrite (Z.max_r (- value.(e_))), (Z.max_l exp10) by lia. lia.
Qed.

Lemma init_small : value.(e_) < 0 → exp10 < 0 →
  ∃ st, dragon_init value pc exp10 = Ret st ∧ dragon_started st (dragon_num value exp10) (dragon_den value exp10).
Proof.
  intros H0 Hx. pose proof (closer_shift_range pc) as Hs. unfold dragon_init. fold (closer_shift pc).
  destruct (Z.leb_spec 0 value.(e_)); [lia|]. destruct (Z.ltb_spec exp10 0); [|lia].
  destruct (assign_pow10_spec (- exp10) ltac:(lia)) as (n0 & -> & Hn0 & En0 & _). cbn [mbind outcome_bind].
  destruct (if_closer_total pc (shift_left n0 1)) as [u ->]; [destruct (shift_left_spec n0 1 Hn0 ltac:(lia)) as (u & ? & _); by exists u|].
  cbn [mbind outcome_bind]. unfold check at 1. destruct (Z.ltb_spec 0 value.(f_)); [|lia]. cbn [mbind outcome_bind].
  assert (Hp : 0 < 10 ^ (- exp10)) by (apply Z.pow_pos_nonneg; lia).
  destruct (multiply128_spec n0 value.(f_) Hn0 ltac:(lia) ltac:(lia)) as (Hn1 & En1 & _).
  destruct (shift_left_spec _ (closer_shift pc) Hn1 ltac:(lia)) as (n & -> & Hn & En & _). cbn [mbind outcome_bind].
  destruct (assign_spec 1 ltac:(lia)) as (d0 & Hd0 & Hd0' & Ed0 & _). rewrite Hd0. cbn [mbind outcome_bind].
  destruct (shift_left_spec d0 (closer_shift pc - value.(e_)) Hd0' ltac:(lia)) as (d & Hd & Hd' & Ed & _).
  rewrite Hd. cbn [mbind outcome_bind]. eexists. split; [done|].
  assert (Hpos : 0 < 2 ^ closer_shift pc) by (apply Z.pow_pos_nonneg; lia).
  apply started_intro with (c := 2 ^ closer_shift pc); cbn [numerator denominator];
    [done|done| |done| | |apply dragon_den_pos|done].
  - right. rewrite En, En1, En0. split; [nia|]. left. by apply (hd_one_shifted (closer_shift pc - value.(e_)) d0); [lia|..].
  - rewrite En, En1, En0. unfold dragon_num. rewrite (Z.max_r value.(e_)), (Z.max_l (- exp10)) by lia. lia.
  - rewrite Ed, Ed0. unfold dragon_den. rewrite (Z.max_l (- value.(e_))), (Z.max_r exp10) by lia.
    unfold Z.sub. rewrite Z.pow_add_r by lia. lia.
Qed.

Lemma init_fraction : value.(e_) < 0 → 0 ≤ exp10 →
  ∃ st, dragon_init value pc exp10 = Ret st ∧ dragon_started st (dragon_num value exp10) (dragon_den value exp10).
Proof.
  intros H0 Hx. pose proof (closer_shift_range pc) as Hs. unfold dragon_init. fold (closer_shift pc).
  destruct (Z.leb_spec 0 value.(e_)); [lia|]. destruct (Z.ltb_spec exp10 0); [lia|].
  destruct (assign_spec value.(f_) ltac:(lia)) as (n0 & -> & Hn0 & En0 & Xn0). cbn [mbind outcome_bind].
  destruct (shift_left_spec n0 (closer_shift pc) Hn0 ltac:(lia)) as (n & -> & Hn & En & Xn). cbn [mbind outcome_bind].
  destruct (assign_pow10_spec exp10 ltac:(lia)) as (d0 & -> & Hd0 & Ed0 & Xd0). cbn [mbind outcome_bind].
  destruct (shift_left_spec d0 (closer_shift pc - value.(e_)) Hd0 ltac:(lia)) as (d & -> & Hd & Ed & Xd). cbn [mbind outcome_bind].
  destruct (assign_spec 1 ltac:(lia)) as (l & -> & _). cbn [mbind outcome_bind].
  destruct (if_closer_total pc (assign 2)) as [u ->]; [destruct (assign_spec 2 ltac:(lia)) as (u & ? & _); by exists u|].
  cbn [mbind outcome_bind]. eexists. split; [done|].
  apply started_intro with (c := 2 ^ closer_shift pc); cbn [numerator denominator];
    [done|done| |apply Z.pow_pos_nonneg; lia| | |apply dragon_den_pos|done].
  - left. rewrite Xn, Xn0, Z.div_small by lia. destruct Hd as [_ Hd]. lia.
  - rewrite En, En0. unfold dragon_num. rewrite (Z.max_r value.(e_)), (Z.max_r (- exp10)) by lia. lia.
  - rewrite Ed, Ed0. unfold dragon_den. rewrite (Z.max_l (- value.(e_))), (Z.max_l exp10) by lia.
    unfold Z.sub. rewrite Z.pow_add_r by lia. lia.
Qed.

Lemma dragon_init_spec :
  ∃ st, dragon_init value pc exp10 = Ret st ∧ dragon_started st (dragon_num value exp10) (dragon_den value exp10).
Proof.
  destruct (Z.le_gt_cases 0 value.(e_)); [by apply init_integer|].
  destruct (Z.le_gt_cases 0 exp10); [by apply init_fraction|by apply init_small; lia].
Qed.
End init.

(** *** All of it *)

Lemma round_half_even_spec q r b : 0 < b → 0 ≤ r < b →
  round_half_even (q * b + r) b = if (b <? 2 * r) || ((b =? 2 * r) && Z.odd q) then q + 1 else q.
Proof.
  intros Hb Hr. unfold round_half_even. rewrite Z.add_comm, Z.div_add, Z.mod_add, Z.div_small, Z.mod_small, Z.add_0_l by lia.
  rewrite <- Z.negb_even. destruct (Z.ltb_spec (2 * r) b), (Z.ltb_spec b (2 * r)), (Z.eqb_spec b (2 * r)), (Z.even q); cbn [orb andb negb]; done || lia.
Qed.

(** C39. The exact digits of a number, with its first digit known to be the one of
    [10 ^ exp10]: [n] of them, correctly rounded, ties to even. *)
Theorem format_dragon_correct value pc fixed n exp10 :
  0 < value.(f_) < 2 ^ 53 → - 2 ^ 31 < exp10 < 2 ^ 31 → 1 ≤ n →
  dragon_den value exp10 ≤ dragon_num value exp10 < 10 * dragon_den value exp10 →
  ∃ ds x, format_dragon value {| predecessor_closer := pc; fixup := false; fixed_ := fixed |} n exp10 = Ret (ds, x) ∧
    are_digits ds ∧ n ≤ Z.of_nat (length ds) ∧ Z.of_nat (length ds) + x ≤ exp10 + 2 ∧ exp10 - (n - 1) ≤ x ∧
    decimal_value ds * 10 ^ (x - (exp10 - (n - 1))) =
      round_half_even (dragon_num value exp10 * 10 ^ (n - 1)) (dragon_den value exp10).
Proof.
  intros Hf He Hn Hr. destruct (dragon_init_spec value pc exp10 Hf He Hr) as (st & Est & Hok & c & Hc & En & Ed).
  unfold format_dragon. cbn [predecessor_closer fixup fixed_]. rewrite Est. cbn [mbind outcome_bind].
  destruct (Z.ltb_spec n 0); [lia|]. destruct (Z.leb_spec n 0); [lia|].
  destruct (some_digits_spec (Z.to_nat (n - 1)) st [] Hok ltac:(by constructor)) as (data & st1 & -> & Hok1 & Ed1 & Hdata & Hlen & Eq).
  cbn [mbind outcome_bind rev_decimal] in Eq |- *. rewrite Z2Nat.id in Eq by lia.
  destruct (next_digit_spec st1 Hok1) as (st2 & -> & Hd & Ed2 & Hn2 & Ev2 & Xn2). cbn [mbind outcome_bind].
  pose proof Hok1 as (_ & Hden & _ & _ & Hpos & _). set (d := big_value (numerator st1) / big_value (denominator st1)) in *.
  pose proof (Z.mod_pos_bound (big_value (numerator st1)) _ Hpos) as Hm.
  pose proof (Z.div_mod (big_value (numerator st1)) (big_value (denominator st1)) ltac:(lia)) as Hdm. fold d in Hdm.
  rewrite last_digit_rounding by (rewrite ?Ed2; first [done|lia]). rewrite Ed2, Ev2. rewrite Ed1 in *.
  set (D := big_value (denominator st)) in *. set (r := big_value (numerator st1) mod D) in *.
  rewrite <- (round_half_even_scaled c) by (done || apply dragon_den_pos). rewrite <- Ed, Z.mul_assoc, <- En.
  replace (big_value (numerator st) * 10 ^ (n - 1)) with ((10 * rev_decimal data + d) * D + r) by lia.
  rewrite round_half_even_spec by lia.
  replace (Z.odd (10 * rev_decimal data + d)) with (Z.odd d) by (rewrite Z.odd_add, Z.odd_mul; by destruct (Z.odd d)).
  cbn [length] in Hlen. assert (Hall : are_digits (d :: data)) by by constructor.
  destruct ((D <? 2 * r) || ((D =? 2 * r) && Z.odd d)).
  - pose proof (round_up_spec (d :: data) fixed (exp10 - (n - 1)) Hall ltac:(done)) as Hup.
    destruct (round_up (d :: data) fixed (exp10 - (n - 1))) as [ds x]. destruct Hup as (Hds & Hx & Ev & Hl & Hl'). cbn [length rev_decimal] in Hl, Hl', Ev.
    exists ds, x. split_and!; [done|done|lia|lia|lia|]. rewrite Ev. lia.
  - exists (rev (d :: data)), (exp10 - (n - 1)). rewrite decimal_value_rev, Z.sub_diag, Z.pow_0_r, length_rev. cbn [length rev_decimal].
    split_and!; [done|by apply Forall_rev|lia|lia|lia|lia].
Qed.

(** 2 ^ -50 more than four, with 20 digits. *)
Lemma format_dragon_correct_witness :
  let value := {| f_ := 2 ^ 52 + 1; e_ := -50 |} in
  (1 ≤ 20 ∧ dragon_den value 0 ≤ dragon_num value 0 < 10 * dragon_den value 0) ∧
  ∃ ds x, format_dragon value {| predecessor_closer := false; fixup := false; fixed_ := false |} 20 0 = Ret (ds, x) ∧
    are_digits ds ∧ 20 ≤ Z.of_nat (length ds) ∧ Z.of_nat (length ds) + x ≤ 0 + 2 ∧ 0 - (20 - 1) ≤ x ∧
    decimal_value ds * 10 ^ (x - (0 - (20 - 1))) = round_half_even (dragon_num value 0 * 10 ^ (20 - 1)) (dragon_den value 0).
Proof.
  split; [split; [lia|split; [discriminate|reflexivity]]|].
  apply (format_dragon_correct {| f_ := 2 ^ 52 + 1; e_ := -50 |} false false 20 0); [split; reflexivity|split; reflexivity|lia|].
  split; [discriminate|reflexivity].
Defined.

(** Ties go to the even digit; nines carry over. *)
Example dragon_tie_down :
  format_dragon {| f_ := 5; e_ := -1 |} {| predecessor_closer := false; fixup := false; fixed_ := false |} 1 0 = Ret ([2], 0).
Proof. vm_compute. reflexivity. Qed.
Example dragon_nines :
  format_dragon {| f_ := 1999; e_ := -1 |} {| predecessor_closer := false; fixup := false; fixed_ := false |} 2 2 = Ret ([1; 0], 2).
Proof. vm_compute. reflexivity. Qed.
