(* ===== verification/FmtFloat.v ===== *)
(** * spdlog/fmt/bundled/format.h: writing a decimal and a double

    A decimal, from Dragonbox or as a text of digits, is written in fixed
    notation or with an exponent, with a sign, padding and grouped digits as the
    specifications say. A double without specifications is its shortest decimal,
    in fixed notation if the exponent is from -4 to 15: the text reads back, as
    a number, within half a unit in the last place of the double
    (FmtShortest.v has the precise bound). *)
From Stdlib Require Import Ascii.
From S2P Require Import Prelude Numerals FmtInt FmtSpecs FmtParse FmtUnicode FmtWrite FmtDragonbox FmtBigint.
Open Scope Z_scope.

(** ** Decimals *)

(** [decimal_fp] and [big_decimal_fp], whose size is that of its text. *)
Inductive decimal :=
  | short_decimal (f : decimal_fp)
  | big_decimal (significand : string) (exponent : Z).

Definition exponent_of (d : decimal) : Z :=
  match d with short_decimal f => f.(exponent) | big_decimal _ e => e end.
Definition get_significand_size (d : decimal) : Z :=
  match d with short_decimal f => count_digits_uint64 f.(significand) | big_decimal s _ => size s end.

(** [getsign(s)] *)
Definition getsign (s : sign) : ascii :=
  char_of (Z.shiftr (Z.lor (Z.lor (Z.shiftl 32 24) (Z.shiftl 43 16)) (Z.shiftl 45 8)) (sign_number s * 8)).
(** What is written for the sign. *)
Definition sign_chars (s : sign) : string := if bool_decide (s = sign_none) then EmptyString else one_char (getsign s).
Definition sign_size (s : sign) : Z := if bool_decide (s = sign_none) then 0 else 1.

(** ** Grouping: [fallback_digit_grouping] or [digit_grouping] *)

Inductive number_grouping := fallback_digit_grouping | with_digit_grouping (g : digit_grouping).

Definition has_separator (g : number_grouping) : bool :=
  match g with fallback_digit_grouping => false | with_digit_grouping g => negb (is_end g.(thousands_sep_)) end.
Definition separators_in (g : number_grouping) (num_digits : Z) : outcome Z :=
  match g with fallback_digit_grouping => Ret 0 | with_digit_grouping g => count_separators g num_digits end.
Definition apply_grouping (g : number_grouping) (digits : string) : writer :=
  match g with fallback_digit_grouping => Ret EmptyString | with_digit_grouping g => apply g digits end.

(** ** [write_significand] *)

Definition write_significand (d : decimal) (significand_size : Z) : writer :=
  match d with
  | short_decimal f => format_decimal f.(significand) significand_size
  | big_decimal s _ => Ret (prefix_of significand_size s)
  end.

(** With [exponent] zeros after it. *)
Definition write_significand_zeros (d : decimal) (significand_size exponent : Z) (g : number_grouping) : writer :=
  digits ← write_significand d significand_size;
  let text := digits +:+ repeat_text (Z.to_nat exponent) "0" in
  if negb (has_separator g) then Ret text else apply_grouping g text.

(** The loop over pairs of digits after the point, from the end; what is left of
    the significand and the text. *)
Fixpoint fraction_pairs (rounds : nat) (significand : Z) (text : string) : Z * string :=
  match rounds with
  | O => (significand, text)
  | S rounds => fraction_pairs rounds (significand / 100) (digits2 (significand mod 100) +:+ text)
  end.

(** An integer with a point, in a buffer of 21 characters, one more than an
    integer of 64 bits has digits. *)
Definition write_integer_point (significand significand_size integral_size : Z) (decimal_point : ascii) : writer :=
  let floating_size := significand_size - integral_size in
  let '(significand, text) := fraction_pairs (Z.to_nat (floating_size / 2)) significand EmptyString in
  let '(significand, text) :=
    if negb (Z.rem floating_size 2 =? 0) then (significand / 10, String (digit_char (significand mod 10)) text)
    else (significand, text) in
  '(_, text) ← do_format_decimal (digits_fuel significand) integral_size significand (String decimal_point text);
  Ret text.

(** [decimal_point]: none for the character zero. *)
Definition write_significand_point (d : decimal) (significand_size integral_size : Z) (decimal_point : option ascii)
    : writer :=
  match d, decimal_point with
  | short_decimal f, None => format_decimal f.(significand) significand_size
  | short_decimal f, Some c => write_integer_point f.(significand) significand_size integral_size c
  | big_decimal s _, None => Ret (prefix_of integral_size s)
  | big_decimal s _, Some c =>
      Ret (prefix_of integral_size s +:+ String c (prefix_of (significand_size - integral_size) (skip integral_size s)))
  end.

Definition write_significand_grouped (d : decimal) (significand_size integral_size : Z) (decimal_point : ascii)
    (g : number_grouping) : writer :=
  text ← write_significand_point d significand_size integral_size (Some decimal_point);
  if negb (has_separator g) then Ret text
  else
    integral ← apply_grouping g (prefix_of integral_size text);
    Ret (integral +:+ skip integral_size text).

(** ** Fixed notation *)

Definition exp_upper : Z := 16.
Definition use_fixed (exp exp_upper : Z) : bool := (-4 <=? exp) && (exp <? exp_upper).

(** [n] zeros, none if [n] is not positive. *)
Definition zeros_text (n : Z) : string := if 0 <? n then repeat_text (Z.to_nat n) "0" else EmptyString.

(** [write_fixed<Char, Grouping>]; [grouping]: the constructor of [Grouping]. *)
Definition write_fixed (grouping : bool → number_grouping) (d : decimal) (significand_size : Z) (decimal_point : ascii)
    (specs : format_specs) (s : sign) : writer :=
  let exp := exponent_of d + significand_size in
  let size := significand_size + sign_size s in
  let g := grouping (localized specs) in
  if 0 <=? exponent_of d then
    let size := size + exponent_of d in
    let num_zeros := specs.(precision) - exp in
    let num_zeros := if alt specs && ((num_zeros <=? 0) && negb (get_type specs =? pres_fixed)) then 0 else num_zeros in
    let size := if alt specs then size + 1 + (if 0 <? num_zeros then num_zeros else 0) else size in
    count ← separators_in g exp;
    text ← write_significand_zeros d significand_size (exponent_of d) g;
    write_padded align_right specs (w64 (size + count))
      (sign_chars s +:+ text +:+ (if alt specs then String decimal_point (zeros_text num_zeros) else EmptyString))
  else if 0 <? exp then
    let num_zeros := if alt specs then specs.(precision) - significand_size else 0 in
    count ← separators_in g exp;
    size ← to_unsigned (size + 1 + Z.max num_zeros 0 + count);
    text ← write_significand_grouped d significand_size exp decimal_point g;
    write_padded align_right specs size (sign_chars s +:+ text +:+ zeros_text num_zeros)
  else
    let num_zeros := - exp in
    let num_zeros :=
      if (significand_size =? 0) && ((0 <=? specs.(precision)) && (specs.(precision) <? num_zeros))
      then specs.(precision) else num_zeros in
    let pointy := negb (num_zeros =? 0) || (negb (significand_size =? 0) || alt specs) in
    size ← to_unsigned (size + 1 + (if pointy then 1 else 0) + num_zeros);
    text ← (if pointy then
              digits ← write_significand d significand_size;
              Ret (String decimal_point (repeat_text (Z.to_nat num_zeros) "0" +:+ digits))
            else Ret EmptyString);
    write_padded align_right specs size (sign_chars s +:+ String "0" text).

(** ** Notation with an exponent *)

Definition compute_exp_size (exp : Z) : Z :=
  let abs_exp := if 0 <=? exp then exp else - exp in
  if abs_exp <? 100 then 4 else 2 + (if 1000 <=? abs_exp then 4 else 3).

Definition write_exponent (exp : Z) : writer :=
  _ ← check ((-10000 <? exp) && (exp <? 10000));
  let uexp := if exp <? 0 then - exp else exp in
  let top := digits2 (uexp / 100) in
  Ret ((if exp <? 0 then "-" else "+") +:+
       (if 100 <=? uexp then (if 1000 <=? uexp then prefix_of 1 top else EmptyString) +:+ skip 1 top else EmptyString) +:+
       digits2 (if 100 <=? uexp then uexp mod 100 else uexp)).

(** [do_write_float]; [point]: '.' or the locale's. *)
Definition do_write_float (grouping : bool → number_grouping) (d : decimal) (point : ascii) (specs : format_specs)
    (s : sign) (exp_upper : Z) : writer :=
  let significand_size := get_significand_size d in
  let exp := exponent_of d + significand_size - 1 in
  if (get_type specs =? pres_fixed) ||
     (negb (get_type specs =? pres_exp) && use_fixed exp (if 0 <? specs.(precision) then specs.(precision) else exp_upper))
  then write_fixed grouping d significand_size point specs s
  else
    let num_zeros := if alt specs then Z.max (specs.(precision) - significand_size) 0 else 0 in
    let point := if negb (alt specs) && (significand_size =? 1) then None else Some point in
    let size := significand_size + sign_size s + num_zeros + (if point is Some _ then 1 else 0) + compute_exp_size exp in
    digits ← write_significand_point d significand_size 1 point;
    exponent ← write_exponent exp;
    let text := sign_chars s +:+ digits +:+ zeros_text num_zeros +:+ String (if upper specs then "E" else "e") exponent in
    usize ← to_unsigned size;
    if 0 <? specs.(width) then write_padded align_right specs usize text else Ret text.

(** ** Infinities and what is not a number *)

Definition write_nonfinite (isnan : bool) (specs : format_specs) (s : sign) : writer :=
  let str := if isnan then (if upper specs then "NAN" else "nan") else (if upper specs then "INF" else "inf") in
  let size := 3 + sign_size s in
  let is_zero_fill := (fill_size specs =? 1) && (byte_at 0 specs.(fill_data_) =? code "0") in
  let specs := if is_zero_fill then set_fill_char " " specs else specs in
  write_padded align_left specs size (sign_chars s +:+ str).

(** ** [write(out, value)] of a double *)

(** The bits of a double: its sign, whether it is neither finite nor a number. *)
Definition signbit (br : Z) : bool := Z.testbit br 63.
Definition is_nonfinite (br : Z) : bool := Z.land br exponent_mask =? exponent_mask.
Definition isnan (br : Z) : bool :=
  is_nonfinite br && negb (Z.land br (Z.shiftl 1 num_significand_bits - 1) =? 0).

(** The digits with a point after the first: [format_decimal] leaves a place in
    front of them. *)
Definition point_after_first (digits : string) : writer :=
  match digits with
  | String d r => Ret (String d (String "." r))
  | EmptyString => Crash (undefined_behaviour "no digit")
  end.

(** The notation with an exponent, in the memory [to_pointer] has reserved. *)
Definition write_exponential (significand significand_size exponent : Z) (negative : bool) : writer :=
  let abs_exponent := if exponent <? 0 then - exponent else exponent in
  let prefix : string := if exponent <? 0 then "e-" else "e+" in
  digits ← (if negb (significand_size =? 1) then
              text ← format_decimal significand (significand_size + 1);
              point_after_first text
            else Ret (one_char (char_of (48 + significand))));
  let hundreds := if 100 <=? abs_exponent then one_char (char_of (48 + abs_exponent / 100)) else EmptyString in
  let abs_exponent := if 100 <=? abs_exponent then abs_exponent mod 100 else abs_exponent in
  Ret ((if negative then "-" else "") +:+ digits +:+ prefix +:+ hundreds +:+ digits2 abs_exponent).

Definition write_default_double (br : Z) : writer :=
  let s := if signbit br then sign_minus else sign_none in
  if is_nonfinite br then write_nonfinite (isnan br) format_specs_new s
  else
    dec ← to_decimal br;
    let significand_size := count_digits_uint64 dec.(significand) in
    let exponent := dec.(exponent) + significand_size - 1 in
    if use_fixed exponent exp_upper then
      write_fixed (λ _, fallback_digit_grouping) (short_decimal dec) significand_size "." format_specs_new s
    else write_exponential dec.(significand) significand_size exponent (signbit br).

(** ** [format_float] *)

Definition fractional_part_rounding_thresholds : list Z :=
  [0x9999999a; 0x828f5c29; 0x80418938; 0x80068db9; 0x8000a7c6; 0x800010c7; 0x800001ae; 0x8000002b].

(** What [print_subsegment] leaves: the digits it wrote, [prod] and the variable
    [digits], the last one or two digits. *)
Record printed := { p_text : list Z; prod : Z; last_digits : Z }.

(** The pairs of digits *)
Fixpoint print_pairs (pairs : nat) (p : printed) : printed :=
  match pairs with
  | O => p
  | S pairs =>
      let prod := w64 (w32 p.(prod) * 100) in
      let digits := w32 (Z.shiftr prod 32) in
      print_pairs pairs {| p_text := p.(p_text) ++ [digits / 10; digits mod 10]; prod := prod; last_digits := digits |}
  end.
Definition print_subsegment (number_of_digits_to_print subsegment : Z) : printed :=
  if negb (Z.land number_of_digits_to_print 1 =? 0) then
    let prod := w64 (Z.shiftr (w64 (subsegment * 720575941)) 24 + 1) in
    let digits := w32 (Z.shiftr prod 32) in
    print_pairs (Z.to_nat ((number_of_digits_to_print - 1) / 2)) {| p_text := [digits]; prod := prod; last_digits := digits |}
  else
    let prod := w64 (Z.shiftr (w64 (subsegment * 450359963)) 20 + 1) in
    let digits := w32 (Z.shiftr prod 32) in
    print_pairs (Z.to_nat ((number_of_digits_to_print - 2) / 2))
      {| p_text := [digits / 10; digits mod 10]; prod := prod; last_digits := digits |}.

Definition bit (b : bool) : Z := if b then 1 else 0.

(** Rounding inside a subsegment: [more]: whether digits follow it. *)
Definition round_inside (p : printed) (number_of_digits_to_print : Z) (more has_more_segments : bool) : bool :=
  let fractional_part := w32 p.(prod) in
  (at_index fractional_part_rounding_thresholds (8 - number_of_digits_to_print) <=? fractional_part) ||
  negb (Z.land (Z.shiftr fractional_part 31)
          (Z.lor (Z.lor (Z.land p.(last_digits) 1) (bit more)) (bit has_more_segments)) =? 0).

(** Rounding at its end: what is left is [rest], [half] is a half. *)
Definition round_boundary (p : printed) (rest half : Z) (has_more_segments : bool) : bool :=
  (half <? rest) || ((rest =? half) && (negb (Z.land p.(last_digits) 1 =? 0) || has_more_segments)).

(** [precision] digits, 1 to 18, of [first_segment]: and whether to round up. *)
Definition print_segment (first_segment precision : Z) (has_more_segments : bool) : list Z * bool :=
  let first_subsegment := w32 (Z.shiftr (umul128_upper64 first_segment 7922816251426433760) 32) in
  let second_third_subsegments := w64 (first_segment - w64 (first_subsegment * 10000000000)) in
  let n := Z.min precision 9 in
  let p := print_subsegment n first_subsegment in
  if precision <=? 9 then
    (p.(p_text),
     if precision <? 9 then round_inside p n (negb (second_third_subsegments =? 0)) has_more_segments
     else round_boundary p second_third_subsegments 5000000000 has_more_segments)
  else
    let second_subsegment := w32 (umul128_upper64 second_third_subsegments 1844674407370955162) in
    let third_subsegment := w32 (w32 second_third_subsegments - w32 (second_subsegment * 10)) in
    let n := precision - 9 in
    let q := print_subsegment n second_subsegment in
    (p.(p_text) ++ q.(p_text),
     if precision <? 18 then round_inside q n (negb (third_subsegment =? 0)) has_more_segments
     else round_boundary q third_subsegment 5 has_more_segments).

(** The bits of the significand and the exponent, normalized; a subnormal double
    is shifted. *)
Definition countl_zero64 (n : Z) : Z := if n =? 0 then 64 else clz 64 n.
Definition normalized (br : Z) : outcome (Z * Z) :=
  let significand := Z.land br (Z.shiftl 1 num_significand_bits - 1) in
  let exponent := Z.shiftr (Z.land br exponent_mask) num_significand_bits in
  if negb (exponent =? 0) then
    Ret (w64 (Z.shiftl (Z.lor significand (Z.shiftl 1 num_significand_bits)) 1),
         exponent - (exponent_bias + num_significand_bits))
  else
    _ ← check (negb (significand =? 0));
    let shift := countl_zero64 significand in
    _ ← check (64 - num_significand_bits <=? shift);
    let shift := shift - (64 - num_significand_bits - 2) in
    significand ← shl64 significand shift;
    Ret (significand, min_exponent - num_significand_bits - shift).

(** The first 18 or 19 digits, as 19: the segment, whether more digits follow,
    the number of digits and [exp]. *)
Definition first_digits (br : Z) : outcome (Z * bool * Z * Z) :=
  '(significand, exponent) ← normalized br;
  l10 ← floor_log10_pow2 exponent;
  let k := kappa - l10 in
  l2 ← floor_log2_pow10 k;
  cache ← get_cached_power k;
  u ← shl64 significand (exponent + l2);
  let r := umul192_upper128 u cache in
  let first_segment := r.(hi_) in
  Ret (if 1000000000000000000 <=? first_segment then (first_segment, negb (r.(lo_) =? 0), 19, - k)
       else (w64 (first_segment * 10), negb (r.(lo_) =? 0), 18, - k)).

(** [value == 0] *)
Definition is_zero (br : Z) : bool := Z.land br (Z.shiftl 1 63 - 1) =? 0.

Definition max_double_digits : Z := 767.

(** The digits and the exponent of ten of the last one, before zeros are
    removed. *)
Definition float_digits (br precision : Z) (fixed : bool) : outcome (list Z * Z) :=
  '(first_segment, has_more_segments, digits_in_the_first_segment, exp) ← first_digits br;
  precision ← (if fixed then adjust_precision precision (exp + digits_in_the_first_segment) else Ret precision);
  if precision <? digits_in_the_first_segment then
    if precision <=? 0 then
      let exp := exp + digits_in_the_first_segment in
      if precision <? 0 then Ret ([], exp)
      else Ret ([bit (5000000000000000000 <? Z.lor first_segment (bit has_more_segments))], exp)
    else
      let exp := exp + digits_in_the_first_segment - precision in
      let '(digits, should_round_up) := print_segment first_segment precision has_more_segments in
      Ret (if should_round_up then round_up (rev digits) fixed exp else (digits, exp))
  else
    let exp := exp + digits_in_the_first_segment - 1 in
    let '(value, is_predecessor_closer) := assign_double br in
    format_dragon value {| predecessor_closer := is_predecessor_closer; fixup := false; fixed_ := fixed |}
      (Z.min precision max_double_digits) exp.

(** The zeros at the end of the digits, the last one first, are removed. *)
Fixpoint remove_zeros (data : list Z) (exp : Z) : list Z * Z :=
  match data with
  | d :: r => if d =? 0 then remove_zeros r (exp + 1) else (data, exp)
  | [] => ([], exp)
  end.

Definition digits_text (ds : list Z) : string := fold_right (λ d s, String (digit_char d) s) EmptyString ds.

Definition format_float (br precision : Z) (specs : format_specs) : outcome decimal :=
  let fixed := get_type specs =? pres_fixed in
  if is_zero br then
    if (precision <=? 0) || negb fixed then Ret (big_decimal "0" 0)
    else Ret (big_decimal (repeat_text (Z.to_nat precision) "0") (- precision))
  else
    '(digits, exp) ← float_digits br precision fixed;
    let '(data, exp) := if negb fixed && negb (alt specs) then remove_zeros (rev digits) exp else (rev digits, exp) in
    Ret (big_decimal (digits_text (rev data)) exp).

(** ** [format_hexfloat] *)

(** [xdigits]: 14 hexadecimal digits; the loop that removes zeros from the end. *)
Fixpoint drop_xzeros (n : nat) (xdigits : string) : Z :=
  match n with
  | S m => if Ascii.eqb (default "0"%char (String.get n xdigits)) "0" then drop_xzeros m xdigits else Z.of_nat n
  | O => 0
  end.

Definition format_hexfloat (br : Z) (specs : format_specs) : writer :=
  let '(value, _) := assign_double br in
  let exp := value.(e_) + num_significand_bits in
  let num_xdigits := 14 in
  let leading_shift := (num_xdigits - 1) * 4 in
  let leading_xdigit := w32 (Z.shiftr (Z.land value.(f_) (Z.shiftl 0xF leading_shift)) leading_shift) in
  let exp := if 1 <? leading_xdigit then exp - (32 - clz 32 leading_xdigit - 1) else exp in
  let print_xdigits := num_xdigits - 1 in
  let cut := (0 <=? specs.(precision)) && (specs.(precision) <? print_xdigits) in
  let fr :=
    if cut then
      let shift := (print_xdigits - specs.(precision) - 1) * 4 in
      let v := w32 (Z.shiftr (Z.land value.(f_) (Z.shiftl 0xF shift)) shift) in
      if 8 <=? v then
        let inc := Z.shiftl 1 (shift + 4) in Z.land (w64 (value.(f_) + inc)) (w64 (Z.lnot (inc - 1)))
      else value.(f_)
    else value.(f_) in
  let print_xdigits := if cut then specs.(precision) else print_xdigits in
  '(n, digits) ← do_format_base2e bits_fuel 4 num_xdigits fr (upper specs) EmptyString;
  let xdigits := repeat_text (Z.to_nat n) "0" +:+ digits in
  let print_xdigits := drop_xzeros (Z.to_nat print_xdigits) xdigits in
  let abs_e := w32 (if exp <? 0 then - exp else exp) in
  exponent ← format_decimal abs_e (count_digits_uint32 abs_e);
  Ret ("0" +:+ (if upper specs then "X" else "x") +:+ prefix_of 1 xdigits +:+
       (if alt specs || (0 <? print_xdigits) || (print_xdigits <? specs.(precision)) then "." else "") +:+
       prefix_of print_xdigits (skip 1 xdigits) +:+ zeros_text (specs.(precision) - print_xdigits) +:+
       (if upper specs then "P" else "p") +:+ (if exp <? 0 then "-" else "+") +:+ exponent).

(** ** [write(out, value, specs)] *)

Section with_locale.
Context {L : GlobalLocale}.

(** [digit_grouping(loc, localized)]: of the process's locale *)
Definition locale_grouping (localized : bool) : number_grouping :=
  with_digit_grouping
    {| grouping_ := if localized then np_grouping else EmptyString;
       thousands_sep_ := if localized && negb (is_end np_grouping) && negb (Ascii.eqb np_thousands_sep "000")
                         then one_char np_thousands_sep else EmptyString |}.

(** [write_float(out, f, specs, s, exp_upper, loc)] *)
Definition write_float (d : decimal) (specs : format_specs) (s : sign) (exp_upper : Z) : writer :=
  do_write_float locale_grouping d (if localized specs then np_decimal_point else ".") specs s exp_upper.

(** With a precision, or a type of its own. *)
Definition write_with_precision (br precision : Z) (specs : format_specs) (s : sign) : writer :=
  let t := get_type specs in
  if t =? pres_hexfloat then
    text ← format_hexfloat br specs;
    write_bytes align_right (sign_chars s +:+ text) specs
  else
    '(precision, specs') ←
      (if t =? pres_exp then
         if precision =? INT_MAX then Throw (runtime_error "number is too big")
         else Ret (precision + 1, if negb (specs.(FmtSpecs.precision) =? 0) then set_alt specs else specs)
       else if t =? pres_fixed then
         Ret (precision, if negb (specs.(FmtSpecs.precision) =? 0) then set_alt specs else specs)
       else Ret (if precision =? 0 then 1 else precision, specs));
    d ← format_float br precision specs';
    write_float d (set_precision precision specs'.(precision_ref) specs') s exp_upper.

Definition write_double (br : Z) (specs : format_specs) : writer :=
  let s := if signbit br then sign_minus else get_sign specs in
  if is_nonfinite br then write_nonfinite (isnan br) specs s
  else
    let numeric := bool_decide (get_align specs = align_numeric) && negb (bool_decide (s = sign_none)) in
    let sign_out := if numeric then one_char (getsign s) else EmptyString in
    let specs := if numeric && negb (specs.(width) =? 0) then set_width (specs.(width) - 1) specs.(width_ref) specs else specs in
    let s := if numeric then sign_none else s in
    text ←
      (if specs.(precision) <? 0 then
         if negb (get_type specs =? pres_none) then write_with_precision br 6 specs s
         else dec ← to_decimal br; write_float (short_decimal dec) specs s exp_upper
       else write_with_precision br specs.(precision) specs s);
    Ret (sign_out +:+ text).

End with_locale.
