(* ===== verification/FmtReadBack.v ===== *)
(** * The text fmt gives a double, read back

    A reader of decimal numbers, and the proof that what [write(out, value)]
    writes for a double is read as a number within half a unit in the last place
    of the double, give or take the rounding of Dragonbox's table. *)
From Stdlib Require Import Ascii QArith Qpower Qabs Lqa.
From S2P Require Import Prelude Numerals FmtInt FmtSpecs FmtParse FmtWrite FmtDragonbox FmtShortest FmtFloat.
Open Scope Z_scope.

(** ** Reading a number *)

(** The digits at the beginning of [s]: the number they continue from [acc], how
    many they are more than [n], and the rest. *)
Fixpoint read_digits (s : string) (acc n : Z) : Z * Z * string :=
  match s with
  | EmptyString => (acc, n, s)
  | String c r =>
      match digit_value c with
      | Some d => read_digits r (10 * acc + d) (n + 1)
      | None => (acc, n, s)
      end
  end.

(** What may follow the digits: nothing or [e] with a signed number. *)
Definition read_exponent (s : string) : option Z :=
  match s with
  | EmptyString => Some 0
  | String "e" (String c r) =>
      let '(v, n, rest) := read_digits r 0 0 in
      if (1 <=? n) && String.eqb rest "" then
        if Ascii.eqb c "+" then Some v else if Ascii.eqb c "-" then Some (- v) else None
      else None
  | _ => None
  end.

(** A number without a sign: digits, perhaps a point and digits, perhaps an
    exponent; as a significand and an exponent of ten. *)
Definition read_unsigned (s : string) : option (Z * Z) :=
  let '(m, n, s) := read_digits s 0 0 in
  if n <? 1 then None
  else
    let '(m, f, s) := match s with String "." r => read_digits r m 0 | _ => (m, 0, s) end in
    e ← read_exponent s; Some (m, e - f).

(** A number with or without a minus. *)
Definition read_number (s : string) : option Q :=
  let '(negative, s) := match s with String "-" r => (true, r) | _ => (false, s) end in
  '(m, e) ← read_unsigned s;
  let v := (inject_Z m * pow10 e)%Q in
  Some (if negative : bool then (- v)%Q else v).

Example read_example : read_unsigned "12.50e-3" = Some (1250, -5).
Proof. reflexivity. Qed.

(** ** Digits of a fixed number *)

(** The last [w] digits of [z]. *)
Fixpoint numeral (w : nat) (z : Z) : string :=
  match w with
  | O => EmptyString
  | S w => numeral w (z / 10) +:+ one_char (digit_char (z mod 10))
  end.

Lemma numeral_app a b z : 0 ≤ z → numeral (a + b) z = numeral a (z / 10 ^ Z.of_nat b) +:+ numeral b z.
Proof.
  revert a z. induction b as [|b IH]; intros a z Hz.
  { cbn. rewrite Nat.add_0_r, Z.div_1_r. by rewrite append_nil_r. }
  rewrite Nat.add_succ_r. cbn [numeral]. rewrite IH by (apply Z.div_pos; lia).
  rewrite Z.div_div, <- Z.pow_succ_r, <- Nat2Z.inj_succ by lia. by rewrite append_assoc.
Qed.

Lemma numeral_size w z : size (numeral w z) = Z.of_nat w.
Proof.
  revert z. induction w as [|w IH]; intros z; [done|]. cbn [numeral]. unfold size in *. rewrite length_append. cbn. specialize (IH (z / 10)). lia.
Qed.

Lemma natural_numeral z : 0 ≤ z → natural_text z = numeral (Z.to_nat (text_size z)) z.
Proof.
  intros Hz. assert (Hw : ∃ w, w = Z.to_nat (text_size z)) by eauto. destruct Hw as [w Hw]. rewrite <- Hw.
  revert z Hz Hw. induction w as [|w IH]; intros z Hz Hw; pose proof (text_size_positive z Hz); [lia|].
  destruct (Z.lt_ge_cases z 10) as [Hs|Hs].
  - rewrite text_size_small in Hw by lia. assert (w = 0%nat) as -> by lia. rewrite natural_text_small by lia. cbn.
    by rewrite Z.mod_small by lia.
  - rewrite text_size_step in Hw, H by done. rewrite natural_text_step by done. cbn [numeral].
    rewrite (IH (z / 10)); [done|apply Z.div_pos; lia|lia].
Qed.

(** Reading goes on after them. *)
Lemma read_numeral w z rest acc n :
  read_digits (numeral w z +:+ rest) acc n =
  read_digits rest (acc * 10 ^ Z.of_nat w + z mod 10 ^ Z.of_nat w) (n + Z.of_nat w).
Proof.
  revert z rest. induction w as [|w IH]; intros z rest.
  { cbn [numeral Z.of_nat]. rewrite Z.pow_0_r, Z.mul_1_r, Z.mod_1_r, !Z.add_0_r. done. }
  cbn [numeral]. rewrite <- append_assoc, IH. change (one_char ?c +:+ rest) with (String c rest). cbn [read_digits].
  pose proof (Z.mod_pos_bound z 10 ltac:(lia)). rewrite digit_value_char by done.
  rewrite Nat2Z.inj_succ, Z.pow_succ_r by lia. f_equal; [|lia].
  rewrite (Z.rem_mul_r z 10) by lia. lia.
Qed.

Lemma text_size_spec z : 0 ≤ z → z < 10 ^ text_size z.
Proof.
  intros Hz. assert (Hw : ∃ w, w = Z.to_nat (text_size z)) by eauto. destruct Hw as [w Hw].
  revert z Hz Hw. induction w as [|w IH]; intros z Hz Hw; pose proof (text_size_positive z Hz); [lia|].
  destruct (Z.lt_ge_cases z 10) as [Hs|Hs]; [by rewrite text_size_small|].
  rewrite text_size_step in * by done. specialize (IH (z / 10) ltac:(apply Z.div_pos; lia) ltac:(lia)).
  rewrite Z.pow_add_r, Z.pow_1_r by (try lia; pose proof (text_size_positive (z / 10) ltac:(apply Z.div_pos; lia)); lia).
  div_lia.
Qed.

Lemma read_natural z rest acc n : 0 ≤ z →
  read_digits (natural_text z +:+ rest) acc n = read_digits rest (acc * 10 ^ text_size z + z) (n + text_size z).
Proof.
  intros Hz. pose proof (text_size_positive z Hz). rewrite natural_numeral, read_numeral, Z2Nat.id by lia.
  by rewrite Z.mod_small by (split; [done|by apply text_size_spec]).
Qed.

Lemma zeros_numeral n : repeat_text n "0" = numeral n 0.
Proof.
  assert (H : ∀ n, String "0" (numeral n 0) = numeral (S n) 0).
  { clear n. induction n as [|n IH]; [done|]. cbn [numeral] in *. rewrite !(Z.div_0_l 10) in * by done. rewrite <- append_cons, IH. done. }
  induction n as [|n IH]; [done|]. cbn [repeat_text]. rewrite IH. apply H.
Qed.

(** ** The pieces of a number *)

Lemma fraction_pairs_text rounds s text :
  0 ≤ s → fraction_pairs rounds s text = (s / 10 ^ Z.of_nat (2 * rounds), numeral (2 * rounds) s +:+ text).
Proof.
  revert s text. induction rounds as [|rounds IH]; intros s text Hs; [by rewrite Z.div_1_r|].
  cbn [fraction_pairs]. rewrite IH by (apply Z.div_pos; lia). pose proof (Z.mod_pos_bound s 100 ltac:(lia)).
  replace (2 * S rounds)%nat with (2 * rounds + 2)%nat by lia. f_equal.
  - rewrite Z.div_div by lia. f_equal. change 100 with (10 ^ Z.of_nat 2). rewrite <- Z.pow_add_r by lia. f_equal. lia.
  - rewrite numeral_app, <- append_assoc by done. change (10 ^ Z.of_nat 2) with 100. f_equal. f_equal.
    rewrite digits2_pair by done. change (numeral 2 s) with (String (digit_char (s / 10 mod 10)) (String (digit_char (s mod 10)) "")).
    f_equal; [|f_equal]; f_equal; div_lia.
Qed.

Lemma text_size_shift s f : 0 ≤ s → 0 ≤ f < text_size s → text_size (s / 10 ^ f) = text_size s - f.
Proof.
  intros Hs [Hf Hlt]. revert f Hf Hlt. apply (natlike_ind (λ f, f < text_size s → text_size (s / 10 ^ f) = text_size s - f)).
  { intros _. rewrite Z.div_1_r. lia. }
  intros f Hf IH Hlt. specialize (IH ltac:(lia)). rewrite Z.pow_succ_r, Z.mul_comm, <- Z.div_div by lia.
  assert (0 ≤ s / 10 ^ f) by (apply Z.div_pos; lia).
  destruct (Z.lt_ge_cases (s / 10 ^ f) 10) as [Hl|Hl]; [rewrite text_size_small in IH by lia; lia|].
  rewrite text_size_step in IH by done. lia.
Qed.

Lemma div_pow10_range s k : 0 ≤ s → 0 ≤ k → 0 ≤ s / 10 ^ k ≤ s.
Proof.
  intros Hs Hk. assert (0 < 10 ^ k) by lia. split; [by apply Z.div_pos|]. apply Z.div_le_upper_bound; [done|]. nia.
Qed.

Lemma write_integer_point_text s f c :
  0 ≤ s → 1 ≤ f → f < text_size s →
  write_integer_point s (text_size s) (text_size s - f) c =
  Ret (natural_text (s / 10 ^ f) +:+ String c (numeral (Z.to_nat f) s)).
Proof.
  intros Hs Hf Hsz. unfold write_integer_point. replace (text_size s - (text_size s - f)) with f by lia.
  rewrite fraction_pairs_text, append_nil_r by lia. set (r := Z.to_nat (f / 2)).
  assert (Hr : Z.of_nat (2 * r) = 2 * (f / 2)) by (subst r; div_lia).
  assert (E : (if negb (Z.rem f 2 =? 0) then (s / 10 ^ Z.of_nat (2 * r) / 10,
                  String (digit_char (s / 10 ^ Z.of_nat (2 * r) mod 10)) (numeral (2 * r) s))
               else (s / 10 ^ Z.of_nat (2 * r), numeral (2 * r) s)) = (s / 10 ^ f, numeral (Z.to_nat f) s)).
  { rewrite Z.rem_mod_nonneg by lia. destruct (Z.eqb_spec (f mod 2) 0) as [E|E]; cbn [negb].
    - replace (Z.of_nat (2 * r)) with f by (rewrite Hr; div_lia). f_equal. f_equal. subst r. div_lia.
    - assert (Hodd : f = Z.of_nat (2 * r) + 1) by (rewrite Hr; div_lia). f_equal.
      + rewrite Z.div_div by lia. f_equal. rewrite Hodd, Z.pow_add_r by lia. done.
      + replace (Z.to_nat f) with (1 + 2 * r)%nat by lia. by rewrite (numeral_app 1 (2 * r)). }
  rewrite E. pose proof (div_pow10_range s f Hs ltac:(lia)).
  rewrite do_format_decimal_text; [done|lia|apply decimal_fuel; lia|]. rewrite text_size_shift by lia. lia.
Qed.

(** ** Reading the forms of a number *)

(** A text that ends a run of digits. *)
Definition stops (rest : string) : Prop := ∀ acc n, read_digits rest acc n = (acc, n, rest).

Lemma read_plain a rest : 0 ≤ a → stops rest → (∀ r, rest ≠ String "." r) →
  read_unsigned (natural_text a +:+ rest) = (e ← read_exponent rest; Some (a, e - 0)).
Proof.
  intros Ha Hs Hp. unfold read_unsigned. rewrite read_natural, Hs by done. rewrite Z.mul_0_l, !Z.add_0_l.
  pose proof (text_size_positive a Ha). destruct (Z.ltb_spec (text_size a) 1); [lia|].
  destruct rest as [|c r]; [done|].
  destruct (ascii_dec c ".") as [->|Hc]; [by destruct (Hp r)|].
  destruct c as [[] [] [] [] [] [] [] []]; done.
Qed.

Lemma read_point a f z rest : 0 ≤ a → stops rest →
  read_unsigned (natural_text a +:+ String "." (numeral f z +:+ rest)) =
  (e ← read_exponent rest; Some (a * 10 ^ Z.of_nat f + z mod 10 ^ Z.of_nat f, e - Z.of_nat f)).
Proof.
  intros Ha Hs. unfold read_unsigned. rewrite read_natural by done.
  change (read_digits (String "." ?t) ?a ?n) with (a, n, String "." t). cbv beta iota zeta.
  rewrite read_numeral, Hs, Z.mul_0_l, !Z.add_0_l.
  pose proof (text_size_positive a Ha). by destruct (Z.ltb_spec (text_size a) 1); [lia|].
Qed.

Lemma read_signed (negative : bool) a rest m e : 0 ≤ a →
  read_unsigned (natural_text a +:+ rest) = Some (m, e) →
  read_number ((if negative then "-" else "") +:+ (natural_text a +:+ rest)) =
  Some (if negative then - (inject_Z m * pow10 e) else inject_Z m * pow10 e)%Q.
Proof.
  intros Ha E. destruct negative.
  { change ("-" +:+ ?t) with (String "-" t). unfold read_number. by rewrite E. }
  rewrite append_nil. destruct (natural_text_first a Ha) as (d & r & Et & Hd). rewrite Et in *.
  rewrite append_cons in *. destruct (digit_char_other d Hd) as (_ & Hm & _). unfold read_number.
  destruct (digit_char d) as [[] [] [] [] [] [] [] []]; try (by rewrite E). done.
Qed.

Lemma text_size_le z d : 0 ≤ z < 10 ^ d → 1 ≤ d → text_size z ≤ d.
Proof.
  intros Hz Hd. revert z Hz. apply (Z.le_ind (λ d, ∀ z, 0 ≤ z < 10 ^ d → text_size z ≤ d)) with (n := 1); [solve_proper| | |done].
  - intros z Hz. rewrite text_size_small; lia.
  - intros m Hm IH z Hz. rewrite Z.pow_succ_r in Hz by lia. destruct (Z.lt_ge_cases z 10); [rewrite text_size_small; lia|].
    rewrite text_size_step by done. specialize (IH (z / 10)). assert (0 ≤ z / 10 < 10 ^ m) by div_lia. lia.
Qed.

Lemma size_app s t : size (s +:+ t) = size s + size t.
Proof. unfold size. rewrite length_append. lia. Qed.

Lemma size_natural_text z : size (natural_text z) = text_size z.
Proof. done. Qed.

(** *** The exponent *)

Definition exponent_text (x : Z) : string :=
  let n := if x <? 0 then - x else x in
  (if x <? 0 then "e-" else "e+") +:+
  (if 100 <=? n then one_char (char_of (48 + n / 100)) else EmptyString) +:+ digits2 (if 100 <=? n then n mod 100 else n).

Definition exponent_ok (x : Z) : bool :=
  match read_exponent (exponent_text x), exponent_text x with
  | Some v, String "e" _ => (v =? x) && (size (exponent_text x) <=? 5)
  | _, _ => false
  end.

Lemma exponents_ok : forallb (λ i, exponent_ok (i - 400)) (seqZ 0 800) = true.
Proof. vm_compute. reflexivity. Qed.

Lemma exponent_reads x : -400 ≤ x < 400 →
  read_exponent (exponent_text x) = Some x ∧ size (exponent_text x) ≤ 5 ∧ ∃ r, exponent_text x = String "e" r.
Proof.
  intros Hx. pose proof (all_below _ 800 (x + 400) exponents_ok ltac:(lia)) as H. cbv beta in H.
  replace (x + 400 - 400) with x in H by lia. unfold exponent_ok in H.
  destruct (read_exponent (exponent_text x)) as [v|]; [|done]. destruct (exponent_text x) as [|c r]; [done|].
  assert (Hc : c = "e"%char ∧ ((v =? x) && (size (String c r) <=? 5)) = true)
    by (destruct c as [[] [] [] [] [] [] [] []]; done).
  destruct Hc as [-> Hc]. apply andb_true_iff in Hc as [H1 H2]. apply Z.eqb_eq in H1. apply Z.leb_le in H2. subst v. eauto.
Qed.

(** ** What the writer writes *)

Lemma padded_new d n text : 0 ≤ n → write_padded d format_specs_new n text = Ret text.
Proof.
  intros Hn. unfold write_padded. cbn [to_unsigned]. unfold to_unsigned. cbn [FmtSpecs.width format_specs_new Z.leb check mbind outcome_bind].
  change (0 <=? 0) with true. cbn [check mbind outcome_bind]. destruct (Z.ltb_spec n 0); [lia|].
  rewrite Z.shiftr_0_l. cbn [Z.sub Z.opp Z.add Z.eqb negb]. by rewrite append_nil, append_nil_r.
Qed.

Definition sign_for (negative : bool) : sign := if negative then sign_minus else sign_none.

Lemma sign_chars_for negative : sign_chars (sign_for negative) = (if negative then "-" else "").
Proof. by destruct negative. Qed.

Lemma sign_size_for negative : 0 ≤ sign_size (sign_for negative) ≤ 1.
Proof. by destruct negative. Qed.

(** The text of [s] times the [e]-th power of ten: a number without a sign, at
    most 23 characters. *)
Definition denotes (s e : Z) (a : Z) (rest : string) : Prop :=
  0 ≤ a ∧ size (natural_text a +:+ rest) ≤ 23 ∧
  ∃ m k, read_unsigned (natural_text a +:+ rest) = Some (m, k) ∧ (inject_Z m * pow10 k == inject_Z s * pow10 e)%Q.

Lemma pow10_zero : (pow10 0 == 1)%Q.
Proof. reflexivity. Qed.

Section writing.
Context (f : decimal_fp) (negative : bool).
Let s := f.(significand).
Let e := f.(exponent).
Let L := text_size s.
Hypothesis Hs : 0 ≤ s < 10 ^ 17.
Hypothesis He : -324 ≤ e ≤ 308.

Lemma digits_17 : 1 ≤ L ≤ 17.
Proof using Hs. split; [apply text_size_positive; lia|apply text_size_le; lia]. Qed.

Lemma write_digits_text : write_significand (short_decimal f) L = Ret (natural_text s).
Proof using Hs. by apply format_decimal_text; [unfold s in *; lia|]. Qed.

Abbreviation fixed_form :=
  (write_fixed (λ _, fallback_digit_grouping) (short_decimal f) L "." format_specs_new (sign_for negative)).

(** [1234e5]: zeros after the digits *)
Lemma fixed_integer : 0 ≤ e → L + e ≤ 16 →
  fixed_form = Ret ((if negative then "-" else "") +:+ (natural_text s +:+ repeat_text (Z.to_nat e) "0")) ∧
  denotes s e s (repeat_text (Z.to_nat e) "0").
Proof using Hs.
  intros He0 Hle. pose proof digits_17 as HL. split.
  - unfold write_fixed. cbn [exponent_of]. fold e. destruct (Z.leb_spec 0 e); [|lia].
    change (alt format_specs_new) with false. cbv iota. unfold write_significand_zeros. rewrite write_digits_text.
    cbn [mbind outcome_bind has_separator negb separators_in]. pose proof (sign_size_for negative).
    rewrite padded_new by (rewrite w64_small; lia). by rewrite sign_chars_for, append_nil_r.
  - split; [lia|]. rewrite zeros_numeral. split; [rewrite size_app, size_natural_text, numeral_size; lia|].
    unfold read_unsigned. rewrite read_natural by lia. rewrite <- (append_nil_r (numeral _ _)), read_numeral.
    cbn [read_digits]. rewrite Z.mod_0_l, Z.mul_0_l, !Z.add_0_l, Z.add_0_r, Z2Nat.id by lia.
    destruct (Z.ltb_spec (text_size s + e) 1); [lia|]. eexists _, _. split; [done|].
    rewrite inject_Z_mult, pow10_Z by lia. change (0 - 0) with 0. rewrite pow10_zero. ring.
Qed.

(** [1234e-2]: a point among the digits *)
Lemma fixed_point : e < 0 → 0 < e + L →
  fixed_form = Ret ((if negative then "-" else "") +:+
                    (natural_text (s / 10 ^ (- e)) +:+ String "." (numeral (Z.to_nat (- e)) s))) ∧
  denotes s e (s / 10 ^ (- e)) (String "." (numeral (Z.to_nat (- e)) s)).
Proof using Hs.
  intros He0 Hp. pose proof digits_17 as HL. pose proof (div_pow10_range s (- e) ltac:(lia) ltac:(lia)). split.
  - unfold write_fixed. cbn [exponent_of]. fold e. destruct (Z.leb_spec 0 e); [lia|]. destruct (Z.ltb_spec 0 (e + L)); [|lia].
    change (alt format_specs_new) with false. cbv iota. cbn [separators_in mbind outcome_bind]. pose proof (sign_size_for negative).
    rewrite outputs_unsigned by lia. cbn [mbind outcome_bind]. unfold write_significand_grouped. cbn [write_significand_point has_separator negb].
    replace (e + L) with (L - - e) by lia. rewrite write_integer_point_text by (fold s; lia). fold s. cbn [mbind outcome_bind].
    rewrite padded_new by lia. change (zeros_text 0) with "". by rewrite sign_chars_for, append_nil_r.
  - split; [lia|]. split.
    { rewrite size_app, size_cons, size_natural_text, numeral_size, text_size_shift by (fold L; lia). fold L. lia. }
    rewrite <- (append_nil_r (numeral _ _)), read_point by (done || lia). rewrite Z2Nat.id by lia. eexists _, _. split; [done|].
    replace (0 - - e) with e by lia. replace (s / 10 ^ (- e) * 10 ^ (- e) + s mod 10 ^ (- e)) with s; [done|].
    rewrite (Z.div_mod s (10 ^ (- e))) at 1 by lia. lia.
Qed.

(** [1234e-6]: zeros after the point *)
Lemma fixed_fraction : e + L ≤ 0 → -4 ≤ e + L - 1 →
  fixed_form = Ret ((if negative then "-" else "") +:+
                    (natural_text 0 +:+ String "." (repeat_text (Z.to_nat (- (e + L))) "0" +:+ natural_text s))) ∧
  denotes s e 0 (String "." (repeat_text (Z.to_nat (- (e + L))) "0" +:+ natural_text s)).
Proof using Hs.
  intros He0 Hp. pose proof digits_17 as HL. split.
  - unfold write_fixed. cbn [exponent_of]. fold e. destruct (Z.leb_spec 0 e); [lia|]. destruct (Z.ltb_spec 0 (e + L)); [lia|].
    destruct (Z.eqb_spec L 0); [lia|]. cbn [negb andb orb]. rewrite orb_true_r. pose proof (sign_size_for negative).
    rewrite outputs_unsigned by lia. rewrite write_digits_text. cbn [mbind outcome_bind].
    rewrite padded_new by lia. by rewrite sign_chars_for.
  - split; [done|]. rewrite zeros_numeral. split.
    { rewrite size_app, size_cons, size_app, !size_natural_text, numeral_size. change (text_size 0) with 1. fold L. lia. }
    rewrite (natural_numeral s) by lia. fold L.
    assert (E : numeral (Z.to_nat (- (e + L))) 0 +:+ numeral (Z.to_nat L) s = numeral (Z.to_nat (- e)) s).
    { replace (Z.to_nat (- e)) with (Z.to_nat (- (e + L)) + Z.to_nat L)%nat by lia.
      rewrite numeral_app, Z2Nat.id, Z.div_small by (lia || (split; [lia|]; apply text_size_spec; lia)). done. }
    rewrite E, <- (append_nil_r (numeral _ _)), read_point by (done || lia). rewrite Z2Nat.id by lia. eexists _, _. split; [done|].
    replace (0 - - e) with e by lia. rewrite Z.mul_0_l, Z.add_0_l, Z.mod_small; [done|].
    split; [lia|]. eapply Z.lt_le_trans; [apply text_size_spec; lia|]. apply Z.pow_le_mono_r; fold L; lia.
Qed.

(** With an exponent *)
Lemma exponential_form :
  ∃ a rest, write_exponential s L (e + L - 1) negative =
            Ret ((if negative then "-" else "") +:+ (natural_text a +:+ rest)) ∧ denotes s e a rest.
Proof using Hs He.
  pose proof digits_17 as HL. destruct (exponent_reads (e + L - 1) ltac:(lia)) as (Hread & Hsize & r & Er).
  set (t := exponent_text (e + L - 1)) in *.
  assert (Hstop : stops t) by (rewrite Er; done). assert (Hdot : ∀ r, t ≠ String "." r) by (rewrite Er; done).
  unfold write_exponential. destruct (Z.eqb_spec L 1) as [E1|E1]; cbn [negb].
  - assert (Hs10 : 0 ≤ s < 10) by (split; [lia|]; pose proof (text_size_spec s ltac:(lia)) as H; fold L in H; rewrite E1 in H; lia).
    exists s, t. split.
    + cbn [mbind outcome_bind]. rewrite natural_text_small by done. f_equal. f_equal. unfold one_char, char_of, digit_char.
      rewrite Z.mod_small, Z2Nat.inj_add by lia. done.
    + split; [lia|]. rewrite size_app, size_natural_text. fold L. split; [lia|]. rewrite read_plain, Hread by (done || lia).
      eexists _, _. split; [done|]. replace (e + L - 1 - 0) with e by lia. reflexivity.
  - pose proof (text_size_shift s (L - 1) ltac:(lia) ltac:(fold L; lia)) as Hsh.
    replace (text_size s - (L - 1)) with 1 in Hsh by (fold L; lia). pose proof (div_pow10_range s (L - 1) ltac:(lia) ltac:(lia)).
    set (a := s / 10 ^ (L - 1)) in *. assert (Ha : 0 ≤ a < 10).
    { split; [lia|]. pose proof (text_size_spec a ltac:(lia)) as Ht. rewrite Hsh in Ht. lia. }
    assert (Es : natural_text s = String (digit_char a) (numeral (Z.to_nat (L - 1)) s)).
    { rewrite natural_numeral by lia. fold L. replace (Z.to_nat L) with (1 + Z.to_nat (L - 1))%nat by lia.
      rewrite numeral_app, Z2Nat.id by lia. fold a. cbn [numeral]. by rewrite Z.mod_small. }
    exists a, (String "." (numeral (Z.to_nat (L - 1)) s +:+ t)). split.
    + unfold format_decimal. rewrite do_format_decimal_text; [|lia|apply decimal_fuel; lia|fold L; lia]. cbn [mbind outcome_bind].
      rewrite append_nil_r, Es. cbn [point_after_first]. rewrite (natural_text_small a) by done. done.
    + split; [lia|]. split.
      { rewrite size_app, size_cons, size_app, size_natural_text, numeral_size, Hsh. lia. }
      rewrite read_point, Hread by (done || lia). rewrite Z2Nat.id by lia. eexists _, _. split; [done|].
      replace (e + L - 1 - (L - 1)) with e by lia. replace (a * 10 ^ (L - 1) + s mod 10 ^ (L - 1)) with s; [done|].
      subst a. rewrite (Z.div_mod s (10 ^ (L - 1))) at 1 by lia. lia.
Qed.

End writing.

(** ** Every double *)

Lemma nonfinite_exponent br : is_nonfinite br = (exponent_bits br =? 2047).
Proof.
  unfold is_nonfinite. apply Bool.eq_iff_eq_true. rewrite !Z.eqb_eq, <- to_decimal_exponent. split; [by intros ->|].
  intros H. assert (E : Z.shiftl (Z.shiftr (Z.land br exponent_mask) 52) 52 = exponent_mask) by (unfold num_significand_bits in H; by rewrite H).
  etransitivity; [|exact E]. apply Z.bits_inj'. intros n Hn. rewrite Z.shiftl_spec by done. destruct (Z.lt_ge_cases n 52).
  - rewrite (Z.testbit_neg_r _ (n - 52)), Z.land_spec by lia. replace exponent_mask with (Z.shiftl 2047 52) by done.
    rewrite (Z.shiftl_spec_low 2047) by lia. apply andb_false_r.
  - rewrite Z.shiftr_spec by lia. f_equal. lia.
Qed.

(** The value of a finite double. *)
Definition double_value (br : Z) : Q := if signbit br then (- magnitude br)%Q else magnitude br.

(** A finite double that has the decimal [d]. *)
Lemma finite_double_text br d :
  is_nonfinite br = false → to_decimal br = Ret d → 0 ≤ d.(significand) < 10 ^ 17 → -324 ≤ d.(exponent) ≤ 308 →
  ∃ a rest, write_default_double br = Ret ((if signbit br then "-" else "") +:+ (natural_text a +:+ rest)) ∧
    denotes d.(significand) d.(exponent) a rest.
Proof.
  intros Hf Ed Hs He. unfold write_default_double. rewrite Hf, Ed. cbn [mbind outcome_bind]. fold (sign_for (signbit br)).
  unfold count_digits_uint64. rewrite w64_small, count_digits64 by lia. pose proof (digits_17 d Hs) as HL.
  unfold use_fixed, exp_upper. destruct (Z.leb_spec (-4) (exponent d + text_size (significand d) - 1)),
    (Z.ltb_spec (exponent d + text_size (significand d) - 1) 16); cbn [andb]; try by apply exponential_form.
  destruct (Z.le_gt_cases 0 (exponent d)); [eexists _, _; apply fixed_integer; (done || lia)|].
  destruct (Z.le_gt_cases (exponent d + text_size (significand d)) 0);
    eexists _, _; [apply fixed_fraction|apply fixed_point]; (done || lia).
Qed.

Lemma half_ulp_slack br : (0 <= half_ulp br * slack br)%Q.
Proof.
  apply Qmult_le_0_compat; [apply Qlt_le_weak, pow2_pos|]. unfold slack. by destruct (_ && _).
Qed.

Lemma Qabs_signed (negative : bool) v w u x :
  (v == u)%Q → (Qabs (u - w) <= x)%Q →
  (Qabs ((if negative then - v else v) - (if negative then - w else w)) <= x)%Q.
Proof.
  intros E H. destruct negative; [|by rewrite E]. rewrite E. assert (E' : (- u - - w == - (u - w))%Q) by ring.
  by rewrite E', Qabs_opp.
Qed.

Lemma finite_text_reads br d :
  is_nonfinite br = false → to_decimal br = Ret d → 0 ≤ d.(significand) < 10 ^ 17 → -324 ≤ d.(exponent) ≤ 308 →
  (Qabs (inject_Z d.(significand) * pow10 d.(exponent) - magnitude br) <= half_ulp br * slack br)%Q →
  ∃ text, write_default_double br = Ret text ∧ size text ≤ 24 ∧
    ∃ v, read_number text = Some v ∧ (Qabs (v - double_value br) <= half_ulp br * slack br)%Q.
Proof.
  intros Hf Ed Hs He Hv. destruct (finite_double_text br d Hf Ed Hs He) as (a & rest & Ew & Ha & Hsz & m & k & Er & Ev).
  eexists. split; [exact Ew|]. split.
  { rewrite size_app. assert (size (if signbit br then "-" else "") ≤ 1) by by destruct (signbit br). lia. }
  eexists. split; [by apply (read_signed (signbit br) a rest m k)|]. unfold double_value. by eapply Qabs_signed.
Qed.

(** C38. What [write(out, value)] writes for a double, whatever its bits: for an
    infinity or what is not a number its name, and for a finite double a text of
    at most 24 characters that is read as a number within half a unit in the
    last place of the double, times one plus [2 ^ -60] or, for a power of two,
    257/256. *)
Theorem double_text_accurate br :
  ∃ text, write_default_double br = Ret text ∧
    if is_nonfinite br
    then text = (if signbit br then "-" else "") +:+ (if isnan br then "nan" else "inf")
    else size text ≤ 24 ∧
      ∃ v, read_number text = Some v ∧ (Qabs (v - double_value br) <= half_ulp br * slack br)%Q.
Proof.
  destruct (is_nonfinite br) eqn:Hf.
  - unfold write_default_double. rewrite Hf. eexists. split; [|reflexivity].
    by destruct (isnan br), (signbit br).
  - pose proof (nonfinite_exponent br) as Hb. rewrite Hf in Hb. symmetry in Hb. apply Z.eqb_neq in Hb.
    destruct (Z.eq_dec (mantissa br) 0) as [E|E].
    + apply (finite_text_reads br _ Hf (to_decimal_zero br E)); [done..|]. cbn [significand exponent].
      unfold magnitude. rewrite E, !Qmult_0_l. apply half_ulp_slack.
    + destruct (shortest_decimal_accurate br Hb E) as (d & Ed & Hs & He & Hv).
      apply (finite_text_reads br d); try done; lia.
Qed.

(** A third, the largest double, a power of ten and the least double, with their texts. *)
Lemma double_text_examples :
  write_default_double 0x3fd5555555555555 = Ret "0.3333333333333333"%string ∧
  write_default_double 0x7fefffffffffffff = Ret "1.7976931348623157e+308"%string ∧
  write_default_double 0xc0c3880000000000 = Ret "-10000"%string ∧
  write_default_double 1 = Ret "5e-324"%string ∧
  write_default_double 0xfff0000000000000 = Ret "-inf"%string.
Proof. vm_compute. auto. Qed.
