(* ===== verification/FmtFormat.v ===== *)
(** * spdlog/fmt/bundled: format strings, formatting and the check at compile time

    [parse_format_string] calls a handler for the text and the replacement
    fields of a format string. [format_handler] formats; [format_string_checker]
    is the handler the compiler runs over the literals of the program (it is
    C++20, where the constructor of [format_string] is [consteval]): it only
    sees the types of the arguments. What the checker accepts, the formatter
    formats, but for what depends on values. *)
From Stdlib Require Import Ascii.
From S2P Require Import Prelude Numerals FmtInt FmtSpecs FmtParse FmtUnicode FmtWrite FmtFloat.

(** ** Format strings *)

(** What [parse_format_string] needs of its handler. *)
Record handler (S : Type) := {
  on_text : string → M S unit;
  on_arg_id : M S Z;
  on_arg_index : Z → M S Z;
  on_arg_name : string → M S Z;
  on_replacement_field : Z → string → M S unit;
  on_format_specs : Z → string → M S string
}.
Arguments on_text {S}.
Arguments on_arg_id {S}.
Arguments on_arg_index {S}.
Arguments on_arg_name {S}.
Arguments on_replacement_field {S}.
Arguments on_format_specs {S}.

Section parsing.
Context {S : Type} (h : handler S).

(** What follows the ':' of a field. *)
Definition field_specs (arg_id : Z) (begin : string) : M S string :=
  begin ← next begin;
  begin ← h.(on_format_specs) arg_id begin;
  match begin with
  | String "}" r => mret r
  | _ => report_error "unknown format specifier"
  end.

Definition parse_replacement_field (begin : string) : M S string :=
  begin ← next begin;
  match begin with
  | EmptyString => report_error "invalid format string"
  | String c r =>
      if Ascii.eqb c "}" then
        id ← h.(on_arg_id);
        _ ← h.(on_replacement_field) id begin;
        mret r
      else if Ascii.eqb c "{" then
        _ ← h.(on_text) (text_range begin r);
        mret r
      else if Ascii.eqb c ":" then
        arg_id ← h.(on_arg_id);
        field_specs arg_id begin
      else
        '(arg_id, begin) ← parse_arg_id h.(on_arg_index) h.(on_arg_name) begin;
        match begin with
        | String c r =>
            if Ascii.eqb c "}" then
              _ ← h.(on_replacement_field) arg_id begin;
              mret r
            else if negb (Ascii.eqb c ":") then report_error "missing '}' in format string"
            else field_specs arg_id begin
        | EmptyString => report_error "missing '}' in format string"
        end
  end.

(** The loop of [parse_format_string]; [fuel]: the length of the rest. *)
Fixpoint format_loop (fuel : nat) (begin p : string) : M S unit :=
  match p with
  | EmptyString => h.(on_text) (text_range begin p)
  | String c p' =>
      match fuel with
      | O => crash (undefined_behaviour "out of fuel")
      | Datatypes.S fuel =>
          if Ascii.eqb c "{" then
            _ ← h.(on_text) (text_range begin p);
            begin ← parse_replacement_field p;
            format_loop fuel begin begin
          else if Ascii.eqb c "}" then
            match p' with
            | String "}" r =>
                _ ← h.(on_text) (text_range begin p');
                format_loop fuel r r
            | _ => report_error "unmatched '}' in format string"
            end
          else format_loop fuel begin p'
      end
  end.

Definition parse_format_string (fmt : string) : M S unit := format_loop (String.length fmt) fmt fmt.

End parsing.

(** ** Arguments *)

(** [basic_format_arg] of the types this library models; [arg_none] has
    [none_type]. A C string is its address and its text, a double its bits. *)
Inductive format_arg :=
  | arg_none
  | arg_int (v : Z) | arg_uint (v : Z) | arg_long_long (v : Z) | arg_ulong_long (v : Z)
  | arg_bool (v : bool) | arg_char (v : ascii)
  | arg_cstring (address : Z) (v : string) | arg_string (v : string) | arg_pointer (v : Z)
  | arg_double (br : Z).

Definition type_of_arg (a : format_arg) : arg_type :=
  match a with
  | arg_none => none_type | arg_int _ => int_type | arg_uint _ => uint_type | arg_long_long _ => long_long_type
  | arg_ulong_long _ => ulong_long_type | arg_bool _ => bool_type | arg_char _ => char_type
  | arg_cstring _ _ => cstring_type | arg_string _ => string_type | arg_pointer _ => pointer_type
  | arg_double _ => double_type
  end.

(** [basic_format_args::get(id)]: up to [max_packed_args] arguments have their
    types in the descriptor; more are in an array. *)
Definition max_packed_args : Z := 15.

Definition get (args : list format_arg) (id : Z) : outcome format_arg :=
  if Z.of_nat (length args) <=? max_packed_args then
    if max_packed_args <=? w32 id then Ret arg_none else Ret (nth (Z.to_nat id) args arg_none)
  else if id <? Z.of_nat (length args) then
    if id <? 0 then Crash (undefined_behaviour "index out of bounds") else Ret (nth (Z.to_nat id) args arg_none)
  else Ret arg_none.

(** [get_id(name)]: the program's calls have no named arguments. *)
Definition get_id (name : string) : Z := -1.
Definition get_named (name : string) : format_arg := arg_none.

(** [default_arg_formatter] *)
Definition default_arg_formatter (a : format_arg) : writer :=
  match a with
  | arg_none => Throw (runtime_error "argument not found")
  | arg_int v | arg_uint v => write_default_integer 32 v
  | arg_long_long v | arg_ulong_long v => write_default_integer 64 v
  | arg_bool v => write_bytes align_left (if v then "true" else "false") format_specs_new
  | arg_char v => Ret (one_char v)
  | arg_cstring address v => write_default_cstring address v
  | arg_string v => Ret v
  | arg_pointer v => write_ptr v (Some format_specs_new)
  | arg_double br => write_default_double br
  end.

Section formatting.
Context {L : GlobalLocale}.

(** [arg_formatter] *)
Definition arg_formatter (specs : format_specs) (a : format_arg) : writer :=
  match a with
  | arg_none => Crash (terminate "fmt's assertion")
  | arg_int v | arg_uint v => write_integer 32 v specs
  | arg_long_long v | arg_ulong_long v => write_integer 64 v specs
  | arg_bool v => write_bool v specs
  | arg_char v => write_character v specs
  | arg_cstring address v => write_cstring address v specs
  | arg_string v => write_string v specs
  | arg_pointer v => write_ptr v (Some specs)
  | arg_double br => write_double br specs
  end.

(** [dynamic_spec_getter] *)
Definition dynamic_spec_getter (a : format_arg) : outcome Z :=
  match a with
  | arg_int v | arg_uint v | arg_long_long v | arg_ulong_long v => Ret (if v <? 0 then 2 ^ 64 - 1 else v)
  | _ => Throw (runtime_error "width/precision is not integer")
  end.

Definition handle_dynamic_spec (args : list format_arg) (kind : arg_id_kind) (value : Z) (ref : arg_ref) : outcome Z :=
  match kind with
  | kind_none => Ret value
  | _ =>
      arg ← match ref with ref_index i => get args i | ref_name n => Ret (get_named n) end;
      if bool_decide (type_of_arg arg = none_type) then Throw (runtime_error "argument not found")
      else
        result ← dynamic_spec_getter arg;
        if INT_MAX <? result then Throw (runtime_error "width/precision is out of range") else Ret result
  end.

(** ** [format_handler] *)

(** [parse_ctx]: its [next_arg_id_]; [out]: what was written. *)
Record format_state := { parse_ctx : Z; out : string }.

Definition on_context {A} : M Z A → M format_state A := zoom parse_ctx (λ n s, {| parse_ctx := n; out := s.(out) |}).
Definition write_out (text : string) : M format_state unit :=
  modify (λ s, {| parse_ctx := s.(parse_ctx); out := s.(out) +:+ text |}).

Definition with_dynamic (args : list format_arg) (specs : format_specs) : outcome format_specs :=
  if dynamic specs then
    w ← handle_dynamic_spec args (dynamic_width specs) specs.(width) specs.(width_ref);
    let specs := set_width w specs.(width_ref) specs in
    p ← handle_dynamic_spec args (dynamic_precision specs) specs.(precision) specs.(precision_ref);
    Ret (set_precision p specs.(precision_ref) specs)
  else Ret specs.

Definition format_specs_of (args : list format_arg) (id : Z) (begin : string) : M format_state string :=
  arg ← lift (get args id);
  if bool_decide (type_of_arg arg = none_type) then report_error "argument not found"
  else
    '(begin, specs) ← on_context (parse_format_specs None begin format_specs_new (type_of_arg arg));
    specs ← lift (with_dynamic args specs);
    text ← lift (arg_formatter specs arg);
    _ ← write_out text;
    mret begin.

Definition format_handler (args : list format_arg) : handler format_state := {|
  on_text := write_out;
  on_arg_id := on_context (next_arg_id None);
  on_arg_index := λ id, _ ← on_context (check_arg_id None id); mret id;
  on_arg_name := λ id,
    _ ← on_context (check_arg_name id);
    let arg_id := get_id id in
    if arg_id <? 0 then report_error "argument not found" else mret arg_id;
  on_replacement_field := λ id _,
    arg ← lift (get args id);
    text ← lift (default_arg_formatter arg);
    write_out text;
  on_format_specs := format_specs_of args
|}.

(** [vformat_to(buf, fmt, args)]: what it appends to the buffer. *)
Definition vformat_to (fmt : string) (args : list format_arg) : M format_state unit :=
  if String.eqb fmt "{}" then
    arg ← lift (get args 0);
    text ← lift (default_arg_formatter arg);
    write_out text
  else parse_format_string (format_handler args) fmt.

Definition format (fmt : string) (args : list format_arg) : outcome string :=
  match vformat_to fmt args {| parse_ctx := 0; out := EmptyString |} with
  | (Ret _, s) => Ret s.(out)
  | (Throw e, _) => Throw e
  | (Crash f, _) => Crash f
  end.

End formatting.

(** ** [format_string_checker] *)

Section checker.
Context (types : list arg_type) (cast : bool).

Definition context_ : compile_context :=
  {| num_args_ := Z.of_nat (length types); types_ := types; use_constexpr_cast := cast |}.

(** [compile_parse_context::next_arg_id] and [check_arg_id] *)
Definition compile_next_arg_id : M Z Z :=
  id ← next_arg_id (Some context_);
  if context_.(num_args_) <=? id then report_error "argument not found" else mret id.
Definition compile_check_arg_id (id : Z) : M Z unit :=
  _ ← check_arg_id (Some context_) id;
  if context_.(num_args_) <=? id then report_error "argument not found" else mret tt.

(** [native_formatter::parse] for the type [t] *)
Definition native_parse (t : arg_type) (begin : string) : M Z string :=
  if match begin with EmptyString => true | String c _ => Ascii.eqb c "}" end then mret begin
  else
    '(end_, specs) ← parse_format_specs (Some context_) begin format_specs_new t;
    _ ← (if bool_decide (t = char_type) then _ ← check_char_specs specs; mret tt else mret tt);
    mret end_.

(** The specifications of an argument of unknown type are skipped. *)
Fixpoint skip_specs (begin : string) (bracket_count : Z) : string :=
  match begin with
  | EmptyString => begin
  | String c r =>
      if (0 <? bracket_count) || negb (Ascii.eqb c "}") then
        skip_specs r (if Ascii.eqb c "{" then bracket_count + 1
                      else if Ascii.eqb c "}" then bracket_count - 1 else bracket_count)
      else begin
  end.

Definition check_specs (id : Z) (begin : string) : M Z string :=
  if (0 <=? id) && (id <? Z.of_nat (length types)) then native_parse (type_at context_ id) begin
  else mret (skip_specs begin 0).

(** [parse()] on what follows the number of a field without specifications. *)
Definition check_field (id : Z) (begin : string) : M Z unit :=
  if (0 <=? id) && (id <? Z.of_nat (length types)) then _ ← native_parse (type_at context_ id) begin; mret tt
  else mret tt.

(** Without named arguments. *)
Definition format_string_checker : handler Z := {|
  on_text := λ _, mret tt;
  on_arg_id := compile_next_arg_id;
  on_arg_index := λ id, _ ← compile_check_arg_id id; mret id;
  on_arg_name := λ _, report_error "argument not found";
  on_replacement_field := check_field;
  on_format_specs := check_specs
|}.

(** The constructor of [fstring]: an error is one of compilation. *)
Definition checked (fmt : string) : bool :=
  match parse_format_string format_string_checker fmt 0 with
  | (Ret _, _) => true
  | _ => false
  end.

End checker.
