(* ===== verification/FmtCheck.v ===== *)
(** * What the check of format strings at compile time guarantees

    Formatting never leaves defined behaviour, for any format string. A string
    that [format_string_checker] accepts for the types of the arguments is
    formatted, but for four errors that depend on values or names. *)
From Stdlib Require Import Ascii.
From S2P Require Import Prelude Numerals FmtInt FmtSpecs FmtParse FmtUnicode FmtWrite FmtFormat.

(** ** Arguments *)

(** A value of its type, other than a double. *)
Definition arg_ok (a : format_arg) : Prop :=
  match a with
  | arg_none | arg_double _ => False
  | arg_int v => - 2 ^ 31 ≤ v < 2 ^ 31
  | arg_uint v => 0 ≤ v < 2 ^ 32
  | arg_long_long v => - 2 ^ 63 ≤ v < 2 ^ 63
  | arg_ulong_long v => 0 ≤ v < 2 ^ 64
  | arg_cstring address _ => 0 ≤ address < 2 ^ 64
  | arg_pointer v => 0 ≤ v < 2 ^ 64
  | _ => True
  end.

Definition all_args (P : format_arg → Prop) (args : list format_arg) : Prop :=
  Forall P args ∧ Z.of_nat (length args) ≤ INT_MAX.
Definition args_ok : list format_arg → Prop := all_args arg_ok.

Definition is_null (a : format_arg) : Prop := match a with arg_cstring address _ => address = 0 | _ => False end.

Lemma arg_ok_type a : arg_ok a → type_of_arg a ≠ none_type.
Proof. by destruct a. Qed.

Lemma get_in P args id : all_args P args → 0 ≤ id < Z.of_nat (length args) →
  ∃ a, get args id = Ret a ∧ args !! Z.to_nat id = Some a ∧ P a.
Proof.
  intros [Hargs Hl] Hid. destruct (lookup_lt_is_Some_2 args (Z.to_nat id)) as [a Ha]; [lia|].
  exists a. split_and!; [|done|by eapply Forall_lookup_1].
  unfold get. rewrite (nth_lookup_Some _ _ _ _ Ha). unfold max_packed_args, INT_MAX in *. rewrite w32_small by lia.
  destruct (Z.leb_spec (Z.of_nat (length args)) 15); [by rewrite (proj2 (Z.leb_gt 15 id)) by lia|].
  by rewrite (proj2 (Z.ltb_lt id _)), (proj2 (Z.ltb_ge id 0)) by lia.
Qed.

Lemma get_out args id : args_ok args → Z.of_nat (length args) ≤ id ≤ INT_MAX → get args id = Ret arg_none.
Proof.
  intros [_ Hl] Hid. unfold get, max_packed_args, INT_MAX in *. rewrite w32_small by lia.
  rewrite nth_overflow by lia. rewrite (proj2 (Z.ltb_ge id _)) by lia. by destruct (_ <=? 15), (15 <=? id).
Qed.

Lemma get_cases args id : args_ok args → 0 ≤ id ≤ INT_MAX →
  get args id = Ret arg_none ∨ ∃ a, get args id = Ret a ∧ a ∈ args ∧ arg_ok a.
Proof.
  intros Ha Hid. destruct (decide (id < Z.of_nat (length args))).
  - right. destruct (get_in arg_ok args id Ha ltac:(lia)) as (a & ? & ? & ?). exists a. split_and!; [done| |done].
    by eapply list_elem_of_lookup_2.
  - left. apply get_out; [done|lia].
Qed.

(** ** Formatting one argument *)

Lemma default_returns a : arg_ok a →
  (∃ text, default_arg_formatter a = Ret text) ∨
  (default_arg_formatter a = Throw (runtime_error "string pointer is null") ∧ is_null a).
Proof.
  intros Ha. destruct a as [|v|v|v|v|v|v|address v|v|v|br]; cbn [arg_ok default_arg_formatter] in *.
  - done.
  - rewrite default_integer_text by (lia || by left). eauto.
  - rewrite default_integer_text by (lia || by left). eauto.
  - rewrite default_integer_text by (lia || by right). eauto.
  - rewrite default_integer_text by (lia || by right). eauto.
  - left. unfold write_bytes, write_padded. cbn. eauto.
  - eauto.
  - unfold write_default_cstring. destruct (Z.eqb_spec address 0); [right|left]; cbn; eauto.
  - eauto.
  - left. pose proof (outputs_ptr v (Some format_specs_new) Ha ltac:(by intros ? [= <-])) as H.
    unfold write_ptr in *. destruct (format_base2e_returns 4 v false ltac:(lia) Ha) as (t & Et & _). rewrite Et in *.
    cbn [mbind outcome_bind] in *. unfold write_padded. rewrite outputs_unsigned by done. cbn [mbind outcome_bind]. eauto.
  - done.
Qed.

Section formatting.
Context {L : GlobalLocale}.

Lemma int_types_ok a : 
  match type_of_arg a with int_type | uint_type | long_long_type | ulong_long_type => True | _ => False end →
  ∀ t, t ∈ allowed_types (type_of_arg a) → int_type_ok t.
Proof.
  intros Ha t Ht. assert (Hl : allowed_types (type_of_arg a) = [0; 3; 4; 5; 6; 7]) by (by destruct a). rewrite Hl in Ht.
  unfold int_type_ok, pres_none, pres_dec, pres_hex, pres_oct, pres_bin, pres_chr. exact Ht.
Qed.

(** What the check of a [char] says about any argument. *)
Definition specs_check (a : format_arg) (specs : format_specs) : outcome bool :=
  match a with arg_char _ => char_check specs | _ => Ret true end.

Lemma arg_written specs a :
  arg_ok a → 0 ≤ specs.(width) → get_type specs ∈ allowed_types (type_of_arg a) →
  outputs (arg_formatter specs a) ∨
  (arg_formatter specs a = Throw (runtime_error "string pointer is null") ∧ is_null a) ∨
  (∃ e, specs_check a specs = Throw e ∧ arg_formatter specs a = Throw e ∧ format_error e).
Proof.
  intros Ha Hw Ht. destruct a as [|v|v|v|v|v|v|address v|v|v|br]; cbn [arg_ok arg_formatter specs_check is_null] in *; [done|..].
  - left. apply outputs_integer; [by left|done|by apply (int_types_ok (arg_int v))].
  - left. apply outputs_integer; [by left|done|by apply (int_types_ok (arg_uint v))].
  - left. apply outputs_integer; [by right|done|by apply (int_types_ok (arg_long_long v))].
  - left. apply outputs_integer; [by right|done|by apply (int_types_ok (arg_ulong_long v))].
  - left. by apply outputs_bool.
  - pose proof (character_written v specs Hw Ht) as H. pose proof (char_check_error specs) as He.
    destruct (char_check specs) as [b|e|f]; [by left| |done]. right. right. by exists e.
  - destruct (cstring_written address v specs Ha Hw) as [?|?]; auto.
  - left. by apply outputs_string.
  - left. apply outputs_ptr; [done|]. by intros ? [= <-].
  - done.
Qed.

(** ** Any format string *)

Lemma dynamic_writes args kind value ref k fmt :
  args_ok args → ref_ok k fmt kind ref →
  match handle_dynamic_spec args kind value ref with
  | Ret v => v = value ∨ 0 ≤ v ≤ INT_MAX
  | Throw e => format_error e
  | Crash _ => False
  end.
Proof.
  intros Ha Hr. destruct kind; cbn [handle_dynamic_spec]; [by left| |].
  - destruct ref as [i|]; [|done]. destruct Hr as [Hi _].
    destruct (get_cases args i Ha Hi) as [->|(a & -> & _ & Hok)]; cbn [mbind outcome_bind]; [by eexists|].
    destruct (bool_decide _); [by eexists|]. destruct a; cbn in *; try by eexists.
    all: destruct (Z.ltb_spec INT_MAX (if v <? 0 then 2 ^ 64 - 1 else v)); [by eexists|]; right;
      destruct (Z.ltb_spec v 0); unfold INT_MAX in *; lia.
  - destruct ref; [done|]. by eexists.
Qed.

Lemma data_type s s' : s'.(data_) = s.(data_) → get_type s' = get_type s.
Proof. intros H. unfold get_type, get_field. by rewrite H. Qed.

Lemma with_dynamic_writes args specs k fmt :
  args_ok args → specs_ok k fmt specs →
  match with_dynamic args specs with
  | Ret s => 0 ≤ s.(width) ∧ s.(data_) = specs.(data_)
  | Throw e => format_error e
  | Crash _ => False
  end.
Proof.
  intros Ha [Hw Hp Hwr Hpr]. unfold with_dynamic. destruct (dynamic specs); [|split; [lia|done]].
  pose proof (dynamic_writes args _ specs.(width) _ _ _ Ha Hwr) as H1.
  destruct (handle_dynamic_spec args (dynamic_width specs) _ _) as [w|e|f]; cbn [mbind outcome_bind]; [|done..].
  pose proof (dynamic_writes args _ specs.(precision) _ _ _ Ha Hpr) as H2.
  change (dynamic_precision (set_width w (width_ref specs) specs)) with (dynamic_precision specs).
  change (precision (set_width w (width_ref specs) specs)) with (precision specs).
  change (precision_ref (set_width w (width_ref specs) specs)) with (precision_ref specs).
  destruct (handle_dynamic_spec args (dynamic_precision specs) _ _) as [p|e|f]; cbn; [|done..].
  split; [|done]. destruct H1 as [->|]; lia.
Qed.
End formatting.

(** ** Handlers

    What a handler promises, [ctx] being the counter of arguments in its state:
    it returns or reports a format error, and a field's specifications are read
    from where they begin. *)
Record handler_ok {S} (h : handler S) (ctx : S → Z) (fmt : string) (valid : Z → Prop) : Prop := {
  text_ok t s : wp_format (h.(on_text) t) (λ _ s', ctx s' = ctx s) s;
  id_ok s n : -1 ≤ ctx s → ctx s + n ≤ INT_MAX → 1 ≤ n →
    wp_format h.(on_arg_id) (λ i s', valid i ∧ -1 ≤ ctx s' ≤ ctx s + 1) s;
  index_ok_ i s : 0 ≤ i ≤ INT_MAX → wp_format (h.(on_arg_index) i) (λ j s', valid j ∧ ctx s' = -1) s;
  name_ok n s : wp_format (h.(on_arg_name) n) (λ j s', valid j ∧ ctx s' = -1) s;
  field_ok i b s : valid i → wp_format (h.(on_replacement_field) i (String "}" b)) (λ _ s', ctx s' = ctx s) s;
  specs_ok_ i b s : valid i → room fmt b (ctx s) →
    wp_format (h.(on_format_specs) i b) (λ b' s', moves b (ctx s) b' (ctx s')) s
}.

Section handlers.
Context {S : Type} (h : handler S) (ctx : S → Z) (fmt : string) (valid : Z → Prop) (Hh : handler_ok h ctx fmt valid).

(** A pointer after the field that [b] is the inside of, and the counter. *)
Definition after_field (b : string) (n : Z) (b' : string) (s : S) : Prop :=
  suffix b' b ∧ -1 ≤ ctx s ∧ ctx s + size b' ≤ n + size b + 1.

Lemma after_room b b' n s :
  room fmt (String "{" b) n → after_field b n b' s → moves (String "{" b) n b' (ctx s) ∧ room fmt b' (ctx s).
Proof using.
  intros (? & Hr & ?) (Hb & Hn' & Hs). rewrite size_cons in Hr.
  assert (moves (String "{" b) n b' (ctx s)) by (split_and!; [done|auto with specs|rewrite size_cons; lia]).
  split; [done|]. eapply moves_room; [|done]. split_and!; [done|rewrite size_cons; lia|done].
Qed.

Lemma wp_field_specs b n i b' s :
  valid i → room fmt (String "{" b) n → after_field b n (String ":" b') s →
  wp_format (field_specs h i (String ":" b')) (after_field b n) s.
Proof using Hh.
  intros Hi Hr Ha. destruct (after_room _ _ _ _ Hr Ha) as [_ Hr']. pose proof (moves_next _ _ _ _ Hr') as Hm.
  unfold field_specs. wp_step. wp_step. wp_step.
  eapply wp_call; [by apply Hh; [|eapply moves_room]|]. intros b2 s' (? & ? & ?).
  repeat match goal with |- context [match ?x with _ => _ end] => destruct x end; try wp_step.
  destruct Ha as (Hb & Hn & Hs). rewrite size_cons in *. split_and!; [|done|lia].
  eapply suffix_trans; [apply suffix_next|]. eapply suffix_trans; [eassumption|]. eapply suffix_trans; [apply suffix_next|done].
Qed.

(** What follows the number or name of a field. *)
Lemma wp_field_end b n i b' s :
  valid i → room fmt (String "{" b) n → after_field b n b' s →
  wp_format (match b' with
             | String c r =>
                 if Ascii.eqb c "}" then _ ← h.(on_replacement_field) i b'; mret r
                 else if negb (Ascii.eqb c ":") then report_error "missing '}' in format string"
                 else field_specs h i b'
             | EmptyString => report_error "missing '}' in format string"
             end) (after_field b n) s.
Proof using Hh.
  intros Hi Hr Ha. destruct b' as [|c r]; [wp_step|]. destruct (Ascii.eqb_spec c "}") as [->|].
  - wp_step. eapply wp_call; [by apply Hh|]. intros [] s' Hs'. wp_step. destruct Ha as (? & ? & ?).
    rewrite size_cons in *. split_and!; [eapply suffix_trans; [apply suffix_next|done]|lia..].
  - destruct (Ascii.eqb_spec c ":") as [->|]; cbn [negb]; [|wp_step]. by apply wp_field_specs.
Qed.

Lemma wp_parse_field b s :
  room fmt (String "{" b) (ctx s) →
  wp_format (parse_replacement_field h (String "{" b)) (after_field b (ctx s)) s.
Proof using Hh.
  intros Hr. pose proof (λ b' s', after_room b b' (ctx s) s' Hr) as Hafter. unfold parse_replacement_field.
  wp_step. wp_step. destruct b as [|c r]; [wp_step|]. pose proof Hr as (Hn & Hb & Hfmt).
  rewrite !size_cons in Hb. pose proof (size_nonneg r).
  destruct (Ascii.eqb_spec c "}") as [->|].
  { wp_step. eapply wp_call; [apply Hh with (n := size r + 1); lia|]. intros i s' [Hi Hs']. wp_step.
    eapply wp_call; [by apply Hh|]. intros [] s'' Hs''. wp_step. split_and!; [apply suffix_next|lia|rewrite size_cons; lia]. }
  destruct (Ascii.eqb c "{").
  { wp_step. eapply wp_call; [by apply Hh|]. intros [] s' Hs'. wp_step.
    split_and!; [apply suffix_next|lia|rewrite size_cons; lia]. }
  destruct (Ascii.eqb_spec c ":") as [->|].
  { wp_step. eapply wp_call; [apply Hh with (n := size r + 1); lia|]. intros i s' [Hi Hs'].
    apply wp_field_specs; [done|done|]. split_and!; [apply suffix_refl|lia|lia]. }
  assert (Ha : ∀ b' s', suffix b' r → ctx s' = -1 → after_field (String c r) (ctx s) b' s').
  { intros b' s' Hb' Hs'. pose proof (suffix_size _ _ Hb'). split_and!; [by apply suffix_cons|lia|rewrite size_cons; lia]. }
  wp_step. apply wp_parse_arg_id.
  - intros i b' Hi Hb'. eapply wp_call; [by apply Hh|]. intros j s' [Hj Hs']. apply wp_field_end; auto.
  - intros name b' _ Hb'. eapply wp_call; [by apply Hh|]. intros j s' [Hj Hs']. apply wp_field_end; auto.
Qed.

Lemma wp_format_loop fuel begin p s :
  (String.length p ≤ fuel)%nat → room fmt p (ctx s) → wp_format (format_loop h fuel begin p) (λ _ _, True) s.
Proof using Hh.
  revert begin p s. induction fuel as [|fuel IH]; intros begin p s Hf Hr; cbn [format_loop].
  { destruct p; [|cbn in Hf; lia]. eapply wp_call; [by apply Hh|done]. }
  destruct p as [|c p]; [eapply wp_call; [by apply Hh|done]|]. cbn [String.length] in Hf.
  assert (Hp : room fmt p (ctx s)) by (eapply moves_room; [done|by eapply moves_next]).
  destruct (Ascii.eqb_spec c "{") as [->|].
  { wp_step. eapply wp_call; [by apply Hh|]. intros [] s' Hs'. wp_step. rewrite <- Hs' in Hr.
    eapply wp_call; [by apply wp_parse_field|]. intros b' s'' Ha. destruct (after_room _ _ _ _ Hr Ha) as [_ Hr'].
    apply IH; [|done]. destruct Ha as (Hb & _). apply suffix_size in Hb. unfold size in Hb. lia. }
  destruct (Ascii.eqb_spec c "}") as [->|]; [|apply IH; [lia|done]].
  repeat match goal with |- context [match ?x with _ => _ end] => destruct x end; try wp_step.
  eapply wp_call; [by apply Hh|]. intros [] s' Hs'. apply IH; [cbn [String.length] in Hf; lia|].
  rewrite Hs'. eapply moves_room; [exact Hp|]. by eapply moves_next.
Qed.

Lemma wp_parse_format_string s :
  ctx s = 0 → size fmt ≤ INT_MAX → wp_format (parse_format_string h fmt) (λ _ _, True) s.
Proof using Hh.
  intros Hs Hf. apply wp_format_loop; [done|]. split_and!; [lia|lia|apply suffix_refl].
Qed.

End handlers.

Section formatter.
Context {L : GlobalLocale} (args : list format_arg) (Hargs : args_ok args).

Lemma wp_on_context {A} (m : M Z A) (P : A → Z → Prop) (Q : A → format_state → Prop) s :
  wp_format m P s.(parse_ctx) → (∀ a s', P a s'.(parse_ctx) → s'.(out) = s.(out) → Q a s') →
  wp_format (on_context m) Q s.
Proof using.
  intros Hm HQ. apply wp_zoom. eapply wp_mono; [exact Hm| |done]. intros a n HP. by apply HQ.
Qed.

Lemma wp_lift {S A} (o : outcome A) (Q : A → S → Prop) s :
  match o with Ret a => Q a s | Throw e => format_error e | Crash _ => False end → wp_format (lift o) Q s.
Proof using. by destruct o. Qed.

Lemma wp_write_out text (Q : unit → format_state → Prop) s :
  (∀ s', s'.(parse_ctx) = s.(parse_ctx) → Q tt s') → wp_format (write_out text) Q s.
Proof using. intros HQ. apply wp_modify. by apply HQ. Qed.

Lemma wp_format_specs fmt i b s :
  0 ≤ i ≤ INT_MAX → room fmt b s.(parse_ctx) →
  wp_format (format_specs_of args i b) (λ b' s', moves b s.(parse_ctx) b' s'.(parse_ctx)) s.
Proof using Hargs.
  intros Hi Hr. unfold format_specs_of. wp_step. apply wp_lift.
  destruct (get_cases args i Hargs Hi) as [->|(a & -> & _ & Ha)]; [apply wp_report|].
  rewrite bool_decide_eq_false_2 by (by apply arg_ok_type). wp_step.
  eapply wp_on_context; [by apply (wp_parse_format_specs None fmt)|].
  intros [b' specs] s' (Hs & Ht & Hm) _. wp_step. apply wp_lift.
  pose proof (with_dynamic_writes args specs None fmt Hargs Hs) as Hd.
  destruct (with_dynamic args specs) as [specs'|e|f]; [|done..]. destruct Hd as [Hw Hd].
  wp_step. apply wp_lift. rewrite <- (data_type _ _ Hd) in Ht.
  destruct (arg_written specs' a Ha Hw Ht) as [Hf|[[-> _]|(e & _ & -> & He)]]; [|by eexists|done].
  destruct (arg_formatter specs' a); [|done..]. wp_step. apply wp_write_out. intros s'' Hs''. wp_step. by rewrite Hs''.
Qed.

Lemma wp_field i s (Q : unit → format_state → Prop) :
  0 ≤ i ≤ INT_MAX → (∀ s', s'.(parse_ctx) = s.(parse_ctx) → Q tt s') →
  wp_format (arg ← lift (get args i); text ← lift (default_arg_formatter arg); write_out text) Q s.
Proof using Hargs.
  intros Hi HQ. wp_step. apply wp_lift. destruct (get_cases args i Hargs Hi) as [->|(a & -> & _ & Ha)].
  - wp_step. apply wp_lift. by eexists.
  - wp_step. apply wp_lift. destruct (default_returns a Ha) as [[t ->]|[-> _]]; [by apply wp_write_out|by eexists].
Qed.

Lemma format_handler_ok fmt : handler_ok (format_handler args) parse_ctx fmt (λ i, 0 ≤ i ≤ INT_MAX).
Proof using Hargs.
  split; cbn [format_handler on_text on_arg_id on_arg_index on_arg_name on_replacement_field on_format_specs].
  - intros t s. by apply wp_write_out.
  - intros s n H1 H2 H3. eapply wp_on_context; [by apply (wp_next_arg_id None _ n)|]. by intros i s' [[Hi _] ?] _.
  - intros i s Hi. wp_step. eapply wp_on_context; [by apply (wp_check_arg_id None)|]. intros _ s' [_ Hs'] _. by wp_step.
  - intros n s. wp_step. eapply (wp_on_context _ (λ _ n', n' = -1)); [done|]. intros _ s' Hs' _. apply wp_report.
  - intros i b s Hi. by apply wp_field.
  - intros i b s Hi Hr. by eapply wp_format_specs.
Qed.

End formatter.

(** C37. Formatting returns a text or throws a [format_error], whatever the
    format string and the arguments, of any type but double, are. *)
Theorem format_total `{GlobalLocale} fmt args :
  args_ok args → size fmt ≤ INT_MAX →
  (∃ text, format fmt args = Ret text) ∨ (∃ message, format fmt args = Throw (runtime_error message)).
Proof.
  intros Ha Hf. enough (Hw : wp_format (vformat_to fmt args) (λ _ _, True) {| parse_ctx := 0; out := "" |}).
  { unfold wp in Hw. unfold format. destruct (vformat_to fmt args _) as [[[]|e|f] s']; [eauto| |done].
    right. destruct Hw as [m ->]. eauto. }
  unfold vformat_to. destruct (String.eqb fmt "{}").
  - apply wp_field; [done|unfold INT_MAX; lia|done].
  - by eapply wp_parse_format_string; [apply format_handler_ok|..].
Qed.

(** ** A run of one handler against a run of another

    [tracks m1 m2 n]: when [m1] returns from the counter [n], [m2] returns the
    same from every state with this counter, and the counters stay equal, or it
    throws one of [E]. *)
Section tracking.
Context {S : Type} (ctx : S → Z) (E : exn → Prop).

Definition tracks {A} (m1 : M Z A) (m2 : M S A) (n : Z) : Prop :=
  ∀ s a n', ctx s = n → m1 n = (Ret a, n') →
    match m2 s with
    | (Ret a', s') => a' = a ∧ ctx s' = n'
    | (Throw e, _) => E e
    | (Crash _, _) => False
    end.

Lemma tracks_bind {A B} (m1 : M Z A) m2 (k1 : A → M Z B) k2 (P : A → Z → Prop) n :
  tracks m1 m2 n → wp_format m1 P n → (∀ a n', P a n' → tracks (k1 a) (k2 a) n') →
  tracks (m1 ≫= k1) (m2 ≫= k2) n.
Proof.
  intros Hm Hw Hk s b n' Hs. rewrite !bind_run. destruct (m1 n) as [[a|e|f] n1] eqn:E1; [|done..].
  pose proof (Hm s a n1 Hs E1) as H. destruct (m2 s) as [[a'|e|f] s1]; [|done..]. destruct H as [-> H].
  apply Hk; [|done]. by eapply wp_run.
Qed.

Lemma tracks_ret {A} (a : A) n : tracks (mret a) (mret a) n.
Proof. by intros s a' n' Hs [= <- <-]. Qed.

Lemma tracks_report {A} message (m2 : M S A) n : tracks (report_error message) m2 n.
Proof. by intros s a n' Hs [=]. Qed.

Lemma tracks_crash {A} f (m2 : M S A) n : tracks (crash f) m2 n.
Proof. by intros s a n' Hs [=]. Qed.

Lemma tracks_next b n : tracks (next b) (next b) n.
Proof. destruct b; [apply tracks_crash|apply tracks_ret]. Qed.

Lemma tracks_deref b n : tracks (deref b) (deref b) n.
Proof. destruct b; [apply tracks_crash|apply tracks_ret]. Qed.

Lemma tracks_parse_int c b error_value n :
  is_digit c = true →
  tracks (parse_nonnegative_int (String c b) error_value) (parse_nonnegative_int (String c b) error_value) n.
Proof.
  intros Hc s a n' Hs. destruct (parse_nonnegative_int_number c b error_value n Hc) as [-> _].
  destruct (parse_nonnegative_int_number c b error_value s Hc) as [-> _]. by intros [= <- <-].
Qed.

(** The functions of two handlers. *)
Record handlers_track (h1 : handler Z) (h2 : handler S) (fmt : string) (valid : Z → Prop) : Prop := {
  text_tracks t n : tracks (h1.(on_text) t) (h2.(on_text) t) n;
  id_tracks n : tracks h1.(on_arg_id) h2.(on_arg_id) n;
  index_tracks i n : tracks (h1.(on_arg_index) i) (h2.(on_arg_index) i) n;
  name_tracks i n : tracks (h1.(on_arg_name) i) (h2.(on_arg_name) i) n;
  field_tracks i b n : valid i → tracks (h1.(on_replacement_field) i (String "}" b))
                                         (h2.(on_replacement_field) i (String "}" b)) n;
  specs_tracks i b n : valid i → room fmt b n → tracks (h1.(on_format_specs) i b) (h2.(on_format_specs) i b) n
}.

Section loop.
Context (h1 : handler Z) (h2 : handler S) (fmt : string) (valid : Z → Prop).
Context (H1 : handler_ok h1 id fmt valid) (H2 : handlers_track h1 h2 fmt valid).

Lemma tracks_field_specs b n0 i b' n :
  valid i → room fmt (String "{" b) n0 → after_field id b n0 (String ":" b') n →
  tracks (field_specs h1 i (String ":" b')) (field_specs h2 i (String ":" b')) n.
Proof using H1 H2.
  intros Hi Hr Ha. destruct (after_room _ _ _ _ _ _ Hr Ha) as [_ Hr']. pose proof (moves_next _ _ _ _ Hr') as Hm.
  unfold field_specs. eapply (tracks_bind _ _ _ _ (λ x n', x = b' ∧ n' = n)); [apply tracks_next|done|].
  intros x n' [-> ->]. assert (Hb : room fmt b' n) by by eapply moves_room.
  eapply tracks_bind; [by apply H2|by apply (specs_ok_ h1 id fmt valid H1)|]. intros b2 n2 _.
  repeat match goal with |- context [match ?x with _ => _ end] => destruct x end; (apply tracks_report || apply tracks_ret).
Qed.

Lemma tracks_field_end b n0 i b' n :
  valid i → room fmt (String "{" b) n0 → after_field id b n0 b' n →
  tracks (match b' with
          | String c r =>
              if Ascii.eqb c "}" then _ ← h1.(on_replacement_field) i b'; mret r
              else if negb (Ascii.eqb c ":") then report_error "missing '}' in format string"
              else field_specs h1 i b'
          | EmptyString => report_error "missing '}' in format string"
          end)
         (match b' with
          | String c r =>
              if Ascii.eqb c "}" then _ ← h2.(on_replacement_field) i b'; mret r
              else if negb (Ascii.eqb c ":") then report_error "missing '}' in format string"
              else field_specs h2 i b'
          | EmptyString => report_error "missing '}' in format string"
          end) n.
Proof using H1 H2.
  intros Hi Hr Ha. destruct b' as [|c r]; [apply tracks_report|]. destruct (Ascii.eqb_spec c "}") as [->|].
  - eapply tracks_bind; [by apply H2|by apply H1|]. intros [] n' _. apply tracks_ret.
  - destruct (Ascii.eqb_spec c ":") as [->|]; cbn [negb]; [|apply tracks_report]. by eapply tracks_field_specs.
Qed.

Lemma tracks_parse_arg_id c r n :
  tracks (parse_arg_id h1.(on_arg_index) h1.(on_arg_name) (String c r))
         (parse_arg_id h2.(on_arg_index) h2.(on_arg_name) (String c r)) n.
Proof using H1 H2.
  unfold parse_arg_id. apply (tracks_bind _ _ _ _ (λ d _, d = c)); [apply tracks_deref|done|]. intros d n1 ->.
  destruct (is_digit c) eqn:Hc.
  - eapply (tracks_bind _ _ _ _ (λ a _, 0 ≤ a.1 ≤ INT_MAX)).
    + destruct (negb _); [by apply tracks_parse_int|].
      apply (tracks_bind _ _ _ _ (λ _ _, True)); [apply tracks_next|done|]. intros. apply tracks_ret.
    + destruct (negb _); [apply wp_parse_int; [done|]|].
      * intros v b Hv _. cbn [fst]. unfold INT_MAX in *. lia.
      * wp_step. wp_step. wp_step. cbn. unfold INT_MAX. lia.
    + intros [i b] n2 Hi. match goal with |- tracks (if ?x then _ else _) _ _ => destruct x end; [apply tracks_report|].
      eapply tracks_bind; [by apply H2|by apply H1|]. intros. apply tracks_ret.
  - destruct (negb _); [apply tracks_report|].
    apply (tracks_bind _ _ _ _ (λ _ _, True)); [apply tracks_next|done|]. intros it n2 _.
    eapply tracks_bind; [by apply H2|by apply H1|]. intros. apply tracks_ret.
Qed.

Lemma tracks_parse_field b n :
  room fmt (String "{" b) n →
  tracks (parse_replacement_field h1 (String "{" b)) (parse_replacement_field h2 (String "{" b)) n.
Proof using H1 H2.
  intros Hr. unfold parse_replacement_field. apply (tracks_bind _ _ _ _ (λ x n', x = b ∧ n' = n)); [apply tracks_next|done|].
  intros x n' [-> ->]. destruct b as [|c r]; [apply tracks_report|]. pose proof Hr as (Hn & Hb & Hfmt).
  rewrite !size_cons in Hb. pose proof (size_nonneg r).
  destruct (Ascii.eqb_spec c "}") as [->|].
  { eapply tracks_bind; [by apply H2|apply (id_ok _ _ _ _ H1) with (n := size r + 1); unfold id; lia|]. intros i n' [Hi _].
    eapply tracks_bind; [by apply H2|by apply H1|]. intros. apply tracks_ret. }
  destruct (Ascii.eqb c "{"); [eapply tracks_bind; [by apply H2|by apply H1|]; intros; apply tracks_ret|].
  destruct (Ascii.eqb_spec c ":") as [->|].
  { eapply tracks_bind; [by apply H2|apply (id_ok _ _ _ _ H1) with (n := size r + 1); unfold id; lia|]. intros i n' [Hi Hn'].
    unfold id in Hn'. eapply tracks_field_specs; [done|done|]. split_and!; [apply suffix_refl|unfold id; lia..]. }
  apply (tracks_bind _ _ _ _ (λ a n', valid a.1 ∧ after_field id (String c r) n a.2 n')); [apply tracks_parse_arg_id| |].
  - assert (Ha : ∀ b' n', suffix b' r → n' = -1 → after_field id (String c r) n b' n').
    { intros b' n' Hb' ->. pose proof (suffix_size _ _ Hb'). split_and!; [by apply suffix_cons|done|rewrite size_cons; unfold id; lia]. }
    apply wp_parse_arg_id.
    + intros i b' Hi Hb'. eapply wp_call; [by apply H1|]. intros j s' [Hj Hs']. split; [done|by apply Ha].
    + intros name b' _ Hb'. eapply wp_call; [by apply H1|]. intros j s' [Hj Hs']. split; [done|by apply Ha].
  - intros [i b'] n' [Hi Ha]. by eapply tracks_field_end.
Qed.

Lemma tracks_loop fuel begin p n :
  (String.length p ≤ fuel)%nat → room fmt p n → tracks (format_loop h1 fuel begin p) (format_loop h2 fuel begin p) n.
Proof using H1 H2.
  revert begin p n. induction fuel as [|fuel IH]; intros begin p n Hf Hr; cbn [format_loop].
  { destruct p; [by apply H2|cbn in Hf; lia]. }
  destruct p as [|c p]; [by apply H2|]. cbn [String.length] in Hf.
  assert (Hp : room fmt p n) by (eapply moves_room; [done|by eapply moves_next]).
  destruct (Ascii.eqb_spec c "{") as [->|].
  { eapply tracks_bind; [by apply H2|by apply H1|]. intros [] n1 Hn1. unfold id in Hn1. subst n1.
    eapply tracks_bind; [by apply tracks_parse_field|by apply (wp_parse_field h1 id fmt valid H1)|]. intros b' n2 Ha.
    destruct (after_room _ _ _ _ _ _ Hr Ha) as [_ Hr']. apply IH; [|done].
    destruct Ha as (Hb & _). apply suffix_size in Hb. unfold size in Hb. lia. }
  destruct (Ascii.eqb_spec c "}") as [->|]; [|apply IH; [lia|done]].
  repeat match goal with |- context [match ?x with _ => _ end] => destruct x end; try apply tracks_report.
  eapply tracks_bind; [by apply H2|by apply H1|]. intros [] n1 Hn1. unfold id in Hn1. subst n1.
  apply IH; [cbn [String.length] in Hf; lia|]. eapply moves_room; [exact Hp|]. by eapply moves_next.
Qed.

End loop.
End tracking.

(** ** The check at compile time *)

Section check.
Context (types : list arg_type) (fmt : string).
Let k := context_ types true.

(** What the parser is left with where no specification begins. *)
Lemma no_specs k' t c b n :
  c = "}"%char → parse_format_specs k' (String c b) format_specs_new t n = (Ret (String c b, format_specs_new), n).
Proof.
  intros ->. unfold parse_format_specs.
  assert (Hl : ∀ c' fuel, c' = "}"%char ∨ c' = "000"%char →
    specs_loop fuel k' t c' (String "}" b) format_specs_new state_start n = (Ret (String "}" b, format_specs_new), n)).
  { intros c' fuel Hc. assert (E : spec_step k' t c' (String "}" b) format_specs_new state_start n =
      (Ret (Done (String "}" b) format_specs_new), n)) by (destruct Hc as [->| ->]; reflexivity).
    destruct fuel; cbn [specs_loop]; by rewrite bind_run, E. }
  destruct b as [|d b]; [apply Hl; by left|]. destruct (bool_decide _); apply Hl; [by left|by right].
Qed.

(** A field that the checker accepts is parsed alike at run time. *)
Lemma native_parse_run t b n b' n' :
  room fmt b n → native_parse types true t b n = (Ret b', n') →
  ∃ specs, parse_format_specs None b format_specs_new t n = (Ret (b', specs), n') ∧ specs_ok (Some k) fmt specs ∧
    get_type specs ∈ allowed_types t ∧ moves b n b' n' ∧ (t = char_type → ∃ is_char, char_check specs = Ret is_char).
Proof.
  intros Hr. unfold native_parse.
  match goal with |- context [if ?x then _ else _] => destruct x eqn:Hb end.
  - intros [= <- <-]. exists format_specs_new. split_and!; [|apply specs_ok_new|apply list_elem_of_here|by eapply moves_refl|by eexists].
    destruct b as [|c b]; [done|]. apply no_specs. by apply Ascii.eqb_eq.
  - intros H. apply bind_ret_inv in H as ([b2 specs] & n2 & Hp & H).
    pose proof (wp_run _ _ _ _ _ _ (wp_parse_format_specs (Some k) fmt t b n Hr) Hp) as (Hs & Ht & Hm).
    pose proof (sim_parse_format_specs (λ _, False) (Some k) b format_specs_new t n n _ _ eq_refl Hp) as Hsim.
    destruct (parse_format_specs None b format_specs_new t n) as [[r|e|f] n3]; [|done..]. destruct Hsim as [-> <-].
    rewrite bind_run in H. destruct (decide (t = char_type)) as [->|Hc].
    + rewrite bool_decide_eq_true_2, bind_run, check_char_run in H by done.
      destruct (char_check specs) as [c|e|f] eqn:Ec; [|done..]. rewrite ret_run in H. injection H as <- <-. eauto 10.
    + rewrite bool_decide_eq_false_2, ret_run in H by done. injection H as <- <-. exists specs. split_and!; try done.
Qed.

Lemma wp_native_parse t b n :
  room fmt b n → wp_format (native_parse types true t b) (λ b' n', moves b n b' n') n.
Proof.
  intros Hr. unfold native_parse. match goal with |- wp (if ?x then _ else _) _ _ _ => destruct x end.
  { wp_step. by eapply moves_refl. }
  wp_step. eapply wp_call; [by apply (wp_parse_format_specs _ fmt)|]. intros [b' specs] n' (_ & _ & Hm).
  wp_step. destruct (bool_decide _); [|wp_step; by wp_step]. wp_step. unfold wp at 1. rewrite check_char_run.
  pose proof (char_check_error specs). destruct (char_check specs); [|done..]. by do 2 wp_step.
Qed.

Definition in_range (i : Z) : Prop := 0 ≤ i < Z.of_nat (length types).

Lemma in_range_test i : in_range i → (0 <=? i) && (i <? Z.of_nat (length types)) = true.
Proof. intros [? ?]. rewrite andb_true_iff, Z.leb_le, Z.ltb_lt. done. Qed.

Lemma checker_ok : handler_ok (format_string_checker types true) id fmt in_range.
Proof.
  split; cbn [format_string_checker on_text on_arg_id on_arg_index on_arg_name on_replacement_field on_format_specs]; unfold id.
  - intros t s. by wp_step.
  - intros s n H1 H2 H3. unfold compile_next_arg_id. wp_step. eapply wp_call; [by apply (wp_next_arg_id _ _ n)|].
    intros i s' [[Hi Hk] Hs']. destruct (Z.leb_spec (num_args_ (context_ types true)) i) as [|Hlt]; [wp_step|]. cbn in Hlt. wp_step. split; [|done]. unfold in_range. lia.
  - intros i s Hi. wp_step. unfold compile_check_arg_id. wp_step. eapply wp_call; [by apply wp_check_arg_id|].
    intros _ s' [_ ->]. destruct (Z.leb_spec (num_args_ (context_ types true)) i) as [|Hlt]; [wp_step|]. cbn in Hlt. do 2 wp_step. split; [|done]. unfold in_range. lia.
  - intros n s. wp_step.
  - intros i b s Hi. unfold check_field. rewrite in_range_test by done. wp_step. by apply wp_ret, wp_ret.
  - intros i b s Hi Hr. unfold check_specs. rewrite in_range_test by done. by apply wp_native_parse.
Qed.
End check.

Section soundness.
Context {L : GlobalLocale} (args : list format_arg) (Hargs : args_ok args) (fmt : string).
Abbreviation types := (map type_of_arg args).
Abbreviation checker := (context_ types true).

(** ** Errors that the types of the arguments do not exclude *)

(** A width or precision that is not one. *)
Definition too_wide (a : format_arg) : Prop :=
  match a with
  | arg_int v | arg_uint v | arg_long_long v | arg_ulong_long v => v < 0 ∨ INT_MAX < v
  | _ => False
  end.

(** The checker takes these for integers. *)
Definition not_integer (a : format_arg) : Prop := match a with arg_bool _ | arg_char _ => True | _ => False end.

Definition late_error (e : exn) : Prop :=
  (e = runtime_error "string pointer is null" ∧ ∃ a, a ∈ args ∧ is_null a) ∨
  (e = runtime_error "width/precision is out of range" ∧ ∃ a, a ∈ args ∧ too_wide a) ∨
  (e = runtime_error "width/precision is not integer" ∧ ∃ a, a ∈ args ∧ not_integer a) ∨
  (e = runtime_error "argument not found" ∧ has_name_ref fmt = true).

Lemma type_at_arg i a : args !! Z.to_nat i = Some a → type_at checker i = type_of_arg a.
Proof.
  intros Ha. unfold type_at, context_. cbn [types_].
  apply nth_lookup_Some. by rewrite list_lookup_fmap, Ha.
Qed.

Lemma in_range_args i : in_range types i ↔ 0 ≤ i < Z.of_nat (length args).
Proof. unfold in_range. by rewrite length_map. Qed.

Lemma dynamic_late kind value ref :
  ref_ok (Some checker) fmt kind ref → 
  match handle_dynamic_spec args kind value ref with
  | Ret v => v = value ∨ 0 ≤ v ≤ INT_MAX
  | Throw e => late_error e
  | Crash _ => False
  end.
Proof using Hargs.
  intros Hr. destruct kind; cbn [handle_dynamic_spec]; [by left| |].
  - destruct ref as [i|]; [|done]. destruct Hr as [Hi Hk]. destruct (Hk eq_refl) as [Hlt Hint].
    assert (Hin : 0 ≤ i < Z.of_nat (length args)) by (apply in_range_args; split; [lia|done]).
    destruct (get_in arg_ok args i Hargs Hin) as (a & -> & Ha & Hok). cbn [mbind outcome_bind].
    rewrite (type_at_arg i a Ha) in Hint. assert (Hmem : a ∈ args) by by eapply list_elem_of_lookup_2.
    rewrite bool_decide_eq_false_2 by by apply arg_ok_type.
    destruct a as [|v|v|v|v|v|v|p v|v|v|br]; try done; cbn [dynamic_spec_getter mbind outcome_bind].
    5-6: right; right; left; split; [done|]; by eexists.
    all: assert (Hw : INT_MAX < (if v <? 0 then 2 ^ 64 - 1 else v) → v < 0 ∨ INT_MAX < v)
           by (destruct (Z.ltb_spec v 0); auto);
      destruct (Z.ltb_spec INT_MAX (if v <? 0 then 2 ^ 64 - 1 else v));
      [right; left; split; [done|]; eexists; split; [exact Hmem|]; by apply Hw
      |right; destruct (Z.ltb_spec v 0); unfold INT_MAX in *; lia].
  - destruct ref; [done|]. right. right. right. done.
Qed.

Lemma with_dynamic_late specs :
  specs_ok (Some checker) fmt specs →
  match with_dynamic args specs with
  | Ret s => 0 ≤ s.(width) ∧ s.(data_) = specs.(data_)
  | Throw e => late_error e
  | Crash _ => False
  end.
Proof using Hargs.
  intros [Hw Hp Hwr Hpr]. unfold with_dynamic. destruct (dynamic specs); [|split; [lia|done]].
  pose proof (dynamic_late _ specs.(width) _ Hwr) as H1.
  destruct (handle_dynamic_spec args (dynamic_width specs) _ _) as [w|e|f]; cbn [mbind outcome_bind]; [|done..].
  pose proof (dynamic_late _ specs.(precision) _ Hpr) as H2.
  change (dynamic_precision (set_width w (width_ref specs) specs)) with (dynamic_precision specs).
  change (precision (set_width w (width_ref specs) specs)) with (precision specs).
  change (precision_ref (set_width w (width_ref specs) specs)) with (precision_ref specs).
  destruct (handle_dynamic_spec args (dynamic_precision specs) _ _) as [p|e|f]; cbn; [|done..].
  split; [|done]. destruct H1 as [->|]; lia.
Qed.

Lemma data_check a s s' : s'.(data_) = s.(data_) → specs_check a s' = specs_check a s.
Proof using.
  intros H. destruct a; try done. cbn [specs_check]. unfold char_check, check_char_specs, get_type, get_align, get_sign, alt, get_field, has_bit.
  by rewrite H.
Qed.

Lemma arg_late specs specs' a :
  a ∈ args → arg_ok a → 0 ≤ specs'.(width) → specs'.(data_) = specs.(data_) →
  get_type specs ∈ allowed_types (type_of_arg a) →
  (type_of_arg a = char_type → ∃ is_char, char_check specs = Ret is_char) →
  (∃ text, arg_formatter specs' a = Ret text) ∨ (∃ e, arg_formatter specs' a = Throw e ∧ late_error e).
Proof using.
  intros Hin Ha Hw Hd Ht Hc. rewrite <- (data_type _ _ Hd) in Ht.
  destruct (arg_written specs' a Ha Hw Ht) as [Hf|[[Hf Hn]|(e & He & _ & _)]].
  - left. destruct (arg_formatter specs' a); [eauto|done..].
  - right. eexists. split; [exact Hf|]. left. eauto.
  - rewrite (data_check a specs) in He by done. destruct a; try done. destruct (Hc eq_refl) as [c Hc']. cbn in He. by rewrite Hc' in He.
Qed.

Lemma checked_specs_track i b n :
  in_range types i → room fmt b n →
  tracks parse_ctx late_error (check_specs types true i b) (format_specs_of args i b) n.
Proof using Hargs.
  intros Hi Hr [n0 o] b' n' Hs. cbn [parse_ctx] in Hs. subst n0. unfold check_specs. rewrite in_range_test by done.
  intros Hp. destruct (get_in arg_ok args i Hargs) as (a & Hget & Ha & Hok); [by apply in_range_args|].
  rewrite (type_at_arg i a Ha) in Hp. destruct (native_parse_run types fmt _ _ _ _ _ Hr Hp) as (specs & Hrun & Hsp & Ht & Hm & Hc).
  assert (Hmem : a ∈ args) by by eapply list_elem_of_lookup_2.
  unfold format_specs_of. rewrite bind_run. cbn [lift]. rewrite Hget.
  rewrite bool_decide_eq_false_2 by by apply arg_ok_type.
  rewrite bind_run. unfold on_context, zoom. cbn [parse_ctx]. rewrite Hrun, bind_run. cbn [lift].
  pose proof (with_dynamic_late specs Hsp) as Hd. destruct (with_dynamic args specs) as [specs'|e|f]; [|done..].
  destruct Hd as [Hw Hd]. rewrite bind_run. cbn [lift].
  destruct (arg_late specs specs' a Hmem Hok Hw Hd Ht Hc) as [[t ->]|(e & -> & He)]; [|done].
  done.
Qed.

Lemma field_track i n b :
  in_range types i →
  tracks parse_ctx late_error (check_field types true i (String "}" b))
    (arg ← lift (get args i); text ← lift (default_arg_formatter arg); write_out text) n.
Proof using Hargs.
  intros Hi s a n' Hs. unfold check_field. rewrite in_range_test by done. intros [= <- <-].
  destruct (get_in arg_ok args i Hargs) as (x & Hget & Hx & Hok); [by apply in_range_args|].
  rewrite bind_run. cbn [lift]. rewrite Hget, bind_run. cbn [lift].
  destruct (default_returns x Hok) as [[t ->]|[-> Hn]]; [done|].
  left. split; [done|]. exists x. split; [by eapply list_elem_of_lookup_2|done].
Qed.

Lemma context_track {A} (m1 m2 : M Z A) n :
  sim eq (λ _, False) m1 m2 → tracks parse_ctx late_error m1 (on_context m2) n.
Proof using.
  intros Hm [n0 o] a n' Hs H. cbn [parse_ctx] in Hs. subst n0. pose proof (Hm n n a n' eq_refl H) as Hs'.
  unfold on_context, zoom. cbn [parse_ctx]. destruct (m2 n) as [[a'|e|f] n2]; [|done..]. by destruct Hs' as [-> <-].
Qed.

(** A check after what is done at run time too. *)
Lemma check_track {A} (m1 : M Z A) m2 (c : A → bool) message n :
  tracks parse_ctx late_error m1 m2 n →
  tracks parse_ctx late_error (a ← m1; if c a then report_error message else mret a) m2 n.
Proof using.
  intros Hm s a n' Hs H. apply bind_ret_inv in H as (a1 & n1 & H1 & H2). destruct (c a1); [done|].
  rewrite ret_run in H2. injection H2 as -> ->. by apply Hm.
Qed.

Lemma checker_tracks : handlers_track parse_ctx late_error (format_string_checker types true) (format_handler args) fmt (in_range types).
Proof using Hargs.
  split; cbn [format_string_checker format_handler on_text on_arg_id on_arg_index on_arg_name on_replacement_field on_format_specs].
  - by intros t n s [] n' Hs [= <-].
  - intros n. apply (check_track _ _ (λ i, num_args_ checker <=? i)). apply context_track, sim_next_arg_id.
  - intros i n. eapply (tracks_bind _ _ _ _ _ _ (λ _ _, True)).
    + unfold compile_check_arg_id. intros s [] n' Hs H. apply bind_ret_inv in H as ([] & n1 & H1 & H2).
      destruct (_ <=? i); [done|]. injection H2 as <-. revert Hs H1. apply context_track, sim_check_id.
    + unfold compile_check_arg_id, check_arg_id, wp. rewrite !bind_run. cbn [get_state].
      destruct (0 <? n); [by eexists|]. rewrite bind_run. cbn [put_state]. unfold do_check_arg_id.
      destruct (_ && _); [by eexists|]. rewrite ret_run. destruct (_ <=? i); [by eexists|done].
    + intros [] n' _. apply tracks_ret.
  - intros i n. apply tracks_report.
  - intros i b n Hi. by apply field_track.
  - intros i b n Hi Hr. by apply checked_specs_track.
Qed.
End soundness.

(** C36. A format string that the check at compile time accepts for the types of
    the arguments, none of them a double, is formatted: none of the errors of the syntax, of the
    numbers of arguments or of a specification for the wrong type is left. What
    can still be thrown depends on what the check does not see: a null C string,
    a width or precision that is out of range, a [bool] or [char] as a width or
    precision, and a width or precision by name. *)
Theorem checked_format_sound `{GlobalLocale} fmt args :
  args_ok args → size fmt ≤ INT_MAX → checked (map type_of_arg args) true fmt = true →
  (∃ text, format fmt args = Ret text) ∨ (∃ e, format fmt args = Throw e ∧ late_error args fmt e).
Proof.
  intros Ha Hf Hc. unfold format, vformat_to. destruct (String.eqb_spec fmt "{}") as [->|_].
  - destruct args as [|a args]; [by cbn in Hc|].
    destruct (get_in arg_ok (a :: args) 0 Ha) as (x & Hget & Hx & Hok); [cbn; lia|]. cbn in Hx. injection Hx as <-.
    rewrite bind_run. cbn [lift]. rewrite Hget, bind_run. cbn [lift].
    destruct (default_returns a Hok) as [[t ->]|[-> Hn]]; [by left; eexists|right].
    eexists. split; [done|]. left. split; [done|]. exists a. split; [left|done].
  - unfold checked in Hc. destruct (parse_format_string (format_string_checker (map type_of_arg args) true) fmt 0)
      as [[[]|e|f] n'] eqn:E; [|done..].
    assert (Hr : room fmt fmt 0) by (split_and!; [done|lia|apply suffix_refl]).
    pose proof (tracks_loop parse_ctx (late_error args fmt) _ _ fmt _ (checker_ok _ fmt) (checker_tracks args Ha fmt)
      (String.length fmt) fmt fmt 0 (le_n _) Hr {| parse_ctx := 0; out := "" |} tt n' eq_refl E) as Ht.
    unfold parse_format_string. destruct (format_loop _ _ _ _ _) as [[[]|e|f] s]; [by left; eexists|by right; eexists|done].
Qed.

(** ** Concrete formats *)

#[local] Instance classic_locale : GlobalLocale := {| np_grouping := EmptyString; np_thousands_sep := ","%char; np_decimal_point := "."%char |}.

Definition sample_args : list format_arg :=
  [arg_int 42; arg_string "metasolver"; arg_ulong_long 10; arg_cstring 4096 "error"; arg_bool true].
Definition sample_format : string := "{0:+05d} {1:*^{2}.4} {2:#x} {{{3:?}}} {4:>6}".

(** Padding, signs, bases, a dynamic width, a precision and the debug
    presentation; and each of the errors that the check leaves. *)
Lemma checked_format_sound_witness :
  (∃ text, format sample_format sample_args = Ret text) ∧
  format sample_format sample_args = Ret ("+0042 ***meta*** 0xa {" +:+ (String quote ("error" +:+ (String quote "}   true")))%string) ∧
  checked [int_type; bool_type] true "{:{w}}" = true ∧ checked [int_type; bool_type] true "{:{}}" = true ∧
  checked [int_type; string_type] true "{:{}}" = false ∧ checked [int_type; string_type] false "{:{}}" = true ∧
  (λ f, format f [arg_int 1; arg_bool true]) <$> ["{:{w}}"; "{:{}}"; "{1:{0}} {1:{1}}"]%string =
    [Throw (runtime_error "argument not found"); Throw (runtime_error "width/precision is not integer");
     Throw (runtime_error "width/precision is not integer")] ∧
  format "{:{}}" [arg_int 1; arg_int (-1)] = Throw (runtime_error "width/precision is out of range") ∧
  format "{}" [arg_cstring 0 ""] = Throw (runtime_error "string pointer is null").
Proof.
  assert (Ha : args_ok sample_args) by (split; [repeat constructor; cbn; lia|cbn; unfold INT_MAX; lia]).
  split.
  - destruct (checked_format_sound sample_format sample_args Ha) as [H|(e & He & _)];
      [vm_compute; discriminate|vm_compute; reflexivity|exact H|]. vm_compute in He. discriminate He.
  - repeat split; vm_compute; reflexivity.
Defined.

Lemma format_total_witness :
  ∃ message, format "{0} {" sample_args = Throw (runtime_error message).
Proof.
  assert (Ha : args_ok sample_args) by (split; [repeat constructor; cbn; lia|cbn; unfold INT_MAX; lia]).
  destruct (format_total "{0} {" sample_args Ha) as [[t Ht]|H]; [vm_compute; discriminate| |exact H].
  vm_compute in Ht. discriminate Ht.
Defined.
