(* ===== verification/FmtPlain.v ===== *)
(** * Plain format strings: text and the arguments in their places

    A plain format string has text, with its braces doubled, and fields without
    a number or specifications. It is formatted as one expects. Those of the
    program's log calls are all plain, and pass the check at compile time. *)
From Stdlib Require Import Ascii.
From S2P Require Import Prelude Numerals FmtInt FmtSpecs FmtParse FmtUnicode FmtWrite FmtFloat FmtFormat FmtCheck.

(** ** Plain format strings *)

Inductive piece := Text (s : string) | Field.

Fixpoint escape_braces (s : string) : string :=
  match s with
  | EmptyString => EmptyString
  | String c r => if one_of c "{}" then String c (String c (escape_braces r)) else String c (escape_braces r)
  end.

Fixpoint plain (ps : list piece) : string :=
  match ps with
  | [] => EmptyString
  | Text s :: ps => escape_braces s +:+ plain ps
  | Field :: ps => "{}" +:+ plain ps
  end.

(** The text of an argument that is no pointer; that of a double is what
    FmtReadBack.v is about. *)
Definition default_text (a : format_arg) : option string :=
  match a with
  | arg_none | arg_pointer _ => None
  | arg_int v | arg_uint v | arg_long_long v | arg_ulong_long v => Some (int_text v)
  | arg_bool v => Some (if v then "true" else "false")%string
  | arg_char v => Some (one_char v)
  | arg_cstring address v => if address =? 0 then None else Some v
  | arg_string v => Some v
  | arg_double br => match write_default_double br with Ret t => Some t | _ => None end
  end.

(** A value of its type. *)
Definition plain_ok (a : format_arg) : Prop := match a with arg_double _ => True | _ => arg_ok a end.
Definition plain_args : list format_arg → Prop := all_args plain_ok.

(** The arguments in the places of the fields. *)
Fixpoint fill_in (ps : list piece) (args : list format_arg) : option string :=
  match ps, args with
  | [], _ => Some EmptyString
  | Text s :: ps, _ => r ← fill_in ps args; Some (s +:+ r)
  | Field :: ps, a :: args => t ← default_text a; r ← fill_in ps args; Some (t +:+ r)
  | Field :: _, [] => None
  end.

Lemma default_text_written a t : plain_ok a → default_text a = Some t → default_arg_formatter a = Ret t.
Proof.
  intros Ha. destruct a as [|v|v|v|v|v|v|address v|v|v|br]; cbn [plain_ok arg_ok default_text default_arg_formatter] in *; try done.
  - intros [= <-]. apply default_integer_text; [by left|lia].
  - intros [= <-]. apply default_integer_text; [by left|lia].
  - intros [= <-]. apply default_integer_text; [by right|lia].
  - intros [= <-]. apply default_integer_text; [by right|lia].
  - intros [= <-]. by destruct v.
  - by intros [= <-].
  - unfold write_default_cstring. destruct (address =? 0); [done|]. by intros [= <-].
  - by intros [= <-].
  - destruct (write_default_double br); [by intros [= <-]|done|done].
Qed.

Lemma text_range_append t p : text_range (t +:+ p) p = t.
Proof.
  unfold text_range. rewrite length_append. replace (String.length t + String.length p - String.length p)%nat with (String.length t) by lia.
  induction t as [|c t IH]; [by destruct p|]. rewrite append_cons. cbn [String.length take_chars]. by rewrite IH.
Qed.

Section plain_formats.
Context {L : GlobalLocale} (args : list format_arg) (Hargs : plain_args args).
Abbreviation h := (format_handler args).

(** Text with its braces doubled: what was read and not written yet is [t]. *)
Lemma loop_text s rest fuel t n o :
  (String.length (escape_braces s +:+ rest) ≤ fuel)%nat →
  ∃ fuel' t' o', o' +:+ t' = o +:+ (t +:+ s) ∧ (String.length rest ≤ fuel')%nat ∧
    format_loop h fuel (t +:+ (escape_braces s +:+ rest)) (escape_braces s +:+ rest) {| parse_ctx := n; out := o |} =
    format_loop h fuel' (t' +:+ rest) rest {| parse_ctx := n; out := o' |}.
Proof using.
  revert fuel t o. induction s as [|c s IH]; intros fuel t o Hf.
  { exists fuel, t, o. by rewrite append_nil_r. }
  cbn [escape_braces] in *. destruct (one_of c "{}") eqn:Hc.
  - rewrite !append_cons in *. cbn [String.length] in Hf. destruct fuel as [|fuel]; [lia|]. cbn [one_of] in Hc.
    rewrite orb_false_r in Hc. cbn [format_loop].
    assert (Hgo : ∀ o1, o1 = o +:+ (t +:+ one_char c) → ∃ fuel' t' o', o' +:+ t' = o +:+ (t +:+ String c s) ∧
      (String.length rest ≤ fuel')%nat ∧
      format_loop h fuel (escape_braces s +:+ rest) (escape_braces s +:+ rest) {| parse_ctx := n; out := o1 |} =
      format_loop h fuel' (t' +:+ rest) rest {| parse_ctx := n; out := o' |}).
    { intros o1 ->. destruct (IH fuel EmptyString (o +:+ (t +:+ one_char c)) ltac:(lia)) as (f & t' & o' & E1 & E2 & E3).
      exists f, t', o'. split_and!; [|done|exact E3]. rewrite E1. by rewrite <- !append_assoc. }
    destruct (Ascii.eqb_spec c "{") as [->|Hn].
    + rewrite bind_run. cbn [format_handler on_text write_out modify]. rewrite text_range_append, bind_run.
      unfold parse_replacement_field. cbn [next]. rewrite bind_run, ret_run.
      change (Ascii.eqb "{" "}") with false. change (Ascii.eqb "{" "{") with true. cbv beta iota.
      rewrite bind_run. cbn [format_handler on_text write_out modify].
      change (String "{" (escape_braces s +:+ rest)) with (one_char "{" +:+ (escape_braces s +:+ rest)) at 1.
      rewrite text_range_append, ret_run. apply Hgo. cbn [out]. by rewrite append_assoc.
    + destruct (Ascii.eqb_spec c "}") as [->|]; [|done]. rewrite bind_run. cbn [format_handler on_text write_out modify].
      replace (t +:+ String "}" (String "}" (escape_braces s +:+ rest)))
        with ((t +:+ one_char "}") +:+ String "}" (escape_braces s +:+ rest)) by by rewrite <- append_assoc.
      rewrite text_range_append. apply Hgo. done.
  - rewrite !append_cons in *. cbn [String.length] in Hf. destruct fuel as [|fuel]; [lia|]. cbn [one_of] in Hc.
    rewrite orb_false_r in Hc. apply orb_false_iff in Hc as [Hc1 Hc2]. cbn [format_loop]. rewrite Hc1, Hc2.
    destruct (IH fuel (t +:+ one_char c) o ltac:(lia)) as (f & t' & o' & E1 & E2 & E3).
    exists f, t', o'. split_and!; [by rewrite E1, <- append_assoc|done|]. rewrite <- E3. by rewrite <- append_assoc.
Qed.

Lemma field_text n a t o :
  0 ≤ n → args !! Z.to_nat n = Some a → default_text a = Some t → ∀ rest,
  parse_replacement_field h (String "{" (String "}" rest)) {| parse_ctx := n; out := o |} =
    (Ret rest, {| parse_ctx := n + 1; out := o +:+ t |}).
Proof using Hargs.
  intros Hn Ha Ht rest. pose proof (lookup_lt_Some _ _ _ Ha) as Hlt. destruct Hargs as [Hall Hl].
  destruct (get_in plain_ok args n Hargs ltac:(lia)) as (a' & Hget & Ha' & Hok). rewrite Ha in Ha'. injection Ha' as <-.
  unfold parse_replacement_field. cbn [next]. rewrite bind_run, ret_run. change (Ascii.eqb "}" "}") with true. cbv beta iota.
  cbn [format_handler on_arg_id on_replacement_field]. rewrite bind_run. unfold on_context, zoom. cbn [parse_ctx].
  unfold next_arg_id. rewrite bind_run. cbn [get_state].
  rewrite (proj2 (Z.ltb_ge n 0)) by lia. rewrite (proj2 (Z.eqb_neq n INT_MAX)) by lia.
  rewrite bind_run. cbn [put_state do_check_arg_id]. rewrite bind_run, !ret_run. cbn [out].
  rewrite !bind_run. cbn [lift]. rewrite Hget, bind_run. cbn [lift]. rewrite (default_text_written a t Hok Ht). done.
Qed.

Lemma loop_plain ps fuel t n o filled :
  0 ≤ n → (String.length (plain ps) ≤ fuel)%nat → fill_in ps (drop (Z.to_nat n) args) = Some filled →
  ∃ n', format_loop h fuel (t +:+ plain ps) (plain ps) {| parse_ctx := n; out := o |} =
    (Ret tt, {| parse_ctx := n'; out := o +:+ (t +:+ filled) |}).
Proof using Hargs.
  revert fuel t n o filled. induction ps as [|[s|] ps IH]; intros fuel t n o filled Hn Hf Hfill; cbn [plain fill_in] in *.
  - injection Hfill as <-. rewrite !append_nil_r. exists n.
    assert (Et : text_range t "" = t) by (rewrite <- (append_nil_r t) at 1; apply text_range_append).
    destruct fuel; cbn [format_loop format_handler on_text write_out modify]; unfold modify; cbn [parse_ctx out]; by rewrite Et.
  - apply bind_Some in Hfill as (r & Hr & [= <-]).
    destruct (loop_text s (plain ps) fuel t n o Hf) as (f & t' & o' & E1 & E2 & ->).
    destruct (IH f t' n o' r Hn E2 Hr) as [n' ->]. exists n'. by rewrite append_assoc, E1, <- !append_assoc.
  - destruct (drop (Z.to_nat n) args) as [|a rest] eqn:Hd; [done|]. apply bind_Some in Hfill as (x & Hx & Hfill).
    apply bind_Some in Hfill as (r & Hr & [= <-]).
    assert (Ha : args !! Z.to_nat n = Some a) by by rewrite <- (Nat.add_0_r (Z.to_nat n)), <- lookup_drop, Hd.
    assert (Hd' : drop (Z.to_nat (n + 1)) args = rest).
    { replace (Z.to_nat (n + 1)) with (Z.to_nat n + 1)%nat by lia. by rewrite <- drop_drop, Hd. }
    change ("{}" +:+ plain ps) with (String "{" (String "}" (plain ps))) in *. cbn [String.length] in Hf.
    destruct fuel as [|fuel]; [lia|]. cbn [format_loop]. change (Ascii.eqb "{" "{") with true. cbv beta iota.
    rewrite bind_run. cbn [format_handler on_text write_out modify]. rewrite text_range_append, bind_run.
    rewrite (field_text n a x _ Hn Ha Hx). rewrite <- Hd' in Hr.
    destruct (IH fuel EmptyString (n + 1) ((o +:+ t) +:+ x) r ltac:(lia) ltac:(lia) Hr) as [n' E].
    exists n'. rewrite append_nil in E. cbn [out parse_ctx]. rewrite E, append_nil. by rewrite <- !append_assoc.
Qed.
End plain_formats.

(** ** The whole format string *)

Lemma plain_empty ps args filled : plain ps = EmptyString → fill_in ps args = Some filled → filled = EmptyString.
Proof.
  revert filled. induction ps as [|[s|] ps IH]; intros filled Hp Hf; cbn [plain fill_in] in *; [by injection Hf|..]; [|done].
  apply bind_Some in Hf as (r & Hr & [= <-]). destruct s as [|c s].
  - apply IH; [done|exact Hr].
  - cbn [escape_braces] in Hp. by destruct (one_of c "{}").
Qed.

Lemma plain_shortcut ps args filled :
  plain ps = "{}" → fill_in ps args = Some filled → ∃ a rest, args = a :: rest ∧ default_text a = Some filled.
Proof.
  revert filled. induction ps as [|[s|] ps IH]; intros filled Hp Hf; cbn [plain fill_in] in *; [done|..].
  - apply bind_Some in Hf as (r & Hr & [= <-]). destruct s as [|c s]; [apply IH; [done|exact Hr]|].
    exfalso. cbn [escape_braces] in Hp. destruct (one_of c "{}") eqn:Hc; [by injection Hp as ->|].
    injection Hp as -> _. by cbn in Hc.
  - destruct args as [|a rest]; [done|]. apply bind_Some in Hf as (t & Ht & Hf). apply bind_Some in Hf as (r & Hr & [= <-]).
    assert (Hp' : plain ps = EmptyString) by (by destruct (plain ps)).
    apply (plain_empty _ _ _ Hp') in Hr as ->. exists a, rest. by rewrite append_nil_r.
Qed.

(** A plain format string is formatted to its text, the braces single
    again, with the arguments in the places of the fields: integers in decimal
    with their sign, truth values as words, characters and strings as they are.
    There may be more arguments than fields. *)
Lemma plain_format_text `{GlobalLocale} ps args filled :
  plain_args args → fill_in ps args = Some filled → format (plain ps) args = Ret filled.
Proof.
  intros Ha Hf. unfold format, vformat_to. destruct (String.eqb_spec (plain ps) "{}") as [Hp|_].
  - destruct (plain_shortcut ps args filled Hp Hf) as (a & rest & -> & Ht).
    destruct (get_in plain_ok (a :: rest) 0 Ha) as (x & Hget & Hx & Hok); [cbn; lia|]. injection Hx as <-.
    rewrite bind_run. cbn [lift]. rewrite Hget, bind_run. cbn [lift]. by rewrite (default_text_written a _ Hok Ht).
  - destruct (loop_plain args Ha ps (String.length (plain ps)) EmptyString 0 EmptyString filled) as [n E];
      [done|done|by rewrite drop_0|]. rewrite !append_nil in E. unfold parse_format_string. by rewrite E.
Qed.

(** ** The program's log calls *)

(** The format strings and types of arguments of the calls of [spdlog::trace] to
    [spdlog::critical] in src/src, in the order of the files; [size_t] is
    [unsigned long], an [ulong_long_type]. A call without arguments is not formatted:
    its text is the message. *)
Definition program_formats : list (string * list arg_type) :=
  [("{}", [string_type]);
   ("initializing udp library: {}", [string_type]);
   ("constructing an instance of: {}", [string_type]);
   ("udp_provider has been registered in udp_registry", []);
   ("cache has been set to: {}", [string_type]);
   ("get_lib_as_file: {}", [string_type]);
   ("Warning: error when attempting to load file: {}Err msg:{} Proceeding as if it doesn't exist.", [string_type; cstring_type]);
   ("Warning: unknown error when attempting to load file: {} Proceeding as if it doesn't exist.", [string_type]);
   ("udp_registry saving lib file: {}", [string_type]);
   ("udp_registry loading lib file: {}", [string_type]);
   ("udp_registry unloading lib: {}", [string_type]);
   ("Error: failed to unload lib: {} Err msg: {}", [string_type; cstring_type]);
   ("Error: unknown failure unloading lib: {}", [string_type]);
   ("udp_registry deleting lib file: {}", [string_type]);
   ("Error: failed to delete file: {}", [string_type]);
   ("Error: exception deleting file: {} Err msg: {}", [string_type; cstring_type]);
   ("Error: unknown exception deleting file: {}", [string_type]);
   ("udp_dll_wrapper successfully saved", []);
   ("udp_dll_wrapper successfully loaded", []);
   ("[{}] from worker", [int_type]);
   ("Worker {} joined", [string_type]);
   ("Free workers: {}", [ulong_long_type]);
   ("Worker {} disconnected", [string_type]);
   ("WARNING: {} sent unhandled message type: {}", [string_type; int_type]);
   ("[{}] from island", [int_type]);
   ("Island {}is waiting for allocation", [string_type]);
   ("Succesfully selected preferred worker", []);
   ("{} has been allocated {}", [string_type; string_type]);
   ("Socket failed to bind to address {} due to the following error: {}", [string_type; cstring_type]);
   ("Check if this port isn't already in use", []);
   ("Running distributed island", []);
   ("Distributed island connected", []);
   ("Distributed island allocate work sent", []);
   ("island received [{}] from controller", [int_type]);
   ("Choosing algorithm: {}", [string_type]);
   ("{} provides {}% of total worker cluster processing power", [string_type; double_type]);
   ("{} has been assigned {} population size", [string_type; ulong_long_type]);
   ("Main Archipelago: Evolution finished", []);
   ("Best individual: {}", [string_type]);
   ("[{}] from controller", [int_type]);
   ("WARNING: controller sent unhandled message type: {}", [int_type]);
   ("WARNING: worker thread socket sent unhandled message type: {}", [int_type]);
   ("Single-threaded worker started... ", []);
   ("Running algorithm: {}", [string_type]);
   ("Population size: {}", [ulong_long_type]);
   ("Defaulting to 8 islands (Cannot detect core count)", []);
   ("Using {} islands", [uint_type]);
   ("Archipelago-based worker started... ", []);
   ("Archipelago worker island #{} population size: {}", [ulong_long_type; ulong_long_type]);
   ("Using algorithm: {}", [string_type]);
   ("Size of allPopulations: {}", [ulong_long_type]);
   ("Worker thread failed with exception: {}", [cstring_type]);
   ("Worker thread finished. ", []);
   ("Worker waiting for DLL from controller... (Name: {})", [string_type]);
   ("Blocking until next message... Worker received incorrect reply to GET_DLL message: enum type:{}", [int_type]);
   ("Worker joined - info collected", []);
   ("Worker left - info collected", []);
   ("Worker started work - info collected", []);
   ("Worker finished work - info collected", []);
   ("Worker info requested", []);
   ("Waiting until {} workers connect...", [ulong_long_type])]%string.

(** The pieces of a string without doubled braces. *)
Fixpoint pieces_of (s : string) : list piece :=
  match s with
  | EmptyString => []
  | String "{" (String "}" r) => Field :: pieces_of r
  | String c r =>
      match pieces_of r with
      | Text t :: ps => Text (String c t) :: ps
      | ps => Text (one_char c) :: ps
      end
  end.

#[export] Instance piece_eq_dec : EqDecision piece.
Proof. solve_decision. Defined.

Definition fields (ps : list piece) : nat := length (filter (λ p, p = Field) ps).

(** Every one is accepted at compile time, and is plain with a field for each
    argument. *)
Definition plain_call (call : string * list arg_type) : bool :=
  let ps := pieces_of call.1 in
  checked call.2 true call.1 && String.eqb (plain ps) call.1 && (fields ps =? length call.2)%nat.

Lemma program_formats_plain : forallb plain_call program_formats = true.
Proof. vm_compute. reflexivity. Qed.

Lemma fill_in_enough ps args :
  Forall (λ a, is_Some (default_text a)) args → (fields ps ≤ length args)%nat → is_Some (fill_in ps args).
Proof.
  revert args. induction ps as [|p ps IH]; intros args Ha Hl; [by eexists|]. unfold fields in Hl.
  rewrite filter_cons in Hl. destruct p as [s|]; case_decide; try done; cbn [fill_in].
  - destruct (IH args Ha Hl) as [r ->]. by eexists.
  - destruct args as [|a args]; [cbn in Hl; lia|].
    apply Forall_cons_1 in Ha as [[t Ht] Ha]. cbn [length] in Hl.
    destruct (IH args Ha ltac:(unfold fields; lia)) as [r Hr]. rewrite Ht, Hr. by eexists.
Qed.

(** The message of any of the program's calls. *)
Lemma program_formats_filled call args :
  call ∈ program_formats → map type_of_arg args = call.2 → Forall (λ a, is_Some (default_text a)) args →
  ∃ ps text, call.1 = plain ps ∧ fill_in ps args = Some text.
Proof.
  intros Hin Ht Ha. pose proof program_formats_plain as Hp. rewrite forallb_forall in Hp.
  specialize (Hp call ltac:(by apply list_elem_of_In)). unfold plain_call in Hp.
  rewrite !andb_true_iff, String.eqb_eq, Nat.eqb_eq in Hp. destruct Hp as [[_ Hf] Hn].
  destruct (fill_in_enough (pieces_of call.1) args Ha) as [text Hfill]; [by rewrite Hn, <- Ht, length_map|].
  by exists (pieces_of call.1), text.
Qed.
