(* ===== verification/ResultsHtml.v ===== *)
(** * benchmark/benchmark_results_html.cpp: the HTML report

    The page's constant parts are the source's, with backquotes for the double
    quotes, which [with_quotes] puts in. *)
From Stdlib Require Import Ascii.
From S2P Require Import Prelude Csv.

Definition with_quotes (s : string) : string :=
  string_map (λ c, if Ascii.eqb c "`" then one quote else one c) s.

Definition HTML_HEAD : string := with_quotes "
       <head>
        <meta charset=`UTF-8`>
        <meta name=`viewport` content=`width=device-width, initial-scale=1.0`>
        <meta http-equiv=`X-UA-Compatible` content=`ie=edge`>
        <style>
        table {
            width: 100%;
            border-collapse: collapse;
            margin: 1em 0;
            font-family: Arial, sans-serif;
            font-size: 14px;
            border: 1px solid #ddd;
        }
        th {
            background-color: #f4f4f4;
            text-align: left;
            padding: 10px;
            border-bottom: 2px solid #ccc;
        }
        td {
            padding: 10px;
            border-bottom: 1px solid #ddd;
        }
        tr:nth-child(even) {
            background-color: #fafafa;
        }
        tr:hover {
            background-color: #f1f7ff;
        }
        th {
            position: sticky;
            top: 0;
            z-index: 1;
        }
        table {
            border-radius: 6px;
            overflow: hidden;
        }
        </style>
        <title>Distributed benchmark results</title>
      </head>
".

Definition TABLE_SORTING_SCRIPT : string := with_quotes "
    <script>
    (function () {
        let sortState = new WeakMap();

        function getCellValue(row, index) {
            return row.cells[index].innerText.trim();
        }

        function isNumeric(value) {
            return !isNaN(parseFloat(value)) && isFinite(value);
        }

        function sortTable(table, columnIndex) {
            const tbody = table.tBodies[0];
            if (!tbody) return;

            const rows = Array.from(tbody.rows);

            let state = sortState.get(table) || {};
            state[columnIndex] = !state[columnIndex];
            sortState.set(table, state);

            const asc = state[columnIndex];

            rows.sort((a, b) => {
                let x = getCellValue(a, columnIndex);
                let y = getCellValue(b, columnIndex);

                if (isNumeric(x) && isNumeric(y)) {
                    return asc ? x - y : y - x;
                }

                return asc
                    ? x.localeCompare(y)
                    : y.localeCompare(x);
            });

            rows.forEach(row => tbody.appendChild(row));
        }

        function init() {
            document.querySelectorAll(`table`).forEach(table => {
                const headers = table.querySelectorAll(`th`);

                headers.forEach((th, index) => {
                    th.style.cursor = `pointer`;

                    th.addEventListener(`click`, () => {
                        sortTable(table, index);
                    });
                });
            });
        }

        if (document.readyState === `loading`) {
            document.addEventListener(`DOMContentLoaded`, init);
        } else {
            init();
        }
    })();
    </script>
".

(** [_sections]: tables with their names. *)
Definition benchmark_results_html : Type := list (string * string).

Definition add_section (htmlTable sectionName : string) (b : benchmark_results_html) :
    benchmark_results_html := b ++ [(htmlTable, sectionName)].

Definition section_html (s : string * string) : string :=
  "<section>" +:+ ("<h1>" +:+ s.2 +:+ "</h1>" +:+ nl) +:+ (s.1 +:+ nl) +:+ "</section>".

Definition _build_base (b : benchmark_results_html) : string :=
  let sectionsHtml := foldl (λ out s, out +:+ section_html s) "" b in
  with_quotes "
    <!DOCTYPE html>
    <html lang=`en`>
      " +:+ HTML_HEAD +:+ with_quotes "
      <body>
      " +:+ sectionsHtml +:+
  with_quotes "
      " +:+ TABLE_SORTING_SCRIPT +:+ with_quotes "
      </body>
    </html>
    ".

Definition get_html_page (b : benchmark_results_html) : string := _build_base b.
