(* ===== verification/PathNormalizer.v ===== *)
(** * utils/include/path_normalizer.h: file names that Windows accepts

    Paths are their text, as in UdpRegistry ([path_join] is [operator/]). *)
From Stdlib Require Import Ascii.
From S2P Require Import Prelude LibLoader UdpRegistry Csv.

(** ** std::filesystem::path on POSIX *)

Definition slash (c : ascii) : bool := Ascii.eqb c "/".

(** The text up to the last slash, with it, and the text after it. *)
Fixpoint split_last (p : string) : option (string * string) :=
  match p with
  | "" => None
  | String c r =>
      match split_last r with
      | Some (d, f) => Some (String c d, f)
      | None => if slash c then Some (one c, r) else None
      end
  end%string.

(** The characters at the end that satisfy [p], removed. *)
Fixpoint strip_end (p : ascii → bool) (s : string) : string :=
  match s with
  | "" => ""
  | String c r =>
      match strip_end p r with
      | "" => if p c then "" else one c
      | s' => String c s'
      end
  end%string.

Definition filename (p : string) : string :=
  match split_last p with
  | Some (_, f) => f
  | None => p
  end.

Definition parent_path (p : string) : string :=
  match split_last p with
  | None => ""
  | Some (d, _) => if String.eqb (strip_end slash d) "" then "/" else strip_end slash d
  end.

(** ** [win_normalize_filename] *)

Definition WIN_RESERVED_KEYWORDS : list string :=
  ["CON"; "PRN"; "AUX"; "NUL"; "COM1"; "COM2"; "COM3"; "COM4"; "COM5"; "COM6"; "COM7"; "COM8"; "COM9";
   "LPT1"; "LPT2"; "LPT3"; "LPT4"; "LPT5"; "LPT6"; "LPT7"; "LPT8"; "LPT9"].

Definition WIN_RESERVED_SYMBOLS : list ascii :=
  ["<"; ">"; ":"; quote; "/"; "\"; "|"; "?"; "*"]%char.

Fixpoint char_map (f : ascii → ascii) (s : string) : string :=
  match s with
  | "" => ""
  | String c s => String (f c) (char_map f s)
  end%string.

Definition reserved (c : ascii) : bool := existsb (Ascii.eqb c) WIN_RESERVED_SYMBOLS.

(** [std::toupper] in the C locale. *)
Definition toupper (c : ascii) : ascii :=
  let n := nat_of_ascii c in
  if (97 <=? n)%nat && (n <=? 122)%nat then ascii_of_nat (n - 32) else c.

Definition space_or_dot (c : ascii) : bool := Ascii.eqb c " " || Ascii.eqb c ".".

Definition is_keyword (s : string) : bool := existsb (String.eqb (char_map toupper s)) WIN_RESERVED_KEYWORDS.

(** The file name that [p]'s is replaced by. *)
Definition normal_name (name : string) : string :=
  let s := char_map (λ c, if reserved c then "_"%char else c) name in
  let s := strip_end space_or_dot s in
  let s := if String.eqb s "" then "file" else s in
  if is_keyword s then String "_" s else s.

Definition win_normalize_filename (p : string) : string :=
  path_join (parent_path p) (normal_name (filename p)).

(** ** Names and the paths they end *)

Definition no_slash (s : string) : Prop := string_forall (λ c, negb (slash c)) s = true.

Lemma split_last_none f : no_slash f → split_last f = None.
Proof.
  unfold no_slash. induction f as [|c f IH]; [done|]. cbn [string_forall split_last].
  intros [Hc Hf]%andb_true_iff. rewrite (IH Hf). by destruct (slash c).
Qed.

Lemma split_last_app d f : no_slash f → split_last (d +:+ String "/" f) = Some (d +:+ "/", f).
Proof.
  intros Hf. induction d as [|c d IH].
  - rewrite !append_nil. cbn [split_last]. by rewrite split_last_none.
  - rewrite append_cons. cbn [split_last]. by rewrite IH.
Qed.

Lemma no_slash_app a b : no_slash a → no_slash b → no_slash (a +:+ b).
Proof.
  unfold no_slash. intros Ha Hb. induction a as [|c a IH]; [done|].
  cbn [string_forall] in Ha. apply andb_true_iff in Ha as [Hc Ha]. rewrite append_cons. cbn [string_forall].
  by rewrite Hc, IH.
Qed.

(** A path that ends with a file name. *)
Lemma strip_slash d c s : no_slash (String c s) → strip_end slash (d +:+ String c s +:+ "/") = d +:+ String c s.
Proof.
  intros Hf. assert (strip_end slash (String c s +:+ "/") = String c s) as E.
  { revert c Hf. induction s as [|c' s IH]; intros c Hf; unfold no_slash in Hf;
      cbn [string_forall] in Hf; apply andb_true_iff in Hf as [Hc Hf]; apply negb_true_iff in Hc.
    - change (strip_end slash (String c "/") = String c ""). cbn [strip_end].
      change (slash "/") with true. by rewrite Hc.
    - rewrite append_cons. cbn [strip_end]. rewrite IH by exact Hf. done. }
  induction d as [|a d IH]; [by rewrite append_nil|].
  rewrite !(append_cons a d). cbn [strip_end]. rewrite IH. by destruct d.
Qed.

Lemma ends_with_slash_cons a c s : ends_with_slash (String a (String c s)) = ends_with_slash (String c s).
Proof. unfold ends_with_slash. cbn [String.length]. by rewrite !Nat.sub_succ, !Nat.sub_0_r. Qed.

Lemma ends_with_slash_name d c s : no_slash (String c s) → ends_with_slash (d +:+ String c s) = false.
Proof.
  intros Hf. assert (ends_with_slash (String c s) = false) as E.
  { revert c Hf. induction s as [|c' s IH]; intros c Hf; unfold no_slash in Hf;
      cbn [string_forall] in Hf; apply andb_true_iff in Hf as [Hc Hf].
    - unfold ends_with_slash. cbn. apply bool_decide_eq_false_2. intros ->. done.
    - rewrite ends_with_slash_cons. by apply IH. }
  induction d as [|a d IH]; [done|]. rewrite append_cons.
  destruct d as [|b d]; [rewrite append_nil in *; by rewrite ends_with_slash_cons|].
  rewrite append_cons in *. by rewrite ends_with_slash_cons.
Qed.

(** ** What it guarantees *)

Lemma forall_map (p : ascii → bool) f s : (∀ c, p (f c) = true) → string_forall p (char_map f s) = true.
Proof. intros Hf. induction s as [|c s IH]; [done|]. cbn. by rewrite Hf. Qed.

Lemma forall_strip (p q : ascii → bool) s : string_forall p s = true → string_forall p (strip_end q s) = true.
Proof.
  induction s as [|c s IH]; [done|]. cbn [string_forall strip_end].
  intros [Hc Hs]%andb_true_iff. specialize (IH Hs).
  destruct (strip_end q s) as [|a t]; [destruct (q c); [done|cbn; by rewrite Hc]|].
  cbn [string_forall]. by rewrite Hc.
Qed.

Lemma strip_strip p s : strip_end p (strip_end p s) = strip_end p s.
Proof.
  induction s as [|c s IH]; [done|]. cbn [strip_end].
  destruct (strip_end p s) as [|a t] eqn:E.
  - destruct (p c) eqn:Ec; [done|]. cbn. by rewrite Ec.
  - cbn [strip_end] in *. destruct (strip_end p t) as [|a' t']; [|by rewrite IH].
    destruct (p a); [done|]. by rewrite IH.
Qed.

Lemma map_safe_id s : string_forall (λ c, negb (reserved c)) s = true →
  char_map (λ c, if reserved c then "_"%char else c) s = s.
Proof.
  induction s as [|c s IH]; [done|]. cbn [string_forall char_map]. intros [Hc Hs]%andb_true_iff. rewrite (IH Hs).
  by destruct (reserved c).
Qed.

Lemma strip_underscore s : s ≠ ""%string → strip_end space_or_dot s = s →
  strip_end space_or_dot (String "_" s) = String "_" s.
Proof. intros Hne Hs. cbn [strip_end]. rewrite Hs. by destruct s. Qed.

Lemma keyword_underscore s : is_keyword (String "_" s) = false.
Proof. done. Qed.

(** The name is not empty, has no reserved symbol, does not end with a space or
    a dot, is no reserved keyword in any case, and is left alone when it is
    normalized again. *)
Theorem normal_name_safe name :
  let s := normal_name name in
  s ≠ ""%string ∧ string_forall (λ c, negb (reserved c)) s = true ∧
  strip_end space_or_dot s = s ∧ is_keyword s = false ∧ normal_name s = s.
Proof.
  cbn zeta. set (m := char_map (λ c, if reserved c then "_"%char else c) name).
  set (t := if String.eqb (strip_end space_or_dot m) "" then "file"%string else strip_end space_or_dot m).
  assert (t ≠ ""%string) as Hne.
  { unfold t. by destruct (String.eqb_spec (strip_end space_or_dot m) ""). }
  assert (string_forall (λ c, negb (reserved c)) t = true) as Hsafe.
  { unfold t. destruct (String.eqb _ _); [done|]. apply forall_strip, forall_map. intros c.
    by destruct (reserved c) eqn:E; [|rewrite E]. }
  assert (strip_end space_or_dot t = t) as Hstrip.
  { unfold t. destruct (String.eqb _ _); [done|]. apply strip_strip. }
  assert (∀ s, s ≠ ""%string → string_forall (λ c, negb (reserved c)) s = true →
    strip_end space_or_dot s = s → is_keyword s = false → normal_name s = s) as Hid.
  { intros s Hs1 Hs2 Hs3 Hs4. unfold normal_name. rewrite map_safe_id, Hs3 by done.
    destruct (String.eqb_spec s ""); [done|]. by rewrite Hs4. }
  assert (normal_name name = if is_keyword t then String "_" t else t) as -> by done.
  destruct (is_keyword t) eqn:Ek.
  - split_and!; [done|done|by apply strip_underscore|apply keyword_underscore|].
    apply Hid; [done|done|by apply strip_underscore|apply keyword_underscore].
  - split_and!; try done. by apply Hid.
Qed.
