(* ===== verification/BenchmarkStats.v ===== *)
(** * benchmark/benchmark_stats.cpp: measurements and their reports

    A benchmark collects data points; [end_current_measurement] turns them into
    a CSV table, sorted from the best to the worst, and the tables are saved as
    CSV files or as one HTML page. Multi-objective metrics are Pagmo's. *)
From Stdlib Require Import Ascii.
From S2P Require Import Prelude Doubles DoubleOrder Pagmo PopulationTools Island.
From S2P Require Import LibLoader UdpRegistry Csv Numerals ResultsHtml PathNormalizer.

Definition double_eqb (x y : double) : bool := SFeqb x y.
Definition is_inf (x : double) : bool := match x with S754_infinity _ => true | _ => false end.

(** [fast_non_dominated_sorting] (the counts of dominating individuals and the
    ranks), [crowding_distance], and [hypervolume(f).contributions] with the
    reference point of offset 1. *)
Class PagmoMetrics := {
  non_dominated_sorting : list vector_double → outcome (list Z * list Z);
  crowding_distance : list vector_double → outcome (list double);
  hv_contributions : list vector_double → outcome (list double)
}.

Section BenchmarkStats.
Context {PG : Pagmo} {PS : PagmoSort} {SS : StdSort} {PI : PagmoIsland} {PM : PagmoMetrics}.

Record benchmark_stats := {
  _problem : problem;
  _dataPoints : list vector_double;
  _pointIDs : list string;
  _elapsedTimes : list double;
  _timerStart : Z;                          (* ticks of the high-resolution clock *)
  _csvStatsBuffer : list (string * string)  (* CSV, section name *)
}.

Definition with_problem (p : problem) (s : benchmark_stats) : benchmark_stats :=
  {| _problem := p; _dataPoints := s.(_dataPoints); _pointIDs := s.(_pointIDs);
     _elapsedTimes := s.(_elapsedTimes); _timerStart := s.(_timerStart);
     _csvStatsBuffer := s.(_csvStatsBuffer) |}.
Definition with_points (ps : list vector_double) (ids : list string) (ts : list double)
    (s : benchmark_stats) : benchmark_stats :=
  {| _problem := s.(_problem); _dataPoints := ps; _pointIDs := ids; _elapsedTimes := ts;
     _timerStart := s.(_timerStart); _csvStatsBuffer := s.(_csvStatsBuffer) |}.
Definition with_timer (t : Z) (s : benchmark_stats) : benchmark_stats :=
  {| _problem := s.(_problem); _dataPoints := s.(_dataPoints); _pointIDs := s.(_pointIDs);
     _elapsedTimes := s.(_elapsedTimes); _timerStart := t; _csvStatsBuffer := s.(_csvStatsBuffer) |}.
Definition with_buffer (b : list (string * string)) (s : benchmark_stats) : benchmark_stats :=
  {| _problem := s.(_problem); _dataPoints := s.(_dataPoints); _pointIDs := s.(_pointIDs);
     _elapsedTimes := s.(_elapsedTimes); _timerStart := s.(_timerStart); _csvStatsBuffer := b |}.

Definition benchmark_stats_new (p : problem) : benchmark_stats :=
  {| _problem := p; _dataPoints := []; _pointIDs := []; _elapsedTimes := []; _timerStart := 0;
     _csvStatsBuffer := [] |}.

Definition set_problem (p : problem) : M benchmark_stats unit := modify (with_problem p).

(** [now]: the clock. *)
Definition start_timer (now : Z) : M benchmark_stats unit := modify (with_timer now).

(** A duration of nanoseconds as a double number of seconds. *)
Definition stop_timer (now : Z) (s : benchmark_stats) : double :=
  double_div (double_of_Z (now - s.(_timerStart))) (double_of_Z (10 ^ 9)).

Definition add_data_point (result : vector_double) (pointID : string) (elapsedTime : double) :
    M benchmark_stats unit :=
  modify (λ s, with_points (s.(_dataPoints) ++ [result]) (s.(_pointIDs) ++ [pointID])
                           (s.(_elapsedTimes) ++ [elapsedTime]) s).

(** ** [_get_current_stats_csv] *)

Definition format_double (value : double) : string := fixed 16 value.

(** One of the sorted data points: point, fitness, ID, time. *)
Abbreviation data_point := (vector_double * vector_double * string * double)%type.

Definition data_point_at (s : benchmark_stats) (fitnesses : list vector_double) (idx : nat) :
    outcome data_point :=
  p ← index s.(_dataPoints) idx;
  f ← index fitnesses idx;
  id ← index s.(_pointIDs) idx;
  t ← index s.(_elapsedTimes) idx;
  Ret (p, f, id, t).

(** [fitness[j]] compared with the best one's, in percent. *)
Definition percentage (best fit : vector_double) (j : nat) : outcome string :=
  b ← index best j;
  percentageDecline ← (if negb (double_eqb b double_zero) then
                         f ← index fit j;
                         Ret (double_div (double_sub f b) b)
                       else Ret double_zero);
  Ret (format_double (double_mul percentageDecline (double_of_Z 100)) +:+ "%").

Record metrics := { ranks : list Z; domCounts : list Z; crowdDists : list double; hvContributions : list double }.
Definition no_metrics : metrics := {| ranks := []; domCounts := []; crowdDists := []; hvContributions := [] |}.

Definition mo_metrics (isMultiObjective : bool) (sortedFitnesses : list vector_double) : outcome metrics :=
  if isMultiObjective && (2 <=? length sortedFitnesses)%nat then
    '(domCounts, ranks) ← non_dominated_sorting sortedFitnesses;
    crowdDists ← crowding_distance sortedFitnesses;
    hvContributions ← hv_contributions sortedFitnesses;
    Ret {| ranks := ranks; domCounts := domCounts; crowdDists := crowdDists;
           hvContributions := hvContributions |}
  else Ret no_metrics.

Definition mo_columns (isMultiObjective : bool) (m : metrics) (i : nat) : outcome string :=
  if isMultiObjective && negb (bool_decide (m.(ranks) = [])) then
    r ← index m.(ranks) i;
    d ← index m.(domCounts) i;
    c ← index m.(crowdDists) i;
    h ← index m.(hvContributions) i;
    Ret ("," +:+ int_text r +:+ "," +:+ int_text d +:+ "," +:+
         (if is_inf c then "Inf" else format_double c) +:+ "," +:+ format_double h)
  else Ret "".

Definition csv_header (isMultiObjective : bool) : string :=
  "ID,Value,Fitness,Fitness increase over baseline,ElapsedTime" +:+
  (if isMultiObjective then ",Rank,DomBy,CrowdDist,HVContribution" else "") +:+ nl.

Definition csv_row (isMultiObjective : bool) (m : metrics) (best : vector_double) (i : nat) (p : data_point) :
    outcome string :=
  let '(point, fit, pointID, elapsed) := p in
  percentages ← mapM (percentage best fit) (seq 0 (length best));
  mo ← mo_columns isMultiObjective m i;
  Ret (pointID +:+ "," +:+ double_vector_to_csv double_text point +:+ "," +:+
       double_vector_to_csv double_text fit +:+ "," +:+
       (one quote +:+ String.concat ";" percentages +:+ one quote) +:+
       ("," +:+ format_double elapsed) +:+ mo +:+ nl).

Fixpoint csv_rows (isMultiObjective : bool) (m : metrics) (best : vector_double) (i : nat)
    (ps : list data_point) : outcome string :=
  match ps with
  | [] => Ret ""
  | p :: ps =>
      row ← csv_row isMultiObjective m best i p;
      rest ← csv_rows isMultiObjective m best (S i) ps;
      Ret (row +:+ rest)
  end.

Definition _get_current_stats_csv (s : benchmark_stats) : outcome string :=
  let isMultiObjective := 1 <? get_nobj s.(_problem) in
  let fitnesses := fitness s.(_problem) <$> s.(_dataPoints) in
  best ← get_best_N_individuals_indexes s.(_problem) fitnesses (length s.(_dataPoints));
  sorted ← mapM (data_point_at s fitnesses) best;
  let sortedFitnesses := (λ p : data_point, p.1.1.2) <$> sorted in
  m ← mo_metrics isMultiObjective sortedFitnesses;
  bestFitness ← index sortedFitnesses 0;
  rows ← csv_rows isMultiObjective m bestFitness 0 sorted;
  Ret (csv_header isMultiObjective +:+ rows).

(** ** Measurements *)

Definition clear_current_measurement : M benchmark_stats unit := modify (with_points [] [] []).
Definition clear_all_results : M benchmark_stats unit := modify (with_buffer []).

Definition measurement_name (measurementName : string) (p : problem) : string :=
  if String.eqb measurementName "" then problem_get_name p
  else measurementName +:+ " (" +:+ problem_get_name p +:+ ")".

Definition end_current_measurement (measurementName : string) : M benchmark_stats unit :=
  s ← get_state;
  let name := measurement_name measurementName s.(_problem) in
  csv ← lift (_get_current_stats_csv s);
  _ ← modify (λ s, with_buffer (s.(_csvStatsBuffer) ++ [(csv, name)]) s);
  clear_current_measurement.

Definition get_all_results_as_csv (s : benchmark_stats) : list string := s.(_csvStatsBuffer).*1.
Definition get_all_results_as_csv_with_names (s : benchmark_stats) : list (string * string) :=
  s.(_csvStatsBuffer).

Definition get_all_results_as_html (s : benchmark_stats) : string :=
  get_html_page (foldl (λ b c, add_section (csv_to_html c.1) c.2 b) [] s.(_csvStatsBuffer)).

(** ** Files *)

(** A directory and the directories above it. *)
Fixpoint with_parents (fuel : nat) (p : string) : list string :=
  match fuel with
  | O => [p]
  | S fuel => if String.eqb p "" then [] else p :: with_parents fuel (parent_path p)
  end.

Definition create_directories (p : string) : M os unit :=
  modify (λ o, set_dirs (list_to_set (with_parents (String.length p) p) ∪ o.(dirs)) o).

(** [std::ofstream] writes this many characters and more at once; fewer stay in
    its buffer until the destructor, which ignores errors. *)
Definition stream_chunk : nat := 1024.

Definition _write_results_to_file (path : string) (content : string) (append : bool) : M os unit :=
  let parent := parent_path path in
  _ ← (if String.eqb parent "" then mret tt else create_directories parent);
  let target := win_normalize_filename path in
  o ← get_state;
  if decide (target ∈ o.(write_denied) ∨ target ∈ o.(dirs)) then
    throw (runtime_error ("_write_results_to_file: failed opening file, path: " +:+ path))
  else
    let before := if append then default [] (o.(files) !! target) else [] in
    if o.(disk_full) then
      _ ← put_state (set_files (<[target := before]> o.(files)) o);
      if (String.length content <? stream_chunk)%nat then mret tt
      else throw (runtime_error ("_write_results_to_file: filed writing to file, path: " +:+ path))
    else
      put_state (set_files (<[target := before ++ String.list_byte_of_string content]> o.(files)) o).

(** [now] is the formatted date. *)
Definition save_all_results_as_csv (filePath : string) (fileNameWithDate : bool) (now : string)
    (s : benchmark_stats) : M os unit :=
  let currentDate := if fileNameWithDate then now else "" in
  for_each (get_all_results_as_csv_with_names s) (λ c,
    _write_results_to_file (path_join filePath (c.2 +:+ " " +:+ currentDate +:+ ".csv")) c.1 false).

Definition save_all_results_as_html (filePath : string) (fileNameWithDate : bool) (now : string)
    (s : benchmark_stats) : M os unit :=
  let currentDate := if fileNameWithDate then now else "" in
  _write_results_to_file (path_join filePath ("solver_benchmark_" +:+ currentDate +:+ ".html"))
    (get_all_results_as_html s) false.
End BenchmarkStats.
