(* ===== verification/BenchmarkReport.v ===== *)
(** * What a measurement's report shows

    The CSV text of a measurement is the CSV of a table without empty cells,
    so the HTML report shows that table; for an unconstrained single-objective
    problem the measurement always ends, with one row per data point, sorted
    from the best. *)
From Stdlib Require Import Ascii.
From S2P Require Import Prelude Doubles DoubleOrder Pagmo PopulationTools Island.
From S2P Require Import LibLoader UdpRegistry Csv Numerals ResultsHtml PathNormalizer BenchmarkStats WorkScenario.

(** ** Plain texts *)

Definition plain_text (s : string) : Prop := s ≠ ""%string ∧ string_forall plain_char s = true.

Lemma forall_append p a b : string_forall p (a +:+ b) = string_forall p a && string_forall p b.
Proof.
  induction a as [|c a IH]; [done|]. rewrite append_cons. cbn [string_forall]. by rewrite IH, andb_assoc.
Qed.

Lemma append_nonempty a b : a ≠ ""%string → a +:+ b ≠ ""%string.
Proof. by destruct a. Qed.

Lemma plain_append a b : plain_text a → string_forall plain_char b = true → plain_text (a +:+ b).
Proof.
  intros [Ha Hp] Hb. split; [by apply append_nonempty|]. by rewrite forall_append, Hp, Hb.
Qed.

Lemma digit_plain d : 0 ≤ d < 10 → plain_char (digit_char d) = true.
Proof.
  intros Hd. assert (d = 0 ∨ d = 1 ∨ d = 2 ∨ d = 3 ∨ d = 4 ∨ d = 5 ∨ d = 6 ∨ d = 7 ∨ d = 8 ∨ d = 9)
    as Hc by lia.
  repeat destruct Hc as [->|Hc]; try done. by subst d.
Qed.

Lemma digits_plain fuel z acc :
  string_forall plain_char acc = true → string_forall plain_char (digits fuel z acc) = true.
Proof.
  revert z acc. induction fuel as [|fuel IH]; intros z acc Ha; [done|]. cbn [digits].
  assert (string_forall plain_char (String (digit_char (z mod 10)) acc) = true) as Hs.
  { cbn [string_forall]. by rewrite digit_plain by (apply Z.mod_pos_bound; lia). }
  destruct (z <? 10); [done|]. by apply IH.
Qed.

Lemma natural_plain z : 0 ≤ z → plain_text (natural_text z).
Proof.
  intros Hz. split; [|by apply digits_plain].
  destruct (natural_text_first z Hz) as (d & r & -> & _). done.
Qed.

Lemma zeros_plain n : string_forall plain_char (zeros n) = true.
Proof. induction n as [|n IH]; [done|]. exact IH. Qed.

Lemma fixed_text_plain p z : 0 ≤ z → plain_text (fixed_text p z).
Proof.
  intros Hz. pose proof (Z.pow_pos_nonneg 10 (Z.of_nat p) ltac:(lia) ltac:(lia)) as Hp.
  unfold fixed_text, pad_left. apply plain_append; [apply natural_plain, Z.div_pos; lia|].
  rewrite !forall_append, zeros_plain.
  by rewrite (proj2 (natural_plain _ (proj1 (Z.mod_pos_bound z _ Hp)))).
Qed.

Lemma minus_plain s t : plain_text t → plain_text (minus s +:+ t).
Proof. intros [Hn Hp]. by destruct s; split. Qed.

Lemma fixed_plain p x : plain_text (fixed p x).
Proof.
  destruct x as [s|s| |s m e]; cbn [fixed]; try apply minus_plain; try by split.
  - by apply fixed_text_plain.
  - by apply fixed_text_plain, scaled_nonneg.
Qed.

Lemma int_plain z : plain_text (int_text z).
Proof.
  unfold int_text. destruct (Z.ltb_spec z 0); [|by apply natural_plain].
  apply (minus_plain true), natural_plain. lia.
Qed.

Lemma elements_plain vec : vec ≠ [] → plain_text (csv_elements double_text vec).
Proof.
  intros Hne. induction vec as [|x [|y vec] IH]; [done|apply fixed_plain|].
  change (csv_elements double_text (x :: y :: vec))
    with (double_text x +:+ ";" +:+ csv_elements double_text (y :: vec)).
  apply plain_append; [apply fixed_plain|]. rewrite forall_append. by apply IH.
Qed.

Lemma concat_plain ts : ts ≠ [] → Forall plain_text ts → plain_text (String.concat ";" ts).
Proof.
  intros Hne Ht. induction Ht as [|t ts Hp Ht IH]; [done|]. destruct ts as [|u ts]; [done|].
  change (String.concat ";" (t :: u :: ts)) with (t +:+ ";" +:+ String.concat ";" (u :: ts)).
  apply plain_append; [done|]. rewrite forall_append. by apply IH.
Qed.

(** ** Cells *)

Definition bare (s : string) : cell := {| text := s; quoted := false |}.
Definition in_quotes_cell (s : string) : cell := {| text := s; quoted := true |}.

Lemma plain_first s : plain_text s → match s with "" => False | String a _ => a ≠ quote end%string.
Proof.
  intros [Hn Hp]. destruct s as [|a s]; [done|]. cbn [string_forall] in Hp.
  apply andb_true_iff in Hp as [Ha _]. apply plain_char_not in Ha as (Hq & _).
  by apply Ascii.eqb_neq in Hq.
Qed.

Lemma bare_ok s : plain_text s → cell_ok (bare s).
Proof. intros Hs. split; [by apply plain_first|]. intros _. apply Hs. Qed.

Lemma in_quotes_ok s : plain_text s → cell_ok (in_quotes_cell s).
Proof. intros Hs. by split; [apply plain_first|]. Qed.

Lemma double_quote_plain s : string_forall plain_char s = true → string_map double_quote s = s.
Proof.
  induction s as [|a s IH]; [done|]. cbn [string_forall string_map]. intros [Ha Hs]%andb_true_iff.
  rewrite (IH Hs). apply plain_char_not in Ha as (Hq & _). unfold double_quote. by rewrite Hq.
Qed.

Lemma in_quotes_csv s : plain_text s → cell_csv (in_quotes_cell s) = one quote +:+ s +:+ one quote.
Proof. intros [_ Hs]. unfold cell_csv. cbn [quoted in_quotes_cell text]. by rewrite double_quote_plain. Qed.

Lemma row_csv_app (a b : list cell) :
  a ≠ [] → b ≠ [] → row_csv (a ++ b) = row_csv a +:+ "," +:+ row_csv b.
Proof.
  intros Ha Hb. induction a as [|c a IH]; [done|]. destruct a as [|c2 a].
  - by destruct b as [|d b].
  - change (row_csv ((c :: c2 :: a) ++ b)) with (cell_csv c +:+ "," +:+ row_csv ((c2 :: a) ++ b)).
    rewrite IH by done. change (row_csv (c :: c2 :: a)) with (cell_csv c +:+ "," +:+ row_csv (c2 :: a)).
    by rewrite <- !append_assoc.
Qed.

(** Lists of cells, cell by cell. *)
Ltac each_cell :=
  repeat (apply Forall_cons_2; [first [apply bare_ok|apply in_quotes_ok]|]); try apply Forall_nil_2.

Section Report.
Context {PG : Pagmo} {PS : PagmoSort} {SS : StdSort} {PI : PagmoIsland} {PM : PagmoMetrics}.

Abbreviation data_point := (vector_double * vector_double * string * double)%type.

(** ** Rows *)

(** The increase of a fitness [f] over the best one's [b]. *)
Definition increase (b f : double) : string :=
  format_double (double_mul (if double_eqb b double_zero then double_zero else double_div (double_sub f b) b)
                            (double_of_Z 100)) +:+ "%".

(** The row of a data point, for the fitness [best]. *)
Definition row_cells (best : vector_double) (p : data_point) : list cell :=
  [bare p.1.2; in_quotes_cell (csv_elements double_text p.1.1.1);
   in_quotes_cell (csv_elements double_text p.1.1.2);
   in_quotes_cell (String.concat ";" (zip_with increase best p.1.1.2)); bare (format_double p.2)].

(** A point with an ID that needs no quoting, and with values. *)
Definition point_ok (n : nat) (p : data_point) : Prop :=
  plain_text p.1.2 ∧ p.1.1.1 ≠ [] ∧ length p.1.1.2 = n.

Lemma percentage_value best fit j b f :
  best !! j = Some b → fit !! j = Some f → percentage best fit j = Ret (increase b f).
Proof.
  intros Hb Hf. unfold percentage, index, increase. rewrite Hb, Hf. cbn [mbind outcome_bind].
  by destruct (double_eqb b double_zero).
Qed.

Lemma percentages_from pre best fit0 fit :
  length pre = length fit0 → length fit = length best →
  mapM (percentage (pre ++ best) (fit0 ++ fit)) (seq (length pre) (length best)) =
    Ret (zip_with increase best fit).
Proof.
  revert pre fit0 fit. induction best as [|b best IH]; intros pre fit0 [|f fit] Hl Hf; try done.
  cbn [length seq mapM zip_with].
  rewrite (percentage_value _ _ _ b f) by (by apply list_lookup_middle).
  specialize (IH (pre ++ [b]) (fit0 ++ [f]) fit). rewrite <- !app_assoc, !length_app in IH.
  cbn [app length] in IH. rewrite Nat.add_1_r in IH. cbn [mbind outcome_bind].
  by rewrite IH by (cbn in *; lia).
Qed.

Lemma percentages_value best fit :
  length fit = length best →
  mapM (percentage best fit) (seq 0 (length best)) = Ret (zip_with increase best fit).
Proof. by apply (percentages_from [] best []). Qed.

Lemma increases_plain best fit : Forall plain_text (zip_with increase best fit).
Proof.
  revert fit. induction best as [|b best IH]; intros [|f fit]; constructor; [|apply IH].
  by apply plain_append; [apply fixed_plain|].
Qed.

Lemma row_cells_ok best p : best ≠ [] → point_ok (length best) p → Forall cell_ok (row_cells best p).
Proof.
  destruct p as [[[x f] id] el]. intros Hb (Hid & Hx & Hf). cbn [fst snd] in *. unfold row_cells.
  assert (f ≠ []) by (intros ->; by destruct best).
  assert (zip_with increase best f ≠ []) by (by destruct best, f).
  each_cell; cbn [fst snd].
  all: first [done|by apply elements_plain|by apply concat_plain; [|apply increases_plain]|apply fixed_plain].
Qed.

Lemma csv_row_cells best i p :
  best ≠ [] → point_ok (length best) p →
  csv_row false no_metrics best i p = Ret (row_csv (row_cells best p) +:+ nl).
Proof.
  destruct p as [[[x f] id] el]. intros Hb (Hid & Hx & Hf). cbn [fst snd] in *.
  assert (f ≠ []) by (intros ->; by destruct best).
  assert (zip_with increase best f ≠ []) by (by destruct best, f).
  unfold csv_row. rewrite percentages_value by done. cbn [mbind outcome_bind mo_columns andb].
  unfold row_cells. cbn [row_csv fst snd].
  change (double_vector_to_csv double_text) with (λ v, one quote +:+ csv_elements double_text v +:+ one quote).
  rewrite !in_quotes_csv by first [by apply elements_plain|by apply concat_plain; [|apply increases_plain]].
  by rewrite append_nil, <- !append_assoc.
Qed.

Lemma csv_rows_cells best i ps :
  best ≠ [] → Forall (point_ok (length best)) ps →
  csv_rows false no_metrics best i ps = Ret (lines (row_cells best <$> ps)).
Proof.
  intros Hb Hps. revert i. induction Hps as [|p ps Hp Hps IH]; intros i; [done|].
  cbn [csv_rows]. rewrite csv_row_cells by done. cbn [mbind outcome_bind]. rewrite IH.
  cbn [mbind outcome_bind]. by rewrite <- append_assoc.
Qed.

Definition header_cells (mo : bool) : list cell :=
  map bare (["ID"; "Value"; "Fitness"; "Fitness increase over baseline"; "ElapsedTime"] ++
    (if mo then ["Rank"; "DomBy"; "CrowdDist"; "HVContribution"] else [])).

Lemma header_csv mo : csv_header mo = row_csv (header_cells mo) +:+ nl.
Proof. by destruct mo. Qed.

Lemma header_ok mo : Forall cell_ok (header_cells mo).
Proof. destruct mo; unfold header_cells; cbn [map app]; each_cell; by split. Qed.

(** ** Measurements *)

(** The data points a report is made of: parallel vectors, IDs that need no
    quoting, points and fitness vectors that are not empty, the latter of one
    length. *)
Record stats_ok (s : benchmark_stats) : Prop := {
  st_ids : length s.(_pointIDs) = length s.(_dataPoints);
  st_times : length s.(_elapsedTimes) = length s.(_dataPoints);
  st_plain : Forall plain_text s.(_pointIDs);
  st_points : Forall (λ p, p ≠ []) s.(_dataPoints);
  st_fitness : ∃ n, (0 < n)%nat ∧ Forall (λ p, length (fitness s.(_problem) p) = n) s.(_dataPoints)
}.

(** The data point at an index, with the fitness the problem gives it. *)
Definition point_of (s : benchmark_stats) (idx : nat) : option data_point :=
  x ← s.(_dataPoints) !! idx; id ← s.(_pointIDs) !! idx; t ← s.(_elapsedTimes) !! idx;
  Some (x, fitness s.(_problem) x, id, t).

(** The best fitness in an order of the data points. *)
Definition best_fitness (s : benchmark_stats) (order : list nat) : vector_double :=
  default [] ((λ p : data_point, p.1.1.2) <$> (i ← head order; point_of s i)).

Lemma point_of_run s n idx :
  stats_ok s → Forall (λ p, length (fitness s.(_problem) p) = n) s.(_dataPoints) →
  (idx < length s.(_dataPoints))%nat →
  ∃ p, data_point_at s (fitness s.(_problem) <$> s.(_dataPoints)) idx = Ret p ∧ point_ok n p ∧
    point_of s idx = Some p.
Proof.
  intros [Hi Ht Hp Hx _] Hf Hidx.
  destruct (lookup_lt_is_Some_2 s.(_dataPoints) idx Hidx) as [x Ex].
  destruct (lookup_lt_is_Some_2 s.(_pointIDs) idx ltac:(lia)) as [id Eid].
  destruct (lookup_lt_is_Some_2 s.(_elapsedTimes) idx ltac:(lia)) as [t Et].
  exists (x, fitness s.(_problem) x, id, t). unfold data_point_at, point_of, index.
  rewrite list_lookup_fmap, Ex, Eid, Et. split; [done|]. split; [|done]. split_and!.
  - by apply (Forall_lookup_1 _ _ _ _ Hp Eid).
  - by apply (Forall_lookup_1 _ _ _ _ Hx Ex).
  - by apply (Forall_lookup_1 _ _ _ _ Hf Ex).
Qed.

Lemma sorted_points s n best :
  stats_ok s → Forall (λ p, length (fitness s.(_problem) p) = n) s.(_dataPoints) →
  Forall (λ i, i < length s.(_dataPoints))%nat best →
  ∃ ps, mapM (data_point_at s (fitness s.(_problem) <$> s.(_dataPoints))) best = Ret ps ∧
    Forall (point_ok n) ps ∧ Forall2 (λ idx p, point_of s idx = Some p) best ps.
Proof.
  intros Hs Hn Hb. induction Hb as [|i best Hi Hb (ps & E & Hok & Hf)]; [by exists []|].
  destruct (point_of_run s n i Hs Hn Hi) as (p & Ep & Hp & Hrest).
  exists (p :: ps). cbn. rewrite Ep. cbn. rewrite E. cbn. split_and!; [done|by constructor|by constructor].
Qed.

(** The table of a measurement of a single-objective problem. *)
Lemma stats_table s best :
  stats_ok s → s.(_dataPoints) ≠ [] → get_nobj s.(_problem) ≤ 1 →
  let fitnesses := fitness s.(_problem) <$> s.(_dataPoints) in
  get_best_N_individuals_indexes s.(_problem) fitnesses (length s.(_dataPoints)) = Ret best →
  best ≡ₚ seq 0 (length s.(_dataPoints)) →
  ∃ ps, Forall2 (λ idx p, point_of s idx = Some p) best ps ∧
    let rows := row_cells (best_fitness s best) <$> ps in
    Forall (Forall cell_ok) rows ∧ _get_current_stats_csv s = Ret (table_csv (header_cells false) rows).
Proof.
  intros Hs Hne Hobj fitnesses E Hp. destruct (st_fitness _ Hs) as (n & Hn & Hf).
  destruct (sorted_points s n best Hs Hf) as (ps & Eps & Hok & Hf2).
  { apply list.Forall_forall. intros i Hi. rewrite Hp in Hi. apply elem_of_seq in Hi. lia. }
  exists ps. split; [done|].
  destruct Hf2 as [|i0 p0 best ps Hi0 Hf2].
  { apply Permutation_nil_l in Hp. destruct s.(_dataPoints); [done|discriminate]. }
  assert (best_fitness s (i0 :: best) = p0.1.1.2) as -> by (unfold best_fitness; cbn; by rewrite Hi0).
  destruct (Forall_cons_1 _ _ _ Hok) as [(_ & _ & <-) _].
  assert (p0.1.1.2 ≠ []) as Hb by (intros Hnil; rewrite Hnil in Hn; cbn in Hn; lia).
  split; [apply Forall_fmap; eapply Forall_impl; [intros p; by apply row_cells_ok|exact Hok]|].
  unfold _get_current_stats_csv. rewrite (proj2 (Z.ltb_ge _ _)) by done. fold fitnesses. rewrite E.
  cbn [mbind outcome_bind]. unfold fitnesses. rewrite Eps. cbn [mbind outcome_bind mo_metrics andb].
  change (index _ 0) with (Ret p0.1.1.2 : outcome vector_double). cbn [mbind outcome_bind].
  rewrite csv_rows_cells by done. cbn [mbind outcome_bind]. rewrite header_csv. unfold table_csv.
  cbn [lines]. by rewrite <- append_assoc.
Qed.

(** The page of a list of tables with their names: what stands before the
    sections, one section per table in order, and what stands behind. *)
Definition page_head : string := with_quotes "
    <!DOCTYPE html>
    <html lang=`en`>
      " +:+ HTML_HEAD +:+ with_quotes "
      <body>
      ".

Definition page_foot : string := with_quotes "
      " +:+ TABLE_SORTING_SCRIPT +:+ with_quotes "
      </body>
    </html>
    ".

Definition shown_section (name table : string) : string :=
  "<section><h1>" +:+ name +:+ "</h1>" +:+ nl +:+ table +:+ nl +:+ "</section>".

Definition shown_sections (buffer : list (string * string)) : string :=
  concat_strings ((λ c : string * string, shown_section c.2 (csv_to_html c.1)) <$> buffer).

Lemma page_shows (s : benchmark_stats) :
  get_all_results_as_html s = page_head +:+ shown_sections s.(_csvStatsBuffer) +:+ page_foot.
Proof.
  unfold get_all_results_as_html, get_html_page, _build_base, page_head, page_foot.
  assert (∀ b acc, foldl (λ out s, out +:+ section_html s) acc
      (foldl (λ b (c : string * string), add_section (csv_to_html c.1) c.2 b) b s.(_csvStatsBuffer)) =
    foldl (λ out s, out +:+ section_html s) acc b +:+ shown_sections s.(_csvStatsBuffer)) as ->.
  { unfold shown_sections. induction s.(_csvStatsBuffer) as [|c cs IH]; intros b acc; cbn.
    - by rewrite append_nil_r.
    - rewrite IH. unfold add_section at 1. rewrite foldl_app. cbn [foldl]. unfold section_html at 2, shown_section.
      cbn [fst snd]. by rewrite <- !append_assoc. }
  by rewrite <- !append_assoc.
Qed.

Lemma sections_app b b' : shown_sections (b ++ b') = shown_sections b +:+ shown_sections b'.
Proof.
  unfold shown_sections. rewrite fmap_app. induction (_ <$> b) as [|c cs IH]; [done|].
  cbn. rewrite IH. by rewrite <- append_assoc.
Qed.

(** C29. For an unconstrained single-objective problem and data points whose
    fitness is valid, a measurement ends normally: its table is stored under
    its name and the data points are cleared. The table has one row per data
    point, best first, with the increase of its fitness over the best one's.
    The HTML page, which had one section per earlier table, has the same
    sections, unchanged and in order, followed by one that shows exactly this
    table under the measurement's name. *)
Theorem measurement_report name s :
  stats_ok s → s.(_dataPoints) ≠ [] → get_nobj s.(_problem) ≤ 1 → get_nc s.(_problem) = 0 →
  valid_fitness (fitness s.(_problem) <$> s.(_dataPoints)) →
  let fitnesses := fitness s.(_problem) <$> s.(_dataPoints) in
  ∃ best ps s', end_current_measurement name s = (Ret tt, s') ∧
    best ≡ₚ seq 0 (length s.(_dataPoints)) ∧
    ascending (λ a b, double_ltb (first_fitness fitnesses a) (first_fitness fitnesses b)) best ∧
    Forall2 (λ idx p, point_of s idx = Some p) best ps ∧
    let rows := row_cells (best_fitness s best) <$> ps in
    s'.(_csvStatsBuffer) = s.(_csvStatsBuffer) ++
      [(table_csv (header_cells false) rows, measurement_name name s.(_problem))] ∧
    s'.(_dataPoints) = [] ∧ s'.(_pointIDs) = [] ∧ s'.(_elapsedTimes) = [] ∧
    get_all_results_as_html s = page_head +:+ shown_sections s.(_csvStatsBuffer) +:+ page_foot ∧
    get_all_results_as_html s' = page_head +:+ shown_sections s.(_csvStatsBuffer) +:+
      shown_section (measurement_name name s.(_problem)) (table_html (header_cells false) rows) +:+ page_foot.
Proof.
  intros Hs Hne Hobj Hnc Hv fitnesses.
  destruct (so_sort s.(_problem) fitnesses (length s.(_dataPoints)) Hnc Hv) as (best & Hp & Hasc & E).
  assert (length fitnesses = length s.(_dataPoints)) as Hfl by apply length_fmap.
  assert (length best = length s.(_dataPoints)) as Hbl by by rewrite Hp, length_seq.
  rewrite resize_short, take_ge in E by lia. rewrite Hfl in Hp.
  destruct (stats_table s best Hs Hne Hobj) as (ps & Hf2 & Hok & Ecsv); [|done|].
  { unfold get_best_N_individuals_indexes. by rewrite (proj2 (Z.ltb_ge _ _)). }
  exists best, ps. eexists. split.
  { unfold end_current_measurement. rewrite bind_run. cbn [get_state]. rewrite bind_run. unfold lift.
    rewrite Ecsv. reflexivity. }
  split; [done|]. split; [done|]. split; [done|]. intros rows.
  split_and!; try done; [apply page_shows|]. rewrite page_shows.
  match goal with |- _ +:+ shown_sections ?b +:+ _ = _ => change b with
    (s.(_csvStatsBuffer) ++ [(table_csv (header_cells false) rows, measurement_name name s.(_problem))]) end.
  rewrite sections_app, <- append_assoc. unfold shown_sections at 2. cbn [fmap list_fmap concat_strings foldr fst snd].
  by rewrite append_nil_r, table_renders by (done || apply header_ok).
Qed.
End Report.

(** ** A concrete measurement *)

#[local] Instance toy_metrics : PagmoMetrics := {|
  non_dominated_sorting := λ f, Ret ((λ _, 0) <$> f, (λ _, 0) <$> f);
  crowding_distance := λ f, Ret ((λ _, double_zero) <$> f);
  hv_contributions := λ f, Ret ((λ _, double_zero) <$> f)
|}.

Definition two_points : benchmark_stats (PG := ToyPagmo) :=
  {| _problem := toy_problem_1; _dataPoints := [[double_of_Z 3]; [double_of_Z 2]];
     _pointIDs := ["META_ALL"%string; "SINGLE_de"%string];
     _elapsedTimes := [double_of_Z 1; double_of_Z 5]; _timerStart := 0; _csvStatsBuffer := [] |}.

Lemma measurement_report_witness :
  ∃ best ps s', end_current_measurement "run" two_points = (Ret tt, s') ∧
    best ≡ₚ seq 0 2 ∧ Forall2 (λ idx p, point_of two_points idx = Some p) best ps ∧
    let rows := row_cells (best_fitness two_points best) <$> ps in
    s'.(_csvStatsBuffer) = [(table_csv (header_cells false) rows, "run (toy)"%string)] ∧
    get_all_results_as_html s' =
      page_head +:+ shown_section "run (toy)" (table_html (header_cells false) rows) +:+ page_foot.
Proof.
  destruct (measurement_report "run" two_points) as (best & ps & s' & E & Hp & _ & Hr & Hb & _ & _ & _ & _ & Hh).
  - split; try done; [by repeat constructor|by repeat constructor|].
    exists 1%nat. split; [lia|]. by repeat constructor.
  - done.
  - done.
  - done.
  - by repeat constructor.
  - exists best, ps, s'. split; [exact E|]. split; [exact Hp|]. split; [exact Hr|].
    intros rows. split; [exact Hb|exact Hh].
Defined.

(** Two measurements of one problem at the same time have the same file name:
    the second replaces the first. *)
Definition same_name : benchmark_stats (PG := ToyPagmo) :=
  with_buffer [("first"%string, "toy"%string); ("second"%string, "toy"%string)] two_points.

Definition empty_disk : os :=
  {| files := ∅; dirs := ∅; read_denied := ∅; write_denied := ∅; remove_denied := ∅; disk_full := false;
     loaded := ∅; next_handle := 0; dlclose_ok := true; after_load_log := [] |}.

Example second_file_replaces_first :
  map_to_list (save_all_results_as_csv "./r/" true "2026-01-01 10:00:00" same_name empty_disk).2.(files) =
    [("./r/toy 2026-01-01 10_00_00.csv"%string, String.list_byte_of_string "second")].
Proof. vm_compute. reflexivity. Qed.
