(* ===== verification/MainArgs.v ===== *)
(** * run_example/main.cpp: command lines

    [parse_main_args] as it is written, and a reference: a command line is a
    sequence of options; each field is the value of its last option. *)
From S2P Require Import Prelude Numerals.

Record main_args := {
  isController : bool;
  address : string;
  defaultAddressWorker : string;
  defaultAddressController : string;
  workers : Z;
  strategy : string;
  workerMode : string;
  minPopSize : Z;
  cacheDir : string;
  defaultCacheDirWorker : string;
  defaultCacheDirController : string;
  runBenchmark : bool;
  disableLogging : bool;
  noWorkerDirectory : bool;
  workerDir : string;
  runSOBenchmark : bool;
  runMOBenchmark : bool
}.

(** The members' initial values. *)
Definition main_args_init : main_args := {|
  isController := false; address := ""; defaultAddressWorker := "tcp://localhost:5000";
  defaultAddressController := "tcp://0.0.0.0:5000"; workers := 2;
  strategy := "BY_PERFORMANCE"; workerMode := "ARCHIPELAGO_BASED"; minPopSize := 80;
  cacheDir := ""; defaultCacheDirWorker := "worker_cache"; defaultCacheDirController := "controller_cache";
  runBenchmark := false; disableLogging := false; noWorkerDirectory := false; workerDir := "";
  runSOBenchmark := false; runMOBenchmark := false |}.

(** ** Assignments to the fields *)

Definition set_isController (b : bool) (m : main_args) : main_args :=
  {| isController := b; address := m.(address); defaultAddressWorker := m.(defaultAddressWorker);
     defaultAddressController := m.(defaultAddressController); workers := m.(workers);
     strategy := m.(strategy); workerMode := m.(workerMode); minPopSize := m.(minPopSize);
     cacheDir := m.(cacheDir); defaultCacheDirWorker := m.(defaultCacheDirWorker);
     defaultCacheDirController := m.(defaultCacheDirController); runBenchmark := m.(runBenchmark);
     disableLogging := m.(disableLogging); noWorkerDirectory := m.(noWorkerDirectory);
     workerDir := m.(workerDir); runSOBenchmark := m.(runSOBenchmark); runMOBenchmark := m.(runMOBenchmark) |}.
Definition set_texts (a s w c d : string) (m : main_args) : main_args :=
  {| isController := m.(isController); address := a; defaultAddressWorker := m.(defaultAddressWorker);
     defaultAddressController := m.(defaultAddressController); workers := m.(workers);
     strategy := s; workerMode := w; minPopSize := m.(minPopSize);
     cacheDir := c; defaultCacheDirWorker := m.(defaultCacheDirWorker);
     defaultCacheDirController := m.(defaultCacheDirController); runBenchmark := m.(runBenchmark);
     disableLogging := m.(disableLogging); noWorkerDirectory := m.(noWorkerDirectory);
     workerDir := d; runSOBenchmark := m.(runSOBenchmark); runMOBenchmark := m.(runMOBenchmark) |}.
Definition set_address (v : string) (m : main_args) : main_args :=
  set_texts v m.(strategy) m.(workerMode) m.(cacheDir) m.(workerDir) m.
Definition set_strategy (v : string) (m : main_args) : main_args :=
  set_texts m.(address) v m.(workerMode) m.(cacheDir) m.(workerDir) m.
Definition set_workerMode (v : string) (m : main_args) : main_args :=
  set_texts m.(address) m.(strategy) v m.(cacheDir) m.(workerDir) m.
Definition set_cacheDir (v : string) (m : main_args) : main_args :=
  set_texts m.(address) m.(strategy) m.(workerMode) v m.(workerDir) m.
Definition set_workerDir (v : string) (m : main_args) : main_args :=
  set_texts m.(address) m.(strategy) m.(workerMode) m.(cacheDir) v m.
Definition set_numbers (w p : Z) (m : main_args) : main_args :=
  {| isController := m.(isController); address := m.(address); defaultAddressWorker := m.(defaultAddressWorker);
     defaultAddressController := m.(defaultAddressController); workers := w;
     strategy := m.(strategy); workerMode := m.(workerMode); minPopSize := p;
     cacheDir := m.(cacheDir); defaultCacheDirWorker := m.(defaultCacheDirWorker);
     defaultCacheDirController := m.(defaultCacheDirController); runBenchmark := m.(runBenchmark);
     disableLogging := m.(disableLogging); noWorkerDirectory := m.(noWorkerDirectory);
     workerDir := m.(workerDir); runSOBenchmark := m.(runSOBenchmark); runMOBenchmark := m.(runMOBenchmark) |}.
Definition set_workers (v : Z) (m : main_args) : main_args := set_numbers v m.(minPopSize) m.
Definition set_minPopSize (v : Z) (m : main_args) : main_args := set_numbers m.(workers) v m.
Definition set_flags (b d n so mo : bool) (m : main_args) : main_args :=
  {| isController := m.(isController); address := m.(address); defaultAddressWorker := m.(defaultAddressWorker);
     defaultAddressController := m.(defaultAddressController); workers := m.(workers);
     strategy := m.(strategy); workerMode := m.(workerMode); minPopSize := m.(minPopSize);
     cacheDir := m.(cacheDir); defaultCacheDirWorker := m.(defaultCacheDirWorker);
     defaultCacheDirController := m.(defaultCacheDirController); runBenchmark := b;
     disableLogging := d; noWorkerDirectory := n;
     workerDir := m.(workerDir); runSOBenchmark := so; runMOBenchmark := mo |}.
Definition set_runBenchmark (m : main_args) : main_args :=
  set_flags true m.(disableLogging) m.(noWorkerDirectory) m.(runSOBenchmark) m.(runMOBenchmark) m.
Definition set_disableLogging (m : main_args) : main_args :=
  set_flags m.(runBenchmark) true m.(noWorkerDirectory) m.(runSOBenchmark) m.(runMOBenchmark) m.
Definition set_noWorkerDirectory (m : main_args) : main_args :=
  set_flags m.(runBenchmark) m.(disableLogging) true m.(runSOBenchmark) m.(runMOBenchmark) m.
Definition set_runSOBenchmark (m : main_args) : main_args :=
  set_flags m.(runBenchmark) m.(disableLogging) m.(noWorkerDirectory) true m.(runMOBenchmark) m.
Definition set_runMOBenchmark (m : main_args) : main_args :=
  set_flags m.(runBenchmark) m.(disableLogging) m.(noWorkerDirectory) m.(runSOBenchmark) true m.

(** ** [parse_main_args] *)

Definition is_one_of (a : string) (names : list string) : bool := existsb (String.eqb a) names.

(** The loop over [argv], after the program's name: the arguments so far and
    [modeSet]. [nextArg] takes the next argument, whatever it looks like. *)
Fixpoint parse_loop (argv : list string) (mainArgs : main_args) (modeSet : bool) :
    outcome (main_args * bool) :=
  match argv with
  | [] => Ret (mainArgs, modeSet)
  | a :: rest =>
      let nextArg (use : string → outcome main_args) : outcome (main_args * bool) :=
        match rest with
        | [] => Throw (runtime_error (a +:+ " requires a value"))
        | v :: rest =>
            match use v with
            | Ret mainArgs => parse_loop rest mainArgs modeSet
            | Throw e => Throw e
            | Crash f => Crash f
            end
        end in
      if is_one_of a ["--help"; "-h"] then parse_loop rest mainArgs modeSet
      else if String.eqb a "--controller" then parse_loop rest (set_isController true mainArgs) true
      else if String.eqb a "--benchmark-so" then parse_loop rest (set_runSOBenchmark mainArgs) modeSet
      else if String.eqb a "--benchmark-mo" then parse_loop rest (set_runMOBenchmark mainArgs) modeSet
      else if String.eqb a "--benchmark" then parse_loop rest (set_runBenchmark mainArgs) modeSet
      else if String.eqb a "--disable-logging" then parse_loop rest (set_disableLogging mainArgs) modeSet
      else if String.eqb a "--worker" then parse_loop rest (set_isController false mainArgs) true
      else if String.eqb a "--address" then nextArg (λ v, Ret (set_address v mainArgs))
      else if String.eqb a "--workers" then
        nextArg (λ v, n ← stoul v; Ret (set_workers n mainArgs))
      else if String.eqb a "--strategy" then nextArg (λ v, Ret (set_strategy v mainArgs))
      else if String.eqb a "--mode" then nextArg (λ v, Ret (set_workerMode v mainArgs))
      else if String.eqb a "--min-pop-size" then
        nextArg (λ v, n ← stoul v; Ret (set_minPopSize n mainArgs))
      else if String.eqb a "--cache-dir" then nextArg (λ v, Ret (set_cacheDir v mainArgs))
      else if String.eqb a "--worker-dir" then nextArg (λ v, Ret (set_workerDir v mainArgs))
      else if String.eqb a "--no-worker-isolation" then
        parse_loop rest (set_noWorkerDirectory mainArgs) modeSet
      else Ret (mainArgs, false)
  end.

Definition parse_main_args (argv : list string) : outcome (option main_args) :=
  '(mainArgs, modeSet) ← parse_loop argv main_args_init false;
  Ret (if (modeSet : bool) then Some mainArgs else None).

(** ** Options *)

Inductive opt :=
  | Help (name : string)
  | Controller
  | WorkerOpt
  | BenchmarkSo
  | BenchmarkMo
  | Benchmark
  | DisableLogging
  | NoWorkerIsolation
  | Address (v : string)
  | Workers (v : string)
  | Strategy (v : string)
  | Mode (v : string)
  | MinPopSize (v : string)
  | CacheDir (v : string)
  | WorkerDir (v : string).

(** The arguments of an option. *)
Definition render (o : opt) : list string :=
  match o with
  | Help name => [name]
  | Controller => ["--controller"]
  | WorkerOpt => ["--worker"]
  | BenchmarkSo => ["--benchmark-so"]
  | BenchmarkMo => ["--benchmark-mo"]
  | Benchmark => ["--benchmark"]
  | DisableLogging => ["--disable-logging"]
  | NoWorkerIsolation => ["--no-worker-isolation"]
  | Address v => ["--address"; v]
  | Workers v => ["--workers"; v]
  | Strategy v => ["--strategy"; v]
  | Mode v => ["--mode"; v]
  | MinPopSize v => ["--min-pop-size"; v]
  | CacheDir v => ["--cache-dir"; v]
  | WorkerDir v => ["--worker-dir"; v]
  end.

Definition is_number (v : string) : Prop := ∃ n, stoul v = Ret n.

Definition opt_ok (o : opt) : Prop :=
  match o with
  | Help name => is_one_of name ["--help"; "-h"] = true
  | Workers v | MinPopSize v => is_number v
  | _ => True
  end.

(** The last value that [f] finds. *)
Definition last_value {A} (f : opt → option A) (d : A) (os : list opt) : A :=
  foldl (λ v o, default v (f o)) d os.

Definition mode_of (o : opt) : option bool :=
  match o with Controller => Some true | WorkerOpt => Some false | _ => None end.
Definition flag_of (b : opt → bool) (o : opt) : option bool := if b o then Some true else None.
Definition number_of (v : string) : option Z := match stoul v with Ret n => Some n | _ => None end.

(** What a sequence of options means. *)
Definition args_of (os : list opt) : main_args := {|
  isController := last_value mode_of false os;
  address := last_value (λ o, match o with Address v => Some v | _ => None end) "" os;
  defaultAddressWorker := "tcp://localhost:5000";
  defaultAddressController := "tcp://0.0.0.0:5000";
  workers := last_value (λ o, match o with Workers v => number_of v | _ => None end) 2 os;
  strategy := last_value (λ o, match o with Strategy v => Some v | _ => None end) "BY_PERFORMANCE" os;
  workerMode := last_value (λ o, match o with Mode v => Some v | _ => None end) "ARCHIPELAGO_BASED" os;
  minPopSize := last_value (λ o, match o with MinPopSize v => number_of v | _ => None end) 80 os;
  cacheDir := last_value (λ o, match o with CacheDir v => Some v | _ => None end) "" os;
  defaultCacheDirWorker := "worker_cache";
  defaultCacheDirController := "controller_cache";
  runBenchmark := last_value (flag_of (λ o, match o with Benchmark => true | _ => false end)) false os;
  disableLogging := last_value (flag_of (λ o, match o with DisableLogging => true | _ => false end)) false os;
  noWorkerDirectory := last_value (flag_of (λ o, match o with NoWorkerIsolation => true | _ => false end)) false os;
  workerDir := last_value (λ o, match o with WorkerDir v => Some v | _ => None end) "" os;
  runSOBenchmark := last_value (flag_of (λ o, match o with BenchmarkSo => true | _ => false end)) false os;
  runMOBenchmark := last_value (flag_of (λ o, match o with BenchmarkMo => true | _ => false end)) false os |}.

Definition mode_given (os : list opt) : Prop := Exists (λ o, is_Some (mode_of o)) os.


(** ** The loop reads one option at a time *)

Definition is_mode (o : opt) : bool := bool_decide (is_Some (mode_of o)).

(** What reading an option does to the arguments. *)
Definition apply_opt (o : opt) (m : main_args) : main_args :=
  match o with
  | Help _ => m
  | Controller => set_isController true m
  | WorkerOpt => set_isController false m
  | BenchmarkSo => set_runSOBenchmark m
  | BenchmarkMo => set_runMOBenchmark m
  | Benchmark => set_runBenchmark m
  | DisableLogging => set_disableLogging m
  | NoWorkerIsolation => set_noWorkerDirectory m
  | Address v => set_address v m
  | Workers v => set_workers (default m.(workers) (number_of v)) m
  | Strategy v => set_strategy v m
  | Mode v => set_workerMode v m
  | MinPopSize v => set_minPopSize (default m.(minPopSize) (number_of v)) m
  | CacheDir v => set_cacheDir v m
  | WorkerDir v => set_workerDir v m
  end.

Lemma args_of_snoc os o : args_of (os ++ [o]) = apply_opt o (args_of os).
Proof.
  unfold args_of, last_value. rewrite !foldl_app. by destruct o.
Qed.

Lemma mode_given_snoc os o : mode_given (os ++ [o]) ↔ mode_given os ∨ is_mode o = true.
Proof.
  unfold mode_given, is_mode. by rewrite Exists_app, Exists_cons, Exists_nil, bool_decide_eq_true; intuition.
Qed.

Lemma is_number_stoul v : is_number v → ∃ n, stoul v = Ret n ∧ number_of v = Some n.
Proof. intros [n Hn]. exists n. unfold number_of. by rewrite Hn. Qed.

Lemma parse_render o rest m s :
  opt_ok o → parse_loop (render o ++ rest) m s = parse_loop rest (apply_opt o m) (s || is_mode o).
Proof.
  destruct o; cbn [opt_ok]; intros Hok;
    try (destruct (is_number_stoul _ Hok) as (n & Hn & Hn'));
    cbn -[is_one_of]; rewrite ?Hok, ?orb_true_r, ?orb_false_r; try done;
    cbn; by rewrite Hn, Hn'.
Qed.

(** A loop that ends with a mode set has read an option. *)
Lemma parse_first a rest m s m' :
  parse_loop (a :: rest) m s = Ret (m', true) →
  ∃ o rest', a :: rest = render o ++ rest' ∧ opt_ok o.
Proof.
  cbn -[is_one_of]. destruct (is_one_of a _) eqn:Hh; [by exists (Help a), rest|].
  repeat match goal with
  | |- (if String.eqb a ?n then _ else _) = _ → _ => destruct (String.eqb_spec a n) as [->|_]
  end; try done;
    first
    [ intros _; exists Controller, rest; done | intros _; exists WorkerOpt, rest; done
    | intros _; exists BenchmarkSo, rest; done | intros _; exists BenchmarkMo, rest; done
    | intros _; exists Benchmark, rest; done | intros _; exists DisableLogging, rest; done
    | intros _; exists NoWorkerIsolation, rest; done | idtac ].
  all: destruct rest as [|v rest]; [done|].
  all: try (destruct (stoul v) as [n| |] eqn:Hn; [|done|done]); intros _.
  all: first
    [ exists (Address v), rest; done | exists (Strategy v), rest; done | exists (Mode v), rest; done
    | exists (CacheDir v), rest; done | exists (WorkerDir v), rest; done
    | exists (Workers v), rest; split; [done|by exists n]
    | exists (MinPopSize v), rest; split; [done|by exists n] ].
Qed.

Lemma parse_loop_options os pre s :
  Forall opt_ok os →
  (s = true ↔ mode_given pre) →
  ∃ s', parse_loop (concat (render <$> os)) (args_of pre) s = Ret (args_of (pre ++ os), s') ∧
        (s' = true ↔ mode_given (pre ++ os)).
Proof.
  intros Hos. revert pre s. induction Hos as [|o os Ho _ IH]; intros pre s Hs.
  - exists s. by rewrite app_nil_r.
  - change (concat (render <$> o :: os)) with (render o ++ concat (render <$> os)).
    rewrite parse_render by done. rewrite <- args_of_snoc, (cons_middle o pre os), app_assoc.
    apply IH. rewrite orb_true_iff, mode_given_snoc. naive_solver.
Qed.

Lemma render_length o : (0 < length (render o))%nat.
Proof. destruct o; cbn; lia. Qed.

Lemma parse_loop_reads n argv m s m' :
  (length argv ≤ n)%nat →
  parse_loop argv m s = Ret (m', true) →
  ∃ os, argv = concat (render <$> os) ∧ Forall opt_ok os.
Proof.
  revert argv m s. induction n as [|n IH]; intros [|a rest] m s Hn; try (cbn in Hn; lia);
    [exists []; split; [done|constructor]..|].
  intros Hp. destruct (parse_first _ _ _ _ _ Hp) as (o & rest' & Hargv & Ho).
  rewrite Hargv in Hp, Hn |- *. rewrite parse_render in Hp by done.
  rewrite length_app in Hn. pose proof (render_length o).
  destruct (IH rest' _ _ ltac:(lia) Hp) as (os & -> & Hos). exists (o :: os). by split; [|constructor].
Qed.

(** ** Theorems *)

(** C27. [parse_main_args] accepts exactly the command lines that are a sequence of known
    options, each with its value, the numbers readable and a mode among them; the
    arguments it returns are, field by field, the last value given or the default. *)
Theorem parse_main_args_spec argv ma :
  parse_main_args argv = Ret (Some ma) ↔
  ∃ os, argv = concat (render <$> os) ∧ Forall opt_ok os ∧ mode_given os ∧ ma = args_of os.
Proof.
  assert (Hstart : false = true ↔ mode_given []) by (split; [done|intros H; inversion H]).
  unfold parse_main_args. change main_args_init with (args_of []). split.
  - destruct (parse_loop argv (args_of []) false) as [[m []]| |] eqn:Hp; cbn; [|done..].
    intros [= <-].
    destruct (parse_loop_reads (length argv) _ _ _ _ ltac:(done) Hp) as (os & -> & Hos).
    destruct (parse_loop_options os [] false Hos Hstart) as (s' & Hp' & Hs').
    rewrite Hp' in Hp. injection Hp as <- ->. exists os. naive_solver.
  - intros (os & -> & Hos & Hmode & ->).
    destruct (parse_loop_options os [] false Hos Hstart) as (s' & -> & Hs').
    cbn. by rewrite (proj2 Hs' Hmode).
Qed.
