(* ===== verification/Benchmarks.v ===== *)
(** * benchmark/{benchmark_runner,so_benchmark,mo_benchmark}.cpp

    A benchmark measures, on every problem of its suite, the solver with all
    algorithms and then with each algorithm alone. It is a client of the solver
    through the class [MetaSolver]: five member functions of
    [distributed_solver] and what a completed run means. *)
From S2P Require Import Prelude Doubles DoubleOrder Pagmo Island PopulationTools LibLoader UdpRegistry BenchmarkStats.

(** The member functions a benchmark calls. *)
Class MetaSolver `{PG : Pagmo} := {
  solver : Type;
  ds_evolve : problem → list algorithm → Z → Z → M solver unit;
  ds_wait_until_completion : M solver vector_double;
  ds_get_best_individual : solver → outcome vector_double;
  ds_wait_until_workers_connect : M solver unit
}.

(** [usable]: every call keeps it, and from a usable solver an evolution that
    was started and awaited leaves a best individual [measured] for it. *)
Class MetaSolverLaws `{MS : MetaSolver} := {
  usable : solver → Prop;
  measured : problem → list algorithm → Z → Z → vector_double → Prop;
  evolve_usable : ∀ p algs n c s o s', usable s → ds_evolve p algs n c s = (o, s') → usable s';
  wait_usable : ∀ s o s', usable s → ds_wait_until_completion s = (o, s') → usable s';
  connect_usable : ∀ s o s', usable s → ds_wait_until_workers_connect s = (o, s') → usable s';
  run_measured : ∀ p algs n c s s1 y s2 x,
    usable s → algs ≠ [] → 0 ≤ n < 2 ^ 59 →
    ds_evolve p algs n c s = (Ret tt, s1) → ds_wait_until_completion s1 = (Ret y, s2) →
    ds_get_best_individual s2 = Ret x → measured p algs n c x
}.

(** The algorithms and problems of the suites. *)
Class BenchmarkSuite `{PG : Pagmo} := {
  gaco : Z → algorithm; de : Z → algorithm; sade : Z → algorithm; de1220 : Z → algorithm;
  gwo : Z → algorithm; pso : Z → algorithm; bee_colony : Z → algorithm; simulated_annealing : algorithm;
  nsga2 : Z → algorithm; moead : Z → algorithm; moead_gen : Z → algorithm; maco : Z → algorithm;
  nspso : Z → algorithm; ihs : Z → algorithm;
  schwefel : Z → problem; rosenbrock : Z → problem; rastrigin : Z → problem; ackley : Z → problem;
  griewank : Z → problem;
  zdt : Z → Z → problem
}.

Section Benchmarks.
Context {PG : Pagmo} {PS : PagmoSort} {SS : StdSort} {PI : PagmoIsland} {PM : PagmoMetrics}.
Context {MS : MetaSolver} {BS : BenchmarkSuite}.
(** The readings of the clock, and the formatted dates, in the order they are taken. *)
Context (clock : nat → Z) (dates : nat → string).

Record benchmark := {
  ds : solver;
  bench : benchmark_stats;
  disk : os;
  readings : nat
}.

Definition on_solver {A} (m : M solver A) : M benchmark A :=
  zoom ds (λ d b, {| ds := d; bench := b.(bench); disk := b.(disk); readings := b.(readings) |}) m.
Definition on_bench {A} (m : M benchmark_stats A) : M benchmark A :=
  zoom bench (λ s b, {| ds := b.(ds); bench := s; disk := b.(disk); readings := b.(readings) |}) m.
Definition on_disk {A} (m : M os A) : M benchmark A :=
  zoom disk (λ o b, {| ds := b.(ds); bench := b.(bench); disk := o; readings := b.(readings) |}) m.

(** A new reading of the clock. *)
Definition tick : M benchmark nat := λ b,
  (Ret b.(readings),
   {| ds := b.(ds); bench := b.(bench); disk := b.(disk); readings := S b.(readings) |}).

(** ** [benchmark_compare_runner] *)

(** One timed run of the solver. *)
Definition timed_run (prob : problem) (popSize : Z) (pointID : string) (algs : list algorithm) :
    M benchmark unit :=
  t ← tick;
  _ ← on_bench (start_timer (clock t));
  _ ← on_solver (ds_evolve prob algs popSize 10);
  _ ← on_solver ds_wait_until_completion;
  b ← get_state;
  best ← lift (ds_get_best_individual b.(ds));
  t ← tick;
  on_bench (add_data_point best pointID (stop_timer (clock t) b.(bench))).

Definition benchmark_compare_runner (prob : problem) (popSize : Z) (algs : list algorithm) :
    M benchmark unit :=
  _ ← timed_run prob popSize "META_ALL" algs;
  for_each algs (λ currentAlg,
    timed_run prob popSize ("SINGLE_" +:+ algorithm_get_name currentAlg) [currentAlg]).

(** ** The suites *)

Definition construct_so_algorithms (genCount : Z) : list algorithm :=
  [gaco genCount; de genCount; sade genCount; de1220 genCount; gwo genCount; pso genCount;
   bee_colony genCount; simulated_annealing].

Definition construct_mo_algorithms (genCount : Z) : list algorithm :=
  [nsga2 genCount; moead genCount; moead_gen genCount; maco genCount; nspso genCount; ihs genCount].

Definition get_so_algorithm_count : nat := length (construct_so_algorithms 100).
Definition get_mo_algorithm_count : nat := length (construct_mo_algorithms 100).

(** [benchmark_compare_so] and [benchmark_compare_mo], with their algorithms. *)
Definition benchmark_compare (algs : list algorithm) (prob : problem) (popSize : Z) : M benchmark unit :=
  _ ← on_solver ds_wait_until_workers_connect;
  _ ← benchmark_compare_runner prob popSize algs;
  on_bench (end_current_measurement "").

Definition benchmark_compare_so (prob : problem) (popSize genCount : Z) : M benchmark unit :=
  benchmark_compare (construct_so_algorithms genCount) prob popSize.
Definition benchmark_compare_mo (prob : problem) (popSize genCount : Z) : M benchmark unit :=
  benchmark_compare (construct_mo_algorithms genCount) prob popSize.

(** One problem of a suite. *)
Definition run_problem (compare : problem → Z → Z → M benchmark unit) (popSize genCount : Z)
    (prob : problem) : M benchmark unit :=
  _ ← on_bench (set_problem prob);
  compare prob popSize genCount.

(** The end of both benchmarks, with the default directories. *)
Definition save_results (outputHtml outputCsv : bool) : M benchmark unit :=
  _ ← (if outputCsv then
         t ← tick; b ← get_state;
         on_disk (save_all_results_as_csv "./benchmark_results_csv/" true (dates t) b.(bench))
       else mret tt);
  if outputHtml then
    t ← tick; b ← get_state;
    on_disk (save_all_results_as_html "./benchmark_results_html/" true (dates t) b.(bench))
  else mret tt.

Definition so_problems : list problem :=
  [schwefel 3; rosenbrock 40; rastrigin 40; ackley 40; griewank 40].
Definition mo_problems : list problem := (λ id, zdt id 30) <$> [1; 2; 3; 4].

Definition run_so_benchmark (outputHtml outputCsv : bool) (popSize genCount : Z) : M benchmark unit :=
  _ ← for_each so_problems (run_problem benchmark_compare_so popSize genCount);
  save_results outputHtml outputCsv.

Definition run_mo_benchmark (outputHtml outputCsv : bool) (popSize genCount : Z) : M benchmark unit :=
  _ ← for_each mo_problems (run_problem benchmark_compare_mo popSize genCount);
  save_results outputHtml outputCsv.

(** ** What a benchmark measures *)

(** The runs of a measurement and the names of their data points. *)
Definition runs_of (algs : list algorithm) : list (list algorithm) := algs :: ((λ a, [a]) <$> algs).
Definition ids_of (algs : list algorithm) : list string :=
  "META_ALL" :: ((λ a, "SINGLE_" +:+ algorithm_get_name a) <$> algs).

Context {ML : MetaSolverLaws}.

(** [b'] has the data points of [runs] more than [b]. *)
Record adds_points (prob : problem) (popSize : Z) (runs : list (list algorithm)) (ids : list string)
    (b b' : benchmark) : Prop := {
  ap_usable : usable b'.(ds);
  ap_disk : b'.(disk) = b.(disk);
  ap_problem : b'.(bench).(_problem) = b.(bench).(_problem);
  ap_buffer : b'.(bench).(_csvStatsBuffer) = b.(bench).(_csvStatsBuffer);
  ap_points : ∃ xs ts,
    Forall2 (λ algs x, measured prob algs popSize 10 x) runs xs ∧ length ts = length xs ∧
    b'.(bench).(_dataPoints) = b.(bench).(_dataPoints) ++ xs ∧
    b'.(bench).(_pointIDs) = b.(bench).(_pointIDs) ++ ids ∧
    b'.(bench).(_elapsedTimes) = b.(bench).(_elapsedTimes) ++ ts
}.

Lemma adds_points_trans prob popSize r1 i1 r2 i2 b b1 b2 :
  adds_points prob popSize r1 i1 b b1 → adds_points prob popSize r2 i2 b1 b2 →
  adds_points prob popSize (r1 ++ r2) (i1 ++ i2) b b2.
Proof.
  intros [_ D1 P1 B1 (x1 & t1 & F1 & L1 & X1 & I1 & T1)] [U D2 P2 B2 (x2 & t2 & F2 & L2 & X2 & I2 & T2)].
  split; [done|congruence..|]. exists (x1 ++ x2), (t1 ++ t2).
  rewrite X2, X1, I2, I1, T2, T1, <- !app_assoc, !length_app.
  split_and!; [by apply Forall2_app|lia|done..].
Qed.

Lemma timed_run_adds prob popSize id algs b b' :
  usable b.(ds) → algs ≠ [] → 0 ≤ popSize < 2 ^ 59 →
  timed_run prob popSize id algs b = (Ret tt, b') → adds_points prob popSize [algs] [id] b b'.
Proof.
  intros Hu Hne Hsz Hrun. unfold timed_run in Hrun.
  apply bind_ret_inv in Hrun as (t & b1 & [= <- <-] & Hrun).
  apply bind_ret_inv in Hrun as ([] & b2 & [= <-] & Hrun).
  apply bind_ret_inv in Hrun as ([] & b3 & He & Hrun). unfold on_solver, zoom in He. cbn [ds] in He.
  destruct (ds_evolve prob algs popSize 10 b.(ds)) as [o s1] eqn:E1. injection He as -> <-.
  apply bind_ret_inv in Hrun as (y & b4 & Hw & Hrun). unfold on_solver, zoom in Hw. cbn [ds] in Hw.
  destruct (ds_wait_until_completion s1) as [o2 s2] eqn:E2. injection Hw as -> <-.
  apply bind_ret_inv in Hrun as (b5 & b6 & [= <- <-] & Hrun).
  apply bind_ret_inv in Hrun as (x & b7 & Hb & Hrun). cbn [ds] in Hb. unfold lift in Hb.
  injection Hb as Hb <-.
  apply bind_ret_inv in Hrun as (t2 & b8 & [= <- <-] & Hrun). injection Hrun as <-.
  split; try done; cbn.
  - eapply wait_usable; [|exact E2]. by eapply evolve_usable.
  - eexists [x], [_]. split; [|by split_and!]. constructor; [|constructor].
    by apply (run_measured prob algs popSize 10 b.(ds) s1 y s2 x).
Qed.

Lemma singles_add prob popSize algs b b' :
  usable b.(ds) → 0 ≤ popSize < 2 ^ 59 →
  for_each algs (λ a, timed_run prob popSize ("SINGLE_" +:+ algorithm_get_name a) [a]) b = (Ret tt, b') →
  adds_points prob popSize ((λ a, [a]) <$> algs) ((λ a, "SINGLE_" +:+ algorithm_get_name a) <$> algs) b b'.
Proof.
  intros Hu Hsz. revert b Hu. induction algs as [|a algs IH]; intros b Hu Hrun.
  - injection Hrun as <-. split; try done. exists [], []. rewrite !app_nil_r. by split_and!.
  - apply bind_ret_inv in Hrun as ([] & b1 & H1 & Hrun).
    assert (adds_points prob popSize [[a]] ["SINGLE_" +:+ algorithm_get_name a] b b1) as Ha
      by by apply timed_run_adds.
    change (adds_points prob popSize ([[a]] ++ ((λ a, [a]) <$> algs))
      (["SINGLE_" +:+ algorithm_get_name a] ++ ((λ a, "SINGLE_" +:+ algorithm_get_name a) <$> algs)) b b').
    eapply adds_points_trans; [exact Ha|]. apply IH; [apply Ha|done].
Qed.

Lemma runner_adds prob popSize algs b b' :
  usable b.(ds) → algs ≠ [] → 0 ≤ popSize < 2 ^ 59 →
  benchmark_compare_runner prob popSize algs b = (Ret tt, b') →
  adds_points prob popSize (runs_of algs) (ids_of algs) b b'.
Proof.
  intros Hu Hne Hsz Hrun. apply bind_ret_inv in Hrun as ([] & b1 & H1 & Hrun).
  apply timed_run_adds in H1; [|done..].
  apply (adds_points_trans _ _ [algs] ["META_ALL"] _ _ _ b1); [done|].
  apply singles_add; [apply H1|done..].
Qed.

(** A table made from one best individual per run on a problem. *)
Definition section_for (popSize : Z) (algs : list algorithm) (prob : problem) (sec : string * string) : Prop :=
  ∃ s : benchmark_stats, s.(_problem) = prob ∧
    Forall2 (λ algs x, measured prob algs popSize 10 x) (runs_of algs) s.(_dataPoints) ∧
    s.(_pointIDs) = ids_of algs ∧ length s.(_elapsedTimes) = length s.(_dataPoints) ∧
    sec.2 = problem_get_name prob ∧ _get_current_stats_csv s = Ret sec.1.

(** Between measurements. *)
Record between (b : benchmark) : Prop := {
  bt_usable : usable b.(ds);
  bt_points : b.(bench).(_dataPoints) = [];
  bt_ids : b.(bench).(_pointIDs) = [];
  bt_times : b.(bench).(_elapsedTimes) = []
}.

Lemma problem_measured popSize algs prob b b' :
  between b → algs ≠ [] → 0 ≤ popSize < 2 ^ 59 →
  (_ ← on_bench (set_problem prob); benchmark_compare algs prob popSize) b = (Ret tt, b') →
  between b' ∧ b'.(disk) = b.(disk) ∧
  ∃ sec, b'.(bench).(_csvStatsBuffer) = b.(bench).(_csvStatsBuffer) ++ [sec] ∧ section_for popSize algs prob sec.
Proof.
  intros [Hu Hx Hi Ht] Hne Hsz Hrun. unfold benchmark_compare in Hrun.
  apply bind_ret_inv in Hrun as ([] & b1 & [= <-] & Hrun).
  apply bind_ret_inv in Hrun as ([] & b2 & Hc & Hrun). unfold on_solver, zoom in Hc. cbn [ds] in Hc.
  destruct (ds_wait_until_workers_connect b.(ds)) as [o s1] eqn:E1. injection Hc as -> <-.
  apply bind_ret_inv in Hrun as ([] & b3 & Hr & Hrun).
  apply runner_adds in Hr as [U D P B (xs & ts & F & L & X & I & T)];
    [|by eapply connect_usable|done..].
  cbn [bench disk _problem _csvStatsBuffer _dataPoints _pointIDs _elapsedTimes with_problem] in *.
  rewrite Hx in X. rewrite Hi in I. rewrite Ht in T. cbn [app] in X, I, T.
  unfold on_bench, zoom in Hrun. destruct (end_current_measurement "" b3.(bench)) as [o s] eqn:E.
  injection Hrun as -> <-. unfold end_current_measurement in E.
  apply bind_ret_inv in E as (s0 & s1' & [= <- <-] & E).
  apply bind_ret_inv in E as (csv & s2 & Hcsv & E). unfold lift in Hcsv. injection Hcsv as Hcsv <-.
  injection E as <-. split; [by split|]. split; [done|].
  exists (csv, problem_get_name prob). cbn. rewrite B. split; [by rewrite P|].
  exists b3.(bench). rewrite X, T, I. by split_and!.
Qed.

Lemma suite_measured popSize algs problems b b' :
  between b → algs ≠ [] → 0 ≤ popSize < 2 ^ 59 →
  for_each problems (λ prob, _ ← on_bench (set_problem prob); benchmark_compare algs prob popSize) b = (Ret tt, b') →
  between b' ∧ b'.(disk) = b.(disk) ∧
  ∃ secs, b'.(bench).(_csvStatsBuffer) = b.(bench).(_csvStatsBuffer) ++ secs ∧
    Forall2 (section_for popSize algs) problems secs.
Proof.
  intros Hb Hne Hsz. revert b Hb. induction problems as [|prob problems IH]; intros b Hb Hrun.
  { injection Hrun as <-. split; [done|]. split; [done|]. exists []. by rewrite app_nil_r. }
  apply bind_ret_inv in Hrun as ([] & b1 & H1 & Hrun).
  apply problem_measured in H1 as (Hb1 & D1 & sec & B1 & Hsec); [|done..].
  apply IH in Hrun as (Hb2 & D2 & secs & B2 & Hsecs); [|done].
  split; [done|]. split; [congruence|]. exists (sec :: secs).
  rewrite B2, B1, <- app_assoc. split; [done|by constructor].
Qed.

Lemma save_keeps html csv b b' :
  save_results html csv b = (Ret tt, b') → b'.(bench) = b.(bench) ∧ b'.(ds) = b.(ds).
Proof.
  intros H. unfold save_results in H. apply bind_ret_inv in H as ([] & b1 & H1 & H).
  assert (b1.(bench) = b.(bench) ∧ b1.(ds) = b.(ds)) as [<- <-].
  { destruct csv; [|by injection H1 as <-]. cbn in H1.
    apply bind_ret_inv in H1 as (t & b2 & [= <- <-] & H1).
    apply bind_ret_inv in H1 as (b3 & b4 & [= <- <-] & H1). unfold on_disk, zoom in H1.
    destruct (save_all_results_as_csv _ _ _ _ _). by injection H1 as -> <-. }
  destruct html; [|by injection H as <-].
  apply bind_ret_inv in H as (t & b2 & [= <- <-] & H).
  apply bind_ret_inv in H as (b3 & b4 & [= <- <-] & H). unfold on_disk, zoom in H.
  destruct (save_all_results_as_html _ _ _ _ _). by injection H as -> <-.
Qed.

(** C30. A benchmark that returns has measured every problem of its suite, in
    order: one table per problem, made of a best individual for the run with
    all algorithms and one for each algorithm alone, named after it; no data
    points are left over for the next measurement. *)
Theorem benchmark_measures_all html csv popSize genCount b b' :
  between b → 0 ≤ popSize < 2 ^ 59 →
  (run_so_benchmark html csv popSize genCount b = (Ret tt, b') →
   between b' ∧ ∃ secs, b'.(bench).(_csvStatsBuffer) = b.(bench).(_csvStatsBuffer) ++ secs ∧
     Forall2 (section_for popSize (construct_so_algorithms genCount)) so_problems secs) ∧
  (run_mo_benchmark html csv popSize genCount b = (Ret tt, b') →
   between b' ∧ ∃ secs, b'.(bench).(_csvStatsBuffer) = b.(bench).(_csvStatsBuffer) ++ secs ∧
     Forall2 (section_for popSize (construct_mo_algorithms genCount)) mo_problems secs).
Proof.
  intros Hb Hsz.
  split; intros Hrun; apply bind_ret_inv in Hrun as ([] & b1 & H1 & H2);
    apply suite_measured in H1 as ([Hu Hx Hi Ht] & _ & Hsecs); try done;
    destruct (save_keeps _ _ _ _ H2) as [E1 E2]; rewrite E1;
    (split; [by split; rewrite ?E1, ?E2|done]).
Qed.
End Benchmarks.
