(* ===== verification/BenchmarkSolver.v ===== *)
(** * The distributed solver as a benchmark's solver

    [distributed_solver] implements the interface of Benchmarks.v: every
    evolution and every wait for workers sees an environment of its own (the
    workers' statistics change between two calls), and the data points of a benchmark are best
    individuals of archipelagos that followed their work plan. *)
From S2P Require Import Prelude Doubles DoubleOrder WorkerInfo Pagmo Island PopulationTools WorkPlan Solver.
From S2P Require Import Messages Codec LibLoader UdpRegistry BenchmarkStats Benchmarks WorkScenario BenchmarkReport.

Section BenchmarkSolver.
Context {PG : Pagmo} {PS : PagmoSort} {SS : StdSort} {PI : PagmoIsland} {PA : PagmoArchipelago}.
Context {PL : PagmoLaws} {PIL : PagmoIslandLaws} {PAL : PagmoArchipelagoLaws}.
Context (env : nat → PlanEnvironment) {EL : ∀ k, @PlanEnvironmentLaws (env k)}.
Context (draws : nat → nat → nat → Z) (seeds : nat → nat → Z).
(** The moments at which a wait for workers looks at the repository. *)
Context (patience : nat).

(** The solver and the number of calls on it that looked at the repository; 80
    is the default of [minIslandPopSize]. *)
#[export] Instance distributed_meta_solver : MetaSolver := {|
  solver := distributed_solver * nat;
  ds_evolve := λ p algs n c s,
    let '(o, s') := evolve (PE := env s.2) p algs n c 80 (draws s.2) (seeds s.2) s.1 in (o, (s', S s.2));
  ds_wait_until_completion := zoom fst (λ d s, (d, s.2)) wait_until_completion;
  ds_get_best_individual := λ s, get_best_individual s.1;
  ds_wait_until_workers_connect := λ s,
    (_ ← wait_until_expected_connect (PE := env s.2) patience s.1; Ret tt, (s.1, S s.2))
|}.

(** No hints, and workers are expected. *)
Definition ready (s : distributed_solver) : Prop := s.(_initialHints) = [] ∧ 0 < s.(_expectedWorkerCount).

Lemma build_islands_ready n i workPlan prob dr sd s o s' :
  build_islands n i workPlan prob dr sd s = (o, s') → ready s → ready s'.
Proof.
  revert i s. induction n as [|n IH]; intros i s; [by intros [= _ <-]|].
  cbn [build_islands]. rewrite bind_run. cbn [lift].
  destruct (at_ workPlan i) as [[[[size cycles] w] a]| |]; [|by intros [= _ <-]..].
  rewrite bind_run. cbn [get_state]. rewrite bind_run. cbn [lift].
  destruct (_set_island_hints _ _); [|by intros [= _ <-]..].
  rewrite bind_run. cbn [modify]. intros H Hr. eapply IH; [exact H|]. exact Hr.
Qed.

Lemma evolve_ready (PE : PlanEnvironment) p algs n c m dr sd s o s' :
  evolve p algs n c m dr sd s = (o, s') → ready s → ready s'.
Proof.
  unfold evolve. rewrite bind_run. cbn [get_state]. destruct (_ || _); [by intros [= _ <-]|].
  rewrite bind_run. cbn [modify]. rewrite bind_run. cbn [lift].
  destruct (controller_repository 0); [|by intros [= _ <-]..]. rewrite bind_run. cbn [lift].
  destruct (_generate_work_plan _ _ _ _ _); [|by intros [= _ <-]..].
  rewrite bind_run. destruct (build_islands _ _ _ _ _ _ _) as [[[]| |] s1] eqn:E;
    intros H Hr; apply build_islands_ready in E; try done; [|by injection H as _ <-..].
  rewrite bind_run in H. cbn [modify] in H. injection H as _ <-. by destruct E.
Qed.

Lemma wait_ready s o s' : wait_until_completion s = (o, s') → ready s → ready s'.
Proof.
  unfold wait_until_completion. rewrite bind_run. cbn [get_state]. destruct (_ || _); [by intros [= _ <-]|].
  rewrite bind_run. unfold zoom. destruct (wait_check _) as [[[]| |] a']; by intros [= _ <-].
Qed.

(** A completed wait: the archipelago finished and the answer is its best individual. *)
Lemma wait_inv s x s' :
  wait_until_completion s = (Ret x, s') →
  ∃ a', wait_check s.(_archipelago) = (Ret tt, a') ∧ s' = with_archipelago a' s ∧ get_best_individual s' = Ret x.
Proof.
  unfold wait_until_completion. rewrite bind_run. cbn [get_state]. destruct (_ || _); [done|].
  rewrite bind_run. unfold zoom. destruct (wait_check _) as [[[]| |] a'] eqn:E; [|done..].
  rewrite bind_run. cbn [get_state]. unfold lift. intros [= H <-]. by exists a'.
Qed.

(** [x] is the best individual of an archipelago that followed a plan for the
    problem with exactly these algorithms in turn. *)
Definition measured_by (p : problem) (algs : list algorithm) (n c : Z) (x : vector_double) : Prop :=
  ∃ plan a s, Forall2 (island_for p []) plan (islands_of a) ∧ islands_of a ≠ [] ∧
    round_robin algs 0 (entry_algorithm <$> plan) ∧
    wait_check (archipelago_start c a) = (Ret tt, s.(_archipelago)) ∧
    Forall (λ i, get_problem (get_population i) = p) (islands_of s.(_archipelago)) ∧
    get_best_individual s = Ret x ∧
    let merged := merge_populations (get_population <$> islands_of s.(_archipelago)) in
    (get_nobj p = 1 → get_nc p = 0 → valid_fitness merged.2 → merged.1 ≠ [] →
     ∃ i, merged.1 !! i = Some x ∧ ∀ j, (j < length merged.2)%nat → no_worse merged.2 i j).

Lemma problems_stay p plan a c a' :
  Forall2 (island_for p []) plan (islands_of a) → wait_check (archipelago_start c a) = (Ret tt, a') →
  Forall (λ i, get_problem (get_population i) = p) (islands_of a').
Proof.
  intros Hf Hw. apply wait_check_problems in Hw. rewrite start_problems in Hw.
  assert (Forall (λ q, q = p) (get_problem ∘ get_population <$> islands_of a)) as Hp.
  { apply Forall_fmap. clear Hw. induction Hf as [|e i plan isls (_ & _ & _ & Hi & _) _ IH]; by constructor. }
  rewrite <- Hw in Hp. by apply Forall_fmap in Hp.
Qed.

(** An evolution with the calls' [k]-th environment, started on [s] and awaited,
    which left [s2] and answered [x]: its islands followed the work plan of that
    moment and were started, and [x] is the best individual of the archipelago
    in which they ended. *)
Definition evolution (k : nat) (p : problem) (algs : list algorithm) (n c : Z)
    (s s2 : distributed_solver) (x : vector_double) : Prop :=
  ∃ s1 a plan,
    evolve (PE := env k) p algs n c 80 (draws k) (seeds k) s = (Ret tt, s1) ∧
    s1.(_archipelago) = archipelago_start c a ∧
    _generate_work_plan (PE := later (PE := env k)) s.(_loadBalancingStrategy)
      (optimal_island_count (PE := env k) s) n algs 80 = Ret plan ∧
    round_robin algs 0 (entry_algorithm <$> plan) ∧
    Z.of_nat (length (islands_of a)) = optimal_island_count (PE := env k) s ∧
    Forall2 (island_for p []) plan (islands_of a) ∧
    wait_until_completion s1 = (Ret x, s2) ∧
    wait_check s1.(_archipelago) = (Ret tt, s2.(_archipelago)) ∧
    Forall (λ i, get_problem (get_population i) = p) (islands_of s2.(_archipelago)) ∧
    get_best_individual s2 = Ret x ∧
    let merged := merge_populations (get_population <$> islands_of s2.(_archipelago)) in
    (get_nobj p = 1 → get_nc p = 0 → valid_fitness merged.2 → merged.1 ≠ [] →
     ∃ i, merged.1 !! i = Some x ∧ ∀ j, (j < length merged.2)%nat → no_worse merged.2 i j).

Lemma best_of_islands p s x :
  Forall (λ i, get_problem (get_population i) = p) (islands_of s.(_archipelago)) →
  islands_of s.(_archipelago) ≠ [] → get_best_individual s = Ret x →
  let merged := merge_populations (get_population <$> islands_of s.(_archipelago)) in
  get_nobj p = 1 → get_nc p = 0 → valid_fitness merged.2 → merged.1 ≠ [] →
  ∃ i, merged.1 !! i = Some x ∧ ∀ j, (j < length merged.2)%nat → no_worse merged.2 i j.
Proof.
  intros Hp Hne Hx merged Hobj Hnc Hv Hm. destruct (islands_of s.(_archipelago)) as [|first rest] eqn:Ei; [done|].
  inversion Hp as [|? ? Hfirst _]; subst.
  destruct (best_individual_run s first rest) as (x' & i & Ex & Hi & Hbest); [done| |done|by rewrite Ei..|]; [done|].
  rewrite Ei in Hi, Hbest.
  rewrite Hx in Ex. injection Ex as <-. by exists i.
Qed.

Lemma evolution_run k p algs n c s s1 s2 x :
  ready s → algs ≠ [] → 0 ≤ n < 2 ^ 59 →
  evolve (PE := env k) p algs n c 80 (draws k) (seeds k) s = (Ret tt, s1) →
  wait_until_completion s1 = (Ret x, s2) → evolution k p algs n c s s2 x.
Proof.
  intros [Hh Hw] Hne Hn E Ew.
  assert (0 < optimal_island_count (PE := env k) s) as Hpos by (unfold optimal_island_count, island_count; lia).
  destruct (decide (archipelago_status s.(_archipelago) = busy ∨ archipelago_status s.(_archipelago) = busy_error)) as [Hr|Hr].
  { destruct (proj1 (solver_guards (PE := env k) p algs n c 80 (draws k) (seeds k) s) Hr) as [what E']. congruence. }
  destruct (evolve_run (PE := env k) p algs n c 80 (draws k) (seeds k) s) as
    (s' & a & plan & E' & Ha & _ & Hpl & Hrr & Hl & Hf);
    [by eapply evolve_accessed|done|by split|by rewrite Hh; constructor|].
  rewrite E in E'. injection E' as <-. rewrite Hh in Hf.
  pose proof Ew as (a' & Hc & -> & Hy)%wait_inv. rewrite Ha in Hc.
  pose proof (problems_stay _ _ _ _ _ Hf Hc) as Hp.
  assert (islands_of a' ≠ []) as Hnil.
  { pose proof (f_equal length (wait_check_problems _ _ _ Hc)) as H. rewrite start_problems, !length_fmap in H.
    intros H0. rewrite H0 in H. cbn in H. lia. }
  exists s1, a, plan. rewrite Ha. do 9 (split; [done|]). split; [done|].
  exact (best_of_islands p (with_archipelago a' s1) x Hp Hnil Hy).
Qed.

Lemma run_measured_by p algs n c s s1 y s2 x :
  ready s.1 → algs ≠ [] → 0 ≤ n < 2 ^ 59 →
  ds_evolve p algs n c s = (Ret tt, s1) → ds_wait_until_completion s1 = (Ret y, s2) →
  ds_get_best_individual s2 = Ret x → measured_by p algs n c x.
Proof.
  destruct s as [s k]. cbn [ds_evolve distributed_meta_solver fst snd]. intros Hr Hne Hn He Hwait Hx.
  destruct (evolve (PE := env k) _ _ _ _ _ _ _ _) as [o s1'] eqn:E. injection He as -> <-.
  cbn in Hwait. unfold zoom in Hwait. cbn [fst snd] in Hwait.
  destruct (wait_until_completion s1') as [o w] eqn:Ew. injection Hwait as -> <-. cbn in Hx.
  destruct (evolution_run _ _ _ _ _ _ _ _ _ Hr Hne Hn E Ew) as
    (s2 & a & plan & E' & Ha & _ & Hrr & Hl & Hf & _ & Hc & Hp & Hy & Hbest).
  rewrite E in E'. injection E' as <-. rewrite Hx in Hy. injection Hy as <-. rewrite Ha in Hc.
  exists plan, a, w. split; [done|]. split; [|by split_and!].
  intros H0. rewrite H0 in Hl. destruct Hr as [_ Hw]. unfold optimal_island_count, island_count in Hl. cbn in Hl. lia.
Qed.

Lemma evolve_keeps_ready p algs n c (s : solver) o s' :
  ready s.1 → ds_evolve p algs n c s = (o, s') → ready s'.1.
Proof.
  destruct s as [s k]. intros Hr H. cbn in H.
  destruct (evolve (PE := env k) _ _ _ _ _ _ _ _) as [o' s1] eqn:E. injection H as _ <-.
  exact (evolve_ready (env k) _ _ _ _ _ _ _ _ _ _ E Hr).
Qed.

Lemma wait_keeps_ready (s : solver) o s' :
  ready s.1 → ds_wait_until_completion s = (o, s') → ready s'.1.
Proof.
  destruct s as [s k]. intros Hr H. cbn in H. unfold zoom in H. cbn [fst snd] in H.
  destruct (wait_until_completion s) as [o' s1] eqn:E. injection H as _ <-. eapply wait_ready; [exact E|exact Hr].
Qed.

Lemma connect_keeps_ready (s : solver) o s' :
  ready s.1 → ds_wait_until_workers_connect s = (o, s') → ready s'.1.
Proof. destruct s. by intros Hr [= _ <-]. Qed.

#[export] Instance distributed_meta_solver_laws : MetaSolverLaws := {|
  usable := λ s : solver, ready s.1;
  measured := measured_by;
  evolve_usable := evolve_keeps_ready;
  wait_usable := wait_keeps_ready;
  connect_usable := connect_keeps_ready;
  run_measured := run_measured_by
|}.
End BenchmarkSolver.

(** ** A concrete benchmark *)

#[local] Existing Instance toy_metrics.

#[export] Instance toy_suite : BenchmarkSuite (PG := ToyPagmo) := {|
  gaco := λ _, "gaco"%string; de := λ _, "de"%string; sade := λ _, "sade"%string;
  de1220 := λ _, "de1220"%string; gwo := λ _, "gwo"%string; pso := λ _, "pso"%string;
  bee_colony := λ _, "bee"%string; simulated_annealing := "sa"%string;
  nsga2 := λ _, "nsga2"%string; moead := λ _, "moead"%string; moead_gen := λ _, "moead_gen"%string;
  maco := λ _, "maco"%string; nspso := λ _, "nspso"%string; ihs := λ _, "ihs"%string;
  schwefel := λ _, 1%nat; rosenbrock := λ _, 2%nat; rastrigin := λ _, 3%nat; ackley := λ _, 4%nat;
  griewank := λ _, 5%nat; zdt := λ i _, Z.to_nat i
|}.

Definition toy_env (k : nat) : PlanEnvironment := plan_environment.
#[local] Instance toy_env_laws k : @PlanEnvironmentLaws (toy_env k) := plan_environment_laws.

#[local] Instance toy_solver : MetaSolver (PG := ToyPagmo) :=
  distributed_meta_solver toy_env (λ _, draws) (λ _ _, 7) 1.
#[local] Instance toy_solver_laws : MetaSolverLaws (MS := toy_solver) :=
  distributed_meta_solver_laws toy_env (λ _, draws) (λ _ _, 7) 1.

Definition fresh_benchmark : benchmark (PG := ToyPagmo) :=
  {| ds := (idle_solver [], 0%nat); bench := benchmark_stats_new toy_problem_1; disk := empty_disk;
     readings := 0 |}.

Definition toy_clock (n : nat) : Z := 1000 * Z.of_nat n.

Definition toy_benchmark : outcome unit * benchmark (PG := ToyPagmo) :=
  run_so_benchmark toy_clock (λ _, "2026-01-01 10:00:00") true true 160 1000 fresh_benchmark.

Lemma benchmark_measures_all_witness :
  toy_benchmark.1 = Ret tt ∧ between toy_benchmark.2 ∧
  ∃ secs, toy_benchmark.2.(bench).(_csvStatsBuffer) = secs ∧
    Forall2 (section_for 160 (construct_so_algorithms 1000)) so_problems secs.
Proof.
  assert (toy_benchmark.1 = Ret tt) as E by (vm_compute; reflexivity).
  split; [exact E|].
  destruct (benchmark_measures_all toy_clock (λ _, "2026-01-01 10:00:00"%string) true true 160 1000
    fresh_benchmark toy_benchmark.2) as [H _].
  - split; [|done..]. split; [done|]. vm_compute. reflexivity.
  - lia.
  - apply H. unfold toy_benchmark in E |- *. rewrite <- E. apply surjective_pairing.
Defined.
