(* ===== verification/Logging.v ===== *)
(** * utils/logger_init.cpp, logger_control.cpp: the process's loggers

    A process has one spdlog registry: loggers by name and the default logger,
    which the functions [spdlog::trace] to [spdlog::critical] use. The solver
    and the worker inherit from [logger_control], whose constructor registers a
    logger by a fixed name. The part of spdlog modelled here is the one these
    files use (registry, level tests, opening a log file); [written] is what
    each sink was given, and LogPattern.v and LogOutput.v are what the sinks make
    of it. *)
From Stdlib Require Import Ascii.
From S2P Require Import Prelude LibLoader UdpRegistry Csv PathNormalizer BenchmarkStats.

(** ** spdlog *)

Inductive level_enum := trace | debug | info | warn | err | critical | off.

Definition level_number (l : level_enum) : Z :=
  match l with
  | trace => 0 | debug => 1 | info => 2 | warn => 3 | err => 4 | critical => 5 | off => 6
  end.

Inductive sink :=
  | stdout_color_sink (pattern : string)
  | basic_file_sink (filename pattern : string)
  | null_sink.

#[export] Instance sink_eq_dec : EqDecision sink.
Proof. solve_decision. Defined.

Record logger := {
  name_ : string;
  sinks_ : list sink;
  level_ : level_enum;
  flush_level_ : level_enum
}.

Definition logger_new (name : string) (sinks : list sink) : logger :=
  {| name_ := name; sinks_ := sinks; level_ := info; flush_level_ := off |}.
Definition set_level (l : level_enum) (lg : logger) : logger :=
  {| name_ := lg.(name_); sinks_ := lg.(sinks_); level_ := l; flush_level_ := lg.(flush_level_) |}.
Definition flush_on (l : level_enum) (lg : logger) : logger :=
  {| name_ := lg.(name_); sinks_ := lg.(sinks_); level_ := lg.(level_); flush_level_ := l |}.

Record spdlog := {
  loggers_ : gmap string logger;
  default_logger_ : option logger; (* [None]: a null pointer *)
  written : list (sink * level_enum * string)
}.

(** [registry::registry()] *)
Definition default_sink : sink := stdout_color_sink "%+".
Definition registry_new : spdlog :=
  let l := logger_new "" [default_sink] in
  {| loggers_ := {["" := l]}; default_logger_ := Some l; written := [] |}.

Definition register_logger (l : logger) : M spdlog unit :=
  r ← get_state;
  match r.(loggers_) !! l.(name_) with
  | Some _ => throw (spdlog_ex ("logger with name '" +:+ l.(name_) +:+ "' already exists"))
  | None => put_state {| loggers_ := <[l.(name_) := l]> r.(loggers_);
                         default_logger_ := r.(default_logger_); written := r.(written) |}
  end.

Definition set_default_logger (l : logger) : M spdlog unit :=
  modify (λ r, {| loggers_ := <[l.(name_) := l]> r.(loggers_); default_logger_ := Some l;
                  written := r.(written) |}).

(** [registry::shutdown]: [drop_all]; there is no flusher and no thread pool. *)
Definition shutdown : M spdlog unit :=
  modify (λ r, {| loggers_ := ∅; default_logger_ := None; written := r.(written) |}).

Definition should_log (lg : logger) (l : level_enum) : bool := level_number lg.(level_) <=? level_number l.

(** [logger::sink_it_]: the sinks' own level is trace. *)
Definition sink_it (lg : logger) (l : level_enum) (msg : string) : list (sink * level_enum * string) :=
  (λ s, (s, l, msg)) <$> filter (λ s, s ≠ null_sink) lg.(sinks_).

(** [spdlog::trace(...)] to [spdlog::critical(...)]: a call on the default
    logger's raw pointer. What a sink throws is caught in the logger. *)
Definition log (l : level_enum) (msg : string) : M spdlog unit :=
  r ← get_state;
  match r.(default_logger_) with
  | None => crash (undefined_behaviour "member function of a null logger")
  | Some lg =>
      if should_log lg l then
        put_state {| loggers_ := r.(loggers_); default_logger_ := Some lg;
                     written := r.(written) ++ sink_it lg l msg |}
      else mret tt
  end.

(** [file_helper::open] with truncation. The message's errno text is left out. *)
Definition openable (path : string) (o : os) : bool :=
  bool_decide (path ∉ o.(write_denied)) && bool_decide (path ∉ o.(dirs)) &&
  (String.eqb (parent_path path) "" || bool_decide (parent_path path ∈ o.(dirs))).

Definition open_tries_ : nat := 5.

Fixpoint open_log_file (tries : nat) (path : string) : M os unit :=
  match tries with
  | O => throw (spdlog_ex ("Failed opening file " +:+ path +:+ " for writing"))
  | S tries =>
      _ ← create_directories (parent_path path);
      o ← get_state;
      if openable path o then put_state (set_files (<[path := []]> o.(files)) o)
      else open_log_file tries path
  end.

(** ** logger_init.cpp *)

(** The file system and the registry. *)
Record logging := { log_os : os; spd : spdlog }.

Definition on_log_os {A} : M os A → M logging A := zoom log_os (λ o s, {| log_os := o; spd := s.(spd) |}).
Definition on_spdlog {A} : M spdlog A → M logging A := zoom spd (λ r s, {| log_os := s.(log_os); spd := r |}).

Definition console_pattern : string := "[%Y-%m-%d %H:%M:%S.%e] [%l] %v".
Definition file_pattern : string := "[%Y-%m-%d %H:%M:%S.%e] [%l] [pid:%P] [tid:%t] %v".

Definition file_logger (filePath : string) (enableConsole : bool) : logger :=
  flush_on warn (set_level trace (logger_new "global_logger"
    ((if enableConsole then [stdout_color_sink console_pattern] else []) ++
     [basic_file_sink filePath file_pattern]))).

Definition use_file_logger (filePath : string) (enableConsole : bool) : M logging unit :=
  _ ← on_log_os (create_directories (parent_path filePath));
  _ ← on_log_os (open_log_file open_tries_ filePath);
  let logger := file_logger filePath enableConsole in
  _ ← on_spdlog (register_logger logger);
  on_spdlog (set_default_logger logger).

Definition null_logger : logger := set_level off (logger_new "null_logger" [null_sink]).

Definition use_null_logger : M spdlog unit :=
  _ ← register_logger null_logger;
  set_default_logger null_logger.

Definition shutdown_logger : M spdlog unit := shutdown.

(** [path::stem] and [path::extension] of a file name: the last dot, unless it
    is the first character; "." and ".." have no extension. *)
Fixpoint split_last_dot (s : string) : option (string * string) :=
  match s with
  | "" => None
  | String c r =>
      match split_last_dot r with
      | Some (a, b) => Some (String c a, b)
      | None => if Ascii.eqb c "." then Some (""%string, String c r) else None
      end
  end%string.

Definition stem_and_extension (name : string) : string * string :=
  if String.eqb name "." || String.eqb name ".." then (name, ""%string)
  else match split_last_dot name with
       | None | Some (EmptyString, _) => (name, ""%string)
       | Some r => r
       end.

(** [timestamp]: the formatted time. *)
Definition generate_log_filename (timestamp basePath : string) : string :=
  let '(stem, ext) := stem_and_extension (filename basePath) in
  path_join (parent_path basePath) (stem +:+ "_" +:+ timestamp +:+ ext).

(** ** logger_control *)

(** Its one data member. *)
Record logger_control := { _loggerEnabled : bool }.

Definition logger_control_construct : M spdlog logger_control :=
  _ ← use_null_logger; mret {| _loggerEnabled := false |}.

Definition logger_control_destroy (c : logger_control) : M spdlog unit :=
  if c.(_loggerEnabled) then shutdown_logger else mret tt.

Abbreviation control_state := (logger_control * logging)%type.

Definition set_enabled (b : bool) : M control_state unit := modify (λ s, ({| _loggerEnabled := b |}, s.2)).
Definition on_logging {A} : M logging A → M control_state A := zoom snd (λ l s, (s.1, l)).

Definition enable_logging_to (logFilePath : string) (writeToConsole : bool) : M control_state unit :=
  _ ← set_enabled true;
  on_logging (use_file_logger logFilePath writeToConsole).

(** [default_name]: what the derived class calls its log. *)
Definition enable_logging (default_name timestamp : string) (writeToConsole : bool) : M control_state unit :=
  _ ← set_enabled true;
  on_logging (use_file_logger (generate_log_filename timestamp default_name +:+ ".log") writeToConsole).

Definition disable_logging : M control_state unit :=
  _ ← set_enabled false;
  on_logging (on_spdlog use_null_logger).

Definition is_logging_enabled (c : logger_control) : bool := c.(_loggerEnabled).

(** ** The life of a process's loggers *)

(** What a program may call on an object, and a message logged in between. *)
Inductive logging_call :=
  | EnableTo (path : string) (console : bool)
  | Enable (default_name timestamp : string) (console : bool)
  | Disable
  | Message (l : level_enum) (msg : string).

Definition do_call (c : logging_call) : M control_state unit :=
  match c with
  | EnableTo path console => enable_logging_to path console
  | Enable name stamp console => enable_logging name stamp console
  | Disable => disable_logging
  | Message l msg => on_logging (on_spdlog (log l msg))
  end.

(** Calls one after the other; the caller goes on when one throws. *)
Definition do_calls (cs : list logging_call) : M control_state unit :=
  for_each cs (λ c, try_catch (do_call c) (λ _, mret tt)).

(** The null logger has its name, and there is a default logger. *)
Definition named (r : spdlog) : Prop :=
  is_Some (r.(loggers_) !! "null_logger"%string) ∧ is_Some r.(default_logger_).

Lemma construct_named r c r' :
  logger_control_construct r = (Ret c, r') → named r' ∧ c = {| _loggerEnabled := false |}.
Proof.
  unfold logger_control_construct, use_null_logger, register_logger.
  rewrite !bind_run. cbn [get_state]. destruct (loggers_ r !! _); [done|]. cbn. intros [= <- <-].
  split; [|done]. split; cbn; [by rewrite lookup_insert_eq|done].
Qed.

Lemma null_logger_taken r :
  is_Some (r.(loggers_) !! "null_logger"%string) →
  use_null_logger r = (Throw (spdlog_ex "logger with name 'null_logger' already exists"), r).
Proof.
  intros [l Hl]. unfold use_null_logger, register_logger. rewrite !bind_run. cbn [get_state].
  change (name_ null_logger) with "null_logger"%string. by rewrite Hl.
Qed.

Lemma log_named l msg r :
  is_Some r.(default_logger_) → ∃ r', log l msg r = (Ret tt, r') ∧ r'.(loggers_) = r.(loggers_) ∧
    r'.(default_logger_) = r.(default_logger_).
Proof.
  intros [lg Hl]. unfold log. rewrite bind_run. cbn [get_state]. rewrite Hl.
  destruct (should_log lg l); eexists; (split; [reflexivity|]); [done|by rewrite Hl].
Qed.

(** Opening the log file returns or throws, and does not touch the registry. *)
Lemma open_log_file_returns n path o :
  ∃ r o', open_log_file n path o = (r, o') ∧ (r = Ret tt ∨ ∃ e, r = Throw e).
Proof.
  revert o. induction n as [|n IH]; intros o; [by eexists _, o; eauto|].
  cbn [open_log_file]. rewrite bind_run. unfold create_directories. cbn [modify].
  rewrite bind_run. cbn [get_state]. destruct (openable _ _); [|apply IH].
  eexists _, _. split; [reflexivity|]. by left.
Qed.

Lemma use_file_logger_keeps path console s :
  named s.(spd) → ∃ o s', use_file_logger path console s = (o, s') ∧ named s'.(spd) ∧ (∀ f, o ≠ Crash f).
Proof.
  intros Hn. unfold use_file_logger. rewrite bind_run. unfold on_log_os at 1, zoom, create_directories at 1, modify.
  rewrite bind_run. unfold on_log_os, zoom. cbn [log_os].
  destruct (open_log_file_returns open_tries_ path
    (set_dirs (list_to_set (with_parents (String.length (parent_path path)) (parent_path path)) ∪ s.(log_os).(dirs))
       s.(log_os))) as (r & o' & -> & [->|[e ->]]); [|by eexists _, _].
  rewrite bind_run. unfold on_spdlog, zoom, register_logger. cbn [spd]. rewrite bind_run. cbn [get_state].
  destruct (loggers_ (spd s) !! _) eqn:E; cbn; [by eexists _, _|].
  eexists _, _. split; [reflexivity|]. split; [|done]. destruct Hn as [Hn _]. split; cbn; [|done].
  by rewrite !lookup_insert_ne.
Qed.

Lemma do_call_keeps c s :
  named s.2.(spd) → ∃ o s', do_call c s = (o, s') ∧ named s'.2.(spd) ∧ (∀ f, o ≠ Crash f).
Proof.
  destruct s as [b s]. intros Hn. destruct c as [path console|name stamp console| |l msg]; cbn [do_call].
  1-2: unfold enable_logging_to, enable_logging; rewrite bind_run; cbn [set_enabled modify];
    unfold on_logging, zoom; cbn [snd];
    match goal with |- context [use_file_logger ?p ?c _] =>
      destruct (use_file_logger_keeps p c s Hn) as (? & ? & -> & ? & ?) end; by eexists _, _.
  - unfold disable_logging. rewrite bind_run. cbn [set_enabled modify]. unfold on_logging, on_spdlog, zoom. cbn [snd].
    rewrite null_logger_taken by apply Hn. by eexists _, _.
  - unfold on_logging, on_spdlog, zoom. cbn [snd].
    destruct (log_named l msg s.(spd)) as (r' & -> & Hl & Hd); [apply Hn|].
    eexists _, _. split; [reflexivity|]. split; [|done]. unfold named. cbn. by rewrite Hl, Hd.
Qed.

Lemma do_calls_keep cs s :
  named s.2.(spd) → ∃ s', do_calls cs s = (Ret tt, s') ∧ named s'.2.(spd).
Proof.
  revert s. induction cs as [|c cs IH]; intros s Hn; [by exists s|].
  unfold do_calls. cbn [for_each]. rewrite bind_run. unfold try_catch at 1.
  destruct (do_call_keeps c s Hn) as (o & s' & -> & Hn' & Hc).
  destruct o as [[]|e|f]; [by apply IH..|by destruct (Hc f)].
Qed.

(** C34. A process can have one [logger_control] object. Whatever is called on it
    and logged, nothing crashes, a second object cannot be constructed, and
    [disable_logging] throws with the loggers as they were. When the object is
    destroyed with logging enabled, the default logger is null: every message
    from then on is undefined behaviour, until an object is constructed again. *)
Theorem logger_control_once s c r calls s' :
  logger_control_construct s.(spd) = (Ret c, r) →
  (do_calls calls (c, {| log_os := s.(log_os); spd := r |})).2 = s' →
  let taken := spdlog_ex "logger with name 'null_logger' already exists" in
  (do_calls calls (c, {| log_os := s.(log_os); spd := r |})).1 = Ret tt ∧
  logger_control_construct s'.2.(spd) = (Throw taken, s'.2.(spd)) ∧
  disable_logging s' = (Throw taken, ({| _loggerEnabled := false |}, s'.2)) ∧
  ∃ r', logger_control_destroy s'.1 s'.2.(spd) = (Ret tt, r') ∧
    (s'.1.(_loggerEnabled) = false → r' = s'.2.(spd)) ∧
    (s'.1.(_loggerEnabled) = true →
      (∀ l msg, log l msg r' = (Crash (undefined_behaviour "member function of a null logger"), r')) ∧
      ∃ c' r'', logger_control_construct r' = (Ret c', r'')).
Proof.
  intros [Hn _]%construct_named Hs taken.
  destruct (do_calls_keep calls (c, {| log_os := s.(log_os); spd := r |}) Hn) as (s1 & E & Hn').
  rewrite E in Hs |- *. cbn in Hs. subst s1. destruct s' as [[b] l']. cbn [fst snd] in *.
  split_and!.
  - done.
  - unfold logger_control_construct. rewrite bind_run. by rewrite null_logger_taken by apply Hn'.
  - unfold disable_logging. rewrite bind_run. cbn [set_enabled modify]. unfold on_logging, on_spdlog, zoom.
    cbn [snd]. rewrite null_logger_taken by apply Hn'. by destruct l'.
  - destruct b; cbn; eexists; (split; [reflexivity|split; [done|]]); [|done]. intros _. split; [done|].
    eexists _, _. reflexivity.
Qed.

(** ** A worker's log *)

Definition log_os_start : os :=
  {| files := ∅; dirs := ∅; read_denied := ∅; write_denied := ∅; remove_denied := ∅; disk_full := false;
     loaded := ∅; next_handle := 0; dlclose_ok := true; after_load_log := [] |}.

Definition logging_start : logging := {| log_os := log_os_start; spd := registry_new |}.

Example log_file_name :
  (generate_log_filename "2026-01-01_10-00-00" "./logs/worker", generate_log_filename "T" "a/b.c.txt",
   generate_log_filename "T" ".hidden") =
  ("./logs/worker_2026-01-01_10-00-00", "a/b.c_T.txt", ".hidden_T")%string.
Proof. reflexivity. Qed.

Definition sample_calls : list logging_call :=
  [Message info "lost"; Enable "./logs/worker" "T" true; Message trace "seen"; Disable; Message warn "still seen"].

Lemma logger_control_once_witness :
  let s' := (do_calls sample_calls ({| _loggerEnabled := false |},
    {| log_os := log_os_start; spd := (logger_control_construct registry_new).2 |})).2 in
  snd <$> s'.2.(spd).(written) = ["seen"; "seen"; "still seen"; "still seen"]%string ∧
  s'.2.(log_os).(files) !! "./logs/worker_T.log"%string = Some [] ∧
  logger_control_construct s'.2.(spd) =
    (Throw (spdlog_ex "logger with name 'null_logger' already exists"), s'.2.(spd)).
Proof.
  intros s'. split; [vm_compute; reflexivity|]. split; [vm_compute; reflexivity|].
  exact (proj1 (proj2 (logger_control_once logging_start {| _loggerEnabled := false |}
    (logger_control_construct registry_new).2 sample_calls s' eq_refl eq_refl))).
Defined.
