(* ===== verification/LogPattern.v ===== *)
(** * spdlog/pattern_formatter-inl.h, details/fmt_helper.h: what a line of the log looks like

    A pattern such as the ones of logger_init.cpp is compiled into a list of
    flag formatters; each appends its part of the message to a buffer. Some keep
    state: the broken-down time of the last second, a cached offset from UTC,
    the time of the last message, the text of the current date. Templates on the
    padder take it as the argument [P]. No code of the repository adds a custom
    flag, so the map of custom handlers is empty. *)
From Stdlib Require Import Ascii.
From S2P Require Import Prelude Numerals FmtInt Logging.

(** ** Data *)

(** The fields of [std::tm] the formatters read. *)
Record tm := {
  tm_sec : Z;
  tm_min : Z;
  tm_hour : Z;
  tm_mday : Z;
  tm_mon : Z;
  tm_year : Z;
  tm_wday : Z;
  tm_gmtoff : Z
}.

(** [std::memset(&cached_tm_, 0, ...)] *)
Definition zero_tm : tm :=
  {| tm_sec := 0; tm_min := 0; tm_hour := 0; tm_mday := 0; tm_mon := 0; tm_year := 0; tm_wday := 0; tm_gmtoff := 0 |}.

(** The operating system: broken-down times, the process, and the thread's
    diagnostic context (a [std::map] in its order). *)
Class LogSystem := {
  localtime : Z → tm;
  gmtime : Z → tm;
  getpid : Z;
  mdc_context : list (string * string)
}.

Record source_loc := { filename : option string; line : Z; funcname : option string }.

Definition no_source : source_loc := {| filename := None; line := 0; funcname := None |}.

Definition source_empty (s : source_loc) : bool := s.(line) <=? 0.

(** [time]: nanoseconds since the epoch. The colour range is in [out]. *)
Record log_msg := {
  logger_name : string;
  level : level_enum;
  time : Z;
  thread_id : Z;
  source : source_loc;
  payload : string
}.

Inductive pad_side := left | right | center.

Record padding_info := { width_ : Z; side_ : pad_side; truncate_ : bool; enabled_ : bool }.

Definition no_padding : padding_info := {| width_ := 0; side_ := left; truncate_ := false; enabled_ := false |}.

Inductive padder := scoped_padder | null_scoped_padder.

(** [std::chrono] durations by their number of nanoseconds. *)
Definition nanoseconds : Z := 1.
Definition microseconds : Z := 1000.
Definition milliseconds : Z := 1000000.
Definition seconds : Z := 1000000000.

Definition duration_cast (units d : Z) : Z := Z.quot d units.

Inductive pattern_time_type := local | utc.

(** ** level names *)

Definition to_string_view (l : level_enum) : string :=
  match l with
  | trace => "trace" | debug => "debug" | info => "info" | warn => "warning"
  | err => "error" | critical => "critical" | off => "off"
  end.

Definition to_short_c_str (l : level_enum) : string :=
  match l with
  | trace => "T" | debug => "D" | info => "I" | warn => "W" | err => "E" | critical => "C" | off => "O"
  end.

(** ** The buffer, and fmt_helper.h *)

(** The buffer [dest] and the colour range of the message. *)
Record out := { dest : string; color_range_start : Z; color_range_end : Z }.

Definition dest_size (o : out) : Z := Z.of_nat (String.length o.(dest)).

Definition append_string_view (view : string) : M out unit := modify (λ o,
  {| dest := o.(dest) +:+ view; color_range_start := o.(color_range_start); color_range_end := o.(color_range_end) |}).

Definition push_back (c : ascii) : M out unit := append_string_view (String c "").

Definition dest_resize (n : Z) : M out unit := modify (λ o,
  {| dest := String.substring 0 (Z.to_nat n) o.(dest); color_range_start := o.(color_range_start);
     color_range_end := o.(color_range_end) |}).

(** [append_int] of a signed type of [w] bits, and of an unsigned type. *)
Definition append_int (w n : Z) : M out unit :=
  text ← lift (snd <$> format_signed w n); append_string_view text.

Definition append_unsigned (n : Z) : M out unit :=
  text ← lift (snd <$> format_unsigned n); append_string_view text.

(** fmt's ["{:02}"] of a number that is negative or has three digits has no
    room for zeros. *)
Definition pad2 (n : Z) : M out unit :=
  if (0 <=? n) && (n <? 100) then
    _ ← push_back (digit_char (n / 10));
    push_back (digit_char (n mod 10))
  else append_string_view (int_text n).

Definition pad_uint (n width : Z) : M out unit :=
  _ ← append_string_view (zeros (Z.to_nat (width - count_digits_uint64 n)));
  append_unsigned n.

Definition pad3 (n : Z) : M out unit :=
  if n <? 1000 then
    _ ← push_back (digit_char (n / 100));
    let n := n mod 100 in
    _ ← push_back (digit_char (n / 10));
    push_back (digit_char (n mod 10))
  else append_unsigned n.

Definition pad6 (n : Z) : M out unit := pad_uint n 6.
Definition pad9 (n : Z) : M out unit := pad_uint n 9.

Definition time_fraction (units tp : Z) : Z :=
  let secs := duration_cast seconds tp in
  duration_cast units tp - secs * (seconds / units).

(** A C string that may be null. *)
Definition c_str (s : option string) : M out string :=
  match s with
  | Some s => mret s
  | None => crash (undefined_behaviour "the length of a null string")
  end.

(** ** class scoped_padder *)

Definition spaces_ : string := Nat.iter 64 (String " ") "".

Definition pad_it (count : Z) : M out unit :=
  if 64 <? count then crash (undefined_behaviour "more spaces than the padder has")
  else append_string_view (String.substring 0 (Z.to_nat count) spaces_).

(** The constructor; the result is [remaining_pad_]. *)
Definition scoped_padder_construct (wrapped_size : Z) (padinfo : padding_info) : M out Z :=
  let remaining_pad_ := padinfo.(width_) - wrapped_size in
  if remaining_pad_ <=? 0 then mret remaining_pad_
  else match padinfo.(side_) with
       | left => _ ← pad_it remaining_pad_; mret 0
       | center =>
           let half_pad := Z.quot remaining_pad_ 2 in
           let reminder := Z.land remaining_pad_ 1 in
           _ ← pad_it half_pad; mret (half_pad + reminder)
       | right => mret remaining_pad_
       end.

Definition scoped_padder_destroy (padinfo : padding_info) (remaining_pad_ : Z) : M out unit :=
  if 0 <=? remaining_pad_ then pad_it remaining_pad_
  else if padinfo.(truncate_) then
    o ← get_state; dest_resize (Z.max 0 (dest_size o + remaining_pad_))
  else mret tt.

(** [ScopedPadder p(wrapped_size, padinfo_, dest); body] *)
Definition padded {A} (P : padder) (wrapped_size : Z) (padinfo : padding_info) (body : M out A) : M out A :=
  match P with
  | null_scoped_padder => body
  | scoped_padder =>
      remaining_pad_ ← scoped_padder_construct wrapped_size padinfo;
      a ← body;
      _ ← scoped_padder_destroy padinfo remaining_pad_;
      mret a
  end.

Definition padder_count_digits64 (P : padder) (n : Z) : Z :=
  match P with scoped_padder => count_digits_uint64 n | null_scoped_padder => 0 end.
Definition padder_count_digits32 (P : padder) (n : Z) : Z :=
  match P with scoped_padder => count_digits_uint32 n | null_scoped_padder => 0 end.

Definition length_of (s : string) : Z := Z.of_nat (String.length s).

(** ** The flag formatters *)

Definition name_format (P : padder) (padinfo_ : padding_info) (msg : log_msg) : M out unit :=
  padded P (length_of msg.(logger_name)) padinfo_ (append_string_view msg.(logger_name)).

Definition level_format (P : padder) (padinfo_ : padding_info) (msg : log_msg) : M out unit :=
  let level_name := to_string_view msg.(level) in
  padded P (length_of level_name) padinfo_ (append_string_view level_name).

Definition short_level_format (P : padder) (padinfo_ : padding_info) (msg : log_msg) : M out unit :=
  let level_name := to_short_c_str msg.(level) in
  padded P (length_of level_name) padinfo_ (append_string_view level_name).

Definition ampm (t : tm) : string := if 12 <=? t.(tm_hour) then "PM" else "AM".

Definition to12h (t : tm) : Z := if 12 <? t.(tm_hour) then t.(tm_hour) - 12 else t.(tm_hour).

Definition days : list string := ["Sun"; "Mon"; "Tue"; "Wed"; "Thu"; "Fri"; "Sat"]%string.

Definition full_days : list string :=
  ["Sunday"; "Monday"; "Tuesday"; "Wednesday"; "Thursday"; "Friday"; "Saturday"]%string.

Definition months : list string :=
  ["Jan"; "Feb"; "Mar"; "Apr"; "May"; "Jun"; "Jul"; "Aug"; "Sep"; "Oct"; "Nov"; "Dec"]%string.

Definition full_months : list string :=
  ["January"; "February"; "March"; "April"; "May"; "June"; "July"; "August"; "September"; "October";
   "November"; "December"]%string.

(** [std::array::operator[]] of [static_cast<size_t>(i)]. *)
Definition array_at (l : list string) (i : Z) : M out string :=
  match l !! Z.to_nat i with
  | Some s => if 0 <=? i then mret s else crash (undefined_behaviour "an index of an array")
  | None => crash (undefined_behaviour "an index of an array")
  end.

Definition a_format (P : padder) (padinfo_ : padding_info) (tm_time : tm) : M out unit :=
  field_value ← array_at days tm_time.(tm_wday);
  padded P (length_of field_value) padinfo_ (append_string_view field_value).

Definition A_format (P : padder) (padinfo_ : padding_info) (tm_time : tm) : M out unit :=
  field_value ← array_at full_days tm_time.(tm_wday);
  padded P (length_of field_value) padinfo_ (append_string_view field_value).

Definition b_format (P : padder) (padinfo_ : padding_info) (tm_time : tm) : M out unit :=
  field_value ← array_at months tm_time.(tm_mon);
  padded P (length_of field_value) padinfo_ (append_string_view field_value).

Definition B_format (P : padder) (padinfo_ : padding_info) (tm_time : tm) : M out unit :=
  field_value ← array_at full_months tm_time.(tm_mon);
  padded P (length_of field_value) padinfo_ (append_string_view field_value).

(** [tm_year + 1900] of an [int]. *)
Definition append_year (tm_time : tm) : M out unit := append_int 32 (tm_time.(tm_year) + 1900).

Definition c_format (P : padder) (padinfo_ : padding_info) (tm_time : tm) : M out unit :=
  padded P 24 padinfo_ (
    day ← array_at days tm_time.(tm_wday);
    _ ← append_string_view day;
    _ ← push_back " ";
    month ← array_at months tm_time.(tm_mon);
    _ ← append_string_view month;
    _ ← push_back " ";
    _ ← append_int 32 tm_time.(tm_mday);
    _ ← push_back " ";
    _ ← pad2 tm_time.(tm_hour);
    _ ← push_back ":";
    _ ← pad2 tm_time.(tm_min);
    _ ← push_back ":";
    _ ← pad2 tm_time.(tm_sec);
    _ ← push_back " ";
    append_year tm_time).

Definition C_format (P : padder) (padinfo_ : padding_info) (tm_time : tm) : M out unit :=
  padded P 2 padinfo_ (pad2 (Z.rem tm_time.(tm_year) 100)).

Definition D_format (P : padder) (padinfo_ : padding_info) (tm_time : tm) : M out unit :=
  padded P 8 padinfo_ (
    _ ← pad2 (tm_time.(tm_mon) + 1);
    _ ← push_back "/";
    _ ← pad2 tm_time.(tm_mday);
    _ ← push_back "/";
    pad2 (Z.rem tm_time.(tm_year) 100)).

Definition Y_format (P : padder) (padinfo_ : padding_info) (tm_time : tm) : M out unit :=
  padded P 4 padinfo_ (append_year tm_time).

Definition m_format (P : padder) (padinfo_ : padding_info) (tm_time : tm) : M out unit :=
  padded P 2 padinfo_ (pad2 (tm_time.(tm_mon) + 1)).

Definition d_format (P : padder) (padinfo_ : padding_info) (tm_time : tm) : M out unit :=
  padded P 2 padinfo_ (pad2 tm_time.(tm_mday)).

Definition H_format (P : padder) (padinfo_ : padding_info) (tm_time : tm) : M out unit :=
  padded P 2 padinfo_ (pad2 tm_time.(tm_hour)).

Definition I_format (P : padder) (padinfo_ : padding_info) (tm_time : tm) : M out unit :=
  padded P 2 padinfo_ (pad2 (to12h tm_time)).

Definition M_format (P : padder) (padinfo_ : padding_info) (tm_time : tm) : M out unit :=
  padded P 2 padinfo_ (pad2 tm_time.(tm_min)).

Definition S_format (P : padder) (padinfo_ : padding_info) (tm_time : tm) : M out unit :=
  padded P 2 padinfo_ (pad2 tm_time.(tm_sec)).

Definition e_format (P : padder) (padinfo_ : padding_info) (msg : log_msg) : M out unit :=
  let millis := time_fraction milliseconds msg.(time) in
  padded P 3 padinfo_ (pad3 (w32 millis)).

Definition f_format (P : padder) (padinfo_ : padding_info) (msg : log_msg) : M out unit :=
  let micros := time_fraction microseconds msg.(time) in
  padded P 6 padinfo_ (pad6 (w64 micros)).

Definition F_format (P : padder) (padinfo_ : padding_info) (msg : log_msg) : M out unit :=
  let ns := time_fraction nanoseconds msg.(time) in
  padded P 9 padinfo_ (pad9 (w64 ns)).

Definition E_format (P : padder) (padinfo_ : padding_info) (msg : log_msg) : M out unit :=
  padded P 10 padinfo_ (append_int 64 (duration_cast seconds msg.(time))).

Definition p_format (P : padder) (padinfo_ : padding_info) (tm_time : tm) : M out unit :=
  padded P 2 padinfo_ (append_string_view (ampm tm_time)).

Definition r_format (P : padder) (padinfo_ : padding_info) (tm_time : tm) : M out unit :=
  padded P 11 padinfo_ (
    _ ← pad2 (to12h tm_time);
    _ ← push_back ":";
    _ ← pad2 tm_time.(tm_min);
    _ ← push_back ":";
    _ ← pad2 tm_time.(tm_sec);
    _ ← push_back " ";
    append_string_view (ampm tm_time)).

Definition R_format (P : padder) (padinfo_ : padding_info) (tm_time : tm) : M out unit :=
  padded P 5 padinfo_ (
    _ ← pad2 tm_time.(tm_hour);
    _ ← push_back ":";
    pad2 tm_time.(tm_min)).

Definition T_format (P : padder) (padinfo_ : padding_info) (tm_time : tm) : M out unit :=
  padded P 8 padinfo_ (
    _ ← pad2 tm_time.(tm_hour);
    _ ← push_back ":";
    _ ← pad2 tm_time.(tm_min);
    _ ← push_back ":";
    pad2 tm_time.(tm_sec)).

(** [z_formatter] keeps the time of the last update and the offset in minutes. *)
Record z_state := { last_update_ : Z; offset_minutes_ : Z }.

Definition utc_minutes_offset (t : tm) : Z := Z.quot t.(tm_gmtoff) 60.

Definition get_cached_offset (msg : log_msg) (tm_time : tm) (z : z_state) : z_state :=
  if 10 * seconds <=? msg.(time) - z.(last_update_) then
    {| last_update_ := msg.(time); offset_minutes_ := utc_minutes_offset tm_time |}
  else z.

Definition z_format (P : padder) (padinfo_ : padding_info) (time_type_ : pattern_time_type) (z : z_state)
    (msg : log_msg) (tm_time : tm) : M out z_state :=
  padded P 6 padinfo_ (
    match time_type_ with
    | utc => _ ← append_string_view "+00:00"; mret z
    | local =>
        let z := get_cached_offset msg tm_time z in
        let total_minutes := z.(offset_minutes_) in
        let is_negative := total_minutes <? 0 in
        let total_minutes := if is_negative then - total_minutes else total_minutes in
        _ ← push_back (if is_negative then "-" else "+")%char;
        _ ← pad2 (Z.quot total_minutes 60);
        _ ← push_back ":";
        _ ← pad2 (Z.rem total_minutes 60);
        mret z
    end).

Definition t_format (P : padder) (padinfo_ : padding_info) (msg : log_msg) : M out unit :=
  let field_size := padder_count_digits64 P msg.(thread_id) in
  padded P field_size padinfo_ (append_unsigned msg.(thread_id)).

Definition pid_format `{LogSystem} (P : padder) (padinfo_ : padding_info) : M out unit :=
  let pid := w32 getpid in
  let field_size := padder_count_digits32 P pid in
  padded P field_size padinfo_ (append_unsigned pid).

Definition v_format (P : padder) (padinfo_ : padding_info) (msg : log_msg) : M out unit :=
  padded P (length_of msg.(payload)) padinfo_ (append_string_view msg.(payload)).

Definition color_start_format : M out unit := modify (λ o,
  {| dest := o.(dest); color_range_start := dest_size o; color_range_end := o.(color_range_end) |}).

Definition color_stop_format : M out unit := modify (λ o,
  {| dest := o.(dest); color_range_start := o.(color_range_start); color_range_end := dest_size o |}).

Definition source_location_format (P : padder) (padinfo_ : padding_info) (msg : log_msg) : M out unit :=
  if source_empty msg.(source) then padded P 0 padinfo_ (mret tt)
  else
    text_size ← (if padinfo_.(enabled_) then
                   filename ← c_str msg.(source).(filename);
                   mret (length_of filename + padder_count_digits32 P msg.(source).(line) + 1)
                 else mret 0);
    padded P text_size padinfo_ (
      filename ← c_str msg.(source).(filename);
      _ ← append_string_view filename;
      _ ← push_back ":";
      append_int 32 msg.(source).(line)).

Definition source_filename_format (P : padder) (padinfo_ : padding_info) (msg : log_msg) : M out unit :=
  if source_empty msg.(source) then padded P 0 padinfo_ (mret tt)
  else
    text_size ← (if padinfo_.(enabled_) then filename ← c_str msg.(source).(filename); mret (length_of filename) else mret 0);
    padded P text_size padinfo_ (filename ← c_str msg.(source).(filename); append_string_view filename).

(** [strrchr(filename, '/')]: what follows the last separator, all without one. *)
Fixpoint basename (filename : string) : string :=
  match filename with
  | EmptyString => EmptyString
  | String c rest =>
      if Ascii.eqb c "/" then basename rest
      else let b := basename rest in
           if Nat.eqb (String.length b) (String.length rest) then String c b else b
  end.

Definition short_filename_format (P : padder) (padinfo_ : padding_info) (msg : log_msg) : M out unit :=
  if source_empty msg.(source) then padded P 0 padinfo_ (mret tt)
  else
    filename ← c_str msg.(source).(filename);
    let filename := basename filename in
    let text_size := if padinfo_.(enabled_) then length_of filename else 0 in
    padded P text_size padinfo_ (append_string_view filename).

Definition source_linenum_format (P : padder) (padinfo_ : padding_info) (msg : log_msg) : M out unit :=
  if source_empty msg.(source) then padded P 0 padinfo_ (mret tt)
  else
    let field_size := padder_count_digits32 P msg.(source).(line) in
    padded P field_size padinfo_ (append_int 32 msg.(source).(line)).

Definition source_funcname_format (P : padder) (padinfo_ : padding_info) (msg : log_msg) : M out unit :=
  if source_empty msg.(source) then padded P 0 padinfo_ (mret tt)
  else
    text_size ← (if padinfo_.(enabled_) then funcname ← c_str msg.(source).(funcname); mret (length_of funcname) else mret 0);
    padded P text_size padinfo_ (funcname ← c_str msg.(source).(funcname); append_string_view funcname).

(** The result is the new [last_message_time_]. *)
Definition elapsed_format (P : padder) (units : Z) (padinfo_ : padding_info) (last_message_time_ : Z)
    (msg : log_msg) : M out Z :=
  let delta := Z.max (msg.(time) - last_message_time_) 0 in
  let delta_units := duration_cast units delta in
  let last_message_time_ := msg.(time) in
  let delta_count := w64 delta_units in
  let n_digits := padder_count_digits64 P delta_count in
  _ ← padded P n_digits padinfo_ (append_unsigned delta_count);
  mret last_message_time_.

Fixpoint format_mdc (P : padder) (padinfo_ : padding_info) (mdc_map : list (string * string)) : M out unit :=
  match mdc_map with
  | [] => mret tt
  | (key, value) :: rest =>
      let is_last := match rest with [] => true | _ => false end in
      let content_size := length_of key + length_of value + 1 in
      let content_size := if is_last then content_size else content_size + 1 in
      _ ← padded P content_size padinfo_ (
        _ ← append_string_view key;
        _ ← append_string_view ":";
        _ ← append_string_view value;
        if is_last then mret tt else append_string_view " ");
      format_mdc P padinfo_ rest
  end.

Definition mdc_format `{LogSystem} (P : padder) (padinfo_ : padding_info) : M out unit :=
  match mdc_context with
  | [] => padded P 0 padinfo_ (mret tt)
  | mdc_map => format_mdc P padinfo_ mdc_map
  end.

(** [full_formatter] keeps the text of the current second. *)
Record full_state := { cache_timestamp_ : Z; cached_datetime_ : string }.

Definition full_datetime (tm_time : tm) : M out unit :=
  _ ← push_back "[";
  _ ← append_year tm_time;
  _ ← push_back "-";
  _ ← pad2 (tm_time.(tm_mon) + 1);
  _ ← push_back "-";
  _ ← pad2 tm_time.(tm_mday);
  _ ← push_back " ";
  _ ← pad2 tm_time.(tm_hour);
  _ ← push_back ":";
  _ ← pad2 tm_time.(tm_min);
  _ ← push_back ":";
  _ ← pad2 tm_time.(tm_sec);
  push_back ".".

(** A buffer of its own. *)
Definition empty_out : out := {| dest := ""; color_range_start := 0; color_range_end := 0 |}.

Definition in_own_buffer (body : M out unit) : outcome string :=
  let '(r, o) := body empty_out in _ ← r; mret o.(dest).

Definition full_cache (c : full_state) (msg : log_msg) (tm_time : tm) : outcome full_state :=
  let secs := duration_cast seconds msg.(time) in
  if negb (c.(cache_timestamp_) =? secs) || (String.length c.(cached_datetime_) =? 0)%nat then
    text ← in_own_buffer (full_datetime tm_time);
    mret {| cache_timestamp_ := secs; cached_datetime_ := text |}
  else mret c.

Definition full_format `{LogSystem} (c : full_state) (msg : log_msg) (tm_time : tm) : M out full_state :=
  c ← lift (full_cache c msg tm_time);
  _ ← append_string_view c.(cached_datetime_);
  let millis := time_fraction milliseconds msg.(time) in
  _ ← pad3 (w32 millis);
  _ ← push_back "]";
  _ ← push_back " ";
  _ ← (if 0 <? length_of msg.(logger_name) then
         _ ← push_back "[";
         _ ← append_string_view msg.(logger_name);
         _ ← push_back "]";
         push_back " "
       else mret tt);
  _ ← push_back "[";
  _ ← color_start_format;
  _ ← append_string_view (to_string_view msg.(level));
  _ ← color_stop_format;
  _ ← push_back "]";
  _ ← push_back " ";
  _ ← (if source_empty msg.(source) then mret tt
       else
         _ ← push_back "[";
         filename ← c_str msg.(source).(filename);
         _ ← append_string_view (basename filename);
         _ ← push_back ":";
         _ ← append_int 32 msg.(source).(line);
         _ ← push_back "]";
         push_back " ");
  _ ← match mdc_context with
      | [] => mret tt
      | mdc_map =>
          _ ← push_back "[";
          _ ← format_mdc null_scoped_padder no_padding mdc_map;
          _ ← push_back "]";
          push_back " "
      end;
  _ ← append_string_view msg.(payload);
  mret c.

(** ** Flag formatters as objects *)

Inductive flag_formatter :=
  | name_formatter (P : padder) (padinfo_ : padding_info)
  | level_formatter (P : padder) (padinfo_ : padding_info)
  | short_level_formatter (P : padder) (padinfo_ : padding_info)
  | a_formatter (P : padder) (padinfo_ : padding_info)
  | A_formatter (P : padder) (padinfo_ : padding_info)
  | b_formatter (P : padder) (padinfo_ : padding_info)
  | B_formatter (P : padder) (padinfo_ : padding_info)
  | c_formatter (P : padder) (padinfo_ : padding_info)
  | C_formatter (P : padder) (padinfo_ : padding_info)
  | D_formatter (P : padder) (padinfo_ : padding_info)
  | Y_formatter (P : padder) (padinfo_ : padding_info)
  | m_formatter (P : padder) (padinfo_ : padding_info)
  | d_formatter (P : padder) (padinfo_ : padding_info)
  | H_formatter (P : padder) (padinfo_ : padding_info)
  | I_formatter (P : padder) (padinfo_ : padding_info)
  | M_formatter (P : padder) (padinfo_ : padding_info)
  | S_formatter (P : padder) (padinfo_ : padding_info)
  | e_formatter (P : padder) (padinfo_ : padding_info)
  | f_formatter (P : padder) (padinfo_ : padding_info)
  | F_formatter (P : padder) (padinfo_ : padding_info)
  | E_formatter (P : padder) (padinfo_ : padding_info)
  | p_formatter (P : padder) (padinfo_ : padding_info)
  | r_formatter (P : padder) (padinfo_ : padding_info)
  | R_formatter (P : padder) (padinfo_ : padding_info)
  | T_formatter (P : padder) (padinfo_ : padding_info)
  | z_formatter (P : padder) (padinfo_ : padding_info) (time_type_ : pattern_time_type) (z : z_state)
  | t_formatter (P : padder) (padinfo_ : padding_info)
  | pid_formatter (P : padder) (padinfo_ : padding_info)
  | v_formatter (P : padder) (padinfo_ : padding_info)
  | ch_formatter (ch_ : ascii)
  | aggregate_formatter (str_ : string)
  | color_start_formatter (padinfo_ : padding_info)
  | color_stop_formatter (padinfo_ : padding_info)
  | source_location_formatter (P : padder) (padinfo_ : padding_info)
  | source_filename_formatter (P : padder) (padinfo_ : padding_info)
  | short_filename_formatter (P : padder) (padinfo_ : padding_info)
  | source_linenum_formatter (P : padder) (padinfo_ : padding_info)
  | source_funcname_formatter (P : padder) (padinfo_ : padding_info)
  | elapsed_formatter (P : padder) (units : Z) (padinfo_ : padding_info) (last_message_time_ : Z)
  | mdc_formatter (P : padder) (padinfo_ : padding_info)
  | full_formatter (padinfo_ : padding_info) (cache : full_state).

(** [f->format(msg, tm_time, dest)]; the result is the object afterwards. *)
Definition flag_format `{LogSystem} (f : flag_formatter) (msg : log_msg) (tm_time : tm) : M out flag_formatter :=
  match f with
  | name_formatter P i => _ ← name_format P i msg; mret f
  | level_formatter P i => _ ← level_format P i msg; mret f
  | short_level_formatter P i => _ ← short_level_format P i msg; mret f
  | a_formatter P i => _ ← a_format P i tm_time; mret f
  | A_formatter P i => _ ← A_format P i tm_time; mret f
  | b_formatter P i => _ ← b_format P i tm_time; mret f
  | B_formatter P i => _ ← B_format P i tm_time; mret f
  | c_formatter P i => _ ← c_format P i tm_time; mret f
  | C_formatter P i => _ ← C_format P i tm_time; mret f
  | D_formatter P i => _ ← D_format P i tm_time; mret f
  | Y_formatter P i => _ ← Y_format P i tm_time; mret f
  | m_formatter P i => _ ← m_format P i tm_time; mret f
  | d_formatter P i => _ ← d_format P i tm_time; mret f
  | H_formatter P i => _ ← H_format P i tm_time; mret f
  | I_formatter P i => _ ← I_format P i tm_time; mret f
  | M_formatter P i => _ ← M_format P i tm_time; mret f
  | S_formatter P i => _ ← S_format P i tm_time; mret f
  | e_formatter P i => _ ← e_format P i msg; mret f
  | f_formatter P i => _ ← f_format P i msg; mret f
  | F_formatter P i => _ ← F_format P i msg; mret f
  | E_formatter P i => _ ← E_format P i msg; mret f
  | p_formatter P i => _ ← p_format P i tm_time; mret f
  | r_formatter P i => _ ← r_format P i tm_time; mret f
  | R_formatter P i => _ ← R_format P i tm_time; mret f
  | T_formatter P i => _ ← T_format P i tm_time; mret f
  | z_formatter P i t z => z ← z_format P i t z msg tm_time; mret (z_formatter P i t z)
  | t_formatter P i => _ ← t_format P i msg; mret f
  | pid_formatter P i => _ ← pid_format P i; mret f
  | v_formatter P i => _ ← v_format P i msg; mret f
  | ch_formatter c => _ ← push_back c; mret f
  | aggregate_formatter s => _ ← append_string_view s; mret f
  | color_start_formatter _ => _ ← color_start_format; mret f
  | color_stop_formatter _ => _ ← color_stop_format; mret f
  | source_location_formatter P i => _ ← source_location_format P i msg; mret f
  | source_filename_formatter P i => _ ← source_filename_format P i msg; mret f
  | short_filename_formatter P i => _ ← short_filename_format P i msg; mret f
  | source_linenum_formatter P i => _ ← source_linenum_format P i msg; mret f
  | source_funcname_formatter P i => _ ← source_funcname_format P i msg; mret f
  | elapsed_formatter P u i t => t ← elapsed_format P u i t msg; mret (elapsed_formatter P u i t)
  | mdc_formatter P i => _ ← mdc_format P i; mret f
  | full_formatter i c => c ← full_format c msg tm_time; mret (full_formatter i c)
  end.

(** ** class pattern_formatter *)

Record pattern_formatter := {
  pattern_ : string;
  eol_ : string;
  pattern_time_type_ : pattern_time_type;
  need_localtime_ : bool;
  cached_tm_ : tm;
  last_log_secs_ : Z;
  formatters_ : list flag_formatter
}.

Definition with_formatters (fs : list flag_formatter) (need : bool) (f : pattern_formatter) : pattern_formatter :=
  {| pattern_ := f.(pattern_); eol_ := f.(eol_); pattern_time_type_ := f.(pattern_time_type_);
     need_localtime_ := need; cached_tm_ := f.(cached_tm_); last_log_secs_ := f.(last_log_secs_);
     formatters_ := fs |}.

Definition no_offset : z_state := {| last_update_ := 0; offset_minutes_ := 0 |}.
Definition no_datetime : full_state := {| cache_timestamp_ := 0; cached_datetime_ := "" |}.

(** The switch of [handle_flag_]: the formatters pushed, and whether the flag
    needs the local time. [now] is the clock that [elapsed_formatter] reads. *)
Definition flag_formatters (now : Z) (time_type : pattern_time_type) (P : padder) (flag : ascii)
    (padding : padding_info) : list flag_formatter * bool :=
  match flag with
  | "+" => ([full_formatter padding no_datetime], true)
  | "n" => ([name_formatter P padding], false)
  | "l" => ([level_formatter P padding], false)
  | "L" => ([short_level_formatter P padding], false)
  | "t" => ([t_formatter P padding], false)
  | "v" => ([v_formatter P padding], false)
  | "a" => ([a_formatter P padding], true)
  | "A" => ([A_formatter P padding], true)
  | "b" | "h" => ([b_formatter P padding], true)
  | "B" => ([B_formatter P padding], true)
  | "c" => ([c_formatter P padding], true)
  | "C" => ([C_formatter P padding], true)
  | "Y" => ([Y_formatter P padding], true)
  | "D" | "x" => ([D_formatter P padding], true)
  | "m" => ([m_formatter P padding], true)
  | "d" => ([d_formatter P padding], true)
  | "H" => ([H_formatter P padding], true)
  | "I" => ([I_formatter P padding], true)
  | "M" => ([M_formatter P padding], true)
  | "S" => ([S_formatter P padding], true)
  | "e" => ([e_formatter P padding], false)
  | "f" => ([f_formatter P padding], false)
  | "F" => ([F_formatter P padding], false)
  | "E" => ([E_formatter P padding], false)
  | "p" => ([p_formatter P padding], true)
  | "r" => ([r_formatter P padding], true)
  | "R" => ([R_formatter P padding], true)
  | "T" | "X" => ([T_formatter P padding], true)
  | "z" => ([z_formatter P padding time_type no_offset], true)
  | "P" => ([pid_formatter P padding], false)
  | "^" => ([color_start_formatter padding], false)
  | "$" => ([color_stop_formatter padding], false)
  | "@" => ([source_location_formatter P padding], false)
  | "s" => ([short_filename_formatter P padding], false)
  | "g" => ([source_filename_formatter P padding], false)
  | "#" => ([source_linenum_formatter P padding], false)
  | "!" => ([source_funcname_formatter P padding], false)
  | "%" => ([ch_formatter "%"], false)
  | "u" => ([elapsed_formatter P nanoseconds padding now], false)
  | "i" => ([elapsed_formatter P microseconds padding now], false)
  | "o" => ([elapsed_formatter P milliseconds padding now], false)
  | "O" => ([elapsed_formatter P seconds padding now], false)
  | "&" => ([mdc_formatter P padding], false)
  | _ =>
      if negb padding.(truncate_) then ([aggregate_formatter (String "%" (String flag ""))], false)
      else
        let padding := {| width_ := padding.(width_); side_ := padding.(side_); truncate_ := false;
                          enabled_ := padding.(enabled_) |} in
        ([source_funcname_formatter P padding; aggregate_formatter (String flag "")], false)
  end%char.

Definition handle_flag_ (now : Z) (P : padder) (flag : ascii) (padding : padding_info) : M pattern_formatter unit :=
  modify (λ f,
    let '(fs, need) := flag_formatters now f.(pattern_time_type_) P flag padding in
    with_formatters (f.(formatters_) ++ fs) (need || f.(need_localtime_)) f).

(** [width * 10 + digit] of a [size_t], and what follows the digits. *)
Fixpoint pad_width (s : string) (width : Z) : Z * string :=
  match s with
  | EmptyString => (width, s)
  | String c r =>
      match digit_value c with
      | Some digit => pad_width r (w64 (width * 10 + digit))
      | None => (width, s)
      end
  end.

Definition max_width : Z := 64.

Definition pad_spec_side (it : string) : pad_side * string :=
  match it with
  | String "-" r => (right, r)
  | String "=" r => (center, r)
  | _ => (left, it)
  end%char.

(** [it]: the pattern from the iterator on, before and after. *)
Definition handle_padspec_ (it : string) : padding_info * string :=
  let '(side, it) := pad_spec_side it in
  match it with
  | EmptyString => (no_padding, it)
  | String c r =>
      match digit_value c with
      | None => (no_padding, it)
      | Some width =>
          let '(width, it) := pad_width r width in
          let '(truncate, it) := match it with
                                 | String "!" r => (true, r)
                                 | _ => (false, it)
                                 end%char in
          ({| width_ := Z.min width max_width; side_ := side; truncate_ := truncate; enabled_ := true |}, it)
      end
  end.

Definition push_formatter (g : flag_formatter) : M pattern_formatter unit :=
  modify (λ f, with_formatters (f.(formatters_) ++ [g]) f.(need_localtime_) f).

Definition push_user_chars (user_chars : option string) : M pattern_formatter unit :=
  match user_chars with
  | Some str => push_formatter (aggregate_formatter str)
  | None => mret tt
  end.

(** The loop over the pattern; every round consumes a character. *)
Fixpoint compile_loop (now : Z) (fuel : nat) (it : string) (user_chars : option string) : M pattern_formatter unit :=
  match fuel, it with
  | S fuel, String c r =>
      if Ascii.eqb c "%" then
        _ ← push_user_chars user_chars;
        let '(padding, it) := handle_padspec_ r in
        match it with
        | String flag r =>
            _ ← handle_flag_ now (if padding.(enabled_) then scoped_padder else null_scoped_padder) flag padding;
            compile_loop now fuel r None
        | EmptyString => mret tt
        end
      else compile_loop now fuel r (Some (default EmptyString user_chars +:+ String c ""))
  | _, _ => push_user_chars user_chars
  end.

Definition compile_pattern_ (now : Z) (pattern : string) : M pattern_formatter unit :=
  _ ← modify (λ f, with_formatters [] f.(need_localtime_) f);
  compile_loop now (String.length pattern) pattern None.

Definition pattern_formatter_new (now : Z) (pattern : string) (time_type : pattern_time_type) (eol : string) :
    pattern_formatter :=
  (compile_pattern_ now pattern
     {| pattern_ := pattern; eol_ := eol; pattern_time_type_ := time_type; need_localtime_ := false;
        cached_tm_ := zero_tm; last_log_secs_ := 0; formatters_ := [] |}).2.

Definition pattern_formatter_default (time_type : pattern_time_type) (eol : string) : pattern_formatter :=
  {| pattern_ := "%+"; eol_ := eol; pattern_time_type_ := time_type; need_localtime_ := true;
     cached_tm_ := zero_tm; last_log_secs_ := 0; formatters_ := [full_formatter no_padding no_datetime] |}.

Definition set_need_localtime (need : bool) (f : pattern_formatter) : pattern_formatter :=
  with_formatters f.(formatters_) need f.

Definition clone (now : Z) (f : pattern_formatter) : pattern_formatter :=
  set_need_localtime f.(need_localtime_)
    (pattern_formatter_new now f.(pattern_) f.(pattern_time_type_) f.(eol_)).

Definition set_pattern (now : Z) (pattern : string) (f : pattern_formatter) : pattern_formatter :=
  (compile_pattern_ now pattern
     {| pattern_ := pattern; eol_ := f.(eol_); pattern_time_type_ := f.(pattern_time_type_);
        need_localtime_ := false; cached_tm_ := f.(cached_tm_); last_log_secs_ := f.(last_log_secs_);
        formatters_ := f.(formatters_) |}).2.

Definition default_eol : string := String "010" "".

Definition get_time_ `{LogSystem} (f : pattern_formatter) (msg : log_msg) : tm :=
  match f.(pattern_time_type_) with
  | local => localtime (duration_cast seconds msg.(time))
  | utc => gmtime (duration_cast seconds msg.(time))
  end.

(** The cached broken-down time, refreshed when the second changes. *)
Definition refresh_time `{LogSystem} (f : pattern_formatter) (msg : log_msg) : pattern_formatter :=
  let secs := duration_cast seconds msg.(time) in
  if f.(need_localtime_) && negb (secs =? f.(last_log_secs_)) then
    {| pattern_ := f.(pattern_); eol_ := f.(eol_); pattern_time_type_ := f.(pattern_time_type_);
       need_localtime_ := f.(need_localtime_); cached_tm_ := get_time_ f msg; last_log_secs_ := secs;
       formatters_ := f.(formatters_) |}
  else f.

Fixpoint format_flags `{LogSystem} (fs : list flag_formatter) (msg : log_msg) (tm_time : tm) :
    M out (list flag_formatter) :=
  match fs with
  | [] => mret []
  | f :: fs =>
      f ← flag_format f msg tm_time;
      fs ← format_flags fs msg tm_time;
      mret (f :: fs)
  end.

(** [pattern_formatter::format] *)
Definition format `{LogSystem} (f : pattern_formatter) (msg : log_msg) : M out pattern_formatter :=
  let f := refresh_time f msg in
  fs ← format_flags f.(formatters_) msg f.(cached_tm_);
  _ ← append_string_view f.(eol_);
  mret (with_formatters fs f.(need_localtime_) f).
