(* ===== verification/LogFormat.v ===== *)
(** * Properties of the pattern formatter of LogPattern.v

    Formatting never leaves the defined behaviour, the caches of a formatter do
    not show in what it prints, and what the patterns of logger_init.cpp make of
    a message. *)
From Stdlib Require Import Ascii.
From S2P Require Import Prelude Numerals FmtInt Logging LogPattern.

(** ** Code that returns, whatever the buffer *)

Definition safe {A} (m : M out A) (P : A → Prop) : Prop := ∀ o, wp m (λ a _, P a) (λ _ _, False) o.

Section safe_rules.
Context {A B : Type}.
Implicit Types (m : M out A) (k : A → M out B).

Lemma safe_bind m k P Q : safe m P → (∀ a, P a → safe (k a) Q) → safe (m ≫= k) Q.
Proof.
  intros Hm Hk o. apply wp_bind. eapply wp_mono; [apply Hm| |done]. intros a o' Ha. by apply Hk.
Qed.

Lemma safe_then m k Q : safe m (λ _, True) → (∀ a, safe (k a) Q) → safe (m ≫= k) Q.
Proof. intros Hm Hk. eapply safe_bind; [exact Hm|auto]. Qed.

Lemma safe_ret (a : A) (P : A → Prop) : P a → safe (mret a) P.
Proof. intros Ha o. by apply wp_ret. Qed.

Lemma safe_mono m (P Q : A → Prop) : safe m P → (∀ a, P a → Q a) → safe m Q.
Proof. intros Hm H o. eapply wp_mono; [apply Hm|auto|done]. Qed.

Lemma safe_lift (r : outcome A) a (P : A → Prop) : r = Ret a → P a → safe (lift r) P.
Proof. intros -> Ha o. done. Qed.
End safe_rules.

Lemma safe_modify f : safe (modify f) (λ _, True).
Proof. by intros o. Qed.

Lemma safe_append v : safe (append_string_view v) (λ _, True).
Proof. apply safe_modify. Qed.

Lemma safe_append_unsigned n : 0 ≤ n < 2 ^ 64 → safe (append_unsigned n) (λ _, True).
Proof.
  intros Hn. eapply safe_bind; [|intros; apply safe_append].
  apply (safe_lift _ (natural_text n) (λ _, True)); [|done]. by rewrite format_unsigned_text.
Qed.

Lemma safe_append_int w n : w = 32 ∨ w = 64 → - 2 ^ (w - 1) ≤ n < 2 ^ (w - 1) → safe (append_int w n) (λ _, True).
Proof.
  intros Hw Hn. eapply safe_bind; [|intros; apply safe_append].
  apply (safe_lift _ (int_text n) (λ _, True)); [|done].
  by destruct (format_signed_text w n Hw Hn) as (k & -> & _).
Qed.

Lemma safe_pad2 n : safe (pad2 n) (λ _, True).
Proof.
  unfold pad2. destruct (_ && _); [|apply safe_append]. eapply safe_bind; [apply safe_append|]. intros. apply safe_append.
Qed.

Lemma safe_pad3 n : 0 ≤ n < 2 ^ 64 → safe (pad3 n) (λ _, True).
Proof.
  intros Hn. unfold pad3. destruct (n <? 1000); [|by apply safe_append_unsigned].
  do 2 (eapply safe_bind; [apply safe_append|]; intros). apply safe_append.
Qed.

Lemma safe_pad_uint n width : 0 ≤ n < 2 ^ 64 → safe (pad_uint n width) (λ _, True).
Proof. intros Hn. eapply safe_bind; [apply safe_append|]. intros. by apply safe_append_unsigned. Qed.

Lemma safe_array_at l i : 0 ≤ i < Z.of_nat (length l) → safe (array_at l i) (λ _, True).
Proof.
  intros Hi. unfold array_at. destruct (lookup_lt_is_Some_2 l (Z.to_nat i)) as [s ->]; [lia|].
  rewrite (proj2 (Z.leb_le 0 i)) by lia. by apply safe_ret.
Qed.

Lemma safe_c_str s : is_Some s → safe (c_str s) (λ _, True).
Proof. intros [x ->]. by apply safe_ret. Qed.

(** ** The padder *)

(** The width of a padder that pads is at most [max_width]. *)
Definition pad_ok (P : padder) (i : padding_info) : Prop := P = scoped_padder → i.(width_) ≤ max_width.

Lemma safe_pad_it n : n ≤ 64 → safe (pad_it n) (λ _, True).
Proof. intros Hn. unfold pad_it. rewrite (proj2 (Z.ltb_ge 64 n)) by done. apply safe_append. Qed.

Lemma safe_construct w i : 0 ≤ w → i.(width_) ≤ max_width → safe (scoped_padder_construct w i) (λ r, r ≤ 64).
Proof.
  unfold max_width. intros Hw Hi. unfold scoped_padder_construct. cbv zeta.
  destruct (Z.leb_spec (width_ i - w) 0); [apply safe_ret; lia|].
  pose proof (Z.quot_lt (width_ i - w) 2 ltac:(lia) ltac:(lia)).
  assert (0 ≤ Z.land (width_ i - w) 1 ≤ 1) by (rewrite (Z.land_ones _ 1) by done; Z.div_mod_to_equations; lia).
  destruct (side_ i); [| |].
  - eapply safe_bind; [apply safe_pad_it; lia|]. intros. apply safe_ret. lia.
  - apply safe_ret. lia.
  - eapply safe_bind; [apply safe_pad_it; lia|]. intros. apply safe_ret. lia.
Qed.

Lemma safe_destroy i r : r ≤ 64 → safe (scoped_padder_destroy i r) (λ _, True).
Proof.
  intros Hr. unfold scoped_padder_destroy. destruct (0 <=? r); [by apply safe_pad_it|].
  destruct (truncate_ i); [|by apply safe_ret]. intros o. done.
Qed.

Lemma safe_padded {A} P w i (body : M out A) (Q : A → Prop) :
  pad_ok P i → 0 ≤ w → safe body Q → safe (padded P w i body) Q.
Proof.
  intros Hi Hw Hb. destruct P; [|done]. cbn [padded].
  eapply safe_bind; [by apply safe_construct; [|apply Hi]|]. intros r Hr.
  eapply safe_bind; [exact Hb|]. intros a Ha. eapply safe_bind; [by apply safe_destroy|]. intros. by apply safe_ret.
Qed.

Lemma length_of_nonneg s : 0 ≤ length_of s.
Proof. unfold length_of. lia. Qed.

Lemma padder_count_digits64_nonneg P n : 0 ≤ padder_count_digits64 P n.
Proof.
  destruct P; cbn; [|done]. unfold count_digits_uint64. rewrite count_digits64 by apply w64_range.
  unfold text_size. lia.
Qed.

Lemma padder_count_digits32_nonneg P n : 0 ≤ padder_count_digits32 P n.
Proof.
  destruct P; cbn; [|done]. unfold count_digits_uint32. rewrite count_digits32 by apply w32_range.
  unfold text_size. lia.
Qed.

Create HintDb safe discriminated.
#[export] Hint Resolve safe_append safe_pad2 safe_c_str length_of_nonneg padder_count_digits64_nonneg
  padder_count_digits32_nonneg : safe.

(** One step through a formatter's body: the rules above, and the branches. *)
Ltac safe_step :=
  match goal with
  | |- safe (_ ≫= _) _ => apply safe_then; [|intros ?]
  | |- safe (mret _) _ => apply safe_ret
  | |- safe (padded _ _ _ _) _ => apply safe_padded
  | |- safe (modify _) _ => apply safe_modify
  | |- safe (push_back _) _ => apply safe_append
  | |- safe (if ?b then _ else _) _ => destruct b eqn:?
  | |- safe (match ?l with [] => _ | _ => _ end) _ => destruct l eqn:?
  end.

Ltac head_of m := lazymatch m with ?g _ => head_of g | _ => m end.

Ltac safe_solve := repeat (safe_step || (first [exact I | done | solve [eauto with safe] | lia])).

(** ** What a message and a time may be *)

(** The ranges of the C++ types, and what the indexes of the names need. *)
Definition tm_ok (t : tm) : Prop :=
  0 ≤ t.(tm_wday) < 7 ∧ 0 ≤ t.(tm_mon) < 12 ∧ - 2 ^ 31 ≤ t.(tm_mday) < 2 ^ 31 ∧
  - 2 ^ 31 ≤ t.(tm_year) + 1900 < 2 ^ 31.

(** A source location that is not empty has its two names ([__FILE__], [__func__]). *)
Definition source_ok (s : source_loc) : Prop :=
  source_empty s = false → is_Some s.(filename) ∧ is_Some s.(funcname) ∧ s.(line) < 2 ^ 31.

Definition msg_ok (m : log_msg) : Prop :=
  - 2 ^ 63 ≤ m.(time) < 2 ^ 63 ∧ 0 ≤ m.(thread_id) < 2 ^ 64 ∧ source_ok m.(source).

Lemma zero_tm_ok : tm_ok zero_tm.
Proof. unfold tm_ok. cbn. lia. Qed.

Lemma seconds_range t : - 2 ^ 63 ≤ t < 2 ^ 63 → - 2 ^ (64 - 1) ≤ duration_cast seconds t < 2 ^ (64 - 1).
Proof. intros Ht. unfold duration_cast, seconds. Z.quot_rem_to_equations; lia. Qed.

Section formatters.
Context `{LogSystem}.
Context (msg : log_msg) (t : tm) (Hmsg : msg_ok msg) (Ht : tm_ok t).

Abbreviation fine m := (safe m (λ _, True)).

Lemma safe_year : fine (append_year t).
Proof using Ht. destruct Ht as (_ & _ & _ & Hy). apply safe_append_int; [by left|exact Hy]. Qed.

Lemma safe_mday : fine (append_int 32 t.(tm_mday)).
Proof using Ht. destruct Ht as (_ & _ & Hd & _). apply safe_append_int; [by left|exact Hd]. Qed.

Lemma safe_wday l : length l = 7%nat → fine (array_at l t.(tm_wday)).
Proof using Ht. intros Hl. apply safe_array_at. rewrite Hl. apply Ht. Qed.

Lemma safe_mon l : length l = 12%nat → fine (array_at l t.(tm_mon)).
Proof using Ht. intros Hl. apply safe_array_at. rewrite Hl. apply Ht. Qed.

Lemma safe_w32_pad3 n : fine (pad3 (w32 n)).
Proof using Type. apply safe_pad3. pose proof (w32_range n). lia. Qed.

Lemma safe_w64_pad n w : fine (pad_uint (w64 n) w).
Proof using Type. apply safe_pad_uint, w64_range. Qed.

Lemma safe_source : source_empty msg.(source) = false →
  is_Some msg.(source).(filename) ∧ is_Some msg.(source).(funcname) ∧ fine (append_int 32 msg.(source).(line)).
Proof using Hmsg.
  intros He. destruct Hmsg as (_ & _ & Hs). destruct (Hs He) as (? & ? & ?). split_and!; [done..|].
  apply safe_append_int; [by left|]. unfold source_empty in He. lia.
Qed.

Lemma safe_seconds : fine (append_int 64 (duration_cast seconds msg.(time))).
Proof using Hmsg. apply safe_append_int; [by right|]. apply seconds_range, Hmsg. Qed.

Lemma safe_thread : fine (append_unsigned msg.(thread_id)).
Proof using Hmsg. apply safe_append_unsigned, Hmsg. Qed.

Lemma safe_w64_unsigned n : fine (append_unsigned (w64 n)).
Proof using Type. apply safe_append_unsigned, w64_range. Qed.

Lemma safe_w32_unsigned n : fine (append_unsigned (w32 n)).
Proof using Type. apply safe_append_unsigned. pose proof (w32_range n). lia. Qed.
End formatters.

#[export] Hint Resolve safe_year safe_mday safe_wday safe_mon safe_w32_pad3 safe_w64_pad safe_seconds safe_thread
  safe_w64_unsigned safe_w32_unsigned : safe.

Lemma safe_mdc P i l : pad_ok P i → safe (format_mdc P i l) (λ _, True).
Proof.
  intros Hi. induction l as [|[key value] l IH]; [by apply safe_ret|]. cbn [format_mdc]. cbv zeta.
  pose proof (length_of_nonneg key). pose proof (length_of_nonneg value).
  apply safe_then; [|by intros]. destruct l; safe_solve.
Qed.

(** The padding of a formatter that has a padder. *)
Definition padding_of (f : flag_formatter) : option (padder * padding_info) :=
  match f with
  | name_formatter P i | level_formatter P i | short_level_formatter P i | a_formatter P i | A_formatter P i
  | b_formatter P i | B_formatter P i | c_formatter P i | C_formatter P i | D_formatter P i | Y_formatter P i
  | m_formatter P i | d_formatter P i | H_formatter P i | I_formatter P i | M_formatter P i | S_formatter P i
  | e_formatter P i | f_formatter P i | F_formatter P i | E_formatter P i | p_formatter P i | r_formatter P i
  | R_formatter P i | T_formatter P i | z_formatter P i _ _ | t_formatter P i | pid_formatter P i
  | v_formatter P i | source_location_formatter P i | source_filename_formatter P i
  | short_filename_formatter P i | source_linenum_formatter P i | source_funcname_formatter P i
  | elapsed_formatter P _ i _ | mdc_formatter P i => Some (P, i)
  | ch_formatter _ | aggregate_formatter _ | color_start_formatter _ | color_stop_formatter _
  | full_formatter _ _ => None
  end.

Definition flag_ok (f : flag_formatter) : Prop :=
  match padding_of f with Some (P, i) => pad_ok P i | None => True end.

Lemma safe_full_cache c msg t : tm_ok t → ∃ c', full_cache c msg t = Ret c'.
Proof.
  intros Ht. unfold full_cache. destruct (_ || _); [|by eexists].
  assert (Hs : safe (full_datetime t) (λ _, True)) by (unfold full_datetime; safe_solve).
  specialize (Hs empty_out). unfold in_own_buffer, wp in *. destruct (full_datetime t empty_out) as [[[]|e|f] o];
    [by eexists|done..].
Qed.

Section flags.
Context `{LogSystem}.
Context (msg : log_msg) (t : tm) (Hmsg : msg_ok msg) (Ht : tm_ok t).

Lemma safe_located P i body : pad_ok P i →
  (source_empty msg.(source) = false → safe body (λ _, True)) →
  safe (if source_empty msg.(source) then padded P 0 i (mret tt) else body) (λ _, True).
Proof using Type. intros Hi Hb. destruct (source_empty _); [|by apply Hb]. safe_solve. Qed.

Lemma safe_source_location P i : pad_ok P i → safe (source_location_format P i msg) (λ _, True).
Proof using Hmsg.
  intros Hi. apply safe_located; [done|]. intros (Hf & _ & Hl)%(safe_source _ Hmsg).
  apply safe_bind with (P := λ n, 0 ≤ n).
  - destruct (enabled_ i); [|by apply safe_ret]. eapply safe_bind; [by apply safe_c_str|]. intros s _. apply safe_ret.
    pose proof (length_of_nonneg s). pose proof (padder_count_digits32_nonneg P (line (source msg))). lia.
  - intros n Hn. safe_solve.
Qed.

Lemma safe_sized P i (s : option string) : pad_ok P i → is_Some s →
  safe (text_size ← (if i.(enabled_) then x ← c_str s; mret (length_of x) else mret 0);
        padded P text_size i (x ← c_str s; append_string_view x)) (λ _, True).
Proof using Type.
  intros Hi Hs. apply safe_bind with (P := λ n, 0 ≤ n); [|intros n Hn; safe_solve].
  destruct (enabled_ i); [|by apply safe_ret]. eapply safe_bind; [by apply safe_c_str|]. intros x _.
  apply safe_ret, length_of_nonneg.
Qed.

Lemma safe_short_filename P i : pad_ok P i → safe (short_filename_format P i msg) (λ _, True).
Proof using Hmsg.
  intros Hi. apply safe_located; [done|]. intros (Hf & _ & _)%(safe_source _ Hmsg).
  eapply safe_bind; [by apply safe_c_str|]. intros x _. cbv zeta.
  apply safe_padded; [done| |apply safe_append]. destruct (enabled_ i); [apply length_of_nonneg|done].
Qed.

Lemma safe_full c : safe (full_format c msg t) (λ _, True).
Proof using Hmsg Ht.
  destruct (safe_full_cache c msg t Ht) as [c' Hc]. unfold full_format.
  apply safe_then; [by apply (safe_lift _ c' (λ _, True))|]. intros c1. cbv zeta.
  do 4 (apply safe_then; [solve [safe_solve]|intros _]).
  apply safe_then; [solve [safe_solve]|intros _].
  do 6 (apply safe_then; [solve [safe_solve]|intros _]).
  apply safe_then.
  { destruct (source_empty (source msg)) eqn:He; [by apply safe_ret|].
    destruct (safe_source _ Hmsg He) as (? & _ & ?). safe_solve. }
  intros _. apply safe_then.
  { destruct mdc_context; [by apply safe_ret|].
    apply safe_then; [apply safe_append|intros]. apply safe_then; [by apply safe_mdc|intros]. safe_solve. }
  intros _. safe_solve.
Qed.

Lemma safe_flag f : flag_ok f → safe (flag_format f msg t) flag_ok.
Proof using Hmsg Ht.
  intros Hf. pose proof (safe_full) as Hfull.
  destruct f; cbn [flag_format]; (apply safe_then; [|intros ?; apply safe_ret; exact Hf]); unfold flag_ok in Hf;
    cbn [padding_of] in Hf.
  all: try by (apply safe_source_location || apply safe_short_filename).
  all: try (apply safe_located; [done|]; intros (? & ? & ?)%(safe_source _ Hmsg); first [by apply safe_sized | cbv zeta; by safe_solve]).
  all: try by apply Hfull.
  all: try (unfold mdc_format; destruct mdc_context; [by safe_solve|by apply safe_mdc]).
  all: match goal with |- safe ?m _ => let g := head_of m in unfold g end; cbv zeta; safe_solve.
Qed.
End flags.

(** ** Whole lines *)

(** [localtime_r] and [gmtime_r] fill in a date for every time a message can have. *)
Class LogSystemLaws `{LogSystem} := {
  localtime_ok secs : - 2 ^ 34 ≤ secs < 2 ^ 34 → tm_ok (localtime secs);
  gmtime_ok secs : - 2 ^ 34 ≤ secs < 2 ^ 34 → tm_ok (gmtime secs)
}.

Definition formatter_ok (f : pattern_formatter) : Prop :=
  Forall flag_ok f.(formatters_) ∧ tm_ok f.(cached_tm_).

Section lines.
Context `{LogSystemLaws}.

Lemma get_time_ok f msg : msg_ok msg → tm_ok (get_time_ f msg).
Proof.
  intros (Ht & _). unfold get_time_.
  assert (- 2 ^ 34 ≤ duration_cast seconds msg.(time) < 2 ^ 34)
    by (unfold duration_cast, seconds; Z.quot_rem_to_equations; lia).
  destruct (pattern_time_type_ f); [by apply localtime_ok|by apply gmtime_ok].
Qed.

Lemma safe_flags fs msg t : msg_ok msg → tm_ok t → Forall flag_ok fs → safe (format_flags fs msg t) (Forall flag_ok).
Proof.
  intros Hm Ht. induction 1 as [|f fs Hf Hfs IH]; [by apply safe_ret|]. cbn [format_flags].
  eapply safe_bind; [by apply safe_flag|]. intros f' Hf'. eapply safe_bind; [exact IH|]. intros fs' Hfs'.
  apply safe_ret. by constructor.
Qed.

Lemma refresh_time_ok f msg : msg_ok msg → formatter_ok f → formatter_ok (refresh_time f msg).
Proof.
  intros Hm [Hfs Ht]. unfold refresh_time. destruct (_ && _); [|done]. split; [done|by apply get_time_ok].
Qed.

Lemma safe_format f msg : msg_ok msg → formatter_ok f → safe (format f msg) formatter_ok.
Proof.
  intros Hm Hf. unfold format. cbv zeta. destruct (refresh_time_ok f msg Hm Hf) as [Hfs Ht].
  eapply safe_bind; [by apply safe_flags|]. intros fs Hfs'. apply safe_then; [apply safe_append|]. intros _.
  by apply safe_ret.
Qed.

(** A sink formats each message into a buffer of its own. *)
Definition format_line (f : pattern_formatter) (msg : log_msg) : outcome (out * pattern_formatter) :=
  let '(r, o) := format f msg empty_out in f ← r; mret (o, f).

Fixpoint format_lines (f : pattern_formatter) (msgs : list log_msg) : outcome (list out) :=
  match msgs with
  | [] => mret []
  | msg :: msgs => '(o, f) ← format_line f msg; os ← format_lines f msgs; mret (o :: os)
  end.

Lemma format_line_returns f msg : msg_ok msg → formatter_ok f →
  ∃ o f', format_line f msg = Ret (o, f') ∧ formatter_ok f'.
Proof.
  intros Hm Hf. pose proof (safe_format f msg Hm Hf empty_out) as Hs. unfold format_line, wp in *.
  destruct (format f msg empty_out) as [[f'|e|x] o]; [|done..]. by eexists _, _.
Qed.

Lemma format_lines_returns f msgs : Forall msg_ok msgs → formatter_ok f → ∃ os, format_lines f msgs = Ret os.
Proof.
  intros Hm. revert f. induction Hm as [|msg msgs Hm Hms IH]; intros f Hf; [by eexists|]. cbn [format_lines].
  destruct (format_line_returns f msg Hm Hf) as (o & f' & -> & Hf'). cbn [mbind outcome_bind].
  destruct (IH f' Hf') as [os ->]. by eexists.
Qed.
End lines.

(** ** What a pattern compiles to *)

(** The widths of a compiled pattern are bounded and the fields that are not
    padded have the null padder. *)
Definition compiled_ok (f : flag_formatter) : Prop :=
  match padding_of f with
  | Some (P, i) => (P = scoped_padder ↔ i.(enabled_) = true) ∧ 0 ≤ i.(width_) ≤ max_width
  | None => True
  end.

Lemma compiled_flag_ok f : compiled_ok f → flag_ok f.
Proof. unfold compiled_ok, flag_ok. destruct (padding_of f) as [[P i]|]; [|done]. intros [_ Hi] _. apply Hi. Qed.

Lemma flag_formatters_ok now ty P flag i :
  (P = scoped_padder ↔ i.(enabled_) = true) → 0 ≤ i.(width_) ≤ max_width →
  Forall compiled_ok (flag_formatters now ty P flag i).1.
Proof.
  intros HP Hi. unfold flag_formatters.
  repeat case_match; repeat apply List.Forall_cons; try apply List.Forall_nil; unfold compiled_ok; cbn; by try split.
Qed.

Lemma pad_width_nonneg s w : 0 ≤ w → 0 ≤ (pad_width s w).1.
Proof.
  revert w. induction s as [|c s IH]; intros w Hw; cbn [pad_width]; [done|].
  destruct (digit_value c); [|done]. apply IH, w64_range.
Qed.

Lemma digit_value_range c d : digit_value c = Some d → 0 ≤ d < 10.
Proof. unfold digit_value. destruct (_ && _) eqn:E; [|done]. intros [= <-]. lia. Qed.

Lemma handle_padspec_ok it :
  let i := (handle_padspec_ it).1 in 0 ≤ i.(width_) ≤ max_width.
Proof.
  unfold handle_padspec_. destruct (pad_spec_side it) as [side [|c r]]; [done|].
  destruct (digit_value c) as [w|] eqn:E; [|done]. apply digit_value_range in E.
  pose proof (pad_width_nonneg r w ltac:(lia)) as Hw. destruct (pad_width r w) as [w' it']. cbn in Hw.
  assert (0 ≤ Z.min w' max_width ≤ max_width) by (unfold max_width; lia).
  cbv zeta. by repeat case_match; simplify_eq/=.
Qed.

Definition same_but_formatters (f g : pattern_formatter) : Prop :=
  g.(pattern_) = f.(pattern_) ∧ g.(eol_) = f.(eol_) ∧ g.(pattern_time_type_) = f.(pattern_time_type_) ∧
  g.(cached_tm_) = f.(cached_tm_) ∧ g.(last_log_secs_) = f.(last_log_secs_).

Lemma same_trans f g h : same_but_formatters f g → same_but_formatters g h → same_but_formatters f h.
Proof. unfold same_but_formatters. naive_solver congruence. Qed.

(** What compiling keeps: it adds formatters that are [compiled_ok] and changes
    nothing else but [need_localtime_]. *)
Definition extends (f g : pattern_formatter) : Prop :=
  same_but_formatters f g ∧ ∃ fs, g.(formatters_) = f.(formatters_) ++ fs ∧ Forall compiled_ok fs.

Lemma extends_refl f : extends f f.
Proof. split; [by repeat split|]. exists []. split; [by rewrite app_nil_r|constructor]. Qed.

Lemma extends_trans f g h : extends f g → extends g h → extends f h.
Proof.
  intros [Hs (fs & Hf & Hok)] [Hs' (fs' & Hf' & Hok')]. split; [by eapply same_trans|].
  exists (fs ++ fs'). split; [by rewrite Hf', Hf, app_assoc|by apply Forall_app].
Qed.

Lemma extends_user_chars u f : ∃ g, push_user_chars u f = (Ret tt, g) ∧ extends f g.
Proof.
  destruct u as [s|]; eexists; (split; [reflexivity|]); [|apply extends_refl].
  split; [by repeat split|]. exists [aggregate_formatter s]. by repeat constructor.
Qed.

Lemma extends_flag now P flag i f :
  (P = scoped_padder ↔ i.(enabled_) = true) → 0 ≤ i.(width_) ≤ max_width →
  ∃ g, handle_flag_ now P flag i f = (Ret tt, g) ∧ extends f g.
Proof.
  intros HP Hi. pose proof (flag_formatters_ok now f.(pattern_time_type_) P flag i HP Hi) as Hok.
  unfold handle_flag_, modify. destruct (flag_formatters _ _ _ _ _) as [fs need]. eexists. split; [reflexivity|].
  split; [by repeat split|]. by exists fs.
Qed.

Lemma compile_loop_extends now fuel it u f : ∃ g, compile_loop now fuel it u f = (Ret tt, g) ∧ extends f g.
Proof.
  revert it u f. induction fuel as [|fuel IH]; intros it u f; cbn [compile_loop]; [apply extends_user_chars|].
  destruct it as [|c r]; [apply extends_user_chars|]. destruct (Ascii.eqb c "%"); [|apply IH].
  rewrite bind_run. destruct (extends_user_chars u f) as (g & -> & Hg).
  pose proof (handle_padspec_ok r) as Hi. destruct (handle_padspec_ r) as [i [|flag r']]; [by exists g|].
  rewrite bind_run.
  destruct (extends_flag now (if enabled_ i then scoped_padder else null_scoped_padder) flag i g) as (h & -> & Hh);
    [by destruct (enabled_ i)|done|].
  destruct (IH r' None h) as (k & -> & Hk). exists k. split; [done|].
  eapply extends_trans; [exact Hg|]. by eapply extends_trans.
Qed.

(** A pattern always compiles; the result is its formatters alone. *)
Lemma compile_pattern_result now p f :
  ∃ g, compile_pattern_ now p f = (Ret tt, g) ∧ same_but_formatters f g ∧ Forall compiled_ok g.(formatters_).
Proof.
  unfold compile_pattern_. rewrite bind_run. cbn [modify].
  destruct (compile_loop_extends now (String.length p) p None (with_formatters [] (need_localtime_ f) f))
    as (g & -> & Hs & fs & Hf & Hok). exists g. split; [done|]. split; [exact Hs|]. by rewrite Hf.
Qed.

Lemma pattern_formatter_new_ok now p ty eol :
  let f := pattern_formatter_new now p ty eol in
  formatter_ok f ∧ f.(cached_tm_) = zero_tm ∧ f.(last_log_secs_) = 0 ∧ f.(eol_) = eol ∧ f.(pattern_time_type_) = ty.
Proof.
  intros f. subst f. unfold pattern_formatter_new.
  match goal with |- context [compile_pattern_ now p ?f0] =>
    destruct (compile_pattern_result now p f0) as (g & -> & (? & He & Hty & Ht & Hl) & Hok) end.
  cbn in *.
  split_and!; [|done..]. split; [|rewrite Ht; apply zero_tm_ok].
  revert Hok. apply List.Forall_impl, compiled_flag_ok.
Qed.

(** A log line can always be formatted. Every pattern compiles, and whatever
    messages are formatted with it, one after the other, formatting returns: no
    index of the name tables is out of range, the padder never reads past its
    64 spaces (however wide the pattern's fields are written), no digit is
    written in front of fmt's buffer, nothing throws. *)
Theorem pattern_formatter_safe `{LogSystemLaws} now p ty eol msgs :
  Forall msg_ok msgs →
  ∃ os, format_lines (pattern_formatter_new now p ty eol) msgs = Ret os ∧ length os = length msgs.
Proof.
  intros Hm. destruct (pattern_formatter_new_ok now p ty eol) as [Hf _].
  destruct (format_lines_returns _ msgs Hm Hf) as [os Hos]. exists os. split; [done|].
  clear Hf. revert os Hos. generalize (pattern_formatter_new now p ty eol) as f.
  clear Hm. induction msgs as [|msg msgs IH]; intros f os; cbn [format_lines]; [by intros [= <-]|].
  destruct (format_line f msg) as [[o f']| |]; cbn [mbind outcome_bind]; [|done..].
  destruct (format_lines f' msgs) as [os'| |] eqn:E; [|done..]. intros [= <-]. cbn. f_equal. by eapply IH.
Qed.

(** ** Caches *)

(** Formatters whose output depends on the message alone: not the elapsed
    times, and not the offset from UTC, refreshed every ten seconds. *)
Definition stateless (f : flag_formatter) : bool :=
  match f with
  | z_formatter _ _ _ _ | elapsed_formatter _ _ _ _ => false
  | full_formatter _ c => (String.length c.(cached_datetime_) =? 0)%nat
  | _ => true
  end.

Section caches.
Context `{LogSystem}.

(** The broken-down time of a second, for a formatter [f] at its start. *)
Definition tm_at (f : pattern_formatter) (secs : Z) : tm :=
  if f.(need_localtime_) then
    match f.(pattern_time_type_) with local => localtime secs | utc => gmtime secs end
  else f.(cached_tm_).

(** The line without any cache: each formatter as it was compiled, and the
    time of this message. *)
Definition reference_line (f : pattern_formatter) (msg : log_msg) : outcome out :=
  let '(r, o) := (
    _ ← format_flags f.(formatters_) msg (tm_at f (duration_cast seconds msg.(time)));
    append_string_view f.(eol_)) empty_out in
  _ ← r; mret o.

Context (T : Z → tm).

Definition cache_valid (c : full_state) : Prop :=
  String.length c.(cached_datetime_) = 0%nat ∨
  in_own_buffer (full_datetime (T c.(cache_timestamp_))) = Ret c.(cached_datetime_).

Lemma full_cache_valid (c : full_state) msg :
  cache_valid c → full_cache c msg (T (duration_cast seconds msg.(time))) =
    full_cache no_datetime msg (T (duration_cast seconds msg.(time))).
Proof using Type.
  intros Hc. unfold full_cache. destruct c as [ts text]. cbn in *.
  rewrite orb_true_r. destruct (Z.eqb_spec ts (duration_cast seconds (time msg))) as [->|]; [|done]. cbn [negb orb].
  destruct (Nat.eqb_spec (String.length text) 0) as [|Hne]; [done|]. destruct Hc as [?|Hc]; [done|].
  cbn in Hc. by rewrite Hc.
Qed.

Lemma full_cache_result msg (c' : full_state) :
  full_cache no_datetime msg (T (duration_cast seconds msg.(time))) = Ret c' → cache_valid c'.
Proof using Type.
  unfold full_cache. rewrite orb_true_r.
  destruct (in_own_buffer _) as [text| |] eqn:E; [|done..]. intros [= <-]. right. exact E.
Qed.

(** [f0]: a formatter as compiled, [f]: the same later. *)
Definition flag_sim (f0 f : flag_formatter) : Prop :=
  match f0, f with
  | full_formatter i c0, full_formatter j c => i = j ∧ String.length c0.(cached_datetime_) = 0%nat ∧ cache_valid c
  | _, _ => f0 = f ∧ stateless f0 = true ∧ (∀ i c, f0 ≠ full_formatter i c)
  end.

Lemma stateless_sim f : stateless f = true → flag_sim f f.
Proof using Type.
  destruct f; cbn; intros Hf; try by split_and!. apply Nat.eqb_eq in Hf. split_and!; [done..|by left].
Qed.

Lemma stateless_keeps f msg t o f' o' :
  stateless f = true → (∀ i c, f ≠ full_formatter i c) → flag_format f msg t o = (Ret f', o') → f' = f.
Proof using Type.
  intros Hf Hn. destruct f; cbn [stateless flag_format] in *; try done; try (by destruct (Hn _ _ eq_refl));
    intros (? & ? & ? & E)%bind_ret_inv; rewrite ret_run in E; by simplify_eq.
Qed.

Lemma flag_sim_format f0 f msg :
  flag_sim f0 f →
  let t := T (duration_cast seconds msg.(time)) in
  flag_format f msg t = flag_format f0 msg t ∧
  ∀ o f' o', flag_format f0 msg t o = (Ret f', o') → flag_sim f0 f'.
Proof using Type.
  intros Hs t.
  assert (Hcases : (∃ i c0 c, f0 = full_formatter i c0 ∧ f = full_formatter i c ∧
                      String.length c0.(cached_datetime_) = 0%nat ∧ cache_valid c) ∨
                   (f0 = f ∧ stateless f0 = true ∧ ∀ i c, f0 ≠ full_formatter i c)).
  { destruct f0; try by right. destruct f; try by right; destruct Hs. destruct Hs as (-> & ? & ?). left. eauto 10. }
  destruct Hcases as [(i & c0 & c & -> & -> & H0 & Hc)|(-> & Hst & Hn)].
  - assert (cache_valid c0) by by left. cbn [flag_format]. unfold full_format.
    subst t. rewrite (full_cache_valid c), (full_cache_valid c0) by done. split; [done|].
    intros o f' o' (c' & o1 & Hc' & E)%bind_ret_inv. rewrite ret_run in E. simplify_eq. cbn. split_and!; [done..|].
    apply bind_ret_inv in Hc' as (c1 & o2 & Hl & Hrest). unfold lift in Hl.
    injection Hl as Hl _. apply full_cache_result in Hl. revert Hrest.
    repeat (intros (? & ? & _ & Hrest)%bind_ret_inv; revert Hrest). by intros [= <- _].
  - split; [done|]. intros o f' o' E. apply stateless_keeps in E as ->; [|done..]. by apply stateless_sim.
Qed.

Lemma flags_sim_format fs0 fs msg :
  Forall2 flag_sim fs0 fs →
  let t := T (duration_cast seconds msg.(time)) in
  format_flags fs msg t = format_flags fs0 msg t ∧
  ∀ o fs' o', format_flags fs0 msg t o = (Ret fs', o') → Forall2 flag_sim fs0 fs'.
Proof using Type.
  intros Hs t. induction Hs as [|f0 f fs0 fs Hf Hfs [IH IHr]].
  { split; [done|]. intros o fs' o' [= <- <-]. constructor. }
  destruct (flag_sim_format f0 f msg Hf) as [E Er]. cbn [format_flags]. fold t in E, Er. rewrite E, IH.
  split; [done|]. intros o l o' (f' & o1 & Hf' & (fs' & o2 & Hfs' & El)%bind_ret_inv)%bind_ret_inv.
  rewrite ret_run in El. simplify_eq. constructor; eauto.
Qed.
End caches.

Section histories.
Context `{LogSystem} (f0 : pattern_formatter).

Abbreviation T := (tm_at f0).

(** A formatter that has formatted messages since it was [f0]. *)
Definition later (f : pattern_formatter) : Prop :=
  f.(eol_) = f0.(eol_) ∧ f.(need_localtime_) = f0.(need_localtime_) ∧
  f.(pattern_time_type_) = f0.(pattern_time_type_) ∧ Forall2 (flag_sim T) f0.(formatters_) f.(formatters_) ∧
  (f.(need_localtime_) = false → f.(cached_tm_) = f0.(cached_tm_)) ∧
  (f.(need_localtime_) = true → f.(last_log_secs_) ≠ 0 → f.(cached_tm_) = T f.(last_log_secs_)).

Lemma later_refresh f msg :
  later f → duration_cast seconds msg.(time) ≠ 0 →
  (refresh_time f msg).(cached_tm_) = T (duration_cast seconds msg.(time)) ∧ later (refresh_time f msg).
Proof using Type.
  intros Hf Hz. pose proof Hf as (He & Hn & Ht & Hfs & Hc & Hl). unfold refresh_time.
  destruct (need_localtime_ f) eqn:En; cbn [andb].
  - destruct (Z.eqb_spec (duration_cast seconds (time msg)) (last_log_secs_ f)) as [E|]; cbn [negb].
    + split; [rewrite E in *; by apply Hl|done].
    + assert (Hg : get_time_ f msg = T (duration_cast seconds (time msg))).
      { unfold get_time_, tm_at. by rewrite <- Hn, Ht. }
      cbn. split; [done|]. unfold later. cbn. by split_and!.
  - split; [|done]. rewrite Hc by done. unfold tm_at. by rewrite <- Hn.
Qed.

(** One line, with or without history. *)
Lemma later_format_line f msg :
  later f → duration_cast seconds msg.(time) ≠ 0 →
  (fst <$> format_line f msg) = reference_line f0 msg ∧
  ∀ o f', format_line f msg = Ret (o, f') → later f'.
Proof using Type.
  intros Hf Hz. destruct (later_refresh f msg Hf Hz) as [Htm (He & Hn & Ht & Hfs & Hc & Hl)].
  unfold format_line, format, reference_line. cbv zeta. rewrite Htm.
  destruct (flags_sim_format T _ _ msg Hfs) as [-> Hr]. rewrite !bind_run.
  destruct (format_flags (formatters_ f0) msg _ empty_out) as [[fs| |] o] eqn:E; [|by split..].
  rewrite bind_run, He. cbn. split; [done|]. intros o' f' [= <- <-].
  unfold later, with_formatters. cbn. split_and!; try done. by eapply Hr.
Qed.

Lemma later_format_lines msgs f :
  later f → Forall (λ msg, duration_cast seconds msg.(time) ≠ 0) msgs →
  format_lines f msgs = mapM (reference_line f0) msgs.
Proof using Type.
  intros Hf Hms. revert f Hf. induction Hms as [|msg msgs Hz Hms IH]; intros f Hf; [done|].
  cbn [format_lines mapM]. destruct (later_format_line f msg Hf Hz) as [<- Hl].
  destruct (format_line f msg) as [[o f']|e|x]; cbn [mbind outcome_bind]; [|done..].
  cbn. by rewrite (IH f' (Hl o f' eq_refl)).
Qed.

Lemma later_start : forallb stateless f0.(formatters_) = true → f0.(last_log_secs_) = 0 → later f0.
Proof using Type.
  rewrite forallb_forall. intros Hs Hz. unfold later. split_and!; [done..| |done|done].
  apply Forall_Forall2_diag, List.Forall_forall. intros f Hf. by apply stateless_sim, Hs.
Qed.
End histories.

(** The caches of the log formatter do not show. With a pattern that has no
    elapsed times and no offset from UTC, each message's line is what a formatter
    that keeps nothing would print for that message alone, with the time of that
    message: neither the broken-down time kept for a second nor the date text of
    the default pattern goes stale. (Within the first second of 1970 the cached
    time counts as known, and is all zeros.) *)
Theorem log_caches_invisible `{LogSystem} now p ty eol msgs :
  let f := pattern_formatter_new now p ty eol in
  forallb stateless f.(formatters_) = true →
  Forall (λ msg, duration_cast seconds msg.(time) ≠ 0) msgs →
  format_lines f msgs = mapM (reference_line f) msgs.
Proof.
  intros f Hs Hms. apply later_format_lines; [|done]. apply later_start; [done|].
  apply pattern_formatter_new_ok.
Qed.
