(* ===== verification/LogOutput.v ===== *)
(** * spdlog's sinks and the program's log file

    The sinks of logger_init.cpp as objects (sinks/ansicolor_sink-inl.h,
    sinks/basic_file_sink-inl.h, details/file_helper-inl.h) on C's buffered
    files, and [logger::log] of a sequence of messages with what it reports
    through [logger::err_handler_]. The C library may write what it buffers at
    any time, take less than it is given and fail to flush: that is its choice,
    a [device]. *)
From Stdlib Require Import Ascii.
From S2P Require Import Prelude Numerals FmtInt Logging LogPattern LogFormat.

(** ** Files of the C library *)

(** What the file system does with a file, call by call of the C library on
    it: how many of the bytes given to [fwrite] are taken, how many of those in
    the buffer are written at that occasion, how many [fflush] writes, and the
    system's text for an error of the call. *)
Record device := {
  accepts : nat → string → nat;
  spill : nat → string → nat;
  drains : nat → string → nat;
  strerror : nat → string
}.

(** The devices behind the standard output stream and a named file. *)
Class Stdio := { stdout_device : device; file_device : string → device }.

(** A device that takes everything it is given. *)
Definition accepting (d : device) : Prop :=
  ∀ n s, (String.length s ≤ d.(accepts) n s)%nat ∧ (String.length s ≤ d.(drains) n s)%nat.

Record FILE := { dev : device; io_calls : nat; on_disk : string; buffered : string }.

Definition new_file (d : device) : FILE := {| dev := d; io_calls := 0; on_disk := ""; buffered := "" |}.

Definition take_string (n : nat) (s : string) : string := String.substring 0 n s.
Definition drop_string (n : nat) (s : string) : string := String.substring n (String.length s - n) s.

(** [std::fwrite]: how many bytes were taken; they are buffered, and part of
    the buffer may be written. *)
Definition fwrite (text : string) (fd : FILE) : nat * FILE :=
  let n := Nat.min (fd.(dev).(accepts) fd.(io_calls) text) (String.length text) in
  let b := fd.(buffered) +:+ take_string n text in
  let k := fd.(dev).(spill) fd.(io_calls) b in
  (n, {| dev := fd.(dev); io_calls := S fd.(io_calls); on_disk := fd.(on_disk) +:+ take_string k b;
         buffered := drop_string k b |}).

(** [os::fwrite_bytes] *)
Definition fwrite_bytes (text : string) (fd : FILE) : bool * FILE :=
  let '(n, fd) := fwrite text fd in ((n =? String.length text)%nat, fd).

(** [std::fflush]: whether it succeeded; what could not be written stays. *)
Definition fflush (fd : FILE) : bool * FILE :=
  let k := fd.(dev).(drains) fd.(io_calls) fd.(buffered) in
  ((String.length fd.(buffered) <=? k)%nat,
   {| dev := fd.(dev); io_calls := S fd.(io_calls); on_disk := fd.(on_disk) +:+ take_string k fd.(buffered);
      buffered := drop_string k fd.(buffered) |}).

(** [throw_spdlog_ex(msg, errno)] after a failed call on [fd]. *)
Definition system_error (what : string) (fd : FILE) : exn :=
  spdlog_ex (what +:+ ": " +:+ fd.(dev).(strerror) (pred fd.(io_calls))).

(** ** class file_helper *)

Record file_helper := { filename_ : string; fd_ : option FILE }.

Definition set_fd (fd : FILE) : M file_helper unit :=
  modify (λ h, {| filename_ := h.(filename_); fd_ := Some fd |}).

Definition file_helper_write (text : string) : M file_helper unit :=
  h ← get_state;
  match h.(fd_) with
  | None => mret tt
  | Some fd =>
      let '(ok, fd) := fwrite_bytes text fd in
      _ ← set_fd fd;
      if (ok : bool) then mret tt else throw (system_error ("Failed writing to file " +:+ h.(filename_)) fd)
  end.

(** [fflush] of a null pointer flushes other files, not this one. *)
Definition file_helper_flush : M file_helper unit :=
  h ← get_state;
  match h.(fd_) with
  | None => mret tt
  | Some fd =>
      let '(ok, fd) := fflush fd in
      _ ← set_fd fd;
      if (ok : bool) then mret tt else throw (system_error ("Failed flush to file " +:+ h.(filename_)) fd)
  end.

(** What was written to the file, and what it holds once it is closed. *)
Definition contents (fd : FILE) : string := fd.(on_disk) +:+ fd.(buffered).

(** ** Sinks *)

Inductive sink_object :=
  | ansicolor_stdout_sink (formatter_ : pattern_formatter) (should_do_colors_ : bool) (target_file_ : FILE)
  | basic_file_sink_mt (formatter_ : pattern_formatter) (file_helper_ : file_helper)
  | null_sink_mt.

Definition escape (code : string) : string := String "027" ("[" +:+ code +:+ "m").

Definition reset_code : string := escape "".

Definition colors_ (l : level_enum) : string :=
  match l with
  | trace => escape "37"
  | debug => escape "36"
  | info => escape "32"
  | warn => escape "33" +:+ escape "1"
  | err => escape "31" +:+ escape "1"
  | critical => escape "1" +:+ escape "41"
  | off => reset_code
  end.

(** The console's sink does not look at what [fwrite_bytes] and [fflush] answer. *)
Definition print_ccode_ (color_code : string) (fd : FILE) : FILE := (fwrite_bytes color_code fd).2.

Definition print_range_ (formatted : string) (start stop : Z) (fd : FILE) : FILE :=
  (fwrite_bytes (String.substring (Z.to_nat start) (Z.to_nat (stop - start)) formatted) fd).2.

(** [ansicolor_sink::log]; the colour range starts at 0, 0 in [empty_out]. *)
Definition ansicolor_log `{LogSystem} (formatter_ : pattern_formatter) (should_do_colors_ : bool)
    (target_file_ : FILE) (msg : log_msg) : M sink_object unit :=
  '(o, formatter_) ← lift (format_line formatter_ msg);
  let formatted := o.(dest) in
  let fd :=
    if should_do_colors_ && (o.(color_range_start) <? o.(color_range_end)) then
      let fd := print_range_ formatted 0 o.(color_range_start) target_file_ in
      let fd := print_ccode_ (colors_ msg.(level)) fd in
      let fd := print_range_ formatted o.(color_range_start) o.(color_range_end) fd in
      let fd := print_ccode_ reset_code fd in
      print_range_ formatted o.(color_range_end) (dest_size o) fd
    else print_range_ formatted 0 (dest_size o) target_file_ in
  put_state (ansicolor_stdout_sink formatter_ should_do_colors_ (fflush fd).2).

(** A call on a file sink's [file_helper_]. *)
Definition on_file_helper (formatter_ : pattern_formatter) (h : file_helper) (m : M file_helper unit) :
    M sink_object unit := λ _, let '(r, h) := m h in (r, basic_file_sink_mt formatter_ h).

(** [basic_file_sink::sink_it_] *)
Definition file_sink_it_ `{LogSystem} (formatter_ : pattern_formatter) (file_helper_ : file_helper)
    (msg : log_msg) : M sink_object unit :=
  '(o, formatter_) ← lift (format_line formatter_ msg);
  on_file_helper formatter_ file_helper_ (file_helper_write o.(dest)).

Definition sink_log `{LogSystem} (msg : log_msg) : M sink_object unit :=
  s ← get_state;
  match s with
  | ansicolor_stdout_sink f c fd => ansicolor_log f c fd msg
  | basic_file_sink_mt f h => file_sink_it_ f h msg
  | null_sink_mt => mret tt
  end.

Definition sink_flush : M sink_object unit :=
  s ← get_state;
  match s with
  | ansicolor_stdout_sink f c fd => put_state (ansicolor_stdout_sink f c (fflush fd).2)
  | basic_file_sink_mt f h => on_file_helper f h file_helper_flush
  | null_sink_mt => mret tt
  end.

(** A sink of Logging.v as an object: its formatter is made by [set_pattern]. *)
Definition open_sink `{Stdio} (now : Z) (should_color : bool) (s : sink) : sink_object :=
  match s with
  | stdout_color_sink p =>
      ansicolor_stdout_sink (pattern_formatter_new now p local default_eol) should_color (new_file stdout_device)
  | basic_file_sink path p =>
      basic_file_sink_mt (pattern_formatter_new now p local default_eol)
        {| filename_ := path; fd_ := Some (new_file (file_device path)) |}
  | null_sink => null_sink_mt
  end.

(** ** [logger::err_handler_] *)

(** A line "[*** LOG ERROR #number ***] [date] [logger] what". *)
Record error_report := { report_number : Z; report_time : Z; report_logger : string; report_what : string }.

(** The static variables of the function, and what it printed. Times are
    nanoseconds since the epoch; a time point is the epoch at first. *)
Record err_state := { last_report_time : Z; err_counter : Z; reports : list error_report }.

Definition err_state_start : err_state := {| last_report_time := 0; err_counter := 0; reports := [] |}.

Definition second : Z := 1000000000.

Definition err_handler_ (name : string) (now : Z) (msg : string) (e : err_state) : err_state :=
  let counter := w64 (e.(err_counter) + 1) in
  if now - e.(last_report_time) <? second then
    {| last_report_time := e.(last_report_time); err_counter := counter; reports := e.(reports) |}
  else
    {| last_report_time := now; err_counter := counter;
       reports := e.(reports) ++ [{| report_number := counter; report_time := now; report_logger := name; report_what := msg |}] |}.

(** [what()] *)
Definition exn_what (e : exn) : string :=
  match e with
  | runtime_error w | out_of_range w | invalid_argument w | ios_failure w | archive_exception w | spdlog_ex w => w
  | std_exception => "std::exception"
  end.

(** ** class logger *)

Definition should_flush_ (lg : logger) (msg : log_msg) : bool :=
  (level_number lg.(flush_level_) <=? level_number msg.(level)) && negb (level_number msg.(level) =? level_number off).

(** The sinks and the error handler's state. *)
Abbreviation logged := (outcome (list sink_object * err_state)).

(** [SPDLOG_TRY { ... } SPDLOG_LOGGER_CATCH(location)] around a call on a sink,
    without a source location; [now], the time of the message, stands for the
    clock at the report. *)
Definition try_sink (lg : logger) (now : Z) (m : M sink_object unit) (s : sink_object) (e : err_state) :
    outcome (sink_object * err_state) :=
  match m s with
  | (Ret _, s) => Ret (s, e)
  | (Throw x, s) => Ret (s, err_handler_ lg.(name_) now (exn_what x) e)
  | (Crash f, _) => Crash f
  end.

(** A call on every sink, in order. *)
Fixpoint for_sinks (lg : logger) (now : Z) (m : M sink_object unit) (sinks : list sink_object) (e : err_state) : logged :=
  match sinks with
  | [] => Ret ([], e)
  | s :: sinks =>
      '(s, e) ← try_sink lg now m s e;
      '(sinks, e) ← for_sinks lg now m sinks e;
      Ret (s :: sinks, e)
  end.

(** The loop of [logger::sink_it_], and [logger::flush_]. *)
Definition sinks_log `{LogSystem} (lg : logger) (msg : log_msg) : list sink_object → err_state → logged :=
  for_sinks lg msg.(time) (sink_log msg).

Definition flush_ (lg : logger) (now : Z) : list sink_object → err_state → logged :=
  for_sinks lg now sink_flush.

Definition sink_it_ `{LogSystem} (lg : logger) (msg : log_msg) (sinks : list sink_object) (e : err_state) : logged :=
  '(sinks, e) ← sinks_log lg msg sinks e;
  if should_flush_ lg msg then flush_ lg msg.(time) sinks e else Ret (sinks, e).

(** A call of [spdlog::log]: when, and by which thread. *)
Record log_call := { call_level : level_enum; call_text : string; call_time : Z; call_thread : Z }.

(** [log_msg::log_msg(source_loc{}, name_, lvl, msg)] *)
Definition log_msg_of (lg : logger) (c : log_call) : log_msg :=
  {| logger_name := lg.(name_); level := c.(call_level); time := c.(call_time); thread_id := c.(call_thread);
     source := no_source; payload := c.(call_text) |}.

Definition logger_log `{LogSystem} (lg : logger) (c : log_call) (sinks : list sink_object) (e : err_state) : logged :=
  if should_log lg c.(call_level) then sink_it_ lg (log_msg_of lg c) sinks e else Ret (sinks, e).

Fixpoint log_calls `{LogSystem} (lg : logger) (cs : list log_call) (sinks : list sink_object) (e : err_state) : logged :=
  match cs with
  | [] => Ret (sinks, e)
  | c :: cs => '(sinks, e) ← logger_log lg c sinks e; log_calls lg cs sinks e
  end.

(** [level::from_str] *)
Definition to_lower (c : ascii) : ascii :=
  let n := nat_of_ascii c in
  if (65 <=? n)%nat && (n <=? 90)%nat then ascii_of_nat (n + 32) else c.

Fixpoint iequals (a b : string) : bool :=
  match a, b with
  | EmptyString, EmptyString => true
  | String c a, String d b => Ascii.eqb (to_lower c) (to_lower d) && iequals a b
  | _, _ => false
  end.

Definition from_str (name : string) : level_enum :=
  match List.find (λ l, iequals (to_string_view l) name) [trace; debug; info; warn; err; critical; off] with
  | Some l => l
  | None => if iequals name "warn" then warn else if iequals name "err" then err else off
  end.

(** ** The text that formatting appends *)

Definition writes (m : M out unit) (v : string) : Prop := ∀ o, m o = (Ret tt,
  {| dest := o.(dest) +:+ v; color_range_start := o.(color_range_start); color_range_end := o.(color_range_end) |}).

Lemma writes_append v : writes (append_string_view v) v.
Proof. done. Qed.

Lemma writes_push c : writes (push_back c) (String c "").
Proof. done. Qed.

Lemma writes_then m k v w : writes m v → writes k w → writes (_ ← m; k) (v +:+ w).
Proof. intros Hm Hk o. rewrite bind_run, Hm, Hk. cbn. by rewrite append_assoc. Qed.

Definition two_digits (n : Z) : string := String (digit_char (n / 10)) (String (digit_char (n mod 10)) "").

Definition pad2_text (n : Z) : string := if (0 <=? n) && (n <? 100) then two_digits n else int_text n.

Definition pad3_text (n : Z) : string :=
  if n <? 1000 then String (digit_char (n / 100)) (two_digits (n mod 100)) else natural_text n.

Lemma writes_pad2 n : writes (pad2 n) (pad2_text n).
Proof.
  unfold pad2, pad2_text. destruct (_ && _); [|apply writes_append].
  apply (writes_then _ _ (String _ "") (String _ "")); apply writes_push.
Qed.

Lemma writes_unsigned n : 0 ≤ n < 2 ^ 64 → writes (append_unsigned n) (natural_text n).
Proof.
  intros Hn o. unfold append_unsigned. rewrite bind_run. unfold lift. by rewrite format_unsigned_text.
Qed.

Lemma writes_int w n : w = 32 ∨ w = 64 → - 2 ^ (w - 1) ≤ n < 2 ^ (w - 1) → writes (append_int w n) (int_text n).
Proof.
  intros Hw Hn o. unfold append_int. rewrite bind_run. unfold lift.
  by destruct (format_signed_text w n Hw Hn) as (k & -> & _).
Qed.

Lemma writes_pad3 n : 0 ≤ n < 2 ^ 64 → writes (pad3 n) (pad3_text n).
Proof.
  intros Hn. unfold pad3, pad3_text. destruct (n <? 1000); [|by apply writes_unsigned].
  apply (writes_then _ _ (String _ "") (String _ (String _ ""))); [apply writes_push|].
  apply (writes_then _ _ (String _ "") (String _ "")); apply writes_push.
Qed.

(** ** The lines of the program's patterns *)

Definition date_text (t : tm) (millis : Z) : string :=
  int_text (t.(tm_year) + 1900) +:+ ("-" +:+ (pad2_text (t.(tm_mon) + 1) +:+ ("-" +:+ (pad2_text t.(tm_mday) +:+
  (" " +:+ (pad2_text t.(tm_hour) +:+ (":" +:+ (pad2_text t.(tm_min) +:+ (":" +:+ (pad2_text t.(tm_sec) +:+
  ("." +:+ pad3_text millis))))))))))).

Section lines.
Context `{LogSystem}.

Definition msg_date (msg : log_msg) : string :=
  date_text (localtime (duration_cast seconds msg.(time))) (w32 (time_fraction milliseconds msg.(time))).

Definition console_line (msg : log_msg) : string :=
  "[" +:+ (msg_date msg +:+ ("] [" +:+ (to_string_view msg.(level) +:+ ("] " +:+ (msg.(payload) +:+ default_eol))))).

Definition file_line (msg : log_msg) : string :=
  "[" +:+ (msg_date msg +:+ ("] [" +:+ (to_string_view msg.(level) +:+ ("] [pid:" +:+ (natural_text (w32 getpid) +:+
  ("] [tid:" +:+ (natural_text msg.(thread_id) +:+ ("] " +:+ (msg.(payload) +:+ default_eol))))))))).

Context (msg : log_msg) (t : tm).

Definition flag_writes (f : flag_formatter) (v : string) : Prop := ∀ o, flag_format f msg t o = (Ret f,
  {| dest := o.(dest) +:+ v; color_range_start := o.(color_range_start); color_range_end := o.(color_range_end) |}).

Definition flags_write (fs : list flag_formatter) (v : string) : Prop := ∀ o, format_flags fs msg t o = (Ret fs,
  {| dest := o.(dest) +:+ v; color_range_start := o.(color_range_start); color_range_end := o.(color_range_end) |}).

Lemma flag_writes_of f body v :
  flag_format f msg t = (_ ← body; mret f) → writes body v → flag_writes f v.
Proof using Type. intros Hf Hb o. by rewrite Hf, bind_run, Hb. Qed.

Lemma flags_write_nil : flags_write [] "".
Proof using Type. intros [d s e]. cbn. by rewrite append_nil_r. Qed.

Lemma flags_write_cons f fs v w : flag_writes f v → flags_write fs w → flags_write (f :: fs) (v +:+ w).
Proof using Type.
  intros Hf Hfs o. cbn [format_flags]. rewrite bind_run, Hf, bind_run, Hfs. cbn. by rewrite append_assoc.
Qed.

(** A line: literal text and flags, then the rest. *)
Lemma flags_write_literal s fs w : flags_write fs w → flags_write (aggregate_formatter s :: fs) (s +:+ w).
Proof using Type. apply flags_write_cons. by eapply flag_writes_of; [|apply writes_append]. Qed.

Lemma flag_writes_Y : tm_ok t → flag_writes (Y_formatter null_scoped_padder no_padding) (int_text (tm_year t + 1900)).
Proof using Type.
  intros (_ & _ & _ & Hy). eapply flag_writes_of; [reflexivity|]. apply writes_int; [by left|exact Hy].
Qed.

Lemma flag_writes_pad2 f n : flag_format f msg t = (_ ← pad2 n; mret f) → flag_writes f (pad2_text n).
Proof using Type. intros Hf. eapply flag_writes_of; [exact Hf|]. apply writes_pad2. Qed.

Lemma flag_writes_e : flag_writes (e_formatter null_scoped_padder no_padding)
  (pad3_text (w32 (time_fraction milliseconds msg.(time)))).
Proof using Type.
  eapply flag_writes_of; [reflexivity|]. apply writes_pad3.
  pose proof (w32_range (time_fraction milliseconds (time msg))). lia.
Qed.

Lemma flag_writes_pid : flag_writes (pid_formatter null_scoped_padder no_padding) (natural_text (w32 getpid)).
Proof using Type.
  eapply flag_writes_of; [reflexivity|]. apply writes_unsigned. pose proof (w32_range getpid). lia.
Qed.

Lemma flag_writes_tid : msg_ok msg →
  flag_writes (t_formatter null_scoped_padder no_padding) (natural_text msg.(thread_id)).
Proof using Type. intros (_ & Ht & _). eapply flag_writes_of; [reflexivity|]. by apply writes_unsigned. Qed.

(** The flags "%Y-%m-%d %H:%M:%S.%e", compiled. *)
Definition date_flags : list flag_formatter :=
  let P := null_scoped_padder in let i := no_padding in
  [Y_formatter P i; aggregate_formatter "-"; m_formatter P i; aggregate_formatter "-"; d_formatter P i;
   aggregate_formatter " "; H_formatter P i; aggregate_formatter ":"; M_formatter P i; aggregate_formatter ":";
   S_formatter P i; aggregate_formatter "."; e_formatter P i].

Lemma flags_write_date fs w :
  tm_ok t → flags_write fs w →
  flags_write (date_flags ++ fs) (date_text t (w32 (time_fraction milliseconds msg.(time))) +:+ w).
Proof using Type.
  intros Ht Hw. unfold date_text, date_flags. rewrite <- !append_assoc. cbn [app].
  apply flags_write_cons; [by apply flag_writes_Y|].
  do 5 (apply flags_write_literal, flags_write_cons; [by apply flag_writes_pad2|]).
  by apply flags_write_literal, flags_write_cons; [apply flag_writes_e|].
Qed.
End lines.

Section program_lines.
Context `{LogSystemLaws} (now : Z).

Abbreviation formatter p := (pattern_formatter_new now p local default_eol).

Lemma console_formatters :
  (formatter console_pattern).(formatters_) =
    aggregate_formatter "[" :: date_flags ++
    [aggregate_formatter "] ["; level_formatter null_scoped_padder no_padding; aggregate_formatter "] ";
     v_formatter null_scoped_padder no_padding] ∧
  (formatter console_pattern).(need_localtime_) = true.
Proof using Type. vm_compute. by split. Qed.

Lemma file_formatters :
  (formatter file_pattern).(formatters_) =
    aggregate_formatter "[" :: date_flags ++
    [aggregate_formatter "] ["; level_formatter null_scoped_padder no_padding; aggregate_formatter "] [pid:";
     pid_formatter null_scoped_padder no_padding; aggregate_formatter "] [tid:";
     t_formatter null_scoped_padder no_padding; aggregate_formatter "] ";
     v_formatter null_scoped_padder no_padding] ∧
  (formatter file_pattern).(need_localtime_) = true.
Proof using Type. vm_compute. by split. Qed.

(** What a formatter that writes [v] makes of a message. *)
Lemma reference_line_text p msg v :
  flags_write msg (tm_at (formatter p) (duration_cast seconds msg.(time))) (formatter p).(formatters_) v →
  reference_line (formatter p) msg = Ret {| dest := v +:+ default_eol; color_range_start := 0; color_range_end := 0 |}.
Proof using Type.
  intros Hv. unfold reference_line. rewrite bind_run, Hv.
  destruct (pattern_formatter_new_ok now p local default_eol) as (_ & _ & _ & -> & _). done.
Qed.

Lemma message_tm p msg : msg_ok msg → (formatter p).(need_localtime_) = true →
  tm_at (formatter p) (duration_cast seconds msg.(time)) = localtime (duration_cast seconds msg.(time)) ∧
  tm_ok (localtime (duration_cast seconds msg.(time))).
Proof using Type*.
  intros Hm Hn. pose proof (get_time_ok (formatter p) msg Hm) as Hok. unfold tm_at, get_time_ in *. rewrite Hn.
  destruct (pattern_formatter_new_ok now p local default_eol) as (_ & _ & _ & _ & Hty). by rewrite Hty in *.
Qed.

Lemma console_reference msg : msg_ok msg →
  reference_line (formatter console_pattern) msg =
    Ret {| dest := console_line msg; color_range_start := 0; color_range_end := 0 |}.
Proof using Type*.
  intros Hm. destruct console_formatters as [Hf Hn]. destruct (message_tm _ msg Hm Hn) as [Htm Hok].
  rewrite (reference_line_text console_pattern msg
    ("[" +:+ (msg_date msg +:+ ("] [" +:+ (to_string_view msg.(level) +:+ ("] " +:+ (msg.(payload) +:+ ""))))))).
  - unfold console_line. by rewrite append_nil_r, <- !append_assoc.
  - rewrite Hf, Htm. apply flags_write_literal, flags_write_date; [done|].
    apply flags_write_literal, flags_write_cons; [by eapply flag_writes_of; [reflexivity|apply writes_append]|].
    apply flags_write_literal, flags_write_cons; [by eapply flag_writes_of; [reflexivity|apply writes_append]|].
    apply flags_write_nil.
Qed.

Lemma file_reference msg : msg_ok msg →
  reference_line (formatter file_pattern) msg =
    Ret {| dest := file_line msg; color_range_start := 0; color_range_end := 0 |}.
Proof using Type*.
  intros Hm. destruct file_formatters as [Hf Hn]. destruct (message_tm _ msg Hm Hn) as [Htm Hok].
  rewrite (reference_line_text file_pattern msg
    ("[" +:+ (msg_date msg +:+ ("] [" +:+ (to_string_view msg.(level) +:+ ("] [pid:" +:+ (natural_text (w32 getpid) +:+
     ("] [tid:" +:+ (natural_text msg.(thread_id) +:+ ("] " +:+ (msg.(payload) +:+ ""))))))))))).
  - unfold file_line. by rewrite append_nil_r, <- !append_assoc.
  - rewrite Hf, Htm. apply flags_write_literal, flags_write_date; [done|].
    apply flags_write_literal, flags_write_cons; [by eapply flag_writes_of; [reflexivity|apply writes_append]|].
    apply flags_write_literal, flags_write_cons; [apply flag_writes_pid|].
    apply flags_write_literal, flags_write_cons; [by apply flag_writes_tid|].
    apply flags_write_literal, flags_write_cons; [by eapply flag_writes_of; [reflexivity|apply writes_append]|].
    apply flags_write_nil.
Qed.
End program_lines.

(** ** Files *)

Lemma whole_substring s : String.substring 0 (String.length s) s = s.
Proof. induction s as [|c s IH]; [done|]. cbn. by f_equal. Qed.

Lemma take_drop_string n s : take_string n s +:+ drop_string n s = s.
Proof.
  unfold take_string, drop_string. revert n. induction s as [|c s IH]; intros [|n]; cbn; [done..| |].
  - rewrite append_nil. f_equal. apply whole_substring.
  - rewrite append_cons. f_equal. exact (IH n).
Qed.

Lemma take_string_all n s : (String.length s ≤ n)%nat → take_string n s = s.
Proof.
  unfold take_string. revert n. induction s as [|c s IH]; intros [|n] Hn; cbn in *; [done..|lia|].
  f_equal. apply IH. lia.
Qed.

Lemma drop_string_all n s : (String.length s ≤ n)%nat → drop_string n s = "".
Proof.
  intros Hn. pose proof (f_equal String.length (take_drop_string n s)) as H.
  rewrite take_string_all, length_append in H by done. by destruct (drop_string n s); [|cbn in H; lia].
Qed.

Definition is_prefix (a b : string) : Prop := ∃ rest, b = a +:+ rest.

Lemma is_prefix_app a b c : is_prefix a b → is_prefix a (b +:+ c).
Proof. intros [r ->]. exists (r +:+ c). by rewrite append_assoc. Qed.

(** Files on a device that takes everything. *)
Lemma fwrite_accepting text fd :
  accepting fd.(dev) →
  (fwrite_bytes text fd).1 = true ∧ contents (fwrite_bytes text fd).2 = contents fd +:+ text ∧
  is_prefix fd.(on_disk) (fwrite_bytes text fd).2.(on_disk) ∧ (fwrite_bytes text fd).2.(dev) = fd.(dev).
Proof.
  intros Ha. destruct (Ha fd.(io_calls) text) as [Hl _]. unfold fwrite_bytes, fwrite.
  rewrite (Nat.min_r _ _ Hl). cbn. rewrite Nat.eqb_refl, (take_string_all (String.length text) text) by lia. split; [done|]. split; [|split; [by eexists|done]].
  unfold contents. cbn. by rewrite <- append_assoc, take_drop_string, append_assoc.
Qed.

Lemma fflush_accepting fd :
  accepting fd.(dev) →
  (fflush fd).1 = true ∧ (fflush fd).2.(on_disk) = contents fd ∧ (fflush fd).2.(buffered) = "" ∧
  (fflush fd).2.(dev) = fd.(dev).
Proof.
  intros Ha. destruct (Ha fd.(io_calls) fd.(buffered)) as [_ Hl]. cbn.
  split_and!; [by apply Nat.leb_le|by rewrite take_string_all|by apply drop_string_all|done].
Qed.

Section file_logger_lines.
Context `{LogSystem}.

Abbreviation lg := (file_logger "" true).

(** Every message of the file logger has its name and no source location. *)
Definition msg_of (c : log_call) : log_msg := log_msg_of lg c.

Definition call_ok (c : log_call) : Prop :=
  - 2 ^ 63 ≤ c.(call_time) < 2 ^ 63 ∧ 0 ≤ c.(call_thread) < 2 ^ 64 ∧ duration_cast seconds c.(call_time) ≠ 0.

Lemma call_msg_ok c : call_ok c → msg_ok (msg_of c).
Proof using Type. intros (Ht & Hth & _). split; [exact Ht|]. split; [exact Hth|]. intros He. discriminate He. Qed.

Definition text_of (line : log_msg → string) (cs : list log_call) : string :=
  foldr (λ c s, line (msg_of c) +:+ s) "" cs.

Lemma text_of_snoc line cs c : text_of line (cs ++ [c]) = text_of line cs +:+ line (msg_of c).
Proof using Type.
  unfold text_of. induction cs as [|d cs IH]; cbn [foldr app]; [by rewrite append_nil_r|]. by rewrite IH, append_assoc.
Qed.

(** Calls that [flush_on(warn)] flushes. *)
Definition urgent (c : log_call) : bool := should_flush_ lg (msg_of c).

(** ** What the file system does with the lines of a log

    The lines are written one after the other, those that are urgent followed
    by a flush; what fails is noted with the time of its call. *)
Definition failure : Type := Z * string.

Definition noted (ok : bool) (now : Z) (what : string) (fd : FILE) (fails : list failure) : list failure :=
  if ok then fails else fails ++ [(now, exn_what (system_error what fd))].

Definition file_step (path : string) (st : FILE * list failure) (c : log_call) : FILE * list failure :=
  let '(fd, fails) := st in
  let '(ok, fd) := fwrite_bytes (file_line (msg_of c)) fd in
  let fails := noted ok c.(call_time) ("Failed writing to file " +:+ path) fd fails in
  if urgent c then
    let '(ok, fd) := fflush fd in (fd, noted ok c.(call_time) ("Failed flush to file " +:+ path) fd fails)
  else (fd, fails).

Definition written_file (path : string) (d : device) (cs : list log_call) : FILE * list failure :=
  foldl (file_step path) (new_file d, []) cs.

(** The failures reported, one by one. *)
Definition report_all (fails : list failure) (e : err_state) : err_state :=
  foldl (λ e (f : failure), err_handler_ "global_logger" f.1 f.2 e) e fails.

Lemma written_snoc path d cs c : written_file path d (cs ++ [c]) = file_step path (written_file path d cs) c.
Proof using Type. unfold written_file. by rewrite foldl_app. Qed.

(** Everything up to an urgent call is on the disk. *)
Definition durable (cs : list log_call) (fd : FILE) : Prop :=
  ∀ cs1 c cs2, cs = cs1 ++ c :: cs2 → urgent c = true → is_prefix (text_of file_line (cs1 ++ [c])) fd.(on_disk).

Lemma durable_nil fd : durable [] fd.
Proof using Type. intros [|? ?] c cs2 Hcs; discriminate Hcs. Qed.

Lemma durable_snoc cs c fd fd' :
  durable cs fd → contents fd' = text_of file_line (cs ++ [c]) → is_prefix fd.(on_disk) fd'.(on_disk) →
  (urgent c = true → fd'.(buffered) = "") → durable (cs ++ [c]) fd'.
Proof using Type.
  intros Hd Hc [r Hr] Hb cs1 c' cs2 Hcs Hu. destruct cs2 as [|d cs2 _] using rev_ind.
  - apply app_inj_tail in Hcs as [-> ->]. exists "". rewrite append_nil_r, <- Hc.
    unfold contents. by rewrite Hb, append_nil_r.
  - rewrite app_comm_cons, app_assoc in Hcs. apply app_inj_tail in Hcs as [Hcs _].
    rewrite Hr. by eapply is_prefix_app, Hd.
Qed.

(** On a device that takes everything nothing fails, the file has every line,
    and what is urgent is on the disk. *)
Lemma written_accepting path d cs :
  accepting d →
  let '(fd, fails) := written_file path d cs in
  fails = [] ∧ fd.(dev) = d ∧ contents fd = text_of file_line cs ∧ durable cs fd.
Proof using Type.
  intros Ha. induction cs as [|c cs IH] using rev_ind; [by split_and!; [..|apply durable_nil]|].
  rewrite written_snoc. destruct (written_file path d cs) as [fd fails]. destruct IH as (-> & <- & Ht & Hd).
  unfold file_step. destruct (fwrite_accepting (file_line (msg_of c)) fd Ha) as (Hw & Hc & Hp & Hv).
  destruct (fwrite_bytes _ fd) as [ok fd1]. cbn [fst snd] in *. subst ok. cbn [noted].
  rewrite Ht, <- text_of_snoc in Hc. destruct (urgent c) eqn:Hu; cbn [noted].
  - destruct (fflush_accepting fd1) as (Hf & Ho & Hb & Hv1); [by rewrite Hv|].
    destruct (fflush fd1) as [ok fd2]. cbn [fst snd] in *. subst ok. cbn [noted].
    assert (contents fd2 = text_of file_line (cs ++ [c])) as Hc2.
    { unfold contents at 1. by rewrite Ho, Hb, append_nil_r. }
    split_and!; [done|congruence|done|]. eapply durable_snoc; [done|done| |done].
    rewrite Ho. by apply is_prefix_app.
  - split_and!; [done..|]. eapply durable_snoc; [done..|]. by rewrite Hu.
Qed.
End file_logger_lines.

(** ** The sinks of the file logger *)

Section file_logger_sinks.
Context `{LogSystemLaws} `{Stdio} (now : Z) (should_color : bool).

Abbreviation formatter p := (pattern_formatter_new now p local default_eol).
Abbreviation lg := (file_logger "" true).

Definition formatter_after (p : string) (f : pattern_formatter) : Prop :=
  later (formatter p) f ∧ formatter_ok f.

Lemma new_formatter_after p : p = console_pattern ∨ p = file_pattern → formatter_after p (formatter p).
Proof using Type.
  intros Hp. destruct (pattern_formatter_new_ok now p local default_eol) as (? & _ & ? & _).
  split; [|done]. apply later_start; [|done].
  destruct Hp as [->| ->]; [by rewrite (proj1 (console_formatters now))|by rewrite (proj1 (file_formatters now))].
Qed.

(** One formatted line of a sink whose formatter has worked before. *)
Lemma formatted_line p f c text :
  formatter_after p f → call_ok c →
  reference_line (formatter p) (msg_of c) = Ret {| dest := text; color_range_start := 0; color_range_end := 0 |} →
  ∃ f', format_line f (msg_of c) = Ret ({| dest := text; color_range_start := 0; color_range_end := 0 |}, f') ∧
    formatter_after p f'.
Proof using Type*.
  intros [Hl Hok] Hc Href. destruct (format_line_returns f (msg_of c) (call_msg_ok c Hc) Hok) as (o & f' & E & Hok').
  destruct (later_format_line (formatter p) f (msg_of c) Hl) as [Ho Hl']; [apply Hc|].
  rewrite E, Href in Ho. injection Ho as ->. exists f'. split; [done|]. split; [by eapply Hl'|done].
Qed.

Lemma try_console_flush (l : logger) k f col fd e :
  try_sink l k sink_flush (ansicolor_stdout_sink f col fd) e = Ret (ansicolor_stdout_sink f col (fflush fd).2, e).
Proof using Type. done. Qed.

Context (path : string) (console : bool).

Abbreviation flog := (file_logger path console).

(** The console shows every line at once, if it takes them. *)
Definition console_shows (cs : list log_call) (fd : FILE) : Prop :=
  accepting stdout_device →
  fd.(dev) = stdout_device ∧ fd.(on_disk) = text_of console_line cs ∧ fd.(buffered) = "".

(** The sinks and the error handler after the calls [cs]. *)
Definition logger_after (e0 : err_state) (cs : list log_call) (objs : list sink_object) (e : err_state) : Prop :=
  let '(file, fails) := written_file path (file_device path) cs in
  ∃ f fc col fd, formatter_after file_pattern f ∧ formatter_after console_pattern fc ∧ console_shows cs fd ∧
    objs = (if console then [ansicolor_stdout_sink fc col fd] else []) ++
           [basic_file_sink_mt f {| filename_ := path; fd_ := Some file |}] ∧
    e = report_all fails e0.

Lemma logger_starts e : logger_after e [] (open_sink now should_color <$> flog.(sinks_)) e.
Proof using Type.
  unfold logger_after. cbn [written_file foldl].
  exists (formatter file_pattern), (formatter console_pattern), should_color, (new_file stdout_device).
  split_and!; [apply new_formatter_after; by right|apply new_formatter_after; by left|by intros _| |done].
  by destruct console.
Qed.

Lemma console_shows_line cs c fd :
  console_shows cs fd →
  console_shows (cs ++ [c]) (fflush (print_range_ (console_line (msg_of c)) 0
    (dest_size {| dest := console_line (msg_of c); color_range_start := 0; color_range_end := 0 |}) fd)).2.
Proof using Type.
  intros Hs Ha. destruct (Hs Ha) as (Hd & Ho & Hb).
  unfold print_range_, dest_size. cbn [dest]. rewrite Z.sub_0_r, Nat2Z.id, whole_substring.
  destruct (fwrite_accepting (console_line (msg_of c)) fd) as (_ & Hc & _ & Hv); [by rewrite Hd|].
  destruct (fflush_accepting (fwrite_bytes (console_line (msg_of c)) fd).2) as (_ & Ho' & Hb' & Hv'); [by rewrite Hv, Hd|].
  rewrite Hv', Hv, Ho', Hb', Hc. unfold contents. by rewrite Ho, Hb, append_nil_r, text_of_snoc.
Qed.

Lemma console_shows_flush cs fd : console_shows cs fd → console_shows cs (fflush fd).2.
Proof using Type.
  intros Hs Ha. destruct (Hs Ha) as (Hd & Ho & Hb).
  destruct (fflush_accepting fd) as (_ & Ho' & Hb' & Hv'); [by rewrite Hd|].
  rewrite Hv', Ho', Hb'. unfold contents. by rewrite Ho, Hb, append_nil_r.
Qed.

(** A line to the console's sink and to the file's. *)
Lemma try_console k cs fc col fd c e :
  formatter_after console_pattern fc → call_ok c → console_shows cs fd →
  ∃ fc' fd', try_sink flog k (sink_log (msg_of c)) (ansicolor_stdout_sink fc col fd) e =
      Ret (ansicolor_stdout_sink fc' col fd', e) ∧
    formatter_after console_pattern fc' ∧ console_shows (cs ++ [c]) fd'.
Proof using Type*.
  intros Hf Hc Hs. destruct (formatted_line _ fc c _ Hf Hc (console_reference now _ (call_msg_ok c Hc))) as (fc' & E & Hf').
  unfold try_sink, sink_log. rewrite bind_run. cbn [get_state]. unfold ansicolor_log. rewrite bind_run. unfold lift.
  rewrite E. rewrite andb_false_r. cbn [put_state]. do 2 eexists. split; [reflexivity|]. split; [done|].
  by apply console_shows_line.
Qed.

Lemma try_file k f file c e fails e0 :
  formatter_after file_pattern f → call_ok c → e = report_all fails e0 →
  let '(ok, file') := fwrite_bytes (file_line (msg_of c)) file in
  ∃ f', try_sink flog k (sink_log (msg_of c)) (basic_file_sink_mt f {| filename_ := path; fd_ := Some file |}) e =
      Ret (basic_file_sink_mt f' {| filename_ := path; fd_ := Some file' |},
           report_all (noted ok k ("Failed writing to file " +:+ path) file' fails) e0) ∧
    formatter_after file_pattern f'.
Proof using Type*.
  intros Hf Hc ->. destruct (formatted_line _ f c _ Hf Hc (file_reference now _ (call_msg_ok c Hc))) as (f' & E & Hf').
  destruct (fwrite_bytes _ file) as [ok file'] eqn:Ew. exists f'. split; [|done].
  unfold try_sink, sink_log. rewrite bind_run. cbn [get_state]. unfold file_sink_it_. rewrite bind_run. unfold lift.
  rewrite E. unfold on_file_helper, file_helper_write. rewrite bind_run. cbn [get_state fd_ dest]. rewrite Ew.
  destruct ok; cbn; [done|]. unfold report_all. by rewrite foldl_app.
Qed.

Lemma try_file_flush k f file e fails e0 :
  e = report_all fails e0 →
  let '(ok, file') := fflush file in
  try_sink flog k sink_flush (basic_file_sink_mt f {| filename_ := path; fd_ := Some file |}) e =
    Ret (basic_file_sink_mt f {| filename_ := path; fd_ := Some file' |},
         report_all (noted ok k ("Failed flush to file " +:+ path) file' fails) e0).
Proof using Type.
  intros ->. destruct (fflush file) as [ok file'] eqn:Ef. unfold try_sink, sink_flush. rewrite bind_run. cbn [get_state].
  unfold on_file_helper, file_helper_flush. rewrite bind_run. cbn [get_state fd_]. rewrite Ef.
  destruct ok; cbn; [done|]. unfold report_all. by rewrite foldl_app.
Qed.

Lemma logger_step e0 cs objs e c :
  logger_after e0 cs objs e → call_ok c →
  ∃ objs' e', logger_log flog c objs e = Ret (objs', e') ∧ logger_after e0 (cs ++ [c]) objs' e'.
Proof using Type*.
  intros Ha Hc. unfold logger_after in *.
  destruct (written_file path (file_device path) cs) as [file fails] eqn:Hw. destruct Ha as (f & fc & col & fd & Hf & Hfc & Hs & -> & He).
  assert (written_file path (file_device path) (cs ++ [c]) = file_step path (file, fails) c) as Hw' by by rewrite written_snoc, Hw.
  unfold file_step in Hw'. unfold logger_log.
  assert (should_log flog (call_level c) = true) as -> by by destruct (call_level c).
  change (log_msg_of flog c) with (msg_of c). unfold sink_it_, sinks_log.
  change (should_flush_ flog (msg_of c)) with (urgent c). change (time (msg_of c)) with (call_time c).
  pose proof (try_file (call_time c) f file c e fails e0 Hf Hc He) as Ht.
  destruct (fwrite_bytes _ file) as [ok file1]. destruct Ht as (f' & Et & Hf').
  destruct (try_console (call_time c) cs fc col fd c e Hfc Hc Hs) as (fc' & fd' & Ec & Hfc' & Hs').
  set (fails1 := noted ok _ _ file1 fails) in *.
  pose proof (try_file_flush (call_time c) f' file1 _ fails1 e0 eq_refl) as Hl.
  pose proof (console_shows_flush _ _ Hs') as Hs2.
  destruct (fflush file1) as [ok2 file2]. unfold flush_.
  destruct console; cbn [app for_sinks]; rewrite ?Ec; cbn [mbind outcome_bind]; rewrite Et; cbn [mbind outcome_bind];
    destruct (urgent c); cbn [for_sinks]; rewrite ?try_console_flush; cbn [mbind outcome_bind]; rewrite ?Hl; cbn [mbind outcome_bind];
    do 2 eexists; (split; [reflexivity|]); rewrite Hw'.
  - by exists f', fc', col, (fflush fd').2.
  - by exists f', fc', col, fd'.
  - by exists f', fc', col, fd'.
  - by exists f', fc', col, fd'.
Qed.

Lemma logger_steps e0 cs cs' objs e :
  logger_after e0 cs objs e → Forall call_ok cs' →
  ∃ objs' e', log_calls flog cs' objs e = Ret (objs', e') ∧ logger_after e0 (cs ++ cs') objs' e'.
Proof using Type*.
  intros Hs Hc. revert cs objs e Hs. induction Hc as [|c cs' Hc Hcs IH]; intros cs objs e Hs.
  { exists objs, e. by rewrite app_nil_r. }
  cbn [log_calls]. destruct (logger_step e0 cs objs e c Hs Hc) as (objs1 & e1 & -> & Hs1). cbn [mbind outcome_bind].
  destruct (IH _ _ _ Hs1) as (objs2 & e2 & -> & Hs2). exists objs2, e2. split; [done|]. by rewrite <- app_assoc in Hs2.
Qed.
End file_logger_sinks.

(** ** Reading a log file *)

(** The text up to the next [c], and what follows it. *)
Fixpoint until (c : ascii) (s : string) : option (string * string) :=
  match s with
  | EmptyString => None
  | String d r =>
      if Ascii.eqb d c then Some (EmptyString, r)
      else match until c r with Some (a, b) => Some (String d a, b) | None => None end
  end.

(** The lines of a text that ends with a line feed. *)
Fixpoint text_lines (s : string) (current : string) : list string :=
  match s with
  | EmptyString => []
  | String c r =>
      if Ascii.eqb c "010" then current :: text_lines r "" else text_lines r (current +:+ String c "")
  end.

Fixpoint strip (prefix s : string) : option string :=
  match prefix, s with
  | EmptyString, _ => Some s
  | String c p, String d r => if Ascii.eqb c d then strip p r else None
  | _, _ => None
  end.

Record log_line := { l_date : string; l_level : level_enum; l_pid : Z; l_tid : Z; l_text : string }.

Definition parse_line (s : string) : option log_line :=
  s ← strip "[" s; '(date, s) ← until "]" s;
  s ← strip " [" s; '(level, s) ← until "]" s;
  s ← strip " [pid:" s; '(pid, s) ← until "]" s;
  s ← strip " [tid:" s; '(tid, s) ← until "]" s;
  text ← strip " " s;
  Some {| l_date := date; l_level := from_str level; l_pid := leading_number pid 0;
          l_tid := leading_number tid 0; l_text := text |}.

Definition read_log (s : string) : list (option log_line) := parse_line <$> text_lines s "".

(** The character [c] is not in the text. *)
Fixpoint lacks (c : ascii) (s : string) : bool :=
  match s with
  | EmptyString => true
  | String d r => negb (Ascii.eqb d c) && lacks c r
  end.

Lemma lacks_append c a b : lacks c (a +:+ b) = lacks c a && lacks c b.
Proof. induction a as [|d a IH]; [done|]. rewrite append_cons. cbn. by rewrite IH, andb_assoc. Qed.

Lemma until_first c a b : lacks c a = true → until c (a +:+ String c b) = Some (a, b).
Proof.
  induction a as [|d a IH]; [rewrite append_nil; cbn [until]; by rewrite Ascii.eqb_refl|].
  rewrite append_cons. cbn [until lacks].
  intros [Hd%negb_true_iff Ha]%andb_true_iff. by rewrite Hd, IH.
Qed.

Lemma strip_prefix p s : strip p (p +:+ s) = Some s.
Proof. induction p as [|c p IH]; [done|]. rewrite append_cons. cbn [strip]. by rewrite Ascii.eqb_refl. Qed.

(** A separator that starts with [c]. *)
Lemma until_sep c a sep b : lacks c a = true → until c (a +:+ (String c sep +:+ b)) = Some (a, sep +:+ b).
Proof. rewrite append_cons. apply until_first. Qed.

Lemma text_lines_first body rest current :
  lacks "010" body = true → text_lines (body +:+ (default_eol +:+ rest)) current = (current +:+ body) :: text_lines rest "".
Proof.
  revert current. induction body as [|c body IH]; intros current.
  { intros _. rewrite append_nil. cbn. by rewrite append_nil_r. }
  rewrite append_cons. cbn [lacks text_lines]. intros [Hc%negb_true_iff Hb]%andb_true_iff. rewrite Hc.
  rewrite IH by done. by rewrite <- append_assoc.
Qed.

Section not_a_digit.
Context (c : ascii) (Hc : digit_value c = None).

Lemma lacks_digit d s : 0 ≤ d < 10 → lacks c (String (digit_char d) s) = lacks c s.
Proof using Hc.
  intros Hd. cbn. destruct (Ascii.eqb_spec (digit_char d) c) as [<-|]; [|done].
  by rewrite digit_value_char in Hc.
Qed.

Lemma lacks_digits fuel z acc : lacks c (digits fuel z acc) = lacks c acc.
Proof using Hc.
  revert z acc. induction fuel as [|fuel IH]; intros z acc; [done|]. cbn [digits].
  destruct (z <? 10); rewrite ?IH, lacks_digit; [done|by apply Z.mod_pos_bound|done|by apply Z.mod_pos_bound].
Qed.

Lemma lacks_natural z : lacks c (natural_text z) = true.
Proof using Hc. apply lacks_digits. Qed.

Context (Hm : lacks c "-" = true) (Hs : lacks c " " = true) (Hp : lacks c ":" = true) (Hd : lacks c "." = true).

Lemma lacks_int z : lacks c (int_text z) = true.
Proof using Hc Hm.
  unfold int_text. destruct (z <? 0); [|apply lacks_natural]. by rewrite lacks_append, Hm, lacks_natural.
Qed.

Lemma lacks_two n : 0 ≤ n < 100 → lacks c (two_digits n) = true.
Proof using Hc.
  intros Hn. unfold two_digits. rewrite !lacks_digit; [done|by apply Z.mod_pos_bound|].
  split; [apply Z.div_pos|apply Z.div_lt_upper_bound]; lia.
Qed.

Lemma lacks_pad2 n : lacks c (pad2_text n) = true.
Proof using Hc Hm. unfold pad2_text. destruct (_ && _) eqn:E; [apply lacks_two; lia|apply lacks_int]. Qed.

Lemma lacks_pad3 n : 0 ≤ n → lacks c (pad3_text n) = true.
Proof using Hc.
  intros Hn. unfold pad3_text. destruct (n <? 1000) eqn:E; [|apply lacks_natural].
  rewrite lacks_digit, lacks_two; [done|by apply Z.mod_pos_bound|].
  split; [apply Z.div_pos|apply Z.div_lt_upper_bound]; lia.
Qed.

Lemma lacks_date t n : 0 ≤ n → lacks c (date_text t n) = true.
Proof using Hc Hm Hs Hp Hd.
  intros Hn. unfold date_text. rewrite !lacks_append, Hm, Hs, Hp, Hd, lacks_int, !lacks_pad2, lacks_pad3; done.
Qed.
End not_a_digit.

Lemma lacks_level c l : c = "]"%char ∨ c = "010"%char → lacks c (to_string_view l) = true.
Proof. intros [->| ->]; by destruct l. Qed.

Lemma from_str_name l : from_str (to_string_view l) = l.
Proof. by destruct l. Qed.

Section reading.
Context `{LogSystem}.

(** What a line of the file should read as. *)
Definition line_of (msg : log_msg) : log_line :=
  {| l_date := msg_date msg; l_level := msg.(level); l_pid := w32 getpid; l_tid := msg.(thread_id);
     l_text := msg.(payload) |}.

(** The line without its end. *)
Definition file_body (msg : log_msg) : string :=
  "[" +:+ (msg_date msg +:+ ("] [" +:+ (to_string_view msg.(level) +:+ ("] [pid:" +:+ (natural_text (w32 getpid) +:+
  ("] [tid:" +:+ (natural_text msg.(thread_id) +:+ ("] " +:+ msg.(payload))))))))).

Lemma file_line_body msg : file_line msg = file_body msg +:+ default_eol.
Proof using Type. unfold file_line, file_body. by rewrite <- !append_assoc. Qed.

Lemma lacks_msg_date c msg : c = "]"%char ∨ c = "010"%char → lacks c (msg_date msg) = true.
Proof using Type.
  pose proof (w32_range (time_fraction milliseconds (time msg))).
  intros [->| ->]; apply lacks_date; (done || lia).
Qed.

Lemma body_one_line msg : lacks "010" msg.(payload) = true → lacks "010" (file_body msg) = true.
Proof using Type.
  intros Hp. unfold file_body. rewrite !lacks_append, Hp, lacks_msg_date, lacks_level, !lacks_natural by (done || by right).
  done.
Qed.

Lemma parse_body msg : 0 ≤ msg.(thread_id) → parse_line (file_body msg) = Some (line_of msg).
Proof using Type.
  intros Ht. unfold parse_line, file_body. rewrite strip_prefix. cbn [mbind option_bind].
  rewrite until_sep by (apply lacks_msg_date; by left). cbn [mbind option_bind]. rewrite strip_prefix. cbn [mbind option_bind].
  rewrite until_sep by (apply lacks_level; by left). cbn [mbind option_bind]. rewrite strip_prefix. cbn [mbind option_bind].
  rewrite until_sep by by apply lacks_natural. cbn [mbind option_bind]. rewrite strip_prefix. cbn [mbind option_bind].
  rewrite until_sep by by apply lacks_natural. cbn [mbind option_bind]. rewrite strip_prefix. cbn [mbind option_bind].
  rewrite from_str_name, !natural_text_number; [done|done|apply w32_range].
Qed.

Lemma read_lines cs :
  Forall (λ c, 0 ≤ c.(call_thread) ∧ lacks "010" c.(call_text) = true) cs →
  read_log (text_of file_line cs) = (λ c, Some (line_of (msg_of c))) <$> cs.
Proof using Type.
  unfold read_log. induction 1 as [|c cs [Ht Hl] Hcs IH]; [done|].
  change (text_of file_line (c :: cs)) with (file_line (msg_of c) +:+ text_of file_line cs).
  rewrite file_line_body, <- append_assoc, text_lines_first by by apply body_one_line.
  rewrite !fmap_cons, IH, append_nil. f_equal. by apply parse_body.
Qed.
End reading.

(** ** The registry's view

    Logging.v records what the default logger gives to its sinks; the calls it
    records are the ones that reach the sink objects above. *)
Definition given (lg : logger) (c : log_call) : list (sink * level_enum * string) :=
  if should_log lg c.(call_level) then sink_it lg c.(call_level) c.(call_text) else [].

Lemma registry_records lg cs r :
  r.(default_logger_) = Some lg →
  for_each cs (λ c, log c.(call_level) c.(call_text)) r =
    (Ret tt, {| loggers_ := r.(loggers_); default_logger_ := Some lg; written := r.(written) ++ (cs ≫= given lg) |}).
Proof.
  revert r. induction cs as [|c cs IH]; intros r Hr; cbn [for_each].
  { rewrite ret_run. f_equal. destruct r as [ls d w]. cbn in *. by rewrite Hr, app_nil_r. }
  rewrite bind_run. unfold log at 1. rewrite bind_run. cbn [get_state]. rewrite Hr, bind_cons. unfold given at 1.
  destruct (should_log lg (call_level c)); [cbn [put_state]|rewrite ret_run]; rewrite IH by done; cbn; [|done].
  by rewrite <- app_assoc.
Qed.

(** What the file logger's file sink was given, in order. *)
Lemma file_sink_given path console cs :
  filter (λ g, g.1.1 = basic_file_sink path file_pattern) (cs ≫= given (file_logger path console)) =
    (λ c, (basic_file_sink path file_pattern, c.(call_level), c.(call_text))) <$> cs.
Proof.
  induction cs as [|c cs IH]; [done|]. rewrite bind_cons, list.filter_app, IH, fmap_cons.
  unfold given. assert (should_log (file_logger path console) (call_level c) = true) as -> by by destruct (call_level c).
  by destruct console; cbn; repeat first [rewrite decide_True by done; cbn | rewrite decide_False by done; cbn].
Qed.

(** The log file of a process can be read back. Whatever is logged through
    the logger of [use_file_logger] (messages of one line each), nothing is
    thrown into the program; the file is what the file system makes of the
    lines, written one by one and flushed after warnings and errors, and each
    write and flush of it that fails is reported through [err_handler_], in
    order. If the file system takes everything, nothing is reported and the
    file read line by line gives, in order, every message with its date, level,
    process, thread and text, and nothing else; until it is closed the C
    library may keep any part of it back, but everything up to the last message
    of level warning, error or critical is on the disk, so it survives when the
    process dies. A console that takes everything shows the same messages at
    once. *)
Theorem log_file_complete `{LogSystemLaws} `{Stdio} now should_color path console cs e :
  Forall call_ok cs → Forall (λ c, lacks "010" c.(call_text) = true) cs →
  let lg := file_logger path console in
  let '(file, fails) := written_file path (file_device path) cs in
  ∃ sinks f e',
    log_calls lg cs (open_sink now should_color <$> lg.(sinks_)) e = Ret (sinks, e') ∧
    list.last sinks = Some (basic_file_sink_mt f {| filename_ := path; fd_ := Some file |}) ∧
    e' = report_all fails e ∧
    (accepting (file_device path) →
      fails = [] ∧ read_log (contents file) = (λ c, Some (line_of (msg_of c))) <$> cs ∧
      ∀ cs1 c cs2, cs = cs1 ++ c :: cs2 → c.(call_level) ∈ [warn; err; critical] →
        is_prefix (text_of file_line (cs1 ++ [c])) file.(on_disk)) ∧
    (console = true → accepting stdout_device → ∃ f' b fd rest, sinks = ansicolor_stdout_sink f' b fd :: rest ∧
       fd.(on_disk) = text_of console_line cs ∧ fd.(buffered) = "").
Proof.
  intros Hc Hl lg.
  destruct (logger_steps now path console e [] cs (open_sink now should_color <$> lg.(sinks_)) e)
    as (objs & e' & E & Hs); [apply logger_starts|done|]. cbn [app] in Hs. unfold logger_after in Hs.
  pose proof (written_accepting path (file_device path) cs) as Hw.
  destruct (written_file path (file_device path) cs) as [file fails]. destruct Hs as (f & fc & col & fd & _ & _ & Hshow & -> & ->).
  eexists _, f, _. split; [exact E|]. split; [by rewrite last_snoc|]. split; [done|]. split.
  - intros Ha. destruct (Hw Ha) as (-> & _ & -> & Hd). split; [done|]. split.
    + apply read_lines. apply List.Forall_forall. intros c Hin.
      rewrite !List.Forall_forall in *. split; [apply (Hc c Hin)|by apply Hl].
    + intros cs1 c cs2 Hcs Hlevel. eapply Hd; [exact Hcs|]. unfold urgent, should_flush_. cbn.
      rewrite !elem_of_cons, elem_of_nil in Hlevel. by destruct Hlevel as [->|[->|[->|[]]]].
  - intros -> Ha. destruct (Hshow Ha) as (_ & Ho & Hb). by eexists _, _, _, _.
Qed.

(** ** A worker that dies *)

(** A day of seconds without time zones, as far as the witness needs it. *)
Definition day_tm (secs : Z) : tm :=
  {| tm_sec := secs mod 60; tm_min := secs / 60 mod 60; tm_hour := secs / 3600 mod 24; tm_mday := 3; tm_mon := 11;
     tm_year := 125; tm_wday := 3; tm_gmtoff := 0 |}.

#[local] Instance day_system : LogSystem :=
  {| localtime := day_tm; gmtime := day_tm; getpid := 4711; mdc_context := [] |}.

#[local] Instance day_system_laws : LogSystemLaws.
Proof. split; intros secs _; unfold tm_ok, day_tm; cbn; lia. Qed.

(** A library that writes nothing of its own accord, to a device that takes
    everything and to one that is full. *)
Definition lazy_device : device :=
  {| accepts := λ _, String.length; spill := λ _ _, 0%nat; drains := λ _, String.length; strerror := λ _, "Success" |}.

Definition full_device : device :=
  {| accepts := λ _, String.length; spill := λ _ _, 0%nat; drains := λ _ _, 0%nat;
     strerror := λ _, "No space left on device" |}.

#[local] Instance lazy_stdio : Stdio :=
  {| stdout_device := lazy_device;
     file_device := λ path, if String.eqb path "full.log" then full_device else lazy_device |}.

Lemma lazy_accepting : accepting lazy_device.
Proof. by intros n s. Qed.

Definition worker_calls : list log_call :=
  [{| call_level := trace; call_text := "joined"; call_time := 1764770707042017003; call_thread := 99 |};
   {| call_level := warn; call_text := "no] [island"; call_time := 1764770707943000000; call_thread := 99 |};
   {| call_level := info; call_text := "not yet on the disk"; call_time := 1764770708000000000; call_thread := 100 |}].

Lemma log_file_complete_witness :
  let file := (written_file "w.log" lazy_device worker_calls).1 in
  (∃ sinks f,
    log_calls (file_logger "w.log" true) worker_calls (open_sink 0 false <$> (file_logger "w.log" true).(sinks_))
      err_state_start = Ret (sinks, err_state_start) ∧
    list.last sinks = Some (basic_file_sink_mt f {| filename_ := "w.log"; fd_ := Some file |})) ∧
  read_log (contents file) =
    [Some {| l_date := "2025-12-03 14:05:07.042"; l_level := trace; l_pid := 4711; l_tid := 99; l_text := "joined" |};
     Some {| l_date := "2025-12-03 14:05:07.943"; l_level := warn; l_pid := 4711; l_tid := 99; l_text := "no] [island" |};
     Some {| l_date := "2025-12-03 14:05:08.000"; l_level := info; l_pid := 4711; l_tid := 100;
             l_text := "not yet on the disk" |}]%string ∧
  is_prefix (text_of file_line (take 2 worker_calls)) file.(on_disk).
Proof.
  intros file. pose proof (log_file_complete 0 false "w.log" true worker_calls err_state_start) as H.
  change (file_device "w.log") with lazy_device in H. subst file.
  destruct (written_file "w.log" lazy_device worker_calls) as [file fails].
  destruct H as (sinks & f & e' & E & Hl & -> & Ha & _).
  - repeat apply List.Forall_cons; try apply List.Forall_nil; (split; [|split]); cbn; (lia || done).
  - repeat apply List.Forall_cons; try apply List.Forall_nil; vm_compute; reflexivity.
  - destruct (Ha lazy_accepting) as (-> & Hr & Hd). cbn [fst].
    split; [exists sinks, f; split; [exact E|exact Hl]|]. split; [rewrite Hr; vm_compute; reflexivity|].
    eapply (Hd (take 1 worker_calls) _ (drop 2 worker_calls)); [reflexivity|]. cbn. by left.
Defined.

(** On a full disk the flush after the warning fails, which is reported. *)
Example full_disk_reported :
  (written_file "full.log" full_device worker_calls).2 =
    [(1764770707943000000, "Failed flush to file full.log: No space left on device"%string)] ∧
  (report_all (written_file "full.log" full_device worker_calls).2 err_state_start).(reports) =
    [{| report_number := 1; report_time := 1764770707943000000; report_logger := "global_logger";
        report_what := "Failed flush to file full.log: No space left on device" |}]%string.
Proof. vm_compute. by split. Qed.

(** The padding example of pattern_formatter-inl.h, and a width that wraps
    around: 18446744073709551624 is 2^64 + 8. *)
Lemma pattern_formatter_safe_witness :
  let msgs := map msg_of worker_calls in
  (∃ os, format_lines (pattern_formatter_new 0 "[%10!] %v" local default_eol) msgs = Ret os ∧ length os = 3%nat) ∧
  (format_line (pattern_formatter_new 0 "%18446744073709551624L|%=9L|%-99999L|" local "") (msg_of (List.hd
     {| call_level := off; call_text := ""; call_time := 0; call_thread := 0 |} worker_calls)) ≫= λ r, Ret r.1.(dest)) =
    Ret ("       T|    T    |T" +:+ String.substring 0 63 spaces_ +:+ "|")%string.
Proof.
  intros msgs. split; [|vm_compute; reflexivity]. apply (pattern_formatter_safe 0 "[%10!] %v" local default_eol msgs).
  repeat apply List.Forall_cons; try apply List.Forall_nil; (split; [|split]); cbn; (lia || done).
Defined.

Lemma log_caches_invisible_witness :
  let f := pattern_formatter_new 0 "%+" local default_eol in
  let msgs := map msg_of worker_calls in
  format_lines f msgs = mapM (reference_line f) msgs ∧
  (format_lines f msgs ≫= λ os, Ret (map dest os)) =
    Ret ["[2025-12-03 14:05:07.042] [global_logger] [trace] joined" +:+ default_eol;
         "[2025-12-03 14:05:07.943] [global_logger] [warning] no] [island" +:+ default_eol;
         "[2025-12-03 14:05:08.000] [global_logger] [info] not yet on the disk" +:+ default_eol]%string.
Proof.
  intros f msgs. split; [|vm_compute; reflexivity].
  apply (log_caches_invisible 0 "%+" local default_eol msgs); [vm_compute; reflexivity|].
  repeat apply List.Forall_cons; try apply List.Forall_nil; by vm_compute.
Defined.
