(* ===== verification/LogCalls.v ===== *)
(** * A log call: spdlog's [logger::log_] and its error handler

    What [spdlog::info("...", args...)] and the like do (logger.h): the level is
    tested, the message formatted by fmt, and given to the sinks. What the
    formatting throws is reported on the standard error stream, at most once in
    a second, and the message is lost. A call without arguments is another
    overload, which takes its text as it is. *)
From Stdlib Require Import Ascii.
From S2P Require Import Prelude Numerals Logging LogPattern LogFormat LogOutput FmtSpecs FmtParse FmtWrite FmtFormat FmtCheck FmtPlain.

(** ** [logger::log_] *)

Record format_call := {
  fc_level : level_enum; fc_format : string; fc_args : list format_arg; fc_time : Z; fc_thread : Z
}.

Definition call_of (c : format_call) (text : string) : log_call :=
  {| call_level := c.(fc_level); call_text := text; call_time := c.(fc_time); call_thread := c.(fc_thread) |}.

Section calls.
Context {L : GlobalLocale} `{LogSystem}.

(** The backtracer is off; there is no source location. *)
Definition log_ (lg : logger) (c : format_call) (sinks : list sink_object) (e : err_state) : logged :=
  if negb (should_log lg c.(fc_level)) then Ret (sinks, e)
  else
    match
      text ← format c.(fc_format) c.(fc_args);
      sink_it_ lg (log_msg_of lg (call_of c text)) sinks e
    with
    | Ret r => Ret r
    | Throw x => Ret (sinks, err_handler_ lg.(name_) c.(fc_time) (exn_what x) e)
    | Crash f => Crash f
    end.

(** [logger::log(loc, lvl, msg)] of a text, which is not formatted. *)
Definition log_text (lg : logger) (c : format_call) : list sink_object → err_state → logged :=
  logger_log lg (call_of c c.(fc_format)).

(** The overload the call has: [info(const T &msg)] or [info(fmt, args...)]. *)
Definition log_call_ (lg : logger) (c : format_call) : list sink_object → err_state → logged :=
  match c.(fc_args) with
  | [] => log_text lg c
  | _ => log_ lg c
  end.

Fixpoint format_calls (lg : logger) (cs : list format_call) (sinks : list sink_object) (e : err_state) : logged :=
  match cs with
  | [] => Ret (sinks, e)
  | c :: cs => '(sinks, e) ← log_call_ lg c sinks e; format_calls lg cs sinks e
  end.

(** ** What a log call does *)

(** The message of a call with a plain format string, or without arguments. *)
Definition message_of (c : format_call) (text : string) : Prop :=
  match c.(fc_args) with
  | [] => c.(fc_format) = text
  | args => ∃ ps, c.(fc_format) = plain ps ∧ fill_in ps args = Some text
  end.

Lemma log_formatted lg c sinks e text r :
  format c.(fc_format) c.(fc_args) = Ret text → logger_log lg (call_of c text) sinks e = Ret r →
  log_ lg c sinks e = Ret r.
Proof.
  intros Hf. unfold log_, logger_log. cbn [call_of call_level]. rewrite Hf. cbn [mbind outcome_bind].
  destruct (should_log lg (fc_level c)); cbn [negb]; [by intros ->|done].
Qed.

Lemma call_logged lg c text sinks e r :
  plain_args c.(fc_args) → message_of c text → logger_log lg (call_of c text) sinks e = Ret r →
  log_call_ lg c sinks e = Ret r.
Proof.
  unfold message_of, log_call_, log_text. destruct (fc_args c) as [|a args] eqn:Ea; intros Ha Hm Hl.
  - by rewrite Hm.
  - destruct Hm as (ps & Hps & Hfill). apply (log_formatted _ _ _ _ text); [|done].
    rewrite Hps, Ea. by apply plain_format_text.
Qed.

Lemma format_calls_plain lg cs texts sinks e r :
  Forall2 (λ c text, plain_args c.(fc_args) ∧ message_of c text) cs texts →
  log_calls lg (zip_with call_of cs texts) sinks e = Ret r →
  format_calls lg cs sinks e = Ret r.
Proof.
  intros Hc. revert sinks e. induction Hc as [|c text cs texts [Ha Hm] Hcs IH]; intros sinks e; [done|].
  cbn [zip_with log_calls format_calls]. destruct (logger_log lg (call_of c text) sinks e) as [[s e1]|x|f] eqn:El;
    cbn [mbind outcome_bind]; [|done..]. rewrite (call_logged _ _ _ _ _ _ Ha Hm El). apply IH.
Qed.

End calls.

(** What is thrown by the formatting reaches neither the caller nor the sinks. *)
Lemma log_failed {L : GlobalLocale} `{LogSystem} lg c sinks e x :
  should_log lg c.(fc_level) = true → format c.(fc_format) c.(fc_args) = Throw x →
  log_ lg c sinks e = Ret (sinks, err_handler_ lg.(name_) c.(fc_time) (exn_what x) e).
Proof. intros Hl Hf. unfold log_. by rewrite Hl, Hf. Qed.

(** A call of the program: its arguments fit the format string, its message is
    [text], and that is one line. *)
Definition program_call (c : format_call) (text : string) : Prop :=
  plain_args c.(fc_args) ∧ message_of c text ∧ call_ok (call_of c text) ∧ lacks "010" text = true.

(** C35. From the log calls to the log file: whatever plain calls (as all of the
    program's are) go through the logger of [use_file_logger], with messages of
    one line, nothing is thrown into the program. The file is what the file
    system makes of the lines, written in order and flushed after warnings and
    errors; of the writes and flushes of the file that fail, each is reported
    through [err_handler_], and nothing else is. If the file system takes
    everything, nothing is reported and the file, read line by line, gives in
    order the date, level, process and thread of every call and its format
    string with the arguments in the places of the fields, and nothing else;
    until the file is closed the C library may keep any part of it back, but
    everything up to the last message of level warning, error or critical is on
    the disk. A console that takes everything shows the same messages at once. *)
Theorem program_log_complete {L : GlobalLocale} `{LogSystemLaws} `{Stdio} now should_color path console calls texts e :
  Forall2 program_call calls texts →
  let lg := file_logger path console in
  let cs := zip_with call_of calls texts in
  let '(file, fails) := written_file path (file_device path) cs in
  ∃ sinks f e',
    format_calls lg calls (open_sink now should_color <$> lg.(sinks_)) e = Ret (sinks, e') ∧
    list.last sinks = Some (basic_file_sink_mt f {| filename_ := path; fd_ := Some file |}) ∧
    e' = report_all fails e ∧
    (accepting (file_device path) →
      fails = [] ∧ read_log (contents file) = (λ c, Some (line_of (msg_of c))) <$> cs ∧
      ∀ cs1 c cs2, cs = cs1 ++ c :: cs2 → c.(call_level) ∈ [warn; err; critical] →
        is_prefix (text_of file_line (cs1 ++ [c])) file.(on_disk)) ∧
    (console = true → accepting stdout_device → ∃ f' b fd rest, sinks = ansicolor_stdout_sink f' b fd :: rest ∧
       fd.(on_disk) = text_of console_line cs ∧ fd.(buffered) = "").
Proof.
  intros Hc lg cs.
  assert (Hok : Forall call_ok cs ∧ Forall (λ c, lacks "010" c.(call_text) = true) cs).
  { subst cs. induction Hc as [|c text calls texts (_ & _ & Hok & Hl) Hcs [IH1 IH2]]; [done|].
    split; cbn [zip_with]; by constructor. }
  pose proof (log_file_complete now should_color path console cs e (proj1 Hok) (proj2 Hok)) as Hlog. cbv zeta in Hlog.
  destruct (written_file path (file_device path) cs) as [file fails]. destruct Hlog as (sinks & f & e' & E & Hrest).
  exists sinks, f, e'. split; [|done]. apply (format_calls_plain lg calls texts); [|done].
  eapply List.Forall2_impl; [|exact Hc]. by intros c text (? & ? & _).
Qed.

(** ** A worker's calls *)

#[local] Existing Instance day_system.
#[local] Existing Instance day_system_laws.
#[local] Existing Instance lazy_stdio.
#[local] Existing Instance classic_locale.

Definition worker_log : list format_call :=
  [{| fc_level := debug; fc_format := "Archipelago worker island #{} population size: {}";
      fc_args := [arg_ulong_long 2; arg_ulong_long 64]; fc_time := 1764770707042017003; fc_thread := 99 |};
   {| fc_level := debug; fc_format := "{} provides {}% of total worker cluster processing power";
      fc_args := [arg_string "w1"; arg_double 0x4040aaaaaaaaaaab]; fc_time := 1764770707043000000; fc_thread := 99 |};
   {| fc_level := warn; fc_format := "WARNING: controller sent unhandled message type: {}";
      fc_args := [arg_int (-1)]; fc_time := 1764770707943000000; fc_thread := 99 |};
   {| fc_level := critical; fc_format := "{}"; fc_args := [arg_string "{} is {not} a field"];
      fc_time := 1764770708000000000; fc_thread := 100 |};
   {| fc_level := info; fc_format := "Worker thread finished. "; fc_args := []; fc_time := 1764770709000000000;
      fc_thread := 99 |}].

Definition worker_texts : list string :=
  ["Archipelago worker island #2 population size: 64";
   "w1 provides 33.333333333333336% of total worker cluster processing power"; "WARNING: controller sent unhandled message type: -1";
   "{} is {not} a field"; "Worker thread finished. "].

Lemma program_log_complete_witness :
  let file := (written_file "w.log" lazy_device (zip_with call_of worker_log worker_texts)).1 in
  ((∃ sinks f,
    format_calls (file_logger "w.log" true) worker_log (open_sink 0 false <$> (file_logger "w.log" true).(sinks_))
      err_state_start = Ret (sinks, err_state_start) ∧
    list.last sinks = Some (basic_file_sink_mt f {| filename_ := "w.log"; fd_ := Some file |})) ∧
    option_map l_text <$> read_log (contents file) = Some <$> worker_texts) ∧
  (* What is not formatted is reported, once in a second, and lost. *)
  format_calls (file_logger "w.log" true)
    (map (λ t, {| fc_level := info; fc_format := "Err msg:{}"; fc_args := [arg_cstring 0 ""]; fc_time := t; fc_thread := 1 |})
       [5000000000; 5999999999; 6000000000]) [] err_state_start =
  Ret ([], {| last_report_time := 6000000000; err_counter := 3; reports :=
    [{| report_number := 1; report_time := 5000000000; report_logger := "global_logger"; report_what := "string pointer is null" |};
     {| report_number := 3; report_time := 6000000000; report_logger := "global_logger";
        report_what := "string pointer is null" |}] |}).
Proof.
  intros file. split; [|vm_compute; reflexivity].
  pose proof (program_log_complete 0 false "w.log" true worker_log worker_texts err_state_start) as H.
  cbv zeta in H. change (file_device "w.log") with lazy_device in H. subst file.
  destruct (written_file "w.log" lazy_device _) as [file fails].
  destruct H as (sinks & f & e' & E & Hl & -> & Ha & _).
  - repeat apply List.Forall2_cons; try apply List.Forall2_nil;
      (split; [split; [repeat constructor; cbn; lia|cbn; unfold INT_MAX; lia]|split; [|split; [split; [|split]; cbn; (lia || done)|vm_compute; reflexivity]]]).
    + exists [Text "Archipelago worker island #"; Field; Text " population size: "; Field]. by vm_compute.
    + exists [Field; Text " provides "; Field; Text "% of total worker cluster processing power"]. by vm_compute.
    + exists [Text "WARNING: controller sent unhandled message type: "; Field]. by vm_compute.
    + exists [Field]. by vm_compute.
    + reflexivity.
  - destruct (Ha lazy_accepting) as (-> & Hr & _). cbn [fst].
    split; [exists sinks, f; split; [exact E|exact Hl]|]. rewrite Hr. vm_compute. reflexivity.
Defined.
