(* ===== verification/Process.v ===== *)
(** * The objects of a process: their construction and destruction

    A process's state is the problem registry (with the file system), the
    loggers, the ZeroMQ sockets, the readings taken of its clocks and what it
    printed. The
    solver with its controller, and the worker, are objects of automatic
    storage: [with_object] constructs one, uses it, and destroys it also when
    the use throws. ZeroMQ is a class of parameters. *)
From S2P Require Import Prelude WorkerInfo Messages Settings Pagmo Island LibLoader UdpRegistry.
From S2P Require Import WorkPlan Worker PathNormalizer BenchmarkStats Benchmarks Logging.

(** [bind], [connect] and the closing of the socket of an endpoint. *)
Class Zmq := {
  net : Type;
  zmq_bind : string → M net unit;
  zmq_connect : string → M net unit;
  zmq_close : string → net → net
}.

(** The solver of an object: how the constructor starts it with the settings
    that were read, and its settings, which the server's thread changes. *)
Class RunningSolver `{MS : MetaSolver} := {
  ds_start : settings controller_settings → Z → load_balancing_strategy → solver;
  ds_settings : solver → settings controller_settings
}.

(** ** Objects of automatic storage *)

(** The destructor runs when the use returned and when it threw; an exception
    that leaves a destructor ends the program. *)
Definition with_object {S O A} (construct : M S O) (use : M (O * S) A) (destroy : M (O * S) unit) : M S A := λ s,
  match construct s with
  | (Ret o, s) =>
      match use (o, s) with
      | (Crash f, (_, s)) => (Crash f, s)
      | (r, os) =>
          match destroy os with
          | (Ret _, (_, s)) => (r, s)
          | (Throw e, (_, s)) => (Crash (terminate (exn_what e)), s)
          | (Crash f, (_, s)) => (Crash f, s)
          end
      end
  | (Throw e, s) => (Throw e, s)
  | (Crash f, s) => (Crash f, s)
  end.

(** A settings file as a process finds it: it can be created in an existing
    directory. *)
Definition settings_disk (path : string) (o : os) : Settings.disk := {|
  Settings.file := o.(files) !! path;
  readable := bool_decide (path ∉ o.(read_denied));
  writable := bool_decide (path ∉ o.(write_denied)) && bool_decide (parent_path path ∈ o.(dirs)) |}.

Definition write_settings (path : string) (d : Settings.disk) (o : os) : os :=
  set_files (match d.(Settings.file) with Some t => <[path := t]> o.(files) | None => o.(files) end) o.

Section Process.
Context {UC : UdpCode} {N : Type} {ZM : Zmq}.

Record process := {
  registry : udp_registry N;
  logs : spdlog;
  sockets : net;
  clock_readings : nat;
  standard_output : string
}.

Definition set_proc_registry (r : udp_registry N) (p : process) : process :=
  {| registry := r; logs := p.(logs); sockets := p.(sockets); clock_readings := p.(clock_readings);
     standard_output := p.(standard_output) |}.
Definition set_logs (l : spdlog) (p : process) : process :=
  {| registry := p.(registry); logs := l; sockets := p.(sockets); clock_readings := p.(clock_readings);
     standard_output := p.(standard_output) |}.
Definition set_sockets (n : net) (p : process) : process :=
  {| registry := p.(registry); logs := p.(logs); sockets := n; clock_readings := p.(clock_readings);
     standard_output := p.(standard_output) |}.
Definition set_readings (n : nat) (p : process) : process :=
  {| registry := p.(registry); logs := p.(logs); sockets := p.(sockets); clock_readings := n;
     standard_output := p.(standard_output) |}.
Definition print (text : string) : M process unit := modify (λ p,
  {| registry := p.(registry); logs := p.(logs); sockets := p.(sockets); clock_readings := p.(clock_readings);
     standard_output := p.(standard_output) +:+ text |}).

(** A new reading of a clock. *)
Definition proc_tick : M process nat := λ p, (Ret p.(clock_readings), set_readings (S p.(clock_readings)) p).

Definition set_proc_os (o : os) (p : process) : process := set_proc_registry (set_os o p.(registry)) p.
Definition proc_os (p : process) : os := p.(registry).(_os).

Definition on_proc_registry {A} : M (udp_registry N) A → M process A := zoom registry set_proc_registry.
Definition on_logs {A} : M spdlog A → M process A := zoom logs set_logs.
Definition on_sockets {A} : M net A → M process A := zoom sockets set_sockets.
Definition on_proc_os {A} : M os A → M process A := zoom proc_os set_proc_os.
Definition on_settings_file {A} (path : string) (m : M Settings.disk A) : M process A :=
  on_proc_os (zoom (settings_disk path) (write_settings path) m).

(** A member function of an object's [logger_control] base. *)
Definition base_call {O A} (get : O → logger_control) (put : logger_control → O → O)
    (m : M control_state A) : M (O * process) A :=
  zoom (λ s : O * process, (get s.1, {| log_os := proc_os s.2; spd := s.2.(logs) |}))
       (λ c s, (put c.1 s.1, set_logs c.2.(spd) (set_proc_os c.2.(log_os) s.2))) m.

(** [settings::save] of a settings object. *)
Definition save_settings {S V} `{AV : Archive V} {SS : Serialized S V} (path : string) (s : settings S) :
    M process unit :=
  on_settings_file path (λ d, let '(o, (_, d)) := save (s, d) in (o, d)).

(** ** [distributed_controller] *)

Section Controller.
Context {AS : Archive (gmap string (work_stats * gmap string work_stats))}.

Definition controller_settings_path : string := "./controller_settings.xml".
Definition islands_endpoint : string := "ipc://distributed_controller_islands_socket".

(** The exception is copied as a [std::exception] when it is thrown again. *)
Definition controller_construct (controllerAddress : string) : M process (settings controller_settings) :=
  s ← on_settings_file controller_settings_path (settings_construct true);
  _ ← try_catch (on_sockets (zmq_bind controllerAddress)) (λ e,
        _ ← on_logs (log err ("Socket failed to bind to address " +:+ controllerAddress +:+
              " due to the following error: " +:+ exn_what e));
        _ ← on_logs (log err "Check if this port isn't already in use");
        throw std_exception);
  _ ← try_catch (on_sockets (zmq_bind islands_endpoint)) (λ e,
        _ ← on_sockets (modify (zmq_close controllerAddress)); throw e);
  mret s.

(** The server's thread is joined when the sockets are closed. *)
Definition controller_destroy (controllerAddress : string) (s : settings controller_settings) : M process unit :=
  _ ← save_settings controller_settings_path s;
  on_sockets (modify (λ n, zmq_close islands_endpoint (zmq_close controllerAddress n))).

(** ** [distributed_solver] *)

Context {PG : Pagmo} {MS : MetaSolver} {RS : RunningSolver}.

Record solver_object := {
  solver_base : logger_control;
  solver_address : string;
  solver_members : solver
}.

Definition set_solver_base (c : logger_control) (o : solver_object) : solver_object :=
  {| solver_base := c; solver_address := o.(solver_address); solver_members := o.(solver_members) |}.
Definition set_solver_members (s : solver) (o : solver_object) : solver_object :=
  {| solver_base := o.(solver_base); solver_address := o.(solver_address); solver_members := s |}.

(** The base class first; when the controller's construction throws, the base
    is destroyed. *)
Definition solver_construct (controllerAddress : string) (expectedWorkerCount : Z)
    (loadBalancingStrategy : load_balancing_strategy) : M process solver_object :=
  c ← on_logs logger_control_construct;
  s ← try_catch (controller_construct controllerAddress) (λ e,
        _ ← on_logs (logger_control_destroy c); throw e);
  mret {| solver_base := c; solver_address := controllerAddress;
          solver_members := ds_start s expectedWorkerCount loadBalancingStrategy |}.

(** The members, then the base class. *)
Definition solver_destroy : M (solver_object * process) unit :=
  s ← get_state;
  _ ← zoom snd (λ p s, (s.1, p))
        (controller_destroy s.1.(solver_address) (ds_settings s.1.(solver_members)));
  zoom snd (λ p s, (s.1, p)) (on_logs (logger_control_destroy s.1.(solver_base))).

Definition solver_enable_logging (timestamp : string) : M (solver_object * process) unit :=
  base_call solver_base set_solver_base (enable_logging "./logs/solver" timestamp true).

(** A member function of the solver. *)
Definition solver_call {A} (m : M solver A) : M (solver_object * process) A :=
  zoom (λ s : solver_object * process, s.1.(solver_members)) (λ d s, (set_solver_members d s.1, s.2)) m.
End Controller.

(** ** [distributed_worker] *)

Section WorkerObject.
Context `{AV : Archive string}.

Record worker_object := {
  worker_base : logger_control;
  worker_settings_path : string;
  worker_members : distributed_worker
}.

Definition set_worker_base (c : logger_control) (o : worker_object) : worker_object :=
  {| worker_base := c; worker_settings_path := o.(worker_settings_path); worker_members := o.(worker_members) |}.

(** [idUuid]: the UUID drawn for a new identity. *)
Definition worker_construct (controllerAddress : string) (workerMode : worker_mode) (minIslandPopSize : Z)
    (settingsPath idUuid : string) : M process worker_object :=
  c ← on_logs logger_control_construct;
  w ← try_catch
        (w ← on_settings_file settingsPath (distributed_worker_new idUuid workerMode minIslandPopSize);
         _ ← on_sockets (zmq_connect controllerAddress);
         mret w)
        (λ e, _ ← on_logs (logger_control_destroy c); throw e);
  mret {| worker_base := c; worker_settings_path := settingsPath; worker_members := w |}.

(** The settings (their one field is the identity) are saved; [main] does not
    use the client thread; a [std::thread] destroyed while it is joinable ends
    the program. *)
Definition worker_destroy : M (worker_object * process) unit :=
  s ← get_state;
  let w := s.1.(worker_members) in
  _ ← zoom snd (λ p s, (s.1, p))
        (save_settings (SS := worker_settings_serialized "") s.1.(worker_settings_path)
          (Build_settings {| workerId := w.(_workerId) |} true));
  _ ← (if decide (w.(_workerThread) = NotJoinable) then mret tt
       else crash (terminate "std::thread destroyed while joinable"));
  zoom snd (λ p s, (s.1, p)) (on_logs (logger_control_destroy s.1.(worker_base))).

Definition worker_enable_logging (timestamp : string) : M (worker_object * process) unit :=
  base_call worker_base set_worker_base (enable_logging "./logs/worker" timestamp true).
End WorkerObject.
End Process.
Arguments process N {ZM}.
