(* ===== verification/Tasks.v ===== *)
(** * run_example/main.cpp: the controller's tasks

    The two scripts a controller process runs: the default task constructs the
    Schwefel problem of the example library and evolves it twice; the benchmark
    task runs one suite or both, each with a solver of its own. Sleeps have no
    effect here. *)
From S2P Require Import Prelude Doubles DoubleOrder WorkerInfo Messages Settings Pagmo Island PopulationTools LibLoader.
From S2P Require Import UdpRegistry UdpWrapper WorkPlan BenchmarkStats Benchmarks Logging Process.

Section Tasks.
Context {UC : UdpCode} {N : Type} {ZM : Zmq}.
Context {PG : Pagmo} {PS : PagmoSort} {SS : StdSort} {PI : PagmoIsland} {PM : PagmoMetrics}.
Context {MS : MetaSolver} {RS : RunningSolver} {BS : BenchmarkSuite}.
Context {AS : Archive (gmap string (work_stats * gmap string work_stats))}.
(** [std::any{unsigned}]; [pagmo::problem] of a wrapper, which calls the
    wrapper; [algorithm::set_verbosity]; [pagmo::problem{}]. *)
Context (any_of_unsigned : Z → any) (problem_of : udp_dll_wrapper → M (udp_registry N) problem).
Context (set_verbosity : Z → algorithm → algorithm) (null_problem : problem).
(** The readings of the clocks, in the order they are taken. *)
Context (clock : nat → Z) (dates log_stamps : nat → string).

(** [ds] in scope: the solver, and the rest of the process. *)
Definition with_solver {A} (address : string) (expectedWorkerCount : Z)
    (loadBalancingStrategy : load_balancing_strategy) (use : M (solver_object * process N) A) : M (process N) A :=
  with_object (solver_construct address expectedWorkerCount loadBalancingStrategy) use solver_destroy.

Definition on_process {O A} (m : M (process N) A) : M (O * process N) A := zoom snd (λ p s, (s.1, p)) m.

(** ** [default_controller_task] *)

Definition evolve_twice (prob : problem) (algo : algorithm) : M (solver_object * process N) unit :=
  _ ← solver_call ds_wait_until_workers_connect;
  _ ← solver_call (ds_evolve prob [algo] 1000 1);
  _ ← solver_call ds_wait_until_completion;
  _ ← solver_call (ds_evolve prob [algo] 1000 1);
  _ ← solver_call ds_wait_until_completion;
  mret tt.

(** The problem, before the solver is constructed. *)
Definition default_problem (localCacheDir : string) : M (process N) problem :=
  _ ← on_proc_registry (set_local_cache_dir localCacheDir);
  let param := 2 in
  probWrapper ← on_proc_registry (wrapper_construct "schwefel_udp" (any_of_unsigned param));
  on_proc_registry (problem_of probWrapper).

Definition default_controller_task (address : string) (expectedWorkerCount : Z)
    (loadBalancingStrategy : load_balancing_strategy) (localCacheDir : string) (disableLogging : bool) :
    M (process N) unit :=
  prob ← default_problem localCacheDir;
  let algo := set_verbosity 0 (de 1500) in
  with_solver address expectedWorkerCount loadBalancingStrategy
    (_ ← (if disableLogging then mret tt
          else t ← on_process proc_tick; solver_enable_logging (log_stamps t));
     evolve_twice prob algo).

(** ** [benchmark_controller_task] *)

(** A benchmark of [ds] with statistics of its own. *)
Definition benchmark_call {A} (m : M benchmark A) : M (solver_object * process N) A := λ '(o, p),
  let '(r, b) := m {| ds := o.(solver_members); bench := benchmark_stats_new null_problem;
                      disk := proc_os p; readings := p.(clock_readings) |} in
  (r, (set_solver_members b.(ds) o, set_readings b.(readings) (set_proc_os b.(disk) p))).

Definition benchmark_controller_task (address : string) (expectedWorkerCount : Z)
    (loadBalancingStrategy : load_balancing_strategy) (localCacheDir : string)
    (disableLogging runSO runMO : bool) : M (process N) unit :=
  _ ← on_proc_registry (set_local_cache_dir localCacheDir);
  _ ← (if runSO then
         with_solver address (Z.of_nat get_so_algorithm_count) loadBalancingStrategy
           (benchmark_call (run_so_benchmark clock dates true true 3200 1000))
       else mret tt);
  if runMO then
    with_solver address (Z.of_nat get_mo_algorithm_count) loadBalancingStrategy
      (benchmark_call (run_mo_benchmark clock dates true true 2400 1000))
  else mret tt.

(** ** Objects *)

Lemma with_object_ret {S O A} (c : M S O) (u : M (O * S) A) d s a s' :
  with_object c u d s = (Ret a, s') →
  ∃ o s1 os os', c s = (Ret o, s1) ∧ u (o, s1) = (Ret a, os) ∧ d os = (Ret tt, os') ∧ os'.2 = s'.
Proof.
  unfold with_object. destruct (c s) as [[o|e|f] s1]; [|done..].
  destruct (u (o, s1)) as [[b|e|f] [o1 s2]] eqn:Eu; [..|done];
    destruct (d (o1, s2)) as [[[]|e'|f] [o2 s3]] eqn:Ed; try done.
  intros [= <- <-]. by eexists _, _, _, _.
Qed.

Lemma with_object_throw {S O A} (c : M S O) (u : M (O * S) A) d s e s' :
  with_object c u d s = (Throw e, s') →
  c s = (Throw e, s') ∨
  ∃ o s1 os os', c s = (Ret o, s1) ∧ u (o, s1) = (Throw e, os) ∧ d os = (Ret tt, os') ∧ os'.2 = s'.
Proof.
  unfold with_object. destruct (c s) as [[o|e0|f] s1]; [|by intros [= <- <-]; left|done].
  destruct (u (o, s1)) as [[b|e1|f] [o1 s2]] eqn:Eu; [..|done];
    destruct (d (o1, s2)) as [[[]|e'|f] [o2 s3]] eqn:Ed; try done.
  intros [= <- <-]. right. by eexists _, _, _, _.
Qed.

(** Code that leaves the loggers of the process, and the base of its object, alone. *)
Definition quiet_use {O A} (base : O → logger_control) (m : M (O * process N) A) : Prop :=
  ∀ s o s', m s = (o, s') → s'.2.(logs) = s.2.(logs) ∧ base s'.1 = base s.1.

Definition quiet {A} (m : M (process N) A) : Prop := ∀ p o p', m p = (o, p') → p'.(logs) = p.(logs).

Lemma quiet_bind {A B} (m : M (process N) A) (k : A → M (process N) B) :
  quiet m → (∀ a, quiet (k a)) → quiet (m ≫= k).
Proof.
  intros Hm Hk p o p'. rewrite bind_run. destruct (m p) as [[a|e|f] p1] eqn:E; intros H.
  - rewrite (Hk a _ _ _ H). by eapply Hm.
  - injection H as <- <-. by eapply Hm.
  - injection H as <- <-. by eapply Hm.
Qed.

Lemma quiet_zoom {T A} get put (m : M T A) :
  (∀ t p, logs (put t p) = logs p) → quiet (zoom get put m).
Proof. intros Hp p o p'. unfold zoom. destruct (m _) as [r t]. intros [= _ <-]. apply Hp. Qed.

Lemma quiet_use_bind {O A B} base (m : M (O * process N) A) (k : A → M (O * process N) B) :
  quiet_use base m → (∀ a, quiet_use base (k a)) → quiet_use base (m ≫= k).
Proof.
  intros Hm Hk s o s'. rewrite bind_run. destruct (m s) as [[a|e|f] s1] eqn:E; intros H.
  - destruct (Hm _ _ _ E) as [<- <-]. by eapply Hk.
  - injection H as <- <-. by eapply Hm.
  - injection H as <- <-. by eapply Hm.
Qed.

Lemma quiet_use_ret {O A} (base : O → logger_control) (a : A) : quiet_use base (mret a).
Proof. by intros s o s' [= _ <-]. Qed.

Lemma solver_call_quiet {A} (m : M solver A) : quiet_use solver_base (solver_call m).
Proof. intros s o s'. unfold solver_call, zoom. destruct (m _) as [r d]. by intros [= _ <-]. Qed.

Lemma benchmark_call_quiet {A} (m : M benchmark A) : quiet_use solver_base (benchmark_call m).
Proof. intros [so p] o s'. unfold benchmark_call. destruct (m _) as [r b]. by intros [= _ <-]. Qed.

Lemma evolve_twice_quiet prob algo : quiet_use solver_base (evolve_twice prob algo).
Proof.
  unfold evolve_twice.
  repeat (apply quiet_use_bind; [apply solver_call_quiet|intros ?]). apply quiet_use_ret.
Qed.

(** ** Solvers and loggers *)

Definition logger_taken : exn := spdlog_ex "logger with name 'null_logger' already exists".

Lemma control_construct_fails (p : process N) :
  is_Some (p.(logs).(loggers_) !! "null_logger"%string) →
  on_logs logger_control_construct p = (Throw logger_taken, p).
Proof.
  intros Hn. unfold on_logs, zoom, logger_control_construct. rewrite bind_run, null_logger_taken by done.
  by destruct p.
Qed.

Lemma control_construct_ret (p : process N) c p' :
  on_logs logger_control_construct p = (Ret c, p') → named p'.(logs) ∧ c.(_loggerEnabled) = false.
Proof.
  unfold on_logs, zoom. destruct (logger_control_construct _) as [o r] eqn:E. intros [= -> <-].
  apply construct_named in E as [Hn ->]. done.
Qed.

Lemma solver_construct_fails address n st (p : process N) :
  is_Some (p.(logs).(loggers_) !! "null_logger"%string) →
  solver_construct address n st p = (Throw logger_taken, p).
Proof. intros Hn. unfold solver_construct. by rewrite bind_run, control_construct_fails. Qed.

Lemma try_quiet {A} (m : M (process N) A) (h : exn → M (process N) A) p a p' :
  quiet m → (∀ e q b q', h e q ≠ (Ret b, q')) → try_catch m h p = (Ret a, p') → m p = (Ret a, p') ∧ p'.(logs) = p.(logs).
Proof.
  intros Hm Hh. unfold try_catch. destruct (m p) as [[b|e|f] q] eqn:E; [..|done].
  - intros [= <- <-]. split; [done|]. by eapply Hm.
  - intros H. by destruct (Hh _ _ _ _ H).
Qed.

Lemma controller_construct_ret address (p : process N) s p' :
  controller_construct address p = (Ret s, p') → p'.(logs) = p.(logs).
Proof.
  unfold controller_construct. intros (s1 & p1 & E1 & H)%bind_ret_inv.
  apply bind_ret_inv in H as ([] & p2 & E2 & H). apply bind_ret_inv in H as ([] & p3 & E3 & H).
  injection H as _ <-.
  assert (p1.(logs) = p.(logs)) as H1 by (eapply quiet_zoom; [|exact E1]; done).
  apply try_quiet in E2 as [_ H2]; [|by apply quiet_zoom|].
  2: { intros e q b q'. rewrite bind_run. destruct (on_logs _ q) as [[[]|?|?] q1]; [|done..].
       rewrite bind_run. by destruct (on_logs _ q1) as [[[]|?|?] q2]. }
  apply try_quiet in E3 as [_ H3]; [|by apply quiet_zoom|done]. congruence.
Qed.

Lemma solver_construct_ret address n st (p : process N) o p' :
  solver_construct address n st p = (Ret o, p') →
  named p'.(logs) ∧ o.(solver_base).(_loggerEnabled) = false.
Proof.
  unfold solver_construct. intros (c & p1 & E1 & H)%bind_ret_inv.
  apply control_construct_ret in E1 as [Hn Hc]. apply bind_ret_inv in H as (s & p2 & E2 & H).
  injection H as <- <-. split; [|done]. unfold try_catch in E2.
  destruct (controller_construct address p1) as [[x|e|f] q] eqn:E; [|..|done].
  - injection E2 as <- <-. by rewrite (controller_construct_ret _ _ _ _ E).
  - rewrite bind_run in E2. by destruct (on_logs _ q) as [[[]|?|?] q1].
Qed.

Lemma solver_destroy_ret (s s' : solver_object * process N) :
  solver_destroy s = (Ret tt, s') →
  logger_control_destroy s.1.(solver_base) s.2.(logs) = (Ret tt, s'.2.(logs)).
Proof.
  destruct s as [o p]. unfold solver_destroy. rewrite bind_run. cbn [get_state fst snd].
  intros ([] & [o1 p1] & E1 & H)%bind_ret_inv. unfold zoom in E1. cbn [snd] in E1.
  destruct (controller_destroy _ _ p) as [r q] eqn:E. injection E1 as -> <- <-.
  assert (q.(logs) = p.(logs)) as Hq.
  { revert E. apply (quiet_bind (save_settings _ _)).
    - by apply quiet_zoom.
    - intros []. by apply quiet_zoom. }
  unfold zoom in H. cbn [snd] in H. unfold on_logs, zoom in H. rewrite Hq in H.
  destruct (logger_control_destroy _ _) as [r l]. by injection H as -> <-.
Qed.

(** After a solver that did not log, its null logger is still there. *)
Lemma with_solver_quiet {A} address n st (use : M (solver_object * process N) A) p a p' :
  quiet_use solver_base use → with_solver address n st use p = (Ret a, p') → named p'.(logs).
Proof.
  intros Hq (o & p1 & os & os' & Ec & Eu & Ed & <-)%with_object_ret.
  apply solver_construct_ret in Ec as [Hn Hb]. destruct (Hq _ _ _ Eu) as [Hl Hbase]. cbn [fst snd] in *.
  apply solver_destroy_ret in Ed. rewrite Hbase in Ed. unfold logger_control_destroy in Ed. rewrite Hb in Ed.
  injection Ed as <-. by rewrite Hl.
Qed.

Lemma enable_sets_flag stamp (s : solver_object * process N) o s' :
  solver_enable_logging stamp s = (o, s') → s'.1.(solver_base).(_loggerEnabled) = true.
Proof.
  unfold solver_enable_logging, base_call, zoom, enable_logging. rewrite bind_run. cbn [set_enabled modify].
  unfold on_logging, zoom. cbn [snd]. destruct (use_file_logger _ _ _) as [r l]. by intros [= _ <-].
Qed.

(** When a solver that logs fails, there is no logger left. *)
Lemma with_solver_logged address n st prob algo p e p' :
  with_solver address n st
    (_ ← (t ← on_process proc_tick; solver_enable_logging (log_stamps t)); evolve_twice prob algo) p = (Throw e, p') →
  solver_construct address n st p = (Throw e, p') ∨ p'.(logs).(default_logger_) = None.
Proof.
  intros [H|(o & p1 & os & os' & Ec & Eu & Ed & <-)]%with_object_throw; [by left|]. right.
  apply solver_destroy_ret in Ed. unfold logger_control_destroy in Ed.
  assert (os.1.(solver_base).(_loggerEnabled) = true) as Hb.
  { rewrite !bind_run in Eu. cbn [on_process zoom proc_tick fst snd] in Eu.
    destruct (solver_enable_logging _ _) as [[[]|e0|f] s1] eqn:E; apply enable_sets_flag in E.
    - destruct (evolve_twice_quiet _ _ _ _ _ Eu) as [_ ->]. exact E.
    - by injection Eu as _ <-.
    - done. }
  rewrite Hb in Ed. unfold shutdown_logger, shutdown, modify in Ed. by injection Ed as <-.
Qed.

(** The problem of the default task does not touch the loggers and the sockets. *)
Lemma default_problem_quiet localCacheDir p o p' :
  default_problem localCacheDir p = (o, p') → p'.(logs) = p.(logs) ∧ p'.(sockets) = p.(sockets).
Proof.
  unfold default_problem. rewrite bind_run. unfold on_proc_registry at 1, zoom at 1.
  destruct (set_local_cache_dir _ _) as [[[]|e|f] r]; [|by intros [= _ <-]..]. rewrite bind_run.
  unfold on_proc_registry at 1, zoom at 1.
  destruct (wrapper_construct _ _ _) as [[w|e|f] r2]; [|by intros [= _ <-]..].
  unfold on_proc_registry, zoom. destruct (problem_of _ _) as [r3 q]. by intros [= _ <-].
Qed.

(** Both suites in one process: the second solver is never constructed. *)
Lemma both_benchmarks address n st dir dl p o p' :
  benchmark_controller_task address n st dir dl true true p = (o, p') → o ≠ Ret tt.
Proof.
  unfold benchmark_controller_task. rewrite bind_run. unfold on_proc_registry, zoom.
  destruct (set_local_cache_dir _ _) as [[[]|e|f] r]; [|by intros [= <- _]..]. rewrite bind_run.
  destruct (with_solver _ _ _ _ _) as [[[]|e|f] p1] eqn:E; [|by intros [= <- _]..].
  apply with_solver_quiet in E as [Hn _]; [|apply benchmark_call_quiet].
  unfold with_solver, with_object. rewrite solver_construct_fails by done. by intros [= <- _].
Qed.
End Tasks.
