(* ===== verification/Main.v ===== *)
(** * run_example/main.cpp: the processes

    [main] turns a command line into a controller or a worker process and every
    exception into an exit status; a worker gets a directory of its own, with
    the settings file that keeps its identity. The handlers of [run_controller]
    and [run_worker] log the exception after the object that owned the loggers
    has been destroyed. *)
From Stdlib Require Import Ascii.
From S2P Require Import Prelude Doubles DoubleOrder WorkerInfo Messages Settings Codec Pagmo WorkPlan WorkerLogic.
From S2P Require Import Worker Island PopulationTools LibLoader UdpRegistry UdpWrapper Uuid Csv Numerals.
From S2P Require Import PathNormalizer BenchmarkStats MainArgs Benchmarks Logging Process Tasks.

(** ** Starting a process *)

Record controller_args := {
  c_address : string;
  c_workers : Z;
  c_strategy : load_balancing_strategy;
  c_cacheDir : string;
  c_runSO : bool;
  c_runMO : bool;
  c_disableLogging : bool
}.

Record worker_args := {
  w_address : string;
  w_mode : worker_mode;
  w_minPopSize : Z;
  w_cacheDir : string;
  w_settings : string;
  w_disableLogging : bool
}.

(** [s.empty() ? d : s] *)
Definition or_default (s d : string) : string := if String.eqb s "" then d else s.

Definition controller_of (ma : main_args) : controller_args := {|
  c_address := or_default ma.(address) ma.(defaultAddressController);
  c_workers := ma.(workers);
  c_strategy := if String.eqb ma.(strategy) "ALL_ISLANDS_EQUAL" then ALL_ISLANDS_EQUAL else BY_PERFORMANCE;
  c_cacheDir := or_default ma.(cacheDir) ma.(defaultCacheDirController);
  c_runSO := ma.(runSOBenchmark); c_runMO := ma.(runMOBenchmark);
  c_disableLogging := ma.(disableLogging) |}.

(** The worker's directory, cache and settings file. [dirUuid]: the text of the
    UUID drawn for the directory. *)
Definition baseCacheDir (ma : main_args) : string := or_default ma.(cacheDir) ma.(defaultCacheDirWorker).
Definition workerRoot (ma : main_args) (dirUuid : string) : string :=
  path_join (baseCacheDir ma) (or_default ma.(workerDir) ("worker_" +:+ dirUuid)).

Definition worker_of (ma : main_args) (dirUuid : string) : worker_args := {|
  w_address := or_default ma.(address) ma.(defaultAddressWorker);
  w_mode := if String.eqb ma.(workerMode) "ARCHIPELAGO_BASED" then ARCHIPELAGO_BASED else SINGLE_THREADED;
  w_minPopSize := ma.(minPopSize);
  w_cacheDir := if ma.(noWorkerDirectory) then baseCacheDir ma else path_join (workerRoot ma dirUuid) "cache";
  w_settings := path_join (if ma.(noWorkerDirectory) then baseCacheDir ma else workerRoot ma dirUuid)
                          "worker_settings.xml";
  w_disableLogging := ma.(disableLogging) |}.

(** The isolated directory is created before the worker starts. *)
Definition prepare_worker (ma : main_args) (dirUuid : string) : M os worker_args :=
  let w := worker_of ma dirUuid in
  _ ← (if ma.(noWorkerDirectory) then mret tt else create_directories w.(w_cacheDir));
  mret w.

(** ** [print_help] *)

Definition newline : string := String (ascii_of_nat 10) "".

Definition help_lines (fName : string) : list string :=
  ["Usage:";
   "  " +:+ fName +:+ " --controller [options]";
   "  " +:+ fName +:+ " --worker     [options]";
   "";
   "Common options:";
   "  --disable-logging";
   "  --benchmark-so  Run single-objective benchmarks";
   "  --benchmark-mo  Run multi-objective benchmarks";
   "";
   "Controller options:";
   "  --address      <addr>  (default: tcp://0.0.0.0:5000)";
   "  --workers      <n>     Expected worker count (default: 2)";
   "  --strategy     <name>  (default: BY_PERFORMANCE)";
   "  --cache-dir    <dir>   (default: controller_cache)";
   "";
   "Worker options:";
   "  --address      <addr>  (default: tcp://localhost:5000)";
   "  --mode         <name>  (default: ARCHIPELAGO_BASED)";
   "  --min-pop-size <n>     (default: 80)";
   "  --cache-dir    <dir>   (default: worker_cache)";
   "  --worker-dir   <name>  Per-worker isolated subdirectory name (default: auto-generated UUID)";
   "  --no-worker-isolation  Disable per-worker isolated subdirectory with cache and settings";
   ""]%string.

Definition print_help {UC : UdpCode} {N : Type} {ZM : Zmq} (argv0 : string) : M (process N) unit :=
  for_each (help_lines (filename argv0)) (λ l, print (l +:+ newline)).

Section Main.
Context {UC : UdpCode} {N : Type} {ZM : Zmq}.
Context {PG : Pagmo} {PS : PagmoSort} {SS : StdSort} {PI : PagmoIsland} {PM : PagmoMetrics}.
Context {MS : MetaSolver} {RS : RunningSolver} {BS : BenchmarkSuite}.
Context {AS : Archive (gmap string (work_stats * gmap string work_stats))} `{AV : Archive string}.
Context (any_of_unsigned : Z → any) (problem_of : udp_dll_wrapper → M (udp_registry N) problem).
Context (set_verbosity : Z → algorithm → algorithm) (null_problem : problem).
Context (clock : nat → Z) (dates log_stamps : nat → string).
(** A worker's endless [client_loop], and [get_dll_from_controller] as the
    registry calls it. *)
Context (client_loops : M (worker_object * process N) Empty_set).
Context (get_dll : worker_object → string → M N (option bytes)).

Abbreviation default_problem := (default_problem any_of_unsigned problem_of).

(** The identity a worker reads or draws when it is constructed. *)
Definition start_identity (w : worker_args) (idUuid : string) : M os string :=
  zoom (settings_disk w.(w_settings)) (write_settings w.(w_settings)) (worker_identity idUuid).

(** [catch]: the message gets a prefix, is logged and thrown again. *)
Definition aborting {A} (prefix : string) (m : M (process N) A) : M (process N) A :=
  try_catch m (λ e,
    let errMsg := prefix +:+ exn_what e in
    _ ← on_logs (log critical errMsg);
    throw (runtime_error errMsg)).

(** [controllerTaskWrapper] *)
Definition controller_task (c : controller_args) : M (process N) unit :=
  if c.(c_runSO) || c.(c_runMO) then
    benchmark_controller_task null_problem clock dates c.(c_address) c.(c_workers) c.(c_strategy) c.(c_cacheDir)
      c.(c_disableLogging) c.(c_runSO) c.(c_runMO)
  else
    default_controller_task any_of_unsigned problem_of set_verbosity log_stamps c.(c_address) c.(c_workers)
      c.(c_strategy) c.(c_cacheDir) c.(c_disableLogging).

Definition run_controller (c : controller_args) : M (process N) unit :=
  aborting "Aborting distributed solver, an exception occurred: " (controller_task c).

Definition construct_worker (w : worker_args) (idUuid : string) : M (process N) worker_object :=
  worker_construct w.(w_address) w.(w_mode) w.(w_minPopSize) w.(w_settings) idUuid.

Definition use_worker (w : worker_args) : M (worker_object * process N) Empty_set :=
  _ ← (if w.(w_disableLogging) then mret tt
       else t ← on_process proc_tick; worker_enable_logging (log_stamps t));
  _ ← on_process (on_proc_registry (set_local_cache_dir w.(w_cacheDir)));
  s ← get_state;
  _ ← on_process (on_proc_registry (register_udp_provider (get_dll s.1)));
  client_loops.

Definition run_worker (w : worker_args) (idUuid : string) : M (process N) Empty_set :=
  aborting "Aborting distributed worker, an exception occurred: "
    (with_object (construct_worker w idUuid) (use_worker w) worker_destroy).

(** ** [main] *)

(** The [try] block of [main] with its handler. *)
Definition run_process (ma : main_args) (dirUuid idUuid : string) : M (process N) Z :=
  try_catch
    (if ma.(isController) then
       _ ← run_controller (controller_of ma);
       mret 0
     else
       w ← on_proc_os (prepare_worker ma dirUuid);
       never ← run_worker w idUuid;
       match (never : Empty_set) with end)
    (λ _, mret 2).

(** What [main] does outside the [try] block: an exception ends the program. *)
Definition uncaught {A} (m : M (process N) A) : M (process N) A := λ p,
  match m p with
  | (Throw e, p) => (Crash (terminate (exn_what e)), p)
  | r => r
  end.

Definition start_logging (ma : main_args) : M (process N) unit :=
  if ma.(disableLogging) then on_logs use_null_logger else mret tt.

(** The exit status of a process; [argv] without the program's name. *)
Definition main (argv0 : string) (argv : list string) (dirUuid idUuid : string) : M (process N) Z :=
  mainArgsOpt ← uncaught (lift (parse_main_args argv));
  match mainArgsOpt with
  | None => _ ← print_help argv0; mret 2
  | Some ma =>
      _ ← uncaught (start_logging ma);
      run_process ma dirUuid idUuid
  end.

(** ** Identities of workers started one after the other *)

(** A worker's start, up to its identity. *)
Definition start_worker (ma : main_args) (dirUuid idUuid : string) : M os string :=
  w ← prepare_worker ma dirUuid;
  start_identity w idUuid.

(** It is the identity of the worker a process constructs. *)
Lemma constructed_identity w idUuid p o p' :
  construct_worker w idUuid p = (Ret o, p') →
  (start_identity w idUuid (proc_os p)).1 = Ret o.(worker_members).(_workerId).
Proof.
  unfold construct_worker, worker_construct. intros (c & p1 & E1 & H)%bind_ret_inv.
  assert (proc_os p1 = proc_os p) as Hos.
  { unfold on_logs, zoom in E1. destruct (logger_control_construct _) as [x l]. by injection E1 as _ <-. }
  apply bind_ret_inv in H as (m & p2 & E2 & H). injection H as <- _. cbn [worker_members].
  unfold try_catch in E2. rewrite bind_run in E2.
  unfold start_identity. rewrite <- Hos. unfold zoom.
  unfold on_settings_file, on_proc_os, zoom, distributed_worker_new in E2. rewrite bind_run in E2.
  destruct (worker_identity idUuid _) as [[id|e|f] d]; cbn [mret M_ret fst] in *; cbv iota beta in E2.
  - rewrite bind_run in E2. destruct (on_sockets _ _) as [[[]|e|f] p3]; cbn in E2; [by injection E2 as <- _| |done].
    rewrite bind_run in E2. by destruct (on_logs (logger_control_destroy c) p3) as [[[]|?|?] ?].
  - rewrite bind_run in E2. by destruct (on_logs (logger_control_destroy c) _) as [[[]|?|?] ?].
  - done.
Qed.

(** ** Exit statuses *)

Lemma aborting_ret {A} prefix (m : M (process N) A) p a p' :
  aborting prefix m p = (Ret a, p') ↔ m p = (Ret a, p').
Proof.
  unfold aborting, try_catch. destruct (m p) as [[b|e|f] t]; [done| |done].
  rewrite bind_run. by destruct (on_logs _ t) as [[[]|?|?] q].
Qed.

(** The handler's own message needs a logger. *)
Lemma aborting_throw {A} prefix (m : M (process N) A) p e p' :
  aborting prefix m p = (Throw e, p') →
  ∃ e' q, m p = (Throw e', q) ∧ on_logs (log critical (prefix +:+ exn_what e')) q = (Ret tt, p').
Proof.
  unfold aborting, try_catch. destruct (m p) as [[b|e0|f] t]; [done| |done].
  rewrite bind_run. destruct (on_logs _ t) as [[[]|e1|f] q] eqn:E; [|exfalso|done].
  - intros [= _ <-]. by exists e0, t.
  - unfold on_logs, zoom, log in E. rewrite bind_run in E. cbn [get_state] in E.
    destruct (default_logger_ _); [|by injection E]. by destruct (should_log _ _).
Qed.

Lemma process_ends ma dirUuid idUuid p r p' :
  run_process ma dirUuid idUuid p = (r, p') →
  (r = Ret 2 ∨ (∃ f, r = Crash f) ∨ r = Ret 0) ∧
  (r = Ret 0 ↔ ma.(isController) = true ∧ controller_task (controller_of ma) p = (Ret tt, p')).
Proof.
  unfold run_process, try_catch. destruct (isController ma).
  - rewrite bind_run. unfold run_controller.
    setoid_rewrite <- (aborting_ret "Aborting distributed solver, an exception occurred: ").
    destruct (aborting _ _ p) as [[[]|e|f] o1]; intros [= <- <-];
      (split; [by eauto|split; [by intros|by intros [_ ?]]]).
  - rewrite bind_run. destruct (on_proc_os (prepare_worker ma dirUuid) p) as [[w|e|f] o1];
      [rewrite bind_run; destruct (run_worker w idUuid o1) as [[[]|e|f] o2]|..];
      intros [= <- <-]; (split; [by eauto|split; [by intros|by intros [? _]]]).
Qed.

Lemma print_help_ret argv0 p : ∃ p', print_help (N := N) argv0 p = (Ret tt, p').
Proof.
  unfold print_help. revert p. induction (help_lines (filename argv0)) as [|l ls IH]; intros p; [by exists p|].
  cbn [for_each]. rewrite bind_run. unfold print, modify. apply IH.
Qed.

(** Status 0 is the end of a controller's task. *)
Lemma main_exit_zero argv0 argv dirUuid idUuid p p' :
  main argv0 argv dirUuid idUuid p = (Ret 0, p') →
  ∃ ma p1, parse_main_args argv = Ret (Some ma) ∧ ma.(isController) = true ∧
    start_logging ma p = (Ret tt, p1) ∧ controller_task (controller_of ma) p1 = (Ret tt, p').
Proof.
  unfold main. rewrite bind_run. unfold uncaught at 1, lift.
  destruct (parse_main_args argv) as [[ma|]|e|f]; [| |done..].
  2: { rewrite bind_run. by destruct (print_help argv0 p) as [[[]|e|f] q]; intros [=]. }
  rewrite bind_run. unfold uncaught. destruct (start_logging ma p) as [[[]|e|f] p1] eqn:El; [|done..].
  intros H. destruct (proj1 (proj2 (process_ends _ _ _ _ _ _ H)) eq_refl) as [Hc Ht]. by exists ma, p1.
Qed.

(** C31. What a process's exit status says: 0 is the end of a controller's task,
    and nothing else; 2 is a refused command line, or an exception in the task
    of a controller or a worker. A worker never ends with 0, and a command line
    that cannot be parsed (a missing or an unreadable value) ends the process
    without a status. *)
Theorem main_exit_status argv0 argv dirUuid idUuid p :
  (∀ n p', main argv0 argv dirUuid idUuid p = (Ret n, p') → n = 0 ∨ n = 2) ∧
  (∀ p', main argv0 argv dirUuid idUuid p = (Ret 0, p') ↔
    ∃ ma p1, parse_main_args argv = Ret (Some ma) ∧ ma.(isController) = true ∧
      start_logging ma p = (Ret tt, p1) ∧ controller_task (controller_of ma) p1 = (Ret tt, p')) ∧
  (∀ e p', main argv0 argv dirUuid idUuid p ≠ (Throw e, p')) ∧
  (∀ e, parse_main_args argv = Throw e →
    main argv0 argv dirUuid idUuid p = (Crash (terminate (exn_what e)), p)) ∧
  (parse_main_args argv = Ret None →
    ∃ p', print_help (N := N) argv0 p = (Ret tt, p') ∧ main argv0 argv dirUuid idUuid p = (Ret 2, p')).
Proof.
  unfold main. rewrite bind_run. unfold uncaught at 1 3 5 7 9, lift.
  destruct (print_help_ret argv0 p) as [ph Eh].
  destruct (parse_main_args argv) as [[ma|]|e|f] eqn:Ep; cbv iota beta.
  2: { rewrite bind_run, Eh. cbn [mret M_ret]. split_and!; [|by intros p'; split; [by intros|intros (? & ? & ? & _)]|done|done|].
       - intros n p' [= <- _]. by right.
       - intros _. by exists ph. }
  2-3: split_and!; try (by (intros; simplify_eq; eauto)).
  2-3: intros p'; split; [by intros|by intros (? & ? & ? & _)].
  rewrite bind_run. unfold uncaught.
  destruct (start_logging ma p) as [[[]|e|f] p1] eqn:El; cbv iota beta.
  2-3: split_and!; try (by (intros; simplify_eq; eauto)); intros p'; split; [by intros|];
    intros (ma' & p2 & Hma & _ & El' & _); simplify_eq; congruence.
  pose proof (λ r p', process_ends ma dirUuid idUuid p1 r p') as Hp.
  split_and!; [..|done|done].
  - intros n p' H. destruct (Hp _ _ H) as [[E|[[f E]|E]] _]; simplify_eq; auto.
  - intros p'. split.
    + intros H. exists ma, p1. split; [done|]. destruct (proj1 (proj2 (Hp _ _ H))); done.
    + intros (? & p2 & [= <-] & Hc & El' & Ht). rewrite El in El'. injection El' as <-.
      destruct (run_process ma dirUuid idUuid p1) as [r p2] eqn:E.
      unfold run_process in E. rewrite Hc in E. unfold try_catch, run_controller in E. rewrite bind_run in E.
      by rewrite (proj2 (aborting_ret _ _ _ _ _) Ht) in E.
  - intros e p' H. by destruct (Hp _ _ H) as [[E|[[f E]|E]] _].
Qed.

(** ** Loggers *)

Lemma log_null msg (p : process N) :
  p.(logs).(default_logger_) = Some null_logger → on_logs (log critical msg) p = (Ret tt, p).
Proof.
  intros Hd. unfold on_logs, zoom, log. rewrite bind_run. cbn [get_state]. rewrite Hd. cbn. by destruct p.
Qed.

Lemma log_without_logger l msg (p : process N) :
  p.(logs).(default_logger_) = None → ∃ f, on_logs (log l msg) p = (Crash f, p).
Proof.
  intros Hd. unfold on_logs, zoom, log. rewrite bind_run. cbn [get_state]. rewrite Hd. cbn. destruct p. by eexists.
Qed.

Lemma null_logger_set (p : process N) :
  p.(logs).(loggers_) !! "null_logger"%string = None →
  ∃ p1, on_logs use_null_logger p = (Ret tt, p1) ∧ p1.(sockets) = p.(sockets) ∧
    is_Some (p1.(logs).(loggers_) !! "null_logger"%string) ∧ p1.(logs).(default_logger_) = Some null_logger.
Proof.
  intros Hn. unfold on_logs, zoom, use_null_logger, register_logger. rewrite !bind_run. cbn [get_state].
  change (name_ null_logger) with "null_logger"%string. rewrite Hn. cbn.
  eexists. split; [reflexivity|]. split; [done|]. split; [|done]. cbn. by rewrite lookup_insert_eq.
Qed.

Lemma aborting_silent {A} prefix (m : M (process N) A) p e q :
  m p = (Throw e, q) → q.(logs).(default_logger_) = Some null_logger →
  ∃ e', aborting prefix m p = (Throw e', q).
Proof.
  intros Hm Hd. unfold aborting, try_catch. rewrite Hm. rewrite bind_run, log_null by done. by eexists.
Qed.

(** Nothing can be constructed while the null logger has its name. *)
Lemma controller_task_refused c p :
  is_Some (p.(logs).(loggers_) !! "null_logger"%string) →
  ∃ r p', controller_task c p = (r, p') ∧ p'.(logs) = p.(logs) ∧ p'.(sockets) = p.(sockets) ∧
    ((∃ e, r = Throw e) ∨
     (∃ f, c.(c_runSO) = false ∧ c.(c_runMO) = false ∧ r = Crash f ∧ default_problem c.(c_cacheDir) p = (Crash f, p'))).
Proof.
  intros Hn. unfold controller_task. destruct (c_runSO c || c_runMO c) eqn:E.
  - unfold benchmark_controller_task. rewrite bind_run. unfold on_proc_registry, zoom, set_local_cache_dir, modify.
    set (p1 := set_proc_registry _ p).
    assert (∀ A n (u : M (solver_object * process N) A), with_solver (c_address c) n (c_strategy c) u p1 = (Throw logger_taken, p1)) as Hw.
    { intros A n u. unfold with_solver, with_object. by rewrite solver_construct_fails. }
    exists (Throw logger_taken), p1. split_and!; [|done|done|by left; eexists].
    rewrite bind_run. destruct (c_runSO c); [by rewrite Hw|]. cbn in E. rewrite E. cbn [mret M_ret]. apply Hw.
  - apply orb_false_iff in E as [-> ->]. unfold default_controller_task. rewrite bind_run.
    destruct (default_problem (c_cacheDir c) p) as [[prob|e|f] p1] eqn:Ed;
      apply default_problem_quiet in Ed as [Hl Hs]; eexists _, p1.
    + unfold with_solver, with_object. rewrite solver_construct_fails by (by rewrite Hl).
      split_and!; [done..|]. by left; eexists.
    + split_and!; [done..|]. by left; eexists.
    + split_and!; [done..|]. right. by exists f.
Qed.

(** C32. The option --disable-logging: the process sets the null logger before
    it constructs its solver or its worker, whose constructor sets it as well
    and throws because the name is taken. No endpoint is ever bound or
    connected, and the process ends with status 2 (unless the construction of
    the default task's problem has undefined behaviour). *)
Theorem disable_logging_never_starts argv0 argv dirUuid idUuid p ma :
  parse_main_args argv = Ret (Some ma) → ma.(disableLogging) = true →
  p.(logs).(loggers_) !! "null_logger"%string = None →
  ∃ r p', main argv0 argv dirUuid idUuid p = (r, p') ∧ p'.(sockets) = p.(sockets) ∧
    (r = Ret 2 ∨
     ma.(isController) = true ∧ ma.(runSOBenchmark) = false ∧ ma.(runMOBenchmark) = false ∧
     ∃ p1 f, start_logging ma p = (Ret tt, p1) ∧ r = Crash f ∧
       default_problem (controller_of ma).(c_cacheDir) p1 = (Crash f, p')).
Proof.
  intros Hp Hd Hn. destruct (null_logger_set p Hn) as (p1 & E1 & Hs1 & Hn1 & Hd1).
  assert (start_logging ma p = (Ret tt, p1)) as El by (unfold start_logging; by rewrite Hd).
  assert (main argv0 argv dirUuid idUuid p = run_process ma dirUuid idUuid p1) as ->.
  { unfold main. rewrite bind_run. unfold uncaught at 1, lift. rewrite Hp. rewrite bind_run. unfold uncaught.
    by rewrite El. }
  rewrite <- Hs1. unfold run_process, try_catch. destruct (isController ma) eqn:Ec.
  - rewrite bind_run. unfold run_controller.
    destruct (controller_task_refused (controller_of ma) p1 Hn1) as (r & p2 & E & Hl & Hs & Hr).
    destruct Hr as [[e ->]|(f & Hso & Hmo & -> & Hdp)].
    + destruct (aborting_silent "Aborting distributed solver, an exception occurred: " _ _ _ _ E)
        as [e' ->]; [by rewrite Hl|]. eexists _, p2. split; [reflexivity|]. split; [done|by left].
    + unfold aborting, try_catch. rewrite E. eexists _, p2. split; [reflexivity|]. split; [done|]. right.
      split_and!; [done|exact Hso|exact Hmo|]. by exists p1, f.
  - rewrite bind_run. unfold on_proc_os, zoom. destruct (prepare_worker ma dirUuid (proc_os p1)) as [r o] eqn:Ew.
    assert (∃ w, r = Ret w) as [w ->].
    { unfold prepare_worker in Ew. rewrite bind_run in Ew.
      destruct (noWorkerDirectory ma); injection Ew as <- _; by eexists. }
    rewrite bind_run. unfold run_worker. set (p2 := set_proc_os o p1).
    assert (with_object (construct_worker w idUuid) (use_worker w) worker_destroy p2 = (Throw logger_taken, p2)) as E2.
    { unfold with_object, construct_worker, worker_construct. by rewrite bind_run, control_construct_fails. }
    destruct (aborting_silent "Aborting distributed worker, an exception occurred: " _ _ _ _ E2) as [e' ->];
      [done|]. eexists _, p2. split; [reflexivity|]. split; [done|by left].
Qed.

(** Both benchmarks in one process: the second solver cannot be constructed,
    so a controller started with --benchmark-so and --benchmark-mo never ends
    with status 0, whatever its workers measure. *)
Theorem both_benchmarks_never_finish argv0 argv dirUuid idUuid p ma p' :
  parse_main_args argv = Ret (Some ma) → ma.(runSOBenchmark) = true → ma.(runMOBenchmark) = true →
  main argv0 argv dirUuid idUuid p ≠ (Ret 0, p').
Proof.
  intros Hp Hso Hmo H. unfold main in H. rewrite bind_run in H. unfold uncaught at 1, lift in H. rewrite Hp in H.
  cbv iota beta in H. rewrite bind_run in H. unfold uncaught in H.
  destruct (start_logging ma p) as [[[]|e|f] p1]; [|done..].
  apply process_ends in H as [_ [Hc _]]. destruct (Hc eq_refl) as [_ E].
  unfold controller_task in E. cbn [c_runSO c_runMO controller_of] in E. rewrite Hso, Hmo in E.
  by apply both_benchmarks in E.
Qed.

Lemma use_worker_flag w (s : worker_object * process N) e s' :
  (∀ t o t', client_loops t = (o, t') → worker_base t'.1 = worker_base t.1) →
  w.(w_disableLogging) = false → use_worker w s = (Throw e, s') → s'.1.(worker_base).(_loggerEnabled) = true.
Proof.
  intros Hk Hd. unfold use_worker. rewrite Hd. rewrite !bind_run. cbn [on_process zoom proc_tick fst snd].
  unfold worker_enable_logging, base_call, zoom, enable_logging. rewrite bind_run. cbn [set_enabled modify].
  unfold on_logging, zoom. cbn [snd]. destruct (use_file_logger _ _ _) as [[[]|e0|f] l]; [|by intros [= _ <-]|done].
  rewrite !bind_run. unfold on_process, on_proc_registry, zoom, set_local_cache_dir, register_udp_provider, modify.
  cbn [fst snd get_state]. intros E. by rewrite (Hk _ _ _ E).
Qed.

Lemma worker_destroy_ret (s s' : worker_object * process N) :
  worker_destroy s = (Ret tt, s') → s.1.(worker_base).(_loggerEnabled) = true →
  s'.2.(logs).(default_logger_) = None.
Proof.
  destruct s as [o p]. unfold worker_destroy. rewrite bind_run. cbn [get_state fst snd].
  intros ([] & [o1 p1] & _ & H)%bind_ret_inv Hb. apply bind_ret_inv in H as ([] & [o2 p2] & _ & H).
  unfold logger_control_destroy in H. rewrite Hb in H. by injection H as <-.
Qed.

(** C33. A process that logs and fails after its worker or its solver was
    constructed ends without a status: the object's destructor shuts the
    loggers down, and the handler's message is then a call on a null logger.
    A worker that has started always ends like that; a controller with the
    default task ends with 0 or like that. *)
Theorem failure_after_start_crashes argv0 argv dirUuid idUuid p ma :
  (∀ t o t', client_loops t = (o, t') → worker_base t'.1 = worker_base t.1) →
  parse_main_args argv = Ret (Some ma) → ma.(disableLogging) = false →
  (ma.(isController) = false → ∀ w p1 o p2,
     on_proc_os (prepare_worker ma dirUuid) p = (Ret w, p1) → construct_worker w idUuid p1 = (Ret o, p2) →
     ∃ f p', main argv0 argv dirUuid idUuid p = (Crash f, p')) ∧
  (ma.(isController) = true → ma.(runSOBenchmark) = false → ma.(runMOBenchmark) = false → ∀ prob p1 o p2,
     let c := controller_of ma in
     default_problem c.(c_cacheDir) p = (Ret prob, p1) →
     solver_construct c.(c_address) c.(c_workers) c.(c_strategy) p1 = (Ret o, p2) →
     ∃ r p', main argv0 argv dirUuid idUuid p = (r, p') ∧ (r = Ret 0 ∨ ∃ f, r = Crash f)).
Proof.
  intros Hk Hp Hd.
  assert (main argv0 argv dirUuid idUuid p = run_process ma dirUuid idUuid p) as Hmain.
  { unfold main. rewrite bind_run. unfold uncaught at 1, lift. rewrite Hp. rewrite bind_run. unfold uncaught, start_logging.
    by rewrite Hd. }
  rewrite Hmain. unfold run_process, try_catch. split.
  - intros Hw w p1 o p2 Ew Eo. rewrite Hw, bind_run, Ew. rewrite bind_run.
    destruct (run_worker w idUuid p1) as [[[]|e|f] q] eqn:E; [|by eexists _, _].
    exfalso. apply aborting_throw in E as (e' & q' & E & El).
    apply with_object_throw in E as [E|(o' & s1 & os & os' & Ec & Eu & Edd & <-)]; [congruence|].
    apply use_worker_flag in Eu; [|done|].
    2: { unfold prepare_worker, on_proc_os, zoom in Ew. rewrite bind_run in Ew.
         destruct (noWorkerDirectory ma); injection Ew as <- _; exact Hd. }
    apply worker_destroy_ret in Edd; [|done]. destruct (log_without_logger critical
      ("Aborting distributed worker, an exception occurred: " +:+ exn_what e') os'.2 Edd) as [f Ef]. congruence.
  - intros Hc Hso Hmo prob p1 o p2 Edp Eo. rewrite Hc, bind_run. set (c := controller_of ma) in *.
    destruct (run_controller c p) as [[[]|e|f] q] eqn:E; [eexists _, _; split; [reflexivity|by left]| |].
    2: { eexists _, _. split; [reflexivity|]. right. by eexists. }
    exfalso. apply aborting_throw in E as (e' & q' & E & El). unfold controller_task in E.
    assert (c_runSO c || c_runMO c = false) as Eb by (unfold c; cbn; by rewrite Hso, Hmo).
    rewrite Eb in E. unfold default_controller_task in E. rewrite bind_run, Edp in E.
    change (c_disableLogging c) with (disableLogging ma) in E. rewrite Hd in E.
    apply with_solver_logged in E as [E|E]; [by rewrite Eo in E|].
    destruct (log_without_logger critical ("Aborting distributed solver, an exception occurred: " +:+ exn_what e')
      q' E) as [f Ef]. congruence.
Qed.

(** ** A directory per worker *)

Context {HL : ArchiveLaws string}.

Lemma hex_no_slash s i : v4_from i s = true → no_slash s.
Proof.
  unfold no_slash. revert i. induction s as [|c s IH]; intros i; [done|].
  cbn [v4_from string_forall]. intros [Hc Hs]%andb_true_iff. rewrite (IH _ Hs), andb_true_r.
  destruct (slash c) eqn:E; [|done]. apply Ascii.eqb_eq in E. subst c.
  do 24 (destruct i as [|i]; [done|]). done.
Qed.

(** The directory of a worker, and the files in it. *)
Lemma root_path ma :
  ma.(workerDir) = ""%string → ∃ pre, ∀ u, workerRoot ma u = pre +:+ "worker_" +:+ u.
Proof.
  intros Hd. unfold workerRoot. rewrite Hd. unfold or_default. cbn [String.eqb].
  set (b := baseCacheDir ma). destruct (String.eqb b "" || ends_with_slash b) eqn:E.
  all: unfold path_join.
  - exists b. intros v. change ("worker_" +:+ v) with (String "w" ("orker_" +:+ v)). by rewrite E.
  - exists (b +:+ "/"). intros v. change ("worker_" +:+ v) with (String "w" ("orker_" +:+ v)).
    by rewrite E, <- append_assoc.
Qed.

Lemma file_in_root pre u c f :
  no_slash u → no_slash (String c f) →
  let root := pre +:+ "worker_" +:+ u in
  path_join root (String c f) = root +:+ String "/" (String c f) ∧ parent_path (path_join root (String c f)) = root.
Proof.
  intros Hu Hf root.
  assert (no_slash (String "w" ("orker_" +:+ u))) as Hw by (by apply (no_slash_app "worker_" u)).
  assert (path_join root (String c f) = root +:+ String "/" (String c f)) as E.
  { unfold root, path_join. change ("worker_" +:+ u) with (String "w" ("orker_" +:+ u)).
    rewrite ends_with_slash_name by done. unfold no_slash in Hf. cbn [string_forall] in Hf.
    apply andb_true_iff in Hf as [Hc _]. apply negb_true_iff in Hc.
    destruct pre; cbn [String.eqb orb];
    destruct c as [[] [] [] [] [] [] [] []]; first [done|by vm_compute in Hc]. }
  split; [done|]. rewrite E. unfold parent_path. rewrite split_last_app by done.
  unfold root. change ("worker_" +:+ u) with (String "w" ("orker_" +:+ u)).
  rewrite <- append_assoc, strip_slash by done. by destruct pre.
Qed.

(** A settings file that can be created or is not there yet. *)
Record fresh_settings (path : string) (o : os) : Prop := {
  fs_none : o.(files) !! path = None;
  fs_read : path ∉ o.(read_denied);
  fs_write : path ∉ o.(write_denied)
}.

Lemma settings_disk_new path o :
  fresh_settings path o → parent_path path ∈ o.(dirs) →
  settings_disk path o = {| Settings.file := None; readable := true; writable := true |}.
Proof.
  intros [Hn Hr Hw] Hp. unfold settings_disk. by rewrite Hn, !bool_decide_eq_true_2 by done.
Qed.

(** A first start draws the identity and stores it. *)
Lemma first_identity w id o :
  fresh_settings w.(w_settings) o → parent_path w.(w_settings) ∈ o.(dirs) →
  start_identity w id o =
    (Ret ("worker_" +:+ id), set_files (<[w.(w_settings) := archive_text ("worker_" +:+ id)]> o.(files)) o).
Proof.
  intros Hf Hp. unfold start_identity, zoom. rewrite settings_disk_new by done.
  destruct (worker_identity_run id {| Settings.file := None; readable := true; writable := true |})
    as (i & -> & ->); [done..|]. done.
Qed.

(** Later starts read it. *)
Lemma next_identity w id id' o :
  fresh_settings w.(w_settings) o → parent_path w.(w_settings) ∈ o.(dirs) →
  let o' := set_files (<[w.(w_settings) := archive_text id]> o.(files)) o in
  start_identity w id' o' = (Ret id, o').
Proof.
  intros [Hn Hr Hw] Hp o'. unfold start_identity, zoom.
  assert (settings_disk w.(w_settings) o' =
    {| Settings.file := Some (archive_text id); readable := true; writable := true |}) as ->.
  { unfold settings_disk, o'. cbn. by rewrite lookup_insert_eq, !bool_decide_eq_true_2 by done. }
  destruct (worker_identity_run id' {| Settings.file := Some (archive_text id); readable := true; writable := true |})
    as (i & -> & ->); [done|done| |].
  { intros t [= <-]. by rewrite archive_roundtrip. }
  cbn. rewrite archive_roundtrip. unfold write_settings, o'. cbn. by rewrite insert_insert_eq.
Qed.

Definition auto_isolated (ma : main_args) : Prop := ma.(noWorkerDirectory) = false ∧ ma.(workerDir) = ""%string.

(** An isolated worker's paths. *)
Lemma isolated_paths ma :
  auto_isolated ma → ∃ pre, ∀ u, no_slash u →
    let root := pre +:+ "worker_" +:+ u in
    parent_path (worker_of ma u).(w_settings) = root ∧
    root ∈ with_parents (String.length (worker_of ma u).(w_cacheDir)) (worker_of ma u).(w_cacheDir).
Proof.
  intros [Hn Hd]. destruct (root_path ma Hd) as [pre Hpre]. exists pre. intros u Hu root.
  unfold worker_of. cbn [w_settings w_cacheDir]. rewrite Hn, Hpre. fold root.
  destruct (file_in_root pre u "w" "orker_settings.xml" Hu eq_refl) as [_ E1]. fold root in E1.
  destruct (file_in_root pre u "c" "ache" Hu eq_refl) as [E2 E3]. fold root in E2, E3.
  split; [exact E1|]. rewrite E2 in E3 |- *.
  assert (∃ n, String.length (root +:+ "/cache") = S (S n)) as [n ->].
  { exists (String.length root + 4)%nat. rewrite length_append. cbn. lia. }
  assert (root ≠ ""%string) as Hne by (unfold root; by destruct pre).
  cbn [with_parents]. destruct (String.eqb_spec (root +:+ "/cache") "") as [E|_]; [by destruct root|].
  rewrite E3. right. destruct (String.eqb_spec root "") as [E|_]; [done|]. left.
Qed.

Lemma isolated_start ma u id o :
  auto_isolated ma → no_slash u → fresh_settings (worker_of ma u).(w_settings) o →
  ∃ o', start_worker ma u id o = (Ret ("worker_" +:+ id), o') ∧
    o'.(files) = <[(worker_of ma u).(w_settings) := archive_text ("worker_" +:+ id)]> o.(files) ∧
    o'.(read_denied) = o.(read_denied) ∧ o'.(write_denied) = o.(write_denied).
Proof.
  intros Ha Hu Hf. destruct (isolated_paths ma Ha) as [pre Hp]. destruct (Hp u Hu) as [E Hin].
  unfold start_worker, prepare_worker. destruct Ha as [Hn _]. rewrite Hn.
  rewrite !bind_run. unfold create_directories, modify. cbn [mret M_ret].
  rewrite first_identity; [by eexists|by destruct Hf|].
  cbn [dirs set_dirs]. rewrite E. apply elem_of_union_l, elem_of_list_to_set. exact Hin.
Qed.

(** Workers and their identities. Two workers started from one directory,
    each with a directory of its own, get the identities drawn for them. With
    [--no-worker-isolation] the second one reads the identity of the first;
    and if the cache directory does not exist yet, no worker starts at all. *)
Theorem worker_identities ma dist1 dist2 id1 id2 o :
  let u1 := uuid_String (uuid_New dist1) in
  let u2 := uuid_String (uuid_New dist2) in
  fresh_settings (worker_of ma u1).(w_settings) o → fresh_settings (worker_of ma u2).(w_settings) o →
  (auto_isolated ma → u1 ≠ u2 →
   ∃ o1 o2, start_worker ma u1 id1 o = (Ret ("worker_" +:+ id1), o1) ∧
     start_worker ma u2 id2 o1 = (Ret ("worker_" +:+ id2), o2)) ∧
  (ma.(noWorkerDirectory) = true →
   let dir := parent_path (worker_of ma u1).(w_settings) in
   (dir ∈ o.(dirs) →
    ∃ o1, start_worker ma u1 id1 o = (Ret ("worker_" +:+ id1), o1) ∧
      start_worker ma u2 id2 o1 = (Ret ("worker_" +:+ id1), o1)) ∧
   (dir ∉ o.(dirs) →
    start_worker ma u1 id1 o = (Throw (ios_failure "basic_ios::clear"), o))).
Proof.
  intros u1 u2 Hf1 Hf2. split.
  - intros Ha Hne.
    assert (no_slash u1 ∧ no_slash u2) as [Hu1 Hu2] by (split; eapply hex_no_slash, uuid_is_version_4).
    destruct (isolated_start ma u1 id1 o Ha Hu1 Hf1) as (o1 & E1 & Ef & Er & Ew).
    destruct (isolated_start ma u2 id2 o1 Ha Hu2) as (o2 & E2 & _).
    { destruct Hf2 as [Hn Hr Hw]. split; rewrite ?Ef, ?Er, ?Ew; try done.
      rewrite lookup_insert_ne; [done|]. intros E.
      destruct (isolated_paths ma Ha) as [pre Hp].
      destruct (Hp u1 Hu1) as [P1 _], (Hp u2 Hu2) as [P2 _]. rewrite E, P2 in P1.
      apply (inj (String.append pre)), (inj (String.append "worker_")) in P1. done. }
    by exists o1, o2.
  - intros Hn dir. unfold start_worker, prepare_worker. rewrite Hn.
    assert (worker_of ma u2 = worker_of ma u1) as -> by (unfold worker_of; by rewrite Hn).
    split; intros Hdir.
    + eexists. rewrite !bind_run. cbn [mret M_ret]. rewrite first_identity by done. split; [reflexivity|].
      by apply next_identity.
    + rewrite !bind_run. cbn [mret M_ret]. unfold start_identity, zoom, settings_disk.
      destruct Hf1 as [-> Hr Hw]. rewrite (bool_decide_eq_false_2 _ Hdir), andb_false_r.
      rewrite bool_decide_eq_true_2 by done. by destruct o.
Qed.
End Main.

(** ** Two workers of one directory *)

#[local] Existing Instance string_archive.
#[local] Instance string_archive_laws : ArchiveLaws string := CountableArchive_laws.

Definition new_disk : os :=
  {| files := ∅; dirs := ∅; read_denied := ∅; write_denied := ∅; remove_denied := ∅; disk_full := false;
     loaded := ∅; next_handle := 0; dlclose_ok := true; after_load_log := [] |}.

Definition uuid_1 : string := uuid_String (uuid_New (λ _, 1)).
Definition uuid_2 : string := uuid_String (uuid_New (λ _, 2)).

Lemma worker_identities_witness :
  ∃ o1 o2, start_worker main_args_init uuid_1 "a" new_disk = (Ret "worker_a"%string, o1) ∧
    start_worker main_args_init uuid_2 "b" o1 = (Ret "worker_b"%string, o2).
Proof.
  apply (worker_identities main_args_init (λ _, 1) (λ _, 2) "a" "b" new_disk).
  - by split.
  - by split.
  - by split.
  - vm_compute. done.
Defined.

(** [--worker --no-worker-isolation] in a new directory. *)
Definition shared_args : main_args := args_of [WorkerOpt; NoWorkerIsolation].

Example shared_directory_fails :
  start_worker shared_args uuid_1 "a" new_disk = (Throw (ios_failure "basic_ios::clear"), new_disk).
Proof. reflexivity. Qed.
