(* ===== verification/ControllerProcess.v ===== *)
(** * A controller's process with the distributed solver

    [distributed_solver] as the solver of the process's solver object: the end
    of the default task, and with it the exit status 0, then says what was
    computed: the states the solver went through from its construction to its
    destruction. *)
From S2P Require Import Prelude Doubles DoubleOrder WorkerInfo Messages Settings Pagmo Island PopulationTools.
From S2P Require Import WorkPlan Solver LibLoader UdpRegistry UdpWrapper Csv Numerals BenchmarkStats MainArgs.
From S2P Require Import Benchmarks BenchmarkSolver Logging Process Tasks Main.

Section ControllerProcess.
Context {UC : UdpCode} {N : Type} {ZM : Zmq}.
Context {PG : Pagmo} {PS : PagmoSort} {SS : StdSort} {PI : PagmoIsland} {PA : PagmoArchipelago} {PM : PagmoMetrics}.
Context {PL : PagmoLaws} {PIL : PagmoIslandLaws} {PAL : PagmoArchipelagoLaws} {BS : BenchmarkSuite}.
Context (env : nat → PlanEnvironment) {EL : ∀ k, @PlanEnvironmentLaws (env k)}.
Context (draws : nat → nat → nat → Z) (seeds : nat → nat → Z).
Context (patience : nat).
(** The controller's settings, which its thread changes while the solver works. *)
Context (settings_now : distributed_solver * nat → settings controller_settings).

#[local] Instance meta_solver : MetaSolver := distributed_meta_solver env draws seeds patience.

Definition start_distributed (s : settings controller_settings) (n : Z) (st : load_balancing_strategy) : solver :=
  (distributed_solver_new n st, 0%nat).

#[local] Instance distributed_running : RunningSolver := {|
  ds_start := start_distributed;
  ds_settings := settings_now
|}.

Context {AS : Archive (gmap string (work_stats * gmap string work_stats))} `{AV : Archive string}.
Context (any_of_unsigned : Z → any) (problem_of : udp_dll_wrapper → M (udp_registry N) problem).
Context (set_verbosity : Z → algorithm → algorithm) (null_problem : problem).
Context (clock : nat → Z) (dates log_stamps : nat → string).
Context (client_loops : M (worker_object * process N) Empty_set).
Context (get_dll : worker_object → string → M N (option bytes)).

Abbreviation default_problem := (default_problem any_of_unsigned problem_of).
Abbreviation main := (main any_of_unsigned problem_of set_verbosity null_problem clock dates log_stamps
  client_loops get_dll).
Abbreviation controller_task := (controller_task any_of_unsigned problem_of set_verbosity null_problem clock dates
  log_stamps).

Lemma solver_call_ret {A} (m : M solver A) (s s' : solver_object * process N) a :
  solver_call m s = (Ret a, s') →
  m s.1.(solver_members) = (Ret a, s'.1.(solver_members)).
Proof. unfold solver_call, zoom. destruct (m _) as [o d]. by intros [= -> <-]. Qed.

(** What the task's solver [s] goes through until it is [s']: the expected
    workers were connected at some moment of the wait, and then the problem was
    evolved, twice in a row, each evolution awaited. *)
Definition evolved_twice (prob : problem) (algo : algorithm) (s s' : distributed_solver) : Prop :=
  ∃ u s1 x1 x2,
    s.(_expectedWorkerCount) ≤ Z.of_nat (get_worker_count (repo_at (H := env 0) u)) ∧
    evolution env draws seeds 1 prob [algo] 1000 1 s s1 x1 ∧
    evolution env draws seeds 2 prob [algo] 1000 1 s1 s' x2.

(** One evolution of a ready solver. *)
Lemma one_evolution prob algo (s s1 s2 : solver_object * process N) d k x :
  s.1.(solver_members) = (d, k) → ready d →
  solver_call (ds_evolve prob [algo] 1000 1) s = (Ret tt, s1) →
  solver_call ds_wait_until_completion s1 = (Ret x, s2) →
  ∃ d', s2.1.(solver_members) = (d', S k) ∧ ready d' ∧ evolution env draws seeds k prob [algo] 1000 1 d d' x.
Proof.
  intros Hs Hr E1%solver_call_ret E2%solver_call_ret. rewrite Hs in E1. cbn in E1.
  destruct (evolve (PE := env k) _ _ _ _ _ _ _ _) as [o d1] eqn:E. injection E1 as -> E1.
  rewrite <- E1 in E2. cbn in E2. unfold zoom in E2. cbn [fst snd] in E2.
  destruct (wait_until_completion d1) as [o d'] eqn:Ew. injection E2 as -> E2.
  exists d'. split; [done|]. split.
  - eapply wait_ready; [exact Ew|]. exact (evolve_ready (env k) _ _ _ _ _ _ _ _ _ _ E Hr).
  - apply (evolution_run env draws seeds k prob [algo] 1000 1 d d1); [done|done|lia|done|done].
Qed.

Lemma evolve_twice_ret prob algo (s s' : solver_object * process N) d :
  s.1.(solver_members) = (d, 0%nat) → ready d → evolve_twice prob algo s = (Ret tt, s') →
  ∃ d', s'.1.(solver_members) = (d', 3%nat) ∧ evolved_twice prob algo d d'.
Proof.
  intros Hs Hr. unfold evolve_twice. intros ([] & s0 & E0%solver_call_ret & H)%bind_ret_inv.
  rewrite Hs in E0. cbn in E0. injection E0 as E0 Es0.
  unfold wait_until_expected_connect, wait_until_workers_connect in E0.
  destruct (@controller_repository (env 0) 0) as [r| |]; [|done..]. cbn [mbind outcome_bind] in E0.
  destruct (repository_wait _ _ _) as [u| |] eqn:Eu; [|done..].
  apply repository_wait_ret in Eu as (_ & Hu & _).
  apply bind_ret_inv in H as ([] & s1 & E1 & H). apply bind_ret_inv in H as (x1 & s2 & E2 & H).
  destruct (one_evolution _ _ _ _ _ _ _ _ (eq_sym Es0) Hr E1 E2) as (d1 & Hs2 & Hr2 & Hx1).
  apply bind_ret_inv in H as ([] & s3 & E3 & H). apply bind_ret_inv in H as (x2 & s4 & E4 & H).
  destruct (one_evolution _ _ _ _ _ _ _ _ Hs2 Hr2 E3 E4) as (d2 & Hs4 & _ & Hx2).
  injection H as <-. exists d2. split; [done|]. by exists u, d1, x1, x2.
Qed.

Lemma enable_keeps_solver stamp (s s' : solver_object * process N) o :
  solver_enable_logging stamp s = (o, s') → s'.1.(solver_members) = s.1.(solver_members).
Proof. unfold solver_enable_logging, base_call, zoom. destruct (enable_logging _ _ _ _). by intros [= _ <-]. Qed.

(** What the constructor makes, for the settings that were read. *)
Lemma solver_construct_members address n st (p : process N) o p' :
  solver_construct address n st p = (Ret o, p') → o.(solver_members) = start_distributed (settings_now o.(solver_members)) n st.
Proof.
  unfold solver_construct. intros (c & p1 & _ & H)%bind_ret_inv. apply bind_ret_inv in H as (s & p2 & _ & H).
  by injection H as <- _.
Qed.

(** The default task that completed: the solver object it constructed, the
    states its members went through, and its destruction. *)
Definition task_did (address : string) (n : Z) (st : load_balancing_strategy) (dir : string)
    (algo : algorithm) (p p' : process N) : Prop :=
  ∃ prob p1 o p2 d (last : solver_object * process N) last',
    default_problem dir p = (Ret prob, p1) ∧
    solver_construct address n st p1 = (Ret o, p2) ∧ o.(solver_members) = (distributed_solver_new n st, 0%nat) ∧
    evolved_twice prob algo (distributed_solver_new n st) d ∧
    last.1.(solver_members) = (d, 3%nat) ∧ solver_destroy last = (Ret tt, last') ∧ last'.2 = p'.

Lemma default_task_evolves address n st dir dl p p' :
  0 < n → default_controller_task any_of_unsigned problem_of set_verbosity log_stamps address n st dir dl p = (Ret tt, p') →
  task_did address n st dir (set_verbosity 0 (de 1500)) p p'.
Proof.
  intros Hn. unfold default_controller_task. intros (prob & p1 & Ep & H)%bind_ret_inv.
  apply with_object_ret in H as (o & p2 & os & os' & Ec & Eu & Ed & Ho).
  apply bind_ret_inv in Eu as ([] & s1 & E1 & Eu).
  assert (s1.1.(solver_members) = o.(solver_members)) as Hs1.
  { destruct dl; [by injection E1 as <-|]. apply bind_ret_inv in E1 as (t & s0 & E0 & E1).
    injection E0 as _ <-. by apply enable_keeps_solver in E1. }
  pose proof (solver_construct_members _ _ _ _ _ _ Ec) as Ho'. rewrite Ho' in Hs1.
  assert (ready (distributed_solver_new n st)) as Hr by by split.
  destruct (evolve_twice_ret _ _ _ _ _ Hs1 Hr Eu) as (d & Hd & He).
  by exists prob, p1, o, p2, d, os, os'.
Qed.

(** C11. A controller started without benchmark options that ends with the status
    0 has done its work. Its task constructed the problem of the library and
    the solver, whose expected workers were all connected at some moment; then
    it evolved the problem twice, and awaited each evolution, before the solver
    was destroyed. Each of the two evolutions started its archipelago by a work
    plan of its own moment, with the task's algorithm on every island and
    without hints, and went on from what the one before had left; its wait
    returned the best individual of the archipelago it ended with (the best for
    a problem with one objective, no constraints and fitnesses that are
    numbers). *)
Theorem controller_exit_zero argv0 argv dirUuid idUuid p ma p' :
  parse_main_args argv = Ret (Some ma) → ma.(runSOBenchmark) = false → ma.(runMOBenchmark) = false →
  0 < ma.(workers) →
  main argv0 argv dirUuid idUuid p = (Ret 0, p') →
  ma.(isController) = true ∧
  ∃ p1, start_logging ma p = (Ret tt, p1) ∧
    task_did (controller_of ma).(c_address) ma.(workers) (controller_of ma).(c_strategy)
      (controller_of ma).(c_cacheDir) (set_verbosity 0 (de 1500)) p1 p'.
Proof.
  intros Hp Hso Hmo Hn (ma' & p1 & Hp' & Hc & Hl & Ht)%main_exit_zero. rewrite Hp in Hp'. injection Hp' as <-.
  split; [done|]. exists p1. split; [done|]. unfold controller_task in Ht.
  assert (c_runSO (controller_of ma) || c_runMO (controller_of ma) = false) as Eb by (cbn; by rewrite Hso, Hmo).
  rewrite Eb in Ht. by apply default_task_evolves in Ht.
Qed.
End ControllerProcess.
