(* ===== verification/Problems.v ===== *)
(** * run_example/problems: the example libraries

    Two dynamic libraries with one problem class each: their exported functions
    (allocator, deleter, cloner, run_after_load) and classes are the library
    code that LibLoader and UdpWrapper are parameterised by. [pagmo::schwefel]
    is a class of parameters. *)
From Stdlib Require Import Strings.Byte.
From S2P Require Import Prelude Doubles Messages Pagmo PopulationTools Codec LibLoader UdpWrapper.

(** ** example_problem_single_objective *)

Record example_problem_single_objective := example_new {}.

Definition dbl (z : Z) : double := double_of_Z z.
#[local] Infix "*." := double_mul (at level 40, left associativity).
#[local] Infix "+." := double_add (at level 50, left associativity).
#[local] Infix "-." := double_sub (at level 50, left associativity).

Definition example_fitness (_ : example_problem_single_objective) (dv : vector_double) : outcome vector_double :=
  dv0 ← index dv 0;
  dv1 ← index dv 1;
  dv2 ← index dv 2;
  dv3 ← index dv 3;
  Ret [dv0 *. dv3 *. (dv0 +. dv1 +. dv2) +. dv2;
       dv0 *. dv0 +. dv1 *. dv1 +. dv2 *. dv2 +. dv3 *. dv3 -. dbl 40;
       dbl 25 -. dv0 *. dv1 *. dv2 *. dv3].

Definition example_get_bounds (_ : example_problem_single_objective) : outcome (vector_double * vector_double) :=
  Ret ([dbl 1; dbl 1; dbl 1; dbl 1], [dbl 5; dbl 5; dbl 5; dbl 5]).

Definition example_class : udp_base example_problem_single_objective := {|
  o_fitness := example_fitness;
  o_get_bounds := example_get_bounds;
  o_has_capability := None; o_get_nobj := None;
  o_get_nec := Some (λ _, Ret 1); o_get_nic := Some (λ _, Ret 1); o_get_nix := None;
  o_get_extra_info := None; o_get_thread_safety := None; o_get_name := None;
  o_batch_fitness := None; o_gradient := None; o_gradient_sparsity := None;
  o_hessians := None; o_hessians_sparsity := None; o_set_seed := None |}.

(** ** schwefel_udp *)

(** [pagmo::schwefel{dim}], which may refuse its dimension; [schwefel 1] exists. *)
Class PagmoSchwefel := {
  schwefel_refuses : Z → option exn;
  schwefel_fitness : Z → vector_double → outcome vector_double;
  schwefel_bounds : Z → outcome (vector_double * vector_double)
}.

(** What a [std::any] holds, as far as the libraries look at it. *)
Inductive any_value :=
  | any_none
  | any_unsigned (n : Z)
  | any_other.

Record schwefel_udp := { m_dim : Z }.

Section Schwefel.
Context {SW : PagmoSchwefel}.

Definition schwefel_new (dim : Z) : exn + schwefel_udp :=
  match schwefel_refuses dim with
  | Some e => inl e
  | None => inr {| m_dim := dim |}
  end.

Definition schwefel_construct (dim : any_value) : exn + schwefel_udp :=
  match dim with
  | any_none => schwefel_new 1
  | any_unsigned n => schwefel_new n
  | any_other => inl (runtime_error "Schwefel UDP only accepts dim (unsigned) as its parameter.")
  end.

Definition schwefel_class : udp_base schwefel_udp := {|
  o_fitness := λ s dv, schwefel_fitness s.(m_dim) dv;
  o_get_bounds := λ s, schwefel_bounds s.(m_dim);
  o_has_capability := None; o_get_nobj := None; o_get_nec := None; o_get_nic := None; o_get_nix := None;
  o_get_extra_info := None; o_get_thread_safety := None; o_get_name := None;
  o_batch_fitness := None; o_gradient := None; o_gradient_sparsity := None;
  o_hessians := None; o_hessians_sparsity := None; o_set_seed := None |}.

(** [save], [load]: only the dimension is stored. A failing [load] leaves the
    default object, and throws on. *)
Context `{AZ : Archive Z}.

Definition schwefel_save (s : schwefel_udp) : bytes := archive_text s.(m_dim).

Definition schwefel_load (text : bytes) : M schwefel_udp unit :=
  try_catch
    (dim ← lift (match archive_read text with
                 | Some dim => Ret dim
                 | None => Throw (archive_exception "input stream error")
                 end);
     s ← lift (match schwefel_new dim with inl e => Throw e | inr s => Ret s end);
     put_state s)
    (λ e, _ ← put_state {| m_dim := 1 |}; throw e).

(** What was saved is loaded into any object; a failure leaves the default. *)
Lemma schwefel_save_load `{AZL : !ArchiveLaws Z} s s0 :
  schwefel_refuses s.(m_dim) = None → schwefel_load (schwefel_save s) s0 = (Ret tt, s).
Proof.
  intros Hs. unfold schwefel_load, schwefel_save, try_catch. rewrite bind_run. unfold lift.
  rewrite archive_roundtrip. rewrite bind_run. unfold schwefel_new. rewrite Hs. by destruct s.
Qed.

Lemma schwefel_load_fails text s0 e s :
  schwefel_load text s0 = (Throw e, s) → s = {| m_dim := 1 |}.
Proof.
  unfold schwefel_load, try_catch. rewrite bind_run. unfold lift.
  destruct (archive_read text) as [dim|]; [|by intros [= _ <-]].
  rewrite bind_run. destruct (schwefel_new dim); by intros [= _ <-].
Qed.

(** ** The libraries *)

Inductive example_udp :=
  | Example_problem (p : example_problem_single_objective)
  | Schwefel_udp (s : schwefel_udp).

Definition udp_get_lib_file_name (u : example_udp) : string :=
  match u with
  | Example_problem _ => "problems"
  | Schwefel_udp _ => "schwefel_udp"
  end.

Context (problems_image schwefel_image main_image : bytes).

(** [allocator] of the library an image is. *)
Definition allocator (image : bytes) (params : any_value) : exn + example_udp :=
  if decide (image = schwefel_image) then
    match schwefel_construct params with inl e => inl e | inr s => inr (Schwefel_udp s) end
  else inr (Example_problem example_new).

(** [cloner]; [clone_udp] passes no null pointer. *)
Definition cloner (image : bytes) (other : example_udp) : example_udp := other.

Definition example_symbols : list string := ["allocator"; "deleter"; "cloner"; "run_after_load"].

#[export] Instance example_code : UdpCode := {|
  any := any_value;
  no_params := any_none;
  udp := example_udp;
  udp_lib_name := udp_get_lib_file_name;
  image_loadable := λ image, bool_decide (image = problems_image ∨ image = schwefel_image);
  image_symbol := λ image s, existsb (String.eqb s) example_symbols;
  image_allocate := allocator;
  image_clone := cloner;
  program_image := main_image
|}.
End Schwefel.

(** The example problem's fitness has its objective and both constraints for
    every point of its dimension, and is undefined for shorter ones. *)
Lemma example_fitness_total p dv :
  (4 ≤ length dv)%nat → ∃ f, example_fitness p dv = Ret f ∧ length f = 3%nat.
Proof.
  intros Hl. destruct dv as [|a [|b [|c [|e dv]]]]; cbn in Hl; try lia.
  by eexists.
Qed.

Example example_fitness_at_ones :
  example_fitness example_new [dbl 1; dbl 1; dbl 1; dbl 1] = Ret [dbl 4; dbl (-36); dbl 24].
Proof. reflexivity. Qed.

(** ** A concrete Schwefel function: the sum of the coordinates *)

#[local] Instance toy_schwefel : PagmoSchwefel := {|
  schwefel_refuses := λ n, if n =? 0 then Some (invalid_argument "dimension") else None;
  schwefel_fitness := λ n dv, Ret [foldr double_add double_zero dv];
  schwefel_bounds := λ n, Ret (replicate (Z.to_nat n) (dbl (-500)), replicate (Z.to_nat n) (dbl 500))
|}.

Example allocator_parameters :
  (allocator [x01] [x01] (any_unsigned 2), allocator [x01] [x01] (any_unsigned 0), allocator [x01] [x01] any_other) =
  (inr (Schwefel_udp {| m_dim := 2 |}), inl (invalid_argument "dimension"),
   inl (runtime_error "Schwefel UDP only accepts dim (unsigned) as its parameter.")).
Proof. reflexivity. Qed.
