(* ===== verification/MainScenario.v ===== *)
(** * Concrete processes

    Controllers and workers over the toy Pagmo, with the example library of
    problems and sockets that know which endpoints are in use. *)
From Stdlib Require Import Strings.Byte.
From S2P Require Import Prelude Doubles DoubleOrder WorkerInfo Messages Settings Codec Pagmo Island PopulationTools.
From S2P Require Import WorkPlan Solver WorkScenario Worker LibLoader UdpRegistry UdpWrapper Uuid BenchmarkStats.
From S2P Require Import BenchmarkReport Benchmarks BenchmarkSolver MainArgs Logging Process Tasks Main ControllerProcess Problems.

#[local] Existing Instance toy_metrics.
#[local] Existing Instance string_archive.
#[local] Existing Instance stats_archive.
#[local] Existing Instance toy_solver.
#[local] Existing Instance toy_schwefel.

Definition problems_file : bytes := [x70].
Definition schwefel_file : bytes := [x73].

#[local] Instance site_code : UdpCode := example_code problems_file schwefel_file [x00].

(** Endpoints in use. *)
#[local] Instance endpoints : Zmq := {|
  net := gset string;
  zmq_bind a := λ n, if decide (a ∈ n) then (Throw (runtime_error "Address already in use"), n) else (Ret tt, {[a]} ∪ n);
  zmq_connect a := λ n, (Ret tt, n);
  zmq_close a n := n ∖ {[a]}
|}.

Definition toy_settings (s : distributed_solver * nat) : settings controller_settings :=
  {| _settings := struct_init; _autoSave := true |}.

#[local] Instance toy_running : RunningSolver (MS := toy_solver) :=
  distributed_running toy_env (λ _, draws) (λ _ _, 7) 1 toy_settings.

(** The problem of a wrapper that holds the Schwefel problem. *)
Definition toy_problem_of (w : UdpWrapper.udp_dll_wrapper) : M (udp_registry unit) problem :=
  match w.(_udpPtr) with
  | Some {| object := Schwefel_udp {| m_dim := 2 |} |} => mret toy_problem_1
  | _ => throw (invalid_argument "problem")
  end.

Definition home_os (library : bool) : os :=
  {| files := if library then {["controller_cache/schwefel_udp.so"%string := schwefel_file]} else ∅;
     dirs := {["."; "controller_cache"]}%string; read_denied := ∅; write_denied := ∅; remove_denied := ∅;
     disk_full := false; loaded := ∅; next_handle := 0; dlclose_ok := true; after_load_log := [] |}.

(** A new process: no library is loaded, nothing is bound. *)
Definition new_process (library : bool) : process unit :=
  {| registry := udp_registry_new (home_os library) tt; logs := registry_new; sockets := ∅ : net;
     clock_readings := 0; standard_output := "" |}.

(** A client loop that fails. *)
Definition failing_loops : M (worker_object * process unit) Empty_set := throw (runtime_error "poll").

Definition toy_main : string → list string → string → string → M (process unit) Z :=
  main (UC := site_code) (N := unit) any_unsigned toy_problem_of (λ _ a, a) toy_problem_1 toy_clock (λ _, "now"%string) (λ _, "T"%string)
    failing_loops (λ _ _ n, (Ret None, n)).

Definition status (r : outcome Z * process unit) : outcome Z := r.1.

Definition controller_run : outcome Z * process unit :=
  toy_main "./run" ["--controller"] "d" "i" (new_process true).

(** The default task: two evolutions, a log file, and everything closed. *)
Example default_controller_succeeds :
  let r := controller_run in
  status r = Ret 0 ∧ bool_decide (r.2.(sockets) = ∅) = true ∧
  is_Some (r.2.(registry).(_os).(files) !! "./logs/solver_T.log"%string) ∧
  is_Some (r.2.(registry).(_os).(files) !! "./controller_settings.xml"%string).
Proof. vm_compute. split_and!; try done; by eexists. Qed.

Lemma controller_exit_zero_witness :
  controller_run.1 = Ret 0 ∧ ∃ p1,
    start_logging (args_of [MainArgs.Controller]) (new_process true) = (Ret tt, p1) ∧
    task_did toy_env (λ _, draws) (λ _ _, 7) 1 toy_settings any_unsigned toy_problem_of "tcp://0.0.0.0:5000" 2
      BY_PERFORMANCE "controller_cache" "de"%string p1 controller_run.2.
Proof.
  assert (controller_run = (Ret 0, controller_run.2)) as E.
  { rewrite <- (proj1 default_controller_succeeds). apply surjective_pairing. }
  split; [by rewrite E|].
  exact (proj2 (controller_exit_zero (UC := site_code) (N := unit) toy_env (λ _, draws) (λ _ _, 7) 1 toy_settings
    any_unsigned toy_problem_of (λ _ a, a) toy_problem_1 toy_clock (λ _, "now"%string) (λ _, "T"%string)
    failing_loops (λ _ _ n, (Ret None, n)) "./run" ["--controller"]%string "d" "i" (new_process true)
    (args_of [MainArgs.Controller]) controller_run.2 eq_refl eq_refl eq_refl eq_refl E)).
Defined.

(** The help text of an unknown option. *)
Example help_is_printed :
  let r := toy_main "bin/run" ["--controller"; "--fast"] "d" "i" (new_process true) in
  status r = Ret 2 ∧ String.substring 0 41 r.2.(standard_output) = "Usage:" +:+ newline +:+ "  run --controller [options]" +:+ newline +:+ "  run".
Proof. vm_compute. split; reflexivity. Qed.

(** Without the library the default task fails before there is a solver. *)
Example missing_library :
  status (toy_main "./run" ["--controller"] "d" "i" (new_process false)) = Ret 2.
Proof. vm_compute. reflexivity. Qed.

Lemma disable_logging_never_starts_witness :
  ∃ r p', toy_main "./run" ["--worker"; "--disable-logging"] "d" "i" (new_process true) = (r, p') ∧
    p'.(sockets) = (new_process true).(sockets) ∧ r = Ret 2.
Proof.
  destruct (disable_logging_never_starts (UC := site_code) (N := unit) any_unsigned toy_problem_of (λ _ a, a) toy_problem_1 toy_clock
    (λ _, "now"%string) (λ _, "T"%string) failing_loops (λ _ _ n, (Ret None, n))
    "./run" ["--worker"; "--disable-logging"] "d" "i" (new_process true) (args_of [WorkerOpt; DisableLogging]))
    as (r & p' & E & Hs & [->|(Hc & _)]).
  - vm_compute. reflexivity.
  - reflexivity.
  - reflexivity.
  - exists (Ret 2), p'. by split_and!.
  - discriminate.
Defined.

Lemma both_benchmarks_never_finish_witness :
  ∀ p', toy_main "./run" ["--controller"; "--benchmark-so"; "--benchmark-mo"] "d" "i" (new_process true) ≠ (Ret 0, p').
Proof.
  intros p'.
  apply (both_benchmarks_never_finish (UC := site_code) (N := unit) any_unsigned toy_problem_of (λ _ a, a) toy_problem_1 toy_clock
    (λ _, "now"%string) (λ _, "T"%string) failing_loops (λ _ _ n, (Ret None, n))
    "./run" _ "d" "i" (new_process true) (args_of [MainArgs.Controller; BenchmarkSo; BenchmarkMo])); reflexivity.
Defined.

Definition sample_worker : worker_args := worker_of (args_of [WorkerOpt]) "d".

Definition prepared : outcome worker_args * process unit :=
  on_proc_os (prepare_worker (args_of [WorkerOpt]) "d") (new_process true).

Lemma failure_after_start_crashes_witness :
  ∃ f p', toy_main "./run" ["--worker"] "d" "i" (new_process true) = (Crash f, p').
Proof.
  destruct (failure_after_start_crashes (UC := site_code) (N := unit) any_unsigned toy_problem_of (λ _ a, a)
    toy_problem_1 toy_clock (λ _, "now"%string) (λ _, "T"%string) failing_loops (λ _ _ n, (Ret None, n))
    "./run" ["--worker"] "d" "i" (new_process true) (args_of [WorkerOpt])) as [H _].
  - by intros t x t' [= _ <-].
  - reflexivity.
  - reflexivity.
  - assert (prepared = (Ret sample_worker, prepared.2)) as Ew by reflexivity.
    assert (match (construct_worker sample_worker "i" prepared.2).1 with Ret _ => true | _ => false end = true) as Hc
      by (vm_compute; reflexivity).
    destruct (construct_worker sample_worker "i" prepared.2) as [[o|e|f] p2] eqn:Eo; [|discriminate Hc..].
    exact (H eq_refl _ _ _ _ Ew Eo).
Defined.
