(* ===== verification/UnitTests.v ===== *)
(** * test/: the project's own tests, on the model

    A Catch2 test case runs each of its sections on fresh objects; a [REQUIRE]
    that does not hold ends the section. Here a case is a list of named sections,
    computations on the state its objects are in, and it passes when every
    section returns. The sections are those of the files under test/, with the
    model's definitions in place of the code's. The tests of population_tools
    are in PopulationTests.v; the only test left out measures how long
    [wait_until_worker_count] sleeps. *)
From Stdlib Require Import Strings.Byte.
From S2P Require Import Prelude Doubles WorkerInfo Messages Sockets Settings Pagmo Codec LruCache HashCache.
From S2P Require Import Sha256Spec LibLoader UdpRegistry UdpScenario.

(** ** Assertions *)

Definition REQUIRE {S} (b : bool) : M S unit :=
  if b then mret tt else throw (runtime_error "REQUIRE").

(** [REQUIRE] of what a call returns. *)
Definition REQUIRE_that {S} (m : M S bool) : M S unit := b ← m; REQUIRE b.
Definition REQUIRE_not {S} (m : M S bool) : M S unit := b ← m; REQUIRE (negb b).

(** The call throws, and [type] is the type of the exception. *)
Definition REQUIRE_THROWS_AS {S A} (m : M S A) (type : exn → bool) : M S unit := λ s,
  match m s with
  | (Throw e, s) => REQUIRE (type e) s
  | (Ret _, s) => REQUIRE false s
  | (Crash f, s) => (Crash f, s)
  end.

Definition is_runtime_error (e : exn) : bool := match e with runtime_error _ => true | _ => false end.
Definition is_out_of_range (e : exn) : bool := match e with out_of_range _ => true | _ => false end.

Record test_case := {
  test_state : Type;
  fixture : test_state;
  sections : list (string * M test_state unit)
}.
Arguments Build_test_case {test_state} fixture sections.

(** The sections of a case that do not pass. *)
Definition failures (t : test_case) : list string :=
  omap (λ s : string * M t.(test_state) unit,
    match (s.2 t.(fixture)).1 with Ret _ => None | _ => Some s.1 end) t.(sections).

Definition bytes_of (n : nat) (b : byte) : bytes := replicate n b.
Definition counting_bytes (f n : Z) : bytes := (λ i, byte_of_Z (Z.of_nat i * f)) <$> seq 0 (Z.to_nat n).

(** ** discovery/lru_cache_test.cpp *)

Abbreviation lru_test := (M (lru_cache string) unit).
Definition lru_sections (cap : nat) (s : list (string * lru_test)) : test_case :=
  Build_test_case (lru_cache_new cap) s.

(** [put] for each pair. *)
Definition puts (kvs : list (string * string)) : lru_test := for_each kvs (λ kv, put kv.1 kv.2).
Definition present (ks : list string) : lru_test := for_each ks (λ k, REQUIRE_that (contains k)).
Definition absent (ks : list string) : lru_test := for_each ks (λ k, REQUIRE_not (contains k)).
Definition gets (k v : string) : lru_test := x ← get k; REQUIRE (String.eqb x v).

Definition lru_put_operation : test_case := lru_sections 3 [
  ("put single item", _ ← puts [("key1", "value1")]; present ["key1"]);
  ("put multiple items",
    _ ← puts [("key1", "value1"); ("key2", "value2"); ("key3", "value3")]; present ["key1"; "key2"; "key3"]);
  ("put overwrites existing value", _ ← puts [("key1", "value1"); ("key1", "updated")]; gets "key1" "updated")
]%string.

Definition lru_get_operation : test_case := lru_sections 3 [
  ("get returns correct value", _ ← puts [("key1", "value1")]; gets "key1" "value1");
  ("get updates recency",
    _ ← puts [("key1", "val1"); ("key2", "val2"); ("key3", "val3")]; _ ← get "key1"; _ ← put "key4" "val4";
    _ ← present ["key1"]; absent ["key2"]);
  ("get throws for missing key", REQUIRE_THROWS_AS (get "missing") is_out_of_range)
]%string.

Definition lru_contains_operation : test_case := lru_sections 2 [
  ("contains true for present key", _ ← put "key1" "val"; present ["key1"]);
  ("contains false for absent key", absent ["missing"]);
  ("contains false for evicted key",
    _ ← puts [("key1", "val1"); ("key2", "val2"); ("key3", "val3")]; absent ["key1"])
]%string.

Definition lru_eviction_policy : test_case := lru_sections 2 [
  ("least recently used is evicted",
    _ ← puts [("key1", "val1"); ("key2", "val2"); ("key3", "val3")]; _ ← absent ["key1"]; present ["key2"; "key3"]);
  ("access updates recency order",
    _ ← puts [("key1", "val1"); ("key2", "val2")]; _ ← get "key1"; _ ← put "key3" "val3";
    _ ← present ["key1"]; _ ← absent ["key2"]; present ["key3"]);
  ("put update moves to front",
    _ ← puts [("key1", "val1"); ("key2", "val2"); ("key1", "updated"); ("key3", "val3")];
    _ ← present ["key1"]; absent ["key2"])
]%string.

Definition lru_erase_operation : test_case := lru_sections 3 [
  ("erase removes item", _ ← put "key1" "val"; _ ← LruCache.erase "key1"; absent ["key1"]);
  ("erase non-existent is safe", LruCache.erase "missing");
  ("erase can create space",
    _ ← puts [("key1", "val1"); ("key2", "val2"); ("key3", "val3")]; _ ← LruCache.erase "key1";
    _ ← put "key4" "val4"; _ ← absent ["key1"]; present ["key4"])
]%string.

Definition lru_clear_operation : test_case := lru_sections 3 [
  ("", _ ← puts [("key1", "val1"); ("key2", "val2"); ("key3", "val3")]; _ ← clear;
       absent ["key1"; "key2"; "key3"])
]%string.

Definition lru_edge_cases : test_case := lru_sections 1 [
  ("capacity of 1", _ ← puts [("k1", "v1"); ("k2", "v2")]; _ ← absent ["k1"]; present ["k2"]);
  ("capacity of 0 creates minimal behavior", _ ← put "x" "10"; gets "x" "10")
]%string.

(** ** discovery/hash_cache_test.cpp *)

Definition hash_sections (cap : nat) (s : list (string * M hash_cache unit)) : test_case :=
  Build_test_case (hash_cache_new cap) s.

Definition hash_data : bytes := bytes_of 20 x00.

Definition hash_file_operation : test_case := hash_sections 5 [
  ("hash_file returns non-empty hash", h ← hash_file "file1" hash_data; REQUIRE (String.length h =? 64)%nat);
  ("hash_file stores in cache", _ ← hash_file "file1" hash_data; REQUIRE_that (has_file "file1"));
  ("same content produces same hash",
    h1 ← hash_file "f1" [xaa; xbb]; h2 ← hash_file "f2" [xaa; xbb]; REQUIRE (String.eqb h1 h2));
  ("different content produces different hash",
    h1 ← hash_file "f1" (bytes_of 20 x01); h2 ← hash_file "f2" (bytes_of 20 x02); REQUIRE (negb (String.eqb h1 h2)))
]%string.

Definition hash_get_file_hash : test_case := hash_sections 5 [
  ("get_file_hash returns cached value",
    h1 ← hash_file "file1" hash_data; h2 ← get_file_hash "file1"; REQUIRE (bool_decide (h2 = Some h1)));
  ("get_file_hash returns nullopt for missing", h ← get_file_hash "missing"; REQUIRE (bool_decide (h = None)))
]%string.

Definition hash_has_file : test_case := hash_sections 5 [
  ("has_file true for cached", _ ← hash_file "file1" hash_data; REQUIRE_that (has_file "file1"));
  ("has_file false for missing", REQUIRE_not (has_file "missing"))
]%string.

Definition hash_erase : test_case := hash_sections 5 [
  ("erase removes from cache",
    _ ← hash_file "file1" hash_data; _ ← erase_hash "file1"; REQUIRE_not (has_file "file1"));
  ("erase non-existent is safe", erase_hash "missing")
]%string.

Definition hash_capacity : test_case := hash_sections 2 [
  ("respects capacity limit",
    _ ← hash_file "f1" (bytes_of 10 x01); _ ← hash_file "f2" (bytes_of 10 x02); _ ← hash_file "f3" (bytes_of 10 x03);
    _ ← REQUIRE_not (has_file "f1"); _ ← REQUIRE_that (has_file "f2"); REQUIRE_that (has_file "f3"))
]%string.

Definition hash_large_files : test_case := hash_sections 3 [
  ("handles large binary data",
    h ← hash_file "large" (counting_bytes 1 10000); _ ← REQUIRE (negb (String.eqb h ""));
    REQUIRE_that (has_file "large"))
]%string.

(** ** discovery/udp_registry_test.cpp *)

Abbreviation registry_test := (M (udp_registry nat) unit).

(** The registry of a process in an empty directory. *)
Definition fresh_registry : udp_registry nat := udp_registry_new (toy_os ∅) 0%nat.

Definition create_directory (d : string) : registry_test :=
  on_os (modify (λ o, set_dirs ({[d]} ∪ o.(dirs)) o)).

(** The directories of these tests hold no files. *)
Definition remove_all (d : string) : registry_test :=
  on_os (modify (λ o, set_dirs (o.(dirs) ∖ {[d]}) o)).

Definition exists_dir (d : string) : M (udp_registry nat) bool := r ← get_state; mret (exists_path d r.(_os)).

Definition registry_directories : test_case := Build_test_case fresh_registry [
  ("set local cache directory",
    let testDir := "./test_udp_cache_0" in
    _ ← create_directory testDir; _ ← set_local_cache_dir testDir; _ ← REQUIRE_that (exists_dir testDir);
    remove_all testDir)
]%string.

Definition registry_file_access : test_case := Build_test_case fresh_registry [
  ("get_lib_as_file returns nullopt for missing",
    let testDir := "./test_udp_files_0" in
    _ ← create_directory testDir; _ ← set_local_cache_dir testDir;
    result ← get_lib_as_file "nonexistent.dll"; _ ← REQUIRE (bool_decide (result = None));
    remove_all testDir)
]%string.

Definition registry_in_memory : test_case := Build_test_case fresh_registry [
  ("use_in_memory_cache", _ ← use_in_memory_cache true; use_in_memory_cache false)
]%string.

(** ** logic/settings_test.cpp *)

(** The state is the file of the test; each construction draws another UUID. *)
Section SettingsTests.
#[local] Existing Instance string_archive.

Abbreviation worker_file := (settings worker_settings * disk)%type.

Definition no_file : disk := {| file := None; readable := true; writable := true |}.

(** A settings object in a block. *)
Definition with_settings {A} (uuid : string) (autoSave : bool) (use : M worker_file A) : M disk A := λ d,
  match settings_construct (SS := worker_settings_serialized uuid) autoSave d with
  | (Ret s, d) => let '(o, (_, d)) := use (s, d) in (o, d)
  | (Throw e, d) => (Throw e, d)
  | (Crash f, d) => (Crash f, d)
  end.

Definition the_id (uuid : string) : M worker_file string :=
  settings_call (SS := worker_settings_serialized uuid) (λ w, (Ret w.(workerId), w)).
Definition set_id (uuid id : string) : M worker_file unit :=
  settings_call (SS := worker_settings_serialized uuid) (λ _, (Ret tt, {| workerId := id |})).
Definition save_file (uuid : string) : M worker_file unit := save (SS := worker_settings_serialized uuid).

Definition settings_basic_operations : test_case := Build_test_case no_file [
  ("save and load",
    _ ← with_settings "1" false (_ ← set_id "1" "test_worker_id"; save_file "1");
    with_settings "2" false (id ← the_id "2"; REQUIRE (String.eqb id "test_worker_id")));
  ("missing file initializes",
    with_settings "1" false (id ← the_id "1"; REQUIRE (negb (String.eqb id ""))));
  ("auto-save enabled",
    savedId ← with_settings "1" true (id ← the_id "1"; _ ← the_id "1"; mret id);
    with_settings "2" false (id ← the_id "2"; REQUIRE (String.eqb id savedId)))
]%string.

Definition settings_worker_settings : test_case := Build_test_case no_file [
  ("worker id persists",
    originalId ← with_settings "1" false (id ← the_id "1"; _ ← save_file "1"; mret id);
    with_settings "2" false (id ← the_id "2"; REQUIRE (String.eqb id originalId)))
]%string.
End SettingsTests.

(** ** logic/worker_info_repository_test.cpp *)

Abbreviation repo_test := (M worker_info_repository unit).

Definition join (w : string) : repo_test := worker_joined w worker_info_init.

(** A job that takes [sleep] milliseconds. *)
Definition work (start sleep : Z) (w : string) (n : Z) (a : string) : repo_test :=
  _ ← worker_started_work (start * 1000000) w; worker_finished_work ((start + sleep) * 1000000) w n a.

Definition require_count (n : nat) : repo_test := r ← get_state; REQUIRE (get_worker_count r =? n)%nat.

(** [REQUIRE] of the statistics of a worker; false when it has none. *)
Definition require_info (w : string) (p : worker_info → bool) : repo_test :=
  r ← get_state; REQUIRE (match get_worker_info w r with Some i => p i | None => false end).

Definition repository_join_leave : test_case := Build_test_case repository_init [
  ("worker join adds to connected",
    _ ← join "worker1"; r ← get_state; REQUIRE (bool_decide ("worker1"%string ∈ get_connected_workers r)));
  ("worker leave removes from connected", _ ← join "worker1"; _ ← worker_left "worker1"; require_count 0);
  ("multiple workers",
    _ ← join "w1"; _ ← join "w2"; _ ← join "w3"; _ ← require_count 3; _ ← worker_left "w2"; require_count 2)
]%string.

Definition repository_work_tracking : test_case := Build_test_case repository_init [
  ("track single job",
    _ ← join "worker1"; _ ← work 0 20 "worker1" 50 "DE";
    require_info "worker1" (λ i, (i.(totalStats).(processedPopulation) =? 50)%Z && (0 <? i.(totalStats).(workTime))%Z));
  ("track multiple jobs",
    _ ← join "worker1"; _ ← work 0 10 "worker1" 100 "DE"; _ ← work 10 10 "worker1" 200 "PSO";
    require_info "worker1" (λ i, (i.(totalStats).(processedPopulation) =? 300)%Z));
  ("stats by algorithm",
    _ ← join "worker1"; _ ← work 0 5 "worker1" 100 "DE"; _ ← work 5 5 "worker1" 150 "DE";
    _ ← work 10 5 "worker1" 50 "PSO";
    require_info "worker1" (λ i,
      ((stats_at i.(statsByAlgorithm) "DE").(processedPopulation) =? 250)%Z &&
      ((stats_at i.(statsByAlgorithm) "PSO").(processedPopulation) =? 50)%Z))
]%string.

Definition repository_queries : test_case := Build_test_case repository_init [
  ("get info for unknown worker", r ← get_state; REQUIRE (bool_decide (get_worker_info "unknown" r = None)));
  ("get connected workers",
    _ ← join "w1"; _ ← join "w2"; r ← get_state;
    REQUIRE (bool_decide (get_connected_workers r = {["w1"; "w2"]}%string)))
]%string.

Definition repository_errors : test_case := Build_test_case repository_init [
  ("start work on unknown throws", REQUIRE_THROWS_AS (worker_started_work 0 "unknown") is_runtime_error);
  ("finish work on unknown throws",
    REQUIRE_THROWS_AS (worker_finished_work 0 "unknown" 100 "DE") is_runtime_error)
]%string.

(** ** messages/serialization_test.cpp *)

Section SerializationTests.
#[local] Existing Instance toy_container_archive.
#[local] Existing Instance request_archive.
#[local] Existing Instance binary_archive.

Abbreviation container := (work_container (algorithm (Pagmo := ToyPagmo)) (population (Pagmo := ToyPagmo))).
Abbreviation bytes_test := (M unit unit).

Definition not_empty (b : bytes) : bytes_test := REQUIRE (negb (bool_decide (b = []))).
Definition test_population : population (Pagmo := ToyPagmo) := population_new (Pagmo := ToyPagmo) 1%nat 20 7.

(** [work_container()] *)
Definition default_container : container := mk_work_container "" (population_new (Pagmo := ToyPagmo) 0%nat 0 0) "" 0.

Definition serialization_work_container : test_case := Build_test_case tt [
  ("round-trip serialization",
    let original : container := mk_work_container "de" test_population "worker_1" 3 in
    let serialized := vector_serialize original in
    _ ← not_empty serialized; deserialized ← lift (vector_deserialize (A := container) serialized);
    _ ← REQUIRE (String.eqb deserialized.(preferredWorkerId) "worker_1");
    _ ← REQUIRE (deserialized.(cycleCount) =? 3)%Z;
    REQUIRE (population_size deserialized.(pop) =? population_size test_population)%Z);
  ("default constructor fields",
    deserialized ← lift (vector_deserialize (A := container) (vector_serialize default_container));
    _ ← REQUIRE (String.eqb deserialized.(preferredWorkerId) ""); REQUIRE (deserialized.(cycleCount) =? 0)%Z);
  ("different algorithms",
    _ ← not_empty (vector_serialize (mk_work_container "de" test_population "" 1 : container));
    not_empty (vector_serialize (mk_work_container "pso" test_population "" 1 : container)))
]%string.

Definition request_roundtrip (name : string) : bytes_test :=
  let serialized := vector_serialize (mk_get_dll_request name) in
  _ ← not_empty serialized; deserialized ← lift (vector_deserialize (A := get_dll_request) serialized);
  REQUIRE (String.eqb deserialized.(request_dll_name) name).

Definition serialization_get_dll_request : test_case := Build_test_case tt [
  ("round-trip", request_roundtrip "myudp.dll");
  ("various filenames",
    for_each ["simple.dll"; "path/to/file.dll"; "special_chars_123.dll"; "a.b.c.dll"] request_roundtrip)
]%string.

Definition binary_roundtrip (name : string) (f : option bytes) : bytes_test :=
  let serialized := vector_serialize (mk_dll_binary_container name f) in
  _ ← not_empty serialized; deserialized ← lift (vector_deserialize (A := dll_binary_container) serialized);
  _ ← REQUIRE (String.eqb deserialized.(dll_name) name); REQUIRE (bool_decide (deserialized.(dll_file) = f)).

Definition serialization_dll_binary_container : test_case := Build_test_case tt [
  ("with file data", binary_roundtrip "lib.dll" (Some (counting_bytes 1 100)));
  ("without file data (nullopt)", binary_roundtrip "missing.dll" None);
  ("large file data", binary_roundtrip "large.dll" (Some (counting_bytes 7 10000)))
]%string.

Definition serialization_errors : test_case := Build_test_case tt [
  ("empty buffer throws", REQUIRE_THROWS_AS (lift (vector_deserialize (A := container) [])) is_runtime_error);
  ("corrupted data throws",
    REQUIRE_THROWS_AS (lift (vector_deserialize (A := container) [xff; xff])) (λ _, true))
]%string.

(** ** sockets/socket_roundtrip_test.cpp *)

(** The test only sends; here the router also receives what was sent. *)
Definition routed_request (client lib : string) : bytes_test :=
  let message := client_socket_send_object GET_DLL (mk_get_dll_request lib) in
  match router_socket_receive (zmq_router_incoming client message) with
  | Received (id, type, b) _ =>
      r ← lift (vector_deserialize (A := get_dll_request) b);
      REQUIRE (String.eqb id client && bool_decide (type = GET_DLL) && String.eqb r.(request_dll_name) lib)
  | _ => REQUIRE false
  end.

Definition socket_messaging : test_case := Build_test_case tt [
  ("dealer-router round-trip", routed_request "client1" "test.dll");
  ("multiple clients", _ ← routed_request "client1" "lib1.dll"; routed_request "client2" "lib2.dll")
]%string.
End SerializationTests.

(** ** utils/platform_utils_test.cpp *)

Definition platform_utilities : test_case := Build_test_case tt [
  ("portable_dll_extension",
    _ ← REQUIRE (negb (String.eqb portable_dll_extension ""));
    _ ← REQUIRE (String.prefix "." portable_dll_extension); REQUIRE (String.eqb portable_dll_extension ".so"));
  ("error_msg non-empty", REQUIRE (negb (String.eqb error_msg "")))
]%string.

(** ** The tests pass *)

Definition unit_tests : list test_case := [
  lru_put_operation; lru_get_operation; lru_contains_operation; lru_eviction_policy; lru_erase_operation;
  lru_clear_operation; lru_edge_cases; hash_file_operation; hash_get_file_hash; hash_has_file; hash_erase;
  hash_capacity; hash_large_files; registry_directories; registry_file_access; registry_in_memory;
  settings_basic_operations; settings_worker_settings; repository_join_leave; repository_work_tracking;
  repository_queries; repository_errors; serialization_work_container; serialization_get_dll_request;
  serialization_dll_binary_container; serialization_errors; socket_messaging; platform_utilities
].

(** The two tests on 10000 bytes, for files of any content. *)
Lemma binary_roundtrip_passes name f : (binary_roundtrip name f tt).1 = Ret tt.
Proof.
  assert (ArchiveLaws dll_binary_container (H := binary_archive)) as HL by apply CountableArchive_laws.
  unfold binary_roundtrip. rewrite bind_run. unfold not_empty.
  rewrite bool_decide_eq_false_2 by (rewrite vector_serialize_text; apply archive_header).
  cbn [negb REQUIRE mret M_ret]. rewrite bind_run. unfold lift. rewrite deserialize_serialize.
  rewrite bind_run. cbn [dll_name]. rewrite String.eqb_refl. cbn [REQUIRE mret M_ret dll_file].
  by rewrite bool_decide_eq_true_2.
Qed.

Lemma hash_large_passes file :
  ((h ← hash_file "large" file; _ ← REQUIRE (negb (String.eqb h "")); REQUIRE_that (has_file "large"))
     (hash_cache_new 3)).1 = Ret tt.
Proof.
  rewrite bind_run. unfold hash_file. rewrite bind_run. cbn [lift]. rewrite sha_hash, bind_run.
  assert (String.eqb (sha256_hex file) "" = false) as Hh.
  { destruct (String.eqb_spec (sha256_hex file) "") as [E|]; [|done].
    apply (f_equal String.length) in E. unfold sha256_hex in E. by rewrite hex_digits_length in E. }
  generalize dependent (sha256_hex file). intros h Hh.
  set (c := (put "large" h (hash_cache_new 3)).2).
  assert (put "large" h (hash_cache_new 3) = (Ret tt, c)) as -> by reflexivity.
  cbn [mret M_ret]. cbv iota beta. rewrite bind_run, Hh. reflexivity.
Qed.

(** The tests of the repository pass on the model: every section of every
    test case runs through without a failed assertion, an unexpected exception
    or undefined behaviour. *)
Theorem unit_tests_pass : Forall (λ t, failures t = []) unit_tests.
Proof.
  unfold unit_tests. repeat apply List.Forall_cons; [..|apply List.Forall_nil].
  all: first
    [ solve [unfold failures, hash_large_files, hash_sections; cbn [omap list_omap sections test_state fixture snd];
             rewrite hash_large_passes; reflexivity]
    | solve [unfold failures, serialization_dll_binary_container;
             cbn [omap list_omap sections test_state fixture snd];
             rewrite !binary_roundtrip_passes; reflexivity]
    | vm_compute; reflexivity ].
Qed.
