(* ===== verification/PopulationTests.v ===== *)
(** * test/logic/population_tools_test.cpp, for every random population

    The tests build islands of random individuals for [pagmo::schwefel(3)]. The
    populations and the problem are the Pagmo library's, so the sections are
    shown to pass for whatever Pagmo draws: for every unconstrained problem of
    one objective in three variables, and all seeds. *)
From S2P Require Import Prelude Doubles DoubleOrder Pagmo PopulationTools WorkerLogic Codec UnitTests.

Section PopulationTests.
Context {PG : Pagmo} {PS : PagmoSort} {SS : StdSort} {PL : PagmoLaws} {PSL : PagmoSortLaws}.
Context (prob : problem) (seeds : nat → Z) (random : Z).

(** What the tests rely on of [pagmo::schwefel(3)]. *)
Record schwefel_3 : Prop := {
  one_objective : get_nobj prob = 1;
  unconstrained : get_nc prob = 0;
  three_variables : ∀ x, compatible prob x = true → length x = 3%nat;
  finite_fitness : ∀ n s, valid_fitness (get_f (population_new prob n s))
}.

(** [archi.push_back(pagmo::island(pagmo::de(100), prob, n))], for each [n]. *)
Definition test_archipelago (sizes : list Z) : list population :=
  imap (λ i n, population_new prob n (seeds i)) sizes.

Definition merged (sizes : list Z) : list vector_double * list vector_double :=
  merge_populations (test_archipelago sizes).

Definition require_length {A} (l : list A) (n : nat) : M unit unit := REQUIRE (length l =? n)%nat.

Definition merge_populations_tests : test_case := Build_test_case tt [
  ("single island",
    let '(pops, fits) := merged [10] in _ ← require_length pops 10; require_length fits 10);
  ("multiple islands",
    let '(pops, fits) := merged [5; 7; 3] in
    _ ← REQUIRE (15 <=? length pops)%nat; REQUIRE (15 <=? length fits)%nat)
]%string.

Definition best_of (n : Z) (N : nat) : M unit unit :=
  let '(pops, fits) := merged [n] in
  best ← lift (select_best_N_individuals prob pops fits N); require_length best N.

Definition select_individuals_tests : test_case := Build_test_case tt [
  ("select N < size", best_of 30 10);
  ("select N = size",
    let '(pops, fits) := merged [30] in
    best ← lift (select_best_N_individuals prob pops fits (length pops)); require_length best (length pops));
  ("select N = 0", best_of 30 0)
]%string.

Definition new_population_of (n : Z) (N : nat) : M unit population :=
  let '(pops, fits) := merged [n] in
  lift (select_best_N_into_new_population prob pops fits N None random).

Definition new_population_tests : test_case := Build_test_case tt [
  ("create new population", newPop ← new_population_of 20 5; REQUIRE (population_size newPop =? 5)%Z);
  ("population contains valid individuals", newPop ← new_population_of 20 5; require_length (get_x newPop) 5)
]%string.

Definition select_individual_tests : test_case := Build_test_case tt [
  ("returns single best",
    let '(pops, fits) := merged [20] in
    best ← lift (select_best_individual prob pops fits); require_length best 3)
]%string.

Definition unconstrained_tests : test_case := Build_test_case tt [("", best_of 20 5)]%string.

Definition population_tests : list test_case :=
  [merge_populations_tests; select_individuals_tests; new_population_tests; select_individual_tests;
   unconstrained_tests].

(** ** Lemmas *)

Lemma merged_sizes sizes : Forall (λ n, 0 ≤ n) sizes →
  length (merged sizes).1 = sum_list (Z.to_nat <$> sizes) ∧
  length (merged sizes).2 = sum_list (Z.to_nat <$> sizes).
Proof.
  intros Hs. unfold merged. rewrite merge_populations_parallel. cut (length (merged sizes).1 = sum_list (Z.to_nat <$> sizes)); [done|].
  unfold merged. rewrite merged_length. unfold test_archipelago. f_equal.
  apply list_eq. intros i. rewrite !list_lookup_fmap, list_lookup_imap.
  destruct (sizes !! i) as [n|] eqn:E; [|done]. cbn. f_equal.
  pose proof (Forall_lookup_1 _ _ _ _ Hs E) as Hn. cbn in Hn.
  pose proof (population_new_size prob n (seeds i) Hn) as H. unfold population_size in H. lia.
Qed.

Lemma merged_one n : merged [n] = (get_x (population_new prob n (seeds 0)), get_f (population_new prob n (seeds 0))).
Proof. unfold merged, test_archipelago. rewrite merge_populations_concat. cbn. by rewrite !app_nil_r. Qed.

Lemma mapM_index {A} (l : list A) idxs :
  Forall (λ i, i < length l)%nat idxs →
  ∃ xs, mapM (index l) idxs = Ret xs ∧ length xs = length idxs ∧ Forall (λ x, x ∈ l) xs.
Proof.
  induction 1 as [|i idxs Hi _ (xs & E & Hl & Hin)]; [by exists []|].
  destruct (lookup_lt_is_Some_2 l i Hi) as [x Hx]. exists (x :: xs).
  assert (index l i = Ret x) as Hix by (unfold index; by rewrite Hx).
  cbn. rewrite Hix. cbn [mbind outcome_bind]. rewrite E. cbn [mbind outcome_bind mret outcome_ret].
  split_and!; [done|cbn; lia|]. constructor; [by eapply list_elem_of_lookup_2|done].
Qed.

(** Selecting from one island of [n] random individuals. *)
Lemma select_from n N : schwefel_3 → 0 ≤ n → (N ≤ Z.to_nat n)%nat →
  let '(pops, fits) := merged [n] in
  length pops = Z.to_nat n ∧
  (∃ best, select_best_N_individuals prob pops fits N = Ret best ∧ length best = N ∧
     Forall (λ x, length x = 3%nat) best) ∧
  ∃ p, select_best_N_into_new_population prob pops fits N None random = Ret p ∧ population_size p = Z.of_nat N.
Proof.
  intros [Hobj Hnc H3 Hfin] Hn HN. destruct (merged_sizes [n]) as [Hl1 Hl2]; [by repeat constructor|].
  rewrite merged_one in Hl1, Hl2 |- *. cbn in Hl1, Hl2. rewrite Nat.add_0_r in Hl1, Hl2. set (p0 := population_new prob n (seeds 0)) in *.
  assert (all_compatible prob (get_x p0)) as Hc.
  { apply list.Forall_forall. intros x Hx.
    pose proof (individuals_compatible _ _ Hx) as Hcx. unfold p0 in Hcx. by rewrite population_new_problem in Hcx. }
  assert (sorts_return prob (get_f p0)) as Hs by (split; [intros _ _; apply Hfin|intros; exfalso; lia|done]).
  split; [done|]. split.
  - destruct (best_indexes_distinct prob (get_f p0) N Hs) as (idx & E & Hlen & _ & Hin); [lia|lia|].
    unfold select_best_N_individuals. rewrite E. cbn [mbind outcome_bind].
    destruct (mapM_index (get_x p0) idx) as (best & Em & Hb & Hxs); [by rewrite Hl1, <- Hl2|].
    exists best. split; [done|]. split; [congruence|]. revert Hxs. apply Forall_impl. intros x Hx.
    apply H3. by apply (proj1 (list.Forall_forall _ _) Hc).
  - destruct (best_selection prob (get_x p0) (get_f p0) N None random Hs) as (p & _ & E & _ & _ & Hp & _);
      [lia|done|lia|lia|]. by exists p.
Qed.

Lemma require_length_passes {A} (l : list A) n : length l = n → require_length l n tt = (Ret tt, tt).
Proof. intros <-. unfold require_length. by rewrite Nat.eqb_refl. Qed.

Lemma best_of_passes n N : schwefel_3 → 0 ≤ n → (N ≤ Z.to_nat n)%nat → best_of n N tt = (Ret tt, tt).
Proof.
  intros Hp Hn HN. pose proof (select_from n N Hp Hn HN) as H. unfold best_of.
  destruct (merged [n]) as [pops fits]. destruct H as (_ & (best & E & Hl & _) & _).
  rewrite bind_run. cbn [lift]. rewrite E. by apply require_length_passes.
Qed.

Lemma new_population_passes n N : schwefel_3 → 0 ≤ n → (N ≤ Z.to_nat n)%nat →
  ∃ p, new_population_of n N tt = (Ret p, tt) ∧ population_size p = Z.of_nat N.
Proof.
  intros Hp Hn HN. pose proof (select_from n N Hp Hn HN) as H. unfold new_population_of.
  destruct (merged [n]) as [pops fits]. destruct H as (_ & _ & p & E & Hs). exists p.
  unfold lift. by rewrite E.
Qed.

(** The tests of population_tools pass on the model whatever the random
    populations are: merging islands keeps every individual, as many individuals
    are selected as asked for, up to all of them and none, and the best
    individual has the problem's dimension. *)
Theorem population_tests_pass : schwefel_3 → Forall (λ t, failures t = []) population_tests.
Proof.
  intros Hp. unfold population_tests. repeat apply List.Forall_cons; [..|apply List.Forall_nil];
    unfold failures; cbn [omap list_omap sections test_state fixture snd fst merge_populations_tests
      select_individuals_tests new_population_tests select_individual_tests unconstrained_tests].
  - destruct (merged_sizes [10]) as [H1 H2]; [by repeat constructor|].
    destruct (merged_sizes [5; 7; 3]) as [H3 H4]; [by repeat constructor|].
    destruct (merged [10]) as [p1 f1], (merged [5; 7; 3]) as [p2 f2]. cbn [fst snd] in *.
    rewrite bind_run, !require_length_passes by done. rewrite H3, H4. done.
  - rewrite !best_of_passes by (done || lia).
    pose proof (select_from 30 30 Hp ltac:(lia) ltac:(lia)) as H. destruct (merged [30]) as [pops fits].
    destruct H as (Hl & (best & E & Hb & _) & _). rewrite bind_run. cbn [lift].
    rewrite Hl. change (Z.to_nat 30) with 30%nat. rewrite E, require_length_passes by done. done.
  - destruct (new_population_passes 20 5) as (p & E & Hs); [done|lia|lia|].
    rewrite !bind_run, !E, Hs. rewrite require_length_passes; [done|]. unfold population_size in Hs. lia.
  - pose proof (select_from 20 1 Hp ltac:(lia) ltac:(lia)) as H. destruct (merged [20]) as [pops fits].
    destruct H as (_ & (best & E & Hb & H3) & _). destruct best as [|x []]; [done| |done].
    inversion_clear H3 as [|? ? Hx _]. unfold select_best_individual. rewrite bind_run. cbn [lift].
    rewrite E. cbn [mbind outcome_bind at_ lookup list_lookup]. by rewrite require_length_passes.
  - by rewrite best_of_passes by (done || lia).
Qed.
End PopulationTests.

(** ** Populations of three variables *)

(** The sum of the components stands for Schwefel's function. *)
Definition sum_of (x : vector_double) : vector_double := [foldl double_add double_zero x].

Definition in_space (x : vector_double) : bool := (length x =? 3)%nat.
Definition space_vector (x : vector_double) : vector_double :=
  if in_space x then x else [double_zero; double_zero; double_zero].

#[local] Instance SpacePagmo : Pagmo := {|
  algorithm := string;
  problem := unit;
  population := toy_population;
  algorithm_get_name := λ a, a;
  get_nobj := λ _, 1;
  get_nc := λ _, 0;
  get_nec := λ _, 0;
  fitness := λ _, sum_of;
  compatible := λ _, in_space;
  get_problem := λ _, tt;
  get_seed := toy_seed;
  get_x := λ p, space_vector <$> toy_x p;
  get_f := λ p, sum_of <$> (space_vector <$> toy_x p);
  population_new := λ _ n s, {| toy_problem := 0; toy_seed := s; toy_x := replicate (Z.to_nat n) [] |};
  set_x := λ i x p,
    if decide (i < length (toy_x p))%nat then
      if in_space x then Ret {| toy_problem := 0; toy_seed := toy_seed p; toy_x := <[i := x]> (toy_x p) |}
      else Throw (invalid_argument "decision vector of the wrong dimension")
    else Throw (invalid_argument "cannot access individual at that position")
|}.

Lemma space_vector_in x : in_space (space_vector x) = true.
Proof. unfold space_vector. by destruct (in_space x) eqn:E. Qed.

#[local] Instance SpacePagmoLaws : PagmoLaws.
Proof.
  split.
  - intros p. cbn. by rewrite length_fmap.
  - intros [] n s Hn. unfold population_size. cbn. rewrite length_fmap, length_replicate. lia.
  - by intros [].
  - done.
  - intros p x Hx. cbn in *. apply list_elem_of_fmap in Hx as (y & -> & _). apply space_vector_in.
  - intros i x p Hi Hx. cbn in *. rewrite length_fmap in Hi. rewrite decide_True, Hx by done.
    eexists. split; [done|]. cbn.
    assert (space_vector x = x) as Hsv by (unfold space_vector; by rewrite Hx).
    rewrite !list_fmap_insert, Hsv. done.
  - intros i x p Hi Hx. cbn in *. rewrite length_fmap in Hi. rewrite decide_True, Hx by done. by eexists.
  - intros i x p Hi. cbn in *. rewrite length_fmap in Hi. rewrite decide_False by lia. by eexists.
Qed.

#[local] Instance SpaceSort : PagmoSort (PG := SpacePagmo) := {|
  get_c_tol := λ _, [];
  sort_population_con := λ f _ _, Ret (seq 0 (length f));
  sort_population_mo := λ f, Ret (seq 0 (length f))
|}.

#[local] Instance SpaceSortLaws : PagmoSortLaws (PS := SpaceSort).
Proof. split; cbn; intros; by simplify_eq. Qed.

Lemma space_schwefel_3 : schwefel_3 (PG := SpacePagmo) tt.
Proof.
  split; [done|done|by intros x Hx; apply Nat.eqb_eq in Hx|].
  intros n s. cbn. rewrite !fmap_replicate. apply Forall_replicate. by split.
Qed.

Lemma population_tests_pass_witness :
  schwefel_3 (PG := SpacePagmo) tt ∧
  Forall (λ t, failures t = []) (population_tests (PG := SpacePagmo) (PS := SpaceSort) tt (λ _, 7) 5).
Proof.
  split; [apply space_schwefel_3|].
  apply (population_tests_pass (PG := SpacePagmo) (PS := SpaceSort) tt (λ _, 7) 5), space_schwefel_3.
Defined.
